(* ===== verification/_CoqProject ===== *)
-Q . S2P
Prelude.v
Binary.v
Text.v
Wire.v
WireFormats.v
WireTargets.v
Channel.v
Cwire.v
Identity.v
Datagram.v
Hub.v
Bridge.v
Bridging.v
Session.v
Stream.v
Discovery.v
Machine.v
GoGen.v
Yaml.v
Tla.v
Sdk.v
CGen.v
Composed.v
PlantUml.v
PathSwitchGen.v
PairingGen.v
SessionGen.v
Exports.v
Generated.v
Lan.v
LanOffer.v
Backchannel.v
Daemon.v
Dial.v
Listener.v
Pairing.v
FaultProxy.v
CMachines.v
Driver.v
Activation.v
Ceremony.v
EndToEnd.v
CSession.v
