(* ===== verification/Prelude.v ===== *)
(** * Pigeon: a verification development

    Pigeon connects a backend and its paired clients through a relay that
    sees only ciphertext.  A backend registers with the relay and keeps a pool
    of listen connections parked there; a client connects by instance id and
    the relay bridges it onto a parked connection; over the bridged QUIC
    connection both ends run a session with named message streams and datagram
    channels, encrypted end to end under keys from an earlier pairing ceremony.
    A session may move to a direct LAN connection, and a local CLI drives
    pairing through a Unix socket.  This library models the Go implementation
    and proves what makes each part correct.

    ** Files

    The library's base:
    - [Prelude]: Go errors and results, bytes, machine integers, slices,
      hint databases and tactics shared by all files.
    - [Binary]: [encoding/binary] (fixed-width integers, varints).
    - [Text]: UTF-8 decoding, [base64.RawURLEncoding], and the class [JSON].

    Bytes on the wire and keys:
    - [Wire]: the codecs of wire_gen.go, message framing ([writeMessage],
      [readMessage] of webtransport.go), the route list of discovery.go.
    - [WireFormats]: protocol/wireformats.go, the formats, their validation
      and the Go codecs written for them; [WireTargets]: the codecs written for
      C, TypeScript, Kotlin and Swift (protocol/wireformats_*.go).
    - [Channel]: crypto/crypto.go (key derivation, SAS commitment, the
      sequence-numbered AEAD channel, pairing records).
    - [Cwire]: the keys and AEAD channels of a session, the Go wrappers of
      cwire/ with the functions of c/src/crypto.c they call.
    - [Identity]: crypto/identity.go (file-backed identities).
    - [Datagram]: fragment.go and the datagram half of api.go.

    The relay:
    - [Hub]: session.go, auth.go, and the handlers of quicserver.go and
      webtransport.go, as interleaved handler programs.
    - [Bridge]: what one copy loop of the bridge forwards (session.go,
      streamctl.go); [Bridging]: the bridge's goroutines run together.

    The ends of a session:
    - [Session]: stream rendezvous, [AcceptStream], drain and close
      (api.go, stream_lifecycle.go) as interleaved goroutines.
    - [Stream]: [OpenStream], [Stream.Send], [Stream.Recv] (api.go).
    - [Discovery]: [Enumerate] and its handler (discovery.go).
    - [Lan]: the LAN server's challenges and the carrier swap (lan.go,
      lan_upgrade.go); [LanOffer]: the offer exchange of both ends with the
      server.
    - [Backchannel], [Daemon]: the CLI's socket (backchannel/): names, frames
      and dispatch; and [Listen], [Accept], [Close] as system calls.
    - [Dial]: relay dials, stream handles, [Register], [Connect] and
      [activate] (transport.go, pigeon.go, cgo_transport.go, api.go).
    - [Listener]: the pool of listen connections (api.go).
    - [Pairing]: the rendezvous token and the ceremony's goroutines (pairing/).
    - [EndToEnd]: the ceremony, the activation inside [Connect] and [activate]
      and the streams of the two sessions, together.

    The exchanges that libpigeon runs over them (c/src/, cwire/):
    - [CMachines]: the committed C machines (c/src/session_gen.c,
      c/src/pairingceremony_gen.c) and the Go mirrors of cwire/pairing.go.
    - [Driver]: C drivers as trees of callbacks, the Go functions that answer
      them (cwire/gotransport.go, listener.go) and the two transports of the Go
      side (cgo_transport.go, pairing/cgo_pair.go).
    - [Activation]: the auth_request / auth_ok handshake (c/src/activation.c and
      its wrappers in cwire/connect.go and listener.go).
    - [Ceremony]: the messages of the pairing ceremony, its two drivers and
      their wrappers (c/src/pairing.c, cwire/pairing.go).
    - [CSession]: the C library's own sessions, with which SDKs built on it
      connect, their codecs and their Go wrappers (c/src/pigeon.c, wire_gen.c,
      cwire/cwire.go, session.go, gotransport.go, listener.go, connect.go).

    The protocol framework (protocol/):
    - [Machine]: protocol tables, [Validate] and the executor (protocol.go,
      machine.go).
    - [Yaml]: from a decoded document to a table (yaml.go).
    - [GoGen]: the Go generator and the meaning of its output (gogen.go);
      [Sdk]: the Swift, Kotlin and TypeScript machines (swift.go, kotlin.go,
      typescript.go); [CGen]: the C machines (cgen.go); [Composed]: the
      dispatchers of composed actors in all five languages.
    - [Tla]: the TLA+ export and its semantics (tla.go).
    - [PathSwitchGen], [PairingGen], [SessionGen]: the three committed documents
      and the code generated for them (pathswitch.yaml, pairing.yaml,
      session.yaml; pathswitch_gen.go, pairing/pairingceremony_gen.go,
      session_gen.go); [Generated]: what those machines do; [Exports]: what
      cmd/protogen writes for them in TLA+, as diagrams and in the other
      languages.
    - [PlantUml]: the state diagrams (plantuml.go).

    Testing:
    - [FaultProxy]: the fault-injecting UDP proxy (faultproxy/).

    ** How the code is modelled

    Definitions keep the names of the Go functions.  A pure function is a Rocq
    function; a function with an error returns [result] or [option error],
    errors with their format strings and wrapping.  Integers are [Z] with the
    width's wrap-around written out, byte slices [list byte].  Concurrent code
    is a step function on an explicit state: one step per section under a lock,
    channel operation, system call or blocking call, so that a list of events
    is an interleaving of goroutines with the environment, and theorems quantify
    over all of them.  What the network, the operating system and the random source
    return is an input of the step that meets it.  A C function that calls back
    into Go is a tree of its callbacks ([Driver.driver]), run over any
    implementation of the interface [GoTransport]; [Dial] and [Pairing] take the
    outcome of such a run as an input, and [EndToEnd] gives [Dial] the runs
    themselves.  Cryptographic primitives are
    the class [Channel.Primitives], libsodium's the class [Cwire.Sodium], with
    their contracts as laws, X.509 verification the class [Hub.X509], JSON codecs the
    class [Text.JSON]; each theorem that uses a law has a witness with a
    concrete instance.

    ** What the theorems show

    - Confidential transport ([Channel], [Cwire], [Stream], [Datagram], [Wire],
      [EndToEnd]): two ends that run the ceremony get records
      with which they connect and exchange messages in order both ways; the C channel of a session is the
      crypto package's and accepts no packet twice; packets decrypt in order, in datagram mode under
      any loss; accepted packets have strictly increasing numbers; nonces do not
      repeat; split datagrams reassemble within the size limit; frames, headers
      and tokens decode to what was encoded.
    - The C library ([CSession]): a client on it connects to a Go backend and
      exchanges messages with it; its streams, one of each name, and its
      datagrams, up to message numbers, are Go's, call for call; no incoming stream is lost while another is waited for.
    - The relay ([Hub], [Bridge], [Bridging]): a live instance is never displaced, slots are
      owned by running handlers, only admitted peers are registered or bridged,
      a parked listen is handed to one client, finished handlers have closed
      their connections and disconnected ones can return; a bridged stream
      forwards exactly the messages of its source; a bridge whose session is
      over, or whose primary forwarder has failed, returns.
    - Sessions ([Session], [Dial], [Listener], [Lan]): every stream the peer
      opens is in one place and none leaks; no goroutine of the rendezvous
      deadlocks; parked streams are bounded; a failed [Connect] or [Register]
      holds nothing; session keys come from the pairing record; pool
      connections and carriers are accounted for; LAN connections are accepted
      only for their own challenge.
    - Pairing and activation ([Ceremony], [Activation], [EndToEnd], [Pairing],
      [Identity], [Backchannel], [Daemon]): a key substituted in the ceremony was
      committed to before the acceptor's was sent, and shows in the code; an
      initiator reveals its key only to the token's; a backend's session is for a device its hook has a record of; the two ends
      of an activation agree; a record needs the local user's confirmation and
      goes to one caller; a ceremony whose session is closed ends; identities persist and agree; socket paths cannot escape their
      directory; only CLI events reach the executor, up to the first it refuses; a listening daemon keeps
      its socket.
    - Protocol framework ([Machine], [Yaml], [GoGen], [Tla]): flattening is
      inheritance, the executor takes the first enabled transition, validated
      protocols run within their declared states and guards; the hierarchy of a
      document that parses is a forest; a generated Go machine does what the
      executor does, callbacks that are not registered apart; every run of the
      executors whose actions carry out their transitions' sends and updates is a
      behaviour of the exported TLA+ module, so an invariant of the module
      holds at run time.
    - Other languages ([WireTargets], [Sdk], [CGen], [Composed]): the five
      encoders of a format write the same bytes and the decoders read plain texts alike; the
      C machine is the Go machine, the others are it without counter updates;
      the dispatchers route alike, up to the guards of Kotlin.
    - Committed protocols ([Generated], [Exports], [WireFormats]): the committed
      code is what the generators write for the committed documents; states past
      a check are reached only through it; ceremonies take all their steps.
    - Tools ([PlantUml], [FaultProxy]): a diagram draws the transitions of its
      actors, each once; the fault proxy sends, drops or keeps every packet
      exactly once, sends it where it belongs and counts it.

    Some theorems state misbehaviour that the code allows: a replayed activation
    that gives a session with the keys of the first; a second stream of a name
    in the C library, sealed again from number 0; a [Close] of the ceremony that
    misses the session being accepted; streams with long
    names that are not encrypted, streams accepted in cwire under a name cut at its
    first character outside ASCII, with the keys of that prefix; replay after a forged datagram (crypto
    package), overlapping sends, a cancelled receive, upgrades and accepts that
    race with [Close], overlapping [Listen] calls, a cancelled [Accept], a
    listener's [Close] reaching its sessions, a hostile route reply; a session
    backend of the other SDKs that never falls back to the relay, a checked
    pairing model without the adversary, session properties that are never
    checked, lengths that one language's decoder refuses and another accepts;
    committed diagrams that are empty; a fault proxy whose [Close] waits for
    ever, whose blackhole outlives its profile, or that panics.

    ** Fuel and bounds

    Loops over a byte stream take the stream's length plus one as fuel, since
    every iteration consumes input ([serve_session_dispatch], [decodeRoutes],
    [bridgeStream]); rune decoding takes the string's length; [Listen] takes
    nine steps, its longest sequence of system calls ([Daemon.rank]).  Each
    theorem about such a loop states that it returns a result.  Varint encoders
    take one step per seven bits of the value; [WireFormats.ordered] one per
    variant and [Yaml.treeOf] one per declared state (a forest is no deeper, by
    [yaml_hierarchy_is_forest]); [GoGen.ReplaceAll] one per character and one
    more, and [CGen.collapse] one per character, each round removing one.  The
    drivers of libpigeon have no loops: a run is as long as its tree is deep.
    Accepting a stream by name takes one step per stream the connection offers
    ([CSession.incoming_streams_accounted]).

    ** Not modelled

    QUIC, TLS, HTTP and the YAML package themselves (their results are inputs),
    the C library's listener, but for a session accepting streams, and its own transports (c/src/listener.c,
    loopback.c, ngtcp2_transport.c), comments, doc strings
    and layout of generated code, QR and status output, commands and examples,
    and the older copies of generated tables that no other code uses
    (protocol/session_gen.go, protocol/pairingceremony_gen.go). *)

From Stdlib Require Import ZArith Lia Strings.Byte Strings.String Strings.Ascii.
From stdpp Require Import base gmap strings list fin_maps.

(** ** Go errors *)

(** A formatting argument of [fmt.Errorf]. *)
Inductive arg :=
  | AInt (z : Z)
  | AStr (s : string).

(** A Go [error] value: [errors.New s], [fmt.Errorf fmt args], and
    [fmt.Errorf fmt args %w err], which wraps [err]. *)
Inductive error :=
  | ENew (s : string)
  | EFmt (fmt : string) (args : list arg)
  | EWrap (fmt : string) (args : list arg) (e : error).

#[export] Instance arg_eq_dec : EqDecision arg.
Proof. solve_decision. Defined.

#[export] Instance error_eq_dec : EqDecision error.
Proof. solve_decision. Defined.

(** A Go call that returns [(A, error)]: on a non-nil error the value is
    never read by the callers modelled here. *)
Inductive result (A : Type) :=
  | Ok (a : A)
  | Err (e : error).
Arguments Ok {A} a.
Arguments Err {A} e.

#[export] Instance result_eq_dec {A} `{EqDecision A} : EqDecision (result A).
Proof. solve_decision. Defined.

(** [errors.Is]: the error itself or one it wraps. *)
Fixpoint error_is (e target : error) : bool :=
  bool_decide (e = target) ||
  match e with
  | EWrap _ _ e' => error_is e' target
  | _ => false
  end.

Definition rbind {A B} (r : result A) (k : A -> result B) : result B :=
  match r with
  | Ok a => k a
  | Err e => Err e
  end.

(** [if err != nil { return fmt.Errorf(fmt, args, err) }] *)
Definition rwrap {A} (fmt : string) (args : list arg) (r : result A) : result A :=
  match r with
  | Ok a => Ok a
  | Err e => Err (EWrap fmt args e)
  end.

Definition is_ok {A} (r : result A) : bool :=
  match r with Ok _ => true | Err _ => false end.

Declare Scope go_scope.
Delimit Scope go_scope with go.
Notation "'let!' x ':=' c 'in' k" := (rbind c (fun x => k))
  (at level 10, x pattern, c at level 100, k at level 200) : go_scope.
Open Scope go_scope.

Lemma rbind_ok_inv {A B} (r : result A) (k : A -> result B) b :
  rbind r k = Ok b -> exists a, r = Ok a /\ k a = Ok b.
Proof. destruct r; simpl; [eauto | discriminate]. Qed.

Lemma rwrap_ok {A} fmt args (r : result A) a : rwrap fmt args r = Ok a <-> r = Ok a.
Proof. destruct r; simpl; split; congruence. Qed.

(** ** Bytes

    A Go [byte] is Corelib's [byte]; its integer value is in [0, 255], and a
    conversion [byte(z)] keeps the low eight bits. *)

Abbreviation bytes := (list byte).

#[export] Instance byte_eq_dec_inst : EqDecision byte := Byte.byte_eq_dec.

Definition b2z (b : byte) : Z := Z.of_N (Byte.to_N b).

Definition z2b (z : Z) : byte :=
  match Byte.of_N (Z.to_N (z mod 256)) with
  | Some b => b
  | None => x00
  end.

(** [len(x)] as a Go [int]. *)
Definition len {A} (l : list A) : Z := Z.of_nat (length l).

(** The bytes of a Go string, and the string of some bytes. *)
Abbreviation str_bytes := String.list_byte_of_string.
Abbreviation bytes_str := String.string_of_list_byte.

(** [len(s)] of a Go string, in bytes. *)
Definition slen (s : string) : Z := len (str_bytes s).

(** [strings.ToUpper] and [strings.ToLower] of one ASCII letter. *)
Definition toUpper (a : ascii) : ascii :=
  let n := nat_of_ascii a in
  if (97 <=? n)%nat && (n <=? 122)%nat then ascii_of_nat (n - 32) else a.
Definition toLower (a : ascii) : ascii :=
  let n := nat_of_ascii a in
  if (65 <=? n)%nat && (n <=? 90)%nat then ascii_of_nat (n + 32) else a.

Lemma b2z_range b : (0 <= b2z b < 256)%Z.
Proof. unfold b2z. pose proof (Byte.to_N_bounded b). lia. Qed.

Lemma b2z_z2b z : b2z (z2b z) = (z mod 256)%Z.
Proof.
  unfold z2b, b2z.
  pose proof (Z.mod_pos_bound z 256 ltac:(lia)).
  destruct (Byte.of_N _) as [b|] eqn:E.
  - apply Byte.to_of_N in E. rewrite E. lia.
  - pose proof (Byte.to_of_N_option_map (Z.to_N (z mod 256))) as Hm.
    rewrite E in Hm. simpl in Hm.
    destruct (N.leb_spec (Z.to_N (z mod 256)) 255); [discriminate | lia].
Qed.

Lemma z2b_b2z b : z2b (b2z b) = b.
Proof.
  unfold z2b. rewrite Z.mod_small by apply b2z_range.
  unfold b2z. rewrite N2Z.id, Byte.of_to_N. done.
Qed.

Lemma b2z_inj b1 b2 : b2z b1 = b2z b2 -> b1 = b2.
Proof. intros H. rewrite <-(z2b_b2z b1), <-(z2b_b2z b2), H. done. Qed.

Lemma b2z_small z : (0 <= z < 256)%Z -> b2z (z2b z) = z.
Proof. intros. rewrite b2z_z2b, Z.mod_small; lia. Qed.

Lemma str_bytes_str bs : str_bytes (bytes_str bs) = bs.
Proof. apply String.list_byte_of_string_of_list_byte. Qed.

Lemma bytes_str_bytes s : bytes_str (str_bytes s) = s.
Proof. apply String.string_of_list_byte_of_string. Qed.

Lemma str_bytes_inj s1 s2 : str_bytes s1 = str_bytes s2 -> s1 = s2.
Proof. intros H. rewrite <-(bytes_str_bytes s1), <-(bytes_str_bytes s2), H. done. Qed.

Lemma str_bytes_app s1 s2 : str_bytes (s1 +:+ s2) = str_bytes s1 ++ str_bytes s2.
Proof.
  induction s1 as [|a s1 IH]; [done |].
  change (byte_of_ascii a :: str_bytes (s1 +:+ s2) = byte_of_ascii a :: str_bytes s1 ++ str_bytes s2). by rewrite IH.
Qed.

Lemma len_nonneg {A} (l : list A) : (0 <= len l)%Z.
Proof. unfold len. lia. Qed.

Lemma len_app {A} (l1 l2 : list A) : len (l1 ++ l2) = (len l1 + len l2)%Z.
Proof. unfold len. rewrite length_app. lia. Qed.

Lemma len_cons {A} (x : A) l : len (x :: l) = (len l + 1)%Z.
Proof. unfold len. simpl. lia. Qed.

Lemma len_nil {A} : len (@nil A) = 0%Z.
Proof. done. Qed.

(** ** Machine integers *)

Definition u8 (z : Z) : Z := (z mod 2 ^ 8)%Z.
Definition u16 (z : Z) : Z := (z mod 2 ^ 16)%Z.
Definition u32 (z : Z) : Z := (z mod 2 ^ 32)%Z.
Definition u64 (z : Z) : Z := (z mod 2 ^ 64)%Z.

Lemma u64_range z : (0 <= u64 z < 2 ^ 64)%Z.
Proof. unfold u64. apply Z.mod_pos_bound. lia. Qed.

Lemma u64_small z : (0 <= z < 2 ^ 64)%Z -> u64 z = z.
Proof. intros. unfold u64. apply Z.mod_small. lia. Qed.

Lemma u32_small z : (0 <= z < 2 ^ 32)%Z -> u32 z = z.
Proof. intros. unfold u32. apply Z.mod_small. lia. Qed.

Lemma u16_small z : (0 <= z < 2 ^ 16)%Z -> u16 z = z.
Proof. intros. unfold u16. apply Z.mod_small. lia. Qed.

(** ** Automation *)

Create HintDb pigeon.
Create Rewrite HintDb len.
Create Rewrite HintDb gostr.
#[export] Hint Resolve b2z_range len_nonneg u64_range : pigeon.
#[export] Hint Rewrite @len_app @len_cons @len_nil : len.
#[export] Hint Rewrite str_bytes_str bytes_str_bytes : gostr.

(** Case analysis on the innermost scrutinee of a [match] of the goal or of
    a hypothesis, remembering the equation. *)
Ltac case_match_eqn :=
  match goal with
  | |- context [match ?x with _ => _ end] => destruct x eqn:?
  | H : context [match ?x with _ => _ end] |- _ => destruct x eqn:?
  end.

(** Equality of closed terms by conversion in the virtual machine, without
    writing out normal forms. *)
Ltac by_vm := match goal with |- ?x = ?y => exact (@eq_refl _ y <: x = y) end.

(** Split every boolean conjunction and [bool_decide] of the context. *)
Ltac bool_hyps :=
  repeat match goal with
  | H : (_ && _) = true |- _ => apply andb_prop in H as [? ?]
  | H : bool_decide _ = true |- _ => apply bool_decide_eq_true in H
  | H : bool_decide _ = false |- _ => apply bool_decide_eq_false in H
  | H : negb _ = true |- _ => apply negb_true_iff in H
  | H : negb _ = false |- _ => apply negb_false_iff in H
  | H : (_ || _) = false |- _ => apply orb_false_elim in H as [? ?]
  | H : (_ =? _)%Z = true |- _ => apply Z.eqb_eq in H
  | H : (_ =? _)%Z = false |- _ => apply Z.eqb_neq in H
  | H : (_ <? _)%Z = true |- _ => apply Z.ltb_lt in H
  | H : (_ <? _)%Z = false |- _ => apply Z.ltb_ge in H
  | H : (_ <=? _)%Z = true |- _ => apply Z.leb_le in H
  | H : (_ <=? _)%Z = false |- _ => apply Z.leb_gt in H
  end.

(** ** Lists *)

(** Go slicing [b[:n]] and [b[n:]] for [0 <= n <= len(b)]. *)
Abbreviation slice_to l n := (take (Z.to_nat n) l).
Abbreviation slice_from l n := (drop (Z.to_nat n) l).

Lemma take_app_len {A} (l1 l2 : list A) n :
  n = len l1 -> take (Z.to_nat n) (l1 ++ l2) = l1.
Proof. intros ->. unfold len. rewrite Nat2Z.id, take_app_length. done. Qed.

Lemma drop_app_len {A} (l1 l2 : list A) n :
  n = len l1 -> drop (Z.to_nat n) (l1 ++ l2) = l2.
Proof. intros ->. unfold len. rewrite Nat2Z.id, drop_app_length. done. Qed.

(** A key that does not repeat determines its element. *)
Lemma NoDup_map_inj {A B} (f : A -> B) l x y : NoDup (map f l) -> x ∈ l -> y ∈ l -> f x = f y -> x = y.
Proof.
  induction l as [|z l IH]; intros Hn Hx Hy He; [by apply elem_of_nil in Hx |].
  cbn in Hn. apply NoDup_cons in Hn as [Hz Hn]. apply elem_of_cons in Hx as [->|Hx], Hy as [->|Hy]; auto.
  - exfalso. apply Hz. rewrite He. apply list_elem_of_fmap. eauto.
  - exfalso. apply Hz. rewrite <-He. apply list_elem_of_fmap. eauto.
Qed.
