(* ===== verification/Binary.v ===== *)
(** * Binary: the parts of Go's [encoding/binary] and [io] the wire code uses

    Fixed-width integers in either byte order ([PutUint32], [Uint64], ...),
    unsigned varints ([PutUvarint], [AppendUvarint], [Uvarint]) and the
    [io.Writer] / [io.ReadFull] contracts.  Every codec of the relay, of the
    session layer and of the backchannel is built on these. *)

From Stdlib Require Import ZArith Lia Strings.Byte Strings.String.
From stdpp Require Import base strings list.
From S2P Require Import Prelude.

Open Scope Z_scope.

(** ** Fixed-width integers *)

(** [binary.LittleEndian.PutUintN]: the low [n] bytes, least significant first. *)
Fixpoint le_put (n : nat) (v : Z) : bytes :=
  match n with
  | O => []
  | S n' => z2b v :: le_put n' (Z.shiftr v 8)
  end.

(** [binary.LittleEndian.UintN] *)
Fixpoint le_get (bs : bytes) : Z :=
  match bs with
  | [] => 0
  | b :: bs' => Z.lor (b2z b) (Z.shiftl (le_get bs') 8)
  end.

(** [binary.BigEndian.PutUintN] and [binary.BigEndian.UintN]. *)
Definition be_put (n : nat) (v : Z) : bytes := rev (le_put n v).
Definition be_get (bs : bytes) : Z := le_get (rev bs).

Lemma lor_shiftl_add a b n :
  0 <= n -> 0 <= a < 2 ^ n -> Z.lor a (Z.shiftl b n) = a + b * 2 ^ n.
Proof.
  intros Hn Ha.
  assert (Hl : Z.land a (Z.shiftl b n) = 0).
  { apply Z.bits_inj'. intros i Hi. rewrite Z.land_spec, Z.bits_0.
    destruct (Z.lt_ge_cases i n).
    - rewrite Z.shiftl_spec_low by lia. apply andb_false_r.
    - rewrite <-(Z.mod_small a (2 ^ n)), Z.mod_pow2_bits_high by lia. done. }
  rewrite <-Z.lxor_lor, <-Z.add_nocarry_lxor by done.
  rewrite Z.shiftl_mul_pow2 by lia. done.
Qed.

Lemma le_get_cons b bs : le_get (b :: bs) = b2z b + le_get bs * 256.
Proof.
  simpl. rewrite lor_shiftl_add; [done | lia |].
  pose proof (b2z_range b). simpl. lia.
Qed.

Lemma length_le_put n v : length (le_put n v) = n.
Proof. revert v. induction n; intros; simpl; congruence. Qed.

Lemma length_be_put n v : length (be_put n v) = n.
Proof. unfold be_put. rewrite length_rev. apply length_le_put. Qed.

Lemma pow256_succ n : 2 ^ (8 * Z.of_nat (S n)) = 256 * 2 ^ (8 * Z.of_nat n).
Proof.
  replace (8 * Z.of_nat (S n)) with (8 + 8 * Z.of_nat n) by lia.
  rewrite Z.pow_add_r by lia. done.
Qed.

Lemma le_get_put n v : le_get (le_put n v) = v mod 2 ^ (8 * Z.of_nat n).
Proof.
  revert v. induction n as [|n IH]; intros v.
  { simpl. rewrite Z.mod_1_r. done. }
  cbn [le_put]. rewrite le_get_cons, IH, b2z_z2b.
  rewrite Z.shiftr_div_pow2 by lia.
  rewrite pow256_succ.
  rewrite Z.rem_mul_r; [| lia | apply Z.pow_pos_nonneg; lia].
  change (2 ^ 8) with 256. lia.
Qed.

Lemma be_get_put n v : 0 <= v < 2 ^ (8 * Z.of_nat n) -> be_get (be_put n v) = v.
Proof.
  intros. unfold be_get, be_put. rewrite rev_involutive, le_get_put.
  apply Z.mod_small. lia.
Qed.

Lemma le_get_bound bs : 0 <= le_get bs < 2 ^ (8 * Z.of_nat (length bs)).
Proof.
  induction bs as [|b bs IH]; [simpl; lia |].
  rewrite le_get_cons. cbn [length]. rewrite pow256_succ.
  pose proof (b2z_range b). lia.
Qed.

Lemma be_get_bound bs : 0 <= be_get bs < 2 ^ (8 * Z.of_nat (length bs)).
Proof. unfold be_get. rewrite <-(length_rev bs). apply le_get_bound. Qed.

Lemma le_put_get bs : le_put (length bs) (le_get bs) = bs.
Proof.
  induction bs as [|b bs IH]; [done |].
  cbn [length le_put]. rewrite le_get_cons.
  pose proof (b2z_range b) as Hb.
  f_equal.
  - apply b2z_inj. rewrite b2z_z2b, Z.mod_add by lia. apply Z.mod_small. lia.
  - rewrite Z.shiftr_div_pow2 by lia. change (2 ^ 8) with 256.
    rewrite Z.div_add, Z.div_small, Z.add_0_l by lia. apply IH.
Qed.

Lemma be_put_get bs : be_put (length bs) (be_get bs) = bs.
Proof.
  unfold be_put, be_get. rewrite <-(length_rev bs), le_put_get.
  apply rev_involutive.
Qed.

(** ** Unsigned varints *)

Definition MaxVarintLen64 : Z := 10.

(** The loop of [binary.PutUvarint] / [binary.AppendUvarint]:
    [for x >= 0x80 { byte(x) | 0x80; x >>= 7 }; byte(x)].  [fuel] bounds the
    number of continuation bytes. *)
Fixpoint put_uvarint_loop (fuel : nat) (x : Z) : bytes :=
  if x <? 128 then [z2b x] else
  match fuel with
  | O => [z2b x]
  | S f => z2b (Z.lor (x mod 256) 128) :: put_uvarint_loop f (Z.shiftr x 7)
  end.

(** Nine continuation bytes are enough for a [uint64]: the tenth group of
    seven bits holds bit 63 only. *)
Definition PutUvarint (x : Z) : bytes := put_uvarint_loop 9 x.

(** The loop of [binary.Uvarint] over the remaining bytes at index [i], with
    accumulator [x] and shift [s]; returns the value and Go's [n]. *)
Fixpoint uvarint_loop (buf : bytes) (i x s : Z) : Z * Z :=
  match buf with
  | [] => (0, 0)
  | b :: buf' =>
      if i =? MaxVarintLen64 then (0, - (i + 1)) else
      if b2z b <? 128 then
        if (i =? MaxVarintLen64 - 1) && (1 <? b2z b) then (0, - (i + 1))
        else (Z.lor x (u64 (Z.shiftl (b2z b) s)), i + 1)
      else uvarint_loop buf' (i + 1)
             (Z.lor x (u64 (Z.shiftl (Z.land (b2z b) 127) s))) (s + 7)
  end.

Definition Uvarint (buf : bytes) : Z * Z := uvarint_loop buf 0 0 0.

Lemma put_uvarint_loop_nonempty fuel x : put_uvarint_loop fuel x <> [].
Proof. destruct fuel; simpl; case_match; done. Qed.

Lemma len_put_uvarint_loop fuel x :
  1 <= len (put_uvarint_loop fuel x) <= Z.of_nat fuel + 1.
Proof.
  revert x. induction fuel as [|f IH]; intros x; simpl; case_match;
    unfold len in *; simpl; try lia.
  specialize (IH (Z.shiftr x 7)). lia.
Qed.

Lemma lor_128 y : 0 <= y < 256 -> Z.lor y 128 = y mod 128 + 128.
Proof.
  intros Hy.
  assert (Hlow : forall z, 0 <= z < 128 -> Z.lor z 128 = z + 128).
  { intros z Hz. pose proof (lor_shiftl_add z 1 7 ltac:(lia) ltac:(lia)) as Hq.
    change (Z.shiftl 1 7) with 128 in Hq. lia. }
  destruct (Z.lt_ge_cases y 128).
  - rewrite Z.mod_small by lia. apply Hlow. lia.
  - assert (Hm : y mod 128 = y - 128) by (symmetry; apply Z.mod_unique with 1; lia).
    rewrite Hm. replace y with (Z.lor (y - 128) 128) at 1 by (rewrite Hlow; lia).
    rewrite <-Z.lor_assoc, Z.lor_diag. apply Hlow. lia.
Qed.

Lemma cont_byte x : b2z (z2b (Z.lor (x mod 256) 128)) = x mod 128 + 128.
Proof.
  rewrite lor_128 by (apply Z.mod_pos_bound; lia).
  rewrite Z.mod_mod_divide by (by exists 2).
  apply b2z_small. pose proof (Z.mod_pos_bound x 128 ltac:(lia)). lia.
Qed.

Lemma land_127 z : 0 <= z < 128 -> Z.land (z + 128) 127 = z.
Proof.
  intros. change 127 with (Z.ones 7). rewrite Z.land_ones by lia.
  change (2 ^ 7) with 128. rewrite <-(Z.mod_small z 128) at 2 by lia.
  rewrite <-(Z.mod_add z 1 128) by lia. f_equal.
Qed.

(** One step of the reader keeps the accumulated prefix below its shift. *)
Lemma uvarint_acc i x v s :
  0 <= i -> s = 7 * i -> 0 <= x < 2 ^ s -> 0 <= v ->
  v * 2 ^ s < 2 ^ 64 -> Z.lor x (u64 (Z.shiftl v s)) = x + v * 2 ^ s.
Proof.
  intros Hi -> Hx Hv Hlt. rewrite u64_small.
  - apply lor_shiftl_add; lia.
  - rewrite Z.shiftl_mul_pow2 by lia. nia.
Qed.

Lemma uvarint_loop_put fuel : forall i x v rest,
  0 <= i -> i + Z.of_nat fuel = 9 -> 0 <= x < 2 ^ (7 * i) ->
  0 <= v -> v * 2 ^ (7 * i) < 2 ^ 64 ->
  uvarint_loop (put_uvarint_loop fuel v ++ rest) i x (7 * i) =
    (x + v * 2 ^ (7 * i), i + len (put_uvarint_loop fuel v)).
Proof.
  assert (Hsmall : forall i v, 0 <= i <= 9 -> 0 <= v < 128 -> v * 2 ^ (7 * i) < 2 ^ 64 ->
            (i =? MaxVarintLen64 - 1) && (1 <? v) = false).
  { intros i v Hi Hv Hlt. unfold MaxVarintLen64. apply andb_false_iff.
    destruct (Z.eqb_spec i (10 - 1)); [right | by left].
    subst. apply Z.ltb_ge. change (2 ^ (7 * (10 - 1))) with (2 ^ 63) in Hlt. lia. }
  induction fuel as [|f IH]; intros i x v rest Hi Hf Hx Hv Hlt; simpl.
  - replace i with 9 in * by lia.
    assert (v < 128) by (change (2 ^ (7 * 9)) with (2 ^ 63) in Hlt; lia).
    rewrite (proj2 (Z.ltb_lt v 128)) by lia.
    cbn [app uvarint_loop]. rewrite b2z_small by lia.
    rewrite (proj2 (Z.ltb_lt v 128)) by lia.
    rewrite Hsmall by lia. simpl. rewrite (uvarint_acc 9); [done | lia..].
  - destruct (Z.ltb_spec v 128) as [Hv128|Hv128]; cbn [app uvarint_loop];
      (destruct (Z.eqb_spec i MaxVarintLen64) as [He|_];
       [unfold MaxVarintLen64 in He; lia |]).
    + rewrite b2z_small by lia. rewrite (proj2 (Z.ltb_lt v 128)) by lia.
      rewrite Hsmall by lia. rewrite (uvarint_acc i); [done | lia..].
    + rewrite cont_byte.
      pose proof (Z.mod_pos_bound v 128 ltac:(lia)) as Hm.
      rewrite (proj2 (Z.ltb_ge _ 128)) by lia. rewrite land_127 by lia.
      assert (Hdm : v = 128 * (v / 128) + v mod 128) by (apply Z.div_mod; lia).
      assert (Hd : 0 <= v / 128) by (apply Z.div_pos; lia).
      assert (Hp : 0 < 2 ^ (7 * i)) by (apply Z.pow_pos_nonneg; lia).
      rewrite (uvarint_acc i) by nia.
      replace (7 * i + 7) with (7 * (i + 1)) by lia.
      assert (Hpow : 2 ^ (7 * (i + 1)) = 128 * 2 ^ (7 * i)).
      { replace (7 * (i + 1)) with (7 + 7 * i) by lia. rewrite Z.pow_add_r by lia. done. }
      rewrite Z.shiftr_div_pow2 by lia. change (2 ^ 7) with 128.
      rewrite IH; rewrite ?Hpow; try lia; try nia.
      f_equal; [nia |]. rewrite len_cons. lia.
Qed.

(** Reading back what [PutUvarint] wrote, whatever follows. *)
Lemma Uvarint_Put v rest :
  0 <= v < 2 ^ 64 -> Uvarint (PutUvarint v ++ rest) = (v, len (PutUvarint v)).
Proof.
  intros Hv. unfold Uvarint, PutUvarint.
  change 0 with (7 * 0) at 3.
  rewrite (uvarint_loop_put 9 0 0 v rest) by (change (2 ^ (7 * 0)) with 1; lia).
  f_equal. change (2 ^ (7 * 0)) with 1. lia.
Qed.

Lemma len_PutUvarint v : 1 <= len (PutUvarint v) <= MaxVarintLen64.
Proof. apply (len_put_uvarint_loop 9). Qed.

Lemma uvarint_loop_n buf : forall i x s v n,
  0 <= i -> uvarint_loop buf i x s = (v, n) -> 0 < n -> i < n <= i + len buf.
Proof.
  induction buf as [|b buf IH]; simpl; intros i x s v n Hi H Hn;
    [inversion H; lia |].
  rewrite len_cons. pose proof (len_nonneg buf).
  repeat case_match; try (inversion H; subst; lia).
  apply IH in H; lia.
Qed.

(** A successful read consumed between one byte and the whole buffer. *)
Lemma Uvarint_n buf v n : Uvarint buf = (v, n) -> 0 < n -> 0 < n <= len buf.
Proof. intros H Hn. apply uvarint_loop_n in H; lia. Qed.

#[export] Hint Resolve len_PutUvarint : pigeon.

Lemma uvarint_loop_le_10 buf : forall i x s v n,
  0 <= i <= 10 -> uvarint_loop buf i x s = (v, n) -> n <= 10.
Proof.
  induction buf as [|b buf IH]; simpl; intros i x s v n Hi H; [inversion H; lia |].
  unfold MaxVarintLen64 in *.
  destruct (Z.eqb_spec i 10); [inversion H; lia |].
  destruct (b2z b <? 128); [destruct (_ && _); inversion H; lia |].
  eapply IH; [| exact H]. lia.
Qed.

Lemma Uvarint_le_10 buf v n : Uvarint buf = (v, n) -> n <= MaxVarintLen64.
Proof. intros H. eapply uvarint_loop_le_10 in H; [exact H | lia]. Qed.

Lemma uvarint_loop_nonneg buf : forall i x s v n,
  0 <= x -> uvarint_loop buf i x s = (v, n) -> 0 <= v.
Proof.
  assert (Hlor : forall x y, 0 <= x -> 0 <= Z.lor x (u64 y)).
  { intros. apply Z.lor_nonneg. split; [done | apply u64_range]. }
  induction buf as [|b buf IH]; simpl; intros i x s v n Hx H; [inversion H; lia |].
  repeat case_match; try (inversion H; subst; lia).
  - inversion H; subst. auto.
  - eapply IH; [| exact H]. auto.
Qed.

Lemma Uvarint_nonneg buf v n : Uvarint buf = (v, n) -> 0 <= v.
Proof. apply uvarint_loop_nonneg. lia. Qed.
