(* ===== verification/Text.v ===== *)
(** * Text: UTF-8, base64 and JSON

    What the code uses of Go's [unicode/utf8], [encoding/base64]
    ([RawURLEncoding]) and [encoding/json].  The first two are defined; JSON
    codecs are operations of the class [JSON], one per type, with the law the
    code relies on in [JSONLaws]. *)

From Stdlib Require Import ZArith Lia Strings.Byte Strings.String.
From stdpp Require Import base strings list.
From S2P Require Import Prelude Binary.

Open Scope Z_scope.

(** ** UTF-8

    [utf8.DecodeRune]: the rune at the front of a non-empty byte string
    and its width; an invalid encoding is [RuneError] of width one. *)

Definition RuneError : Z := 0xFFFD.
Definition cont (b : byte) : bool := (0x80 <=? b2z b) && (b2z b <=? 0xBF).
Definition low6 (b : byte) : Z := Z.land (b2z b) 0x3F.

Definition decodeRune (s : bytes) : Z * nat :=
  match s with
  | [] => (RuneError, 0%nat)
  | b0 :: rest =>
      let c0 := b2z b0 in
      if c0 <? 0x80 then (c0, 1%nat)
      else if (0xC2 <=? c0) && (c0 <=? 0xDF) then
        match rest with
        | b1 :: _ => if cont b1 then ((c0 - 0xC0) * 64 + low6 b1, 2%nat) else (RuneError, 1%nat)
        | _ => (RuneError, 1%nat)
        end
      else if (0xE0 <=? c0) && (c0 <=? 0xEF) then
        match rest with
        | b1 :: b2 :: _ =>
            let lo := if c0 =? 0xE0 then 0xA0 else 0x80 in
            let hi := if c0 =? 0xED then 0x9F else 0xBF in
            if (lo <=? b2z b1) && (b2z b1 <=? hi) && cont b2
            then ((c0 - 0xE0) * 4096 + low6 b1 * 64 + low6 b2, 3%nat) else (RuneError, 1%nat)
        | _ => (RuneError, 1%nat)
        end
      else if (0xF0 <=? c0) && (c0 <=? 0xF4) then
        match rest with
        | b1 :: b2 :: b3 :: _ =>
            let lo := if c0 =? 0xF0 then 0x90 else 0x80 in
            let hi := if c0 =? 0xF4 then 0x8F else 0xBF in
            if (lo <=? b2z b1) && (b2z b1 <=? hi) && cont b2 && cont b3
            then ((c0 - 0xF0) * 262144 + low6 b1 * 4096 + low6 b2 * 64 + low6 b3, 4%nat)
            else (RuneError, 1%nat)
        | _ => (RuneError, 1%nat)
        end
      else (RuneError, 1%nat)
  end.

(** [for _, r := range s]: the runes of [s]; the width is at least one, so
    the length of [s] is fuel enough. *)
Fixpoint runes (fuel : nat) (s : bytes) : list Z :=
  match fuel, s with
  | S fuel, _ :: _ => let '(r, w) := decodeRune s in r :: runes fuel (drop w s)
  | _, _ => []
  end.

(** [utf8.Valid]: no rune is the error rune of an invalid encoding. *)
Fixpoint utf8_valid (fuel : nat) (s : bytes) : bool :=
  match fuel, s with
  | S fuel, _ :: _ =>
      let '(r, w) := decodeRune s in
      negb ((r =? RuneError) && (w =? 1)%nat) && utf8_valid fuel (drop w s)
  | _, _ => true
  end.
Definition utf8_string (s : string) : bool := utf8_valid (length (str_bytes s)) (str_bytes s).
Lemma low6_mod b : low6 b = b2z b mod 64.
Proof. unfold low6. change 0x3F with (Z.ones 6). by rewrite Z.land_ones. Qed.

(** A byte outside ASCII starts a rune outside ASCII, valid or not. *)
Lemma decodeRune_high b s : 0x80 <= b2z b -> 0x80 <= fst (decodeRune (b :: s)).
Proof.
  intros Hb. unfold decodeRune, cont. pose proof low6_mod as Hl.
  rewrite (proj2 (Z.ltb_ge _ _)) by lia. pose proof (b2z_range b).
  destruct (b2z b =? 0xE0) eqn:?, (b2z b =? 0xED) eqn:?, (b2z b =? 0xF0) eqn:?, (b2z b =? 0xF4) eqn:?;
  repeat match goal with
  | |- context [match s with _ => _ end] => destruct s as [|? s]; try (simpl; unfold RuneError; lia)
  | |- context [if ?c then _ else _] => destruct c eqn:?
  end; cbn [fst]; rewrite ?Hl; unfold RuneError; try lia; bool_hyps; Z.div_mod_to_equations; lia.
Qed.

Lemma decodeRune_ascii b s : b2z b < 0x80 -> decodeRune (b :: s) = (b2z b, 1%nat).
Proof. intros Hb. unfold decodeRune. by rewrite (proj2 (Z.ltb_lt _ _)). Qed.

(** ** JSON *)

(** [json.Marshal] and [json.Unmarshal] of a type. *)
Class JSON (A : Type) := {
  Marshal : A -> result bytes;
  Unmarshal : bytes -> result A
}.

(** A value of strings, byte slices and numbers marshals, and unmarshals to
    itself when its strings are valid UTF-8 ([valid]; invalid bytes are
    replaced by the encoder). *)
Class JSONLaws (A : Type) (valid : A -> bool) {J : JSON A} := {
  json_roundtrip a : valid a = true -> exists bs, Marshal a = Ok bs /\ Unmarshal bs = Ok a
}.

(** A self-delimiting encoding of byte strings, for concrete instances of
    [JSON]: every byte marked, ended by a zero byte. *)
Definition mark (bs : bytes) : bytes := flat_map (fun b => [x01; b]) bs ++ [x00].
Fixpoint unmark (bs : bytes) : bytes * bytes :=
  match bs with
  | x01 :: b :: bs => let '(s, rest) := unmark bs in (b :: s, rest)
  | _ :: bs => ([], bs)
  | [] => ([], [])
  end.

Lemma unmark_mark bs rest : unmark (mark bs ++ rest) = (bs, rest).
Proof.
  unfold mark. induction bs as [|b bs IH]; [done |]. cbn [flat_map app unmark]. by rewrite IH.
Qed.

(** ** Base64, [RawURLEncoding] *)

Definition alphabet : bytes := str_bytes "ABCDEFGHIJKLMNOPQRSTUVWXYZabcdefghijklmnopqrstuvwxyz0123456789-_".

(** The character of a six-bit value, and the value of a character. *)
Definition b64char (v : Z) : byte := default x00 (alphabet !! Z.to_nat v).
Definition b64value (c : byte) : option Z :=
  match list_find (fun x => x = c) alphabet with
  | Some (i, _) => Some (Z.of_nat i)
  | None => None
  end.

(** [EncodeToString] *)
Fixpoint b64Encode (src : bytes) : bytes :=
  match src with
  | a :: b :: c :: rest =>
      let val := Z.lor (Z.lor (Z.shiftl (b2z a) 16) (Z.shiftl (b2z b) 8)) (b2z c) in
      [b64char (Z.land (Z.shiftr val 18) 0x3F); b64char (Z.land (Z.shiftr val 12) 0x3F);
       b64char (Z.land (Z.shiftr val 6) 0x3F); b64char (Z.land val 0x3F)] ++ b64Encode rest
  | [a; b] =>
      let val := Z.lor (Z.shiftl (b2z a) 16) (Z.shiftl (b2z b) 8) in
      [b64char (Z.land (Z.shiftr val 18) 0x3F); b64char (Z.land (Z.shiftr val 12) 0x3F);
       b64char (Z.land (Z.shiftr val 6) 0x3F)]
  | [a] =>
      let val := Z.shiftl (b2z a) 16 in
      [b64char (Z.land (Z.shiftr val 18) 0x3F); b64char (Z.land (Z.shiftr val 12) 0x3F)]
  | [] => []
  end.

Definition CorruptInputError (off : Z) : error := EFmt "illegal base64 data at input byte %d" [AInt off].

(** The six-bit values of the characters from offset [i] on; line breaks are skipped. *)
Fixpoint sextets (i : Z) (s : bytes) : result (list Z) :=
  match s with
  | [] => Ok []
  | c :: s =>
      if bool_decide (c = x0a) || bool_decide (c = x0d) then sextets (i + 1) s else
      match b64value c with
      | None => Err (CorruptInputError i)
      | Some v => let! vs := sextets (i + 1) s in Ok (v :: vs)
      end
  end.

(** Four values are three bytes; two or three left over are one or two; one
    left over is an error at the last character. *)
Fixpoint quanta (len : Z) (vs : list Z) : result bytes :=
  match vs with
  | a :: b :: c :: d :: rest =>
      let val := Z.lor (Z.lor (Z.shiftl a 18) (Z.shiftl b 12)) (Z.lor (Z.shiftl c 6) d) in
      let! bs := quanta len rest in
      Ok (z2b (Z.shiftr val 16) :: z2b (Z.shiftr val 8) :: z2b val :: bs)
  | [a; b; c] =>
      let val := Z.lor (Z.lor (Z.shiftl a 18) (Z.shiftl b 12)) (Z.shiftl c 6) in
      Ok [z2b (Z.shiftr val 16); z2b (Z.shiftr val 8)]
  | [a; b] =>
      let val := Z.lor (Z.shiftl a 18) (Z.shiftl b 12) in
      Ok [z2b (Z.shiftr val 16)]
  | [_] => Err (CorruptInputError (len - 1))
  | [] => Ok []
  end.

(** [DecodeString] *)
Definition b64Decode (s : bytes) : result bytes :=
  let! vs := sextets 0 s in quanta (len s) vs.

(** *** Lemmas *)

Definition isB64 (c : byte) : bool := negb (bool_decide (c = x0a)) && negb (bool_decide (c = x0d)) &&
  match b64value c with Some _ => true | None => false end.

Lemma b64_table : forallb (fun i => let c := b64char (Z.of_nat i) in
    isB64 c && bool_decide (b64value c = Some (Z.of_nat i))) (seq 0 64) = true.
Proof. vm_compute. reflexivity. Qed.

Lemma b64value_char v : 0 <= v < 64 -> isB64 (b64char v) = true /\ b64value (b64char v) = Some v.
Proof.
  intros Hv. pose proof b64_table as Ht. rewrite forallb_forall in Ht.
  specialize (Ht (Z.to_nat v)). rewrite in_seq, Z2Nat.id in Ht by lia.
  assert (isB64 (b64char v) && bool_decide (b64value (b64char v) = Some v) = true) as Hb by (apply Ht; lia).
  apply andb_prop in Hb as [? ?%bool_decide_eq_true]. done.
Qed.

Lemma sextets_char i v s : 0 <= v < 64 -> sextets i (b64char v :: s) = (let! vs := sextets (i + 1) s in Ok (v :: vs)).
Proof.
  intros Hv. destruct (b64value_char v Hv) as [Hi Hc]. cbn [sextets]. unfold isB64 in Hi.
  destruct (bool_decide (b64char v = x0a)), (bool_decide (b64char v = x0d)); try done.
  cbn [orb]. by rewrite Hc.
Qed.

Lemma land_63 z : 0 <= Z.land z 0x3F < 64.
Proof. change 0x3F with (Z.ones 6). rewrite Z.land_ones by lia. apply Z.mod_pos_bound. lia. Qed.

(** Disjoint bit fields add up. *)
Lemma lor_field hi lo n : 0 <= n -> 0 <= lo < 2 ^ n -> Z.lor (Z.shiftl hi n) lo = hi * 2 ^ n + lo.
Proof. intros Hn Hlo. rewrite Z.lor_comm, lor_shiftl_add by done. lia. Qed.

Lemma lor_field' x hi lo n : 0 <= n -> 0 <= lo < 2 ^ n -> x = hi * 2 ^ n -> Z.lor x lo = x + lo.
Proof. intros Hn Hlo ->. rewrite <-Z.shiftl_mul_pow2 by done. rewrite lor_field by done. by rewrite Z.shiftl_mul_pow2. Qed.

Lemma sextet_at val n : 0 <= n -> Z.land (Z.shiftr val n) 0x3F = val / 2 ^ n mod 64.
Proof. intros Hn. change 0x3F with (Z.ones 6). by rewrite Z.land_ones, Z.shiftr_div_pow2. Qed.

Lemma sextet_0 val : Z.land val 0x3F = val mod 64.
Proof. change 0x3F with (Z.ones 6). by rewrite Z.land_ones. Qed.

Lemma byte_at val n : 0 <= n -> z2b (Z.shiftr val n) = z2b (val / 2 ^ n).
Proof. intros Hn. by rewrite Z.shiftr_div_pow2. Qed.

Lemma z2b_eq z b : z mod 256 = b2z b -> z2b z = b.
Proof. intros Hz. apply b2z_inj. by rewrite b2z_z2b. Qed.

(** The values of a four-character quantum, put together again. *)
Lemma four_fields a b c d : 0 <= b < 64 -> 0 <= c < 64 -> 0 <= d < 64 ->
  Z.lor (Z.lor (Z.shiftl a 18) (Z.shiftl b 12)) (Z.lor (Z.shiftl c 6) d) =
    a * 2 ^ 18 + b * 2 ^ 12 + c * 2 ^ 6 + d.
Proof.
  intros Hb Hc Hd. rewrite (lor_field c d 6) by lia.
  rewrite (lor_field a (Z.shiftl b 12) 18) by (rewrite ?Z.shiftl_mul_pow2; lia).
  rewrite Z.shiftl_mul_pow2 by lia. rewrite (lor_field' _ (a * 64 + b) _ 12) by lia. lia.
Qed.

Lemma three_bytes a b c : 0 <= b < 256 -> 0 <= c < 256 ->
  Z.lor (Z.lor (Z.shiftl a 16) (Z.shiftl b 8)) c = a * 2 ^ 16 + b * 2 ^ 8 + c.
Proof.
  intros Hb Hc. rewrite (lor_field a (Z.shiftl b 8) 16) by (rewrite ?Z.shiftl_mul_pow2; lia).
  rewrite Z.shiftl_mul_pow2 by lia. rewrite (lor_field' _ (a * 256 + b) _ 8) by lia. lia.
Qed.

Lemma b64_quantum a b c :
  let val := Z.lor (Z.lor (Z.shiftl (b2z a) 16) (Z.shiftl (b2z b) 8)) (b2z c) in
  let w := Z.lor (Z.lor (Z.shiftl (Z.land (Z.shiftr val 18) 0x3F) 18) (Z.shiftl (Z.land (Z.shiftr val 12) 0x3F) 12))
                 (Z.lor (Z.shiftl (Z.land (Z.shiftr val 6) 0x3F) 6) (Z.land val 0x3F)) in
  z2b (Z.shiftr w 16) = a /\ z2b (Z.shiftr w 8) = b /\ z2b w = c.
Proof.
  pose proof (b2z_range a). pose proof (b2z_range b). pose proof (b2z_range c).
  intros val w. unfold w. rewrite four_fields by apply land_63.
  rewrite !sextet_at, sextet_0 by lia. unfold val. rewrite three_bytes by done. clear val w.
  rewrite !Z.shiftr_div_pow2 by lia.
  split_and!; apply z2b_eq; Z.div_mod_to_equations; lia.
Qed.

Lemma b64_tail2 a b :
  let val := Z.lor (Z.shiftl (b2z a) 16) (Z.shiftl (b2z b) 8) in
  let w := Z.lor (Z.lor (Z.shiftl (Z.land (Z.shiftr val 18) 0x3F) 18) (Z.shiftl (Z.land (Z.shiftr val 12) 0x3F) 12))
                 (Z.shiftl (Z.land (Z.shiftr val 6) 0x3F) 6) in
  z2b (Z.shiftr w 16) = a /\ z2b (Z.shiftr w 8) = b.
Proof.
  intros val w. destruct (b64_quantum a b x00) as (Ha & Hb & _). change (b2z x00) with 0 in *.
  rewrite Z.lor_0_r in Ha, Hb. fold val in Ha, Hb.
  assert (Z.land val 0x3F = 0) as Hz.
  { pose proof (b2z_range a). pose proof (b2z_range b). rewrite sextet_0. unfold val.
    pose proof (three_bytes (b2z a) (b2z b) 0) as H3. rewrite Z.lor_0_r in H3. rewrite H3 by lia.
    Z.div_mod_to_equations. lia. }
  rewrite Hz, Z.lor_0_r in Ha, Hb. done.
Qed.

Lemma b64_tail1 a :
  let val := Z.shiftl (b2z a) 16 in
  let w := Z.lor (Z.shiftl (Z.land (Z.shiftr val 18) 0x3F) 18) (Z.shiftl (Z.land (Z.shiftr val 12) 0x3F) 12) in
  z2b (Z.shiftr w 16) = a.
Proof.
  intros val w. destruct (b64_tail2 a x00) as (Ha & _). change (Z.shiftl (b2z x00) 8) with 0 in *.
  rewrite Z.lor_0_r in Ha. fold val in Ha.
  assert (Z.land (Z.shiftr val 6) 0x3F = 0) as Hz.
  { pose proof (b2z_range a). rewrite sextet_at by lia. unfold val. rewrite Z.shiftl_mul_pow2 by lia.
    Z.div_mod_to_equations. lia. }
  rewrite Hz in Ha. change (Z.shiftl 0 6) with 0 in Ha. rewrite Z.lor_0_r in Ha. done.
Qed.

Lemma b64_sextets n : forall bs i l, (length bs <= n)%nat ->
  exists vs, sextets i (b64Encode bs) = Ok vs /\ quanta l vs = Ok bs.
Proof.
  induction n as [|n IH]; intros bs i l Hn; destruct bs as [|a [|b [|c rest]]]; simpl in Hn; try lia;
    try (by exists []).
  - pose proof (b64_tail1 a) as H1. cbn zeta in H1. cbn [b64Encode app]. eexists.
    rewrite !sextets_char by apply land_63. split; [reflexivity |]. cbn [quanta]. by rewrite H1.
  - pose proof (b64_tail2 a b) as H1. cbn zeta in H1. destruct H1 as [H1 H2]. cbn [b64Encode app]. eexists.
    rewrite !sextets_char by apply land_63. split; [reflexivity |]. cbn [quanta]. by rewrite H1, H2.
  - pose proof (b64_quantum a b c) as H1. cbn zeta in H1. destruct H1 as (H1 & H2 & H3). cbn [b64Encode app].
    destruct (IH rest (i + 1 + 1 + 1 + 1) l) as (vs & Hs & Hq); [lia |]. eexists.
    rewrite !sextets_char by apply land_63. rewrite Hs. split; [reflexivity |]. cbn [quanta]. rewrite Hq. cbn [rbind].
    by rewrite H1, H2, H3.
Qed.

(** Decoding what was encoded. *)
Lemma b64_roundtrip bs : b64Decode (b64Encode bs) = Ok bs.
Proof.
  unfold b64Decode. destruct (b64_sextets (length bs) bs 0 (len (b64Encode bs))) as (vs & Hs & Hq); [done |].
  by rewrite Hs.
Qed.

Lemma b64Encode_inj bs bs' : b64Encode bs = b64Encode bs' -> bs = bs'.
Proof. intros H. apply (f_equal b64Decode) in H. rewrite !b64_roundtrip in H. by injection H. Qed.

(** The output is over the URL-safe alphabet. *)
Lemma b64Encode_chars bs : Forall (fun c => isB64 c = true) (b64Encode bs).
Proof.
  cut (forall n bs, (length bs <= n)%nat -> Forall (fun c => isB64 c = true) (b64Encode bs)).
  { intros H. by apply (H (length bs)). }
  intros n. induction n as [|n IH]; intros [|a [|b [|c rest]]] Hn; simpl in Hn; try lia; try constructor;
    cbn [b64Encode app]; repeat (constructor; [apply b64value_char, land_63 |]); try constructor.
  all: try (apply b64value_char, land_63). all: repeat constructor; try (apply b64value_char, land_63).
  apply IH. lia.
Qed.
