(* ===== verification/Wire.v ===== *)
(** * Wire: the generated wire codecs and message framing

    The codecs of wire_gen.go (stream header, datagram plaintext, relay
    greeting), the length-prefixed message framing of webtransport.go
    ([writeMessage] / [readMessage]) and the route-list codec of
    discovery.go.  [WireFormat] is the interface the session and relay layers
    rely on: an encoder whose output the decoder reads back. *)

From Stdlib Require Import ZArith Lia Strings.Byte Strings.String.
From stdpp Require Import base sets strings list.
From S2P Require Import Prelude Binary.

Open Scope Z_scope.

(** An encoder and a decoder, with the set of values the format carries
    faithfully; [decode] may leave trailing bytes unread. *)
Class WireFormat (A : Type) := {
  wf_encode : A -> bytes;
  wf_decode : bytes -> result A;
  wf_valid : A -> Prop;
  wf_decode_encode a : wf_valid a -> wf_decode (wf_encode a) = Ok a
}.

Lemma wf_encode_inj `{WireFormat A} a b :
  wf_valid a -> wf_valid b -> wf_encode a = wf_encode b -> a = b.
Proof.
  intros Ha Hb He. apply wf_decode_encode in Ha, Hb.
  rewrite He, Hb in Ha. by inversion Ha.
Qed.

(** ** Stream header and datagram plaintext *)

Definition EncodeStreamHeader (name : string) : bytes :=
  PutUvarint (slen name) ++ str_bytes name.

Definition DecodeStreamHeader (buf : bytes) : result string :=
  let off := 0 in
  let '(ln, n) := Uvarint (slice_from buf off) in
  if n <=? 0 then Err (ENew "bad varint length name") else
  let off := off + n in
  if len buf - off <? ln then Err (ENew "truncated name") else
  Ok (bytes_str (slice_to (slice_from buf off) ln)).

Definition EncodeDatagramPlaintext (channelId : Z) (payload : bytes) : bytes :=
  PutUvarint channelId ++ payload.

Definition DecodeDatagramPlaintext (buf : bytes) : result (Z * bytes) :=
  let off := 0 in
  let '(v, n) := Uvarint (slice_from buf off) in
  if n <=? 0 then Err (ENew "bad varint channel_id") else
  let off := off + n in
  Ok (v, slice_from buf off).

(** ** Relay greeting *)

Inductive RelayGreetingVariant :=
  | RelayGreetingConnect
  | RelayGreetingRegister
  | RelayGreetingListen.

#[export] Instance RelayGreetingVariant_eq_dec : EqDecision RelayGreetingVariant.
Proof. solve_decision. Defined.

Record RelayGreetingDecoded := {
  Variant : RelayGreetingVariant;
  InstanceId : string;
  Token : string
}.

Definition EncodeRelayGreetingConnect (instanceId : string) : bytes :=
  str_bytes "connect:" ++ str_bytes instanceId.

(** The [anyNonEmpty] scan over [suffix := []string{token, instanceId}]. *)
Definition anyNonEmpty (suffix : list string) : bool :=
  existsb (fun p => negb (bool_decide (p = EmptyString))) suffix.

Definition writeSuffix (suffix : list string) : bytes :=
  if anyNonEmpty suffix
  then concat (map (fun p => str_bytes ":" ++ str_bytes p) suffix)
  else [].

Definition EncodeRelayGreetingRegister (token instanceId : string) : bytes :=
  str_bytes "register" ++ writeSuffix [token; instanceId].

Definition EncodeRelayGreetingListen (token instanceId : string) : bytes :=
  str_bytes "listen" ++ writeSuffix [token; instanceId].

(** [strings.HasPrefix] *)
Definition HasPrefix (s p : bytes) : bool := bool_decide (take (length p) s = p).

(** [strings.SplitN(s, sep, 2)] for a one-byte separator. *)
Fixpoint SplitN2 (s : bytes) (sep : byte) : list bytes :=
  match s with
  | [] => [[]]
  | b :: s' =>
      if bool_decide (b = sep) then [[]; s'] else
      match SplitN2 s' sep with
      | p :: rest => (b :: p) :: rest
      | [] => [[b]]
      end
  end.

(** The body shared by the register and listen branches of
    [DecodeRelayGreeting], after the prefix of length [plen]. *)
Definition decodeSuffix (v : RelayGreetingVariant) (name : string) (s : bytes) (plen : nat)
    : result RelayGreetingDecoded :=
  match drop plen s with
  | [] => Ok {| Variant := v; InstanceId := EmptyString; Token := EmptyString |}
  | c :: rest =>
      if negb (bool_decide (c = x3a)) then
        Err (ENew ("relay_greeting: malformed " +:+ name +:+ ": missing ':' after prefix"))
      else
        let parts := SplitN2 rest x3a in
        Ok {| Variant := v;
              Token := bytes_str (default [] (parts !! 0%nat));
              InstanceId := bytes_str (default [] (parts !! 1%nat)) |}
  end.

Definition DecodeRelayGreeting (buf : bytes) : result RelayGreetingDecoded :=
  let s := buf in
  if HasPrefix s (str_bytes "connect:") then
    Ok {| Variant := RelayGreetingConnect;
          InstanceId := bytes_str (drop (String.length "connect:") s);
          Token := EmptyString |}
  else if HasPrefix s (str_bytes "register") then
    decodeSuffix RelayGreetingRegister "register" s (String.length "register")
  else if HasPrefix s (str_bytes "listen") then
    decodeSuffix RelayGreetingListen "listen" s (String.length "listen")
  else Err (ENew "relay_greeting: unrecognised prefix").

(** The greeting a peer sends for a decoded value: the encoder of its variant. *)
Definition EncodeRelayGreeting (g : RelayGreetingDecoded) : bytes :=
  match Variant g with
  | RelayGreetingConnect => EncodeRelayGreetingConnect (InstanceId g)
  | RelayGreetingRegister => EncodeRelayGreetingRegister (Token g) (InstanceId g)
  | RelayGreetingListen => EncodeRelayGreetingListen (Token g) (InstanceId g)
  end.

(** Values a greeting can carry: no ':' in the token, and no token on connect. *)
Definition greeting_valid (g : RelayGreetingDecoded) : Prop :=
  (x3a ∉ str_bytes (Token g)) /\
  (Variant g = RelayGreetingConnect -> Token g = EmptyString).

(** ** Message framing (webtransport.go) *)

Definition MaxMessageSize : Z := 1048576.
Definition LengthPrefixSize : Z := 4.

(** [io.Writer]: a state, the bytes it has accepted so far and whether the
    write failed. *)
Class Writer (W : Type) := {
  Write : W -> bytes -> W * option error
}.

(** [io.Reader] through [io.ReadFull]: the next [n] bytes, or an error. *)
Class Reader (R : Type) := {
  ReadFull : R -> nat -> R * result bytes
}.

(** [writeMessage]: size check, then the header, then the payload, each
    write stopping the call on error. *)
Definition writeMessage {W} `{Writer W} (stream : W) (data : bytes) : W * option error :=
  if MaxMessageSize <? len data then
    (stream, Some (EFmt "message too large: %d > %d" [AInt (len data); AInt MaxMessageSize]))
  else
    let hdr := be_put 4 (u32 (len data)) in
    match Write stream hdr with
    | (stream, Some err) => (stream, Some err)
    | (stream, None) => Write stream data
    end.

Definition readMessage {R} `{Reader R} (stream : R) : R * result bytes :=
  match ReadFull stream 4 with
  | (stream, Err err) => (stream, Err err)
  | (stream, Ok hdr) =>
      let length := be_get hdr in
      if MaxMessageSize <? length then
        (stream, Err (EFmt "message too large: %d > %d" [AInt length; AInt MaxMessageSize]))
      else ReadFull stream (Z.to_nat length)
  end.

Definition EOF : error := ENew "EOF".
Definition ErrUnexpectedEOF : error := ENew "unexpected EOF".

(** A byte pipe held in memory: writes append, [ReadFull] takes from the
    front, reporting [io.EOF] on an empty pipe and [io.ErrUnexpectedEOF] on
    a short one (whose bytes it consumes). *)
#[export] Instance pipe_writer : Writer bytes := {
  Write w data := (w ++ data, None)
}.

#[export] Instance pipe_reader : Reader bytes := {
  ReadFull r n :=
    if (length r <? n)%nat
    then ([], Err (if (length r =? 0)%nat then EOF else ErrUnexpectedEOF))
    else (drop n r, Ok (take n r))
}.

(** ** Route list (discovery.go) *)

Record RouteEntry := {
  Route : string;
  Metadata : bytes
}.

#[export] Instance RouteEntry_eq_dec : EqDecision RouteEntry.
Proof. solve_decision. Defined.

Definition encodeRoutes (entries : list RouteEntry) : bytes :=
  fold_left (fun buf e =>
    (((buf ++ PutUvarint (slen (Route e))) ++ str_bytes (Route e))
       ++ PutUvarint (len (Metadata e))) ++ Metadata e)
    entries (PutUvarint (len entries)).

Definition readLenPrefixed (b : bytes) : result (bytes * bytes) :=
  let '(l, n) := Uvarint b in
  if n <=? 0 then Err (ENew "bad length") else
  let b := slice_from b n in
  if len b <? l then Err (ENew "truncated") else
  Ok (slice_to b l, slice_from b l).

(** The decode loop [for i := uint64(0); i < count; i++].  Each iteration
    consumes at least two bytes of [b], so [fuel] above [length b] is never
    exhausted ([decodeRoutes_loop_fuel]). *)
Fixpoint decodeRoutes_loop (fuel : nat) (i count : Z) (b : bytes) (entries : list RouteEntry)
    : result (list RouteEntry) :=
  if negb (i <? count) then Ok entries else
  match fuel with
  | O => Err (ENew "out of fuel")
  | S f =>
      match readLenPrefixed b with
      | Err err => Err (EWrap "enumerate: route %d: %w" [AInt i] err)
      | Ok (route, rest) =>
          match readLenPrefixed rest with
          | Err err => Err (EWrap "enumerate: metadata %d: %w" [AInt i] err)
          | Ok (meta, rest) =>
              decodeRoutes_loop f (i + 1) count rest
                (entries ++ [{| Route := bytes_str route; Metadata := meta |}])
          end
      end
  end.

(** [None] is a run-time panic: [make([]RouteEntry, 0, count)] panics when
    [count] is over the runtime's slice capacity limit [maxCap] for the
    element type. *)
Definition decodeRoutes (maxCap : Z) (b : bytes) : option (result (list RouteEntry)) :=
  let '(count, n) := Uvarint b in
  if n <=? 0 then Some (Err (ENew "enumerate: bad count")) else
  let b := slice_from b n in
  if maxCap <? count then None else
  Some (decodeRoutes_loop (S (length b)) 0 count b []).

(** ** Lemmas: varint-prefixed fields *)

Lemma readLenPrefixed_app v rest :
  len v < 2 ^ 64 -> readLenPrefixed (PutUvarint (len v) ++ v ++ rest) = Ok (v, rest).
Proof.
  intros Hv. unfold readLenPrefixed. pose proof (len_nonneg v).
  rewrite Uvarint_Put by lia. pose proof (len_PutUvarint (len v)).
  rewrite (proj2 (Z.leb_gt _ 0)) by lia.
  rewrite drop_app_len by done. rewrite len_app. pose proof (len_nonneg rest).
  rewrite (proj2 (Z.ltb_ge _ (len v))) by lia.
  rewrite take_app_len, drop_app_len by done. done.
Qed.

(** A field read never over-runs the buffer: value, header and remainder are
    consecutive parts of it. *)
Lemma readLenPrefixed_split b v rest :
  readLenPrefixed b = Ok (v, rest) -> exists hdr, b = hdr ++ v ++ rest /\ 0 < len hdr.
Proof.
  unfold readLenPrefixed. destruct (Uvarint b) as [l n] eqn:E.
  destruct (Z.leb_spec n 0); [discriminate |].
  apply Uvarint_n in E; [| lia].
  destruct (Z.ltb_spec (len (drop (Z.to_nat n) b)) l); [discriminate |].
  intros [= <- <-]. exists (take (Z.to_nat n) b).
  rewrite take_drop, take_drop. split; [done |].
  unfold len in *. rewrite length_take. lia.
Qed.

Lemma readLenPrefixed_shorter b v rest :
  readLenPrefixed b = Ok (v, rest) -> (length rest < length b)%nat.
Proof.
  intros H. apply readLenPrefixed_split in H as (hdr & -> & Hh).
  unfold len in Hh. rewrite !length_app. lia.
Qed.

Lemma decodeRoutes_loop_fuel fuel : forall fuel' i count b acc,
  (length b < fuel)%nat -> (length b < fuel')%nat ->
  decodeRoutes_loop fuel i count b acc = decodeRoutes_loop fuel' i count b acc.
Proof.
  induction fuel as [|f IH]; intros fuel' i count b acc Hf Hf'; [lia |].
  destruct fuel' as [|f']; [lia |]. simpl.
  destruct (negb (i <? count)); [done |].
  destruct (readLenPrefixed b) as [[r rest]|] eqn:E1; [| done].
  destruct (readLenPrefixed rest) as [[m rest']|] eqn:E2; [| done].
  apply readLenPrefixed_shorter in E1, E2. apply IH; lia.
Qed.

(** One encoded entry of a route list. *)
Definition encode_entry (e : RouteEntry) : bytes :=
  PutUvarint (slen (Route e)) ++ str_bytes (Route e) ++
  PutUvarint (len (Metadata e)) ++ Metadata e.

Lemma encodeRoutes_concat es :
  encodeRoutes es = PutUvarint (len es) ++ concat (map encode_entry es).
Proof.
  unfold encodeRoutes. generalize (PutUvarint (len es)).
  induction es as [|e es IH]; intros buf; simpl; [by rewrite app_nil_r |].
  rewrite IH. unfold encode_entry. by rewrite !app_assoc.
Qed.

(** An entry whose lengths fit the [uint64] prefixes. *)
Definition entry_ok (e : RouteEntry) : Prop :=
  slen (Route e) < 2 ^ 64 /\ len (Metadata e) < 2 ^ 64.

Lemma decodeRoutes_loop_encode es : forall fuel i count acc junk,
  Forall entry_ok es -> count = i + len es ->
  (length (concat (map encode_entry es) ++ junk) < fuel)%nat ->
  decodeRoutes_loop fuel i count (concat (map encode_entry es) ++ junk) acc = Ok (acc ++ es).
Proof.
  induction es as [|e es IH]; intros fuel i count acc junk Hok -> Hfuel;
    (destruct fuel as [|f]; [lia |]); simpl.
  - unfold len. simpl. rewrite Z.add_0_r, Z.ltb_irrefl, app_nil_r. done.
  - apply Forall_cons in Hok as [[Hr Hm] Hok].
    rewrite len_cons. pose proof (len_nonneg es).
    rewrite (proj2 (Z.ltb_lt i _)) by lia. simpl.
    unfold encode_entry at 1. unfold slen in *. rewrite <-!app_assoc.
    rewrite readLenPrefixed_app by done. rewrite readLenPrefixed_app by done.
    rewrite IH; [| done | lia |].
    + rewrite bytes_str_bytes, <-app_assoc. destruct e. done.
    + simpl in Hfuel. unfold encode_entry at 1 in Hfuel. rewrite !length_app in Hfuel.
      pose proof (len_PutUvarint (slen (Route e))) as Hp. unfold slen, len in *.
      rewrite length_app. lia.
Qed.

(** ** Lemmas: string prefixes and splitting *)

Lemma HasPrefix_app p l : HasPrefix (p ++ l) p = true.
Proof. unfold HasPrefix. rewrite take_app_length. by apply bool_decide_eq_true. Qed.

Lemma SplitN2_app tok rest :
  x3a ∉ tok -> SplitN2 (tok ++ x3a :: rest) x3a = [tok; rest].
Proof.
  induction tok as [|b tok IH]; intros Hn; simpl.
  - done.
  - rewrite bool_decide_false by set_solver. by rewrite IH by set_solver.
Qed.

Lemma anyNonEmpty_2 a b :
  anyNonEmpty [a; b] = false -> a = EmptyString /\ b = EmptyString.
Proof.
  unfold anyNonEmpty. simpl. intros H. bool_hyps. done.
Qed.

Lemma decodeSuffix_writeSuffix v name p token instanceId :
  x3a ∉ str_bytes token ->
  decodeSuffix v name (str_bytes p ++ writeSuffix [token; instanceId]) (length (str_bytes p)) =
    Ok {| Variant := v; InstanceId := instanceId; Token := token |}.
Proof.
  intros Ht. unfold decodeSuffix, writeSuffix.
  rewrite drop_app_length.
  destruct (anyNonEmpty [token; instanceId]) eqn:E.
  - simpl. rewrite app_nil_r. rewrite SplitN2_app by done. simpl.
    by rewrite !bytes_str_bytes.
  - apply anyNonEmpty_2 in E as [-> ->]. done.
Qed.

Lemma greeting_roundtrip g :
  greeting_valid g -> DecodeRelayGreeting (EncodeRelayGreeting g) = Ok g.
Proof.
  destruct g as [[] id tok]; unfold greeting_valid, EncodeRelayGreeting; simpl;
    intros [Htok Hc]; unfold DecodeRelayGreeting.
  - rewrite Hc by done. unfold EncodeRelayGreetingConnect.
    rewrite HasPrefix_app. rewrite (drop_app_length (str_bytes "connect:")).
    by rewrite bytes_str_bytes.
  - unfold EncodeRelayGreetingRegister.
    replace (HasPrefix _ (str_bytes "connect:")) with false by done.
    rewrite HasPrefix_app. by apply (decodeSuffix_writeSuffix _ _ "register").
  - unfold EncodeRelayGreetingListen.
    replace (HasPrefix _ (str_bytes "connect:")) with false by done.
    replace (HasPrefix _ (str_bytes "register")) with false by done.
    rewrite HasPrefix_app. by apply (decodeSuffix_writeSuffix _ _ "listen").
Qed.

#[export] Instance greeting_format : WireFormat RelayGreetingDecoded := {
  wf_encode := EncodeRelayGreeting;
  wf_decode := DecodeRelayGreeting;
  wf_valid := greeting_valid;
  wf_decode_encode := greeting_roundtrip
}.

Lemma stream_header_app name rest :
  slen name < 2 ^ 64 -> DecodeStreamHeader (EncodeStreamHeader name ++ rest) = Ok name.
Proof.
  intros Hn. unfold DecodeStreamHeader, EncodeStreamHeader, slen in *.
  change (drop (Z.to_nat 0) ?l) with l. rewrite <-app_assoc.
  pose proof (len_nonneg (str_bytes name)). pose proof (len_nonneg rest).
  rewrite Uvarint_Put by lia. pose proof (len_PutUvarint (len (str_bytes name))).
  rewrite (proj2 (Z.leb_gt _ 0)) by lia. rewrite Z.add_0_l, !len_app.
  rewrite (proj2 (Z.ltb_ge _ _)) by lia.
  rewrite drop_app_len, take_app_len by done. by rewrite bytes_str_bytes.
Qed.

Lemma stream_header_roundtrip name :
  slen name < 2 ^ 64 -> DecodeStreamHeader (EncodeStreamHeader name) = Ok name.
Proof.
  intros Hn. rewrite <-(app_nil_r (EncodeStreamHeader name)). by apply stream_header_app.
Qed.

#[export] Instance stream_header_format : WireFormat string := {
  wf_encode := EncodeStreamHeader;
  wf_decode := DecodeStreamHeader;
  wf_valid := fun name => slen name < 2 ^ 64;
  wf_decode_encode := stream_header_roundtrip
}.

Lemma datagram_plaintext_roundtrip id payload :
  0 <= id < 2 ^ 64 ->
  DecodeDatagramPlaintext (EncodeDatagramPlaintext id payload) = Ok (id, payload).
Proof.
  intros Hid. unfold DecodeDatagramPlaintext, EncodeDatagramPlaintext.
  change (drop (Z.to_nat 0) ?l) with l.
  rewrite Uvarint_Put by done. pose proof (len_PutUvarint id).
  rewrite (proj2 (Z.leb_gt _ 0)) by lia. rewrite Z.add_0_l.
  by rewrite drop_app_len by done.
Qed.

(** A datagram plaintext as a pair (channel id, payload). *)
#[export, refine] Instance datagram_format : WireFormat (Z * bytes) := {
  wf_encode := fun d => EncodeDatagramPlaintext d.1 d.2;
  wf_decode := DecodeDatagramPlaintext;
  wf_valid := fun d => 0 <= d.1 < 2 ^ 64;
  wf_decode_encode := _
}.
Proof. intros [id payload]. apply datagram_plaintext_roundtrip. Defined.

(** ** Lemmas: framing over a byte pipe *)

(** The bytes of one frame. *)
Definition frame (data : bytes) : bytes := be_put 4 (len data) ++ data.

Lemma writeMessage_pipe w data :
  len data <= MaxMessageSize -> writeMessage (W:=bytes) w data = (w ++ frame data, None).
Proof.
  intros Hd. unfold writeMessage, MaxMessageSize in *. pose proof (len_nonneg data).
  rewrite (proj2 (Z.ltb_ge _ _)) by lia. rewrite u32_small by lia. simpl.
  unfold frame. by rewrite app_assoc.
Qed.

Lemma ReadFull_pipe_app l rest :
  ReadFull (R:=bytes) (l ++ rest) (length l) = (rest, Ok l).
Proof.
  simpl. rewrite (proj2 (Nat.ltb_ge _ _)) by (rewrite length_app; lia).
  by rewrite drop_app_length, take_app_length.
Qed.

Lemma readMessage_frame data rest :
  len data <= MaxMessageSize -> readMessage (R:=bytes) (frame data ++ rest) = (rest, Ok data).
Proof.
  intros Hd. unfold readMessage, frame, MaxMessageSize in *. rewrite <-app_assoc.
  pose proof (len_nonneg data).
  rewrite <-(length_be_put 4 (len data)) at 1. rewrite ReadFull_pipe_app.
  rewrite be_get_put by (simpl; lia). rewrite (proj2 (Z.ltb_ge _ _)) by lia.
  unfold len. rewrite Nat2Z.id. apply ReadFull_pipe_app.
Qed.

(** Writing messages in order, as a sender loop does. *)
Fixpoint writeMessages {W} `{Writer W} (w : W) (msgs : list bytes) : W * option error :=
  match msgs with
  | [] => (w, None)
  | m :: msgs' =>
      match writeMessage w m with
      | (w, Some e) => (w, Some e)
      | (w, None) => writeMessages w msgs'
      end
  end.

(** Reading [n] messages in order. *)
Fixpoint readMessages {R} `{Reader R} (n : nat) (r : R) : R * result (list bytes) :=
  match n with
  | O => (r, Ok [])
  | S n' =>
      match readMessage r with
      | (r, Err e) => (r, Err e)
      | (r, Ok m) =>
          match readMessages n' r with
          | (r, Err e) => (r, Err e)
          | (r, Ok ms) => (r, Ok (m :: ms))
          end
      end
  end.

Lemma writeMessages_pipe msgs : forall w,
  Forall (fun m => len m <= MaxMessageSize) msgs ->
  writeMessages (W:=bytes) w msgs = (w ++ concat (map frame msgs), None).
Proof.
  induction msgs as [|m msgs IH]; intros w Hm; cbn [writeMessages map concat].
  - by rewrite app_nil_r.
  - apply Forall_cons in Hm as [Hm Hms].
    rewrite writeMessage_pipe by done. rewrite IH by done. by rewrite app_assoc.
Qed.

Lemma readMessages_frames msgs : forall rest,
  Forall (fun m => len m <= MaxMessageSize) msgs ->
  readMessages (R:=bytes) (length msgs) (concat (map frame msgs) ++ rest) = (rest, Ok msgs).
Proof.
  induction msgs as [|m msgs IH]; intros rest Hm; cbn [readMessages map concat length]; [done |].
  apply Forall_cons in Hm as [Hm Hms]. rewrite <-app_assoc.
  rewrite readMessage_frame by done. by rewrite IH by done.
Qed.

(** ** Properties *)

(** A message stream keeps message boundaries and order: any sequence of
    messages of at most [MaxMessageSize] bytes written to a stream is read
    back as the same sequence, and bytes that follow are left unread. *)
Theorem framing_preserves_messages (msgs : list bytes) (rest : bytes) :
  Forall (fun m => len m <= MaxMessageSize) msgs ->
  exists p, writeMessages (W:=bytes) [] msgs = (p, None) /\
    readMessages (R:=bytes) (length msgs) (p ++ rest) = (rest, Ok msgs).
Proof.
  intros Hm. exists (concat (map frame msgs)).
  rewrite writeMessages_pipe by done. rewrite readMessages_frames by done. done.
Qed.

Lemma framing_preserves_messages_witness :
  exists p, writeMessages (W:=bytes) [] [[x41]; []; [x42; x43]] = (p, None) /\
    readMessages (R:=bytes) 3 (p ++ [x99]) = ([x99], Ok [[x41]; []; [x42; x43]]).
Proof.
  apply (framing_preserves_messages [[x41]; []; [x42; x43]] [x99]).
  repeat constructor; vm_compute; done.
Defined.

(** Oversized messages are refused on both sides: [writeMessage] of a
    message above the limit writes nothing to any writer, and [readMessage]
    of a header that announces more than the limit fails after consuming the
    four header bytes only, without allocating the payload. *)
Theorem framing_rejects_oversize {W} `{Writer W} (w : W) (data hdr rest : bytes) :
  (MaxMessageSize < len data ->
   exists e, writeMessage w data = (w, Some e)) /\
  (length hdr = 4%nat -> MaxMessageSize < be_get hdr ->
   exists e, readMessage (R:=bytes) (hdr ++ rest) = (rest, Err e)).
Proof.
  split.
  - intros Hd. unfold writeMessage. rewrite (proj2 (Z.ltb_lt _ _)) by done. eauto.
  - intros Hh Hb. unfold readMessage.
    pose proof (ReadFull_pipe_app hdr rest) as Hr. rewrite Hh in Hr. rewrite Hr.
    rewrite (proj2 (Z.ltb_lt _ _)) by done. eauto.
Qed.

(** The relay reads the greeting a peer sends: every greeting whose token
    has no ':' (and, for connect, no token) decodes to itself, and two valid
    greetings with the same bytes are the same greeting. *)
Theorem relay_greeting_roundtrip (g g' : RelayGreetingDecoded) :
  greeting_valid g ->
  DecodeRelayGreeting (EncodeRelayGreeting g) = Ok g /\
  (greeting_valid g' -> EncodeRelayGreeting g = EncodeRelayGreeting g' -> g = g').
Proof.
  intros Hg. split; [by apply greeting_roundtrip |].
  intros Hg' He. by apply wf_encode_inj.
Qed.

Lemma relay_greeting_roundtrip_witness :
  DecodeRelayGreeting (EncodeRelayGreetingListen "tok" "a:b") =
    Ok {| Variant := RelayGreetingListen; InstanceId := "a:b"; Token := "tok" |}.
Proof.
  apply (relay_greeting_roundtrip
           {| Variant := RelayGreetingListen; InstanceId := "a:b"; Token := "tok" |}
           {| Variant := RelayGreetingListen; InstanceId := "a:b"; Token := "tok" |}).
  split; [apply (bool_decide_unpack _); vm_compute; exact I | done].
Defined.

(** A ':' inside a token is not escaped: the register greeting of token
    [t1:t2] and id [id] decodes as token [t1] and instance id [t2:id], so the
    relay checks and registers something else than the backend asked for. *)
Theorem greeting_token_with_colon_misparses (t1 t2 id : string) :
  x3a ∉ str_bytes t1 ->
  DecodeRelayGreeting (EncodeRelayGreetingRegister (bytes_str (str_bytes t1 ++ x3a :: str_bytes t2)) id) =
    Ok {| Variant := RelayGreetingRegister; Token := t1;
          InstanceId := bytes_str (str_bytes t2 ++ x3a :: str_bytes id) |}.
Proof.
  intros Ht. unfold EncodeRelayGreetingRegister, DecodeRelayGreeting.
  replace (HasPrefix _ (str_bytes "connect:")) with false by done.
  rewrite HasPrefix_app. unfold decodeSuffix, writeSuffix.
  rewrite (drop_app_length (str_bytes "register")).
  replace (anyNonEmpty _) with true.
  - cbn [map concat app negb]. rewrite app_nil_r, str_bytes_str.
    change (str_bytes ":") with [x3a]. cbn [app].
    rewrite bool_decide_true by done. cbn [negb].
    rewrite <-app_assoc. cbn [app]. rewrite (SplitN2_app (str_bytes t1)) by done.
    simpl default. by rewrite bytes_str_bytes.
  - unfold anyNonEmpty. cbn [existsb]. rewrite bool_decide_false; [done |].
    intros He. apply (f_equal str_bytes) in He. rewrite str_bytes_str in He.
    by destruct (str_bytes t1).
Qed.

Lemma greeting_token_with_colon_misparses_witness :
  DecodeRelayGreeting (EncodeRelayGreetingRegister "a:b" "id") =
    Ok {| Variant := RelayGreetingRegister; Token := "a"; InstanceId := "b:id" |}.
Proof. apply (greeting_token_with_colon_misparses "a" "b" "id"). apply (bool_decide_unpack _). vm_compute. exact I. Defined.

(** The name header binds a stream to its name whatever follows it, and
    a successful decode reads its name from inside the message. *)
Theorem stream_header_binds_name (name : string) (rest buf : bytes) (n : string) :
  (slen name < 2 ^ 64 -> DecodeStreamHeader (EncodeStreamHeader name ++ rest) = Ok name) /\
  (DecodeStreamHeader buf = Ok n ->
   exists hdr tail, buf = hdr ++ str_bytes n ++ tail /\ 0 < len hdr <= MaxVarintLen64).
Proof.
  split; [apply stream_header_app |].
  unfold DecodeStreamHeader. change (drop (Z.to_nat 0) ?l) with l.
  destruct (Uvarint buf) as [ln k] eqn:E.
  destruct (Z.leb_spec k 0); [done |]. rewrite Z.add_0_l.
  pose proof (Uvarint_le_10 _ _ _ E). apply Uvarint_n in E; [| done].
  destruct (Z.ltb_spec (len buf - k) ln); [done |]. intros [= <-].
  exists (take (Z.to_nat k) buf), (drop (Z.to_nat ln) (drop (Z.to_nat k) buf)).
  rewrite str_bytes_str, take_drop, take_drop. split; [done |].
  unfold len in *. rewrite length_take. lia.
Qed.

(** The route list survives the wire: decoding the encoding of any list
    of entries returns the list, also with bytes after it. *)
Theorem routes_roundtrip (maxCap : Z) (es : list RouteEntry) (junk : bytes) :
  Forall entry_ok es -> len es <= maxCap -> len es < 2 ^ 64 ->
  decodeRoutes maxCap (encodeRoutes es ++ junk) = Some (Ok es).
Proof.
  intros Hok Hcap Hlen. pose proof (len_nonneg es).
  unfold decodeRoutes. rewrite encodeRoutes_concat, <-app_assoc.
  rewrite Uvarint_Put by lia. pose proof (len_PutUvarint (len es)).
  rewrite (proj2 (Z.leb_gt _ 0)), (proj2 (Z.ltb_ge _ _)) by lia.
  rewrite drop_app_len by done. f_equal.
  by rewrite decodeRoutes_loop_encode by (done || lia).
Qed.

Lemma routes_roundtrip_witness :
  decodeRoutes 1000 (encodeRoutes [{| Route := "chat"; Metadata := [x01] |}] ++ [xff]) =
    Some (Ok [{| Route := "chat"; Metadata := [x01] |}]).
Proof.
  apply (routes_roundtrip 1000 [{| Route := "chat"; Metadata := [x01] |}] [xff]);
    [repeat constructor; vm_compute; done | vm_compute; done | vm_compute; done].
Defined.

(** A short reply can make the decoder panic: for every capacity limit
    below 2^64 - 1, some ten-byte message (a count and nothing else) makes
    [make([]RouteEntry, 0, count)] panic instead of returning an error. *)
Theorem routes_decode_can_panic (maxCap : Z) :
  maxCap < 2 ^ 64 - 1 ->
  decodeRoutes maxCap (PutUvarint (2 ^ 64 - 1)) = None /\
  len (PutUvarint (2 ^ 64 - 1)) = 10.
Proof.
  intros Hc. split; [| done]. unfold decodeRoutes.
  rewrite <-(app_nil_r (PutUvarint _)), Uvarint_Put by lia.
  rewrite (proj2 (Z.leb_gt _ 0)) by (pose proof (len_PutUvarint (2 ^ 64 - 1)); lia).
  by rewrite (proj2 (Z.ltb_lt _ _)) by lia.
Qed.

Lemma routes_decode_can_panic_witness :
  decodeRoutes (2 ^ 48 / 40) (PutUvarint (2 ^ 64 - 1)) = None.
Proof. apply (routes_decode_can_panic (2 ^ 48 / 40)). vm_compute. done. Defined.

(** Wire size of a decoded entry: its bytes and two length prefixes. *)
Definition entry_size (e : RouteEntry) : Z := slen (Route e) + len (Metadata e) + 2.

Definition routes_size (es : list RouteEntry) : Z := fold_right (fun e n => entry_size e + n) 0 es.

Lemma routes_size_snoc es e : routes_size (es ++ [e]) = routes_size es + entry_size e.
Proof. induction es as [|e' es IH]; simpl; [lia |]. rewrite IH. lia. Qed.

Lemma decodeRoutes_loop_size fuel : forall i count b acc es,
  i <= count -> decodeRoutes_loop fuel i count b acc = Ok es ->
  routes_size es <= routes_size acc + len b /\ len es = len acc + (count - i).
Proof.
  induction fuel as [|f IH]; intros i count b acc es Hi; simpl;
    destruct (Z.ltb_spec i count); simpl;
    try (intros [= <-]; pose proof (len_nonneg b); split; lia).
  destruct (readLenPrefixed b) as [[r rest]|] eqn:E1; [| done].
  destruct (readLenPrefixed rest) as [[m rest']|] eqn:E2; [| done].
  intros Hl. apply IH in Hl as [Hs Hn]; [| lia].
  rewrite routes_size_snoc in Hs. rewrite len_app in Hn.
  change (len [_]) with 1 in Hn. split; [| lia].
  apply readLenPrefixed_split in E1 as (h1 & -> & H1), E2 as (h2 & -> & H2).
  unfold entry_size, slen in Hs. cbn [Route Metadata] in Hs. rewrite str_bytes_str in Hs.
  autorewrite with len. lia.
Qed.

(** A decoded route list is never larger than the message it came from:
    the strings, metadata and prefixes of all entries fit in the input, so a
    successful decode of [n] bytes yields fewer than [n/2] entries. *)
Theorem routes_decode_bounded (maxCap : Z) (b : bytes) (es : list RouteEntry) :
  decodeRoutes maxCap b = Some (Ok es) ->
  routes_size es < len b /\ 2 * len es < len b.
Proof.
  unfold decodeRoutes. destruct (Uvarint b) as [count n] eqn:E.
  destruct (Z.leb_spec n 0); [done |]. destruct (maxCap <? count); [done |].
  pose proof (Uvarint_nonneg _ _ _ E). apply Uvarint_n in E; [| done].
  intros Hl. apply (inj Some) in Hl. apply decodeRoutes_loop_size in Hl as [Hs Hn]; [| done].
  assert (Hb : len (drop (Z.to_nat n) b) < len b) by (unfold len in *; rewrite length_drop; lia).
  simpl in Hs. split; [lia |].
  assert (Htwo : 2 * len es <= routes_size es); [| lia].
  clear. induction es as [|e es IH]; [done |]. simpl. rewrite len_cons. unfold entry_size, slen.
  pose proof (len_nonneg (str_bytes (Route e))). pose proof (len_nonneg (Metadata e)). lia.
Qed.

Lemma routes_decode_bounded_witness :
  routes_size [{| Route := "chat"; Metadata := [x01] |}] < 8 /\ 2 * 1 < 8.
Proof.
  apply (routes_decode_bounded 1000 (encodeRoutes [{| Route := "chat"; Metadata := [x01] |}])
           [{| Route := "chat"; Metadata := [x01] |}]). vm_compute. done.
Defined.
