(* ===== verification/WireFormats.v ===== *)
(** * WireFormats: the byte-format generator (protocol/wireformats.go)

    A set of one-shot byte formats, its validation, and the meaning of the Go
    encoders and decoders that [WireFormatSet.ExportGo] writes for it: an
    emitted encoder as a function from the values of its parameters to bytes,
    an emitted decoder as a function from bytes to the values it assigns.
    The properties relate it to [Wire]: what is written for
    protocol/wireformats.yaml is the code of wire_gen.go. *)

From Stdlib Require Import ZArith Lia Sorting.Sorted Strings.Byte Strings.String Strings.Ascii.
From stdpp Require Import base sets strings list.
From S2P Require Import Prelude Binary Wire.

Open Scope Z_scope.

(** ** Formats *)

Definition WireFieldKind : Type := string.
Definition WFU32BE : WireFieldKind := "u32_be".
Definition WFVarint : WireFieldKind := "varint".
Definition WFStringLenV : WireFieldKind := "string_with_varint_length".
Definition WFStringToEnd : WireFieldKind := "string_to_end".
Definition WFBytesToEnd : WireFieldKind := "bytes_to_end".

Record WireField := {
  wfName : string;
  wfKind : WireFieldKind
}.

Record WireVariant := {
  wvName : string;
  wvFields : list WireField
}.

Record WireUnion := {
  wuName : string;
  wuPrefix : string;
  wuFields : list WireField;
  wuColonSuffix : list WireField
}.

Record WireFormat_ := {
  wName : string;
  wDesc : string;
  wFields : list WireField;
  wVariants : list WireVariant;
  wUnion : list WireUnion
}.

Record WireFormatSet := {
  wsName : string;
  wsFormats : list WireFormat_
}.

Definition nonEmpty {A} (l : list A) : bool := match l with [] => false | _ => true end.
Definition IsPlain (f : WireFormat_) : bool := negb (nonEmpty (wVariants f)) && negb (nonEmpty (wUnion f)).
Definition IsVariant (f : WireFormat_) : bool := nonEmpty (wVariants f).
Definition IsUnion (f : WireFormat_) : bool := nonEmpty (wUnion f).

(** ** The decoded document *)

Record yamlWireField := {
  yfName : string;
  yfKind : string
}.

Record yamlWireVariant := {
  yvName : string;
  yvFields : list yamlWireField
}.

Record yamlWireUnion := {
  yuName : string;
  yuPrefix : string;
  yuFields : list yamlWireField;
  yuColonSuffix : list yamlWireField
}.

Record yamlWireFormatSpec := {
  ysName : string;
  ysDesc : string;
  ysFields : list yamlWireField;
  ysVariants : list yamlWireVariant;
  ysUnion : list yamlWireUnion
}.

Record yamlWireFormatSet := {
  yssName : string;
  yssFormats : list yamlWireFormatSpec
}.

Definition wireField (f : yamlWireField) : WireField := {| wfName := yfName f; wfKind := yfKind f |}.
Definition wireVariant (v : yamlWireVariant) : WireVariant :=
  {| wvName := yvName v; wvFields := map wireField (yvFields v) |}.
Definition wireUnion (u : yamlWireUnion) : WireUnion :=
  {| wuName := yuName u; wuPrefix := yuPrefix u; wuFields := map wireField (yuFields u);
     wuColonSuffix := map wireField (yuColonSuffix u) |}.
Definition wireFormat (f : yamlWireFormatSpec) : WireFormat_ :=
  {| wName := ysName f; wDesc := ysDesc f; wFields := map wireField (ysFields f);
     wVariants := map wireVariant (ysVariants f); wUnion := map wireUnion (ysUnion f) |}.

(** [decoded] is what the YAML package returns for the document. *)
Definition ParseWireFormatsYAML (decoded : result yamlWireFormatSet) : result WireFormatSet :=
  let! ys := rwrap "parse YAML: %w" [] decoded in
  Ok {| wsName := yssName ys; wsFormats := map wireFormat (yssFormats ys) |}.

(** ** Validation *)

(** The first error of a loop that returns it. *)
Fixpoint firstErr {A} (f : A -> option error) (l : list A) : option error :=
  match l with
  | [] => None
  | x :: l => match f x with Some e => Some e | None => firstErr f l end
  end.

(** The closure [check]. *)
Fixpoint check (where_ : string) (fields : list WireField) : option error :=
  match fields with
  | [] => None
  | fl :: rest =>
      if existsb (String.eqb (wfKind fl)) [WFU32BE; WFVarint; WFStringLenV] then check where_ rest
      else if existsb (String.eqb (wfKind fl)) [WFStringToEnd; WFBytesToEnd] then
        if nonEmpty rest then Some (EFmt "%s: field %q kind %q must be last" [AStr where_; AStr (wfName fl); AStr (wfKind fl)])
        else check where_ rest
      else Some (EFmt "%s: field %q has unknown kind %q" [AStr where_; AStr (wfName fl); AStr (wfKind fl)])
  end.

Definition checkUnion (f : WireFormat_) (u : WireUnion) : option error :=
  if bool_decide (wuPrefix u = EmptyString) then
    Some (EFmt "format %q union variant %q: prefix is required" [AStr (wName f); AStr (wuName u)])
  else match check ("format " +:+ wName f +:+ " union " +:+ wuName u) (wuFields u) with
  | Some e => Some e
  | None =>
      firstErr (fun cs =>
        if negb (bool_decide (wfKind cs = "string")) && negb (bool_decide (wfKind cs = EmptyString)) then
          Some (EFmt "format %q union %q: colon_suffix fields must be string (got %q)"
                  [AStr (wName f); AStr (wuName u); AStr (wfKind cs)])
        else None) (wuColonSuffix u)
  end.

Definition checkFormat (f : WireFormat_) : option error :=
  let hits := ((if nonEmpty (wFields f) then 1 else 0) + (if nonEmpty (wVariants f) then 1 else 0)
               + (if nonEmpty (wUnion f) then 1 else 0))%nat in
  if negb (hits =? 1)%nat then
    Some (EFmt "format %q: must declare exactly one of fields/variants/union" [AStr (wName f)])
  else match check ("format " +:+ wName f) (wFields f) with
  | Some e => Some e
  | None =>
      match firstErr (fun v => check ("format " +:+ wName f +:+ " variant " +:+ wvName v) (wvFields v)) (wVariants f) with
      | Some e => Some e
      | None => firstErr (checkUnion f) (wUnion f)
      end
  end.

Definition WireFormatSet_Validate (s : WireFormatSet) : option error :=
  if bool_decide (wsName s = EmptyString) then Some (EFmt "wireformat set: name is required" [])
  else if negb (nonEmpty (wsFormats s)) then
    Some (EFmt "wireformat set %q: at least one format required" [AStr (wsName s)])
  else firstErr checkFormat (wsFormats s).

(** ** Fields *)

(** The value of a parameter: [uint32] or [uint64], [string], [[]byte]. *)
Inductive wireVal :=
  | WVInt (z : Z)
  | WVStr (s : string)
  | WVBytes (b : bytes).

(** The statement [goEmitEncode] writes: what it appends to [buf]. *)
Definition goEmitEncode (fl : WireField) (v : wireVal) : bytes :=
  let k := wfKind fl in
  match v with
  | WVInt z =>
      if bool_decide (k = WFU32BE) then be_put 4 z
      else if bool_decide (k = WFVarint) then PutUvarint z
      else []
  | WVStr s =>
      if bool_decide (k = WFStringLenV) then PutUvarint (slen s) ++ str_bytes s
      else if bool_decide (k = WFStringToEnd) then str_bytes s
      else []
  | WVBytes b => if bool_decide (k = WFBytesToEnd) then b else []
  end.

(** The statements [goEmitDecode] writes: the value assigned and the new
    offset. *)
Definition goEmitDecode (fl : WireField) (buf : bytes) (off : Z) : result (wireVal * Z) :=
  let k := wfKind fl in
  if bool_decide (k = WFU32BE) then
    if len buf - off <? 4 then Err (ENew ("truncated u32_be " +:+ wfName fl))
    else Ok (WVInt (be_get (slice_to (slice_from buf off) 4)), off + 4)
  else if bool_decide (k = WFVarint) then
    let '(v, n) := Uvarint (slice_from buf off) in
    if n <=? 0 then Err (ENew ("bad varint " +:+ wfName fl)) else Ok (WVInt v, off + n)
  else if bool_decide (k = WFStringLenV) then
    let '(ln, n) := Uvarint (slice_from buf off) in
    if n <=? 0 then Err (ENew ("bad varint length " +:+ wfName fl)) else
    let off := off + n in
    if len buf - off <? ln then Err (ENew ("truncated " +:+ wfName fl))
    else Ok (WVStr (bytes_str (slice_to (slice_from buf off) ln)), off + ln)
  else if bool_decide (k = WFStringToEnd) then Ok (WVStr (bytes_str (slice_from buf off)), len buf)
  else if bool_decide (k = WFBytesToEnd) then Ok (WVBytes (slice_from buf off), len buf)
  else Ok (WVStr EmptyString, off).

Fixpoint encodeFields (fields : list WireField) (vs : list wireVal) : bytes :=
  match fields, vs with
  | fl :: fields, v :: vs => goEmitEncode fl v ++ encodeFields fields vs
  | _, _ => []
  end.

Fixpoint decodeFields (fields : list WireField) (buf : bytes) (off : Z) : result (list wireVal) :=
  match fields with
  | [] => Ok []
  | fl :: fields =>
      let! r := goEmitDecode fl buf off in
      let! vs := decodeFields fields buf r.2 in
      Ok (r.1 :: vs)
  end.

(** [goEmitPlain]: the encoder and the decoder of a plain format. *)
Definition goEmitPlain (f : WireFormat_) : (list wireVal -> bytes) * (bytes -> result (list wireVal)) :=
  (encodeFields (wFields f), fun buf => decodeFields (wFields f) buf 0).

(** ** Variants *)

(** The arguments of the encoder: every field name, where it first appears. *)
Definition variantArgs (f : WireFormat_) : list WireField :=
  foldl (fun args fl => if existsb (fun a => String.eqb (wfName a) (wfName fl)) args then args else args ++ [fl])
    [] (flat_map wvFields (wVariants f)).

(** An assignment of values to arguments, by field name. *)
Definition argOf (env : list (string * wireVal)) (fl : WireField) : wireVal :=
  default (WVStr EmptyString) (snd <$> find (fun e => String.eqb e.1 (wfName fl)) env).
Definition argsOf (env : list (string * wireVal)) (fields : list WireField) : list wireVal := map (argOf env) fields.

(** [goEmitVariant]: one encoder, which branches on whether the first variant
    is meant, and a decoder per variant.  [None]: more than two variants are
    written as an [if] with two [else] branches, which is no Go program. *)
Definition goEmitVariant (f : WireFormat_)
    : option ((bool -> list (string * wireVal) -> bytes) * list (string * (bytes -> result (list wireVal)))) :=
  let decoders := map (fun v => (wvName v, fun buf => decodeFields (wvFields v) buf 0)) (wVariants f) in
  match wVariants f with
  | [v0] => Some (fun isV0 env => if isV0 : bool then encodeFields (wvFields v0) (argsOf env (wvFields v0)) else [], decoders)
  | [v0; v1] =>
      Some (fun isV0 env => if isV0 : bool then encodeFields (wvFields v0) (argsOf env (wvFields v0))
                            else encodeFields (wvFields v1) (argsOf env (wvFields v1)), decoders)
  | _ => None
  end.

(** ** Unions *)

(** The encoder of one union variant, on the values of its tail fields (all
    strings: a union tail is [string_to_end]) and of its suffix fields. *)
Definition goEmitUnionEncode (u : WireUnion) (tail suffix : list string) : bytes :=
  match wuColonSuffix u, wuFields u with
  | [], [] => str_bytes (wuPrefix u)
  | [], _ => str_bytes (wuPrefix u) ++ concat (map str_bytes tail)
  | _, _ => str_bytes (wuPrefix u) ++ writeSuffix suffix
  end.

(** The exchange sort of [goEmitUnion]: the inner loop at position [i] carries
    [ordered[i]] along the rest. *)
Fixpoint exchange (cur : WireUnion) (rest : list WireUnion) : WireUnion * list WireUnion :=
  match rest with
  | [] => (cur, [])
  | x :: rest =>
      if (String.length (wuPrefix cur) <? String.length (wuPrefix x))%nat
      then let '(c, r) := exchange x rest in (c, cur :: r)
      else let '(c, r) := exchange cur rest in (c, x :: r)
  end.
Fixpoint orderedFrom (fuel : nat) (us : list WireUnion) : list WireUnion :=
  match fuel, us with
  | S fuel, x :: rest => let '(c, r) := exchange x rest in c :: orderedFrom fuel r
  | _, _ => us
  end.
Definition ordered (us : list WireUnion) : list WireUnion := orderedFrom (length us) us.

(** [strings.SplitN(s, ":", n)] for [0 < n]. *)
Fixpoint cutColon (s : bytes) : option (bytes * bytes) :=
  match s with
  | [] => None
  | b :: s => if bool_decide (b = x3a) then Some ([], s)
              else match cutColon s with Some (p, r) => Some (b :: p, r) | None => None end
  end.
Fixpoint SplitN (n : nat) (s : bytes) : list bytes :=
  match n with
  | O | 1%nat => [s]
  | S n => match cutColon s with Some (p, r) => p :: SplitN n r | None => [s] end
  end.

(** A decoded union: the name of its variant and the fields assigned. *)
Definition unionDecoded : Type := string * list (string * string).

(** The branch of the decoder for one variant, on what follows its prefix. *)
Definition goEmitUnionBranch (f : WireFormat_) (u : WireUnion) (rest : bytes) : result unionDecoded :=
  match wuColonSuffix u with
  | [] => Ok (wuName u, map (fun fl => (wfName fl, bytes_str rest)) (wuFields u))
  | suffix =>
      match rest with
      | [] => Ok (wuName u, [])
      | c :: rest =>
          if negb (bool_decide (c = x3a)) then
            Err (ENew (wName f +:+ ": malformed " +:+ wuName u +:+ ": missing ':' after prefix"))
          else Ok (wuName u, zip (map wfName suffix) (map bytes_str (SplitN (length suffix) rest)))
      end
  end.

Fixpoint decodeOrdered (f : WireFormat_) (us : list WireUnion) (s : bytes) : result unionDecoded :=
  match us with
  | [] => Err (ENew (wName f +:+ ": unrecognised prefix"))
  | u :: us =>
      if HasPrefix s (str_bytes (wuPrefix u)) then goEmitUnionBranch f u (drop (String.length (wuPrefix u)) s)
      else decodeOrdered f us s
  end.

(** [goEmitUnion]: the combined decoder. *)
Definition goEmitUnionDecode (f : WireFormat_) (buf : bytes) : result unionDecoded :=
  decodeOrdered f (ordered (wUnion f)) buf.

(** A field of the decoded struct: its assigned value, or the zero value. *)
Definition fieldOf (d : unionDecoded) (name : string) : string :=
  default EmptyString (snd <$> find (fun e => String.eqb e.1 name) d.2).

(** ** The emitted file *)

(** [strings.Split(s, "_")] *)
Fixpoint SplitUnderscore (s : string) : list string :=
  match s with
  | EmptyString => [EmptyString]
  | String a s =>
      if Ascii.eqb a "_"%char then EmptyString :: SplitUnderscore s
      else match SplitUnderscore s with
           | p :: rest => String a p :: rest
           | [] => [String a EmptyString]
           end
  end.

Definition upperCamel (s : string) : string :=
  String.concat EmptyString
    (map (fun p => match p with EmptyString => EmptyString | String a p => String (toUpper a) p end)
       (SplitUnderscore s)).

Definition lowerCamel (s : string) : string :=
  match upperCamel s with
  | EmptyString => EmptyString
  | String a out => String (toLower a) out
  end.

(** A function of the emitted file. *)
Inductive goFunc :=
  | EncodeFunc (enc : list wireVal -> bytes)
  | EncodeVariantFunc (enc : bool -> list (string * wireVal) -> bytes)
  | EncodeUnionFunc (enc : list string -> list string -> bytes)
  | DecodeFunc (dec : bytes -> result (list wireVal))
  | DecodeUnionFunc (dec : bytes -> result unionDecoded).

(** The functions written for one format, with their names; [None] when what
    is written is no Go program. *)
Definition emitFormat (f : WireFormat_) : option (list (string * goFunc)) :=
  let upper := upperCamel (wName f) in
  if IsPlain f then
    let '(enc, dec) := goEmitPlain f in
    Some [("Encode" +:+ upper, EncodeFunc enc); ("Decode" +:+ upper, DecodeFunc dec)]
  else if IsVariant f then
    match goEmitVariant f with
    | Some (enc, decs) =>
        Some (("Encode" +:+ upper, EncodeVariantFunc enc)
              :: map (fun d => ("Decode" +:+ upper +:+ upperCamel d.1, DecodeFunc d.2)) decs)
    | None => None
    end
  else
    Some (map (fun u => ("Encode" +:+ upper +:+ upperCamel (wuName u), EncodeUnionFunc (goEmitUnionEncode u))) (wUnion f)
          ++ [("Decode" +:+ upper, DecodeUnionFunc (goEmitUnionDecode f))]).

Definition ExportGo (s : WireFormatSet) : option (list (string * goFunc)) :=
  mjoin <$> mapM emitFormat (wsFormats s).

(** The function the emitted file declares under a name. *)
Definition goFuncNamed (s : WireFormatSet) (name : string) : option goFunc :=
  fs ← ExportGo s; snd <$> find (fun e => String.eqb e.1 name) fs.

(** The document protocol/wireformats.yaml, as the YAML package decodes it. *)
Definition pigeonYAML : yamlWireFormatSet := {|
  yssName := "pigeon_wire";
  yssFormats := [
    {| ysName := "stream_header";
       ysDesc := "First message on every stream — binds the stream to a name.";
       ysFields := [{| yfName := "name"; yfKind := "string_with_varint_length" |}];
       ysVariants := []; ysUnion := [] |};
    {| ysName := "datagram_plaintext";
       ysDesc := "Plaintext layout of a datagram before AEAD encryption.";
       ysFields := [{| yfName := "channel_id"; yfKind := "varint" |};
                    {| yfName := "payload"; yfKind := "bytes_to_end" |}];
       ysVariants := []; ysUnion := [] |};
    {| ysName := "relay_greeting";
       ysDesc := "Relay-side greeting sent on the primary stream after dial.";
       ysFields := []; ysVariants := [];
       ysUnion := [
         {| yuName := "connect"; yuPrefix := "connect:";
            yuFields := [{| yfName := "instance_id"; yfKind := "string_to_end" |}]; yuColonSuffix := [] |};
         {| yuName := "register"; yuPrefix := "register"; yuFields := [];
            yuColonSuffix := [{| yfName := "token"; yfKind := "string" |};
                              {| yfName := "instance_id"; yfKind := "string" |}] |};
         {| yuName := "listen"; yuPrefix := "listen"; yuFields := [];
            yuColonSuffix := [{| yfName := "token"; yfKind := "string" |};
                              {| yfName := "instance_id"; yfKind := "string" |}] |}] |}] |}.

Definition pigeonWire : WireFormatSet :=
  match ParseWireFormatsYAML (Ok pigeonYAML) with Ok s => s | Err _ => {| wsName := EmptyString; wsFormats := [] |} end.

(** ** Lemmas: fields *)

(** A field that takes the rest of the buffer. *)
Definition toEnd (fl : WireField) : bool := existsb (String.eqb (wfKind fl)) [WFStringToEnd; WFBytesToEnd].

(** A value of the Go type of a field ([goFieldType]): a [uint32], a [uint64],
    a string or a byte slice. *)
Definition valueFits (fl : WireField) (v : wireVal) : Prop :=
  match v with
  | WVInt z => (wfKind fl = WFU32BE /\ 0 <= z < 2 ^ 32) \/ (wfKind fl = WFVarint /\ 0 <= z < 2 ^ 64)
  | WVStr s => (wfKind fl = WFStringLenV /\ slen s < 2 ^ 64) \/ wfKind fl = WFStringToEnd
  | WVBytes _ => wfKind fl = WFBytesToEnd
  end.

Ltac kinds k :=
  unfold goEmitEncode, goEmitDecode, toEnd; cbv zeta; rewrite k;
  repeat (first [rewrite bool_decide_true by done | rewrite bool_decide_false by done]).

Lemma goEmitDecode_encode fl v pre rest :
  valueFits fl v -> (toEnd fl = true -> rest = []) ->
  goEmitDecode fl (pre ++ goEmitEncode fl v ++ rest) (len pre) = Ok (v, len pre + len (goEmitEncode fl v)).
Proof.
  pose proof (len_nonneg rest) as Hr.
  destruct v as [z|s|b]; simpl valueFits; intros Hv He.
  - destruct Hv as [[k Hz]|[k Hz]]; kinds k; rewrite drop_app_len by done.
    + assert (Hl : len (be_put 4 z) = 4) by (unfold len; by rewrite length_be_put).
      rewrite !len_app, Hl. rewrite (proj2 (Z.ltb_ge _ _)) by lia.
      rewrite take_app_len, be_get_put by (done || lia). done.
    + rewrite Uvarint_Put by done. pose proof (len_PutUvarint z).
      by rewrite (proj2 (Z.leb_gt _ 0)) by lia.
  - destruct Hv as [[k Hs]|k]; kinds k; rewrite drop_app_len by done.
    + rewrite <-app_assoc. pose proof (len_nonneg (str_bytes s)).
      pose proof (len_PutUvarint (slen s)). unfold slen in *.
      rewrite Uvarint_Put by lia. rewrite (proj2 (Z.leb_gt _ 0)) by lia.
      rewrite !len_app. rewrite (proj2 (Z.ltb_ge _ _)) by lia.
      rewrite app_assoc, drop_app_len by (by rewrite len_app).
      rewrite take_app_len by done. rewrite bytes_str_bytes. f_equal. f_equal. lia.
    + rewrite He by (unfold toEnd; by rewrite k). by rewrite app_nil_r, bytes_str_bytes, len_app.
  - kinds Hv. rewrite drop_app_len by done.
    rewrite He by (unfold toEnd; by rewrite Hv). by rewrite app_nil_r, len_app.
Qed.

Lemma check_cons w fl fields :
  check w (fl :: fields) = None -> check w fields = None /\ (toEnd fl = true -> fields = []).
Proof.
  cbn [check]. fold (toEnd fl).
  destruct (existsb (String.eqb (wfKind fl)) [WFU32BE; WFVarint; WFStringLenV]) eqn:E.
  - intros H. split; [done |]. intros He. exfalso. unfold toEnd in He.
    apply existsb_exists in E as (k & Hk & Ek), He as (k' & Hk' & Ek').
    apply String.eqb_eq in Ek, Ek'. rewrite Ek in Ek'. subst k'. simpl in Hk, Hk'.
    destruct Hk as [<-|[<-|[<-|[]]]]; destruct Hk' as [Hk'|[Hk'|[]]]; discriminate.
  - destruct (toEnd fl); [| done]. destruct fields; [done |]. done.
Qed.

Lemma decodeFields_encode w fields : forall vs pre,
  check w fields = None -> Forall2 valueFits fields vs ->
  decodeFields fields (pre ++ encodeFields fields vs) (len pre) = Ok vs.
Proof.
  induction fields as [|fl fields IH]; intros vs pre Hc Hf; inversion Hf as [|? v ? vs' Hv Hvs]; subst; [done |].
  apply check_cons in Hc as [Hc Hend]. cbn [decodeFields encodeFields].
  rewrite goEmitDecode_encode; [| done | intros He; by rewrite Hend].
  cbn [rbind fst snd]. rewrite <-len_app, app_assoc, IH by done. done.
Qed.

(** ** Lemmas: validation *)

Lemma firstErr_None {A} (f : A -> option error) l x : firstErr f l = None -> x ∈ l -> f x = None.
Proof.
  induction l as [|y l IH]; cbn [firstErr]; intros H Hx; [by apply not_elem_of_nil in Hx |].
  destruct (f y) eqn:E; [done |]. apply elem_of_cons in Hx as [->|Hx]; auto.
Qed.

Lemma Validate_checkFormat s f :
  WireFormatSet_Validate s = None -> f ∈ wsFormats s -> checkFormat f = None.
Proof.
  unfold WireFormatSet_Validate. intros H Hf. case_match; [done |]. case_match; [done |].
  by eapply firstErr_None.
Qed.

Lemma checkFormat_fields f :
  checkFormat f = None ->
  check ("format " +:+ wName f) (wFields f) = None /\
  (forall v, v ∈ wVariants f -> check ("format " +:+ wName f +:+ " variant " +:+ wvName v) (wvFields v) = None) /\
  (forall u, u ∈ wUnion f -> checkUnion f u = None).
Proof.
  unfold checkFormat. destruct (negb _); [done |].
  destruct (check _ (wFields f)); [done |]. destruct (firstErr _ (wVariants f)) eqn:Hv; [done |].
  intros Hu. split_and!; [done | |]; intros x Hx; [| exact (firstErr_None _ _ _ Hu Hx)].
  exact (firstErr_None _ _ _ Hv Hx).
Qed.

(** ** Lemmas: the order of the prefixes *)

Definition plen (u : WireUnion) : nat := String.length (wuPrefix u).

Lemma exchange_spec rest : forall cur c r,
  exchange cur rest = (c, r) ->
  c :: r ≡ₚ cur :: rest /\ length r = length rest /\ Forall (fun u => plen u <= plen c)%nat (cur :: rest).
Proof.
  induction rest as [|x rest IH]; cbn [exchange]; intros cur c r.
  { intros [= <- <-]. by repeat constructor. }
  fold (plen cur) (plen x). destruct (Nat.ltb_spec (plen cur) (plen x)).
  - destruct (exchange x rest) as [c' r'] eqn:E. intros [= <- <-].
    apply IH in E as (Hp & Hl & Hf). split_and!.
    + rewrite Permutation_swap. rewrite Hp. done.
    + cbn. by f_equal.
    + constructor; [| done]. inversion Hf; subst. lia.
  - destruct (exchange cur rest) as [c' r'] eqn:E. intros [= <- <-].
    apply IH in E as (Hp & Hl & Hf). split_and!.
    + rewrite Permutation_swap, Hp. apply Permutation_swap.
    + cbn. by f_equal.
    + inversion Hf as [|? ? Hc Hr]; subst. repeat (constructor; [lia |]). done.
Qed.

Lemma orderedFrom_spec fuel : forall us,
  length us = fuel ->
  orderedFrom fuel us ≡ₚ us /\ StronglySorted (fun u u' => plen u' <= plen u)%nat (orderedFrom fuel us).
Proof.
  induction fuel as [|fuel IH]; intros [|x us]; cbn [length]; intros Hl; try done; cbn [orderedFrom].
  { split; [done | constructor]. }
  destruct (exchange x us) as [c r] eqn:E. apply exchange_spec in E as (Hp & Hr & Hf).
  destruct (IH r) as [Hpr Hs]; [lia |]. split.
  - by rewrite Hpr.
  - constructor; [done |]. rewrite Hpr. rewrite <-Hp in Hf. by inversion Hf.
Qed.

Lemma ordered_perm us : ordered us ≡ₚ us.
Proof. by apply orderedFrom_spec. Qed.

Lemma ordered_sorted us : StronglySorted (fun u u' => plen u' <= plen u)%nat (ordered us).
Proof. by apply orderedFrom_spec. Qed.

(** The decoder takes the branch of [u] when every other variant whose prefix
    begins the message has a shorter one. *)
Lemma decodeOrdered_longest f u s us :
  StronglySorted (fun u u' => plen u' <= plen u)%nat us ->
  u ∈ us -> HasPrefix s (str_bytes (wuPrefix u)) = true ->
  (forall u', u' ∈ us -> HasPrefix s (str_bytes (wuPrefix u')) = true -> u' = u \/ plen u' < plen u)%nat ->
  decodeOrdered f us s = goEmitUnionBranch f u (drop (plen u) s).
Proof.
  intros Hs Hu Hp Hmax. induction Hs as [|x us Hs IH Hx]; [by apply not_elem_of_nil in Hu |].
  cbn [decodeOrdered]. fold (plen x).
  destruct (HasPrefix s (str_bytes (wuPrefix x))) eqn:E.
  - destruct (Hmax x) as [->|Hlt]; [by left | done | done |].
    apply elem_of_cons in Hu as [->|Hu]; [done |].
    rewrite Forall_forall in Hx. apply Hx in Hu. lia.
  - apply elem_of_cons in Hu as [->|Hu]; [congruence |]. apply IH; [done |].
    intros u' Hu'. apply Hmax. by right.
Qed.

(** ** Lemmas: colon suffixes *)

Definition noColon (s : string) : Prop := x3a ∉ str_bytes s.

Lemma cutColon_app p r : x3a ∉ p -> cutColon (p ++ x3a :: r) = Some (p, r).
Proof.
  induction p as [|b p IH]; cbn [app cutColon]; intros Hp.
  - by rewrite bool_decide_true.
  - rewrite bool_decide_false by set_solver. by rewrite IH by set_solver.
Qed.

(** What is written for a suffix, after the first colon. *)
Fixpoint joinColon (l : list string) : bytes :=
  match l with
  | [] => []
  | [x] => str_bytes x
  | x :: l => str_bytes x ++ x3a :: joinColon l
  end.

Lemma writeSuffix_join x l :
  writeSuffix (x :: l) = if anyNonEmpty (x :: l) then x3a :: joinColon (x :: l) else [].
Proof.
  unfold writeSuffix. destruct (anyNonEmpty (x :: l)); [| done].
  change (str_bytes ":") with [x3a]. cbn [map concat app]. f_equal.
  clear. revert x. induction l as [|y l IH]; intros x; cbn [map concat].
  - by rewrite app_nil_r.
  - change (joinColon (x :: y :: l)) with (str_bytes x ++ x3a :: joinColon (y :: l)).
    f_equal. cbn [app]. by rewrite IH.
Qed.

Lemma SplitN_join l : forall x,
  Forall noColon (removelast (x :: l)) -> SplitN (S (length l)) (joinColon (x :: l)) = map str_bytes (x :: l).
Proof.
  induction l as [|y l IH]; intros x Hn; [done |].
  change (removelast (x :: y :: l)) with (x :: removelast (y :: l)) in Hn.
  inversion Hn as [|? ? Hx Hl]; subst.
  change (joinColon (x :: y :: l)) with (str_bytes x ++ x3a :: joinColon (y :: l)).
  change (SplitN (S (length (y :: l))) ?s) with
    (match cutColon s with Some (p, r) => p :: SplitN (S (length l)) r | None => [s] end).
  rewrite cutColon_app by done. by rewrite IH.
Qed.

Lemma SplitN_two s : SplitN 2 s = SplitN2 s x3a.
Proof.
  change (SplitN 2 s) with (match cutColon s with Some (p, r) => [p; r] | None => [s] end).
  induction s as [|b s IH]; [done |]. cbn [cutColon SplitN2]. case_bool_decide; [done |].
  rewrite <-IH. destruct (cutColon s) as [[p r]|]; done.
Qed.

(** The fields the decoder assigns are the ones the encoder wrote. *)
Definition fieldsAre (d : unionDecoded) (fields : list WireField) (values : list string) : Prop :=
  Forall2 (fun fl x => fieldOf d (wfName fl) = x) fields values.

Lemma fieldsAre_nil name fields values :
  length fields = length values -> anyNonEmpty values = false -> fieldsAre (name, []) fields values.
Proof.
  intros Hl Ha. apply Forall2_same_length_lookup_2; [done |]. intros i fl x _ Hx.
  unfold fieldOf. cbn. unfold anyNonEmpty in Ha. symmetry.
  apply list_elem_of_lookup_2 in Hx. destruct (decide (x = EmptyString)) as [->|Hne]; [done |].
  exfalso. apply not_true_iff_false in Ha. apply Ha. apply existsb_exists. exists x.
  split; [by apply list_elem_of_In |]. by rewrite bool_decide_false.
Qed.

Lemma fieldsAre_zip name fields : forall values,
  NoDup (map wfName fields) -> length fields = length values ->
  fieldsAre (name, zip (map wfName fields) values) fields values.
Proof.
  induction fields as [|fl fields IH]; intros [|x values] Hn Hl; try done; [by constructor |].
  cbn [map] in *. apply NoDup_cons in Hn as [Hnot Hn]. constructor.
  { unfold fieldOf. cbn. by rewrite String.eqb_refl. }
  injection Hl as Hl. specialize (IH values Hn Hl).
  apply Forall2_same_length_lookup_2; [done |]. intros i g y Hg Hy.
  pose proof (Forall2_lookup_lr _ _ _ _ _ _ IH Hg Hy) as Hgy. unfold fieldOf in *. cbn in *.
  destruct (String.eqb_spec (wfName fl) (wfName g)) as [E|_]; [| done].
  exfalso. apply Hnot. rewrite E. apply list_elem_of_In, in_map. by eapply list_elem_of_In, list_elem_of_lookup_2.
Qed.

(** The values a union variant carries: one string per field; a suffix has
    distinct fields and a colon in its last value only. *)
Definition unionFits (u : WireUnion) (tail suffix : list string) : Prop :=
  (wuColonSuffix u = [] /\ suffix = [] /\ length (wuFields u) = length tail /\ (length tail <= 1)%nat) \/
  (wuColonSuffix u <> [] /\ wuFields u = [] /\ tail = [] /\ length (wuColonSuffix u) = length suffix /\
   NoDup (map wfName (wuColonSuffix u)) /\ Forall noColon (removelast suffix)).

Lemma goEmitUnionEncode_prefix u tail suffix :
  exists rest, goEmitUnionEncode u tail suffix = str_bytes (wuPrefix u) ++ rest.
Proof.
  unfold goEmitUnionEncode. destruct (wuColonSuffix u), (wuFields u); eauto.
  exists []. by rewrite app_nil_r.
Qed.

Lemma length_str_bytes p : length (str_bytes p) = String.length p.
Proof. unfold str_bytes. induction p; [done |]. cbn. by f_equal. Qed.

Lemma drop_prefix p rest : drop (String.length p) (str_bytes p ++ rest) = rest.
Proof. by rewrite <-length_str_bytes, drop_app_length. Qed.

Lemma goEmitUnionBranch_encode f u tail suffix :
  unionFits u tail suffix ->
  exists d, goEmitUnionBranch f u (drop (plen u) (goEmitUnionEncode u tail suffix)) = Ok d /\
    d.1 = wuName u /\ fieldsAre d (wuFields u) tail /\ fieldsAre d (wuColonSuffix u) suffix.
Proof.
  unfold goEmitUnionEncode, goEmitUnionBranch, plen.
  intros [(Hs & -> & Hl & Hle)|(Hs & Hf & -> & Hl & Hn & Hc)].
  - rewrite Hs. destruct (wuFields u) as [|fl [|]], tail as [|x [|]]; cbn in Hl, Hle; try lia.
    + eexists. split_and!; [done | done | constructor | constructor].
    + cbn [map concat]. rewrite app_nil_r, drop_prefix, bytes_str_bytes.
      eexists. split_and!; [done | done | | constructor].
      repeat constructor. unfold fieldOf. cbn. by rewrite String.eqb_refl.
  - rewrite Hf. destruct (wuColonSuffix u) as [|fl fields] eqn:Ec; [done |].
    rewrite drop_prefix. destruct suffix as [|x suffix]; [done |]. rewrite writeSuffix_join.
    destruct (anyNonEmpty (x :: suffix)) eqn:Ea.
    + rewrite bool_decide_true by done. cbn [negb]. rewrite Hl. cbn [length].
      rewrite SplitN_join by done. rewrite map_map.
      rewrite (map_ext _ id), map_id by (intros; apply bytes_str_bytes).
      eexists. split_and!; [done | done | constructor | by apply fieldsAre_zip].
    + eexists. split_and!; [done | done | constructor | by apply fieldsAre_nil].
Qed.

(** ** Properties *)

(** C27. What the generator writes for a validated set reads back: for every
    format the validation accepts, the emitted decoder returns the values the
    emitted encoder was given (values of the fields' Go types), for a plain
    format and for each variant of a role-dispatched one. *)
Theorem emitted_codecs_roundtrip (s : WireFormatSet) (f : WireFormat_) :
  WireFormatSet_Validate s = None -> f ∈ wsFormats s ->
  (forall vs, Forall2 valueFits (wFields f) vs -> (goEmitPlain f).2 ((goEmitPlain f).1 vs) = Ok vs) /\
  (forall enc decs i v env,
     goEmitVariant f = Some (enc, decs) -> wVariants f !! i = Some v ->
     Forall2 valueFits (wvFields v) (argsOf env (wvFields v)) ->
     exists dec, decs !! i = Some (wvName v, dec) /\
       dec (enc (i =? 0)%nat env) = Ok (argsOf env (wvFields v))).
Proof.
  intros Hv Hf. apply (Validate_checkFormat s f) in Hv; [| done].
  apply checkFormat_fields in Hv as (Hp & Hvar & _). split.
  - intros vs Hvs. exact (decodeFields_encode _ _ vs [] Hp Hvs).
  - intros enc decs i v env Hg Hi Hvs. exists (fun buf => decodeFields (wvFields v) buf 0).
    pose proof (Hvar v (list_elem_of_lookup_2 _ _ _ Hi)) as Hc.
    pose proof (decodeFields_encode _ _ _ [] Hc Hvs) as Hd.
    unfold goEmitVariant in Hg. destruct (wVariants f) as [|v0 [|v1 [|]]]; try done;
      injection Hg as <- <-; [destruct i as [|i] | destruct i as [|[|i]]];
      cbn in Hi; simplify_eq; done.
Qed.

(** A plain format and a role-dispatched one. *)
Definition samplePlain : WireFormat_ := {|
  wName := "plain"; wDesc := EmptyString;
  wFields := [{| wfName := "seq"; wfKind := WFU32BE |}; {| wfName := "name"; wfKind := WFStringLenV |};
              {| wfName := "body"; wfKind := WFBytesToEnd |}];
  wVariants := []; wUnion := []
|}.
Definition sampleRoles : WireFormat_ := {|
  wName := "roles"; wDesc := EmptyString; wFields := [];
  wVariants := [{| wvName := "backend"; wvFields := [{| wfName := "tag"; wfKind := WFU32BE |};
                                                     {| wfName := "name"; wfKind := WFStringToEnd |}] |};
                {| wvName := "client"; wvFields := [{| wfName := "name"; wfKind := WFStringToEnd |}] |}];
  wUnion := []
|}.
Definition sampleSet : WireFormatSet := {| wsName := "sample"; wsFormats := [samplePlain; sampleRoles] |}.

Lemma emitted_codecs_roundtrip_witness :
  (goEmitPlain samplePlain).2 ((goEmitPlain samplePlain).1 [WVInt 7; WVStr "ab"; WVBytes [x00; xff]])
    = Ok [WVInt 7; WVStr "ab"; WVBytes [x00; xff]] /\
  exists enc decs dec, goEmitVariant sampleRoles = Some (enc, decs) /\
    decs !! 1%nat = Some ("client", dec) /\ dec (enc false [("name", WVStr "x")]) = Ok [WVStr "x"].
Proof.
  split.
  - apply (emitted_codecs_roundtrip sampleSet); [done | by left |].
    repeat (constructor; [cbn; first [by left | left; split; [done | cbn; lia] | done] |]). constructor.
  - destruct (emitted_codecs_roundtrip sampleSet sampleRoles) as [_ H]; [done | right; by left |].
    destruct (goEmitVariant sampleRoles) as [[enc decs]|] eqn:E; [| done].
    destruct (H enc decs 1%nat {| wvName := "client"; wvFields := [{| wfName := "name"; wfKind := WFStringToEnd |}] |}
                [("name", WVStr "x")]) as (dec & Hd & Hr); [done | done | |].
    + constructor; [cbn; by right | constructor].
    + by exists enc, decs, dec.
Defined.

(** The prefix dispatch of an emitted union decoder returns what was
    encoded: the branch taken is that of the longest declared prefix that
    begins the message, so a variant reads back, tail and colon-separated
    suffix, whenever no other variant with a prefix at least as long begins
    its encoding and only the last suffix value holds a colon. *)
Theorem emitted_union_roundtrip (f : WireFormat_) (u : WireUnion) (tail suffix : list string) :
  u ∈ wUnion f -> unionFits u tail suffix ->
  (forall u', u' ∈ wUnion f -> HasPrefix (goEmitUnionEncode u tail suffix) (str_bytes (wuPrefix u')) = true ->
     u' = u \/ (plen u' < plen u)%nat) ->
  exists d, goEmitUnionDecode f (goEmitUnionEncode u tail suffix) = Ok d /\
    d.1 = wuName u /\ fieldsAre d (wuFields u) tail /\ fieldsAre d (wuColonSuffix u) suffix.
Proof.
  intros Hu Hfit Hmax. unfold goEmitUnionDecode.
  rewrite (decodeOrdered_longest f u).
  - by apply goEmitUnionBranch_encode.
  - apply ordered_sorted.
  - by rewrite ordered_perm.
  - destruct (goEmitUnionEncode_prefix u tail suffix) as [rest ->]. apply HasPrefix_app.
  - intros u' Hu'. rewrite ordered_perm in Hu'. by apply Hmax.
Qed.

(** The prefix of one variant begins the other's: the longer one is tried
    first, whatever the order of declaration. *)
Definition nestedUnion : WireFormat_ := {|
  wName := "nested"; wDesc := EmptyString; wFields := []; wVariants := [];
  wUnion := [{| wuName := "short"; wuPrefix := "re"; wuFields := [{| wfName := "id"; wfKind := WFStringToEnd |}];
                wuColonSuffix := [] |};
             {| wuName := "long"; wuPrefix := "register"; wuFields := [];
                wuColonSuffix := [{| wfName := "token"; wfKind := "string" |}; {| wfName := "id"; wfKind := "string" |}] |}]
|}.

Lemma emitted_union_roundtrip_witness :
  match wUnion nestedUnion with
  | [_; u] => exists d, goEmitUnionDecode nestedUnion (goEmitUnionEncode u [] ["t"; "a:b"]) = Ok d /\
                d.1 = "long" /\ fieldsAre d (wuColonSuffix u) ["t"; "a:b"]
  | _ => False
  end.
Proof.
  cbn [wUnion nestedUnion].
  edestruct (emitted_union_roundtrip nestedUnion
    {| wuName := "long"; wuPrefix := "register"; wuFields := [];
       wuColonSuffix := [{| wfName := "token"; wfKind := "string" |}; {| wfName := "id"; wfKind := "string" |}] |}
    [] ["t"; "a:b"]) as (d & Hd & Hn & _ & Hs).
  - right. by left.
  - right. split_and!; try done.
    + cbn. apply (bool_decide_unpack _). vm_compute. exact I.
    + repeat constructor. apply (bool_decide_unpack _). vm_compute. exact I.
  - intros u' Hu' _. cbn in Hu'. apply elem_of_cons in Hu' as [->|Hu']; [right; cbn; lia |].
    apply list_elem_of_singleton in Hu'. by left.
  - by exists d.
Defined.

(** The result struct of [DecodeRelayGreeting], from the fields assigned. *)
Definition greetingVariant (name : string) : RelayGreetingVariant :=
  if String.eqb name "connect" then RelayGreetingConnect
  else if String.eqb name "register" then RelayGreetingRegister else RelayGreetingListen.
Definition greetingOf (d : unionDecoded) : RelayGreetingDecoded :=
  {| Variant := greetingVariant d.1; InstanceId := fieldOf d "instance_id"; Token := fieldOf d "token" |}.

Lemma suffix_branch_greeting f u rest :
  wName f = "relay_greeting" ->
  wuColonSuffix u = [{| wfName := "token"; wfKind := "string" |}; {| wfName := "instance_id"; wfKind := "string" |}] ->
  (let! d := goEmitUnionBranch f u rest in Ok (greetingOf d)) =
  match rest with
  | [] => Ok {| Variant := greetingVariant (wuName u); InstanceId := EmptyString; Token := EmptyString |}
  | c :: rest =>
      if negb (bool_decide (c = x3a)) then
        Err (ENew ("relay_greeting: malformed " +:+ wuName u +:+ ": missing ':' after prefix"))
      else Ok {| Variant := greetingVariant (wuName u);
                 Token := bytes_str (default [] (SplitN2 rest x3a !! 0%nat));
                 InstanceId := bytes_str (default [] (SplitN2 rest x3a !! 1%nat)) |}
  end.
Proof.
  intros Hn Hs. unfold goEmitUnionBranch. rewrite Hs, Hn. destruct rest as [|c rest]; [done |].
  case_bool_decide; cbn [negb]; [| done]. cbn [length]. rewrite SplitN_two.
  destruct (SplitN2 rest x3a) as [|a [|b l]]; done.
Qed.

(** C26. wire_gen.go is what the generator writes for protocol/wireformats.yaml:
    the set is valid, the emitted file declares the functions of wire_gen.go,
    and every one of them computes what the code in use computes, on every
    input and with the same errors. *)
Theorem wire_gen_is_emitted :
  WireFormatSet_Validate pigeonWire = None /\
  (exists enc dec,
     goFuncNamed pigeonWire "EncodeStreamHeader" = Some (EncodeFunc enc) /\
     goFuncNamed pigeonWire "DecodeStreamHeader" = Some (DecodeFunc dec) /\
     (forall name, enc [WVStr name] = EncodeStreamHeader name) /\
     (forall buf, dec buf = let! name := DecodeStreamHeader buf in Ok [WVStr name])) /\
  (exists enc dec,
     goFuncNamed pigeonWire "EncodeDatagramPlaintext" = Some (EncodeFunc enc) /\
     goFuncNamed pigeonWire "DecodeDatagramPlaintext" = Some (DecodeFunc dec) /\
     (forall id payload, enc [WVInt id; WVBytes payload] = EncodeDatagramPlaintext id payload) /\
     (forall buf, dec buf = let! p := DecodeDatagramPlaintext buf in Ok [WVInt p.1; WVBytes p.2])) /\
  (exists connect register listen dec,
     goFuncNamed pigeonWire "EncodeRelayGreetingConnect" = Some (EncodeUnionFunc connect) /\
     goFuncNamed pigeonWire "EncodeRelayGreetingRegister" = Some (EncodeUnionFunc register) /\
     goFuncNamed pigeonWire "EncodeRelayGreetingListen" = Some (EncodeUnionFunc listen) /\
     goFuncNamed pigeonWire "DecodeRelayGreeting" = Some (DecodeUnionFunc dec) /\
     (forall id, connect [id] [] = EncodeRelayGreetingConnect id) /\
     (forall token id, register [] [token; id] = EncodeRelayGreetingRegister token id) /\
     (forall token id, listen [] [token; id] = EncodeRelayGreetingListen token id) /\
     (forall buf, (let! d := dec buf in Ok (greetingOf d)) = DecodeRelayGreeting buf)) /\
  (length <$> ExportGo pigeonWire) = Some 8%nat.
Proof.
  split; [done |]. split_and!; [| | | done].
  - do 2 eexists. split_and!; [done | done | |].
    + intros name. cbn. by rewrite app_nil_r.
    + intros buf. unfold DecodeStreamHeader. cbn -[Z.add]. unfold goEmitDecode. cbn -[Z.add].
      destruct (Uvarint (slice_from buf 0)) as [ln n].
      destruct (n <=? 0); [done |]. destruct (_ <? ln); done.
  - do 2 eexists. split_and!; [done | done | |].
    + intros id payload. cbn. by rewrite app_nil_r.
    + intros buf. unfold DecodeDatagramPlaintext. cbn -[Z.add]. unfold goEmitDecode. cbn -[Z.add].
      destruct (Uvarint (slice_from buf 0)) as [v n]. destruct (n <=? 0); done.
  - do 4 eexists. split_and!; [done | done | done | done | | done | done |].
    + intros id. cbn. by rewrite app_nil_r.
    + intros buf. unfold DecodeRelayGreeting, decodeSuffix, goEmitUnionDecode.
      set (us := ordered _). vm_compute in us. subst us. cbn [decodeOrdered wuPrefix].
      destruct (HasPrefix buf (str_bytes "connect:")); [done |].
      destruct (HasPrefix buf (str_bytes "register")); [by apply suffix_branch_greeting |].
      destruct (HasPrefix buf (str_bytes "listen")); [by apply suffix_branch_greeting |]. done.
Qed.

(** Validation accepts sets whose Go file is no program: three variants. *)
Lemma validated_set_may_not_compile :
  exists s, WireFormatSet_Validate s = None /\ ExportGo s = None.
Proof.
  exists {| wsName := "s"; wsFormats := [
    {| wName := "f"; wDesc := EmptyString; wFields := []; wUnion := [];
       wVariants := [{| wvName := "a"; wvFields := [] |}; {| wvName := "b"; wvFields := [] |}; {| wvName := "c"; wvFields := [] |}] |}] |}.
  done.
Qed.

(** Validation accepts two variants with one prefix, and the second then
    decodes as the first. *)
Lemma duplicate_prefix_misdecodes :
  let f := {| wName := "f"; wDesc := EmptyString; wFields := []; wVariants := [];
              wUnion := [{| wuName := "a"; wuPrefix := "x"; wuFields := [{| wfName := "v"; wfKind := WFStringToEnd |}]; wuColonSuffix := [] |};
                         {| wuName := "b"; wuPrefix := "x"; wuFields := [{| wfName := "v"; wfKind := WFStringToEnd |}]; wuColonSuffix := [] |}] |} in
  WireFormatSet_Validate {| wsName := "s"; wsFormats := [f] |} = None /\
  forall u v, wUnion f !! 1%nat = Some u -> goEmitUnionDecode f (goEmitUnionEncode u [v] []) = Ok ("a", [("v", v)]).
Proof.
  cbv zeta. split; [done |]. intros u v [= <-]. unfold goEmitUnionDecode.
  set (us := ordered _). vm_compute in us. subst us. cbn [decodeOrdered wuPrefix].
  cbn [goEmitUnionEncode wuColonSuffix wuFields wuPrefix map concat].
  rewrite HasPrefix_app, drop_prefix. cbn [goEmitUnionBranch wuColonSuffix wuFields wuName map concat wfName].
  by rewrite app_nil_r, bytes_str_bytes.
Qed.
