(* ===== verification/WireTargets.v ===== *)
(** * WireTargets: the byte formats in the other languages (protocol/wireformats_*.go)

    The same set of formats is written as C, TypeScript, Kotlin and Swift.
    Here the encoders and decoders those generators write are given as the
    functions they compute, with what each language does of its own: C writes
    into a caller's buffer and reports a negative length, the others throw;
    TypeScript counts with unbounded integers, Kotlin with 32-bit lengths, and
    Swift traps on a conversion out of range.  The theorems relate them to the
    Go codecs of [WireFormats].

    A text is its UTF-8 bytes.  [TextDecoder] drops a byte order mark in front;
    what else a library makes of bytes that are not plain text (invalid UTF-8,
    a byte order mark in Kotlin or Swift) is a parameter. *)

From Stdlib Require Import ZArith Lia Sorting.Sorted Strings.Byte Strings.String.
From stdpp Require Import base sets strings list.
From S2P Require Import Prelude Binary Text Wire WireFormats.

Open Scope Z_scope.

(** ** Outcomes and lengths *)

(** A call returns, throws an exception, or ends the process. *)
Inductive outcome (A : Type) :=
  | Returns (a : A)
  | Throws (msg : string)
  | Traps.
Arguments Returns {A} a.
Arguments Throws {A} msg.
Arguments Traps {A}.

Definition obind {A B} (r : outcome A) (k : A -> outcome B) : outcome B :=
  match r with
  | Returns a => k a
  | Throws msg => Throws msg
  | Traps => Traps
  end.
Notation "'let?' x ':=' c 'in' k" := (obind c (fun x => k))
  (at level 10, x pattern, c at level 100, k at level 200).

(** The signed 32-bit integer with the same low bits. *)
Definition i32 (z : Z) : Z := (z + 2 ^ 31) mod 2 ^ 32 - 2 ^ 31.

(** Valid UTF-8 that does not begin with a byte order mark. *)
Definition BOM : bytes := [xef; xbb; xbf].
Definition plainText (b : bytes) : bool := utf8_valid (length b) b && negb (HasPrefix b BOM).

(** The languages whose strings are not byte strings. *)
Inductive target := TypeScript | Kotlin | Swift.

#[export] Instance target_eq_dec : EqDecision target.
Proof. solve_decision. Defined.

Section Targets.
(** [new TextDecoder().decode], [String(bytes, UTF_8)] and
    [String(data:encoding:) ?? ""] of bytes that are not plain text, valid
    UTF-8 in [TextDecoder] apart. *)
Context (oddText : target -> bytes -> string).

Definition readText (t : target) (b : bytes) : string :=
  if plainText b then bytes_str b
  else if bool_decide (t = TypeScript) && utf8_valid (length b) b then bytes_str (drop (length BOM) b)
  else oddText t b.

(** ** Varints *)

(** The loop of [encodeUvarint]; [Z.log2] iterations are more than it takes. *)
Fixpoint pushUvarint (fuel : nat) (v : Z) : bytes :=
  match fuel with
  | S fuel => if 128 <=? v then z2b (Z.lor (Z.land v 127) 128) :: pushUvarint fuel (Z.shiftr v 7) else [z2b v]
  | O => [z2b v]
  end.
Definition encodeUvarint (v : Z) : bytes := pushUvarint (Z.to_nat (Z.log2 v)) v.

(** The loop of [decodeUvarint]; [wrap] is what a shifted byte becomes in the
    language's integer. *)
Fixpoint scanUvarint (wrap : Z -> Z) (tooLong truncated : string) (buf : bytes) (i v shift : Z) : outcome (Z * Z) :=
  match buf with
  | [] => Throws truncated
  | b :: buf =>
      if 10 <=? i then Throws tooLong
      else if Z.land (b2z b) 128 =? 0 then Returns (Z.lor v (wrap (Z.shiftl (b2z b) shift)), i + 1)
      else scanUvarint wrap tooLong truncated buf (i + 1)
             (Z.lor v (wrap (Z.shiftl (Z.land (b2z b) 127) shift))) (shift + 7)
  end.

Definition tsDecodeUvarint (buf : bytes) : outcome (Z * Z) :=
  scanUvarint (fun z => z) "uvarint: too many bytes" "uvarint: truncated" buf 0 0 0.
Definition kotlinDecodeUvarint (buf : bytes) : outcome (Z * Z) :=
  scanUvarint u64 "uvarint too long" "truncated uvarint" buf 0 0 0.
Definition swiftDecodeUvarint (buf : bytes) : outcome (Z * Z) :=
  scanUvarint u64 "malformed" "truncated" buf 0 0 0.

(** [pigeon_uvarint_encode]: [None] when [room] bytes are not enough. *)
Fixpoint pigeon_uvarint_encode_loop (fuel : nat) (v room : Z) : option bytes :=
  match fuel with
  | O => None
  | S fuel =>
      if 128 <=? v then
        if room <=? 0 then None
        else cons (z2b (Z.lor (v mod 256) 128)) <$> pigeon_uvarint_encode_loop fuel (Z.shiftr v 7) (room - 1)
      else if room <=? 0 then None else Some [z2b v]
  end.
Definition pigeon_uvarint_encode (v room : Z) : option bytes := pigeon_uvarint_encode_loop 10 v room.

(** [pigeon_uvarint_decode]: the value and the number of bytes, which is not
    positive on failure. *)
Fixpoint pigeon_uvarint_decode_loop (buf : bytes) (i v shift : Z) : Z * Z :=
  match buf with
  | [] => (0, 0)
  | b :: buf =>
      if (i =? 9) && (1 <? b2z b) then (0, -1)
      else
        let v := Z.lor v (u64 (Z.shiftl (Z.land (b2z b) 127) shift)) in
        if Z.land (b2z b) 128 =? 0 then (v, i + 1)
        else if 64 <=? shift + 7 then (0, -1)
        else pigeon_uvarint_decode_loop buf (i + 1) v (shift + 7)
  end.
Definition pigeon_uvarint_decode (buf : bytes) : Z * Z := pigeon_uvarint_decode_loop buf 0 0 0.

(** ** Fields *)

(** The four bytes of a [u32_be], as each generator shifts and masks them. *)
Definition tsU32 (v : Z) : bytes := be_put 4 v.
Definition kotlinU32 (v : Z) : bytes := map (fun k => z2b (Z.land (Z.shiftr (i32 v) k) 255)) [24; 16; 8; 0].
Definition shiftU32 (v : Z) : bytes := map (fun k => z2b (Z.shiftr v k)) [24; 16; 8; 0].

(** [(b0 << 24) | (b1 << 16) | (b2 << 8) | b3] at the front of the rest. *)
Definition orU32 (rest : bytes) : Z :=
  let at_ k := b2z (nth k rest x00) in
  Z.lor (Z.lor (Z.lor (Z.shiftl (at_ 0%nat) 24) (Z.shiftl (at_ 1%nat) 16)) (Z.shiftl (at_ 2%nat) 8)) (at_ 3%nat).

(** What the encoders of the three languages append for a field: they differ
    in the [u32_be]. *)
Definition emitEncodeField (u32 : Z -> bytes) (fl : WireField) (v : wireVal) : bytes :=
  let k := wfKind fl in
  match v with
  | WVInt z => if bool_decide (k = WFU32BE) then u32 z else if bool_decide (k = WFVarint) then encodeUvarint z else []
  | WVStr s =>
      if bool_decide (k = WFStringLenV) then encodeUvarint (slen s) ++ str_bytes s
      else if bool_decide (k = WFStringToEnd) then str_bytes s else []
  | WVBytes b => if bool_decide (k = WFBytesToEnd) then b else []
  end.
Definition tsEmitEncodeField : WireField -> wireVal -> bytes := emitEncodeField tsU32.
Definition kotlinEmitEncodeField : WireField -> wireVal -> bytes := emitEncodeField kotlinU32.
Definition swiftEmitEncodeField : WireField -> wireVal -> bytes := emitEncodeField shiftU32.

Definition tsEmitDecodeField (fl : WireField) (buf : bytes) (off : Z) : outcome (wireVal * Z) :=
  let k := wfKind fl in
  if bool_decide (k = WFU32BE) then
    if len buf - off <? 4 then Throws ("truncated u32 " +:+ wfName fl)
    else Returns (WVInt (be_get (slice_to (slice_from buf off) 4)), off + 4)
  else if bool_decide (k = WFVarint) then
    let? r := tsDecodeUvarint (slice_from buf off) in Returns (WVInt r.1, off + r.2)
  else if bool_decide (k = WFStringLenV) then
    let? r := tsDecodeUvarint (slice_from buf off) in
    let off := off + r.2 in
    (* a length above 2^53 is rounded to a number that is still too large *)
    if len buf - off <? r.1 then Throws "truncated string"
    else Returns (WVStr (readText TypeScript (slice_to (slice_from buf off) r.1)), off + r.1)
  else if bool_decide (k = WFStringToEnd) then Returns (WVStr (readText TypeScript (slice_from buf off)), len buf)
  else if bool_decide (k = WFBytesToEnd) then Returns (WVBytes (slice_from buf off), len buf)
  else Returns (WVStr EmptyString, off).

Definition kotlinEmitDecodeField (fl : WireField) (buf : bytes) (off : Z) : outcome (wireVal * Z) :=
  let k := wfKind fl in
  if bool_decide (k = WFU32BE) then
    if len buf - off <? 4 then Throws ("truncated u32 " +:+ wfName fl)
    else Returns (WVInt (orU32 (slice_from buf off)), off + 4)
  else if bool_decide (k = WFVarint) then
    let? r := kotlinDecodeUvarint (slice_from buf off) in Returns (WVInt r.1, off + r.2)
  else if bool_decide (k = WFStringLenV) then
    let? r := kotlinDecodeUvarint (slice_from buf off) in
    let off := off + r.2 in
    let ln := i32 r.1 in
    if len buf - off <? ln then Throws "truncated string"
    else if ln <? 0 then Throws "StringIndexOutOfBoundsException"
    else Returns (WVStr (readText Kotlin (slice_to (slice_from buf off) ln)), off + ln)
  else if bool_decide (k = WFStringToEnd) then Returns (WVStr (readText Kotlin (slice_from buf off)), len buf)
  else if bool_decide (k = WFBytesToEnd) then Returns (WVBytes (slice_from buf off), len buf)
  else Returns (WVStr EmptyString, off).

Definition swiftEmitDecodeField (fl : WireField) (buf : bytes) (off : Z) : outcome (wireVal * Z) :=
  let k := wfKind fl in
  if bool_decide (k = WFU32BE) then
    if len buf - off <? 4 then Throws "truncated"
    else Returns (WVInt (orU32 (slice_from buf off)), off + 4)
  else if bool_decide (k = WFVarint) then
    let? r := swiftDecodeUvarint (slice_from buf off) in Returns (WVInt r.1, off + r.2)
  else if bool_decide (k = WFStringLenV) then
    let? r := swiftDecodeUvarint (slice_from buf off) in
    let off := off + r.2 in
    if 2 ^ 63 <=? r.1 then Traps
    else if len buf - off <? r.1 then Throws "truncated"
    else Returns (WVStr (readText Swift (slice_to (slice_from buf off) r.1)), off + r.1)
  else if bool_decide (k = WFStringToEnd) then Returns (WVStr (readText Swift (slice_from buf off)), len buf)
  else if bool_decide (k = WFBytesToEnd) then Returns (WVBytes (slice_from buf off), len buf)
  else Returns (WVStr EmptyString, off).

(** C: the bytes appended after the [off] already written to a buffer of
    [out_len], [None] for the return of [-1].  Pointers are not NULL. *)
Definition cEmitEncodeField (out_len off : Z) (fl : WireField) (v : wireVal) : option bytes :=
  let k := wfKind fl in
  let copy b := if out_len <? u64 (off + len b) then None else Some b in
  match v with
  | WVInt z =>
      if bool_decide (k = WFU32BE) then if out_len <? u64 (off + 4) then None else Some (shiftU32 z)
      else if bool_decide (k = WFVarint) then pigeon_uvarint_encode z (out_len - off)
      else Some []
  | WVStr s =>
      if bool_decide (k = WFStringLenV) then
        match pigeon_uvarint_encode (slen s) (out_len - off) with
        | None => None
        | Some hd => if out_len <? u64 (off + len hd + slen s) then None else Some (hd ++ str_bytes s)
        end
      else if bool_decide (k = WFStringToEnd) then copy (str_bytes s) else Some []
  | WVBytes b => if bool_decide (k = WFBytesToEnd) then copy b else Some []
  end.

(** The field's destination has room for [cap] bytes; texts are written with
    a final NUL. *)
Definition cEmitDecodeField (cap : Z) (fl : WireField) (buf : bytes) (off : Z) : option (wireVal * Z) :=
  let k := wfKind fl in
  if bool_decide (k = WFU32BE) then
    if len buf - off <? 4 then None else Some (WVInt (orU32 (slice_from buf off)), off + 4)
  else if bool_decide (k = WFVarint) then
    let '(v, n) := pigeon_uvarint_decode (slice_from buf off) in
    if n <=? 0 then None else Some (WVInt v, off + n)
  else if bool_decide (k = WFStringLenV) then
    let '(ln, n) := pigeon_uvarint_decode (slice_from buf off) in
    if n <=? 0 then None else
    let off := off + n in
    if len buf - off <? ln then None
    else if cap <? u64 (ln + 1) then None
    else Some (WVStr (bytes_str (slice_to (slice_from buf off) ln)), off + ln)
  else if bool_decide (k = WFStringToEnd) then
    if cap <? u64 (len buf - off + 1) then None else Some (WVStr (bytes_str (slice_from buf off)), len buf)
  else if bool_decide (k = WFBytesToEnd) then
    if cap <? len buf - off then None else Some (WVBytes (slice_from buf off), len buf)
  else Some (WVStr EmptyString, off).

(** ** Field lists: plain formats and variants *)

Fixpoint encodeWith (enc : WireField -> wireVal -> bytes) (fields : list WireField) (vs : list wireVal) : bytes :=
  match fields, vs with
  | fl :: fields, v :: vs => enc fl v ++ encodeWith enc fields vs
  | _, _ => []
  end.

(** The fields read and the number of bytes consumed. *)
Fixpoint decodeWith (dec : WireField -> bytes -> Z -> outcome (wireVal * Z)) (fields : list WireField)
    (buf : bytes) (off : Z) : outcome (list wireVal * Z) :=
  match fields with
  | [] => Returns ([], off)
  | fl :: fields =>
      let? r := dec fl buf off in
      let? rest := decodeWith dec fields buf r.2 in
      Returns (r.1 :: rest.1, rest.2)
  end.

Fixpoint cEncodeFields (out_len off : Z) (fields : list WireField) (vs : list wireVal) : option bytes :=
  match fields, vs with
  | fl :: fields, v :: vs =>
      bs ← cEmitEncodeField out_len off fl v;
      rest ← cEncodeFields out_len (off + len bs) fields vs;
      Some (bs ++ rest)
  | _, _ => Some []
  end.

Fixpoint cDecodeFields (caps : list Z) (fields : list WireField) (buf : bytes) (off : Z) : option (list wireVal * Z) :=
  match fields with
  | [] => Some ([], off)
  | fl :: fields =>
      r ← cEmitDecodeField (hd 0 caps) fl buf off;
      rest ← cDecodeFields (tl caps) fields buf r.2;
      Some (r.1 :: rest.1, rest.2)
  end.

(** The decoders of TypeScript, Kotlin and Swift name the varint of a field
    [_vn] and a length [_ln], without regard to the other fields, and separate
    the fields from [consumed] by a comma: two such fields, or none at all,
    give code that does not compile. *)
Definition compiles (fields : list WireField) : bool :=
  nonEmpty fields
  && (length (filter (fun fl => wfKind fl = WFVarint) fields) <=? 1)%nat
  && (length (filter (fun fl => wfKind fl = WFStringLenV) fields) <=? 1)%nat.

Definition tsEmitPlain (f : WireFormat_) : option ((list wireVal -> bytes) * (bytes -> outcome (list wireVal * Z))) :=
  if compiles (wFields f)
  then Some (encodeWith tsEmitEncodeField (wFields f), fun buf => decodeWith tsEmitDecodeField (wFields f) buf 0)
  else None.
Definition kotlinEmitPlain (f : WireFormat_) : option ((list wireVal -> bytes) * (bytes -> outcome (list wireVal * Z))) :=
  if compiles (wFields f)
  then Some (encodeWith kotlinEmitEncodeField (wFields f), fun buf => decodeWith kotlinEmitDecodeField (wFields f) buf 0)
  else None.
Definition swiftEmitPlain (f : WireFormat_) : option ((list wireVal -> bytes) * (bytes -> outcome (list wireVal * Z))) :=
  if compiles (wFields f)
  then Some (encodeWith swiftEmitEncodeField (wFields f), fun buf => decodeWith swiftEmitDecodeField (wFields f) buf 0)
  else None.
Definition cEmitPlainImpl (f : WireFormat_)
    : (Z -> list wireVal -> option bytes) * (list Z -> bytes -> option (list wireVal * Z)) :=
  (fun out_len vs => cEncodeFields out_len 0 (wFields f) vs, fun caps buf => cDecodeFields caps (wFields f) buf 0).

(** One encoder that branches on the role, and a decoder per variant. *)
Definition emitVariantWith (enc : WireField -> wireVal -> bytes) (dec : WireField -> bytes -> Z -> outcome (wireVal * Z))
    (f : WireFormat_)
    : option ((bool -> list (string * wireVal) -> bytes) * list (string * (bytes -> outcome (list wireVal * Z)))) :=
  if forallb (fun v => compiles (wvFields v)) (wVariants f) then
    let decoders := map (fun v => (wvName v, fun buf => decodeWith dec (wvFields v) buf 0)) (wVariants f) in
    let branch env v := encodeWith enc (wvFields v) (argsOf env (wvFields v)) in
    match wVariants f with
    | [v0] => Some (fun isV0 env => if isV0 : bool then branch env v0 else [], decoders)
    | [v0; v1] => Some (fun isV0 env => if isV0 : bool then branch env v0 else branch env v1, decoders)
    | _ => None
    end
  else None.
Definition tsEmitVariant := emitVariantWith tsEmitEncodeField tsEmitDecodeField.
Definition kotlinEmitVariant := emitVariantWith kotlinEmitEncodeField kotlinEmitDecodeField.
Definition swiftEmitVariant := emitVariantWith swiftEmitEncodeField swiftEmitDecodeField.

Definition cEmitVariantImpl (f : WireFormat_)
    : option ((Z -> bool -> list (string * wireVal) -> option bytes)
              * list (string * (list Z -> bytes -> option (list wireVal * Z)))) :=
  let decoders := map (fun v => (wvName v, fun caps buf => cDecodeFields caps (wvFields v) buf 0)) (wVariants f) in
  let branch out_len env v := cEncodeFields out_len 0 (wvFields v) (argsOf env (wvFields v)) in
  match wVariants f with
  | [v0] => Some (fun out_len isV0 env => if isV0 : bool then branch out_len env v0 else Some [], decoders)
  | [v0; v1] => Some (fun out_len isV0 env => if isV0 : bool then branch out_len env v0 else branch out_len env v1, decoders)
  | _ => None
  end.

(** ** Unions *)

(** A text of ASCII characters without carriage return, each a character of
    its own in Swift, whose strings are sequences of grapheme clusters. *)
Definition asciiText (b : bytes) : bool := forallb (fun c => (b2z c <? 128) && negb (b2z c =? 13)) b.

(** What the Swift decoder does with any other text. *)
Context (oddUnion : WireFormat_ -> bytes -> outcome unionDecoded).

(** The encoder of a variant in TypeScript, Kotlin and Swift. *)
Definition emitUnionEncode (u : WireUnion) (tail suffix : list string) : bytes :=
  str_bytes (wuPrefix u) ++ concat (map str_bytes tail)
  ++ match wuColonSuffix u with [] => [] | _ => writeSuffix suffix end.
Definition tsEmitUnionEncode := emitUnionEncode.
Definition kotlinEmitUnionEncode := emitUnionEncode.
Definition swiftEmitUnionEncode := emitUnionEncode.

(** [split(":")] without a limit, and [join(":")]. *)
Fixpoint splitAll (s : bytes) : list bytes :=
  match s with
  | [] => [[]]
  | b :: s =>
      if bool_decide (b = x3a) then [] :: splitAll s
      else match splitAll s with p :: rest => (b :: p) :: rest | [] => [[b]] end
  end.
Fixpoint joinBytes (l : list bytes) : bytes :=
  match l with
  | [] => []
  | [x] => x
  | x :: l => x ++ x3a :: joinBytes l
  end.
Definition pad (n : nat) (l : list bytes) : list bytes := l ++ repeat [] (n - length l).

(** The [n] parts of a suffix, as each language takes them. *)
Definition tsParts (n : nat) (body : bytes) : list bytes :=
  let parts := splitAll body in
  if (n <? length parts)%nat then take (n - 1) parts ++ [joinBytes (drop (n - 1) parts)] else pad n parts.
Definition kotlinParts (n : nat) (body : bytes) : list bytes := pad n (SplitN n body).
Definition swiftParts (n : nat) (body : bytes) : list bytes :=
  let suffix := pad n (splitAll body) in
  if (n <? length suffix)%nat then take n (<[(n - 1)%nat := joinBytes (drop (n - 1) suffix)]> suffix) else suffix.

(** The branch of a decoder for one variant. *)
Definition emitUnionBranch (parts : nat -> bytes -> list bytes) (malformed : string) (u : WireUnion) (rest : bytes)
    : outcome unionDecoded :=
  let tail := map (fun fl => (wfName fl, bytes_str rest)) (wuFields u) in
  let assigned ps := zip (map wfName (wuColonSuffix u)) (map bytes_str ps) ++ tail in
  let n := length (wuColonSuffix u) in
  match wuColonSuffix u, rest with
  | [], _ => Returns (wuName u, tail)
  | _, [] => Returns (wuName u, assigned (repeat [] n))
  | _, c :: body => if bool_decide (c = x3a) then Returns (wuName u, assigned (parts n body)) else Throws malformed
  end.

Fixpoint emitUnionDispatch (branch : WireUnion -> bytes -> outcome unionDecoded) (unrecognised : string)
    (us : list WireUnion) (s : bytes) : outcome unionDecoded :=
  match us with
  | [] => Throws unrecognised
  | u :: us =>
      if HasPrefix s (str_bytes (wuPrefix u)) then branch u (drop (String.length (wuPrefix u)) s)
      else emitUnionDispatch branch unrecognised us s
  end.

Definition tsEmitUnionDecode (f : WireFormat_) (buf : bytes) : outcome unionDecoded :=
  emitUnionDispatch (emitUnionBranch tsParts (wName f +:+ ": malformed")) (wName f +:+ ": unrecognised prefix")
    (ordered (wUnion f)) (str_bytes (readText TypeScript buf)).
Definition kotlinEmitUnionDecode (f : WireFormat_) (buf : bytes) : outcome unionDecoded :=
  emitUnionDispatch (emitUnionBranch kotlinParts "malformed") "unrecognised prefix"
    (ordered (wUnion f)) (str_bytes (readText Kotlin buf)).
Definition swiftEmitUnionDecode (f : WireFormat_) (buf : bytes) : outcome unionDecoded :=
  let s := str_bytes (readText Swift buf) in
  if asciiText s
  then emitUnionDispatch (emitUnionBranch swiftParts "malformed") "malformed" (ordered (wUnion f)) s
  else oddUnion f s.

(** C: [memcpy] after a check of the room left. *)
Definition cAppend (out_len : Z) (acc b : bytes) : option bytes :=
  if out_len <? u64 (len acc + len b) then None else Some (acc ++ b).

(** A C string ends at its first NUL. *)
Fixpoint cString (b : bytes) : bytes :=
  match b with
  | [] => []
  | c :: b => if bool_decide (c = x00) then [] else c :: cString b
  end.

Fixpoint cAppendTail (out_len : Z) (fields : list WireField) (tail : list string) (acc : bytes) : option bytes :=
  match fields, tail with
  | fl :: fields, x :: tail =>
      acc ← (if bool_decide (wfKind fl = WFStringToEnd) && negb (bool_decide (x = EmptyString))
             then cAppend out_len acc (str_bytes x) else Some acc);
      cAppendTail out_len fields tail acc
  | _, _ => Some acc
  end.

Fixpoint cAppendParts (out_len : Z) (parts : list bytes) (acc : bytes) : option bytes :=
  match parts with
  | [] => Some acc
  | p :: parts =>
      acc ← cAppend out_len acc [x3a];
      acc ← (if nonEmpty p then cAppend out_len acc p else Some acc);
      cAppendParts out_len parts acc
  end.

Definition cEmitUnionEncode (u : WireUnion) (out_len : Z) (tail suffix : list string) : option bytes :=
  acc ← cAppend out_len [] (str_bytes (wuPrefix u));
  acc ← cAppendTail out_len (wuFields u) tail acc;
  match wuColonSuffix u with
  | [] => Some acc
  | _ =>
      let parts := map (fun x => cString (str_bytes x)) suffix in
      if existsb nonEmpty parts then cAppendParts out_len parts acc else Some acc
  end.

(** The scan of a suffix: [cur] is the part under way, number [idx]. *)
Fixpoint cScan (expected idx : nat) (cur rest : bytes) : list bytes :=
  match rest with
  | [] => [cur]
  | b :: rest =>
      if (S idx <? expected)%nat && bool_decide (b = x3a) then cur :: cScan expected (S idx) [] rest
      else cScan expected idx (cur ++ [b]) rest
  end.

(** Copies into the buffers of the named fields, with a NUL after each. *)
Fixpoint cStore (caps : string -> Z) (names : list string) (parts : list bytes) : option (list (string * string)) :=
  match names, parts with
  | name :: names, p :: parts =>
      if caps name <? u64 (len p + 1) then None
      else cons (name, bytes_str p) <$> cStore caps names parts
  | _, _ => Some []
  end.

Definition cUnionBranch (caps : string -> Z) (u : WireUnion) (rest : bytes) : option unionDecoded :=
  let tail := map wfName (filter (fun fl => wfKind fl = WFStringToEnd) (wuFields u)) in
  match tail with
  | name :: _ =>
      (* the first tail takes everything; nothing is left for a suffix *)
      first ← cStore caps [name] [rest];
      others ← cStore caps (drop 1 tail) (repeat [] (length tail - 1));
      Some (wuName u, first ++ others)
  | [] =>
      match wuColonSuffix u, rest with
      | [], _ => Some (wuName u, [])
      | _, [] => Some (wuName u, [])
      | _, c :: body =>
          if bool_decide (c = x3a) then
            stored ← cStore caps (map wfName (wuColonSuffix u)) (cScan (length (wuColonSuffix u)) 0 [] body);
            Some (wuName u, stored)
          else None
      end
  end.

Fixpoint cUnionDispatch (caps : string -> Z) (us : list WireUnion) (buf : bytes) : option unionDecoded :=
  match us with
  | [] => None
  | u :: us =>
      if HasPrefix buf (str_bytes (wuPrefix u)) then cUnionBranch caps u (drop (String.length (wuPrefix u)) buf)
      else cUnionDispatch caps us buf
  end.
Definition cEmitUnionImpl (f : WireFormat_) (caps : string -> Z) (buf : bytes) : option unionDecoded :=
  cUnionDispatch caps (ordered (wUnion f)) buf.

(** ** Lemmas: bytes and varints *)

Lemma byte_high b : (Z.land (b2z b) 128 =? 0) = (b2z b <? 128).
Proof. by destruct b. Qed.

Lemma byte_low b : (b2z b <? 128) = true -> Z.land (b2z b) 127 = b2z b.
Proof. by destruct b. Qed.

Lemma lor_high x : Z.lor (Z.land x 127) 128 = Z.lor (x mod 256) 128.
Proof.
  change 256 with (2 ^ 8). rewrite <-Z.land_ones by lia. change (Z.ones 8) with 255.
  rewrite !Z.lor_land_distr_l. done.
Qed.

Lemma pushUvarint_Put fuel : forall fuel' v,
  0 <= v < 2 ^ (7 * (Z.of_nat fuel + 1)) -> 0 <= v < 2 ^ (7 * (Z.of_nat fuel' + 1)) ->
  pushUvarint fuel v = put_uvarint_loop fuel' v.
Proof.
  assert (Hs : forall v n, 0 <= v < 2 ^ (7 * (Z.of_nat (S n) + 1)) -> 128 <= v ->
                 0 <= Z.shiftr v 7 < 2 ^ (7 * (Z.of_nat n + 1))).
  { intros v n Hv _. rewrite Z.shiftr_div_pow2 by lia. split; [apply Z.div_pos; lia |].
    apply Z.div_lt_upper_bound; [lia |]. rewrite <-Z.pow_add_r by lia.
    replace (7 + 7 * (Z.of_nat n + 1)) with (7 * (Z.of_nat (S n) + 1)) by lia. lia. }
  induction fuel as [|fuel IH]; intros fuel' v Hv Hv'.
  - destruct fuel'; cbn [pushUvarint put_uvarint_loop]; rewrite (proj2 (Z.ltb_lt v 128)) by lia; done.
  - destruct fuel' as [|fuel']; cbn [pushUvarint put_uvarint_loop].
    + rewrite (proj2 (Z.ltb_lt v 128)), (proj2 (Z.leb_gt 128 v)) by lia. done.
    + destruct (Z.ltb_spec v 128), (Z.leb_spec 128 v); try lia; [done |].
      rewrite lor_high. f_equal. apply IH; apply Hs; lia.
Qed.

Lemma encodeUvarint_Put v : 0 <= v < 2 ^ 64 -> encodeUvarint v = PutUvarint v.
Proof.
  intros Hv. apply pushUvarint_Put; [| change (7 * (Z.of_nat 9 + 1)) with 70; lia].
  destruct (Z.eq_dec v 0) as [->|Hne]; [done |].
  pose proof (Z.log2_spec v ltac:(lia)) as [_ Hl]. pose proof (Z.log2_nonneg v).
  rewrite Z2Nat.id by done. split; [lia |]. eapply Z.lt_le_trans; [exact Hl |].
  apply Z.pow_le_mono_r; lia.
Qed.

(** The part of a varint a byte contributes, which no target truncates when
    Go accepts the varint. *)
Lemma shifted_small b i :
  0 <= i <= 9 -> (i = 9 -> b2z b <= 1) -> (b2z b <? 128) = true \/ i < 9 ->
  0 <= Z.shiftl (Z.land (b2z b) 127) (7 * i) < 2 ^ 64.
Proof.
  intros Hi H9 Hb. rewrite Z.shiftl_mul_pow2 by lia.
  assert (Hl : 0 <= Z.land (b2z b) 127 <= 127 /\ (b2z b <= 1 -> Z.land (b2z b) 127 <= 1)) 
    by (clear; destruct b; vm_compute; (split; [split; discriminate | intros H; first [discriminate | by destruct H]])).
  destruct (Z.eq_dec i 9) as [->|Hne].
  - destruct Hl as [? Hl]. specialize (Hl (H9 eq_refl)). change (2 ^ (7 * 9)) with 9223372036854775808. lia.
  - assert (2 ^ (7 * i) <= 2 ^ 56) by (apply Z.pow_le_mono_r; lia). change (2 ^ 56) with 72057594037927936 in *.
    assert (0 < 2 ^ (7 * i)) by (apply Z.pow_pos_nonneg; lia). nia.
Qed.

Lemma uvarint_loop_10 buf x s : snd (uvarint_loop buf 10 x s) <= 0.
Proof. destruct buf; cbn; lia. Qed.

Lemma scanUvarint_go wrap tooLong truncated :
  (forall z, 0 <= z < 2 ^ 64 -> wrap z = z) ->
  forall buf i x v n, 0 <= i <= 9 -> uvarint_loop buf i x (7 * i) = (v, n) -> 0 < n ->
  scanUvarint wrap tooLong truncated buf i x (7 * i) = Returns (v, n).
Proof.
  intros Hw buf. induction buf as [|b buf IH]; intros i x v n Hi; cbn [uvarint_loop scanUvarint].
  { intros [= <- <-]. lia. }
  unfold MaxVarintLen64. rewrite byte_high.
  destruct (Z.eqb_spec i 10); [lia |]. destruct (Z.leb_spec 10 i); [lia |].
  destruct (b2z b <? 128) eqn:Eb.
  - destruct ((i =? 10 - 1) && (1 <? b2z b)) eqn:E9; intros [= <- <-] Hn; [lia |].
    do 2 f_equal.
    pose proof (shifted_small b i Hi) as Hs. rewrite (byte_low b Eb) in Hs.
    assert (Hs' : 0 <= Z.shiftl (b2z b) (7 * i) < 2 ^ 64).
    { apply Hs; [| by left]. intros ->. cbn in E9. apply Z.ltb_ge in E9. lia. }
    rewrite Hw, u64_small by done. done.
  - intros He Hn. replace (7 * i + 7) with (7 * (i + 1)) in * by lia.
    destruct (Z.eq_dec i 9) as [->|Hne].
    { pose proof (f_equal snd He) as Ht. cbn [snd] in Ht. change (9 + 1) with 10 in Ht.
      pose proof (uvarint_loop_10 buf (Z.lor x (u64 (Z.shiftl (Z.land (b2z b) 127) (7 * 9)))) (7 * 10)). lia. }
    pose proof (shifted_small b i Hi ltac:(lia) ltac:(right; lia)) as Hs.
    rewrite u64_small in He by done. rewrite Hw by done. apply IH; [lia | done | done].
Qed.

Lemma Uvarint_targets buf v n :
  Uvarint buf = (v, n) -> 0 < n ->
  tsDecodeUvarint buf = Returns (v, n) /\ kotlinDecodeUvarint buf = Returns (v, n) /\ swiftDecodeUvarint buf = Returns (v, n).
Proof.
  intros Hu Hn.
  split_and!; [apply (scanUvarint_go (fun z => z) _ _ ltac:(done) buf 0)
               | apply (scanUvarint_go u64 _ _ u64_small buf 0) | apply (scanUvarint_go u64 _ _ u64_small buf 0)]; (done || lia).
Qed.

Lemma pigeon_uvarint_encode_loop_spec fuel : forall v room,
  0 <= v < 2 ^ (7 * (Z.of_nat fuel + 1)) ->
  pigeon_uvarint_encode_loop (S fuel) v room =
    if room <? len (put_uvarint_loop fuel v) then None else Some (put_uvarint_loop fuel v).
Proof.
  induction fuel as [|fuel IH]; intros v room Hv.
  - cbn [pigeon_uvarint_encode_loop put_uvarint_loop]. destruct (Z.leb_spec 128 v); [lia |].
    rewrite (proj2 (Z.ltb_lt v 128)) by lia. change (len [z2b v]) with 1.
    destruct (Z.leb_spec room 0), (Z.ltb_spec room 1); done || lia.
  - remember (S fuel) as f eqn:Ef. cbn [pigeon_uvarint_encode_loop]. subst f. cbn [put_uvarint_loop].
    destruct (Z.leb_spec 128 v), (Z.ltb_spec v 128); try lia.
    + rewrite IH.
      2:{ rewrite Z.shiftr_div_pow2 by lia. split; [apply Z.div_pos; lia |].
          apply Z.div_lt_upper_bound; [lia |]. rewrite <-Z.pow_add_r by lia.
          replace (7 + 7 * (Z.of_nat fuel + 1)) with (7 * (Z.of_nat (S fuel) + 1)) by lia. lia. }
      rewrite len_cons. pose proof (len_nonneg (put_uvarint_loop fuel (Z.shiftr v 7))).
      destruct (Z.leb_spec room 0).
      * rewrite (proj2 (Z.ltb_lt room _)) by lia. done.
      * destruct (Z.ltb_spec (room - 1) (len (put_uvarint_loop fuel (Z.shiftr v 7)))),
          (Z.ltb_spec room (len (put_uvarint_loop fuel (Z.shiftr v 7)) + 1)); try lia; done.
    + change (len [z2b v]) with 1. destruct (Z.leb_spec room 0), (Z.ltb_spec room 1); done || lia.
Qed.

Lemma pigeon_uvarint_encode_spec v room :
  0 <= v < 2 ^ 64 ->
  pigeon_uvarint_encode v room = if room <? len (PutUvarint v) then None else Some (PutUvarint v).
Proof.
  intros Hv. apply (pigeon_uvarint_encode_loop_spec 9). change (7 * (Z.of_nat 9 + 1)) with 70. lia.
Qed.

(** C accepts the varints Go accepts, with the same result. *)
Lemma pigeon_uvarint_decode_loop_spec buf : forall i x,
  0 <= i <= 9 ->
  (0 < snd (uvarint_loop buf i x (7 * i)) /\
     pigeon_uvarint_decode_loop buf i x (7 * i) = uvarint_loop buf i x (7 * i)) \/
  (snd (uvarint_loop buf i x (7 * i)) <= 0 /\ snd (pigeon_uvarint_decode_loop buf i x (7 * i)) <= 0).
Proof.
  induction buf as [|b buf IH]; intros i x Hi; cbn [uvarint_loop pigeon_uvarint_decode_loop].
  { by right. }
  unfold MaxVarintLen64. rewrite byte_high. destruct (Z.eqb_spec i 10); [lia |].
  change (10 - 1) with 9. destruct (b2z b <? 128) eqn:Eb.
  - destruct ((i =? 9) && (1 <? b2z b)); cbn; [right; lia |].
    left. rewrite (byte_low b Eb). split; [lia | done].
  - apply Z.ltb_ge in Eb. replace (7 * i + 7) with (7 * (i + 1)) by lia.
    destruct (Z.eqb_spec i 9) as [->|Hne]; cbn [andb].
    + right. rewrite (proj2 (Z.ltb_lt 1 (b2z b))) by lia. split; [apply uvarint_loop_10 | cbn; lia].
    + rewrite (proj2 (Z.leb_gt 64 _)) by lia. apply IH. lia.
Qed.

Lemma pigeon_uvarint_decode_spec buf v n :
  Uvarint buf = (v, n) ->
  if n <=? 0 then snd (pigeon_uvarint_decode buf) <= 0 else pigeon_uvarint_decode buf = (v, n).
Proof.
  unfold Uvarint. intros Hu. pose proof (pigeon_uvarint_decode_loop_spec buf 0 0 ltac:(lia)) as H.
  change (7 * 0) with 0 in H. rewrite Hu in H. cbn [snd] in H. unfold pigeon_uvarint_decode.
  destruct (Z.leb_spec n 0), H as [[? ?]|[? ?]]; (done || lia).
Qed.

(** ** Lemmas: fields *)

Lemma z2b_mod a b : a mod 256 = b mod 256 -> z2b a = z2b b.
Proof. intros H. apply b2z_inj. by rewrite !b2z_z2b. Qed.

Lemma shiftU32_put v : shiftU32 v = be_put 4 v.
Proof. unfold shiftU32, be_put. cbn. rewrite !Z.shiftr_shiftr by lia. done. Qed.

Lemma kotlinU32_put v : 0 <= v < 2 ^ 32 -> kotlinU32 v = be_put 4 v.
Proof.
  intros Hv. rewrite <-shiftU32_put. unfold kotlinU32, shiftU32. apply map_ext_in.
  intros k Hk. apply z2b_mod. change 255 with (Z.ones 8). rewrite Z.land_ones by lia. change (2 ^ 8) with 256.
  rewrite Z.mod_mod by lia.
  assert (Hi : exists q, i32 v = v + q * 2 ^ 32).
  { unfold i32. exists (- ((v + 2 ^ 31) / 2 ^ 32)). pose proof (Z.div_mod (v + 2 ^ 31) (2 ^ 32) ltac:(lia)). lia. }
  destruct Hi as [q ->].
  assert (Hk' : 0 <= k <= 24) by (cbn in Hk; lia).
  rewrite !Z.shiftr_div_pow2 by lia. replace (2 ^ 32) with (256 * 2 ^ (24 - k) * 2 ^ k).
  2:{ rewrite <-Z.mul_assoc, <-Z.pow_add_r by lia. replace (24 - k + k) with 24 by lia. done. }
  rewrite Z.mul_assoc, Z.div_add by (apply Z.pow_nonzero; lia).
  replace (q * (256 * 2 ^ (24 - k))) with (q * 2 ^ (24 - k) * 256) by lia. by rewrite Z.mod_add by lia.
Qed.

Lemma orU32_get rest : (4 <= length rest)%nat -> orU32 rest = be_get (take 4 rest).
Proof.
  destruct rest as [|a [|b [|c [|d rest]]]]; cbn [length]; try lia. intros _.
  unfold orU32, be_get. change (rev (take 4 (a :: b :: c :: d :: rest))) with [d; c; b; a]. cbn [le_get nth].
  change (Z.shiftl 0 8) with 0. rewrite Z.lor_0_r, !Z.shiftl_lor, !Z.shiftl_shiftl by lia.
  rewrite (Z.lor_comm _ (b2z d)). f_equal. rewrite Z.lor_comm. f_equal. apply Z.lor_comm.
Qed.

(** A text value that every target reads back as it is. *)
Definition textOk (v : wireVal) : Prop :=
  match v with WVStr s => plainText (str_bytes s) = true | _ => True end.

Lemma readText_plain t b : plainText b = true -> readText t b = bytes_str b.
Proof. intros H. unfold readText. by rewrite H. Qed.

Lemma emitEncodeField_go u32 fl v :
  (forall z, 0 <= z < 2 ^ 32 -> u32 z = be_put 4 z) -> valueFits fl v -> emitEncodeField u32 fl v = goEmitEncode fl v.
Proof.
  intros Hu Hv. unfold emitEncodeField, goEmitEncode. destruct v as [z|s|b]; cbn in Hv; [| | done].
  - destruct Hv as [[k Hz]|[k Hz]]; rewrite k; repeat case_bool_decide; try done; [by apply Hu | by apply encodeUvarint_Put].
  - pose proof (len_nonneg (str_bytes s)). unfold slen in *.
    destruct Hv as [[k Hs]|k]; rewrite k; repeat case_bool_decide; try done. by rewrite encodeUvarint_Put.
Qed.

Lemma goEmitDecode_off fl buf off v o :
  0 <= off <= len buf -> goEmitDecode fl buf off = Ok (v, o) -> off <= o <= len buf.
Proof.
  intros Ho. unfold goEmitDecode. destruct (Uvarint (slice_from buf off)) as [u n] eqn:Eu.
  assert (Hn : 0 < n -> n <= len buf - off /\ 0 <= u).
  { intros Hn. pose proof (Uvarint_nonneg _ _ _ Eu). apply Uvarint_n in Eu; [| done].
    unfold len in *. rewrite length_drop in Eu. lia. }
  repeat case_bool_decide; repeat case_match; try done; intros [= <- <-]; bool_hyps; lia.
Qed.

Lemma length_slice_from {A} (buf : list A) off : 0 <= off <= len buf -> Z.of_nat (length (slice_from buf off)) = len buf - off.
Proof. intros H. unfold len in *. rewrite length_drop. lia. Qed.

(** What Go reads from a message, the other languages read too, when its
    texts are plain. *)
Lemma targets_decode_field fl buf off v o :
  0 <= off <= len buf -> len buf < 2 ^ 31 -> textOk v -> goEmitDecode fl buf off = Ok (v, o) ->
  tsEmitDecodeField fl buf off = Returns (v, o) /\ kotlinEmitDecodeField fl buf off = Returns (v, o) /\
  swiftEmitDecodeField fl buf off = Returns (v, o).
Proof.
  intros Ho Hl Ht. pose proof (length_slice_from buf off Ho) as Hlen.
  unfold goEmitDecode, tsEmitDecodeField, kotlinEmitDecodeField, swiftEmitDecodeField. cbv zeta.
  destruct (Uvarint (slice_from buf off)) as [u n] eqn:Eu.
  assert (Hu : 0 < n -> _) by exact (Uvarint_targets _ _ _ Eu).
  case_bool_decide; [| case_bool_decide; [| case_bool_decide; [| case_bool_decide; [| case_bool_decide]]]].
  - destruct (Z.ltb_spec (len buf - off) 4); [done |]. intros [= <- <-].
    rewrite orU32_get by lia. done.
  - destruct (Z.leb_spec n 0); [done |]. intros [= <- <-]. destruct Hu as (-> & -> & ->); done.
  - destruct (Z.leb_spec n 0); [done |]. destruct Hu as (-> & -> & ->); [done |]. cbn [obind fst snd].
    destruct (Z.ltb_spec (len buf - (off + n)) u); [done |]. intros [= <- <-].
    pose proof (Uvarint_nonneg _ _ _ Eu). apply Uvarint_n in Eu; [| done]. unfold len in Eu.
    assert (Hi : i32 u = u) by (unfold i32; rewrite Z.mod_small; lia).
    rewrite Hi, (proj2 (Z.ltb_ge _ u)), (proj2 (Z.ltb_ge u 0)), (proj2 (Z.leb_gt (2 ^ 63) u)) by lia.
    cbn in Ht. rewrite str_bytes_str in Ht. by rewrite !readText_plain.
  - intros [= <- <-]. cbn in Ht. rewrite str_bytes_str in Ht. by rewrite !readText_plain.
  - by intros [= <- <-].
  - by intros [= <- <-].
Qed.

Lemma decodeWith_go dec fields : forall buf off vs,
  (forall fl off v o, 0 <= off <= len buf -> textOk v -> goEmitDecode fl buf off = Ok (v, o) -> dec fl buf off = Returns (v, o)) ->
  0 <= off <= len buf -> Forall textOk vs -> decodeFields fields buf off = Ok vs ->
  exists n, decodeWith dec fields buf off = Returns (vs, n) /\ off <= n <= len buf.
Proof.
  intros buf off vs Hd. revert off vs.
  induction fields as [|fl fields IH]; intros off vs Ho Ht; cbn [decodeFields decodeWith].
  { intros [= <-]. exists off. split; [done | lia]. }
  intros Hv. apply rbind_ok_inv in Hv as ([v o] & Hf & Hv). apply rbind_ok_inv in Hv as (ws & Hr & Hv).
  injection Hv as <-. cbn [fst snd] in *. apply Forall_cons in Ht as [Htv Ht].
  pose proof (goEmitDecode_off _ _ _ _ _ Ho Hf) as Ho'. rewrite (Hd _ _ _ _ Ho Htv Hf). cbn [obind snd].
  destruct (IH o ws ltac:(lia) Ht Hr) as (n & -> & Hn). cbn [obind fst snd]. exists n. split; [done | lia].
Qed.

(** ** Lemmas: C *)

Lemma cEmitEncodeField_go out_len off fl v :
  valueFits fl v -> 0 <= off <= out_len -> out_len < 2 ^ 63 -> len (goEmitEncode fl v) < 2 ^ 63 ->
  cEmitEncodeField out_len off fl v =
    if out_len <? off + len (goEmitEncode fl v) then None else Some (goEmitEncode fl v).
Proof.
  intros Hv Ho Hout. unfold cEmitEncodeField, goEmitEncode. destruct v as [z|s|b]; cbn in Hv.
  - destruct Hv as [[k Hz]|[k Hz]]; rewrite k; repeat case_bool_decide; try done; intros _.
    + rewrite shiftU32_put. replace (len (be_put 4 z)) with 4 by (unfold len; by rewrite length_be_put).
      by rewrite u64_small by lia.
    + rewrite pigeon_uvarint_encode_spec by done.
      destruct (Z.ltb_spec (out_len - off) (len (PutUvarint z))), (Z.ltb_spec out_len (off + len (PutUvarint z))); (done || lia).
  - pose proof (len_nonneg (str_bytes s)). unfold slen in *.
    destruct Hv as [[k Hs]|k]; rewrite k; repeat case_bool_decide; try done; intros Hl.
    + rewrite len_app in *. pose proof (len_PutUvarint (len (str_bytes s))).
      rewrite pigeon_uvarint_encode_spec by lia.
      destruct (Z.ltb_spec (out_len - off) (len (PutUvarint (len (str_bytes s))))).
      * by rewrite (proj2 (Z.ltb_lt out_len _)) by lia.
      * by rewrite u64_small, Z.add_assoc by lia.
    + by rewrite u64_small by lia.
  - pose proof (len_nonneg b). rewrite Hv. case_bool_decide; [| done]. intros Hl. by rewrite u64_small by lia.
Qed.

Lemma cEncodeFields_go out_len fields : forall vs off,
  Forall2 valueFits fields vs -> 0 <= off <= out_len -> out_len < 2 ^ 63 -> len (encodeFields fields vs) < 2 ^ 63 ->
  cEncodeFields out_len off fields vs =
    if out_len <? off + len (encodeFields fields vs) then None else Some (encodeFields fields vs).
Proof.
  induction fields as [|fl fields IH]; intros vs off Hf Ho Hout Hl; inversion Hf as [|? v ? ws Hv Hws]; subst;
    cbn [cEncodeFields encodeFields].
  { change (len []) with 0. by rewrite (proj2 (Z.ltb_ge out_len _)) by lia. }
  cbn [encodeFields] in Hl. rewrite len_app in *.
  pose proof (len_nonneg (goEmitEncode fl v)). pose proof (len_nonneg (encodeFields fields ws)).
  rewrite cEmitEncodeField_go by (done || lia).
  destruct (Z.ltb_spec out_len (off + len (goEmitEncode fl v))); cbn [mbind option_bind].
  { by rewrite (proj2 (Z.ltb_lt out_len _)) by lia. }
  rewrite IH by (done || lia). rewrite Z.add_assoc. by destruct (out_len <? _).
Qed.

(** Whether a value fits its destination. *)
Definition fitsCap (cap : Z) (v : wireVal) : bool :=
  match v with
  | WVInt _ => true
  | WVStr s => slen s + 1 <=? cap
  | WVBytes b => len b <=? cap
  end.
Fixpoint fitCaps (caps : list Z) (vs : list wireVal) : bool :=
  match vs with
  | [] => true
  | v :: vs => fitsCap (hd 0 caps) v && fitCaps (tl caps) vs
  end.

Lemma cEmitDecodeField_go cap fl buf off :
  0 <= off <= len buf -> len buf < 2 ^ 63 -> (exists w, check w [fl] = None) ->
  cEmitDecodeField cap fl buf off =
    match goEmitDecode fl buf off with
    | Ok (v, o) => if fitsCap cap v then Some (v, o) else None
    | Err _ => None
    end.
Proof.
  intros Ho Hl [w Hk]. pose proof (length_slice_from buf off Ho) as Hlen.
  unfold goEmitDecode, cEmitDecodeField. cbv zeta.
  destruct (Uvarint (slice_from buf off)) as [u n] eqn:Eu.
  pose proof (pigeon_uvarint_decode_spec _ _ _ Eu) as Hc. destruct (pigeon_uvarint_decode (slice_from buf off)) as [u' n'].
  pose proof (Uvarint_nonneg _ _ _ Eu) as Hu.
  pose proof (Uvarint_n _ _ _ Eu) as Hn. unfold len in Hn.
  case_bool_decide; [| case_bool_decide; [| case_bool_decide; [| case_bool_decide; [| case_bool_decide]]]].
  - destruct (Z.ltb_spec (len buf - off) 4); [done |]. rewrite orU32_get by lia. done.
  - destruct (Z.leb_spec n 0); cbn in Hc.
    + by rewrite (proj2 (Z.leb_le n' 0)).
    + injection Hc as -> ->. by rewrite (proj2 (Z.leb_gt n 0)).
  - destruct (Z.leb_spec n 0); cbn in Hc.
    + by rewrite (proj2 (Z.leb_le n' 0)).
    + injection Hc as -> ->. rewrite (proj2 (Z.leb_gt n 0)) by done. specialize (Hn ltac:(lia)).
      destruct (Z.ltb_spec (len buf - (off + n)) u); [done |]. cbn [fitsCap]. rewrite u64_small by lia.
      unfold slen. rewrite str_bytes_str. replace (len (slice_to (slice_from buf (off + n)) u)) with u.
      * destruct (Z.ltb_spec cap (u + 1)), (Z.leb_spec (u + 1) cap); (done || lia).
      * unfold len in *. rewrite length_take, length_drop. lia.
  - cbn [fitsCap]. rewrite u64_small by lia. unfold slen. rewrite str_bytes_str.
    replace (len (slice_from buf off)) with (len buf - off) by (unfold len at 2; lia).
    destruct (Z.ltb_spec cap (len buf - off + 1)), (Z.leb_spec (len buf - off + 1) cap); (done || lia).
  - cbn [fitsCap]. replace (len (slice_from buf off)) with (len buf - off) by (unfold len at 2; lia).
    destruct (Z.ltb_spec cap (len buf - off)), (Z.leb_spec (len buf - off) cap); (done || lia).
  - exfalso. cbn [check existsb] in Hk.
    repeat match goal with H : wfKind fl <> ?k |- _ => apply String.eqb_neq in H; rewrite H in Hk end. done.
Qed.

Lemma check_single w fl fields : check w (fl :: fields) = None -> check w [fl] = None.
Proof. cbn [check]. destruct (existsb _ _); [done |]. destruct (existsb _ _); [done |]. done. Qed.

Lemma cDecodeFields_go w fields : forall caps buf off,
  0 <= off <= len buf -> len buf < 2 ^ 63 -> check w fields = None ->
  fst <$> cDecodeFields caps fields buf off =
    match decodeFields fields buf off with
    | Ok vs => if fitCaps caps vs then Some vs else None
    | Err _ => None
    end.
Proof.
  induction fields as [|fl fields IH]; intros caps buf off Ho Hl Hc; [done |].
  pose proof (check_single _ _ _ Hc) as Hk. apply check_cons in Hc as [Hc _]. cbn [cDecodeFields decodeFields].
  rewrite cEmitDecodeField_go by eauto.
  destruct (goEmitDecode fl buf off) as [[v o]|] eqn:E; [| done]. cbn [rbind fst snd].
  pose proof (goEmitDecode_off _ _ _ _ _ Ho E). specialize (IH (tl caps) buf o ltac:(lia) Hl Hc).
  destruct (decodeFields fields buf o) as [vs|]; cbn [rbind fitCaps].
  - destruct (fitsCap (hd 0 caps) v); cbn; [| done].
    destruct (fitCaps (tl caps) vs); cbn in *; destruct (cDecodeFields (tl caps) fields buf o) as [[ws k]|]; cbn in *; congruence.
  - destruct (fitsCap (hd 0 caps) v); cbn; [| done].
    destruct (cDecodeFields (tl caps) fields buf o) as [[ws k]|]; cbn in *; congruence.
Qed.

(** ** Lemmas: suffixes *)

Lemma cutColon_splitAll s :
  splitAll s = match cutColon s with Some (p, r) => p :: splitAll r | None => [s] end.
Proof.
  induction s as [|b s IH]; [done |]. cbn [splitAll cutColon]. case_bool_decide; [done |].
  rewrite IH. by destruct (cutColon s) as [[p r]|].
Qed.

Lemma splitAll_nonempty s : exists p rest, splitAll s = p :: rest.
Proof. rewrite cutColon_splitAll. destruct (cutColon s) as [[p r]|]; eauto. Qed.

Lemma cutColon_cut s p r : cutColon s = Some (p, r) -> s = p ++ x3a :: r.
Proof.
  revert p. induction s as [|b s IH]; intros p; cbn [cutColon]; [done |]. case_bool_decide; [by intros [= <- <-]; subst |].
  destruct (cutColon s) as [[q t]|]; [| done]. intros [= <- <-]. cbn. f_equal. by apply IH.
Qed.

Lemma joinBytes_splitAll n : forall s, (length s < n)%nat -> joinBytes (splitAll s) = s.
Proof.
  induction n as [|n IH]; intros s Hl; [lia |]. rewrite cutColon_splitAll.
  destruct (cutColon s) as [[p r]|] eqn:E; [| done]. apply cutColon_cut in E as ->.
  destruct (splitAll_nonempty r) as (q & rest & Er). rewrite Er.
  change (joinBytes (p :: q :: rest)) with (p ++ x3a :: joinBytes (q :: rest)). rewrite <-Er, IH; [done |].
  rewrite length_app in Hl. cbn in Hl. lia.
Qed.

(** [SplitN] keeps the first parts and joins the others. *)
Lemma SplitN_splitAll n : forall s,
  SplitN (S n) s =
    let parts := splitAll s in
    if (S n <? length parts)%nat then take n parts ++ [joinBytes (drop n parts)] else parts.
Proof.
  induction n as [|n IH]; intros s; cbv zeta.
  - change (SplitN 1 s) with [s]. rewrite take_0, drop_0. cbn [app].
    rewrite (joinBytes_splitAll (S (length s))) by lia.
    destruct (splitAll_nonempty s) as (p & rest & E). rewrite E. destruct rest as [|q rest]; [| done].
    pose proof (joinBytes_splitAll (S (length s)) s ltac:(lia)) as Hj. rewrite E in Hj. cbn in Hj. by subst.
  - change (SplitN (S (S n)) s) with (match cutColon s with Some (p, r) => p :: SplitN (S n) r | None => [s] end).
    rewrite (cutColon_splitAll s). destruct (cutColon s) as [[p r]|]; [| done]. rewrite IH. cbv zeta.
    cbn [length take drop app]. change (S (S n) <? S (length (splitAll r)))%nat with (S n <? length (splitAll r))%nat.
    by destruct (S n <? length (splitAll r))%nat.
Qed.

Lemma tsParts_SplitN n body : tsParts (S n) body = pad (S n) (SplitN (S n) body).
Proof.
  unfold tsParts. rewrite SplitN_splitAll. cbv zeta. replace (S n - 1)%nat with n by lia.
  destruct (Nat.ltb_spec (S n) (length (splitAll body))); [| done].
  unfold pad. rewrite length_app, length_take. cbn [length].
  replace (S n - (n `min` length (splitAll body) + 1))%nat with 0%nat by lia. by rewrite app_nil_r.
Qed.

Lemma swiftParts_SplitN n body : swiftParts (S n) body = pad (S n) (SplitN (S n) body).
Proof.
  unfold swiftParts, pad. rewrite SplitN_splitAll. cbv zeta. replace (S n - 1)%nat with n by lia.
  set (parts := splitAll body). rewrite length_app, repeat_length.
  destruct (Nat.ltb_spec (S n) (length parts)) as [Hl|Hl].
  - rewrite (proj2 (Nat.ltb_lt _ _)) by lia. replace (S n - length parts)%nat with 0%nat by lia.
    cbn [repeat]. rewrite app_nil_r, length_app, length_take. cbn [length].
    replace (S n - (n `min` length parts + 1))%nat with 0%nat by lia. rewrite app_nil_r.
    rewrite <-(take_drop n parts) at 2. rewrite insert_app_r_alt by (rewrite length_take; lia).
    rewrite length_take. replace (n - n `min` length parts)%nat with 0%nat by lia.
    destruct (drop n parts) as [|x rest] eqn:Ed.
    { apply (f_equal length) in Ed. rewrite length_drop in Ed. cbn in Ed. lia. }
    cbn [insert list_insert]. rewrite take_app, length_take.
    rewrite take_take. replace (S n - n `min` length parts)%nat with 1%nat by lia.
    by replace (S n `min` n)%nat with n by lia.
  - rewrite (proj2 (Nat.ltb_ge _ _)) by lia. done.
Qed.

Lemma cScan_SplitN rest : forall expected idx cur,
  (idx < expected)%nat -> ((S idx < expected)%nat -> x3a ∉ cur) ->
  cScan expected idx cur rest = SplitN (expected - idx) (cur ++ rest).
Proof.
  assert (Hlast : forall s, SplitN 1 s = [s]) by done.
  induction rest as [|b rest IH]; intros expected idx cur Hi Hc; cbn [cScan].
  - rewrite app_nil_r. destruct (expected - idx)%nat as [|[|m]] eqn:Em; [lia | done |].
    change (SplitN (S (S m)) cur) with (match cutColon cur with Some (p, r) => p :: SplitN (S m) r | None => [cur] end).
    destruct (cutColon cur) as [[p r]|] eqn:E; [| done]. apply cutColon_cut in E as ->.
    exfalso. apply Hc; [lia | set_solver].
  - destruct (Nat.ltb_spec (S idx) expected) as [Hlt|Hge]; cbn [andb].
    + case_bool_decide as Hb; [subst b |].
      * rewrite IH by (try lia; set_solver). cbn [app].
        replace (expected - idx)%nat with (S (S (expected - S idx - 1))) by lia.
        change (SplitN (S (S ?m)) ?s) with (match cutColon s with Some (p, r) => p :: SplitN (S m) r | None => [s] end).
        rewrite cutColon_app by auto. do 2 f_equal. lia.
      * rewrite IH; [by rewrite <-app_assoc | lia |]. intros _. specialize (Hc Hlt). set_solver.
    + rewrite IH by lia. by rewrite <-app_assoc.
Qed.

(** ** Lemmas: dispatch *)

Definition sameDecoded (d d' : unionDecoded) : Prop := d.1 = d'.1 /\ forall name, fieldOf d name = fieldOf d' name.

Definition agrees (r : result unionDecoded) (o : outcome unionDecoded) : Prop :=
  match r, o with
  | Ok d, Returns d' => sameDecoded d d'
  | Err _, Throws _ => True
  | _, _ => False
  end.

Lemma fieldOf_pad v names n : forall parts name,
  fieldOf (v, zip names (map bytes_str parts)) name = fieldOf (v, zip names (map bytes_str (parts ++ repeat [] n))) name.
Proof.
  assert (Hnil : forall names m name, fieldOf (v, zip names (map bytes_str (repeat [] m))) name = EmptyString).
  { intros ns. induction ns as [|x ns IH]; intros [|m] name; try done. unfold fieldOf in *. cbn.
    destruct (String.eqb x name); [done |]. apply IH. }
  induction names as [|x names IH]; intros [|p parts] name; try done.
  - cbn [app]. rewrite Hnil. done.
  - unfold fieldOf in *. cbn. destruct (String.eqb x name); [done |]. apply IH.
Qed.

(** A union variant whose tail is a [string_to_end] and that has not both a
    tail and a suffix. *)
Definition unionPlain (u : WireUnion) : Prop :=
  (wuFields u = [] \/ wuColonSuffix u = []) /\ Forall (fun fl => wfKind fl = WFStringToEnd) (wuFields u).

Lemma emitUnionBranch_go parts malformed f u rest :
  (forall n body, parts (S n) body = pad (S n) (SplitN (S n) body)) -> unionPlain u ->
  agrees (goEmitUnionBranch f u rest) (emitUnionBranch parts malformed u rest).
Proof.
  intros Hp [Hu _]. unfold goEmitUnionBranch, emitUnionBranch.
  destruct (wuColonSuffix u) as [|s0 suffix] eqn:Es; [done |].
  destruct Hu as [Hu|Hu]; [| done]. rewrite Hu. cbn [map]. destruct rest as [|c rest].
  - split; [done |]. intros name. rewrite app_nil_r.
    exact (fieldOf_pad _ (map wfName (s0 :: suffix)) (length (s0 :: suffix)) [] name).
  - case_bool_decide; cbn [negb]; [| done]. cbn [length]. rewrite Hp, app_nil_r. split; [done |].
    intros name. apply fieldOf_pad.
Qed.

Lemma emitUnionDispatch_go branch unrecognised f s us :
  (forall u rest, u ∈ us -> agrees (goEmitUnionBranch f u rest) (branch u rest)) ->
  agrees (decodeOrdered f us s) (emitUnionDispatch branch unrecognised us s).
Proof.
  intros Hb. induction us as [|u us IH]; [done |]. cbn [decodeOrdered emitUnionDispatch].
  destruct (HasPrefix s (str_bytes (wuPrefix u))); [apply Hb; by left |].
  apply IH. intros u' rest Hu'. apply Hb. by right.
Qed.

Lemma emitUnionEncode_go u tail suffix :
  unionFits u tail suffix -> emitUnionEncode u tail suffix = goEmitUnionEncode u tail suffix.
Proof.
  unfold emitUnionEncode, goEmitUnionEncode.
  intros [(Hs & -> & Hl & _)|(Hs & Hf & -> & Hl & _)].
  - rewrite Hs, app_nil_r. destruct (wuFields u) as [|fl fields], tail; try done. by rewrite app_nil_r.
  - rewrite Hf. destruct (wuColonSuffix u); [done |]. done.
Qed.

(** C sees the bytes of a suffix up to a NUL. *)
Definition noNUL (s : string) : Prop := x00 ∉ str_bytes s.

Lemma cString_id b : x00 ∉ b -> cString b = b.
Proof.
  induction b as [|c b IH]; [done |]. cbn [cString]. intros Hn. case_bool_decide; [subst; set_solver |].
  rewrite IH; [done | set_solver].
Qed.

Lemma cAppend_room out_len acc b :
  out_len < 2 ^ 63 -> len acc <= out_len -> len b < 2 ^ 63 ->
  cAppend out_len acc b = if out_len <? len (acc ++ b) then None else Some (acc ++ b).
Proof.
  intros Ho Ha Hb. unfold cAppend. pose proof (len_nonneg acc). pose proof (len_nonneg b).
  rewrite u64_small by lia. by rewrite len_app.
Qed.

(** All parts, one after the other, or nothing when they do not fit. *)
Lemma cAppendParts_room out_len parts : forall acc,
  out_len < 2 ^ 63 -> len acc <= out_len -> Forall (fun p => len p < 2 ^ 63) parts ->
  let all := acc ++ concat (map (fun p => x3a :: p) parts) in
  cAppendParts out_len parts acc = if out_len <? len all then None else Some all.
Proof.
  induction parts as [|p parts IH]; intros acc Ho Ha Hp; cbv zeta; cbn [cAppendParts map concat].
  { rewrite app_nil_r. by rewrite (proj2 (Z.ltb_ge _ _)) by lia. }
  inversion Hp as [|? ? Hlp Hps]; subst. cbn [app].
  pose proof (len_nonneg p). pose proof (len_nonneg (concat (map (fun p => x3a :: p) parts))).
  rewrite cAppend_room by (cbn; lia || done).
  destruct (Z.ltb_spec out_len (len (acc ++ [x3a]))) as [Hlt|Hge]; cbn [mbind option_bind].
  { rewrite (proj2 (Z.ltb_lt _ _)); [done |]. autorewrite with len in *. lia. }
  replace (if nonEmpty p then cAppend out_len (acc ++ [x3a]) p else Some (acc ++ [x3a]))
    with (cAppend out_len (acc ++ [x3a]) p).
  2:{ destruct p; [| done]. rewrite cAppend_room by (done || lia). rewrite app_nil_r.
      by rewrite (proj2 (Z.ltb_ge _ _)). }
  rewrite cAppend_room by (done || lia).
  destruct (Z.ltb_spec out_len (len ((acc ++ [x3a]) ++ p))) as [Hlt'|Hge']; cbn [mbind option_bind].
  { rewrite (proj2 (Z.ltb_lt _ _)); [done |]. autorewrite with len in *. lia. }
  rewrite IH by (done || lia). cbv zeta. by rewrite <-!app_assoc.
Qed.

Lemma str_bytes_nil x : str_bytes x = [] -> x = EmptyString.
Proof. intros H. by apply str_bytes_inj. Qed.

Lemma anyNonEmpty_parts suffix : existsb nonEmpty (map str_bytes suffix) = anyNonEmpty suffix.
Proof.
  unfold anyNonEmpty. induction suffix as [|x suffix IH]; [done |]. cbn. rewrite IH. f_equal.
  destruct (str_bytes x) eqn:E; [apply str_bytes_nil in E as ->; done |].
  by rewrite bool_decide_false by (intros ->; discriminate E).
Qed.

Lemma cEmitUnionEncode_go u out_len tail suffix :
  unionFits u tail suffix -> unionPlain u -> Forall noNUL suffix ->
  out_len < 2 ^ 63 -> Forall (fun x => slen x < 2 ^ 63) (wuPrefix u :: tail ++ suffix) ->
  cEmitUnionEncode u out_len tail suffix =
    let bs := goEmitUnionEncode u tail suffix in
    if out_len <? len bs then None else Some bs.
Proof.
  intros Hfit [_ Hkind] Hnul Ho Hlen. inversion Hlen as [|? ? Hpre Hrest]; subst. unfold slen in *.
  unfold cEmitUnionEncode, goEmitUnionEncode. cbv zeta.
  destruct (Z.le_gt_cases 0 out_len) as [H0|Hneg].
  2:{ unfold cAppend. pose proof (len_nonneg (str_bytes (wuPrefix u))). cbn [app]. change (len []) with 0.
      rewrite u64_small, (proj2 (Z.ltb_lt out_len _)) by lia. cbn. symmetry.
      destruct (out_len <? _) eqn:E; [done |]. apply Z.ltb_ge in E.
      match type of E with len ?l <= _ => pose proof (len_nonneg l); lia end. }
  rewrite cAppend_room by (done || cbn; lia). cbn [app].
  destruct (Z.ltb_spec out_len (len (str_bytes (wuPrefix u)))) as [Hlt|Hge]; cbn [mbind option_bind].
  { rewrite (proj2 (Z.ltb_lt _ _)); [done |].
    destruct (wuColonSuffix u), (wuFields u); autorewrite with len; try done;
      match goal with |- context [_ + len ?l] => pose proof (len_nonneg l); lia end. }
  destruct Hfit as [(Hs & -> & Hl & Hle)|(Hs & Hf & -> & Hl & _)].
  - rewrite Hs. destruct (wuFields u) as [|fl [|]], tail as [|x [|]]; cbn in Hl, Hle; try lia.
    + cbn. by rewrite (proj2 (Z.ltb_ge _ _)).
    + inversion Hkind as [|? ? Hk _]; subst. cbn [cAppendTail]. rewrite Hk, bool_decide_true by done. cbn [andb].
      cbn [map concat]. rewrite app_nil_r. cbn [app] in Hrest. inversion Hrest; subst.
      case_bool_decide as Hx; cbn [negb mbind option_bind].
      * subst x. cbn. rewrite app_nil_r. by rewrite (proj2 (Z.ltb_ge _ _)).
      * rewrite cAppend_room by done. by destruct (out_len <? _).
  - rewrite Hf. cbn [cAppendTail mbind option_bind]. destruct (wuColonSuffix u) as [|s0 ss]; [done |].
    assert (Hc : map (fun x => cString (str_bytes x)) suffix = map str_bytes suffix).
    { apply map_ext_in. intros x Hx. apply cString_id. rewrite Forall_forall in Hnul. apply Hnul. by apply list_elem_of_In. }
    rewrite Hc, anyNonEmpty_parts. unfold writeSuffix. destruct (anyNonEmpty suffix).
    + rewrite cAppendParts_room; [| done | done |].
      * cbv zeta. rewrite map_map. done.
      * apply Forall_map. cbn [app] in Hrest. exact Hrest.
    + rewrite app_nil_r. by rewrite (proj2 (Z.ltb_ge _ _)).
Qed.

(** Stored fields are the assigned ones, when each has room. *)
Lemma cStore_room caps names : forall parts,
  Forall (fun p => len p < 2 ^ 63) parts ->
  (forall name p, (name, p) ∈ zip names parts -> len p + 1 <= caps name) ->
  cStore caps names parts = Some (zip names (map bytes_str parts)).
Proof.
  induction names as [|name names IH]; intros [|p parts] Hp Hc; try done. inversion Hp; subst. cbn [cStore zip map].
  pose proof (len_nonneg p). pose proof (Hc name p ltac:(by left)).
  rewrite u64_small, (proj2 (Z.ltb_ge _ _)) by lia. rewrite IH; [done | done |].
  intros n q Hq. apply Hc. by right.
Qed.

Lemma SplitN_len n : forall s, Forall (fun p => len p <= len s) (SplitN n s).
Proof.
  induction n as [|n IH]; intros s; [by repeat constructor |]. destruct n as [|n]; [by repeat constructor |].
  change (SplitN (S (S n)) s) with (match cutColon s with Some (p, r) => p :: SplitN (S n) r | None => [s] end).
  destruct (cutColon s) as [[p r]|] eqn:E; [| by repeat constructor]. apply cutColon_cut in E as ->.
  pose proof (len_nonneg p). pose proof (len_nonneg r).
  constructor; [autorewrite with len; lia |]. eapply Forall_impl; [apply IH |]. cbn. intros q Hq. autorewrite with len. lia.
Qed.

Lemma toEnd_single w fields :
  check w fields = None -> Forall (fun fl => wfKind fl = WFStringToEnd) fields -> (length fields <= 1)%nat.
Proof.
  intros Hc Hk. destruct fields as [|fl fields]; [cbn; lia |]. apply check_cons in Hc as [_ Hend].
  inversion Hk as [|? ? Hfl _]; subst. rewrite Hend; [done |]. unfold toEnd. by rewrite Hfl.
Qed.

Definition cAgrees (r : result unionDecoded) (o : option unionDecoded) : Prop :=
  match r, o with
  | Ok d, Some d' => sameDecoded d d'
  | Err _, None => True
  | _, _ => False
  end.

Lemma cUnionBranch_go caps f u rest :
  unionPlain u -> (length (wuFields u) <= 1)%nat -> len rest < 2 ^ 62 ->
  (forall name, len rest + 1 <= caps name) -> cAgrees (goEmitUnionBranch f u rest) (cUnionBranch caps u rest).
Proof.
  intros [Hu Hk] Hl Hr Hcap. unfold goEmitUnionBranch, cUnionBranch. cbv zeta.
  pose proof (len_nonneg rest).
  destruct (wuFields u) as [|fl [|]] eqn:Ef; cbn in Hl; try lia.
  - cbn. destruct (wuColonSuffix u) as [|s0 suffix] eqn:Es; [done |].
    destruct rest as [|c rest]; [done |]. case_bool_decide; cbn [negb]; [| done].
    rewrite cScan_SplitN by (cbn; try lia; set_solver). cbn [app]. rewrite Nat.sub_0_r.
    rewrite len_cons in *. pose proof (SplitN_len (length (s0 :: suffix)) rest) as Hsp.
    rewrite cStore_room; [done | |].
    + eapply Forall_impl; [exact Hsp |]. cbn. lia.
    + intros name p Hp. apply elem_of_zip_r in Hp. rewrite Forall_forall in Hsp. apply Hsp in Hp.
      specialize (Hcap name). lia.
  - inversion Hk as [|? ? Hfl _]; subst. destruct Hu as [|Hu]; [done |]. rewrite Hu.
    rewrite filter_cons_True by done. cbn. specialize (Hcap (wfName fl)).
    rewrite u64_small, (proj2 (Z.ltb_ge _ _)) by lia. done.
Qed.

Lemma cUnionDispatch_go caps f buf us :
  len buf < 2 ^ 62 -> (forall name, len buf + 1 <= caps name) ->
  (forall u, u ∈ us -> unionPlain u /\ (length (wuFields u) <= 1)%nat) ->
  cAgrees (decodeOrdered f us buf) (cUnionDispatch caps us buf).
Proof.
  intros Hl Hcap Hu. induction us as [|u us IH]; [done |]. cbn [decodeOrdered cUnionDispatch].
  destruct (HasPrefix buf (str_bytes (wuPrefix u))).
  - destruct (Hu u ltac:(by left)) as [Hp H1].
    assert (len (drop (String.length (wuPrefix u)) buf) <= len buf) by (unfold len; rewrite length_drop; lia).
    apply cUnionBranch_go; [done | done | lia |]. intros name. specialize (Hcap name). lia.
  - apply IH. intros u' Hu'. apply Hu. by right.
Qed.

(** ** Properties *)

(** C24. The encoders of the four other languages write the bytes of the Go
    encoders: for every plain format, role-dispatched format and union
    variant and all values of the fields' types, TypeScript, Kotlin and Swift
    produce the same bytes, and C produces them whenever they fit the caller's
    buffer and reports failure, writing no more than the buffer, otherwise. *)
Theorem wire_encoders_agree (f : WireFormat_) :
  (forall vs, Forall2 valueFits (wFields f) vs ->
     let bs := (goEmitPlain f).1 vs in
     encodeWith tsEmitEncodeField (wFields f) vs = bs /\
     encodeWith kotlinEmitEncodeField (wFields f) vs = bs /\
     encodeWith swiftEmitEncodeField (wFields f) vs = bs /\
     (forall out_len, 0 <= out_len < 2 ^ 63 -> len bs < 2 ^ 63 ->
        (cEmitPlainImpl f).1 out_len vs = if out_len <? len bs then None else Some bs)) /\
  (forall v env, v ∈ wVariants f -> Forall2 valueFits (wvFields v) (argsOf env (wvFields v)) ->
     let args := argsOf env (wvFields v) in
     let bs := encodeFields (wvFields v) args in
     encodeWith tsEmitEncodeField (wvFields v) args = bs /\
     encodeWith kotlinEmitEncodeField (wvFields v) args = bs /\
     encodeWith swiftEmitEncodeField (wvFields v) args = bs /\
     (forall out_len, 0 <= out_len < 2 ^ 63 -> len bs < 2 ^ 63 ->
        cEncodeFields out_len 0 (wvFields v) args = if out_len <? len bs then None else Some bs)) /\
  (forall u tail suffix, u ∈ wUnion f -> unionFits u tail suffix ->
     let bs := goEmitUnionEncode u tail suffix in
     tsEmitUnionEncode u tail suffix = bs /\ kotlinEmitUnionEncode u tail suffix = bs /\
     swiftEmitUnionEncode u tail suffix = bs /\
     (forall out_len, unionPlain u -> Forall noNUL suffix -> out_len < 2 ^ 63 ->
        Forall (fun x => slen x < 2 ^ 63) (wuPrefix u :: tail ++ suffix) ->
        cEmitUnionEncode u out_len tail suffix = if out_len <? len bs then None else Some bs)).
Proof.
  assert (Henc : forall enc, (forall fl v, valueFits fl v -> enc fl v = goEmitEncode fl v) ->
            forall fields vs, Forall2 valueFits fields vs -> encodeWith enc fields vs = encodeFields fields vs).
  { intros enc He fields vs Hf. induction Hf as [|fl v fields vs Hv Hf IH]; [done |]. cbn. by rewrite He, IH. }
  assert (Hall : forall fields vs, Forall2 valueFits fields vs ->
            encodeWith tsEmitEncodeField fields vs = encodeFields fields vs /\
            encodeWith kotlinEmitEncodeField fields vs = encodeFields fields vs /\
            encodeWith swiftEmitEncodeField fields vs = encodeFields fields vs /\
            (forall out_len, 0 <= out_len < 2 ^ 63 -> len (encodeFields fields vs) < 2 ^ 63 ->
               cEncodeFields out_len 0 fields vs =
                 if out_len <? len (encodeFields fields vs) then None else Some (encodeFields fields vs))).
  { intros fields vs Hf. split_and!.
    1-3: apply Henc; [intros; apply emitEncodeField_go | ]; auto using kotlinU32_put, shiftU32_put.
    intros out_len Ho Hl. by rewrite cEncodeFields_go by (done || lia). }
  split_and!.
  - intros vs Hf. exact (Hall _ _ Hf).
  - intros v env _ Hf. exact (Hall _ _ Hf).
  - intros u tail suffix _ Hf. cbv zeta. split_and!; [by apply emitUnionEncode_go .. |].
    intros out_len Hp Hn Ho Hlen. by apply cEmitUnionEncode_go.
Qed.

(** C25. The decoders read the same messages, below 2^31 bytes: what Go reads
    from a message whose texts are plain (valid UTF-8 with no byte order mark in
    front) TypeScript, Kotlin and Swift read too; C reads exactly the
    messages Go reads, malformed ones included, as long as the values fit the
    caller's buffers; and on a union of plain variants the decoders of all
    languages choose the same variant and fields or all refuse, for a message
    that is plain text (in Swift, ASCII without carriage returns) and, in C,
    with buffers longer than the message.  The condition on texts is needed:
    of a text that begins with a byte order mark, which Go writes and reads
    back as it is, TypeScript loses the mark. *)
Theorem wire_decoders_agree (s : WireFormatSet) (f : WireFormat_) (buf : bytes) :
  WireFormatSet_Validate s = None -> f ∈ wsFormats s -> len buf < 2 ^ 31 ->
  (forall fields vs, fields = wFields f \/ fields ∈ map wvFields (wVariants f) ->
     decodeFields fields buf 0 = Ok vs -> Forall textOk vs ->
     exists n n' n'', decodeWith tsEmitDecodeField fields buf 0 = Returns (vs, n) /\
       decodeWith kotlinEmitDecodeField fields buf 0 = Returns (vs, n') /\
       decodeWith swiftEmitDecodeField fields buf 0 = Returns (vs, n'')) /\
  (forall fields caps, fields = wFields f \/ fields ∈ map wvFields (wVariants f) ->
     fst <$> cDecodeFields caps fields buf 0 =
       match decodeFields fields buf 0 with
       | Ok vs => if fitCaps caps vs then Some vs else None
       | Err _ => None
       end) /\
  (Forall unionPlain (wUnion f) ->
     (plainText buf = true ->
        agrees (goEmitUnionDecode f buf) (tsEmitUnionDecode f buf) /\
        agrees (goEmitUnionDecode f buf) (kotlinEmitUnionDecode f buf) /\
        (asciiText buf = true -> agrees (goEmitUnionDecode f buf) (swiftEmitUnionDecode f buf))) /\
     (forall caps, (forall name, len buf + 1 <= caps name) ->
        cAgrees (goEmitUnionDecode f buf) (cEmitUnionImpl f caps buf))) /\
  (forall fl rest, wfKind fl = WFStringToEnd -> utf8_valid (length (BOM ++ rest)) (BOM ++ rest) = true ->
     goEmitDecode fl (goEmitEncode fl (WVStr (bytes_str (BOM ++ rest)))) 0 =
       Ok (WVStr (bytes_str (BOM ++ rest)), len (BOM ++ rest)) /\
     tsEmitDecodeField fl (goEmitEncode fl (WVStr (bytes_str (BOM ++ rest)))) 0 =
       Returns (WVStr (bytes_str rest), len (BOM ++ rest))).
Proof.
  intros Hv Hf Hl. apply (Validate_checkFormat s f) in Hv; [| done]. apply checkFormat_fields in Hv as (Hp & Hvar & Hun).
  pose proof (len_nonneg buf). split_and!.
  - intros fields vs _ Hd Ht.
    destruct (decodeWith_go tsEmitDecodeField fields buf 0 vs) as (n & Hts & _); [| lia | done | done |].
    { intros. eapply targets_decode_field; done. }
    destruct (decodeWith_go kotlinEmitDecodeField fields buf 0 vs) as (n' & Hkt & _); [| lia | done | done |].
    { intros. eapply targets_decode_field; done. }
    destruct (decodeWith_go swiftEmitDecodeField fields buf 0 vs) as (n'' & Hsw & _); [| lia | done | done |].
    { intros. eapply targets_decode_field; done. }
    by exists n, n', n''.
  - intros fields caps Hfs. assert (Hc : exists w, check w fields = None).
    { destruct Hfs as [->|Hfs]; [eauto |]. apply list_elem_of_fmap in Hfs as (v & -> & Hin). eauto. }
    destruct Hc as [w Hc]. apply (cDecodeFields_go w); [lia | lia | done].
  - intros Hplain. rewrite Forall_forall in Hplain.
    assert (Hbranch : forall parts malformed u rest,
              (forall n body, parts (S n) body = pad (S n) (SplitN (S n) body)) -> u ∈ ordered (wUnion f) ->
              agrees (goEmitUnionBranch f u rest) (emitUnionBranch parts malformed u rest)).
    { intros parts malformed u rest Hparts Hin. apply emitUnionBranch_go; [done |]. apply Hplain. by rewrite <-ordered_perm. }
    split.
    + intros Ht. unfold goEmitUnionDecode, tsEmitUnionDecode, kotlinEmitUnionDecode, swiftEmitUnionDecode.
      rewrite !readText_plain, str_bytes_str by done. split_and!.
      * apply emitUnionDispatch_go. intros u rest. apply Hbranch, tsParts_SplitN.
      * apply emitUnionDispatch_go. intros u rest. by apply Hbranch.
      * intros Ha. rewrite Ha. apply emitUnionDispatch_go. intros u rest. apply Hbranch, swiftParts_SplitN.
    + intros caps Hcap. apply cUnionDispatch_go; [lia | done |].
      intros u Hin. rewrite ordered_perm in Hin. split; [by apply Hplain |].
      specialize (Hun u Hin). unfold checkUnion in Hun. case_bool_decide; [done |].
      destruct (check _ (wuFields u)) eqn:Ec; [done |]. apply (toEnd_single _ _ Ec). by apply Hplain.
  - intros fl rest Hk Hu. unfold goEmitDecode, goEmitEncode, tsEmitDecodeField. rewrite Hk. repeat case_bool_decide; try done.
    rewrite str_bytes_str. split; [done |]. unfold readText. change (slice_from (BOM ++ rest) 0) with (BOM ++ rest).
    unfold plainText. rewrite Hu. by rewrite bool_decide_true.
Qed.

(** The languages part on lengths and varints no peer should send: on a
    name length of 2^64-1, which Go reports as truncated, TypeScript throws,
    Kotlin throws an exception of another class and Swift ends the process;
    on a length of 2^32+1 Kotlin returns a one-byte name; and a ten-byte varint
    above 2^64-1, which Go and C refuse, is accepted by the other three, with
    two different values. *)
Theorem oversized_lengths_diverge (name : string) :
  let fl := {| wfName := name; wfKind := WFStringLenV |} in
  let huge := PutUvarint (2 ^ 64 - 1) in
  let wrapped := PutUvarint (2 ^ 32 + 1) ++ [x41] in
  let vl := {| wfName := name; wfKind := WFVarint |} in
  let over := repeat xff 9 ++ [x7f] in
  goEmitDecode fl huge 0 = Err (ENew ("truncated " +:+ name)) /\
  tsEmitDecodeField fl huge 0 = Throws "truncated string" /\
  kotlinEmitDecodeField fl huge 0 = Throws "StringIndexOutOfBoundsException" /\
  swiftEmitDecodeField fl huge 0 = Traps /\
  goEmitDecode fl wrapped 0 = Err (ENew ("truncated " +:+ name)) /\
  kotlinEmitDecodeField fl wrapped 0 = Returns (WVStr "A", 6) /\
  goEmitDecode vl over 0 = Err (ENew ("bad varint " +:+ name)) /\
  (forall cap, cEmitDecodeField cap vl over 0 = None) /\
  kotlinEmitDecodeField vl over 0 = Returns (WVInt (2 ^ 64 - 1), 10) /\
  swiftEmitDecodeField vl over 0 = Returns (WVInt (2 ^ 64 - 1), 10) /\
  tsEmitDecodeField vl over 0 = Returns (WVInt (2 ^ 70 - 1), 10).
Proof. cbv zeta. split_and!; done. Qed.

End Targets.

Lemma wire_encoders_agree_witness :
  let vs := [WVInt 7; WVStr "ab"; WVBytes [x00; xff]] in
  encodeWith kotlinEmitEncodeField (wFields samplePlain) vs = (goEmitPlain samplePlain).1 vs /\
  (cEmitPlainImpl samplePlain).1 8 vs = None /\ (cEmitPlainImpl samplePlain).1 9 vs = Some ((goEmitPlain samplePlain).1 vs).
Proof.
  cbv zeta. destruct (wire_encoders_agree samplePlain) as [H _].
  destruct (H [WVInt 7; WVStr "ab"; WVBytes [x00; xff]]) as (_ & Hk & _ & Hc).
  - repeat (constructor; [cbn; first [by left | left; split; [done | cbn; lia] | done] |]). constructor.
  - split_and!; [exact Hk | |]; by rewrite Hc by (vm_compute; repeat split; discriminate).
Defined.

Lemma wire_decoders_agree_witness :
  exists f, nth_error (wsFormats pigeonWire) 2 = Some f /\
    agrees (goEmitUnionDecode f (str_bytes "listen:t:a:b")) (tsEmitUnionDecode (fun _ _ => EmptyString) f (str_bytes "listen:t:a:b")) /\
    cAgrees (goEmitUnionDecode f (str_bytes "listen:t:a:b")) (cEmitUnionImpl f (fun _ => 13) (str_bytes "listen:t:a:b")).
Proof.
  destruct (nth_error (wsFormats pigeonWire) 2) as [f|] eqn:E; [| done]. exists f. split; [done |].
  destruct (wire_decoders_agree (fun _ _ => EmptyString) (fun _ _ => Traps) pigeonWire f (str_bytes "listen:t:a:b"))
    as (_ & _ & Hu & _); [done | | done |].
  - apply nth_error_In in E. by apply list_elem_of_In.
  - destruct Hu as [Hts Hc].
    + injection E as <-. cbn [wUnion wireFormat ysUnion map].
      repeat (apply Forall_cons; split; [split; [cbn; auto | repeat constructor] |]). constructor.
    + split; [apply Hts; done | apply Hc]. intros. vm_compute. discriminate.
Defined.
