(* ===== verification/Channel.v ===== *)
(** * Channel: the crypto package (crypto/crypto.go)

    Key derivation, the confirmation code, the SAS commitment, pairing
    records and the sequence-numbered AEAD channel.  The primitives the
    package calls (X25519, AES-256-GCM, HKDF-SHA256, SHA-256) are the
    operations of the class [Primitives], whose laws are their documented
    contracts; [toy] is a concrete instance used by the witnesses. *)

From Stdlib Require Import ZArith Lia Sorted Strings.Byte Strings.String.
From stdpp Require Import base sets strings list.
From S2P Require Import Prelude Binary.

Open Scope Z_scope.

(** ** Primitives *)

(** [crypto/ecdh], [crypto/cipher], [golang.org/x/crypto/hkdf] and
    [crypto/sha256] as the package uses them. *)
Class Primitives := {
  PrivateKey : Type;
  PublicKey : Type;
  priv_public : PrivateKey -> PublicKey;
  priv_bytes : PrivateKey -> bytes;
  pub_bytes : PublicKey -> bytes;
  NewPrivateKey : bytes -> result PrivateKey;
  NewPublicKey : bytes -> result PublicKey;
  ECDH : PrivateKey -> PublicKey -> result bytes;
  hkdf_read : bytes -> bytes -> nat -> result bytes;
  sha256 : bytes -> bytes;
  AEAD : Type;
  NewGCM : bytes -> result AEAD;
  NonceSize : AEAD -> nat;
  Seal : AEAD -> bytes -> bytes -> bytes -> bytes;
  Open : AEAD -> bytes -> bytes -> bytes -> result bytes
}.

(** What the primitives promise. *)
Class PrimitivesLaws (P : Primitives) := {
  (** X25519 key encodings parse back, and the exchange is symmetric. *)
  NewPrivateKey_bytes k : NewPrivateKey (priv_bytes k) = Ok k;
  NewPublicKey_bytes k : NewPublicKey (pub_bytes k) = Ok k;
  ECDH_comm a b : ECDH a (priv_public b) = ECDH b (priv_public a);
  (** HKDF-SHA256 yields as many bytes as asked, up to 255 blocks. *)
  hkdf_ok ikm info n : (n <= 255 * 32)%nat ->
    exists key, hkdf_read ikm info n = Ok key /\ length key = n;
  (** AES accepts a 32-byte key; GCM's nonce is 12 bytes. *)
  NewGCM_ok key : length key = 32%nat -> exists g, NewGCM key = Ok g;
  NonceSize_12 g : NonceSize g = 12%nat;
  (** [Open] inverts [Seal], and accepts nothing [Seal] did not produce for
      the same nonce and additional data. *)
  Open_Seal g nonce pt ad : Open g nonce (Seal g nonce pt ad) ad = Ok pt;
  Seal_Open g nonce ct ad pt : Open g nonce ct ad = Ok pt -> ct = Seal g nonce pt ad;
  (** The GCM tag is 16 bytes. *)
  length_Seal g nonce pt ad : length (Seal g nonce pt ad) = (length pt + 16)%nat
}.

Section Crypto.
Context `{P : Primitives}.

(** ** Key derivation *)

Record KeyPair := {
  Private : PrivateKey;
  Public : PublicKey
}.

(** [GenerateKeyPair], for the private key the random source yields. *)
Definition GenerateKeyPair (rand : result PrivateKey) : result KeyPair :=
  let! priv := rand in
  Ok {| Private := priv; Public := priv_public priv |}.

Definition hkdfDerive (ikm info : bytes) : result bytes := hkdf_read ikm info 32.

Definition DeriveSessionKey (priv : PrivateKey) (peerPub : PublicKey) (info : bytes)
    : result bytes :=
  let! shared := ECDH priv peerPub in
  hkdfDerive shared info.

Definition DeriveKeyFromSecret (secret nonce : bytes) : result bytes :=
  hkdfDerive secret nonce.

(** ** Confirmation code *)

(** [bytes.Compare]: lexicographic, as -1, 0 or 1. *)
Fixpoint bytes_Compare (a b : bytes) : Z :=
  match a, b with
  | [], [] => 0
  | [], _ => -1
  | _, [] => 1
  | x :: a', y :: b' =>
      if b2z x <? b2z y then -1 else
      if b2z y <? b2z x then 1 else bytes_Compare a' b'
  end.

(** [fmt.Sprintf("%06d", n)] for [0 <= n]: decimal digits, padded to six. *)
Fixpoint digits_pad (width : nat) (n : Z) : string :=
  match width with
  | O => EmptyString
  | S w => digits_pad w (n / 10) +:+ String (Ascii.ascii_of_nat (Z.to_nat (48 + n mod 10))) EmptyString
  end.

(** [%06d] of a value below one million: six digits exactly. *)
Definition sprintf_06d (n : Z) : string := digits_pad 6 n.

Definition DeriveConfirmationCode (pubA pubB : PublicKey) : result string :=
  let a := pub_bytes pubA in
  let b := pub_bytes pubB in
  let '(a, b) := if 0 <? bytes_Compare a b then (b, a) else (a, b) in
  let ikm := a ++ b in
  let! buf := hkdf_read ikm (str_bytes "pairing-confirmation") 4 in
  let code := be_get buf mod 1000000 in
  Ok (sprintf_06d code).

(** ** SAS commitment *)

Definition sasCommitTag : string := "pigeon-sas-commit".

Definition SASCommit (ephPub blind : bytes) : result bytes :=
  if negb (len ephPub =? 32) || negb (len blind =? 32) then
    Err (ENew "crypto.SASCommit: ephPub and blind must be 32 bytes")
  else Ok (sha256 (str_bytes sasCommitTag ++ ephPub ++ blind)).

(** [subtle.ConstantTimeCompare(x, y) == 1]: equal length and contents. *)
Definition ConstantTimeCompare (x y : bytes) : bool := bool_decide (x = y).

Definition SASCommitVerify (ephPub blind commit : bytes) : bool :=
  match SASCommit ephPub blind with
  | Err _ => false
  | Ok expected =>
      if negb (len commit =? 32) then false else ConstantTimeCompare expected commit
  end.

(** ** Channel *)

Inductive ChannelMode :=
  | ModeStrict
  | ModeDatagrams.

Record Channel := {
  sendGCM : AEAD;
  recvGCM : AEAD;
  sendSeq : Z;
  recvSeq : Z;
  mode : ChannelMode
}.

Definition set_sendSeq (c : Channel) (s : Z) : Channel :=
  {| sendGCM := sendGCM c; recvGCM := recvGCM c; sendSeq := s;
     recvSeq := recvSeq c; mode := mode c |}.

Definition set_recvSeq (c : Channel) (s : Z) : Channel :=
  {| sendGCM := sendGCM c; recvGCM := recvGCM c; sendSeq := sendSeq c;
     recvSeq := s; mode := mode c |}.

Definition NewChannel (sendKey recvKey : bytes) : result Channel :=
  let! s := NewGCM sendKey in
  let! r := NewGCM recvKey in
  Ok {| sendGCM := s; recvGCM := r; sendSeq := 0; recvSeq := 0; mode := ModeStrict |}.

Definition SetMode (c : Channel) (m : ChannelMode) : Channel :=
  {| sendGCM := sendGCM c; recvGCM := recvGCM c; sendSeq := sendSeq c;
     recvSeq := recvSeq c; mode := m |}.

Definition NewDatagramChannel (sendKey recvKey : bytes) : result Channel :=
  let! ch := NewChannel sendKey recvKey in
  Ok (SetMode ch ModeDatagrams).

Definition NewSymmetricChannel (key : bytes) (isServer : bool) : result Channel :=
  let sendInfo := str_bytes "client-to-server" in
  let recvInfo := str_bytes "server-to-client" in
  let '(sendInfo, recvInfo) := if isServer then (recvInfo, sendInfo) else (sendInfo, recvInfo) in
  let! sendKey := hkdfDerive key sendInfo in
  let! recvKey := hkdfDerive key recvInfo in
  NewChannel sendKey recvKey.

(** [makeNonce]: [size] zero bytes with the sequence number in the first eight. *)
Definition makeNonce (size : nat) (seq : Z) : bytes :=
  le_put 8 seq ++ replicate (size - 8) x00.

(** [Encrypt]: the counter is taken before use, the 8-byte sequence number is
    both the additional data and the prefix of the packet. *)
Definition Encrypt (c : Channel) (plaintext : bytes) : Channel * bytes :=
  let seq := sendSeq c in
  let nonce := makeNonce (NonceSize (sendGCM c)) seq in
  let seqBytes := le_put 8 seq in
  let ciphertext := Seal (sendGCM c) nonce plaintext seqBytes in
  (set_sendSeq c (u64 (seq + 1)), seqBytes ++ ciphertext).

(** [Decrypt]: the receive counter moves before the tag is checked. *)
Definition Decrypt (c : Channel) (data : bytes) : Channel * result bytes :=
  if len data <? 8 then (c, Err (ENew "ciphertext too short")) else
  let seqBytes := take 8 data in
  let seq := le_get seqBytes in
  let ciphertext := drop 8 data in
  let open c :=
    (c, Open (recvGCM c) (makeNonce (NonceSize (recvGCM c)) seq) ciphertext seqBytes) in
  match mode c with
  | ModeStrict =>
      if negb (seq =? recvSeq c) then (c, Err (ENew "unexpected sequence number"))
      else open (set_recvSeq c (u64 (recvSeq c + 1)))
  | ModeDatagrams =>
      if seq <? recvSeq c then (c, Err (ENew "sequence number replayed or too old"))
      else open (set_recvSeq c (u64 (seq + 1)))
  end.

(** ** Pairing records *)

Definition SessionSaltLen : Z := 16.

Record PairingRecord := {
  PeerInstanceID : string;
  RelayURL : string;
  LocalPrivateKey : bytes;
  LocalPublicKey : bytes;
  PeerPublicKey : bytes
}.

Definition NewPairingRecord (peerInstanceID relayURL : string) (localKP : KeyPair)
    (peerPubKey : PublicKey) : PairingRecord :=
  {| PeerInstanceID := peerInstanceID;
     RelayURL := relayURL;
     LocalPrivateKey := priv_bytes (Private localKP);
     LocalPublicKey := pub_bytes (Public localKP);
     PeerPublicKey := pub_bytes peerPubKey |}.

Definition DeriveChannel (r : PairingRecord) (sendInfo recvInfo sessionSalt : bytes)
    : result Channel :=
  let n := len sessionSalt in
  if negb (n =? 0) && negb (n =? SessionSaltLen) then
    Err (EFmt "session salt must be %d bytes, got %d" [AInt SessionSaltLen; AInt n])
  else
    let! priv := rwrap "parse local key: %w" [] (NewPrivateKey (LocalPrivateKey r)) in
    let! peerPub := rwrap "parse peer key: %w" [] (NewPublicKey (PeerPublicKey r)) in
    let sendKeyInfo := sendInfo ++ sessionSalt in
    let recvKeyInfo := recvInfo ++ sessionSalt in
    let! sendKey := rwrap "derive send key: %w" [] (DeriveSessionKey priv peerPub sendKeyInfo) in
    let! recvKey := rwrap "derive recv key: %w" [] (DeriveSessionKey priv peerPub recvKeyInfo) in
    NewChannel sendKey recvKey.

(** ** Runs over several packets *)

(** [Encrypt] of each plaintext in order. *)
Fixpoint EncryptAll (c : Channel) (pts : list bytes) : Channel * list bytes :=
  match pts with
  | [] => (c, [])
  | pt :: pts' =>
      let '(c, ct) := Encrypt c pt in
      let '(c, cts) := EncryptAll c pts' in
      (c, ct :: cts)
  end.

(** [Decrypt] of each packet in order, keeping every outcome. *)
Fixpoint DecryptAll (c : Channel) (cts : list bytes) : Channel * list (result bytes) :=
  match cts with
  | [] => (c, [])
  | ct :: cts' =>
      let '(c, r) := Decrypt c ct in
      let '(c, rs) := DecryptAll c cts' in
      (c, r :: rs)
  end.

(** The sequence number in the prefix of a packet. *)
Definition packet_seq (data : bytes) : Z := le_get (take 8 data).
End Crypto.

(** ** Lemmas: comparison and formatting *)

Lemma bytes_Compare_antisym a : forall b, bytes_Compare b a = - bytes_Compare a b.
Proof.
  induction a as [|x a IH]; destruct b as [|y b]; simpl; try done.
  destruct (Z.ltb_spec (b2z x) (b2z y)), (Z.ltb_spec (b2z y) (b2z x)); try lia.
  apply IH.
Qed.

Lemma bytes_Compare_eq a : forall b, bytes_Compare a b = 0 -> a = b.
Proof.
  induction a as [|x a IH]; destruct b as [|y b]; simpl; try done.
  destruct (Z.ltb_spec (b2z x) (b2z y)), (Z.ltb_spec (b2z y) (b2z x)); try lia.
  intros Hc. f_equal; [apply b2z_inj; lia | by apply IH].
Qed.

(** [0 <= n <= 9] as an ASCII digit. *)
Definition is_digit (c : Ascii.ascii) : bool :=
  (48 <=? Ascii.nat_of_ascii c)%nat && (Ascii.nat_of_ascii c <=? 57)%nat.

Fixpoint all_digits (s : string) : bool :=
  match s with
  | EmptyString => true
  | String c s' => is_digit c && all_digits s'
  end.

Lemma all_digits_app s1 s2 : all_digits (s1 +:+ s2) = all_digits s1 && all_digits s2.
Proof. induction s1 as [|c s1 IH]; simpl; [done |]. rewrite IH. apply andb_assoc. Qed.

Lemma string_length_app s1 s2 :
  String.length (s1 +:+ s2) = (String.length s1 + String.length s2)%nat.
Proof. induction s1 as [|c s1 IH]; simpl; [done |]. by rewrite IH. Qed.

Lemma digits_pad_spec w : forall n,
  String.length (digits_pad w n) = w /\ all_digits (digits_pad w n) = true.
Proof.
  induction w as [|w IH]; intros n; [done |]. cbn [digits_pad].
  destruct (IH (n / 10)) as [Hl Hd].
  rewrite string_length_app, all_digits_app, Hl, Hd. split; [simpl; lia |].
  cbn [all_digits andb]. unfold is_digit.
  pose proof (Z.mod_pos_bound n 10 ltac:(lia)).
  rewrite Ascii.nat_ascii_embedding by lia.
  rewrite (proj2 (Nat.leb_le 48 _)), (proj2 (Nat.leb_le _ 57)) by lia. done.
Qed.

(** ** Lemmas: the channel *)

Section ChannelFacts.
Context {P : Primitives} {PL : PrimitivesLaws P}.

(** Both counters are [uint64] values. *)
Definition chan_ok (c : Channel) : Prop :=
  0 <= sendSeq c < 2 ^ 64 /\ 0 <= recvSeq c < 2 ^ 64.

(** The packet of sequence number [seq] under key [g]. *)
Definition packet (g : AEAD) (seq : Z) (pt : bytes) : bytes :=
  le_put 8 seq ++ Seal g (makeNonce (NonceSize g) seq) pt (le_put 8 seq).

Lemma Encrypt_packet c pt :
  Encrypt c pt = (set_sendSeq c (u64 (sendSeq c + 1)), packet (sendGCM c) (sendSeq c) pt).
Proof. done. Qed.

Lemma take_packet g seq pt : take 8 (packet g seq pt) = le_put 8 seq.
Proof. done. Qed.

Lemma drop_packet g seq pt :
  drop 8 (packet g seq pt) = Seal g (makeNonce (NonceSize g) seq) pt (le_put 8 seq).
Proof. done. Qed.

Lemma packet_seq_packet g seq pt : 0 <= seq < 2 ^ 64 -> packet_seq (packet g seq pt) = seq.
Proof.
  intros. unfold packet_seq. rewrite take_packet, le_get_put. apply Z.mod_small. done.
Qed.

Lemma len_packet g seq pt : len (packet g seq pt) = len pt + 24.
Proof. unfold packet, len. rewrite length_app, length_le_put, length_Seal. lia. Qed.

Lemma packet_seq_range data : 0 <= packet_seq data < 2 ^ 64.
Proof.
  unfold packet_seq. pose proof (le_get_bound (take 8 data)) as [H1 H2]. split; [done |].
  eapply Z.lt_le_trans; [apply H2 |]. apply Z.pow_le_mono_r; [lia |].
  rewrite length_take. lia.
Qed.

(** The outcome of [Decrypt] on a packet sealed under the receive key. *)
Lemma Decrypt_packet c seq pt :
  0 <= seq < 2 ^ 64 ->
  match mode c with
  | ModeStrict => seq = recvSeq c
  | ModeDatagrams => recvSeq c <= seq
  end ->
  Decrypt c (packet (recvGCM c) seq pt) = (set_recvSeq c (u64 (seq + 1)), Ok pt).
Proof.
  intros Hs Hm. unfold Decrypt.
  rewrite len_packet. pose proof (len_nonneg pt). rewrite (proj2 (Z.ltb_ge _ 8)) by lia.
  rewrite take_packet, drop_packet, le_get_put.
  rewrite (Z.mod_small seq) by done.
  destruct (mode c).
  - subst. rewrite Z.eqb_refl. simpl. by rewrite Open_Seal.
  - rewrite (proj2 (Z.ltb_ge _ _)) by done. simpl. by rewrite Open_Seal.
Qed.

(** The outcome of [Decrypt] on any input: a rejected packet leaves the
    channel as it was, an opened one moves the receive counter past it. *)
Lemma Decrypt_cases c data :
  (exists e, Decrypt c data = (c, Err e)) \/
  (match mode c with
   | ModeStrict => packet_seq data = recvSeq c
   | ModeDatagrams => recvSeq c <= packet_seq data
   end /\ 8 <= len data /\
   Decrypt c data =
     (set_recvSeq c (u64 (packet_seq data + 1)),
      Open (recvGCM c) (makeNonce (NonceSize (recvGCM c)) (packet_seq data))
        (drop 8 data) (take 8 data))).
Proof.
  unfold Decrypt, packet_seq.
  destruct (Z.ltb_spec (len data) 8); [left; eauto |].
  destruct (mode c).
  - destruct (Z.eqb_spec (le_get (take 8 data)) (recvSeq c)) as [He|]; [right | left; eauto].
    rewrite <-He. done.
  - destruct (Z.ltb_spec (le_get (take 8 data)) (recvSeq c)); [left; eauto | right].
    done.
Qed.

(** In datagram mode any packet from the counter on moves the counter. *)
Lemma Decrypt_datagram_step c data :
  mode c = ModeDatagrams -> 8 <= len data -> recvSeq c <= packet_seq data ->
  (Decrypt c data).1 = set_recvSeq c (u64 (packet_seq data + 1)).
Proof.
  intros Hm Hl Hr. unfold Decrypt, packet_seq in *.
  rewrite (proj2 (Z.ltb_ge _ 8)), Hm, (proj2 (Z.ltb_ge _ _)) by done. done.
Qed.

Lemma Decrypt_chan_ok c data : chan_ok c -> chan_ok (Decrypt c data).1.
Proof.
  intros [Hs Hr]. destruct (Decrypt_cases c data) as [[e ->] | (_ & _ & ->)]; [done |].
  split; [done | apply u64_range].
Qed.

Lemma Decrypt_mode c data : mode (Decrypt c data).1 = mode c.
Proof. by destruct (Decrypt_cases c data) as [[e ->] | (_ & _ & ->)]. Qed.

Lemma Decrypt_recvGCM c data : recvGCM (Decrypt c data).1 = recvGCM c.
Proof. by destruct (Decrypt_cases c data) as [[e ->] | (_ & _ & ->)]. Qed.

(** An accepted packet is one the peer's [Encrypt] would produce: it is the
    packet of its sequence number under the receive key. *)
Lemma Decrypt_authentic c data c' pt :
  Decrypt c data = (c', Ok pt) -> data = packet (recvGCM c) (packet_seq data) pt.
Proof.
  destruct (Decrypt_cases c data) as [[e ->] | (_ & Hlen & ->)]; [done |].
  intros [= _ Ho]. apply Seal_Open in Ho.
  assert (Hput : le_put 8 (packet_seq data) = take 8 data).
  { unfold packet_seq.
    assert (H8 : length (take 8 data) = 8%nat) by (unfold len in Hlen; rewrite length_take; lia).
    rewrite <-H8 at 1. apply le_put_get. }
  unfold packet. rewrite Hput, <-Ho. by rewrite take_drop.
Qed.

Lemma EncryptAll_cons c pt pts :
  EncryptAll c (pt :: pts) =
    ((EncryptAll (set_sendSeq c (u64 (sendSeq c + 1))) pts).1,
     packet (sendGCM c) (sendSeq c) pt ::
     (EncryptAll (set_sendSeq c (u64 (sendSeq c + 1))) pts).2).
Proof. cbn [EncryptAll]. rewrite Encrypt_packet. by destruct (EncryptAll _ _). Qed.

Lemma DecryptAll_cons c ct cts :
  DecryptAll c (ct :: cts) =
    ((DecryptAll (Decrypt c ct).1 cts).1,
     (Decrypt c ct).2 :: (DecryptAll (Decrypt c ct).1 cts).2).
Proof. cbn [DecryptAll]. destruct (Decrypt c ct). simpl. by destruct (DecryptAll _ _). Qed.

Lemma u64_add_l a b : u64 (u64 a + b) = u64 (a + b).
Proof. unfold u64. apply Z.add_mod_idemp_l. lia. Qed.

(** The [i]-th packet carries the [i]-th sequence number, modulo 2^64. *)
Lemma EncryptAll_lookup pts : forall c i ct,
  0 <= sendSeq c < 2 ^ 64 -> (EncryptAll c pts).2 !! i = Some ct ->
  packet_seq ct = u64 (sendSeq c + Z.of_nat i).
Proof.
  induction pts as [|pt pts IH]; intros c i ct Hc; [done |].
  rewrite EncryptAll_cons. destruct i as [|i]; simpl.
  - intros [= <-]. rewrite packet_seq_packet by done.
    rewrite Z.add_0_r, u64_small by done. done.
  - intros Hl. apply IH in Hl; [| apply u64_range]. rewrite Hl. simpl.
    rewrite u64_add_l. f_equal. lia.
Qed.

Lemma length_EncryptAll pts : forall c, length (EncryptAll c pts).2 = length pts.
Proof. induction pts; intros c; [done |]. rewrite EncryptAll_cons. simpl. by f_equal. Qed.

Lemma u64_distinct a i j :
  Z.abs (i - j) < 2 ^ 64 -> u64 (a + i) = u64 (a + j) -> i = j.
Proof.
  unfold u64. intros Hd He.
  assert (Hm : (i - j) mod 2 ^ 64 = 0).
  { replace (i - j) with ((a + i) - (a + j)) by lia.
    rewrite Zminus_mod, He, Z.sub_diag. done. }
  apply Z.mod_divide in Hm as [k Hk]; lia.
Qed.

Lemma strict_run pts : forall s r,
  0 <= sendSeq s < 2 ^ 64 -> recvGCM r = sendGCM s -> recvSeq r = sendSeq s ->
  mode r = ModeStrict ->
  (DecryptAll r (EncryptAll s pts).2).2 = map Ok pts.
Proof.
  induction pts as [|pt pts IH]; intros s r Hs Hk Hq Hm; [done |].
  rewrite EncryptAll_cons. cbn [snd]. rewrite DecryptAll_cons.
  rewrite <-Hk, Decrypt_packet by (rewrite ?Hm; done). simpl. f_equal.
  apply IH; simpl; [apply u64_range | done | done | done].
Qed.

Lemma lossy_run pts : forall s r sel,
  0 <= sendSeq s -> sendSeq s + len pts < 2 ^ 64 ->
  recvGCM r = sendGCM s -> 0 <= recvSeq r <= sendSeq s -> mode r = ModeDatagrams ->
  sel `sublist_of` zip pts (EncryptAll s pts).2 ->
  (DecryptAll r (map snd sel)).2 = map (fun p => Ok p.1) sel.
Proof.
  induction pts as [|pt pts IH]; intros s r sel Hs Hb Hk Hr Hm Hsub.
  { apply sublist_nil_r in Hsub. by subst. }
  rewrite EncryptAll_cons in Hsub. rewrite len_cons in Hb.
  pose proof (len_nonneg pts).
  rewrite u64_small in Hsub by lia. simpl in Hsub.
  apply sublist_cons_r in Hsub as [Hsub | (sel' & -> & Hsub)].
  - eapply IH; [..| exact Hsub]; simpl; try done; lia.
  - cbn [map snd fst]. rewrite DecryptAll_cons.
    rewrite <-Hk, Decrypt_packet by (rewrite ?Hm; lia). cbn [fst snd]. f_equal.
    eapply IH; [..| exact Hsub]; simpl; try done; rewrite ?u64_small; lia.
Qed.
End ChannelFacts.

Section Replay.
Context {P : Primitives} {PL : PrimitivesLaws P}.

(** The sequence numbers of the packets of [cts] that [Decrypt] returns
    successfully, in the order they are processed. *)
Fixpoint accepted_seqs (c : Channel) (cts : list bytes) : list Z :=
  match cts with
  | [] => []
  | ct :: cts' =>
      let '(c', r) := Decrypt c ct in
      (if is_ok r then [packet_seq ct] else []) ++ accepted_seqs c' cts'
  end.

(** Whatever packets arrive, the accepted ones have increasing sequence
    numbers from the receive counter on, as long as the counter cannot wrap. *)
Lemma accepted_seqs_bound cts : forall c,
  match mode c with
  | ModeStrict => recvSeq c + len cts < 2 ^ 64
  | ModeDatagrams => Forall (fun ct => packet_seq ct < 2 ^ 64 - 1) cts
  end ->
  Forall (fun s => recvSeq c <= s) (accepted_seqs c cts) /\
  StronglySorted Z.lt (accepted_seqs c cts).
Proof.
  induction cts as [|ct cts IH]; intros c Hb; [split; constructor |].
  cbn [accepted_seqs]. pose proof (packet_seq_range ct) as Hrange.
  assert (Hlen : match mode c with ModeStrict => recvSeq c + 1 + len cts < 2 ^ 64
                 | ModeDatagrams => packet_seq ct < 2 ^ 64 - 1 /\
                     Forall (fun ct => packet_seq ct < 2 ^ 64 - 1) cts end).
  { destruct (mode c); [rewrite len_cons in Hb; lia | by apply Forall_cons in Hb]. }
  pose proof (len_nonneg cts).
  destruct (Decrypt_cases c ct) as [[e ->] | (Hseq & _ & ->)].
  - simpl. apply IH. destruct (mode c); [lia | apply Hlen].
  - destruct (IH (set_recvSeq c (u64 (packet_seq ct + 1)))) as [Hlo Hss].
    { simpl. destruct (mode c); [rewrite u64_small; lia | apply Hlen]. }
    simpl in Hlo. rewrite u64_small in Hlo by (destruct (mode c); lia).
    assert (Hle : recvSeq c <= packet_seq ct) by (destruct (mode c); lia).
    rewrite u64_small in * by (destruct (mode c); lia).
    destruct (is_ok _); simpl.
    + split; constructor; try done.
      * eapply Forall_impl; [exact Hlo | simpl; lia].
      * eapply Forall_impl; [exact Hlo | simpl; lia].
    + split; [eapply Forall_impl; [exact Hlo | simpl; lia] | done].
Qed.

(** ** Lemmas: key agreement *)

Lemma NewChannel_ok k1 k2 :
  length k1 = 32%nat -> length k2 = 32%nat ->
  exists g1 g2, NewGCM k1 = Ok g1 /\ NewGCM k2 = Ok g2 /\
    NewChannel k1 k2 = Ok {| sendGCM := g1; recvGCM := g2; sendSeq := 0; recvSeq := 0;
                             mode := ModeStrict |}.
Proof.
  intros H1 H2. destruct (NewGCM_ok k1 H1) as [g1 E1], (NewGCM_ok k2 H2) as [g2 E2].
  exists g1, g2. split_and!; [done.. |]. unfold NewChannel. by rewrite E1, E2.
Qed.

(** Two channels that talk to each other: each sends under the key the other
    receives with, from equal counters, in strict mode. *)
Definition peered (a b : Channel) : Prop :=
  recvGCM b = sendGCM a /\ recvGCM a = sendGCM b /\
  sendSeq a = 0 /\ sendSeq b = 0 /\ recvSeq a = 0 /\ recvSeq b = 0 /\
  mode a = ModeStrict /\ mode b = ModeStrict.

Lemma peered_sym a b : peered a b -> peered b a.
Proof. unfold peered. intros (? & ? & ? & ? & ? & ? & ? & ?). by split_and!. Qed.

Lemma peered_delivers a b pts :
  peered a b -> (DecryptAll b (EncryptAll a pts).2).2 = map Ok pts.
Proof.
  intros (Hk & _ & Hs & _ & _ & Hr & _ & Hm). apply strict_run; try done; rewrite ?Hs, ?Hr; done.
Qed.

Lemma DeriveSessionKey_ok priv pub shared info :
  ECDH priv pub = Ok shared ->
  exists key, hkdfDerive shared info = Ok key /\
    DeriveSessionKey priv pub info = Ok key /\ length key = 32%nat.
Proof.
  intros E. destruct (hkdf_ok shared info 32 ltac:(lia)) as (key & Hk & Hl).
  exists key. unfold DeriveSessionKey. rewrite E. done.
Qed.

Lemma DeriveChannel_peered (a b : PrivateKey) idA urlA idB urlB info1 info2 salt shared :
  ECDH a (priv_public b) = Ok shared ->
  len salt = 0 \/ len salt = SessionSaltLen ->
  exists chA chB,
    DeriveChannel (NewPairingRecord idA urlA {| Private := a; Public := priv_public a |}
                     (priv_public b)) info1 info2 salt = Ok chA /\
    DeriveChannel (NewPairingRecord idB urlB {| Private := b; Public := priv_public b |}
                     (priv_public a)) info2 info1 salt = Ok chB /\
    peered chA chB.
Proof.
  intros Hdh Hsalt.
  assert (Hg : negb (len salt =? 0) && negb (len salt =? SessionSaltLen) = false).
  { destruct Hsalt as [-> | ->]; done. }
  destruct (DeriveSessionKey_ok a (priv_public b) shared (info1 ++ salt) Hdh)
    as (k1 & Hk1 & Ha1 & Hl1).
  destruct (DeriveSessionKey_ok a (priv_public b) shared (info2 ++ salt) Hdh)
    as (k2 & Hk2 & Ha2 & Hl2).
  assert (Hdb : ECDH b (priv_public a) = Ok shared) by (by rewrite ECDH_comm).
  destruct (NewChannel_ok k1 k2 Hl1 Hl2) as (g1 & g2 & E1 & E2 & Hc).
  destruct (NewChannel_ok k2 k1 Hl2 Hl1) as (g2' & g1' & E2' & E1' & Hc').
  rewrite E1 in E1'. rewrite E2 in E2'. injection E1' as <-. injection E2' as <-.
  exists {| sendGCM := g1; recvGCM := g2; sendSeq := 0; recvSeq := 0; mode := ModeStrict |},
         {| sendGCM := g2; recvGCM := g1; sendSeq := 0; recvSeq := 0; mode := ModeStrict |}.
  unfold DeriveChannel. rewrite Hg. cbn [NewPairingRecord LocalPrivateKey PeerPublicKey Private].
  rewrite !NewPrivateKey_bytes, !NewPublicKey_bytes. cbn [rwrap rbind].
  rewrite Ha1, Ha2. unfold DeriveSessionKey. rewrite Hdb. cbn [rwrap rbind].
  rewrite Hk1, Hk2. cbn [rwrap rbind]. rewrite Hc, Hc'. done.
Qed.

Lemma NewSymmetricChannel_peered key :
  exists chS chC, NewSymmetricChannel key true = Ok chS /\
    NewSymmetricChannel key false = Ok chC /\ peered chS chC.
Proof.
  unfold NewSymmetricChannel, hkdfDerive.
  destruct (hkdf_ok key (str_bytes "client-to-server") 32 ltac:(lia)) as (k1 & -> & Hl1).
  destruct (hkdf_ok key (str_bytes "server-to-client") 32 ltac:(lia)) as (k2 & -> & Hl2).
  cbn [rbind].
  destruct (NewChannel_ok k1 k2 Hl1 Hl2) as (g1 & g2 & E1 & E2 & ->).
  destruct (NewChannel_ok k2 k1 Hl2 Hl1) as (g2' & g1' & E2' & E1' & ->).
  rewrite E1 in E1'. rewrite E2 in E2'. injection E1' as <-. injection E2' as <-.
  eexists _, _. by split_and!.
Qed.
End Replay.

(** ** A concrete instance of the primitives

    Keys are byte strings, the exchange adds them bytewise, the hash keeps a
    prefix padded to 32 bytes, and the AEAD appends a 16-byte keyed tag over
    the nonce, the additional data and the plaintext.  It satisfies every law
    of [PrimitivesLaws] (it is of course not secure). *)

Definition pad (n : nat) (b : bytes) : bytes := take n b ++ replicate (n - length b) x00.

Lemma length_pad n b : length (pad n b) = n.
Proof. unfold pad. rewrite length_app, length_take, length_replicate. lia. Qed.

Definition toy_add (a b : bytes) : bytes :=
  map (fun p => z2b (b2z p.1 + b2z p.2)) (zip a b).

Definition toy_sum (l : bytes) : Z := fold_right (fun b acc => b2z b + acc) 0 l.

Definition toy_tag (key nonce ad pt : bytes) : bytes :=
  be_put 16 (toy_sum (key ++ nonce ++ ad ++ pt)).

Definition toy_seal (key nonce pt ad : bytes) : bytes := pt ++ toy_tag key nonce ad pt.

Definition toy_open (key nonce ct ad : bytes) : result bytes :=
  if (length ct <? 16)%nat then Err (ENew "cipher: message authentication failed") else
  let pt := take (length ct - 16) ct in
  if bool_decide (drop (length ct - 16) ct = toy_tag key nonce ad pt) then Ok pt
  else Err (ENew "cipher: message authentication failed").

(** HMAC and HKDF by its first block. *)
Definition toy_hmac (key msg : bytes) : bytes := pad 32 (msg ++ key).
Definition toy_hkdf (ikm info : bytes) : bytes := toy_hmac (toy_hmac (replicate 32 x00) ikm) (info ++ [x01]).

Definition toy : Primitives := {|
  PrivateKey := bytes;
  PublicKey := bytes;
  priv_public k := k;
  priv_bytes k := k;
  pub_bytes k := k;
  NewPrivateKey b := Ok b;
  NewPublicKey b := Ok b;
  ECDH a b := Ok (toy_add a b);
  hkdf_read ikm info n :=
    if (n <=? 255 * 32)%nat then Ok (pad n (toy_hkdf ikm info)) else Err (ENew "hkdf: entropy limit reached");
  sha256 b := pad 32 b;
  AEAD := bytes;
  NewGCM k := if (length k =? 32)%nat then Ok k else Err (ENew "crypto/aes: invalid key size");
  NonceSize _ := 12%nat;
  Seal := toy_seal;
  Open := toy_open
|}.

Lemma toy_add_comm a : forall b, toy_add a b = toy_add b a.
Proof.
  unfold toy_add. induction a as [|x a IH]; intros [|y b]; simpl; try done.
  rewrite Z.add_comm. f_equal. apply IH.
Qed.

Lemma length_toy_seal k n p a : length (toy_seal k n p a) = (length p + 16)%nat.
Proof. unfold toy_seal, toy_tag. rewrite length_app, length_be_put. lia. Qed.

Lemma toy_open_seal k n p a : toy_open k n (toy_seal k n p a) a = Ok p.
Proof.
  unfold toy_open. rewrite length_toy_seal.
  rewrite (proj2 (Nat.ltb_ge _ 16)) by lia.
  replace (length p + 16 - 16)%nat with (length p) by lia.
  unfold toy_seal. rewrite take_app_length, drop_app_length.
  by rewrite bool_decide_true.
Qed.

Lemma toy_seal_open k n c a p : toy_open k n c a = Ok p -> c = toy_seal k n p a.
Proof.
  unfold toy_open, toy_seal. destruct (_ <? _)%nat; [done |].
  case_bool_decide as Hd; [| done]. intros [= <-].
  rewrite <-Hd. by rewrite take_drop.
Qed.

#[export] Instance toy_laws : PrimitivesLaws toy.
Proof.
  split; try done.
  - intros a b. simpl. by rewrite toy_add_comm.
  - intros ikm info n Hn. simpl. rewrite (proj2 (Nat.leb_le _ _)) by done.
    eexists. split; [done |]. apply length_pad.
  - intros key Hk. simpl. rewrite Hk. by exists key.
  - apply toy_open_seal.
  - apply toy_seal_open.
  - apply length_toy_seal.
Qed.

(** ** Properties *)

Section Properties.
Context {P : Primitives} {PL : PrimitivesLaws P}.

(** Strict mode delivers a reliable stream exactly: whatever one side
    encrypts, in order, the other side decrypts to the same plaintexts in the
    same order, from any common counter value (the counters wrap together). *)
Theorem strict_channel_delivers (s r : Channel) (pts : list bytes) :
  chan_ok s -> recvGCM r = sendGCM s -> recvSeq r = sendSeq s -> mode r = ModeStrict ->
  (DecryptAll r (EncryptAll s pts).2).2 = map Ok pts.
Proof. intros [Hs _] Hk Hq Hm. by apply strict_run. Qed.

(** Datagram mode tolerates loss: any subsequence of the packets a
    sender produced decrypts, in order, to exactly the plaintexts of those
    packets, as long as the 64-bit counter does not run out. *)
Theorem datagram_channel_tolerates_loss (s r : Channel) (pts : list bytes)
    (sel : list (bytes * bytes)) :
  0 <= sendSeq s -> sendSeq s + len pts < 2 ^ 64 ->
  recvGCM r = sendGCM s -> 0 <= recvSeq r <= sendSeq s -> mode r = ModeDatagrams ->
  sel `sublist_of` zip pts (EncryptAll s pts).2 ->
  (DecryptAll r (map snd sel)).2 = map (fun p => Ok p.1) sel.
Proof. apply lossy_run. Qed.

(** Replay protection, in both modes and for arbitrary (also forged)
    input: the packets [Decrypt] accepts carry strictly increasing sequence
    numbers, none below the receive counter, provided the counter cannot
    wrap: in strict mode fewer packets than counter values left, in datagram
    mode no packet numbered 2^64 - 1. *)
Theorem accepted_packets_strictly_increase (c : Channel) (cts : list bytes) :
  match mode c with
  | ModeStrict => recvSeq c + len cts < 2 ^ 64
  | ModeDatagrams => Forall (fun ct => packet_seq ct < 2 ^ 64 - 1) cts
  end ->
  StronglySorted Z.lt (accepted_seqs c cts) /\
  Forall (fun s => recvSeq c <= s) (accepted_seqs c cts).
Proof. intros H. by destruct (accepted_seqs_bound cts c H). Qed.

(** The proviso is needed: in datagram mode a packet numbered 2^64 - 1
    moves the counter to zero before its tag is checked, so after an
    accepted packet, one forged packet (any bytes after the prefix) makes
    the channel accept the same packet again. *)
Theorem forged_datagram_reenables_replay (r : Channel) (data junk : bytes) (pt : bytes) :
  chan_ok r -> mode r = ModeDatagrams -> (Decrypt r data).2 = Ok pt ->
  (Decrypt (Decrypt (Decrypt r data).1 (replicate 8 xff ++ junk)).1 data).2 = Ok pt.
Proof.
  intros Hok Hm Hd.
  assert (Hauth : data = packet (recvGCM r) (packet_seq data) pt).
  { eapply (Decrypt_authentic r data (Decrypt r data).1). rewrite <-Hd. by destruct (Decrypt r data). }
  pose proof (Decrypt_mode r data) as Hm1. pose proof (Decrypt_recvGCM r data) as Hk1.
  destruct (Decrypt_chan_ok r data Hok) as [_ Hb1]. rewrite Hm in Hm1.
  set (r1 := (Decrypt r data).1) in *. set (forged := replicate 8 xff ++ junk).
  assert (Hq : packet_seq forged = 2 ^ 64 - 1) by done.
  assert (Hlen : 8 <= len forged).
  { unfold forged. rewrite len_app. pose proof (len_nonneg junk).
    change (len (replicate 8 xff)) with 8. lia. }
  rewrite Decrypt_datagram_step by (rewrite ?Hq; done || lia). rewrite Hq.
  change (u64 (2 ^ 64 - 1 + 1)) with 0.
  rewrite Hauth, <-Hk1. change (recvGCM r1) with (recvGCM (set_recvSeq r1 0)).
  pose proof (packet_seq_range data).
  rewrite Decrypt_packet; [done | done |]. simpl. rewrite Hm1. lia.
Qed.

(** The nonce under which a packet is sealed. *)
Definition packet_nonce (g : AEAD) (ct : bytes) : bytes := makeNonce (NonceSize g) (packet_seq ct).

(** No nonce repeats under one key: the packets of up to 2^64 [Encrypt]
    calls are sealed under pairwise different nonces. *)
Theorem nonces_never_repeat (c : Channel) (pts : list bytes) :
  chan_ok c -> len pts <= 2 ^ 64 ->
  NoDup (packet_nonce (sendGCM c) <$> (EncryptAll c pts).2).
Proof.
  intros [Hs _] Hlen. apply NoDup_alt. intros i j n Hi Hj.
  apply list_lookup_fmap_Some in Hi as (ct1 & -> & Hi).
  apply list_lookup_fmap_Some in Hj as (ct2 & He & Hj).
  pose proof (lookup_lt_Some _ _ _ Hi) as Hil. pose proof (lookup_lt_Some _ _ _ Hj) as Hjl.
  rewrite length_EncryptAll in Hil, Hjl. unfold len in Hlen.
  unfold packet_nonce, makeNonce in He. apply app_inj_1 in He as [He _]; [| done].
  apply (f_equal le_get) in He. rewrite !le_get_put in He.
  rewrite !Z.mod_small in He by apply packet_seq_range.
  apply EncryptAll_lookup in Hi, Hj; [| done..]. rewrite Hi, Hj in He.
  apply u64_distinct in He; lia.
Qed.

(** Reconnecting from the records of one pairing agrees on keys: when
    the two records hold matching X25519 keys and both sides use the same
    16-byte (or empty) salt with swapped labels, [DeriveChannel] succeeds on
    both sides and the channels carry any traffic correctly both ways. *)
Theorem paired_records_interoperate (a b : PrivateKey) idA urlA idB urlB info1 info2 salt shared
    (ptsA ptsB : list bytes) :
  ECDH a (priv_public b) = Ok shared ->
  len salt = 0 \/ len salt = SessionSaltLen ->
  exists chA chB,
    DeriveChannel (NewPairingRecord idA urlA {| Private := a; Public := priv_public a |}
                     (priv_public b)) info1 info2 salt = Ok chA /\
    DeriveChannel (NewPairingRecord idB urlB {| Private := b; Public := priv_public b |}
                     (priv_public a)) info2 info1 salt = Ok chB /\
    (DecryptAll chB (EncryptAll chA ptsA).2).2 = map Ok ptsA /\
    (DecryptAll chA (EncryptAll chB ptsB).2).2 = map Ok ptsB.
Proof.
  intros Hdh Hsalt.
  destruct (DeriveChannel_peered a b idA urlA idB urlB info1 info2 salt shared Hdh Hsalt)
    as (chA & chB & HA & HB & Hp).
  exists chA, chB. split_and!; auto using peered_delivers, peered_sym.
Qed.

(** The client and the server channel of one persistent key ([NewSymmetricChannel])
    exist for every key and carry any traffic correctly both ways. *)
Theorem symmetric_channels_interoperate (key : bytes) (ptsS ptsC : list bytes) :
  exists chS chC,
    NewSymmetricChannel key true = Ok chS /\ NewSymmetricChannel key false = Ok chC /\
    (DecryptAll chC (EncryptAll chS ptsS).2).2 = map Ok ptsS /\
    (DecryptAll chS (EncryptAll chC ptsC).2).2 = map Ok ptsC.
Proof.
  destruct (NewSymmetricChannel_peered key) as (chS & chC & HS & HC & Hp).
  exists chS, chC. split_and!; auto using peered_delivers, peered_sym.
Qed.

(** Both ends of a key exchange show the same confirmation code, and it
    is always six decimal digits: the derivation succeeds, does not depend on
    the order of the keys, and formats as six digits. *)
Theorem confirmation_code_agrees (pubA pubB : PublicKey) :
  exists code, DeriveConfirmationCode pubA pubB = Ok code /\
    DeriveConfirmationCode pubB pubA = Ok code /\
    String.length code = 6%nat /\ all_digits code = true.
Proof.
  assert (Hsym : DeriveConfirmationCode pubA pubB = DeriveConfirmationCode pubB pubA).
  { unfold DeriveConfirmationCode.
    rewrite (bytes_Compare_antisym (pub_bytes pubA) (pub_bytes pubB)).
    pose proof (bytes_Compare_eq (pub_bytes pubA) (pub_bytes pubB)) as He.
    destruct (Z.ltb_spec 0 (bytes_Compare (pub_bytes pubA) (pub_bytes pubB))),
      (Z.ltb_spec 0 (- bytes_Compare (pub_bytes pubA) (pub_bytes pubB))); try done; try lia.
    rewrite He by lia. done. }
  rewrite <-Hsym. unfold DeriveConfirmationCode. destruct (if _ : bool then _ else _) as [a b].
  destruct (hkdf_ok (a ++ b) (str_bytes "pairing-confirmation") 4 ltac:(lia)) as (buf & -> & _).
  cbn [rbind]. eexists. split; [done |]. split; [done |]. apply digits_pad_spec.
Qed.

(** The SAS commitment opens to the committed values and binds them: an
    honest opening verifies, and two different openings of one commitment
    are a SHA-256 collision on inputs the two openings determine. *)
Theorem sas_commitment_binds (e1 b1 e2 b2 commit : bytes) :
  (forall m, length (sha256 m) = 32%nat) ->
  (len e1 = 32 -> len b1 = 32 ->
   exists c, SASCommit e1 b1 = Ok c /\ SASCommitVerify e1 b1 c = true) /\
  (SASCommitVerify e1 b1 commit = true -> SASCommitVerify e2 b2 commit = true ->
   (e1, b1) <> (e2, b2) ->
   exists m1 m2, m1 <> m2 /\ sha256 m1 = sha256 m2 /\
     m1 = str_bytes sasCommitTag ++ e1 ++ b1 /\ m2 = str_bytes sasCommitTag ++ e2 ++ b2).
Proof.
  intros Hsha. split.
  - intros He Hb. unfold SASCommitVerify, SASCommit. rewrite He, Hb. simpl.
    eexists. split; [done |]. unfold len. rewrite Hsha. simpl. by apply bool_decide_eq_true.
  - unfold SASCommitVerify, SASCommit, ConstantTimeCompare.
    destruct (Z.eqb_spec (len e1) 32), (Z.eqb_spec (len b1) 32); try done.
    destruct (Z.eqb_spec (len e2) 32), (Z.eqb_spec (len b2) 32); try done.
    cbn [negb orb]. destruct (negb (len commit =? 32)); [done |].
    intros H1 H2 Hne. bool_hyps.
    eexists _, _. split; [| split; [by rewrite H1, H2 | done]].
    intros Hm. apply app_inv_head in Hm.
    apply app_inj_1 in Hm as [-> ->]; [done |]. unfold len in *. lia.
Qed.
End Properties.

(** ** Witnesses *)

Definition key1 : bytes := replicate 32 x01.
Definition key2 : bytes := replicate 32 x02.

(** A sender and a receiver under the toy primitives. *)
Definition alice : @Channel toy :=
  {| sendGCM := key1 : @AEAD toy; recvGCM := key2 : @AEAD toy; sendSeq := 5; recvSeq := 0;
     mode := ModeStrict |}.
Definition bob (m : ChannelMode) : @Channel toy :=
  {| sendGCM := key2 : @AEAD toy; recvGCM := key1 : @AEAD toy; sendSeq := 0; recvSeq := 5;
     mode := m |}.

Lemma strict_channel_delivers_witness :
  (DecryptAll (bob ModeStrict) (EncryptAll alice [[x41]; [x42]]).2).2 = [Ok [x41]; Ok [x42]].
Proof.
  apply (strict_channel_delivers (P := toy) alice (bob ModeStrict) [[x41]; [x42]]);
    [split; simpl; lia | done | done | done].
Defined.

Lemma datagram_channel_tolerates_loss_witness :
  let cts := (EncryptAll alice [[x41]; [x42]; [x43]]).2 in
  (DecryptAll (bob ModeDatagrams) (map snd [([x43], default [] (cts !! 2%nat))])).2 = [Ok [x43]].
Proof.
  apply (datagram_channel_tolerates_loss (P := toy) alice (bob ModeDatagrams)
           [[x41]; [x42]; [x43]] [([x43], default [] ((EncryptAll alice [[x41]; [x42]; [x43]]).2 !! 2%nat))]);
    [simpl; lia | vm_compute; done | done | simpl; lia | done |].
  simpl. do 2 apply sublist_cons. apply sublist_skip, sublist_nil_l.
Defined.

Lemma accepted_packets_strictly_increase_witness :
  let cts := (EncryptAll alice [[x41]; [x42]]).2 in
  accepted_seqs (bob ModeDatagrams) (cts ++ cts) = [5; 6] /\
  StronglySorted Z.lt (accepted_seqs (bob ModeDatagrams) (cts ++ cts)).
Proof.
  split; [vm_compute; done |].
  apply (accepted_packets_strictly_increase (P := toy) (bob ModeDatagrams)).
  simpl. repeat constructor; vm_compute; done.
Defined.

Lemma forged_datagram_reenables_replay_witness :
  let data := (Encrypt alice [x41]).2 in
  (Decrypt (Decrypt (Decrypt (bob ModeDatagrams) data).1 (replicate 8 xff ++ [x00])).1 data).2
    = Ok [x41].
Proof.
  apply (forged_datagram_reenables_replay (P := toy)); [split; simpl; lia | done | vm_compute; done].
Defined.

Lemma nonces_never_repeat_witness :
  NoDup (packet_nonce (sendGCM alice) <$> (EncryptAll alice [[x41]; [x42]]).2).
Proof. apply (nonces_never_repeat (P := toy)); [split; simpl; lia | vm_compute; done]. Defined.

Definition toy_record (id : string) (k peer : bytes) : PairingRecord :=
  @NewPairingRecord toy id "r" (@Build_KeyPair toy k k) peer.

Lemma paired_records_interoperate_witness :
  exists chA chB : @Channel toy,
    DeriveChannel (toy_record "a" key1 key2) [x01] [x02] (replicate 16 x07) = Ok chA /\
    DeriveChannel (toy_record "b" key2 key1) [x02] [x01] (replicate 16 x07) = Ok chB /\
    (DecryptAll chB (EncryptAll chA [[x41]]).2).2 = [Ok [x41]] /\
    (DecryptAll chA (EncryptAll chB [[x42]]).2).2 = [Ok [x42]].
Proof.
  apply (paired_records_interoperate (P := toy) key1 key2 "a" "r" "b" "r" [x01] [x02]
           (replicate 16 x07) (toy_add key1 key2) [[x41]] [[x42]]); [done | by right].
Defined.

Lemma sas_commitment_binds_witness :
  exists c, SASCommit (P := toy) key1 key2 = Ok c /\ SASCommitVerify (P := toy) key1 key2 c = true.
Proof.
  apply (sas_commitment_binds (P := toy) key1 key2 key1 key2 []);
    [intros m; apply length_pad | done | done].
Defined.

Lemma symmetric_channels_interoperate_witness :
  exists chS chC : @Channel toy,
    NewSymmetricChannel key1 true = Ok chS /\ NewSymmetricChannel key1 false = Ok chC /\
    (DecryptAll chC (EncryptAll chS [[x41]]).2).2 = [Ok [x41]] /\
    (DecryptAll chS (EncryptAll chC [[x42]]).2).2 = [Ok [x42]].
Proof. apply (symmetric_channels_interoperate (P := toy) key1 [[x41]] [[x42]]). Defined.

Lemma confirmation_code_agrees_witness :
  exists code, DeriveConfirmationCode (P := toy) key1 key2 = Ok code /\
    DeriveConfirmationCode (P := toy) key2 key1 = Ok code /\
    String.length code = 6%nat /\ all_digits code = true.
Proof. apply (confirmation_code_agrees (P := toy) key1 key2). Defined.
