(* ===== verification/Cwire.v ===== *)
(** * Cwire: the AEAD channels and keys of a session (cwire/, c/src/crypto.c)

    A session encrypts with [cwire.Channel], a wrapper over libpigeon's
    [pigeon_channel], under keys derived by [DeriveSessionMaterial] and
    expanded per stream name.  Here are the Go wrappers together with the C
    functions they call, both from the source; what libsodium computes is the
    class [Sodium] over the primitives of [Channel].  The theorems relate the
    channels to those of the crypto package and connect the two ends of a
    session. *)

From Stdlib Require Import ZArith Lia Sorted Strings.Byte Strings.String.
From stdpp Require Import base gmap strings list fin_maps.
From S2P Require Import Prelude Binary WireTargets Channel.

Open Scope Z_scope.

(** ** libsodium *)

(** HMAC-SHA256, and whether the processor has the instructions that
    libsodium's AES-256-GCM needs. *)
Class Sodium (P : Primitives) := {
  hmacsha256 : bytes -> bytes -> bytes;
  aes256gcm_is_available : bool
}.

(** HMAC-SHA256 yields 32 bytes; HKDF-SHA256 without a salt is built from it as
    RFC 5869 says (one block of output); and the processor has the
    instructions, without which every call fails. *)
Class SodiumLaws {P : Primitives} (S : Sodium P) := {
  length_hmac k m : length (hmacsha256 k m) = 32%nat;
  hkdf_rfc5869 ikm info n : (n <= 32)%nat ->
    hkdf_read ikm info n = Ok (take n (hmacsha256 (hmacsha256 (replicate 32 x00) ikm) (info ++ [x01])));
  aes_available : aes256gcm_is_available = true
}.

Section Cwire.
Context {P : Primitives} {So : Sodium P}.

(** [crypto_scalarmult]: X25519 of two 32-byte strings. *)
Definition crypto_scalarmult (private public : bytes) : option bytes :=
  match NewPrivateKey private, NewPublicKey public with
  | Ok a, Ok b => match ECDH a b with Ok shared => Some shared | Err _ => None end
  | _, _ => None
  end.

Definition crypto_aead_aes256gcm_encrypt (key nonce plaintext ad : bytes) : option bytes :=
  if aes256gcm_is_available then
    match NewGCM key with Ok g => Some (Seal g nonce plaintext ad) | Err _ => None end
  else None.
Definition crypto_aead_aes256gcm_decrypt (key nonce ciphertext ad : bytes) : option bytes :=
  if aes256gcm_is_available then
    match NewGCM key with
    | Ok g => match Open g nonce ciphertext ad with Ok pt => Some pt | Err _ => None end
    | Err _ => None
    end
  else None.

(** ** libpigeon's crypto.c: [None] is a return of -1 *)

Definition hkdf_sha256 (ikm info : bytes) (out_len : Z) : option bytes :=
  let prk := hmacsha256 (replicate 32 x00) ikm in
  if 32 <? out_len then None
  else if 255 <? len info then None
  else Some (hmacsha256 prk (info ++ [x01])).

Definition pigeon_derive_session_key (private_key peer_public_key info : bytes) : option bytes :=
  match crypto_scalarmult private_key peer_public_key with
  | None => None
  | Some shared => hkdf_sha256 shared info 32
  end.

Definition pigeon_diversify_key (base_key info : bytes) : option bytes := hkdf_sha256 base_key info 32.

Definition pigeon_derive_confirmation_code (pub_a pub_b : bytes) : option string :=
  let ikm := if bytes_Compare pub_a pub_b <=? 0 then pub_a ++ pub_b else pub_b ++ pub_a in
  match hkdf_sha256 ikm (str_bytes "pairing-confirmation") 32 with
  | None => None
  | Some derived => Some (digits_pad 6 (orU32 derived mod 1000000))
  end.

(** [established] is left out: [pigeon_channel_init] sets it, and only the C
    session functions read it. *)
Record pigeon_channel := {
  send_key : bytes;
  recv_key : bytes;
  send_seq : Z;
  recv_seq : Z;
  cmode : ChannelMode
}.

Definition pigeon_channel_init (send_key recv_key : bytes) (mode : ChannelMode) : pigeon_channel :=
  {| send_key := send_key; recv_key := recv_key; send_seq := 0; recv_seq := 0; cmode := mode |}.

Definition with_send_seq (ch : pigeon_channel) (n : Z) : pigeon_channel :=
  {| send_key := send_key ch; recv_key := recv_key ch; send_seq := n; recv_seq := recv_seq ch; cmode := cmode ch |}.
Definition with_recv_seq (ch : pigeon_channel) (n : Z) : pigeon_channel :=
  {| send_key := send_key ch; recv_key := recv_key ch; send_seq := send_seq ch; recv_seq := n; cmode := cmode ch |}.

(** The return value, an [int], and the bytes written to [out]. *)
Definition pigeon_channel_encrypt (ch : pigeon_channel) (plaintext : bytes) (out_len : Z) : pigeon_channel * Z * bytes :=
  if out_len <? 8 + len plaintext + 16 then (ch, -1, []) else
  let seq := send_seq ch in
  let ch := with_send_seq ch (u64 (seq + 1)) in
  let seqBytes := le_put 8 seq in
  let nonce := seqBytes ++ replicate 4 x00 in
  match crypto_aead_aes256gcm_encrypt (send_key ch) nonce plaintext seqBytes with
  | None => (ch, -1, seqBytes)
  | Some ciphertext => (ch, i32 (8 + len ciphertext), seqBytes ++ ciphertext)
  end.

Definition pigeon_channel_decrypt (ch : pigeon_channel) (data : bytes) (out_len : Z) : pigeon_channel * Z * bytes :=
  if len data <? 8 + 16 then (ch, -1, []) else
  let seq := le_get (take 8 data) in
  let refused := match cmode ch with ModeStrict => negb (seq =? recv_seq ch) | ModeDatagrams => seq <? recv_seq ch end in
  if refused then (ch, -1, []) else
  let nonce := take 8 data ++ replicate 4 x00 in
  let ciphertext := drop 8 data in
  if out_len <? len ciphertext - 16 then (ch, -1, []) else
  match crypto_aead_aes256gcm_decrypt (recv_key ch) nonce ciphertext (take 8 data) with
  | None => (ch, -1, [])
  | Some plaintext =>
      let next := match cmode ch with
                  | ModeStrict => u64 (seq + 1)
                  | ModeDatagrams => if recv_seq ch <=? seq then u64 (seq + 1) else recv_seq ch
                  end in
      (with_recv_seq ch next, i32 (len plaintext), plaintext)
  end.

(** ** cwire: channels *)

(** [NewChannel]; any mode but "datagram" is strict. *)
Definition cwNewChannel (sendKey recvKey : bytes) (mode : string) : result pigeon_channel :=
  if negb (len sendKey =? 32) || negb (len recvKey =? 32) then Err (ENew "cwire: channel keys must be 32 bytes")
  else Ok (pigeon_channel_init sendKey recvKey (if bool_decide (mode = "datagram") then ModeDatagrams else ModeStrict)).

(** [Channel.Encrypt] and [Channel.Decrypt] of a channel that is not nil. *)
Definition cwEncrypt (ch : pigeon_channel) (plaintext : bytes) : pigeon_channel * result bytes :=
  let '(ch, n, out) := pigeon_channel_encrypt ch plaintext (8 + len plaintext + 16) in
  (ch, if n <? 0 then Err (ENew "cwire: pigeon_channel_encrypt failed") else Ok (slice_to out n)).

Definition cwDecrypt (ch : pigeon_channel) (data : bytes) : pigeon_channel * result bytes :=
  if len data <? 8 + 16 then (ch, Err (ENew "cwire: Channel.Decrypt: input too short")) else
  let '(ch, n, out) := pigeon_channel_decrypt ch data (len data) in
  (ch, if n <? 0 then Err (ENew "cwire: pigeon_channel_decrypt failed") else Ok (slice_to out n)).

(** ** cwire: keys *)

Definition nonceLen : Z := 16.

Definition ExpandKey (ikm : bytes) (info : string) : result bytes :=
  if negb (len ikm =? 32) then Err (ENew "cwire: ExpandKey: ikm must be 32 bytes")
  else match pigeon_diversify_key ikm (str_bytes info) with
       | None => Err (ENew "cwire: ExpandKey: pigeon_diversify_key failed")
       | Some out => Ok out
       end.

Record SessionMaterial := {
  SendKey : bytes;
  RecvKey : bytes
}.

Definition aeadStreamInfoPrefix : string := "pigeon/v1/stream:".
Definition aeadDatagramInfo : string := "pigeon/v1/datagram".

Definition StreamChannel (m : SessionMaterial) (name : string) : result pigeon_channel :=
  let info := aeadStreamInfoPrefix +:+ name in
  let! sk := ExpandKey (SendKey m) info in
  let! rk := ExpandKey (RecvKey m) info in
  cwNewChannel sk rk "stream".

Definition DatagramChannel (m : SessionMaterial) : result pigeon_channel :=
  let! sk := ExpandKey (SendKey m) aeadDatagramInfo in
  let! rk := ExpandKey (RecvKey m) aeadDatagramInfo in
  cwNewChannel sk rk "datagram".

(** [PairingRecord] of cwire, and [pairingRecordToCwire]. *)
Record cwRecord := {
  cwPeerInstanceID : string;
  cwLocalPrivKey : bytes;
  cwLocalPubKey : bytes;
  cwPeerPubKey : bytes
}.
Definition pairingRecordToCwire (r : PairingRecord) : cwRecord :=
  {| cwPeerInstanceID := PeerInstanceID r; cwLocalPrivKey := LocalPrivateKey r;
     cwLocalPubKey := LocalPublicKey r; cwPeerPubKey := PeerPublicKey r |}.

Definition clientToBackend : string := "client->backend".
Definition backendToClient : string := "backend->client".

Definition DeriveSessionMaterial (rec : cwRecord) (isBackend : bool) (nonce : bytes) : result SessionMaterial :=
  if negb (len (cwLocalPrivKey rec) =? 32) || negb (len (cwPeerPubKey rec) =? 32)
  then Err (ENew "cwire: DeriveSessionMaterial: keys must be 32 bytes")
  else if negb (len nonce =? nonceLen) then Err (EFmt "cwire: DeriveSessionMaterial: nonce must be %d bytes" [AInt nonceLen])
  else
    let '(sendLabel, recvLabel) :=
      if isBackend then (backendToClient, clientToBackend) else (clientToBackend, backendToClient) in
    match pigeon_derive_session_key (cwLocalPrivKey rec) (cwPeerPubKey rec) (str_bytes sendLabel ++ nonce) with
    | None => Err (ENew "cwire: DeriveSessionMaterial: derive send key failed")
    | Some sendKey =>
        match pigeon_derive_session_key (cwLocalPrivKey rec) (cwPeerPubKey rec) (str_bytes recvLabel ++ nonce) with
        | None => Err (ENew "cwire: DeriveSessionMaterial: derive recv key failed")
        | Some recvKey => Ok {| SendKey := sendKey; RecvKey := recvKey |}
        end
    end.

Definition DeriveSessionChannel (rec : cwRecord) (isBackend : bool) (nonce : bytes) : result pigeon_channel :=
  let! m := DeriveSessionMaterial rec isBackend nonce in
  cwNewChannel (SendKey m) (RecvKey m) "stream".

(** [DeriveConfirmationCode] of cwire. *)
Definition cwDeriveConfirmationCode (pubA pubB : bytes) : result string :=
  if negb (len pubA =? 32) || negb (len pubB =? 32) then Err (ENew "cwire: pubkeys must be 32 bytes")
  else match pigeon_derive_confirmation_code pubA pubB with
       | None => Err (ENew "cwire: derive_confirmation_code failed")
       | Some code => Ok code
       end.

(** ** Runs *)

Fixpoint cwEncryptAll (ch : pigeon_channel) (pts : list bytes) : pigeon_channel * list (result bytes) :=
  match pts with
  | [] => (ch, [])
  | pt :: pts => let '(ch, r) := cwEncrypt ch pt in let '(ch, rs) := cwEncryptAll ch pts in (ch, r :: rs)
  end.
Fixpoint cwDecryptAll (ch : pigeon_channel) (cts : list bytes) : pigeon_channel * list (result bytes) :=
  match cts with
  | [] => (ch, [])
  | ct :: cts => let '(ch, r) := cwDecrypt ch ct in let '(ch, rs) := cwDecryptAll ch cts in (ch, r :: rs)
  end.
(** The sequence numbers of the packets accepted. *)
Fixpoint acceptedSeqs (ch : pigeon_channel) (cts : list bytes) : list Z :=
  match cts with
  | [] => []
  | ct :: cts =>
      let '(ch, r) := cwDecrypt ch ct in
      (if is_ok r then [packet_seq ct] else []) ++ acceptedSeqs ch cts
  end.
End Cwire.

(** ** The channel and the crypto package's *)

Section Channels.
Context {P : Primitives} {PL : PrimitivesLaws P} {So : Sodium P} {SL : SodiumLaws So}.

(** A wrapper's channel and one of the crypto package with the same keys and
    counters. *)
Record same (ch : pigeon_channel) (c : Channel) : Prop := {
  s_send : NewGCM (send_key ch) = Ok (sendGCM c);
  s_recv : NewGCM (recv_key ch) = Ok (recvGCM c);
  s_sendSeq : send_seq ch = sendSeq c;
  s_recvSeq : recv_seq ch = recvSeq c;
  s_mode : cmode ch = mode c
}.

Lemma i32_small z : 0 <= z < 2 ^ 31 -> i32 z = z.
Proof. intros Hz. unfold i32. rewrite Z.mod_small; lia. Qed.

Lemma nonce_padded (g : AEAD) seq : le_put 8 seq ++ replicate 4 x00 = makeNonce (NonceSize g) seq.
Proof. unfold makeNonce. by rewrite NonceSize_12. Qed.

Lemma slice_len (b : bytes) : slice_to b (len b) = b.
Proof. unfold len. rewrite Nat2Z.id. by apply take_ge. Qed.

Lemma cwEncrypt_packet ch g pt :
  NewGCM (send_key ch) = Ok g -> len pt + 24 < 2 ^ 31 ->
  cwEncrypt ch pt = (with_send_seq ch (u64 (send_seq ch + 1)), Ok (packet g (send_seq ch) pt)).
Proof.
  intros Hg Hl. unfold cwEncrypt, pigeon_channel_encrypt, crypto_aead_aes256gcm_encrypt.
  rewrite (proj2 (Z.ltb_ge _ _)) by lia. rewrite aes_available. cbn [send_key with_send_seq]. rewrite Hg, (nonce_padded g).
  fold (packet g (send_seq ch) pt). pose proof (len_nonneg pt).
  assert (Hn : 8 + len (Seal g (makeNonce (NonceSize g) (send_seq ch)) pt (le_put 8 (send_seq ch)))
               = len (packet g (send_seq ch) pt)).
  { unfold packet. rewrite len_app. unfold len at 2. rewrite length_le_put. lia. }
  rewrite Hn, len_packet, i32_small by lia. rewrite (proj2 (Z.ltb_ge _ 0)) by lia.
  by rewrite <-(len_packet g (send_seq ch) pt), slice_len.
Qed.

(** A packet is refused and the channel stays as it was, or it is the packet
    of its number under the receive key and the counter moves past it. *)
Lemma cwDecrypt_cases ch g data :
  NewGCM (recv_key ch) = Ok g -> len data < 2 ^ 31 ->
  (exists e, cwDecrypt ch data = (ch, Err e)) \/
  (exists pt, data = packet g (packet_seq data) pt /\
     match cmode ch with ModeStrict => packet_seq data = recv_seq ch | ModeDatagrams => recv_seq ch <= packet_seq data end /\
     cwDecrypt ch data = (with_recv_seq ch (u64 (packet_seq data + 1)), Ok pt)).
Proof.
  intros Hg Hl. unfold cwDecrypt, pigeon_channel_decrypt. fold (packet_seq data).
  destruct (Z.ltb_spec (len data) (8 + 16)) as [|Hge]; [left; eauto |].
  set (refused := match cmode ch with ModeStrict => _ | ModeDatagrams => _ end). destruct refused eqn:Hr; [left; eauto |].
  assert (Hd : len (drop 8 data) = len data - 8) by (unfold len in *; rewrite length_drop; lia).
  rewrite Hd, (proj2 (Z.ltb_ge (len data) _)) by lia.
  assert (Hput : le_put 8 (packet_seq data) = take 8 data).
  { unfold packet_seq. assert (H8 : length (take 8 data) = 8%nat) by (unfold len in Hge; rewrite length_take; lia).
    rewrite <-H8 at 1. apply le_put_get. }
  unfold crypto_aead_aes256gcm_decrypt. rewrite aes_available, Hg, <-Hput, (nonce_padded g).
  destruct (Open g _ _ _) as [pt|] eqn:Ho; [| left; eauto]. right. exists pt.
  pose proof (Seal_Open _ _ _ _ _ Ho) as Hs. assert (Hp : data = packet g (packet_seq data) pt).
  { unfold packet. rewrite <-Hs, Hput. by rewrite take_drop. }
  assert (Hlp : len pt < 2 ^ 31) by (rewrite Hp, len_packet in Hl; lia). pose proof (len_nonneg pt).
  rewrite i32_small by lia. rewrite (proj2 (Z.ltb_ge _ 0)), slice_len by lia.
  subst refused. destruct (cmode ch).
  - apply negb_false_iff, Z.eqb_eq in Hr. done.
  - apply Z.ltb_ge in Hr. split_and!; [done | done |]. by rewrite (proj2 (Z.leb_le _ _)).
Qed.

Lemma cwDecrypt_packet ch g seq pt :
  NewGCM (recv_key ch) = Ok g -> 0 <= seq < 2 ^ 64 -> len pt + 24 < 2 ^ 31 ->
  match cmode ch with ModeStrict => seq = recv_seq ch | ModeDatagrams => recv_seq ch <= seq end ->
  cwDecrypt ch (packet g seq pt) = (with_recv_seq ch (u64 (seq + 1)), Ok pt).
Proof.
  intros Hg Hs Hl Hm. unfold cwDecrypt, pigeon_channel_decrypt. rewrite len_packet. pose proof (len_nonneg pt).
  rewrite (proj2 (Z.ltb_ge _ _)) by lia. rewrite take_packet, drop_packet, le_get_put, (Z.mod_small seq) by done.
  assert (match cmode ch with ModeStrict => negb (seq =? recv_seq ch) | ModeDatagrams => seq <? recv_seq ch end = false) as ->.
  { destruct (cmode ch); [subst; by rewrite Z.eqb_refl | by apply Z.ltb_ge]. }
  assert (Hc : len (Seal g (makeNonce (NonceSize g) seq) pt (le_put 8 seq)) = len pt + 16) by (unfold len; rewrite length_Seal; lia).
  rewrite Hc, (proj2 (Z.ltb_ge (len pt + 24) _)) by lia. unfold crypto_aead_aes256gcm_decrypt.
  rewrite aes_available, Hg, (nonce_padded g), Open_Seal, i32_small by lia. rewrite (proj2 (Z.ltb_ge _ 0)), slice_len by lia.
  destruct (cmode ch); [by subst | by rewrite (proj2 (Z.leb_le _ _))].
Qed.

(** Packets in order, at one end and at the other. *)
Definition facing (a b : pigeon_channel) : Prop :=
  exists g1 g2, NewGCM (send_key a) = Ok g1 /\ NewGCM (recv_key b) = Ok g1 /\
    NewGCM (send_key b) = Ok g2 /\ NewGCM (recv_key a) = Ok g2 /\
    send_seq a = recv_seq b /\ send_seq b = recv_seq a /\ cmode a = cmode b.

Lemma facing_sym a b : facing a b -> facing b a.
Proof. intros (g1 & g2 & ?). exists g2, g1. naive_solver. Qed.

Lemma delivers pts : forall a b g,
  NewGCM (send_key a) = Ok g -> NewGCM (recv_key b) = Ok g -> send_seq a = recv_seq b ->
  0 <= send_seq a -> send_seq a + len pts < 2 ^ 64 -> Forall (fun pt => len pt + 24 < 2 ^ 31) pts ->
  exists cts, (cwEncryptAll a pts).2 = map Ok cts /\ (cwDecryptAll b cts).2 = map Ok pts.
Proof.
  induction pts as [|pt pts IH]; intros a b g Ha Hb Hs H0 Hn Hf; [by exists [] |].
  apply Forall_cons in Hf as [Hl Hf]. rewrite len_cons in Hn. pose proof (len_nonneg pts).
  cbn [cwEncryptAll]. rewrite (cwEncrypt_packet a g pt Ha Hl).
  destruct (IH (with_send_seq a (u64 (send_seq a + 1))) (with_recv_seq b (u64 (send_seq a + 1))) g) as (cts & Hc & Hd);
    [done | done | done | cbn; apply u64_range | cbn; rewrite u64_small by lia; lia | done |].
  exists (packet g (send_seq a) pt :: cts). destruct (cwEncryptAll _ pts) as [a' rs]. cbn in Hc. subst rs. split; [done |].
  cbn [cwDecryptAll]. rewrite (cwDecrypt_packet b g) by (try done; try lia; destruct (cmode b); lia).
  destruct (cwDecryptAll _ cts) as [b' rs] eqn:E. cbn in Hd. rewrite Hd. done.
Qed.

(** ** Keys *)

Lemma hkdf_C ikm info : len info <= 255 ->
  exists key, hkdf_sha256 ikm info 32 = Some key /\ len key = 32 /\
    forall n, (n <= 32)%nat -> hkdf_read ikm info n = Ok (take n key).
Proof.
  intros Hi. unfold hkdf_sha256. cbn [Z.ltb]. rewrite (proj2 (Z.ltb_ge 255 _)) by done. eexists. split; [done |].
  split; [unfold len; by rewrite length_hmac |]. intros n Hn. by apply hkdf_rfc5869.
Qed.

(** [ExpandKey] depends on the key alone, so two ends with one key agree. *)
Lemma ExpandKey_ok ikm info : len ikm = 32 -> slen info <= 255 -> exists key, ExpandKey ikm info = Ok key /\ len key = 32.
Proof.
  intros Hk Hi. unfold ExpandKey, pigeon_diversify_key. rewrite Hk. cbn [Z.eqb Pos.eqb negb].
  destruct (hkdf_C ikm (str_bytes info) Hi) as (key & -> & Hl & _). eauto.
Qed.

Lemma cwNewChannel_ok k1 k2 m : len k1 = 32 -> len k2 = 32 ->
  cwNewChannel k1 k2 m = Ok (pigeon_channel_init k1 k2 (if bool_decide (m = "datagram") then ModeDatagrams else ModeStrict)).
Proof. intros H1 H2. unfold cwNewChannel. by rewrite H1, H2. Qed.

(** The material of one end mirrors the other's. *)
Definition mirrored (m1 m2 : SessionMaterial) : Prop :=
  SendKey m1 = RecvKey m2 /\ RecvKey m1 = SendKey m2 /\ len (SendKey m1) = 32 /\ len (RecvKey m1) = 32.

Lemma channels_face k1 k2 mode : len k1 = 32 -> len k2 = 32 ->
  facing (pigeon_channel_init k1 k2 mode) (pigeon_channel_init k2 k1 mode).
Proof.
  intros H1 H2. destruct (NewGCM_ok k1) as [g1 Hg1]; [unfold len in H1; lia |].
  destruct (NewGCM_ok k2) as [g2 Hg2]; [unfold len in H2; lia |]. exists g1, g2. split_and!; done.
Qed.

Lemma mirrored_channels m1 m2 info mode : mirrored m1 m2 -> slen info <= 255 ->
  exists c1 c2,
    (let! sk := ExpandKey (SendKey m1) info in let! rk := ExpandKey (RecvKey m1) info in cwNewChannel sk rk mode) = Ok c1 /\
    (let! sk := ExpandKey (SendKey m2) info in let! rk := ExpandKey (RecvKey m2) info in cwNewChannel sk rk mode) = Ok c2 /\
    facing c1 c2 /\ send_seq c1 = 0 /\ send_seq c2 = 0.
Proof.
  intros (H1 & H2 & Hl1 & Hl2) Hi. rewrite <-H1, <-H2.
  destruct (ExpandKey_ok (SendKey m1) info Hl1 Hi) as (k1 & -> & Hk1).
  destruct (ExpandKey_ok (RecvKey m1) info Hl2 Hi) as (k2 & -> & Hk2). cbn [rbind].
  rewrite !cwNewChannel_ok by done. eexists _, _. split_and!; [done | done | by apply channels_face | done | done].
Qed.

Lemma derive_session_key_ok priv pub a b shared info :
  NewPrivateKey priv = Ok a -> NewPublicKey pub = Ok b -> ECDH a b = Ok shared -> len info <= 255 ->
  exists key, pigeon_derive_session_key priv pub info = Some key /\ len key = 32 /\ hkdf_sha256 shared info 32 = Some key.
Proof.
  intros Ha Hb Hs Hi. unfold pigeon_derive_session_key, crypto_scalarmult. rewrite Ha, Hb, Hs.
  destruct (hkdf_C shared info Hi) as (key & Hk & Hl & _). rewrite Hk. eauto.
Qed.

(** X25519 private keys and public keys are 32 bytes. *)
Definition goodKey (k : PrivateKey) : Prop := len (priv_bytes k) = 32 /\ len (pub_bytes (priv_public k)) = 32.

Lemma material_mirrored (a b : PrivateKey) idA urlA idB urlB nonce shared :
  goodKey a -> goodKey b -> ECDH a (priv_public b) = Ok shared -> len nonce = 16 ->
  exists mc mb,
    DeriveSessionMaterial (pairingRecordToCwire (NewPairingRecord idA urlA {| Private := a; Public := priv_public a |} (priv_public b)))
      false nonce = Ok mc /\
    DeriveSessionMaterial (pairingRecordToCwire (NewPairingRecord idB urlB {| Private := b; Public := priv_public b |} (priv_public a)))
      true nonce = Ok mb /\ mirrored mc mb.
Proof.
  intros [Ha Ha'] [Hb Hb'] Hs Hn. unfold DeriveSessionMaterial. cbn [pairingRecordToCwire cwLocalPrivKey cwPeerPubKey NewPairingRecord LocalPrivateKey PeerPublicKey Private].
  rewrite Ha, Hb, Ha', Hb', Hn. cbn [Z.eqb Pos.eqb negb orb nonceLen].
  assert (Hs' : ECDH b (priv_public a) = Ok shared) by (by rewrite ECDH_comm).
  assert (Hi : forall l, slen l = 15 -> len (str_bytes l ++ nonce) <= 255) by (intros l Hl; unfold slen in Hl; rewrite len_app; lia).
  pose proof (Hi clientToBackend eq_refl) as H1. pose proof (Hi backendToClient eq_refl) as H2.
  destruct (derive_session_key_ok _ _ _ _ _ _ (NewPrivateKey_bytes a) (NewPublicKey_bytes (priv_public b)) Hs H1) as (k1 & -> & Hl1 & Hk1).
  destruct (derive_session_key_ok _ _ _ _ _ _ (NewPrivateKey_bytes a) (NewPublicKey_bytes (priv_public b)) Hs H2) as (k2 & -> & Hl2 & Hk2).
  destruct (derive_session_key_ok _ _ _ _ _ _ (NewPrivateKey_bytes b) (NewPublicKey_bytes (priv_public a)) Hs' H1) as (k3 & -> & _ & Hk3).
  destruct (derive_session_key_ok _ _ _ _ _ _ (NewPrivateKey_bytes b) (NewPublicKey_bytes (priv_public a)) Hs' H2) as (k4 & -> & _ & Hk4).
  eexists _, _. split_and!; [done | done |]. unfold mirrored. cbn. split_and!; congruence.
Qed.

Lemma accepted_from cts : forall ch g,
  NewGCM (recv_key ch) = Ok g -> Forall (fun ct => len ct < 2 ^ 31) cts -> (forall pt, packet g (2 ^ 64 - 1) pt ∉ cts) ->
  StronglySorted Z.lt (acceptedSeqs ch cts) /\ Forall (Z.le (recv_seq ch)) (acceptedSeqs ch cts).
Proof.
  induction cts as [|ct cts IH]; intros ch g Hg Hl Hlast; [by split; constructor |].
  apply Forall_cons in Hl as [Hl1 Hl]. assert (Hlast' : forall pt, packet g (2 ^ 64 - 1) pt ∉ cts).
  { intros pt Hin. apply (Hlast pt). by right. }
  cbn [acceptedSeqs]. destruct (cwDecrypt_cases ch g ct Hg Hl1) as [[e ->]|(pt & Hp & Hm & ->)]; cbn [is_ok app]; [by eapply IH |].
  pose proof (packet_seq_range ct) as Hr. assert (packet_seq ct <> 2 ^ 64 - 1).
  { intros He. apply (Hlast pt). rewrite <-He, <-Hp. left. }
  destruct (IH (with_recv_seq ch (u64 (packet_seq ct + 1))) g Hg Hl Hlast') as [Hs Hf].
  cbn [recv_seq with_recv_seq] in Hf. rewrite u64_small in Hs, Hf by lia. rewrite u64_small by lia.
  assert (Hge : recv_seq ch <= packet_seq ct) by (destruct (cmode ch); lia). split.
  - constructor; [done |]. eapply Forall_impl; [exact Hf |]. cbn. lia.
  - constructor; [done |]. eapply Forall_impl; [exact Hf |]. cbn. lia.
Qed.

(** ** Properties *)

(** C5. The channel of a session is that of the crypto package: with the
    same keys and counters both seal a message to the same packet, and what
    one accepts the other accepts, with the same plaintext.  They differ in
    what a refused packet does: this one stays as it was. *)
Theorem cwire_channel_is_crypto_channel (ch : pigeon_channel) (c : Channel) :
  same ch c ->
  (forall pt, len pt + 24 < 2 ^ 31 ->
     exists ch' c' ct, cwEncrypt ch pt = (ch', Ok ct) /\ Encrypt c pt = (c', ct) /\ same ch' c') /\
  (forall data, len data < 2 ^ 31 ->
     match cwDecrypt ch data with
     | (ch', Ok pt) => exists c', Decrypt c data = (c', Ok pt) /\ same ch' c'
     | (ch', Err _) => ch' = ch /\ is_ok (Decrypt c data).2 = false
     end).
Proof.
  intros [H1 H2 H3 H4 H5]. split.
  - intros pt Hl. rewrite (cwEncrypt_packet ch _ pt H1 Hl), Encrypt_packet, H3. eexists _, _, _. by split_and!.
  - intros data Hl. pose proof (packet_seq_range data) as Hr.
    destruct (cwDecrypt_cases ch _ data H2 Hl) as [[e Hd]|(pt & Hp & Hm & Hd)]; rewrite Hd.
    + split; [done |]. destruct (Decrypt c data) as [c' [pt|]] eqn:Hg; [| done]. exfalso.
      pose proof (Decrypt_authentic _ _ _ _ Hg) as Ha.
      destruct (Decrypt_cases c data) as [[e' He']|(Hm & _ & _)]; [congruence |].
      assert (Hpl : len pt + 24 < 2 ^ 31) by (rewrite Ha, len_packet in Hl; lia).
      rewrite Ha, (cwDecrypt_packet ch _ _ _ H2 Hr Hpl) in Hd; [done |]. rewrite H5, H4. exact Hm.
    + assert (Hm' : match mode c with ModeStrict => packet_seq data = recvSeq c | ModeDatagrams => recvSeq c <= packet_seq data end)
        by (rewrite <-H4, <-H5; exact Hm).
      pose proof (Decrypt_packet c (packet_seq data) pt Hr Hm') as Hx. rewrite <-Hp in Hx. rewrite Hx. eexists. by split_and!.
Qed.

(** What a channel hands out was sealed under its receive key. *)
Lemma handed_out_sealed g cts : forall ch, NewGCM (recv_key ch) = Ok g -> Forall (fun ct => len ct < 2 ^ 31) cts ->
  Forall2 (fun ct r => forall pt, r = Ok pt -> ct = packet g (packet_seq ct) pt) cts (cwDecryptAll ch cts).2.
Proof.
  induction cts as [|ct cts IH]; intros ch Hg Hl; [constructor |]. apply Forall_cons in Hl as [Hl Hls].
  cbn [cwDecryptAll]. destruct (cwDecrypt_cases ch g ct Hg Hl) as [[e ->]|(pt & Hp & _ & ->)].
  - specialize (IH ch Hg Hls). destruct (cwDecryptAll ch cts) as [ch' rs]. by constructor.
  - specialize (IH (with_recv_seq ch (u64 (packet_seq ct + 1))) Hg Hls). destruct (cwDecryptAll _ cts) as [ch' rs].
    constructor; [| exact IH]. by intros ? [= <-].
Qed.

(** C4. A session's channel accepts no packet twice and none it was not sent.
    Whatever packets arrive, forged ones included, in either mode the plaintexts
    handed out are those sealed in the packets under the receive key, and the
    accepted packets carry strictly increasing numbers from the receive counter
    on, as long as the peer has not sealed the very last number. *)
Theorem cwire_channel_rejects_replays (ch : pigeon_channel) (g : AEAD) (cts : list bytes) :
  NewGCM (recv_key ch) = Ok g -> Forall (fun ct => len ct < 2 ^ 31) cts -> (forall pt, packet g (2 ^ 64 - 1) pt ∉ cts) ->
  Forall2 (fun ct r => forall pt, r = Ok pt -> ct = packet g (packet_seq ct) pt) cts (cwDecryptAll ch cts).2 /\
  StronglySorted Z.lt (acceptedSeqs ch cts) /\ Forall (Z.le (recv_seq ch)) (acceptedSeqs ch cts).
Proof. intros Hg Hl Hlast. split; [by apply handed_out_sealed | by apply accepted_from with g]. Qed.

(** The confirmation code libpigeon derives is the one of the crypto
    package. *)
Theorem cwire_confirmation_code (pubA pubB : PublicKey) :
  len (pub_bytes pubA) = 32 -> len (pub_bytes pubB) = 32 ->
  cwDeriveConfirmationCode (pub_bytes pubA) (pub_bytes pubB) = DeriveConfirmationCode pubA pubB.
Proof.
  intros HA HB. unfold cwDeriveConfirmationCode, pigeon_derive_confirmation_code, DeriveConfirmationCode. rewrite HA, HB.
  cbn [Z.eqb Pos.eqb negb orb].
  assert (Hc : forall ikm,
    match match hkdf_sha256 ikm (str_bytes "pairing-confirmation") 32 with
          | None => None | Some d => Some (digits_pad 6 (orU32 d mod 1000000)) end
    with None => Err (ENew "cwire: derive_confirmation_code failed") | Some code => Ok code end
    = let! buf := hkdf_read ikm (str_bytes "pairing-confirmation") 4 in Ok (sprintf_06d (be_get buf mod 1000000))).
  { intros ikm. destruct (hkdf_C ikm (str_bytes "pairing-confirmation") ltac:(vm_compute; discriminate)) as (key & -> & Hl & Hr).
    rewrite Hr by lia. cbn [rbind]. rewrite orU32_get by (unfold len in Hl; lia). done. }
  rewrite Hc. destruct (Z.ltb_spec 0 (bytes_Compare (pub_bytes pubA) (pub_bytes pubB))) as [Hlt|Hge].
  - by rewrite (proj2 (Z.leb_gt _ 0)).
  - by rewrite (proj2 (Z.leb_le _ 0)).
Qed.

(** The two ends of a session.  A client and a backend with matching
    records derive, from the nonce of the activation, channels that face each
    other: for every stream name of at most 238 bytes, and for datagrams, what
    one end encrypts the other decrypts, in order, both ways. *)
Theorem session_ends_share_channels (a b : PrivateKey) idA urlA idB urlB nonce shared name (ptsA ptsB : list bytes) :
  goodKey a -> goodKey b -> ECDH a (priv_public b) = Ok shared -> len nonce = 16 -> slen name <= 238 ->
  Forall (fun pt => len pt + 24 < 2 ^ 31) (ptsA ++ ptsB) -> len (ptsA ++ ptsB) < 2 ^ 64 ->
  exists mc mb,
    DeriveSessionMaterial (pairingRecordToCwire (NewPairingRecord idA urlA {| Private := a; Public := priv_public a |} (priv_public b)))
      false nonce = Ok mc /\
    DeriveSessionMaterial (pairingRecordToCwire (NewPairingRecord idB urlB {| Private := b; Public := priv_public b |} (priv_public a)))
      true nonce = Ok mb /\
    forall derive, derive = (fun m => StreamChannel m name) \/ derive = DatagramChannel ->
    exists cc cb, derive mc = Ok cc /\ derive mb = Ok cb /\
      (exists cts, (cwEncryptAll cc ptsA).2 = map Ok cts /\ (cwDecryptAll cb cts).2 = map Ok ptsA) /\
      (exists cts, (cwEncryptAll cb ptsB).2 = map Ok cts /\ (cwDecryptAll cc cts).2 = map Ok ptsB).
Proof.
  intros Ha Hb Hs Hn Hname Hf Hlen. apply Forall_app in Hf as [HfA HfB]. rewrite len_app in Hlen.
  pose proof (len_nonneg ptsA). pose proof (len_nonneg ptsB).
  destruct (material_mirrored a b idA urlA idB urlB nonce shared Ha Hb Hs Hn) as (mc & mb & Hmc & Hmb & Hm).
  exists mc, mb. split_and!; [done | done |]. intros derive Hd.
  assert (exists cc cb, derive mc = Ok cc /\ derive mb = Ok cb /\ facing cc cb /\ send_seq cc = 0 /\ send_seq cb = 0)
    as (cc & cb & Hcc & Hcb & (g1 & g2 & K1 & K2 & K3 & K4 & K5 & K6 & _) & Hz1 & Hz2).
  { destruct Hd as [-> | ->]; apply mirrored_channels; try done. unfold slen in *.
    rewrite str_bytes_app, len_app. change (len (str_bytes aeadStreamInfoPrefix)) with 17. lia. }
  exists cc, cb. split_and!; [done | done | |].
  - by eapply (delivers ptsA cc cb g1); try done; lia.
  - by eapply (delivers ptsB cb cc g2); try done; lia.
Qed.
End Channels.

(** ** Witnesses *)

Definition toySodium : Sodium toy := {| hmacsha256 := toy_hmac; aes256gcm_is_available := true |}.
#[local] Existing Instance toySodium.

#[export] Instance toySodium_laws : SodiumLaws toySodium.
Proof.
  split.
  - intros k m. apply length_pad.
  - intros ikm info n Hn. cbn [hkdf_read toy hmacsha256 toySodium]. rewrite (proj2 (Nat.leb_le _ _)) by lia.
    f_equal. change (pad n (toy_hkdf ikm info) = take n (toy_hkdf ikm info)). unfold pad.
    assert (length (toy_hkdf ikm info) = 32%nat) as -> by apply length_pad.
    replace (n - 32)%nat with 0%nat by lia. by rewrite app_nil_r.
  - reflexivity.
Qed.

Definition toyChannel (m : ChannelMode) : pigeon_channel := pigeon_channel_init key1 key2 m.

Definition toyCrypto : @Channel toy := @Build_Channel toy key1 key2 0 0 ModeStrict.

Lemma cwire_channel_is_crypto_channel_witness :
  (cwEncrypt (P := toy) (toyChannel ModeStrict) [x41]).2 = Ok (packet (P := toy) key1 0 [x41]) /\
  exists ch' c' ct, cwEncrypt (P := toy) (toyChannel ModeStrict) [x41] = (ch', Ok ct) /\
    Encrypt (P := toy) toyCrypto [x41] = (c', ct) /\
    same ch' c'.
Proof.
  split; [vm_compute; reflexivity |].
  refine (proj1 (cwire_channel_is_crypto_channel (P := toy) (So := toySodium) (toyChannel ModeStrict)
    toyCrypto _) [x41] _); [| done].
  split; reflexivity.
Defined.

(** A packet, the same again, one with a forged number, and the first once more. *)
Definition replayed : list bytes :=
  let p := packet (P := toy) key2 5 [x41] in [p; p; replicate 8 xff ++ replicate 16 x00; p].

Lemma cwire_channel_rejects_replays_witness :
  acceptedSeqs (P := toy) (toyChannel ModeDatagrams) replayed = [5] /\
  StronglySorted Z.lt (acceptedSeqs (P := toy) (toyChannel ModeDatagrams) replayed).
Proof.
  split; [vm_compute; reflexivity |].
  refine (proj1 (proj2 (cwire_channel_rejects_replays (P := toy) (So := toySodium) (toyChannel ModeDatagrams) key2 replayed _ _ _))).
  - reflexivity.
  - repeat (constructor; [vm_compute; reflexivity |]). constructor.
  - intros pt Hin. assert (Hp : forall q, q = packet (P := toy) key2 5 [x41] -> packet (P := toy) key2 (2 ^ 64 - 1) pt <> q).
    { intros q -> He. apply (f_equal (take 8)) in He. vm_compute in He. discriminate He. }
    unfold replayed in Hin. cbv zeta in Hin.
    apply elem_of_cons in Hin as [Hin|Hin]; [by apply Hp in Hin |]. apply elem_of_cons in Hin as [Hin|Hin]; [by apply Hp in Hin |].
    apply elem_of_cons in Hin as [Hin|Hin]; [| apply list_elem_of_singleton in Hin; by apply Hp in Hin].
    destruct pt as [|b pt]; [vm_compute in Hin; discriminate Hin |].
    apply (f_equal length) in Hin. unfold packet in Hin. cbn [Seal toy] in Hin.
    rewrite length_app, length_toy_seal, length_le_put in Hin. cbn in Hin. lia.
Defined.

Lemma toy_goodKey : goodKey (P := toy) key1 /\ goodKey (P := toy) key2.
Proof. split; split; reflexivity. Qed.

Lemma session_ends_share_channels_witness :
  exists mc mb : SessionMaterial,
    DeriveSessionMaterial (P := toy) (pairingRecordToCwire (toy_record "a" key1 key2)) false (replicate 16 x07) = Ok mc /\
    DeriveSessionMaterial (P := toy) (pairingRecordToCwire (toy_record "b" key2 key1)) true (replicate 16 x07) = Ok mb /\
    exists cc cb, StreamChannel (P := toy) mc "chat" = Ok cc /\ StreamChannel (P := toy) mb "chat" = Ok cb /\
      exists cts, (cwEncryptAll (P := toy) cc [[x41]]).2 = map Ok cts /\ (cwDecryptAll (P := toy) cb cts).2 = [Ok [x41]].
Proof.
  destruct toy_goodKey as [H1 H2].
  destruct (session_ends_share_channels (P := toy) (So := toySodium) key1 key2 "a" "r" "b" "r" (replicate 16 x07) (toy_add key1 key2) "chat"
    [[x41]] []) as (mc & mb & Hc & Hb & Hd);
    [exact H1 | exact H2 | reflexivity | reflexivity | vm_compute; discriminate |
     constructor; [vm_compute; reflexivity | constructor] | vm_compute; reflexivity |].
  exists mc, mb. split; [exact Hc |]. split; [exact Hb |].
  destruct (Hd _ (or_introl eq_refl)) as (cc & cb & Hcc & Hcb & Hdel & _). exists cc, cb. split; [exact Hcc |]. split; [exact Hcb | exact Hdel].
Defined.
