(* ===== verification/Identity.v ===== *)
(** * Identity: file-backed peer identities (crypto/identity.go)

    [NewFileIdentity] loads an identity from a file or generates one and
    writes it there.  The file and the random source are inputs; the key
    primitives are those of [Channel], Ed25519 signing a parameter. *)

From Stdlib Require Import ZArith Lia Strings.Byte Strings.String.
From stdpp Require Import base sets strings list.
From S2P Require Import Prelude Binary Text Wire Channel.

Open Scope Z_scope.

Section Identity.
Context `{P : Primitives}.

Record fileIdentity := {
  xPriv : PrivateKey;
  edPriv : bytes;
  xPub : bytes
}.

Record fileIdentityBlob := {
  X25519Private : bytes;
  Ed25519Private : bytes
}.

(** [ed25519.PrivateKeySize] *)
Definition PrivateKeySize : Z := 64.

Definition decodeFileIdentity (blob : fileIdentityBlob) : result fileIdentity :=
  if negb (len (X25519Private blob) =? 32) then
    Err (EFmt "identity x25519 private: want 32 bytes, got %d" [AInt (len (X25519Private blob))])
  else if negb (len (Ed25519Private blob) =? PrivateKeySize) then
    Err (EFmt "identity ed25519 private: want %d bytes, got %d" [AInt PrivateKeySize; AInt (len (Ed25519Private blob))])
  else
    let! k := rwrap "parse x25519: %w" [] (NewPrivateKey (X25519Private blob)) in
    Ok {| xPriv := k; edPriv := Ed25519Private blob; xPub := pub_bytes (priv_public k) |}.

(** The file at the path: absent, unreadable, or its contents. *)
Inductive file :=
  | Missing
  | Unreadable (err : error)
  | Contents (b : bytes).

(** What generation meets: the two generated keys and the write. *)
Record GenEnv := {
  genX25519 : result PrivateKey;
  genEd25519 : result bytes;
  writeErr : option error
}.

(** The result, and the file afterwards. *)
Definition NewFileIdentity `{JSON fileIdentityBlob} (path : string) (f : file) (e : GenEnv)
    : file * result fileIdentity :=
  match f with
  | Contents b =>
      match Unmarshal b with
      | Err err => (f, Err (EWrap "parse identity %s: %w" [AStr path] err))
      | Ok blob => (f, decodeFileIdentity blob)
      end
  | Unreadable err => (f, Err (EWrap "read identity %s: %w" [AStr path] err))
  | Missing =>
      match genX25519 e with
      | Err err => (f, Err (EWrap "generate x25519: %w" [] err))
      | Ok k =>
          match genEd25519 e with
          | Err err => (f, Err (EWrap "generate ed25519: %w" [] err))
          | Ok ed =>
              let blob := {| X25519Private := priv_bytes k; Ed25519Private := ed |} in
              match Marshal blob with
              | Err err => (f, Err (EWrap "marshal identity: %w" [] err))
              | Ok out =>
                  match writeErr e with
                  | Some err => (f, Err (EWrap "write identity %s: %w" [AStr path] err))
                  | None => (Contents out, decodeFileIdentity blob)
                  end
              end
          end
      end
  end.

(** [base64.RawURLEncoding] of the first 16 bytes of the key's SHA-256. *)
Definition InstanceID (f : fileIdentity) : string := bytes_str (b64Encode (take 16 (sha256 (xPub f)))).

Definition DeriveSharedSecret (f : fileIdentity) (peerPub info : bytes) : result bytes :=
  let! pub := rwrap "parse peer public key: %w" [] (NewPublicKey peerPub) in
  let! shared := ECDH (xPriv f) pub in
  hkdfDerive shared info.

(** [Sign], for Ed25519 signing [ed25519_Sign]. *)
Definition Sign (ed25519_Sign : bytes -> bytes -> bytes) (f : fileIdentity) (msg : bytes) : result bytes :=
  Ok (ed25519_Sign (edPriv f) msg).

(** SHA-256 sums are 32 bytes. *)
Class IdentityLaws := {
  length_sha256 b : length (sha256 b) = 32%nat
}.

(** The generated keys have the sizes Go documents. *)
Definition keySizes (e : GenEnv) : Prop :=
  (forall k, genX25519 e = Ok k -> len (priv_bytes k) = 32) /\
  (forall ed, genEd25519 e = Ok ed -> len ed = PrivateKeySize).

End Identity.

(** ** Theorems *)

Section Facts.
Context `{PL : PrimitivesLaws} {IL : IdentityLaws}.
Context {J : JSON fileIdentityBlob} {JL : JSONLaws fileIdentityBlob (fun _ => true)}.

Lemma decodeFileIdentity_generated k ed : len (priv_bytes k) = 32 -> len ed = PrivateKeySize ->
  decodeFileIdentity {| X25519Private := priv_bytes k; Ed25519Private := ed |} =
    Ok {| xPriv := k; edPriv := ed; xPub := pub_bytes (priv_public k) |}.
Proof.
  intros Hk Hed. unfold decodeFileIdentity. cbn [X25519Private Ed25519Private].
  rewrite Hk, Hed, Z.eqb_refl. cbn. by rewrite NewPrivateKey_bytes.
Qed.

Lemma decodeFileIdentity_pub b f : decodeFileIdentity b = Ok f -> xPub f = pub_bytes (priv_public (xPriv f)).
Proof.
  unfold decodeFileIdentity. destruct (negb _); [done |]. destruct (negb _); [done |].
  destruct (NewPrivateKey _); cbn; [| done]. by intros [= <-].
Qed.

Lemma NewFileIdentity_pub path fl e fl' f : NewFileIdentity path fl e = (fl', Ok f) ->
  xPub f = pub_bytes (priv_public (xPriv f)).
Proof.
  unfold NewFileIdentity. destruct fl as [|err|b]; [| done |].
  - destruct (genX25519 e); [| done]. destruct (genEd25519 e); [| done].
    destruct (Marshal _); [| done]. destruct (writeErr e); [done |]. intros [= _ H].
    by eapply decodeFileIdentity_pub.
  - destruct (Unmarshal b); [| done]. intros [= _ H]. by eapply decodeFileIdentity_pub.
Qed.

(** Lengths of encoded 16 bytes. *)
Lemma length_b64_16 bs : length bs = 16%nat -> length (b64Encode bs) = 22%nat.
Proof.
  intros H. do 16 (destruct bs as [|? bs]; [done |]). by destruct bs.
Qed.

Lemma InstanceID_bytes f : length (str_bytes (InstanceID f)) = 22%nat /\
  Forall (fun c => isB64 c = true) (str_bytes (InstanceID f)).
Proof.
  unfold InstanceID. rewrite str_bytes_str. split; [| apply b64Encode_chars].
  apply length_b64_16. rewrite length_take, length_sha256. done.
Qed.

End Facts.

(** A peer's identity persists: the first [NewFileIdentity] on a missing
    file, when the keys are generated and the file is written, returns an
    identity, and every later call on that file returns the same one without
    changing it, whatever the random source yields; on a failure of any step
    nothing is written; and what is loaded from a file never changes it. *)
Theorem identity_persists {P : Primitives} {PL : PrimitivesLaws P}
    {J : JSON fileIdentityBlob} {JL : JSONLaws fileIdentityBlob (fun _ => true)}
    (path : string) (e : GenEnv) (k : PrivateKey) (ed : bytes) :
  genX25519 e = Ok k -> genEd25519 e = Ok ed -> keySizes e -> writeErr e = None ->
  exists b f, NewFileIdentity path Missing e = (Contents b, Ok f) /\ xPriv f = k /\
    (forall e', NewFileIdentity path (Contents b) e' = (Contents b, Ok f)) /\
    (forall e' fl err, keySizes e' ->
       (NewFileIdentity path fl e').2 = Err err -> (NewFileIdentity path fl e').1 = fl).
Proof.
  intros Hk Hed [Hlk Hled] Hw. specialize (Hlk k Hk). specialize (Hled ed Hed).
  destruct (json_roundtrip {| X25519Private := priv_bytes k; Ed25519Private := ed |} eq_refl) as (b & Hm & Hu).
  exists b, {| xPriv := k; edPriv := ed; xPub := pub_bytes (priv_public k) |}. split_and!.
  - unfold NewFileIdentity. rewrite Hk, Hed, Hm, Hw. by rewrite decodeFileIdentity_generated.
  - done.
  - intros e'. unfold NewFileIdentity. rewrite Hu. by rewrite decodeFileIdentity_generated.
  - intros e' fl err [Hk' Hed']. destruct fl as [|er|c]; cbn [NewFileIdentity]; [| done | by destruct (Unmarshal c)].
    destruct (genX25519 e') as [k'|]; [| done]. destruct (genEd25519 e') as [ed'|]; [| done].
    destruct (Marshal {| X25519Private := priv_bytes k'; Ed25519Private := ed' |}); [| done].
    destruct (writeErr e'); [done |]. by rewrite decodeFileIdentity_generated by auto.
Qed.

(** A codec for the witness. *)
Definition blobCodec : JSON fileIdentityBlob := {|
  Marshal b := Ok (mark (X25519Private b) ++ mark (Ed25519Private b));
  Unmarshal bs := let '(x, bs) := unmark bs in let '(e, _) := unmark bs in
                  Ok {| X25519Private := x; Ed25519Private := e |}
|}.

Lemma blobCodec_laws : JSONLaws fileIdentityBlob (fun _ => true) (J := blobCodec).
Proof.
  constructor. intros [x e] _. eexists. split; [reflexivity |]. cbn [Unmarshal blobCodec X25519Private Ed25519Private].
  rewrite unmark_mark. rewrite <-(app_nil_r (mark e)), unmark_mark. done.
Qed.

Definition toyEnv : GenEnv (P := toy) :=
  {| genX25519 := Ok (replicate 32 x07) : result (PrivateKey (Primitives := toy));
     genEd25519 := Ok (replicate 64 x09); writeErr := None |}.

Lemma identity_persists_witness :
  exists b f, NewFileIdentity (P := toy) (H := blobCodec) "id.json" Missing toyEnv = (Contents b, Ok f) /\
    (forall e', NewFileIdentity (H := blobCodec) "id.json" (Contents b) e' = (Contents b, Ok f)).
Proof.
  destruct (@identity_persists toy toy_laws blobCodec blobCodec_laws "id.json" toyEnv
              (replicate 32 x07) (replicate 64 x09)) as (b & f & H1 & _ & H2 & _).
  - reflexivity.
  - reflexivity.
  - split; intros ? [= <-]; reflexivity.
  - reflexivity.
  - exists b, f. split; [exact H1 | exact H2].
Defined.

(** Identities agree and name themselves safely: any two identities
    [NewFileIdentity] returned derive the same secret from each other's public
    key, under the same label; an instance id is 22 characters of the URL-safe
    base64 alphabet, so the relay accepts its length and a greeting carries it
    unchanged; and two keys with the same instance id are a collision in the
    first 16 bytes of SHA-256. *)
Theorem identities_agree {P : Primitives} {PL : PrimitivesLaws P} {IL : IdentityLaws} {J : JSON fileIdentityBlob}
    (pathA pathB : string) (fA fB : file) (eA eB : GenEnv) (a b : fileIdentity) (info : bytes) :
  (NewFileIdentity pathA fA eA).2 = Ok a -> (NewFileIdentity pathB fB eB).2 = Ok b ->
  DeriveSharedSecret a (xPub b) info = DeriveSharedSecret b (xPub a) info /\
  length (str_bytes (InstanceID a)) = 22%nat /\
  Forall (fun c => isB64 c = true) (str_bytes (InstanceID a)) /\
  DecodeRelayGreeting (EncodeRelayGreetingConnect (InstanceID a)) =
    Ok {| Variant := RelayGreetingConnect; InstanceId := InstanceID a; Token := EmptyString |} /\
  (InstanceID a = InstanceID b -> take 16 (sha256 (xPub a)) = take 16 (sha256 (xPub b))).
Proof.
  intros Ha Hb. destruct (NewFileIdentity pathA fA eA) as [fA' ra] eqn:EA. cbn in Ha. subst ra.
  destruct (NewFileIdentity pathB fB eB) as [fB' rb] eqn:EB. cbn in Hb. subst rb.
  apply NewFileIdentity_pub in EA, EB. destruct (InstanceID_bytes a) as [Hlen Hch]. split_and!; try done.
  - unfold DeriveSharedSecret. rewrite EA, EB, !NewPublicKey_bytes. cbn. by rewrite ECDH_comm.
  - apply (greeting_roundtrip {| Variant := RelayGreetingConnect; InstanceId := InstanceID a; Token := EmptyString |}).
    split; [apply not_elem_of_nil | done].
  - unfold InstanceID. intros He. apply (f_equal str_bytes) in He. rewrite !str_bytes_str in He.
    by apply b64Encode_inj.
Qed.

Lemma toy_identity_laws : IdentityLaws (P := toy).
Proof. split. intros b. apply length_pad. Qed.

Lemma identities_agree_witness :
  let a := {| xPriv := replicate 32 x07 : PrivateKey (Primitives := toy); edPriv := replicate 64 x09; xPub := replicate 32 x07 |} in
  (NewFileIdentity (P := toy) (H := blobCodec) "a" Missing toyEnv).2 = Ok a /\
  length (str_bytes (InstanceID a)) = 22%nat.
Proof.
  intros a. split; [reflexivity |].
  apply (@identities_agree toy toy_laws toy_identity_laws blobCodec "a" "a" Missing Missing toyEnv toyEnv a a []);
    reflexivity.
Defined.
