(* ===== verification/Datagram.v ===== *)
(** * Datagram: part framing and datagram channels (fragment.go, api.go)

    The outer framing of a QUIC datagram ([encodePartWire] /
    [decodePartWire]), the splitting of a logical message into parts
    ([Datagram.Send]) and the demultiplexing of received parts
    ([Session.deliverIncomingDatagram]).  The AEAD channel is used through
    the class [DgChannel]; the crypto package's datagram channel is an
    instance of its laws, so the end-to-end theorem is proved against the
    interface and holds for that implementation. *)

From Stdlib Require Import ZArith Lia Strings.Byte Strings.String.
From stdpp Require Import base gmap sets strings list fin_maps.
From S2P Require Import Prelude Binary Wire Channel Cwire.

Open Scope Z_scope.

(** ** Constants and the part type *)

Definition DgConnWhole : byte := x00.
Definition DgConnFragment : byte := x40.
Definition FragHeaderSize : Z := 8.
Definition MaxDatagramPayload : Z := 1200.
Definition aeadOverhead : Z := 8 + 16.

Definition ErrDatagramTooLarge : error := ENew "datagram too large to fragment".
Definition ErrClosedPipe : error := ENew "io: read/write on closed pipe".

Record DatagramPart := {
  MsgID : Z;
  Index : Z;
  Total : Z;
  Payload : bytes
}.

Definition maxAppChunk (maxPayload outerOverhead channelIDLen : Z) : Z :=
  let budget := maxPayload - outerOverhead - aeadOverhead - channelIDLen in
  if budget <? 1 then 1 else budget.

Definition encodePartWire (msgID index total : Z) (ct : bytes) : bytes :=
  if total <=? 1 then DgConnWhole :: ct
  else (DgConnFragment :: be_put 4 msgID ++ be_put 2 index ++ be_put 2 total) ++ ct.

(** [None] is [ok = false]. *)
Definition decodePartWire (data : bytes) : option (Z * Z * Z * bytes) :=
  if len data <? 2 then None else
  match data with
  | [] => None
  | tag :: body =>
      if bool_decide (tag = DgConnWhole) then Some (0, 0, 1, body)
      else if bool_decide (tag = DgConnFragment) then
        if len data <? 1 + FragHeaderSize then None else
        let msgID := be_get (take 4 (drop 1 data)) in
        let index := be_get (take 2 (drop 5 data)) in
        let total := be_get (take 2 (drop 7 data)) in
        if (total <? 2) || (total <=? index) then None
        else Some (msgID, index, total, drop 9 data)
      else Some (0, 0, 1, data)
  end.

(** ** Interfaces *)

(** The AEAD channel of a session, as [Encrypt] / [Decrypt] of cwire.Channel. *)
Class DgChannel (Ch : Type) := {
  ch_encrypt : Ch -> bytes -> Ch * result bytes;
  ch_decrypt : Ch -> bytes -> Ch * result bytes
}.

(** What a sender and a receiver channel promise each other over a lossy
    path: [ch_synced n s r] says [r] accepts what [s] sends next, for at
    least [n] more packets, lost packets included.  Packets stay below the
    range of a C [int]. *)
Class DgChannelLaws (Ch : Type) `{DgChannel Ch} := {
  ch_synced : nat -> Ch -> Ch -> Prop;
  ch_encrypt_ok n s r pt : ch_synced (S n) s r -> len pt + aeadOverhead < 2 ^ 31 ->
    exists s' ct, ch_encrypt s pt = (s', Ok ct) /\ len ct = len pt + aeadOverhead /\
      ch_synced n s' r /\
      exists r', ch_decrypt r ct = (r', Ok pt) /\ ch_synced n s' r'
}.

(** The datagram side of a carrier. *)
Class DgTransport (T : Type) := {
  tr_SendDatagram : T -> bytes -> T * option error
}.

(** ** Sending *)

Section Send.
Context {Ch T : Type} `{DgChannel Ch} `{DgTransport T}.

(** The state [Datagram.Send] touches: the session's datagram channel and
    carrier, its payload limit and the process-wide message counter. *)
Record DgSender := {
  dgChannel : option Ch;
  transport : option T;
  maxDgPayload : Z;
  nextFragMsgID : Z
}.

Definition with_channel (d : DgSender) (c : Ch) : DgSender :=
  {| dgChannel := Some c; transport := transport d; maxDgPayload := maxDgPayload d;
     nextFragMsgID := nextFragMsgID d |}.
Definition with_transport (d : DgSender) (t : T) : DgSender :=
  {| dgChannel := dgChannel d; transport := Some t; maxDgPayload := maxDgPayload d;
     nextFragMsgID := nextFragMsgID d |}.
Definition with_msgID (d : DgSender) (m : Z) : DgSender :=
  {| dgChannel := dgChannel d; transport := transport d; maxDgPayload := maxDgPayload d;
     nextFragMsgID := m |}.

(** How a call ends: nil, an error, or a run-time panic (slice out of range). *)
Inductive outcome :=
  | Done
  | Failed (e : error)
  | Panic.

(** [payload[start:end]]: [None] when the bounds are out of range. *)
Definition slice (payload : bytes) (start stop : Z) : option bytes :=
  if (0 <=? start) && (start <=? stop) && (stop <=? len payload)
  then Some (slice_to (slice_from payload start) (stop - start)) else None.

(** The body of the loop of [Send]: encrypt one chunk and send its datagram. *)
Definition send_part (d : DgSender) (c : Ch) (t : T) (id msgID i total : Z) (chunk : bytes)
    (wrap : error -> error) : DgSender * outcome :=
  let plain := EncodeDatagramPlaintext id chunk in
  match ch_encrypt c plain with
  | (c, Err err) => (with_channel d c, Failed (wrap err))
  | (c, Ok ct) =>
      let d := with_channel d c in
      match tr_SendDatagram t (encodePartWire msgID (u16 i) (u16 total) ct) with
      | (t, Some err) => (with_transport d t, Failed err)
      | (t, None) => (with_transport d t, Done)
      end
  end.

(** [for i := 0; i < total; i++]; [n] counts the iterations left. *)
Fixpoint send_loop (n : nat) (d : DgSender) (id msgID i total chunkBudget : Z) (payload : bytes)
    : DgSender * outcome :=
  match n with
  | O => (d, Done)
  | S n' =>
      let start := i * chunkBudget in
      let stop := if len payload <? start + chunkBudget then len payload else start + chunkBudget in
      match slice payload start stop, dgChannel d, transport d with
      | None, _, _ => (d, Panic)
      | Some chunk, Some c, Some t =>
          match send_part d c t id msgID i total chunk
                  (EWrap "datagram: encrypt part %d: %w" [AInt i]) with
          | (d, Done) => send_loop n' d id msgID (i + 1) total chunkBudget payload
          | (d, o) => (d, o)
          end
      | _, _, _ => (d, Panic)
      end
  end.

(** [Datagram.Send] on the channel with id [id]. *)
Definition Send (d : DgSender) (id : Z) (payload : bytes) : DgSender * outcome :=
  match dgChannel d with
  | None => (d, Failed (ENew "datagram: no AEAD channel (pairing-mode session)"))
  | Some c =>
      match transport d with
      | None => (d, Failed ErrClosedPipe)
      | Some t =>
          let maxP := if maxDgPayload d <=? 0 then MaxDatagramPayload else maxDgPayload d in
          let wholeBudget := maxAppChunk maxP 1 10 in
          if len payload <=? wholeBudget then
            send_part d c t id 0 0 1 payload (EWrap "datagram: encrypt: %w" [])
          else
            let chunkBudget := maxAppChunk maxP (1 + FragHeaderSize) 10 in
            if chunkBudget <? 1 then (d, Failed ErrDatagramTooLarge) else
            let total := (len payload + chunkBudget - 1) / chunkBudget in
            if 65535 <? total then (d, Failed ErrDatagramTooLarge) else
            let total := if total <? 2 then 2 else total in
            let msgID := u32 (nextFragMsgID d + 1) in
            send_loop (Z.to_nat total) (with_msgID d msgID) id msgID 0 total chunkBudget payload
      end
  end.
End Send.

(** ** Receiving *)

Section Receive.
Context {Ch : Type} `{DgChannel Ch}.

(** The receiving side of a session: its datagram channel, the queues of its
    declared channels by id, and whether its context is done. *)
Record DgReceiver := {
  rxChannel : option Ch;
  datagrams : gmap Z (list DatagramPart);
  ctxDone : bool
}.

(** Capacity of [Datagram.rx]. *)
Definition rxCap : nat := 64.

Definition with_rxChannel (r : DgReceiver) (c : Ch) : DgReceiver :=
  {| rxChannel := Some c; datagrams := datagrams r; ctxDone := ctxDone r |}.
Definition enqueue (r : DgReceiver) (id : Z) (q : list DatagramPart) : DgReceiver :=
  {| rxChannel := rxChannel r; datagrams := <[id := q]> (datagrams r); ctxDone := ctxDone r |}.

(** [deliverIncomingDatagram].  [pick] resolves the [select] when both the
    queue has room and the context is done. *)
Definition deliverIncomingDatagram (pick : bool) (r : DgReceiver) (payload : bytes) : DgReceiver :=
  match rxChannel r with
  | None => r
  | Some c =>
      match decodePartWire payload with
      | None => r
      | Some (msgID, index, total, ct) =>
          if len ct =? 0 then r else
          match ch_decrypt c ct with
          | (c, Err _) => with_rxChannel r c
          | (c, Ok plain) =>
              let r := with_rxChannel r c in
              match DecodeDatagramPlaintext plain with
              | Err _ => r
              | Ok (id, body) =>
                  match datagrams r !! id with
                  | None => r
                  | Some q =>
                      let part := {| MsgID := msgID; Index := index; Total := total; Payload := body |} in
                      if (length q <? rxCap)%nat && (negb (ctxDone r) || pick)
                      then enqueue r id (q ++ [part]) else r
                  end
              end
          end
      end
  end.

Definition deliverAll (pick : bool) (r : DgReceiver) (wires : list bytes) : DgReceiver :=
  foldl (deliverIncomingDatagram pick) r wires.

(** [datagramLoop] over the outcomes of [ReceiveDatagram], up to the first
    error; [None]: the session has no carrier when the loop starts. *)
Fixpoint datagramLoop (pick : bool) (r : DgReceiver) (received : list (result bytes)) : DgReceiver :=
  match received with
  | [] | Err _ :: _ => r
  | Ok data :: received => datagramLoop pick (deliverIncomingDatagram pick r data) received
  end.

(** [Datagram.Recv]: the ready cases of its [select], one of which is taken;
    [callerDone] is the caller's context.  [rx] is never closed. *)
Inductive recvCase := TakePart | CallerDone | SessionDone.

Definition Recv (r : DgReceiver) (id : Z) (callerDone : bool) (c : recvCase)
    : option (DgReceiver * result DatagramPart) :=
  match c with
  | TakePart =>
      match datagrams r !! id with
      | Some (part :: q) => Some (enqueue r id q, Ok part)
      | _ => None
      end
  | CallerDone => if callerDone then Some (r, Err (ENew "context canceled")) else None
  | SessionDone => if ctxDone r then Some (r, Err ErrClosedPipe) else None
  end.

(** Receiving until the queue is empty. *)
Fixpoint recvAll (r : DgReceiver) (id : Z) (n : nat) : option (DgReceiver * list DatagramPart) :=
  match n with
  | O => Some (r, [])
  | S n =>
      match Recv r id false TakePart with
      | Some (r, Ok part) =>
          match recvAll r id n with Some (r, parts) => Some (r, part :: parts) | None => None end
      | _ => None
      end
  end.

Lemma datagramLoop_delivers pick r wires tail :
  datagramLoop pick r (map Ok wires ++ [Err tail]) = deliverAll pick r wires.
Proof. revert r. induction wires as [|w wires IH]; intros r; [done |]. apply IH. Qed.

(** The parts queued on a channel come out in order. *)
Lemma recvAll_queue q : forall r id, datagrams r !! id = Some q ->
  exists r', recvAll r id (length q) = Some (r', q) /\ datagrams r' !! id = Some [].
Proof.
  induction q as [|part q IH]; intros r id Hq; [by exists r |].
  cbn [length recvAll Recv]. rewrite Hq. cbn.
  destruct (IH (enqueue r id q) id) as (r' & Hr & He); [apply lookup_insert_eq |].
  exists r'. by rewrite Hr.
Qed.
End Receive.

(** ** Specification of splitting *)

(** The [j]-th part of a message sent in [total] parts of at most [n] bytes. *)
Definition part_at (msgID total : Z) (n : nat) (payload : bytes) (j : nat) : DatagramPart :=
  {| MsgID := msgID; Index := Z.of_nat j; Total := total; Payload := take n (drop (j * n) payload) |}.

Definition message_parts (msgID total : Z) (n : nat) (payload : bytes) : list DatagramPart :=
  map (part_at msgID total n payload) (seq 0 (Z.to_nat total)).

Lemma concat_parts msgID total n payload k : forall i,
  concat (map Payload (map (part_at msgID total n payload) (seq i k))) =
    take (k * n) (drop (i * n) payload).
Proof.
  induction k as [|k IH]; intros i; [done |]. cbn [seq map concat Payload part_at].
  rewrite IH. replace (S i * n)%nat with (i * n + n)%nat by lia.
  rewrite <-drop_drop, take_take_drop. done.
Qed.

(** The parts of a message are its bytes, in order. *)
Lemma message_parts_concat msgID total n payload :
  (length payload <= Z.to_nat total * n)%nat ->
  concat (map Payload (message_parts msgID total n payload)) = payload.
Proof.
  intros Hl. unfold message_parts. rewrite concat_parts. rewrite drop_0.
  apply take_ge. lia.
Qed.

(** ** Lemmas: framing of a part *)

Lemma decode_whole ct : 1 <= len ct -> decodePartWire (encodePartWire 0 0 1 ct) = Some (0, 0, 1, ct).
Proof.
  intros Hc. change (encodePartWire 0 0 1 ct) with (DgConnWhole :: ct).
  unfold decodePartWire. rewrite len_cons, (proj2 (Z.ltb_ge _ 2)) by lia. done.
Qed.

Lemma decode_fragment msgID index total ct :
  0 <= msgID < 2 ^ 32 -> 0 <= index < total -> 2 <= total < 2 ^ 16 ->
  decodePartWire (encodePartWire msgID index total ct) = Some (msgID, index, total, ct).
Proof.
  intros Hm Hi Ht. unfold encodePartWire. rewrite (proj2 (Z.leb_gt total 1)) by lia.
  set (h1 := be_put 4 msgID). set (h2 := be_put 2 index). set (h3 := be_put 2 total).
  assert (length h1 = 4%nat) as H1 by apply length_be_put.
  assert (length h2 = 2%nat) as H2 by apply length_be_put.
  assert (length h3 = 2%nat) as H3 by apply length_be_put.
  assert (be_get h1 = msgID) as G1 by (apply be_get_put; simpl; lia).
  assert (be_get h2 = index) as G2 by (apply be_get_put; simpl; lia).
  assert (be_get h3 = total) as G3 by (apply be_get_put; simpl; lia).
  clearbody h1 h2 h3.
  assert (Hlen : len ((DgConnFragment :: h1 ++ h2 ++ h3) ++ ct) = 9 + len ct).
  { unfold len. simpl. rewrite !length_app. lia. }
  unfold decodePartWire. rewrite Hlen. pose proof (len_nonneg ct).
  rewrite (proj2 (Z.ltb_ge _ 2)) by lia. cbn [app].
  rewrite bool_decide_false, bool_decide_true by done.
  rewrite (proj2 (Z.ltb_ge _ (1 + FragHeaderSize))) by (unfold FragHeaderSize; lia).
  assert (E1 : take 4 (drop 1 (DgConnFragment :: (h1 ++ h2 ++ h3) ++ ct)) = h1).
  { cbn [drop]. rewrite <-!app_assoc. by apply take_app_length'. }
  assert (E2 : take 2 (drop 5 (DgConnFragment :: (h1 ++ h2 ++ h3) ++ ct)) = h2).
  { cbn [drop]. rewrite <-!app_assoc. rewrite (drop_app_length' h1) by done.
    by apply take_app_length'. }
  assert (E3 : take 2 (drop 7 (DgConnFragment :: (h1 ++ h2 ++ h3) ++ ct)) = h3).
  { cbn [drop]. rewrite <-!app_assoc, (app_assoc h1).
    rewrite (drop_app_length' (h1 ++ h2)) by (rewrite length_app; lia).
    by apply take_app_length'. }
  assert (E4 : drop 9 (DgConnFragment :: (h1 ++ h2 ++ h3) ++ ct) = ct).
  { cbn [drop]. apply drop_app_length'. rewrite !length_app. lia. }
  rewrite E1, E2, E3, E4, G1, G2, G3.
  rewrite (proj2 (Z.ltb_ge _ 2)), (proj2 (Z.leb_gt _ _)) by lia. done.
Qed.

(** A decoded part is well numbered and its ciphertext is a tail of the datagram. *)
Lemma decodePartWire_valid data msgID index total ct :
  decodePartWire data = Some (msgID, index, total, ct) ->
  0 <= index < total /\ ct `suffix_of` data.
Proof.
  unfold decodePartWire. destruct (len data <? 2); [done |].
  destruct data as [|tag body]; [done |]. case_bool_decide.
  { intros [= <- <- <- <-]. split; [lia |]. by exists [tag]. }
  case_bool_decide.
  2:{ intros [= <- <- <- <-]. split; [lia | done]. }
  destruct (len (tag :: body) <? 1 + FragHeaderSize); [done |].
  destruct (_ || _) eqn:E; [done |]. intros [= <- <- <- <-]. bool_hyps.
  split; [| exact (suffix_drop (tag :: body) 9)]. split; [apply be_get_bound | done].
Qed.

(** The slice taken by iteration [i] is the [i]-th part's payload. *)
Lemma slice_part payload i cb :
  1 <= cb -> 0 <= i -> i * cb <= len payload ->
  slice payload (i * cb)
    (if len payload <? i * cb + cb then len payload else i * cb + cb) =
  Some (take (Z.to_nat cb) (drop (Z.to_nat i * Z.to_nat cb) payload)).
Proof.
  intros Hcb Hi Hle. unfold slice.
  replace (Z.to_nat i * Z.to_nat cb)%nat with (Z.to_nat (i * cb)) by (rewrite Z2Nat.inj_mul; lia).
  destruct (Z.ltb_spec (len payload) (i * cb + cb)) as [Hlt|Hge];
    rewrite (proj2 (Z.leb_le 0 _)), !(proj2 (Z.leb_le _ _)) by nia; cbn [andb]; f_equal.
  - unfold len in *. rewrite !take_ge; [done | rewrite length_drop; lia..].
  - f_equal. lia.
Qed.

Lemma ceil_bounds l cb : 1 <= cb -> 1 <= l ->
  let total := (l + cb - 1) / cb in (total - 1) * cb < l <= total * cb.
Proof.
  intros Hcb Hl. cbn zeta.
  pose proof (Z.div_mod (l + cb - 1) cb ltac:(lia)) as Hd.
  pose proof (Z.mod_pos_bound (l + cb - 1) cb ltac:(lia)). nia.
Qed.

(** ** Lemmas: sending and receiving *)

(** A carrier that keeps the datagrams it is given, in order. *)
#[export] Instance sent_list : DgTransport (list bytes) := {
  tr_SendDatagram t data := (t ++ [data], None)
}.

Section EndToEnd.
Context {Ch : Type} `{L : DgChannelLaws Ch}.

(** Delivery of one sealed part to a declared channel with room. *)
Lemma deliver_sealed pick (rcv : DgReceiver (Ch := Ch)) c r' msgID index total ct wire id body q :
  rxChannel rcv = Some c -> decodePartWire wire = Some (msgID, index, total, ct) -> 1 <= len ct ->
  ch_decrypt c ct = (r', Ok (EncodeDatagramPlaintext id body)) -> 0 <= id < 2 ^ 64 ->
  datagrams rcv !! id = Some q -> (length q < rxCap)%nat -> ctxDone rcv = false ->
  deliverIncomingDatagram pick rcv wire =
    {| rxChannel := Some r';
       datagrams := <[id := q ++ [{| MsgID := msgID; Index := index; Total := total; Payload := body |}]]>
                      (datagrams rcv);
       ctxDone := false |}.
Proof.
  intros Hc Hd Hlen Hdec Hid Hq Hroom Hctx. unfold deliverIncomingDatagram.
  rewrite Hc, Hd, (proj2 (Z.eqb_neq _ 0)), Hdec by lia.
  rewrite datagram_plaintext_roundtrip by done. cbn [with_rxChannel datagrams ctxDone].
  rewrite Hq, Hctx, (proj2 (Nat.ltb_lt _ _)) by done. simpl.
  unfold enqueue. simpl. by rewrite Hctx.
Qed.

Lemma len_plain id body : len (EncodeDatagramPlaintext id body) <= 10 + len body.
Proof.
  unfold EncodeDatagramPlaintext. rewrite len_app. pose proof (len_PutUvarint id).
  unfold MaxVarintLen64 in *. lia.
Qed.

(** One step of [Send] over a collecting carrier: exactly one datagram goes
    out, within the size bound, and any synchronised receiver gets its part
    or stays synchronised without it. *)
Lemma send_part_ok d (c r : Ch) t n id msgID i total chunk wrap :
  ch_synced (S n) c r -> 0 <= id < 2 ^ 64 -> len chunk < 2 ^ 30 ->
  (total = 1 /\ msgID = 0 /\ i = 0) \/ (0 <= msgID < 2 ^ 32 /\ 0 <= i < total /\ 2 <= total < 2 ^ 16) ->
  exists c' wire,
    send_part d c t id msgID i total chunk wrap =
      (with_transport (with_channel d c') (t ++ [wire]), Done) /\
    len wire <= (if total <=? 1 then 1 else 9) + 34 + len chunk /\
    (forall r1, ch_synced (S n) c r1 -> ch_synced n c' r1) /\
    forall pick rcv r1 q, ch_synced (S n) c r1 -> rxChannel rcv = Some r1 ->
      datagrams rcv !! id = Some q -> (length q < rxCap)%nat -> ctxDone rcv = false ->
      exists r', ch_synced n c' r' /\
        deliverIncomingDatagram pick rcv wire =
          {| rxChannel := Some r';
             datagrams := <[id := q ++ [{| MsgID := msgID; Index := i; Total := total; Payload := chunk |}]]>
                            (datagrams rcv);
             ctxDone := false |}.
Proof.
  intros Hs Hid Hck Hcase. unfold send_part.
  assert (Hsz : len (EncodeDatagramPlaintext id chunk) + aeadOverhead < 2 ^ 31).
  { pose proof (len_plain id chunk). unfold aeadOverhead. lia. }
  destruct (ch_encrypt_ok n c r (EncodeDatagramPlaintext id chunk) Hs Hsz)
    as (c' & ct & Henc & Hlen & Hs' & _).
  rewrite Henc. cbn [tr_SendDatagram sent_list].
  assert (Hu : u16 i = i /\ u16 total = total).
  { split; apply u16_small; lia. }
  destruct Hu as [-> ->].
  pose proof (len_plain id chunk) as Hpl. unfold aeadOverhead in Hlen.
  pose proof (len_nonneg (EncodeDatagramPlaintext id chunk)).
  assert (Hdec : decodePartWire (encodePartWire msgID i total ct) = Some (msgID, i, total, ct)).
  { destruct Hcase as [(-> & -> & ->) | (? & ? & ?)];
      [apply decode_whole; lia | by apply decode_fragment]. }
  exists c', (encodePartWire msgID i total ct). split; [done |]. split.
  { unfold encodePartWire. destruct (Z.leb_spec total 1); [rewrite len_cons; lia |].
    rewrite len_app. change (DgConnFragment :: ?l) with ([DgConnFragment] ++ l).
    rewrite !len_app. unfold len at 1 2 3 4. rewrite !length_be_put. simpl length. lia. }
  split.
  { intros r1 Hs1. destruct (ch_encrypt_ok n c r1 (EncodeDatagramPlaintext id chunk) Hs1 Hsz)
      as (c1 & ct1 & Henc1 & _ & Hs1' & _). congruence. }
  intros pick rcv r1 q Hs1 Hrx Hq Hroom Hctx.
  destruct (ch_encrypt_ok n c r1 (EncodeDatagramPlaintext id chunk) Hs1 Hsz)
    as (c1 & ct1 & Henc1 & _ & _ & r' & Hdec1 & Hs1').
  rewrite Henc in Henc1. injection Henc1 as <- <-.
  exists r'. split; [done |]. by eapply deliver_sealed; [..| apply Hdec1 | | | |]; try done; lia.
Qed.
(** [rcv] receives exactly [parts] on channel [id], after what its queue held. *)
Definition received (rcv : DgReceiver (Ch := Ch)) (id : Z) (q parts : list DatagramPart)
    (rcv' : DgReceiver (Ch := Ch)) : Prop :=
  exists r', rcv' = {| rxChannel := Some r'; datagrams := <[id := q ++ parts]> (datagrams rcv);
                       ctxDone := false |}.

Lemma send_loop_ok n : forall d (c r : Ch) t k id msgID i total cb payload,
  dgChannel d = Some c -> transport d = Some t -> ch_synced (n + k) c r ->
  0 <= id < 2 ^ 64 -> 0 <= msgID < 2 ^ 32 -> 2 <= total < 2 ^ 16 -> 1 <= cb < 2 ^ 30 ->
  0 <= i -> i + Z.of_nat n = total -> (total - 1) * cb < len payload ->
  exists d' wires,
    send_loop n d id msgID i total cb payload = (d', Done) /\
    transport d' = Some (t ++ wires) /\ length wires = n /\
    Forall (fun w => len w <= 43 + cb) wires /\
    forall pick sel rcv r1 q,
      sel `sublist_of` zip (map (part_at msgID total (Z.to_nat cb) payload) (seq (Z.to_nat i) n)) wires ->
      ch_synced (n + k) c r1 -> rxChannel rcv = Some r1 -> datagrams rcv !! id = Some q ->
      (length q + length sel <= rxCap)%nat -> ctxDone rcv = false ->
      received rcv id q (map fst sel) (deliverAll pick rcv (map snd sel)).
Proof.
  induction n as [|n IH];
    intros d c r t k id msgID i total cb payload Hc Ht Hsync Hid Hm Htot Hcb Hi Hin Hlen.
  { exists d, []. rewrite app_nil_r. split_and!; try done.
    intros pick sel rcv r1 q Hsub _ Hrx Hq _ Hctx. apply sublist_nil_r in Hsub as ->.
    exists r1. destruct rcv; simpl in *. subst. rewrite app_nil_r. by rewrite insert_id. }
  cbn [send_loop]. rewrite slice_part by (try lia; nia). rewrite Hc, Ht.
  set (chunk := take (Z.to_nat cb) (drop (Z.to_nat i * Z.to_nat cb) payload)).
  destruct (send_part_ok d c r t (n + k) id msgID i total chunk
              (EWrap "datagram: encrypt part %d: %w" [AInt i]) Hsync Hid
              ltac:(subst chunk; unfold len; rewrite length_take; lia) ltac:(right; lia))
    as (c' & wire & -> & Hwl & Hs' & Hdel).
  destruct (IH (with_transport (with_channel d c') (t ++ [wire])) c' r (t ++ [wire]) k id msgID
              (i + 1) total cb payload eq_refl eq_refl (Hs' r Hsync) Hid Hm Htot Hcb ltac:(lia) ltac:(lia) Hlen)
    as (d' & wires & -> & Htr & Hn & Hall & Hrecv).
  exists d', (wire :: wires). rewrite Htr, <-app_assoc. split_and!; [done | done | by simpl; f_equal | |].
  { constructor; [| done]. rewrite (proj2 (Z.leb_gt total 1)) in Hwl by lia.
    assert (len chunk <= cb) by (unfold chunk, len; rewrite length_take; lia). lia. }
  replace (Z.to_nat (i + 1)) with (S (Z.to_nat i)) in Hrecv by lia.
  intros pick sel rcv r1 q Hsub Hs1 Hrx Hq Hroom Hctx. cbn [seq map zip zip_with] in Hsub.
  apply sublist_cons_r in Hsub as [Hsub | (sel' & -> & Hsub)].
  - eapply Hrecv; try done. by apply Hs'.
  - cbn [length] in Hroom.
    destruct (Hdel pick rcv r1 q Hs1 Hrx Hq ltac:(lia) Hctx) as (r' & Hs1' & Hd).
    unfold deliverAll. cbn [map foldl fst snd]. rewrite Hd.
    set (part := {| MsgID := msgID; Index := i; Total := total; Payload := chunk |}) in *.
    assert (Hp : part_at msgID total (Z.to_nat cb) payload (Z.to_nat i) = part).
    { unfold part_at. by rewrite Z2Nat.id by lia. }
    destruct (Hrecv pick sel'
                {| rxChannel := Some r'; datagrams := <[id := q ++ [part]]> (datagrams rcv); ctxDone := false |}
                r' (q ++ [part]) Hsub Hs1' eq_refl) as (r2 & Hr2).
    { apply lookup_insert_eq. }
    { rewrite length_app. simpl. lia. }
    { done. }
    exists r2. unfold deliverAll in Hr2. rewrite Hr2, Hp. cbn [datagrams].
    rewrite insert_insert_eq, <-app_assoc. done.
Qed.
End EndToEnd.

(** ** Lemmas: [Send] *)

Definition effectiveMax {Ch T} (d : DgSender (Ch := Ch) (T := T)) : Z :=
  if maxDgPayload d <=? 0 then MaxDatagramPayload else maxDgPayload d.

Lemma maxAppChunk_spec maxP outer : 
  1 <= maxAppChunk maxP outer 10 /\ maxAppChunk maxP outer 10 = Z.max 1 (maxP - outer - 34).
Proof. unfold maxAppChunk, aeadOverhead. destruct (Z.ltb_spec (maxP - outer - (8 + 16) - 10) 1); lia. Qed.

(** A payload over the whole-message budget needs at least two parts, so the
    correction [total = 2] never applies. *)
Lemma total_ge_2 maxP l : maxAppChunk maxP 1 10 < l ->
  2 <= (l + maxAppChunk maxP (1 + FragHeaderSize) 10 - 1) / maxAppChunk maxP (1 + FragHeaderSize) 10.
Proof.
  destruct (maxAppChunk_spec maxP 1) as [_ ->].
  destruct (maxAppChunk_spec maxP (1 + FragHeaderSize)) as [? ->]. intros Hl.
  unfold FragHeaderSize in *. apply Z.div_le_lower_bound; lia.
Qed.

Section SendLemmas.
Context {Ch T : Type} `{DgChannel Ch} `{DgTransport T}.

Lemma send_part_no_panic (d : DgSender (Ch := Ch) (T := T)) c t id msgID i total chunk wrap :
  exists d' o, send_part d c t id msgID i total chunk wrap = (d', o) /\ o <> Panic /\
    dgChannel d' <> None /\ (o = Done -> transport d' <> None).
Proof.
  unfold send_part. destruct (ch_encrypt _ _) as [c' [ct|e]]; [| by eexists _, _].
  destruct (tr_SendDatagram _ _) as [t' [e|]]; by eexists _, _.
Qed.

(** The slice of every iteration is in range. *)
Lemma send_loop_no_panic n : forall (d : DgSender (Ch := Ch) (T := T)) id msgID i total cb payload,
  dgChannel d <> None -> transport d <> None ->
  1 <= cb -> 0 <= i -> i + Z.of_nat n = total -> (total - 1) * cb < len payload ->
  (send_loop n d id msgID i total cb payload).2 <> Panic.
Proof.
  induction n as [|n IH]; intros d id msgID i total cb payload Hc Ht Hcb Hi Hin Hlen; [done |].
  cbn [send_loop]. rewrite slice_part by (try lia; nia).
  destruct (dgChannel d) as [c|]; [| done]. destruct (transport d) as [t|]; [| done].
  match goal with |- context [send_part ?d ?c ?t ?id ?m ?i ?tt ?ch ?w] =>
    destruct (send_part_no_panic d c t id m i tt ch w) as (d' & o & -> & Ho & Hc' & Ht') end.
  destruct o; try done. apply IH; auto; lia.
Qed.
End SendLemmas.

(** ** Properties *)

(** [Datagram.Send] never slices its payload out of range, whatever the
    payload, the configured limit, the channel and the carrier do. *)
Theorem send_never_panics {Ch T} `{DgChannel Ch} `{DgTransport T}
    (d : DgSender (Ch := Ch) (T := T)) (id : Z) (payload : bytes) :
  (Send d id payload).2 <> Panic.
Proof.
  unfold Send. destruct (dgChannel d) as [c|] eqn:Hc; [| done].
  destruct (transport d) as [t|] eqn:Ht; [| done].
  set (maxP := if maxDgPayload d <=? 0 then _ else _).
  destruct (Z.leb_spec (len payload) (maxAppChunk maxP 1 10)) as [_|Hbig].
  { match goal with |- context [send_part ?d ?c ?t ?id ?m ?i ?tt ?ch ?w] =>
      destruct (send_part_no_panic d c t id m i tt ch w) as (d' & o & -> & Ho & _) end. done. }
  pose proof (total_ge_2 maxP _ Hbig) as H2.
  destruct (maxAppChunk_spec maxP (1 + FragHeaderSize)) as [Hcb _].
  destruct (maxAppChunk_spec maxP 1) as [Hw _].
  set (cb := maxAppChunk maxP (1 + FragHeaderSize) 10) in *.
  destruct (cb <? 1); [done |].
  pose proof (ceil_bounds (len payload) cb Hcb ltac:(lia)) as Hceil. cbn zeta in Hceil.
  set (total := (len payload + cb - 1) / cb) in *.
  destruct (65535 <? total); [done |].
  rewrite (proj2 (Z.ltb_ge total 2)) by done.
  apply send_loop_no_panic; simpl; rewrite ?Hc, ?Ht; try done; lia.
Qed.

(** [Send d id payload] succeeds and puts [parts], and only them, on the
    carrier, within [limit] bytes per datagram. *)
Definition sent_as {Ch} `{L : DgChannelLaws Ch} (d : DgSender (Ch := Ch) (T := list bytes))
    (c : Ch) (t : list bytes) (id limit : Z) (payload : bytes)
    (out : DgSender (Ch := Ch) (T := list bytes) * outcome) : Prop :=
  exists d' wires parts m,
    out = (d', Done) /\ transport d' = Some (t ++ wires) /\
    concat (map Payload parts) = payload /\ length wires = length parts /\
    (forall j p, parts !! j = Some p -> MsgID p = m /\ Index p = Z.of_nat j /\ Total p = len parts) /\
    (44 <= limit -> Forall (fun w => len w <= limit) wires) /\
    forall pick sel rcv r1 q,
      sel `sublist_of` zip parts wires ->
      ch_synced (Z.to_nat 65535) c r1 -> rxChannel rcv = Some r1 -> datagrams rcv !! id = Some q ->
      (length q + length sel <= rxCap)%nat -> ctxDone rcv = false ->
      received rcv id q (map fst sel) (deliverAll pick rcv (map snd sel)).

Lemma send_whole_ok {Ch} `{L : DgChannelLaws Ch} d (c r : Ch) t id maxP payload :
  ch_synced (Z.to_nat 65535) c r -> 0 <= id < 2 ^ 64 -> len payload <= maxAppChunk maxP 1 10 -> maxP < 2 ^ 30 ->
  sent_as d c t id maxP payload
    (send_part d c t id 0 0 1 payload (EWrap "datagram: encrypt: %w" [])).
Proof.
  intros Hs Hid Hsmall Hmax. assert (Hck : len payload < 2 ^ 30) by (destruct (maxAppChunk_spec maxP 1) as [_ He]; lia).
  destruct (send_part_ok d c r t (Z.to_nat 65534) id 0 0 1 payload
              (EWrap "datagram: encrypt: %w" []) Hs Hid Hck ltac:(left; done))
    as (c' & wire & -> & Hlen & Hs' & Hdel).
  exists (with_transport (with_channel d c') (t ++ [wire])), [wire],
    [{| MsgID := 0; Index := 0; Total := 1; Payload := payload |}], 0.
  split_and!; try done.
  - simpl. by rewrite app_nil_r.
  - intros j p Hj. apply list_lookup_singleton_Some in Hj as [-> <-]. done.
  - intros H44. constructor; [| done]. destruct (maxAppChunk_spec maxP 1) as [_ He]. simpl in Hlen. lia.
  - intros pick sel rcv r1 q Hsub Hs1 Hrx Hq Hroom Hctx.
    apply sublist_cons_r in Hsub as [Hsub | (sel' & -> & Hsub)];
      apply sublist_nil_r in Hsub as ->.
    + exists r1. destruct rcv; simpl in *. subst. by rewrite app_nil_r, insert_id.
    + simpl in Hroom. destruct (Hdel pick rcv r1 q Hs1 Hrx Hq ltac:(lia) Hctx) as (r' & _ & Hd).
      exists r'. apply Hd.
Qed.

Lemma send_fragments_ok {Ch} `{L : DgChannelLaws Ch} d (c r : Ch) t id msgID maxP cb total payload :
  dgChannel d = Some c -> transport d = Some t -> ch_synced (Z.to_nat 65535) c r ->
  0 <= id < 2 ^ 64 -> 0 <= msgID < 2 ^ 32 -> cb = Z.max 1 (maxP - 43) -> maxP < 2 ^ 30 ->
  2 <= total <= 65535 -> (total - 1) * cb < len payload <= total * cb ->
  sent_as d c t id maxP payload (send_loop (Z.to_nat total) d id msgID 0 total cb payload).
Proof.
  intros Hc Ht Hs Hid Hm Hcb Hmax Htot Hceil.
  pose (k := (Z.to_nat 65535 - Z.to_nat total)%nat).
  assert (Hk : Z.to_nat 65535 = (Z.to_nat total + k)%nat) by lia.
  destruct (send_loop_ok (Z.to_nat total) d c r t k id msgID 0 total cb payload)
    as (d' & wires & -> & Htr & Hn & Hall & Hrecv); try done; try lia; [by rewrite <-Hk |].
  exists d', wires, (message_parts msgID total (Z.to_nat cb) payload), msgID.
  assert (Hlp : length (message_parts msgID total (Z.to_nat cb) payload) = Z.to_nat total).
  { unfold message_parts. by rewrite length_map, length_seq. }
  rewrite Hk. split_and!; try done.
  - apply message_parts_concat. unfold len in *. rewrite <-Z2Nat.inj_mul by lia. lia.
  - by rewrite Hlp.
  - intros j p Hj. unfold len. rewrite Hlp. unfold message_parts in Hj.
    apply list_lookup_fmap_Some in Hj as (x & -> & Hj). apply lookup_seq in Hj as [-> _].
    split_and!; simpl; lia.
  - intros H44. eapply Forall_impl; [apply Hall |]. simpl. lia.
Qed.

(** What [Send] puts on the wire and what the peer queues of it. *)
Lemma send_queues_parts {Ch} `{L : DgChannelLaws Ch} (d : DgSender (Ch := Ch) (T := list bytes))
    (c r : Ch) (t : list bytes) (id : Z) (payload : bytes) :
  dgChannel d = Some c -> transport d = Some t -> ch_synced (Z.to_nat 65535) c r -> 0 <= id < 2 ^ 64 ->
  len payload <= 65535 * maxAppChunk (effectiveMax d) (1 + FragHeaderSize) 10 ->
  effectiveMax d < 2 ^ 30 ->
  exists d' wires parts m,
    Send d id payload = (d', Done) /\ transport d' = Some (t ++ wires) /\
    concat (map Payload parts) = payload /\ length wires = length parts /\
    (forall j p, parts !! j = Some p -> MsgID p = m /\ Index p = Z.of_nat j /\ Total p = len parts) /\
    (44 <= effectiveMax d -> Forall (fun w => len w <= effectiveMax d) wires) /\
    forall pick sel rcv r1 q,
      sel `sublist_of` zip parts wires ->
      ch_synced (Z.to_nat 65535) c r1 -> rxChannel rcv = Some r1 -> datagrams rcv !! id = Some q ->
      (length q + length sel <= rxCap)%nat -> ctxDone rcv = false ->
      received rcv id q (map fst sel) (deliverAll pick rcv (map snd sel)).
Proof.
  intros Hc Ht Hs Hid Hmax Hlim. unfold Send. rewrite Hc, Ht. fold (effectiveMax d).
  set (maxP := effectiveMax d) in *. clearbody maxP.
  destruct (Z.leb_spec (len payload) (maxAppChunk maxP 1 10)) as [Hsmall|Hbig].
  { eapply send_whole_ok; eauto. }
  pose proof (total_ge_2 maxP _ Hbig) as H2.
  destruct (maxAppChunk_spec maxP (1 + FragHeaderSize)) as [Hcb Hcbe].
  destruct (maxAppChunk_spec maxP 1) as [Hw _].
  set (cb := maxAppChunk maxP (1 + FragHeaderSize) 10) in *. unfold FragHeaderSize in Hcbe. clearbody cb.
  rewrite (proj2 (Z.ltb_ge cb 1)) by lia.
  pose proof (ceil_bounds (len payload) cb Hcb ltac:(lia)) as Hceil. cbn zeta in Hceil.
  set (total := (len payload + cb - 1) / cb) in *. clearbody total.
  assert (total <= 65535) by nia.
  rewrite (proj2 (Z.ltb_ge 65535 total)), (proj2 (Z.ltb_ge total 2)) by lia.
  eapply send_fragments_ok; eauto; [| lia].
  unfold u32. apply Z.mod_pos_bound. lia.
Qed.

(** C11. [Datagram.Send] end to end over a lossy carrier.  Every payload of
    at most 65535 chunks is sent, as datagrams that fit the configured limit
    (from 44 bytes to a gigabyte); the parts concatenate to the payload, share one
    message id and total, and are numbered from zero; and whichever of the
    datagrams arrive, in order, at a synchronised receiver with room, its
    [datagramLoop] queues exactly their parts on the channel, changing no
    other queue, and its [Recv] calls return them in order after what was
    queued before. *)
Theorem send_delivers_parts {Ch} `{L : DgChannelLaws Ch} (d : DgSender (Ch := Ch) (T := list bytes))
    (c r : Ch) (t : list bytes) (id : Z) (payload : bytes) :
  dgChannel d = Some c -> transport d = Some t -> ch_synced (Z.to_nat 65535) c r -> 0 <= id < 2 ^ 64 ->
  len payload <= 65535 * maxAppChunk (effectiveMax d) (1 + FragHeaderSize) 10 ->
  effectiveMax d < 2 ^ 30 ->
  exists d' wires parts m,
    Send d id payload = (d', Done) /\ transport d' = Some (t ++ wires) /\
    concat (map Payload parts) = payload /\ length wires = length parts /\
    (forall j p, parts !! j = Some p -> MsgID p = m /\ Index p = Z.of_nat j /\ Total p = len parts) /\
    (44 <= effectiveMax d -> Forall (fun w => len w <= effectiveMax d) wires) /\
    forall pick sel rcv r1 q,
      sel `sublist_of` zip parts wires ->
      ch_synced (Z.to_nat 65535) c r1 -> rxChannel rcv = Some r1 -> datagrams rcv !! id = Some q ->
      (length q + length sel <= rxCap)%nat -> ctxDone rcv = false ->
      received rcv id q (map fst sel) (deliverAll pick rcv (map snd sel)) /\
      forall tail, exists rcv',
        recvAll (datagramLoop pick rcv (map Ok (map snd sel) ++ [Err tail])) id (length q + length sel) =
          Some (rcv', q ++ map fst sel).
Proof.
  intros Hc Ht Hs Hid Hmax Hlim.
  destruct (send_queues_parts d c r t id payload Hc Ht Hs Hid Hmax Hlim) as (d' & wires & parts & m & H1 & H2 & H3 & H4 & H5 & H6 & H7).
  exists d', wires, parts, m. split_and!; try done.
  intros pick sel rcv r1 q Hsel Hsy Hrx Hq Hlen Hctx.
  pose proof (H7 pick sel rcv r1 q Hsel Hsy Hrx Hq Hlen Hctx) as Hrec. split; [exact Hrec |].
  intros tail. rewrite datagramLoop_delivers. destruct Hrec as [r' ->].
  destruct (recvAll_queue (q ++ map fst sel)
    {| rxChannel := Some r'; datagrams := <[id := q ++ map fst sel]> (datagrams rcv); ctxDone := false |} id) as (rcv' & Hr & _);
    [apply lookup_insert_eq |].
  exists rcv'. by rewrite length_app, length_map in Hr.
Qed.

(** Every refusal of [Datagram.Send] leaves the sender untouched: no
    AEAD channel (a pairing-mode session), no carrier, or a payload that
    would need more than 65535 parts. *)
Theorem send_refusals {Ch T} `{DgChannel Ch} `{DgTransport T}
    (d : DgSender (Ch := Ch) (T := T)) (id : Z) (payload : bytes) :
  (dgChannel d = None ->
   Send d id payload = (d, Failed (ENew "datagram: no AEAD channel (pairing-mode session)"))) /\
  (dgChannel d <> None -> transport d = None -> Send d id payload = (d, Failed ErrClosedPipe)) /\
  (dgChannel d <> None -> transport d <> None -> maxAppChunk (effectiveMax d) 1 10 < len payload ->
   65535 * maxAppChunk (effectiveMax d) (1 + FragHeaderSize) 10 < len payload ->
   Send d id payload = (d, Failed ErrDatagramTooLarge)).
Proof.
  unfold Send. split_and!.
  - by intros ->.
  - intros Hc ->. by destruct (dgChannel d).
  - intros Hc Ht. destruct (dgChannel d), (transport d); try done. fold (effectiveMax d).
    set (maxP := effectiveMax d). intros Hw Hbig.
    rewrite (proj2 (Z.leb_gt _ _)) by done. destruct (_ <? 1); [done |].
    destruct (maxAppChunk_spec maxP (1 + FragHeaderSize)) as [Hcb _].
    pose proof (ceil_bounds (len payload) _ Hcb) as Hceil.
    rewrite (proj2 (Z.ltb_lt 65535 _)); [done |]. cbn zeta in Hceil. nia.
Qed.

(** What arrives cannot be forged, misrouted or overflow a queue: one
    incoming datagram either changes no queue, or appends one part to the
    queue of one declared channel that had room, the part's payload and
    channel id being exactly a plaintext the AEAD channel accepted. *)
Theorem receive_authentic_and_bounded {Ch} `{DgChannel Ch} (pick : bool)
    (r : DgReceiver (Ch := Ch)) (wire : bytes) :
  let r' := deliverIncomingDatagram pick r wire in
  datagrams r' = datagrams r \/
  exists c ct plain id q part,
    rxChannel r = Some c /\ (ch_decrypt c ct).2 = Ok plain /\ ct `suffix_of` wire /\
    DecodeDatagramPlaintext plain = Ok (id, Payload part) /\
    datagrams r !! id = Some q /\ (length q < rxCap)%nat /\
    0 <= Index part < Total part /\ datagrams r' = <[id := q ++ [part]]> (datagrams r).
Proof.
  cbn zeta. unfold deliverIncomingDatagram. destruct (rxChannel r) as [c|] eqn:Hc; [| by left].
  destruct (decodePartWire wire) as [[[[msgID index] total] ct]|] eqn:Hd; [| by left].
  destruct (len ct =? 0); [by left |].
  destruct (ch_decrypt c ct) as [c' [plain|e]] eqn:Hdec; [| by left].
  destruct (DecodeDatagramPlaintext plain) as [[id body]|e] eqn:Hp; [| by left].
  cbn [with_rxChannel datagrams ctxDone]. destruct (datagrams r !! id) as [q|] eqn:Hq; [| by left].
  destruct (Nat.ltb_spec (length q) rxCap); [| by left].
  destruct (_ && _); [right | by left].
  exists c, ct, plain, id, q, {| MsgID := msgID; Index := index; Total := total; Payload := body |}.
  rewrite Hdec. destruct (decodePartWire_valid _ _ _ _ _ Hd). split_and!; try done; simpl; lia.
Qed.

(** ** The channel of a session *)

#[export] Instance cwire_dg {P : Primitives} {So : Sodium P} : DgChannel pigeon_channel := {
  ch_encrypt := cwEncrypt;
  ch_decrypt := cwDecrypt
}.

Definition dg_synced {P : Primitives} (n : nat) (s r : pigeon_channel) : Prop :=
  exists g, NewGCM (send_key s) = Ok g /\ NewGCM (recv_key r) = Ok g /\
    0 <= recv_seq r <= send_seq s /\ send_seq s + Z.of_nat n < 2 ^ 64 /\ cmode r = ModeDatagrams.

#[export] Instance cwire_dg_laws {P : Primitives} {PL : PrimitivesLaws P} {So : Sodium P} {SL : SodiumLaws So} :
  DgChannelLaws pigeon_channel.
Proof.
  refine {| ch_synced := dg_synced |}.
  intros n s r pt (g & Hg & Hg' & Hr & Hs & Hm) Hl. unfold aeadOverhead in *. cbn [ch_encrypt ch_decrypt cwire_dg].
  rewrite (cwEncrypt_packet s g pt Hg) by lia. eexists _, _. split; [done |]. split; [apply len_packet |].
  rewrite u64_small by lia. split.
  { exists g. cbn. split_and!; [done | done | lia | lia | lia | done]. }
  rewrite (cwDecrypt_packet r g), u64_small by (try done; try lia; rewrite Hm; lia).
  eexists. split; [done |]. exists g. cbn. split_and!; [done | done | lia | lia | lia | done].
Defined.

(** ** Witnesses *)

#[local] Existing Instance toySodium.

Definition dg_peer : pigeon_channel := pigeon_channel_init key2 key1 ModeDatagrams.
Definition dg_tx : DgSender (Ch := pigeon_channel) (T := list bytes) :=
  {| dgChannel := Some (toyChannel ModeDatagrams); transport := Some []; maxDgPayload := 48; nextFragMsgID := 2 ^ 32 - 1 |}.
Definition dg_rx : DgReceiver (Ch := pigeon_channel) :=
  {| rxChannel := Some dg_peer; datagrams := {[ 7 := [] ]}; ctxDone := false |}.

Lemma dg_in_sync : dg_synced (P := toy) (Z.to_nat 65535) (toyChannel ModeDatagrams) dg_peer.
Proof. exists key1. split_and!; done. Qed.

Lemma send_delivers_parts_witness : exists d' wires,
  Send dg_tx 7 (str_bytes "twelve bytes") = (d', Done) /\ transport d' = Some wires /\
  Forall (fun w => len w <= 48) wires /\ (deliverAll true dg_rx wires).(datagrams) !! 7 <> None.
Proof.
  destruct (send_delivers_parts dg_tx (toyChannel ModeDatagrams) dg_peer [] 7 (str_bytes "twelve bytes"))
    as (d' & wires & parts & m & Hs & Ht & _ & Hl & _ & Hfit & Hdel).
  - done.
  - done.
  - exact dg_in_sync.
  - lia.
  - vm_compute. done.
  - vm_compute. done.
  - exists d', wires. split_and!; [done | done | by apply Hfit |].
    destruct (Hdel true [] dg_rx dg_peer [] (sublist_nil_l _)) as [_ Hrecv].
    + exact dg_in_sync.
    + done.
    + done.
    + simpl. unfold rxCap. lia.
    + done.
    + clear -Hs Ht. assert (Hw : (Send dg_tx 7 (str_bytes "twelve bytes")).1.(transport) = Some wires)
        by (rewrite Hs; done).
      vm_compute in Hw. injection Hw as <-. vm_compute. done.
Defined.
