(* ===== verification/Hub.v ===== *)
(** * Hub: the relay (session.go, quicserver.go, webtransport.go, auth.go)

    The hub of registered backends, the admission hooks, and the connection
    handlers of both relay servers.  Each connection is served by one
    goroutine: its handler is a program of type [prog], written in the order
    of the source, and the relay is a step function that interleaves the
    programs of all connections with the environment (arrivals, failures and
    disconnects).  Every access to shared state is one step.

    An [instance] is a pointer to a struct whose fields never change, so the
    record with its address [iaddr] stands for the pointer and equality of
    records for pointer equality. *)

From Stdlib Require Import ZArith Lia Strings.Byte Strings.String.
From stdpp Require Import base gmap sets strings list fin_maps.
From S2P Require Import Prelude Binary Wire.

Open Scope Z_scope.

(** ** Admission (auth.go) *)

(** [x509.Certificate.Verify] against a pool of roots. *)
Class X509 := {
  Certificate : Type;
  CertPool : Type;
  cert_Verify : CertPool -> Certificate -> option error
}.

Definition connID := nat.

Section Auth.
Context `{X : X509}.

Record ConnectionState := {
  PeerCertificates : list Certificate
}.

(** The parts of a WebTransport upgrade request the relay reads. *)
Record httpRequest := {
  Header_Authorization : string;
  Query_token : string
}.

Record RegisterRequest := {
  rr_Token : string;
  rr_InstanceID : string;
  rr_TLS : option ConnectionState;
  rr_QUICConn : option connID;
  rr_HTTPRequest : option httpRequest
}.

Record ConnectRequest := {
  cr_InstanceID : string;
  cr_TLS : option ConnectionState;
  cr_QUICConn : option connID;
  cr_HTTPRequest : option httpRequest
}.

(** A nil hook accepts everything; a hook returns nil ([None]) to admit. *)
Record Auth := {
  VerifyRegister : option (RegisterRequest -> option error);
  VerifyConnect : option (ConnectRequest -> option error)
}.

Definition ErrUnauthorized : error := ENew "unauthorized".

(** [subtle.ConstantTimeCompare] is 1 exactly on equal byte strings. *)
Definition BearerTokenAuth (token : string) : Auth :=
  if bool_decide (token = EmptyString) then {| VerifyRegister := None; VerifyConnect := None |}
  else {| VerifyRegister := Some (fun req =>
            if negb (bool_decide (str_bytes (rr_Token req) = str_bytes token))
            then Some ErrUnauthorized else None);
          VerifyConnect := None |}.

Definition MutualTLSAuth (pool : CertPool) : Auth :=
  {| VerifyRegister := Some (fun req =>
       match rr_TLS req with
       | None => Some ErrUnauthorized
       | Some tls =>
           match PeerCertificates tls with
           | [] => Some ErrUnauthorized
           | cert :: _ => cert_Verify pool cert
           end
       end);
     VerifyConnect := None |}.

Definition bearerToken (r : httpRequest) : string :=
  let prefix := str_bytes "Bearer " in
  let h := str_bytes (Header_Authorization r) in
  if HasPrefix h prefix then bytes_str (drop (length prefix) h) else Query_token r.

(** [hex.EncodeToString] and [generateID] on the 16 bytes the random source yields. *)
Definition hexDigit (z : Z) : byte := z2b (if z <? 10 then 48 + z else 87 + z).
Definition EncodeToString (b : bytes) : string :=
  bytes_str (flat_map (fun x => [hexDigit (b2z x / 16); hexDigit (b2z x mod 16)]) b).
Definition generateID (b : bytes) : string := EncodeToString b.

(** ** Instances and handler programs *)

Record instance := {
  iaddr : nat;
  id : string;
  control : connID
}.

#[export] Instance instance_eq_dec : EqDecision instance.
Proof. solve_decision. Defined.

(** What a handler does next.  Continuations receive the call's result;
    an [option error] is a Go [error], [None] being nil. *)
Inductive prog :=
  | Ret
  | AcceptPrimary (k : option error -> prog)
  | ReadHandshake (k : result bytes -> prog)
  | RandRead (k : bytes -> prog)
  | NewInstance (i : string) (k : instance -> prog)
  | HubRegister (inst : instance) (k : option error -> prog)
  | HubDelete (inst : instance) (k : bool -> prog)
  | CancelInst (inst : instance) (k : prog)
  | HubGet (i : string) (k : option instance -> prog)
  | WriteMsg (data : bytes) (k : option error -> prog)
  | CloseWith (c : connID) (code : Z) (reason : string) (k : prog)
  | AwaitDone (k : prog)
  | ParkListen (inst : instance) (k : option error -> prog)
  | MatchListen (inst : instance) (k : result connID -> prog)
  | Bridge (inst : instance) (client backend : connID) (k : prog).

(** [hub.unregister]: delete the slot if it is still this instance's, under
    the lock; then, outside it, cancel. *)
Definition unregister (inst : instance) (k : prog) : prog :=
  HubDelete inst (fun owns => if owns then CancelInst inst k else k).

(** Serve a registered backend: wait for the connection to end; the deferred
    [unregister] runs on return. *)
Definition serveRegistered (inst : instance) : prog :=
  AwaitDone (unregister inst Ret).

(** ** The raw QUIC server (quicserver.go) *)

Section QUIC.
Context (auth : Auth) (tls : ConnectionState) (conn : connID).

Definition verifyRegisterQUIC (token i : string) : option error :=
  match VerifyRegister auth with
  | None => None
  | Some verify =>
      verify {| rr_Token := token; rr_InstanceID := i; rr_TLS := Some tls;
                rr_QUICConn := Some conn; rr_HTTPRequest := None |}
  end.

Definition verifyConnectQUIC (i : string) : option error :=
  match VerifyConnect auth with
  | None => None
  | Some verify =>
      verify {| cr_InstanceID := i; cr_TLS := Some tls; cr_QUICConn := Some conn;
                cr_HTTPRequest := None |}
  end.

Definition handleRegisterQUIC (token requestedID : string) : prog :=
  match verifyRegisterQUIC token requestedID with
  | Some _ => CloseWith conn 1 "unauthorized" Ret
  | None =>
      let withID i :=
        NewInstance i (fun inst =>
        HubRegister inst (fun err =>
        match err with
        | Some _ => CloseWith conn 1 "instance ID in use" Ret
        | None =>
            WriteMsg (str_bytes i) (fun err =>
            match err with
            | Some _ => CloseWith conn 1 "failed to write ID" (unregister inst Ret)
            | None => serveRegistered inst
            end)
        end)) in
      if bool_decide (requestedID = EmptyString) then RandRead (fun b => withID (generateID b))
      else withID requestedID
  end.

Definition handleListenQUIC (token instanceID : string) : prog :=
  if bool_decide (instanceID = EmptyString) then CloseWith conn 1 "missing instance ID" Ret else
  match verifyRegisterQUIC token instanceID with
  | Some _ => CloseWith conn 1 "unauthorized" Ret
  | None =>
      HubGet instanceID (fun inst =>
      match inst with
      | None => CloseWith conn 1 "instance not found" Ret
      | Some inst =>
          WriteMsg (str_bytes instanceID) (fun err =>
          match err with
          | Some _ => CloseWith conn 1 "write ack failed" Ret
          | None =>
              ParkListen inst (fun err =>
              match err with
              | Some _ => CloseWith conn 0 EmptyString Ret
              | None => Ret
              end)
          end)
      end)
  end.

Definition handleConnectQUIC (instanceID : string) : prog :=
  if (slen instanceID =? 0) || (64 <? slen instanceID)
  then CloseWith conn 1 "invalid instance ID" Ret else
  match verifyConnectQUIC instanceID with
  | Some _ => CloseWith conn 1 "unauthorized" Ret
  | None =>
      HubGet instanceID (fun inst =>
      match inst with
      | None => CloseWith conn 1 "instance not found" Ret
      | Some inst =>
          MatchListen inst (fun r =>
          match r with
          | Err _ => CloseWith conn 1 "no listener" Ret
          | Ok listen =>
              WriteMsg (str_bytes "ok") (fun err =>
              match err with
              | Some _ => CloseWith conn 1 "write ack failed" (CloseWith listen 0 EmptyString Ret)
              | None => Bridge inst conn listen Ret
              end)
          end)
      end)
  end.

(** [handleConnection].  The default branch of the switch is unreachable:
    the decoder yields only the three variants. *)
Definition handleConnection : prog :=
  AcceptPrimary (fun err =>
  match err with
  | Some _ => CloseWith conn 1 "failed to accept stream" Ret
  | None =>
      ReadHandshake (fun r =>
      match r with
      | Err _ => CloseWith conn 1 "failed to read handshake" Ret
      | Ok handshake =>
          match DecodeRelayGreeting handshake with
          | Err _ => CloseWith conn 1 "bad handshake" Ret
          | Ok dec =>
              match Variant dec with
              | RelayGreetingRegister => handleRegisterQUIC (Token dec) (InstanceId dec)
              | RelayGreetingListen => handleListenQUIC (Token dec) (InstanceId dec)
              | RelayGreetingConnect => handleConnectQUIC (InstanceId dec)
              end
          end
      end)
  end).
End QUIC.

(** ** The WebTransport server (webtransport.go) *)

Section WebTransport.
Context (auth : Auth) (tls : option ConnectionState) (r : httpRequest) (conn : connID).

Definition verifyRegisterWT (token i : string) : option error :=
  match VerifyRegister auth with
  | None => None
  | Some verify =>
      verify {| rr_Token := token; rr_InstanceID := i; rr_TLS := tls;
                rr_QUICConn := None; rr_HTTPRequest := Some r |}
  end.

Definition verifyConnectWT (i : string) : option error :=
  match VerifyConnect auth with
  | None => None
  | Some verify =>
      verify {| cr_InstanceID := i; cr_TLS := tls; cr_QUICConn := None;
                cr_HTTPRequest := Some r |}
  end.

(** [sess.Close()] is [CloseWithError(0, "")]. *)
Definition sessClose (c : connID) (k : prog) : prog := CloseWith c 0 EmptyString k.

Definition handleRegisterWT (token requestedID : string) : prog :=
  match verifyRegisterWT token requestedID with
  | Some _ => sessClose conn Ret
  | None =>
      let withID i :=
        NewInstance i (fun inst =>
        HubRegister inst (fun err =>
        match err with
        | Some _ => sessClose conn Ret
        | None =>
            WriteMsg (str_bytes i) (fun err =>
            match err with
            | Some _ => sessClose conn (unregister inst Ret)
            | None => serveRegistered inst
            end)
        end)) in
      if bool_decide (requestedID = EmptyString) then RandRead (fun b => withID (generateID b))
      else withID requestedID
  end.

Definition handleListenWT (token instanceID : string) : prog :=
  if bool_decide (instanceID = EmptyString) then sessClose conn Ret else
  match verifyRegisterWT token instanceID with
  | Some _ => sessClose conn Ret
  | None =>
      HubGet instanceID (fun inst =>
      match inst with
      | None => sessClose conn Ret
      | Some inst =>
          WriteMsg (str_bytes instanceID) (fun err =>
          match err with
          | Some _ => sessClose conn Ret
          | None =>
              ParkListen inst (fun err =>
              match err with
              | Some _ => sessClose conn Ret
              | None => Ret
              end)
          end)
      end)
  end.

Definition handleConnectWT (instanceID : string) : prog :=
  if bool_decide (instanceID = EmptyString) then sessClose conn Ret else
  match verifyConnectWT instanceID with
  | Some _ => sessClose conn Ret
  | None =>
      HubGet instanceID (fun inst =>
      match inst with
      | None => sessClose conn Ret
      | Some inst =>
          MatchListen inst (fun r =>
          match r with
          | Err _ => sessClose conn Ret
          | Ok listen =>
              WriteMsg (str_bytes "ok") (fun err =>
              match err with
              | Some _ => sessClose conn (sessClose listen Ret)
              | None => Bridge inst conn listen Ret
              end)
          end)
      end)
  end.

(** [handlePigeon], from the upgraded session on. *)
Definition handlePigeon : prog :=
  AcceptPrimary (fun err =>
  match err with
  | Some _ => CloseWith conn 0 "failed to accept stream" Ret
  | None =>
      ReadHandshake (fun rd =>
      match rd with
      | Err _ => CloseWith conn 0 "failed to read handshake" Ret
      | Ok handshake =>
          match DecodeRelayGreeting handshake with
          | Err _ => CloseWith conn 0 "bad handshake" Ret
          | Ok dec =>
              let token := if bool_decide (Token dec = EmptyString) then bearerToken r else Token dec in
              match Variant dec with
              | RelayGreetingRegister => handleRegisterWT token (InstanceId dec)
              | RelayGreetingListen => handleListenWT token (InstanceId dec)
              | RelayGreetingConnect => handleConnectWT (InstanceId dec)
              end
          end
      end)
  end).
End WebTransport.

(** ** The relay as a step function *)

(** What a peer connected with. *)
Inductive peer :=
  | QuicPeer (tls : ConnectionState)
  | WTPeer (tls : option ConnectionState) (r : httpRequest).

(** A connection: whether its context and (WebTransport) its upgrade
    request's context are done, the messages written to its primary stream,
    how it was closed by the relay, and the handshake read from it. *)
Record connState := {
  cpeer : peer;
  done : bool;
  reqDone : bool;
  sent : list bytes;
  closes : list (Z * string);
  greeting : option bytes
}.

Definition set_done (cs : connState) : connState :=
  {| cpeer := cpeer cs; done := true; reqDone := reqDone cs; sent := sent cs;
     closes := closes cs; greeting := greeting cs |}.
Definition set_reqDone (cs : connState) : connState :=
  {| cpeer := cpeer cs; done := done cs; reqDone := true; sent := sent cs;
     closes := closes cs; greeting := greeting cs |}.
Definition add_sent (m : bytes) (cs : connState) : connState :=
  {| cpeer := cpeer cs; done := done cs; reqDone := reqDone cs; sent := sent cs ++ [m];
     closes := closes cs; greeting := greeting cs |}.
Definition add_close (code : Z) (reason : string) (cs : connState) : connState :=
  if done cs then cs else
  {| cpeer := cpeer cs; done := true; reqDone := reqDone cs; sent := sent cs;
     closes := closes cs ++ [(code, reason)]; greeting := greeting cs |}.
Definition set_greeting (m : bytes) (cs : connState) : connState :=
  {| cpeer := cpeer cs; done := done cs; reqDone := reqDone cs; sent := sent cs;
     closes := closes cs; greeting := Some m |}.

(** The relay: connections, their goroutines, the hub's map, the cancelled
    instances, the next free address, and (for the specification) the pairs
    (client, backend listen, instance) matched so far. *)
Record world := {
  conns : gmap connID connState;
  threads : gmap connID prog;
  instances : gmap string instance;
  cancelled : list instance;
  nextAddr : nat;
  matched : list (connID * connID * instance)
}.

Definition newHub : world :=
  {| conns := ∅; threads := ∅; instances := ∅; cancelled := []; nextAddr := 0; matched := [] |}.

Definition with_conns (w : world) (cs : gmap connID connState) : world :=
  {| conns := cs; threads := threads w; instances := instances w; cancelled := cancelled w;
     nextAddr := nextAddr w; matched := matched w |}.
Definition on_conn (f : connState -> connState) (c : connID) (w : world) : world :=
  with_conns w (alter f c (conns w)).
Definition set_thread (c : connID) (p : prog) (w : world) : world :=
  {| conns := conns w; threads := <[c := p]> (threads w); instances := instances w;
     cancelled := cancelled w; nextAddr := nextAddr w; matched := matched w |}.
Definition with_instances (w : world) (m : gmap string instance) : world :=
  {| conns := conns w; threads := threads w; instances := m; cancelled := cancelled w;
     nextAddr := nextAddr w; matched := matched w |}.
Definition add_cancelled (inst : instance) (w : world) : world :=
  {| conns := conns w; threads := threads w; instances := instances w;
     cancelled := inst :: cancelled w; nextAddr := nextAddr w; matched := matched w |}.
Definition bump (w : world) : world :=
  {| conns := conns w; threads := threads w; instances := instances w;
     cancelled := cancelled w; nextAddr := S (nextAddr w); matched := matched w |}.
Definition add_match (client l : connID) (inst : instance) (w : world) : world :=
  {| conns := conns w; threads := threads w; instances := instances w;
     cancelled := cancelled w; nextAddr := nextAddr w; matched := (client, l, inst) :: matched w |}.

Definition is_done (w : world) (c : connID) : bool :=
  match conns w !! c with Some cs => done cs | None => true end.

(** The context a handler passes to [parkListen] and [matchListen]. *)
Definition opDone (w : world) (c : connID) : bool :=
  match conns w !! c with
  | None => true
  | Some cs => match cpeer cs with QuicPeer _ => done cs | WTPeer _ _ => reqDone cs end
  end.

(** [inst.ctx]: a child of the control connection's context, cancelled by
    [inst.cancel]. *)
Definition inst_done (w : world) (inst : instance) : bool :=
  bool_decide (inst ∈ cancelled w) || is_done w (control inst).

(** [newInstance]. *)
Definition newInstance (w : world) (i : string) (c : connID) : instance :=
  {| iaddr := nextAddr w; id := i; control := c |}.

(** [hub.register]: refuse to displace a live instance. *)
Definition register (w : world) (inst : instance) : world * option error :=
  match instances w !! id inst with
  | Some cur =>
      if negb (inst_done w cur) then (w, Some (EFmt "instance %q already registered" [AStr (id inst)]))
      else (with_instances w (<[id inst := inst]> (instances w)), None)
  | None => (with_instances w (<[id inst := inst]> (instances w)), None)
  end.

(** The locked part of [hub.unregister]. *)
Definition hubDelete (w : world) (inst : instance) : world * bool :=
  let owns := match instances w !! id inst with
              | Some cur => bool_decide (cur = inst)
              | None => false
              end in
  (if owns then with_instances w (delete (id inst) (instances w)) else w, owns).

(** [hub.get]. *)
Definition get (w : world) (i : string) : option instance := instances w !! i.

(** What resolves a blocking or fallible call. *)
Inductive input :=
  | INil
  | IErr (e : error)
  | IBytes (b : bytes)
  | IListen (l : connID)
  | IInstDone
  | ICtxDone.

Definition ErrCanceled : error := ENew "context canceled".
Definition ErrInstGone : error := ENew "instance unregistered".

Definition handler (auth : Auth) (p : peer) (c : connID) : prog :=
  match p with
  | QuicPeer tls => handleConnection auth tls c
  | WTPeer tls r => handlePigeon auth tls r c
  end.

(** The waiting cases shared by [parkListen] and [matchListen]. *)
Definition waitEnds (w : world) (c : connID) (inst : instance) (i : input) : option error :=
  match i with
  | IInstDone => if inst_done w inst then Some ErrInstGone else None
  | ICtxDone => if opDone w c then Some ErrCanceled else None
  | _ => None
  end.

(** One step of the goroutine of connection [c], at program [p]; [None] when
    the call is not enabled with that outcome. *)
Definition runProg (w : world) (c : connID) (p : prog) (i : input) : option world :=
  match p, i with
  | AcceptPrimary k, INil => Some (set_thread c (k None) w)
  | AcceptPrimary k, IErr e => Some (set_thread c (k (Some e)) w)
  | ReadHandshake k, IBytes b => Some (set_thread c (k (Ok b)) (on_conn (set_greeting b) c w))
  | ReadHandshake k, IErr e => Some (set_thread c (k (Err e)) w)
  | RandRead k, IBytes b => Some (set_thread c (k b) w)
  | NewInstance i k, INil => Some (set_thread c (k (newInstance w i c)) (bump w))
  | HubRegister inst k, INil =>
      let '(w, err) := register w inst in Some (set_thread c (k err) w)
  | HubDelete inst k, INil =>
      let '(w, owns) := hubDelete w inst in Some (set_thread c (k owns) w)
  | CancelInst inst k, INil => Some (set_thread c k (add_cancelled inst w))
  | HubGet i k, INil => Some (set_thread c (k (get w i)) w)
  | WriteMsg m k, INil => Some (set_thread c (k None) (on_conn (add_sent m) c w))
  | WriteMsg m k, IErr e => Some (set_thread c (k (Some e)) w)
  | CloseWith c' code reason k, INil => Some (set_thread c k (on_conn (add_close code reason) c' w))
  | AwaitDone k, INil => if is_done w c then Some (set_thread c k w) else None
  | ParkListen inst k, _ =>
      match waitEnds w c inst i with
      | Some e => Some (set_thread c (k (Some e)) w)
      | None => None
      end
  | MatchListen inst k, IListen l =>
      match threads w !! l with
      | Some (ParkListen inst' k') =>
          if bool_decide (inst' = inst)
          then Some (set_thread c (k (Ok l)) (set_thread l (k' None) (add_match c l inst w)))
          else None
      | _ => None
      end
  | MatchListen inst k, _ =>
      match waitEnds w c inst i with
      | Some e => Some (set_thread c (k (Err e)) w)
      | None => None
      end
  | Bridge inst client backend k, INil =>
      Some (set_thread c k
        (on_conn (add_close 0 EmptyString) backend (on_conn (add_close 0 EmptyString) client w)))
  | _, _ => None
  end.

Inductive event :=
  | Arrive (c : connID) (p : peer)
  | Disconnect (c : connID)
  | RequestEnds (c : connID)
  | Run (c : connID) (i : input).

Definition step (auth : Auth) (w : world) (e : event) : option world :=
  match e with
  | Arrive c p =>
      match conns w !! c with
      | Some _ => None
      | None =>
          let cs := {| cpeer := p; done := false; reqDone := false; sent := []; closes := [];
                       greeting := None |} in
          Some (set_thread c (handler auth p c) (with_conns w (<[c := cs]> (conns w))))
      end
  | Disconnect c => Some (on_conn set_done c w)
  | RequestEnds c => Some (on_conn set_reqDone c w)
  | Run c i =>
      match threads w !! c with
      | Some p => runProg w c p i
      | None => None
      end
  end.

Fixpoint run (auth : Auth) (w : world) (es : list event) : option world :=
  match es with
  | [] => Some w
  | e :: es =>
      match step auth w e with
      | Some w => run auth w es
      | None => None
      end
  end.

Definition reachable (auth : Auth) (w : world) : Prop := exists es, run auth newHub es = Some w.

(** ** What a handler owes

    [admitted v i c p g] says the greeting [g] read from connection [c] asks
    for role [v] on instance [i] and that the relay's hook admitted it. *)

Definition greetToken (p : peer) (dec : RelayGreetingDecoded) : string :=
  match p with
  | QuicPeer _ => Token dec
  | WTPeer _ r => if bool_decide (Token dec = EmptyString) then bearerToken r else Token dec
  end.

(** The request a hook has to be asked about, and the hook's verdict on it: no
    hook admits everybody. *)
Definition registerRequest (p : peer) (c : connID) (token i : string) : RegisterRequest :=
  match p with
  | QuicPeer tls => {| rr_Token := token; rr_InstanceID := i; rr_TLS := Some tls; rr_QUICConn := Some c; rr_HTTPRequest := None |}
  | WTPeer tls r => {| rr_Token := token; rr_InstanceID := i; rr_TLS := tls; rr_QUICConn := None; rr_HTTPRequest := Some r |}
  end.

Definition connectRequest (p : peer) (c : connID) (i : string) : ConnectRequest :=
  match p with
  | QuicPeer tls => {| cr_InstanceID := i; cr_TLS := Some tls; cr_QUICConn := Some c; cr_HTTPRequest := None |}
  | WTPeer tls r => {| cr_InstanceID := i; cr_TLS := tls; cr_QUICConn := None; cr_HTTPRequest := Some r |}
  end.

Definition admits {A} (hook : option (A -> option error)) (req : A) : Prop :=
  forall verify, hook = Some verify -> verify req = None.

Lemma verified_admits {A} (hook : option (A -> option error)) (req : A) :
  match hook with None => None | Some verify => verify req end = None -> admits hook req.
Proof. intros H verify ->. exact H. Qed.

Definition admitted (auth : Auth) (v : RelayGreetingVariant) (i : string) (c : connID) (p : peer)
    (g : option bytes) : Prop :=
  exists b dec, g = Some b /\ DecodeRelayGreeting b = Ok dec /\ Variant dec = v /\
    match v with
    | RelayGreetingRegister =>
        (InstanceId dec = i \/ InstanceId dec = EmptyString) /\
        admits (VerifyRegister auth) (registerRequest p c (greetToken p dec) (InstanceId dec))
    | RelayGreetingListen =>
        InstanceId dec = i /\ admits (VerifyRegister auth) (registerRequest p c (greetToken p dec) i)
    | RelayGreetingConnect => InstanceId dec = i /\ admits (VerifyConnect auth) (connectRequest p c i)
    end.

(** Where a handler stands: holding no obligation, holding the registration
    of an instance, or owning a matched listen (closed or not). *)
Inductive phase :=
  | Fresh
  | Holding (inst : instance)
  | Matched (l : connID) (inst : instance) (lclosed : bool).

(** [duty c p g ph cl pr]: run from here, with greeting [g] read and [cl] if
    the connection is known to be over, the program [pr] of connection [c]
    keeps the handlers' contract on every path: it registers, parks or
    matches only when admitted, gives up a registration exactly once and only
    after its connection is over, never touches another handler's instance,
    and ends with the connection (and the listen it owns) closed. *)
Fixpoint duty (auth : Auth) (c : connID) (p : peer) (g : option bytes) (ph : phase) (cl : bool)
    (pr : prog) : Prop :=
  match pr with
  | Ret => match ph with
           | Fresh => cl = true
           | Holding _ => False
           | Matched _ _ lc => cl = true /\ lc = true
           end
  | AcceptPrimary k => forall e, duty auth c p g ph cl (k e)
  | ReadHandshake k =>
      g = None /\ (forall b, duty auth c p (Some b) ph cl (k (Ok b))) /\
      forall e, duty auth c p g ph cl (k (Err e))
  | RandRead k => forall b, duty auth c p g ph cl (k b)
  | NewInstance i k =>
      forall inst, id inst = i -> control inst = c -> duty auth c p g ph cl (k inst)
  | HubRegister inst k =>
      ph = Fresh /\ control inst = c /\ admitted auth RelayGreetingRegister (id inst) c p g /\
      duty auth c p g (Holding inst) cl (k None) /\ forall e, duty auth c p g Fresh cl (k (Some e))
  | HubDelete inst k => ph = Holding inst /\ cl = true /\ forall b, duty auth c p g Fresh cl (k b)
  | CancelInst inst k => control inst = c /\ cl = true /\ duty auth c p g ph cl k
  | HubGet i k =>
      duty auth c p g ph cl (k None) /\
      forall inst, id inst = i -> duty auth c p g ph cl (k (Some inst))
  | WriteMsg _ k => forall e, duty auth c p g ph cl (k e)
  | CloseWith c' _ _ k =>
      (c' = c /\ duty auth c p g ph true k) \/
      exists inst lc, ph = Matched c' inst lc /\ duty auth c p g (Matched c' inst true) cl k
  | AwaitDone k => duty auth c p g ph true k
  | ParkListen inst k =>
      ph = Fresh /\ admitted auth RelayGreetingListen (id inst) c p g /\ k None = Ret /\
      forall e, duty auth c p g Fresh cl (k (Some e))
  | MatchListen inst k =>
      ph = Fresh /\ admitted auth RelayGreetingConnect (id inst) c p g /\
      (forall l, duty auth c p g (Matched l inst false) cl (k (Ok l))) /\
      forall e, duty auth c p g Fresh cl (k (Err e))
  | Bridge inst client l k =>
      client = c /\ exists lc, ph = Matched l inst lc /\ duty auth c p g (Matched l inst true) true k
  end.

Lemma unregister_duty auth c p g inst :
  control inst = c -> duty auth c p g (Holding inst) true (unregister inst Ret).
Proof. intros Hc. cbn [duty unregister]. split_and!; try done. by intros []. Qed.

Lemma serveRegistered_duty auth c p g inst cl :
  control inst = c -> duty auth c p g (Holding inst) cl (serveRegistered inst).
Proof. apply unregister_duty. Qed.

(** The calls of the three handlers after admission, for either server's
    way of closing. *)
Lemma register_calls_duty auth c p g i n1 r1 n2 r2 :
  admitted auth RelayGreetingRegister i c p g ->
  duty auth c p g Fresh false
    (NewInstance i (fun inst =>
     HubRegister inst (fun err =>
     match err with
     | Some _ => CloseWith c n1 r1 Ret
     | None =>
         WriteMsg (str_bytes i) (fun err =>
         match err with
         | Some _ => CloseWith c n2 r2 (unregister inst Ret)
         | None => serveRegistered inst
         end)
     end))).
Proof.
  intros Ha. cbn [duty]. intros inst <- Hc. split_and!; try done; [| by left].
  intros [e|]; [| by apply serveRegistered_duty]. left. split; [done |]. by apply unregister_duty.
Qed.

Lemma listen_calls_duty auth c p g i n1 r1 n2 r2 n3 r3 m :
  admitted auth RelayGreetingListen i c p g ->
  duty auth c p g Fresh false
    (HubGet i (fun inst =>
     match inst with
     | None => CloseWith c n1 r1 Ret
     | Some inst =>
         WriteMsg m (fun err =>
         match err with
         | Some _ => CloseWith c n2 r2 Ret
         | None =>
             ParkListen inst (fun err =>
             match err with
             | Some _ => CloseWith c n3 r3 Ret
             | None => Ret
             end)
         end)
     end)).
Proof.
  intros Ha. cbn [duty]. split; [by left |]. intros inst <- [e|]; [by left |].
  cbn [duty]. split_and!; try done. by left.
Qed.

Lemma connect_calls_duty auth c p g i n1 r1 n2 r2 n3 r3 n4 r4 m :
  admitted auth RelayGreetingConnect i c p g ->
  duty auth c p g Fresh false
    (HubGet i (fun inst =>
     match inst with
     | None => CloseWith c n1 r1 Ret
     | Some inst =>
         MatchListen inst (fun r =>
         match r with
         | Err _ => CloseWith c n2 r2 Ret
         | Ok listen =>
             WriteMsg m (fun err =>
             match err with
             | Some _ => CloseWith c n3 r3 (CloseWith listen n4 r4 Ret)
             | None => Bridge inst c listen Ret
             end)
         end)
     end)).
Proof.
  intros Ha. cbn [duty]. split; [by left |]. intros inst <-. split_and!; try done; [| by left].
  intros l [e|]; cbn [duty].
  - left. split; [done |]. right. by exists inst, false.
  - split; [done |]. by exists false.
Qed.

Lemma handler_duty auth p c : duty auth c p None Fresh false (handler auth p c).
Proof.
  destruct p as [tls|tls r]; cbn [handler]; [unfold handleConnection | unfold handlePigeon];
    (cbn [duty]; intros [e|]; [by left |]; cbn [duty]; split_and!; [done | | by left]; intros b;
     destruct (DecodeRelayGreeting b) as [dec|] eqn:Hdec; [| by left];
     destruct (Variant dec) eqn:Hv).
  - unfold handleConnectQUIC. destruct (_ || _); [by left |].
    destruct (verifyConnectQUIC _ _ _ _) eqn:Hver; [by left| apply verified_admits in Hver].
    apply connect_calls_duty. by exists b, dec.
  - unfold handleRegisterQUIC. destruct (verifyRegisterQUIC _ _ _ _ _) eqn:Hver; [by left| apply verified_admits in Hver].
    destruct (bool_decide_reflect (InstanceId dec = EmptyString)) as [He|].
    + intros rnd. apply register_calls_duty. exists b, dec. split_and!; auto.
    + apply register_calls_duty. exists b, dec. split_and!; auto.
  - unfold handleListenQUIC. case_bool_decide; [by left |].
    destruct (verifyRegisterQUIC _ _ _ _ _) eqn:Hver; [by left| apply verified_admits in Hver].
    apply listen_calls_duty. by exists b, dec.
  - unfold handleConnectWT, sessClose. case_bool_decide; [by left |].
    destruct (verifyConnectWT _ _ _ _) eqn:Hver; [by left| apply verified_admits in Hver].
    apply connect_calls_duty. by exists b, dec.
  - unfold handleRegisterWT, sessClose. destruct (verifyRegisterWT _ _ _ _ _) eqn:Hver; [by left| apply verified_admits in Hver].
    destruct (bool_decide_reflect (InstanceId dec = EmptyString)) as [He|].
    + intros rnd. apply register_calls_duty. exists b, dec. split_and!; auto.
    + apply register_calls_duty. exists b, dec. split_and!; auto.
  - unfold handleListenWT, sessClose.
    destruct (bool_decide_reflect (InstanceId dec = EmptyString)); [by left |].
    destruct (verifyRegisterWT _ _ _ _ _) eqn:Hver; [by left| apply verified_admits in Hver].
    apply listen_calls_duty. by exists b, dec.
Qed.

(** ** The relay's invariant *)

Definition conn_over (w : world) (c : connID) : Prop :=
  exists cs, conns w !! c = Some cs /\ done cs = true.

Definition conn_admitted (auth : Auth) (w : world) (v : RelayGreetingVariant) (i : string)
    (c : connID) : Prop :=
  exists cs, conns w !! c = Some cs /\ admitted auth v i c (cpeer cs) (greeting cs).

Definition phase_ok (auth : Auth) (w : world) (c : connID) (ph : phase) : Prop :=
  match ph with
  | Fresh => c ∉ (matched w).*1.*1
  | Holding inst =>
      (c ∉ (matched w).*1.*1) /\ control inst = c /\
      conn_admitted auth w RelayGreetingRegister (id inst) c /\
      (is_done w c = false -> instances w !! id inst = Some inst)
  | Matched l inst lc => (c, l, inst) ∈ matched w /\ (lc = true -> conn_over w l)
  end.

Definition thread_ok (auth : Auth) (w : world) (c : connID) (ph : phase) (pr : prog) : Prop :=
  exists cs, conns w !! c = Some cs /\
    ((exists cl, duty auth c (cpeer cs) (greeting cs) ph cl pr /\ (cl = true -> done cs = true)) \/
     (pr = Ret /\ ph = Fresh /\ c ∈ (matched w).*1.*2)).

Record inv (auth : Auth) (w : world) (phs : connID -> phase) : Prop := {
  inv_thread c pr : threads w !! c = Some pr -> thread_ok auth w c (phs c) pr;
  inv_phase c : phase_ok auth w c (phs c);
  inv_idle c : threads w !! c = None -> phs c = Fresh;
  inv_conn c : conns w !! c = None -> threads w !! c = None;
  inv_slot i inst : instances w !! i = Some inst -> id inst = i /\ phs (control inst) = Holding inst;
  inv_cancelled inst : inst ∈ cancelled w -> conn_over w (control inst);
  inv_match client l inst : (client, l, inst) ∈ matched w ->
    threads w !! l = Some Ret /\ conn_admitted auth w RelayGreetingConnect (id inst) client /\
    conn_admitted auth w RelayGreetingListen (id inst) l;
  inv_excl_client : NoDup (matched w).*1.*1;
  inv_excl_listen : NoDup (matched w).*1.*2
}.

(** Connections only gain facts; greetings change at most for [chg]. *)
Definition conn_le (chg : option connID) (w w' : world) : Prop :=
  forall c cs, conns w !! c = Some cs ->
    exists cs', conns w' !! c = Some cs' /\ cpeer cs' = cpeer cs /\
      (done cs = true -> done cs' = true) /\
      (forall b, greeting cs = Some b -> greeting cs' = Some b) /\
      (chg <> Some c -> greeting cs' = greeting cs).

Lemma conn_le_refl chg w : conn_le chg w w.
Proof. intros c cs Hc. exists cs. split_and!; auto. Qed.

Lemma conn_le_on_conn chg f c w :
  (forall cs, conns w !! c = Some cs ->
     cpeer (f cs) = cpeer cs /\ (done cs = true -> done (f cs) = true) /\
     (forall b, greeting cs = Some b -> greeting (f cs) = Some b) /\
     (chg <> Some c -> greeting (f cs) = greeting cs)) ->
  conn_le chg w (on_conn f c w).
Proof.
  intros Hf c' cs Hc'. simpl. destruct (decide (c = c')) as [->|Hne].
  - rewrite lookup_alter_eq, Hc'. simpl. exists (f cs). split; [done |]. by apply Hf.
  - rewrite lookup_alter_ne by done. exists cs. split_and!; auto.
Qed.

Lemma conn_over_le chg w w' c : conn_le chg w w' -> conn_over w c -> conn_over w' c.
Proof. intros Hle (cs & Hc & Hd). destruct (Hle _ _ Hc) as (cs' & ? & ? & ? & ?). exists cs'. auto. Qed.

Lemma conn_admitted_le chg auth w w' v i c :
  conn_le chg w w' -> conn_admitted auth w v i c -> conn_admitted auth w' v i c.
Proof.
  intros Hle (cs & Hc & b & dec & Hg & Hd). destruct (Hle _ _ Hc) as (cs' & Hc' & Hp & _ & Hb & _).
  exists cs'. split; [done |]. rewrite Hp, (Hb b Hg). by exists b, dec.
Qed.

Lemma conn_over_is_done w c : conn_over w c -> is_done w c = true.
Proof. intros (cs & Hc & Hd). unfold is_done. by rewrite Hc. Qed.

Lemma is_done_le chg w w' c cs :
  conn_le chg w w' -> conns w !! c = Some cs -> is_done w' c = false -> is_done w c = false.
Proof.
  intros Hle Hc. destruct (Hle _ _ Hc) as (cs' & Hc' & _ & Hd & _). unfold is_done.
  rewrite Hc, Hc'. destruct (done cs); [by rewrite Hd |]. done.
Qed.

Lemma phase_ok_le chg auth w w' c ph :
  conn_le chg w w' -> instances w' = instances w -> matched w' = matched w ->
  phase_ok auth w c ph -> phase_ok auth w' c ph.
Proof.
  intros Hle Hi Hm. destruct ph as [|inst|l inst lc]; simpl; rewrite ?Hm, ?Hi; [done | |].
  - intros (Hc & Hctl & Hadm & Hlive). split_and!; [done | done | by eapply conn_admitted_le |].
    intros Hd. apply Hlive. destruct Hadm as (cs & Hcs & _). by eapply is_done_le.
  - intros [Hin Hl]. split; [done |]. intros Hlc. eapply conn_over_le; eauto.
Qed.

Lemma thread_ok_le chg auth w w' c ph pr :
  conn_le chg w w' -> chg <> Some c -> matched w' = matched w ->
  thread_ok auth w c ph pr -> thread_ok auth w' c ph pr.
Proof.
  intros Hle Hne Hm (cs & Hc & Ht). destruct (Hle _ _ Hc) as (cs' & Hc' & Hp & Hd & _ & Hg).
  exists cs'. split; [done |]. rewrite Hp, Hg, Hm by done.
  destruct Ht as [(cl & Hdu & Hcl) | Hr]; [left; eauto | by right].
Qed.

(** The environment's steps. *)
Lemma inv_env auth w w' phs :
  inv auth w phs -> conn_le None w w' -> threads w' = threads w ->
  instances w' = instances w -> cancelled w' = cancelled w -> matched w' = matched w ->
  (forall c, conns w' !! c = None -> conns w !! c = None) -> inv auth w' phs.
Proof.
  intros [] Hle Ht Hi Hca Hm Hdom. split; rewrite ?Ht, ?Hi, ?Hca, ?Hm; auto.
  - intros c pr Hc. eapply thread_ok_le; eauto.
  - intros c. eapply phase_ok_le; eauto.
  - intros inst Hin. eapply conn_over_le; eauto.
  - intros client l inst Hin. destruct (inv_match0 _ _ _ Hin) as (? & ? & ?).
    split_and!; eauto using conn_admitted_le.
Qed.

Definition upd (phs : connID -> phase) (c : connID) (ph : phase) (c' : connID) : phase :=
  if decide (c' = c) then ph else phs c'.

Lemma upd_eq phs c ph : upd phs c ph c = ph.
Proof. unfold upd. by rewrite decide_True. Qed.
Lemma upd_ne phs c ph c' : c' <> c -> upd phs c ph c' = phs c'.
Proof. intros. unfold upd. by rewrite decide_False. Qed.

(** A goroutine's own step: only thread [c] moves, matches stay, and the
    other phases remain justified. *)
Lemma inv_advance auth w w' phs c pr ph' pr' :
  inv auth w phs -> threads w !! c = Some pr -> pr <> Ret ->
  conn_le (Some c) w w' -> threads w' = threads w -> matched w' = matched w ->
  (forall c, conns w' !! c = None -> conns w !! c = None) ->
  thread_ok auth w' c ph' pr' -> phase_ok auth w' c ph' ->
  (forall c', c' <> c -> phase_ok auth w' c' (phs c')) ->
  (forall i inst, instances w' !! i = Some inst -> id inst = i /\ upd phs c ph' (control inst) = Holding inst) ->
  (forall inst, inst ∈ cancelled w' -> conn_over w' (control inst)) ->
  inv auth (set_thread c pr' w') (upd phs c ph').
Proof.
  intros [] Hc Hpr Hle Ht Hm Hdom Hthr Hph Hoth Hslot Hcan.
  split; cbn [set_thread threads conns instances cancelled matched]; rewrite ?Ht, ?Hm; auto.
  - intros c' q Hq. destruct (decide (c' = c)) as [->|Hne].
    + rewrite lookup_insert_eq in Hq. injection Hq as <-. rewrite upd_eq. apply Hthr.
    + rewrite lookup_insert_ne in Hq by done. rewrite upd_ne by done.
      eapply thread_ok_le in Hle; [apply Hle | congruence | done | auto].
  - intros c'. destruct (decide (c' = c)) as [->|Hne]; rewrite ?upd_eq, ?upd_ne by done; [apply Hph |].
    by apply Hoth.
  - intros c' Hn. destruct (decide (c' = c)) as [->|Hne]; [by rewrite lookup_insert_eq in Hn |].
    rewrite lookup_insert_ne in Hn by done. rewrite upd_ne by done. auto.
  - intros c' Hn. destruct (decide (c' = c)) as [->|Hne].
    + apply Hdom, inv_conn0 in Hn. congruence.
    + rewrite lookup_insert_ne by done. auto.
  - intros client l inst Hin. destruct (inv_match0 _ _ _ Hin) as (Hl & ? & ?).
    split_and!; [| by eapply conn_admitted_le..].
    rewrite lookup_insert_ne; [done |]. intros <-. congruence.
Qed.

(** A step that changes no shared map. *)
Lemma inv_quiet auth w w' phs c pr ph' pr' :
  inv auth w phs -> threads w !! c = Some pr -> pr <> Ret ->
  conn_le (Some c) w w' -> threads w' = threads w -> matched w' = matched w ->
  (forall c, conns w' !! c = None -> conns w !! c = None) ->
  instances w' = instances w -> cancelled w' = cancelled w ->
  thread_ok auth w' c ph' pr' -> phase_ok auth w' c ph' ->
  (forall inst, phs c = Holding inst -> ph' = Holding inst) ->
  inv auth (set_thread c pr' w') (upd phs c ph').
Proof.
  intros Hinv Hc Hpr Hle Ht Hm Hdom Hi Hca Hthr Hph Hkeep.
  eapply inv_advance; eauto.
  - intros c' _. eapply phase_ok_le; eauto using inv_phase.
  - rewrite Hi. intros i inst Hs. destruct (inv_slot _ _ _ Hinv _ _ Hs) as [? Hh]. split; [done |].
    destruct (decide (control inst = c)) as [<-|]; [rewrite upd_eq; auto | by rewrite upd_ne].
  - rewrite Hca. intros inst Hin. eapply conn_over_le; eauto using inv_cancelled.
Qed.

Lemma register_cases w inst w' err :
  register w inst = (w', err) ->
  (exists e, w' = w /\ err = Some e) \/
  (err = None /\ w' = with_instances w (<[id inst := inst]> (instances w)) /\
   forall cur, instances w !! id inst = Some cur -> inst_done w cur = true).
Proof.
  unfold register. destruct (instances w !! id inst) as [cur|] eqn:E.
  - destruct (inst_done w cur) eqn:Hd; intros [= <- <-]; [right | left; eauto].
    split_and!; try done. by intros ? [= <-].
  - intros [= <- <-]. right. by split_and!.
Qed.

Lemma step_register auth w phs c cs inst k cl w' err :
  inv auth w phs -> threads w !! c = Some (HubRegister inst k) -> conns w !! c = Some cs ->
  duty auth c (cpeer cs) (greeting cs) (phs c) cl (HubRegister inst k) ->
  (cl = true -> done cs = true) -> register w inst = (w', err) ->
  exists phs', inv auth (set_thread c (k err) w') phs'.
Proof.
  intros Hinv Hc Hcs (Hph & Hctl & Hadm & Hk & Hke) Hcl Hreg.
  pose proof (inv_phase _ _ _ Hinv c) as Hpc. rewrite Hph in Hpc.
  destruct (register_cases _ _ _ _ Hreg) as [(e & -> & ->) | (-> & -> & Hcur)].
  { exists (upd phs c Fresh). eapply inv_quiet; eauto using conn_le_refl.
    - exists cs. split; [done |]. left. eauto.
    - by rewrite Hph. }
  exists (upd phs c (Holding inst)).
  eapply inv_advance; eauto.
  - apply (conn_le_refl _ w).
  - exists cs. split; [done |]. left. eauto.
  - cbn [phase_ok]. split_and!; [done | done | by exists cs | intros _; apply lookup_insert_eq].
  - intros c' Hne. pose proof (inv_phase _ _ _ Hinv c') as Hp.
    destruct (phs c') as [|q|l q lc] eqn:Hq; [done | | done].
    destruct Hp as (? & Hcq & Ha & Hlive). split_and!; try done. cbn [instances with_instances].
    intros Hd. change (is_done w c' = false) in Hd. specialize (Hlive Hd).
    destruct (decide (id q = id inst)) as [He|Hid]; [| by rewrite lookup_insert_ne].
    rewrite He in Hlive. apply Hcur in Hlive. unfold inst_done in Hlive.
    rewrite Hcq, Hd, orb_false_r in Hlive. bool_hyps.
    apply (inv_cancelled _ _ _ Hinv), conn_over_is_done in Hlive. congruence.
  - cbn [instances with_instances]. intros i q. destruct (decide (i = id inst)) as [->|Hid].
    + rewrite lookup_insert_eq. intros [= <-]. by rewrite Hctl, upd_eq.
    + rewrite lookup_insert_ne by done. intros Hs.
      destruct (inv_slot _ _ _ Hinv _ _ Hs) as [? Hh]. split; [done |].
      rewrite upd_ne; [done |]. intros He. congruence.
  - apply (inv_cancelled _ _ _ Hinv).
Qed.

Lemma step_delete auth w phs c cs inst k cl w' owns :
  inv auth w phs -> threads w !! c = Some (HubDelete inst k) -> conns w !! c = Some cs ->
  duty auth c (cpeer cs) (greeting cs) (phs c) cl (HubDelete inst k) ->
  (cl = true -> done cs = true) -> hubDelete w inst = (w', owns) ->
  exists phs', inv auth (set_thread c (k owns) w') phs'.
Proof.
  intros Hinv Hc Hcs (Hph & Hcl' & Hk) Hcl Hdel.
  pose proof (inv_phase _ _ _ Hinv c) as Hpc. rewrite Hph in Hpc. destruct Hpc as (Hnm & Hctl & _ & _).
  exists (upd phs c Fresh). unfold hubDelete in Hdel. injection Hdel as Hw Ho.
  assert (Hfields : conns w' = conns w /\ threads w' = threads w /\ matched w' = matched w /\
    cancelled w' = cancelled w /\
    (forall i q, instances w' !! i = Some q -> instances w !! i = Some q /\ q <> inst) /\
    (forall i q, instances w !! i = Some q -> q <> inst -> instances w' !! i = Some q)).
  { destruct (instances w !! id inst) as [cur|] eqn:Hcur; [case_bool_decide as Hb|]; subst w';
      split_and!; try done; cbn [instances with_instances].
    - intros i q [Hne Hl]%lookup_delete_Some. split; [done |]. intros ->.
      apply (inv_slot _ _ _ Hinv) in Hl as [? _]. done.
    - intros i q Hl Hq. rewrite lookup_delete_ne; [done |]. intros <-. congruence.
    - intros i q Hl. split; [done |]. intros ->.
      pose proof (inv_slot _ _ _ Hinv _ _ Hl) as [Hi _]. congruence.
    - intros i q Hl. split; [done |]. intros ->.
      pose proof (inv_slot _ _ _ Hinv _ _ Hl) as [Hi _]. congruence. }
  destruct Hfields as (Hco & Hth & Hm & Hca & Hi1 & Hi2).
  assert (Hle : conn_le (Some c) w w').
  { intros c' cs' H'. exists cs'. rewrite Hco. split_and!; auto. }
  eapply inv_advance; eauto.
  - by rewrite Hco.
  - exists cs. rewrite Hco. split; [done |]. left. eauto.
  - cbn [phase_ok]. by rewrite Hm.
  - intros c' Hne. pose proof (inv_phase _ _ _ Hinv c') as Hp.
    destruct (phs c') as [|q|l q lc]; cbn [phase_ok] in *; rewrite ?Hm; [done | |].
    + destruct Hp as (? & Hcq & Ha & Hlive). split_and!; try done; [by eapply conn_admitted_le |].
      intros Hd. apply Hi2; [| congruence]. apply Hlive. unfold is_done in *. by rewrite Hco in Hd.
    + destruct Hp as [? Hl]. split; [done |]. intros. eapply conn_over_le; eauto.
  - intros i q Hs. apply Hi1 in Hs as [Hs Hq]. destruct (inv_slot _ _ _ Hinv _ _ Hs) as [? Hh].
    split; [done |]. rewrite upd_ne; [done |]. intros He. congruence.
  - rewrite Hca. intros q Hq. eapply conn_over_le; eauto using inv_cancelled.
Qed.

Lemma listen_not_matched auth w phs l inst k :
  inv auth w phs -> threads w !! l = Some (ParkListen inst k) -> l ∉ (matched w).*1.*2.
Proof.
  intros Hinv Hl Hin. rewrite <-list_fmap_compose in Hin.
  apply list_elem_of_fmap in Hin as ([[cl l'] q] & -> & Hin).
  apply (inv_match _ _ _ Hinv) in Hin as (Hr & _). simpl in *. congruence.
Qed.

Lemma step_match auth w phs c l cs csl inst k k' cl cll :
  inv auth w phs -> threads w !! c = Some (MatchListen inst k) ->
  threads w !! l = Some (ParkListen inst k') -> conns w !! c = Some cs -> conns w !! l = Some csl ->
  duty auth c (cpeer cs) (greeting cs) (phs c) cl (MatchListen inst k) ->
  (cl = true -> done cs = true) ->
  duty auth l (cpeer csl) (greeting csl) (phs l) cll (ParkListen inst k') ->
  inv auth (set_thread c (k (Ok l)) (set_thread l (k' None) (add_match c l inst w)))
    (upd phs c (Matched l inst false)).
Proof.
  intros Hinv Hc Hl Hcs Hcsl (Hph & Hadm & Hk & _) Hcl (Hphl & Hadml & Hkl & _).
  pose proof (inv_phase _ _ _ Hinv c) as Hpc. rewrite Hph in Hpc. simpl in Hpc.
  pose proof (listen_not_matched _ _ _ _ _ _ Hinv Hl) as Hlm.
  assert (Hne : c <> l) by congruence.
  destruct Hinv as [Hthr Hphase Hidle Hconn Hslot Hcan Hmatch Hnc Hnl].
  split; cbn [set_thread add_match threads conns instances cancelled matched fmap list_fmap fst snd].
  - intros c' pr. destruct (decide (c' = c)) as [->|Hc'].
    { rewrite lookup_insert_eq, upd_eq. intros [= <-]. exists cs. split; [done |]. left. eauto. }
    rewrite lookup_insert_ne, upd_ne by done. destruct (decide (c' = l)) as [->|Hc''].
    { rewrite lookup_insert_eq. intros [= <-]. exists csl. split; [done |]. right.
      split_and!; [done | done | left]. }
    rewrite lookup_insert_ne by done. intros Hp. destruct (Hthr _ _ Hp) as (cs' & Hcs' & Ht).
    exists cs'. split; [done |]. destruct Ht as [Ht|(? & ? & ?)]; [by left | right].
    split_and!; [done.. | by right].
  - intros c'. destruct (decide (c' = c)) as [->|Hc']; rewrite ?upd_eq, ?upd_ne by done.
    { split; [left | done]. }
    pose proof (Hphase c') as Hp. destruct (phs c') as [|q|l' q lc]; simpl in *; rewrite ?not_elem_of_cons.
    + done.
    + by destruct Hp as (? & ? & ? & ?).
    + destruct Hp as [? Hlc]. split; [by right | done].
  - intros c' Hn. destruct (decide (c' = c)) as [->|Hc']; [by rewrite lookup_insert_eq in Hn |].
    rewrite lookup_insert_ne in Hn by done. rewrite upd_ne by done.
    destruct (decide (c' = l)) as [->|]; [done |]. rewrite lookup_insert_ne in Hn by done. auto.
  - intros c' Hn. apply Hconn in Hn. rewrite !lookup_insert_ne; congruence.
  - intros i q Hs. destruct (Hslot _ _ Hs) as [? Hh]. split; [done |].
    rewrite upd_ne; [done |]. intros He. congruence.
  - apply Hcan.
  - intros client l' q [[= -> -> ->]|Hin]%elem_of_cons.
    { rewrite lookup_insert_ne, lookup_insert_eq by done. rewrite Hkl. split_and!; [done | |].
      - by exists cs.
      - by exists csl. }
    destruct (Hmatch _ _ _ Hin) as (Hr & ? & ?). split_and!; [| done..].
    rewrite !lookup_insert_ne; congruence.
  - by constructor.
  - by constructor.
Qed.

Lemma inv_dead_thread auth w phs c pr :
  inv auth w phs -> threads w !! c = Some pr -> pr <> Ret ->
  exists cs cl, conns w !! c = Some cs /\ duty auth c (cpeer cs) (greeting cs) (phs c) cl pr /\
    (cl = true -> done cs = true).
Proof.
  intros Hinv Hc Hr. destruct (inv_thread _ _ _ Hinv _ _ Hc) as (cs & Hcs & [(cl & ?)|(? & _)]); [| done].
  by exists cs, cl.
Qed.

Lemma alter_dom f (c : connID) w :
  forall c', conns (on_conn f c w) !! c' = None -> conns w !! c' = None.
Proof. intros c'. simpl. by rewrite lookup_alter_None. Qed.

(** Connection updates that keep the greeting. *)
Lemma conn_le_keep chg f c w :
  (forall cs, cpeer (f cs) = cpeer cs /\ (done cs = true -> done (f cs) = true) /\
     greeting (f cs) = greeting cs) ->
  conn_le chg w (on_conn f c w).
Proof.
  intros Hf. apply conn_le_on_conn. intros cs _. destruct (Hf cs) as (? & ? & Hg).
  rewrite Hg. auto.
Qed.

Lemma conn_le_close chg code reason c w : conn_le chg w (on_conn (add_close code reason) c w).
Proof.
  apply conn_le_keep. intros cs. unfold add_close. destruct (done cs) eqn:Hd; simpl; auto.
Qed.

Lemma conn_over_close w c code reason cs :
  conns w !! c = Some cs -> conn_over (on_conn (add_close code reason) c w) c.
Proof.
  intros Hc. eexists. cbn [conns on_conn with_conns]. rewrite lookup_alter_eq, Hc. split; [done |].
  unfold add_close. by destruct (done cs) eqn:Hd.
Qed.

(** The listen a client's handler owns exists. *)
Lemma matched_conn auth w phs c l inst :
  inv auth w phs -> (c, l, inst) ∈ matched w -> exists csl, conns w !! l = Some csl.
Proof.
  intros Hinv Hin. destruct (inv_match _ _ _ Hinv _ _ _ Hin) as (_ & _ & csl & ? & _). eauto.
Qed.

(** Steps that keep the phase and change at most connections. *)
Lemma step_keep auth w w' phs c pr cs' cl' pr' :
  inv auth w phs -> threads w !! c = Some pr -> pr <> Ret ->
  conn_le (Some c) w w' -> threads w' = threads w -> matched w' = matched w ->
  (forall c, conns w' !! c = None -> conns w !! c = None) ->
  instances w' = instances w -> cancelled w' = cancelled w ->
  conns w' !! c = Some cs' -> duty auth c (cpeer cs') (greeting cs') (phs c) cl' pr' ->
  (cl' = true -> done cs' = true) ->
  exists phs', inv auth (set_thread c pr' w') phs'.
Proof.
  intros Hinv Hc Hpr Hle Ht Hm Hdom Hi Hca Hcs Hd Hcl. exists (upd phs c (phs c)).
  eapply inv_quiet; eauto.
  - exists cs'. split; [done |]. left. eauto.
  - eapply phase_ok_le; eauto using inv_phase.
Qed.

Lemma step_close auth w phs c cs c' code reason k cl :
  inv auth w phs -> threads w !! c = Some (CloseWith c' code reason k) -> conns w !! c = Some cs ->
  duty auth c (cpeer cs) (greeting cs) (phs c) cl (CloseWith c' code reason k) ->
  (cl = true -> done cs = true) ->
  exists phs', inv auth (set_thread c k (on_conn (add_close code reason) c' w)) phs'.
Proof.
  intros Hinv Hc Hcs Hd Hcl.
  pose proof (conn_le_close (Some c) code reason c' w) as Hle.
  destruct (Hle _ _ Hcs) as (cs' & Hcs' & Hp & Hdn & _ & _).
  assert (Hg : greeting cs' = greeting cs).
  { pose proof (conn_le_close None code reason c' w) as Hle'.
    destruct (Hle' _ _ Hcs) as (cs2 & Hcs2 & _ & _ & _ & Hg2). rewrite Hcs' in Hcs2.
    injection Hcs2 as <-. auto. }
  destruct Hd as [[-> Hd] | (inst & lc & Hph & Hd)].
  - eapply (step_keep _ _ _ _ _ _ cs' true); eauto using alter_dom; [by rewrite Hp, Hg |].
    intros _. destruct (conn_over_close w c code reason cs Hcs) as (cs2 & Hcs2 & ?). congruence.
  - exists (upd phs c (Matched c' inst true)).
    pose proof (inv_phase _ _ _ Hinv c) as Hpc. rewrite Hph in Hpc. destruct Hpc as [Hin _].
    destruct (matched_conn _ _ _ _ _ _ Hinv Hin) as (csl & Hcsl).
    eapply inv_quiet; eauto using alter_dom.
    + exists cs'. split; [done |]. left. exists cl. rewrite Hp, Hg. split; [done | auto].
    + split; [done |]. intros _. by eapply conn_over_close.
    + by rewrite Hph.
Qed.

Lemma step_bridge auth w phs c cs inst client l k cl :
  inv auth w phs -> threads w !! c = Some (Bridge inst client l k) -> conns w !! c = Some cs ->
  duty auth c (cpeer cs) (greeting cs) (phs c) cl (Bridge inst client l k) ->
  exists phs', inv auth (set_thread c k
    (on_conn (add_close 0 EmptyString) l (on_conn (add_close 0 EmptyString) client w))) phs'.
Proof.
  intros Hinv Hc Hcs (-> & lc & Hph & Hd). exists (upd phs c (Matched l inst true)).
  pose proof (inv_phase _ _ _ Hinv c) as Hpc. rewrite Hph in Hpc. destruct Hpc as [Hin _].
  destruct (matched_conn _ _ _ _ _ _ Hinv Hin) as (csl & Hcsl).
  set (w1 := on_conn (add_close 0 EmptyString) c w).
  set (w2 := on_conn (add_close 0 EmptyString) l w1).
  assert (Hle : conn_le None w w2).
  { intros c' cs' Hc'. destruct (conn_le_close None 0 EmptyString c w _ _ Hc') as (cs1 & Hx1 & ? & ? & ? & Hg1).
    destruct (conn_le_close None 0 EmptyString l w1 _ _ Hx1) as (cs2 & Hx2 & ? & ? & ? & Hg2).
    exists cs2. split_and!; auto; [congruence |]. intros _. rewrite Hg2, Hg1; done. }
  assert (Hov : conn_over w2 c).
  { eapply (conn_over_le None w1); [apply conn_le_close |]. by eapply conn_over_close. }
  assert (Hovl : conn_over w2 l).
  { destruct (conn_le_close None 0 EmptyString c w _ _ Hcsl) as (cs1 & H1 & _). by eapply conn_over_close. }
  destruct (Hle _ _ Hcs) as (cs' & Hcs' & Hp & _ & _ & Hg).
  eapply inv_quiet; eauto.
  - intros c' cs1 Hc'. destruct (Hle _ _ Hc') as (cs2 & ? & ? & ? & ? & Hg2).
    exists cs2. split_and!; auto.
  - intros c' Hn. by do 2 apply alter_dom in Hn.
  - exists cs'. split; [done |]. left. exists true. rewrite Hp, Hg by done. split; [done |].
    intros _. destruct Hov as (cs2 & ? & ?). congruence.
  - done.
  - by rewrite Hph.
Qed.

Lemma step_read auth w phs c cs b k cl :
  inv auth w phs -> threads w !! c = Some (ReadHandshake k) -> conns w !! c = Some cs ->
  duty auth c (cpeer cs) (greeting cs) (phs c) cl (ReadHandshake k) -> (cl = true -> done cs = true) ->
  exists phs', inv auth (set_thread c (k (Ok b)) (on_conn (set_greeting b) c w)) phs'.
Proof.
  intros Hinv Hc Hcs (Hg & Hok & Herr) Hcl.
  eapply (step_keep _ _ _ _ _ _ (set_greeting b cs) cl); eauto using alter_dom.
  - apply conn_le_on_conn. intros cs'. rewrite Hcs. intros [= <-]. split_and!; try done; congruence.
  - cbn [conns on_conn with_conns]. by rewrite lookup_alter_eq, Hcs.
  - apply Hok.
Qed.

Lemma step_cancel auth w phs c cs inst k cl :
  inv auth w phs -> threads w !! c = Some (CancelInst inst k) -> conns w !! c = Some cs ->
  duty auth c (cpeer cs) (greeting cs) (phs c) cl (CancelInst inst k) -> (cl = true -> done cs = true) ->
  exists phs', inv auth (set_thread c k (add_cancelled inst w)) phs'.
Proof.
  intros Hinv Hc Hcs (Hctl & Hcl' & Hd) Hcl.
  exists (upd phs c (phs c)). eapply (inv_advance _ _ (add_cancelled inst w)); eauto.
  - apply (conn_le_refl _ w).
  - exists cs. split; [done |]. left. eauto.
  - apply (inv_phase _ _ _ Hinv c).
  - intros c' _. apply (inv_phase _ _ _ Hinv c').
  - intros j q Hs. destruct (inv_slot _ _ _ Hinv _ _ Hs) as [? Hh]. split; [done |].
    destruct (decide (control q = c)) as [<-|]; [by rewrite upd_eq | by rewrite upd_ne].
  - intros q [->|Hq]%elem_of_cons; [exists cs; rewrite Hctl; auto |].
    by apply (inv_cancelled _ _ _ Hinv).
Qed.

(** Every step of a goroutine keeps the invariant. *)
Lemma runProg_inv auth w phs c pr i w' :
  inv auth w phs -> threads w !! c = Some pr -> runProg w c pr i = Some w' ->
  exists phs', inv auth w' phs'.
Proof.
  intros Hinv Hc Hrun.
  assert (Hr : pr <> Ret) by (intros ->; by destruct i).
  destruct (inv_dead_thread _ _ _ _ _ Hinv Hc Hr) as (cs & cl & Hcs & Hd & Hcl).
  assert (Hquiet : forall pr', duty auth c (cpeer cs) (greeting cs) (phs c) cl pr' ->
            exists phs', inv auth (set_thread c pr' w) phs').
  { intros pr' Hd'. eapply step_keep; eauto using conn_le_refl. }
  destruct pr as [|k|k|k|s k|inst k|inst k|inst k|s k|m k|c' code reason k|k|inst k|inst k|inst cl' l k];
    cbn [runProg] in Hrun; [by destruct i | ..].
  - destruct i; try done; injection Hrun as <-; apply Hquiet, Hd.
  - destruct Hd as (Hg & Hok & Herr). destruct i; try done; injection Hrun as <-; [by apply Hquiet |].
    eapply step_read; eauto. by split_and!.
  - destruct i; try done; injection Hrun as <-; apply Hquiet, Hd.
  - destruct i; try done; injection Hrun as <-.
    eapply (step_keep _ _ (bump w) _ _ _ cs cl); eauto;
      first [apply (conn_le_refl _ w) | by apply Hd].
  - destruct i; try done. destruct (register w inst) as [w1 err] eqn:Hreg. injection Hrun as <-.
    eapply step_register; eauto.
  - destruct i; try done. destruct (hubDelete w inst) as [w1 owns] eqn:Hdel. injection Hrun as <-.
    eapply step_delete; eauto.
  - destruct i; try done; injection Hrun as <-. eapply step_cancel; eauto.
  - destruct i; try done; injection Hrun as <-. apply Hquiet. destruct Hd as [Hn Hs].
    destruct (get w s) as [q|] eqn:Hget; [| done]. apply Hs. by apply (inv_slot _ _ _ Hinv) in Hget as [? _].
  - destruct i; try done; injection Hrun as <-; [| apply Hquiet, Hd].
    eapply (step_keep _ _ _ _ _ _ (add_sent m cs) cl); eauto using alter_dom.
    + by apply conn_le_keep.
    + cbn [conns on_conn with_conns]. by rewrite lookup_alter_eq, Hcs.
  - destruct i; try done; injection Hrun as <-. eapply step_close; eauto.
  - destruct i; try done. destruct (is_done w c) eqn:Hdone; [| done]. injection Hrun as <-.
    eapply (step_keep _ _ w _ _ _ cs true); eauto using conn_le_refl.
    intros _. unfold is_done in Hdone. by rewrite Hcs in Hdone.
  - destruct Hd as (Hph & Hadm & _ & Hke).
    destruct (waitEnds w c inst i) as [e|]; [| by destruct i].
    assert (Hw' : w' = set_thread c (k (Some e)) w) by (destruct i; congruence). subst w'.
    apply Hquiet. rewrite Hph. apply Hke.
  - assert (Hi : (exists l, i = IListen l) \/ forall l, i <> IListen l) by (destruct i; eauto).
    destruct Hi as [[l ->]|Hni].
    + destruct (threads w !! l) as [[]|] eqn:Hl; try done. case_bool_decide as He; [| done].
      subst. injection Hrun as <-.
      destruct (inv_dead_thread _ _ _ _ _ Hinv Hl ltac:(done)) as (csl & cll & Hcsl & Hdl & _).
      eexists. eapply step_match; eauto.
    + destruct Hd as (Hph & Hadm & _ & Hke).
      destruct (waitEnds w c inst i) as [e|] eqn:Hw.
      * assert (Hw' : w' = set_thread c (k (Err e)) w) by (destruct i; try congruence; done). subst w'.
        apply Hquiet. rewrite Hph. apply Hke.
      * destruct i; try done; exfalso; by eapply Hni.
  - destruct i; try done; injection Hrun as <-. eapply step_bridge; eauto.
Qed.

Lemma inv_spawn auth w phs c cs pr :
  inv auth w phs -> threads w !! c = None -> conns w !! c = Some cs ->
  duty auth c (cpeer cs) (greeting cs) Fresh false pr -> inv auth (set_thread c pr w) phs.
Proof.
  intros [] Hc Hcs Hd. split; auto; cbn [set_thread threads conns].
  - intros c' q. destruct (decide (c' = c)) as [->|Hne].
    + rewrite lookup_insert_eq. intros [= <-]. exists cs. split; [done |]. left. exists false.
      by rewrite inv_idle0.
    + rewrite lookup_insert_ne by done. apply inv_thread0.
  - intros c'. rewrite lookup_insert_None. intros [? _]. auto.
  - intros c' Hn. rewrite lookup_insert_ne; [auto | congruence].
  - intros client l inst Hin. destruct (inv_match0 _ _ _ Hin) as (Hl & ? & ?). split_and!; try done.
    change (<[c := pr]> (threads w) !! l = Some Ret). rewrite lookup_insert_ne; [done | congruence].
Qed.

Lemma step_inv auth w phs e w' :
  inv auth w phs -> step auth w e = Some w' -> exists phs', inv auth w' phs'.
Proof.
  intros Hinv Hstep. destruct e as [c p|c|c|c i]; cbn [step] in Hstep.
  - destruct (conns w !! c) eqn:Hc; [done |]. injection Hstep as <-.
    pose proof (inv_conn _ _ _ Hinv _ Hc) as Ht. exists phs.
    eapply inv_spawn; [| done | apply lookup_insert_eq | apply handler_duty].
    eapply inv_env; eauto.
    + intros c' cs Hc'. exists cs. cbn [conns with_conns]. rewrite lookup_insert_ne by congruence.
      by split_and!.
    + intros c'. cbn [conns with_conns]. rewrite lookup_insert_None. by intros [? _].
  - injection Hstep as <-. exists phs. eapply inv_env; eauto using alter_dom. by apply conn_le_keep.
  - injection Hstep as <-. exists phs. eapply inv_env; eauto using alter_dom. by apply conn_le_keep.
  - destruct (threads w !! c) eqn:Hc; [| done]. eapply runProg_inv; eauto.
Qed.

Lemma run_app auth es1 : forall es2 w,
  run auth w (es1 ++ es2) = match run auth w es1 with Some w' => run auth w' es2 | None => None end.
Proof.
  induction es1 as [|e es1 IH]; intros es2 w; [done |]. simpl.
  destruct (step auth w e); [apply IH | done].
Qed.

Lemma run_inv auth es : forall w phs w',
  inv auth w phs -> run auth w es = Some w' -> exists phs', inv auth w' phs'.
Proof.
  induction es as [|e es IH]; intros w phs w' Hinv; simpl; [intros [= <-]; eauto |].
  destruct (step auth w e) as [w1|] eqn:Hs; [| done].
  destruct (step_inv _ _ _ _ _ Hinv Hs) as (phs1 & Hinv1). by apply (IH _ phs1).
Qed.

Lemma reachable_inv auth w : reachable auth w -> exists phs, inv auth w phs.
Proof.
  intros [es Hrun]. eapply (run_inv auth es newHub (fun _ => Fresh)); [| done].
  split; try done.
  - intros c. apply not_elem_of_nil.
  - by intros inst ?%elem_of_nil.
  - by intros client l inst ?%elem_of_nil.
  - constructor.
  - constructor.
Qed.

Lemma slot_admitted auth w phs i inst :
  inv auth w phs -> get w i = Some inst ->
  conn_admitted auth w RelayGreetingRegister i (control inst).
Proof.
  intros Hinv Hs. destruct (inv_slot _ _ _ Hinv _ _ Hs) as [<- Hph].
  pose proof (inv_phase _ _ _ Hinv (control inst)) as Hp. rewrite Hph in Hp.
  by destruct Hp as (_ & _ & ? & _).
Qed.

(** ** Properties *)

(** C9. A live backend cannot be displaced: however registrations,
    disconnects and teardowns of other connections interleave, an instance
    whose handler is serving and whose connection is up stays in its slot
    (so every lookup of its id finds it) and is not cancelled. *)
Theorem live_instance_not_displaced auth w c inst :
  reachable auth w -> threads w !! c = Some (serveRegistered inst) -> is_done w c = false ->
  control inst = c /\ get w (id inst) = Some inst /\ inst_done w inst = false.
Proof.
  intros Hr Hc Hlive. destruct (reachable_inv _ _ Hr) as (phs & Hinv).
  destruct (inv_dead_thread _ _ _ _ _ Hinv Hc ltac:(done)) as (cs & cl & Hcs & Hd & Hcl).
  cbn [duty serveRegistered unregister] in Hd. destruct Hd as (Hph & _).
  pose proof (inv_phase _ _ _ Hinv c) as Hp. rewrite Hph in Hp. destruct Hp as (_ & Hctl & _ & Hs).
  split_and!; [done | by apply Hs |]. unfold inst_done. rewrite Hctl, Hlive, orb_false_r.
  apply bool_decide_eq_false. intros Hin. apply (inv_cancelled _ _ _ Hinv) in Hin.
  apply conn_over_is_done in Hin. congruence.
Qed.

(** No registration leaks: every slot of the hub belongs to the handler
    of the instance's own control connection, which has not returned; so
    when every handler has returned the hub is empty. *)
Theorem hub_slots_are_owned auth w i inst :
  reachable auth w -> instances w !! i = Some inst ->
  id inst = i /\ exists pr, threads w !! control inst = Some pr /\ pr <> Ret.
Proof.
  intros Hr Hs. destruct (reachable_inv _ _ Hr) as (phs & Hinv).
  destruct (inv_slot _ _ _ Hinv _ _ Hs) as [Hi Hph]. split; [done |].
  destruct (threads w !! control inst) as [pr|] eqn:Ht.
  - exists pr. split; [done |]. intros ->.
    destruct (inv_thread _ _ _ Hinv _ _ Ht) as (cs & _ & [(cl & Hd & _)|(_ & Hf & _)]);
      [| congruence]. rewrite Hph in Hd. done.
  - pose proof (inv_idle _ _ _ Hinv _ Ht). congruence.
Qed.

(** C16. Admission: every instance in the hub was registered, and every
    bridged listen parked, by a connection whose own greeting the
    [VerifyRegister] hook admitted for that instance, and every bridged
    client by one [VerifyConnect] admitted. *)
Theorem only_admitted_peers auth w :
  reachable auth w ->
  (forall i inst, get w i = Some inst -> conn_admitted auth w RelayGreetingRegister i (control inst)) /\
  (forall client l inst, (client, l, inst) ∈ matched w ->
     conn_admitted auth w RelayGreetingConnect (id inst) client /\
     conn_admitted auth w RelayGreetingListen (id inst) l).
Proof.
  intros Hr. destruct (reachable_inv _ _ Hr) as (phs & Hinv). split.
  - intros i inst Hs. by eapply slot_admitted.
  - intros client l inst Hin. by apply (inv_match _ _ _ Hinv) in Hin as (_ & ?).
Qed.

(** Pairing is exclusive: no client is bridged twice and no parked
    listen is handed to two clients, whatever the interleaving. *)
Theorem pairing_is_exclusive auth w client1 l1 inst1 client2 l2 inst2 :
  reachable auth w -> (client1, l1, inst1) ∈ matched w -> (client2, l2, inst2) ∈ matched w ->
  (client1 = client2 <-> l1 = l2).
Proof.
  intros Hr H1 H2. destruct (reachable_inv _ _ Hr) as (phs & Hinv).
  pose proof (inv_excl_client _ _ _ Hinv) as Hc. pose proof (inv_excl_listen _ _ _ Hinv) as Hl.
  rewrite <-list_fmap_compose in Hc, Hl. apply list_elem_of_lookup in H1 as [i H1], H2 as [j H2].
  assert (client1 = client2 \/ l1 = l2 -> i = j) as Hij.
  { intros [->| ->]; [eapply (NoDup_lookup _ i j client2 Hc) | eapply (NoDup_lookup _ i j l2 Hl)];
      rewrite list_lookup_fmap, ?H1, ?H2; done. }
  split; intros He; (assert (i = j) as -> by auto); congruence.
Qed.

(** No connection leaks: when a handler has returned, its connection is
    closed, unless it is a listen handed over to a client; and once that
    client's handler has returned, both of them are closed. *)
Theorem finished_handlers_closed auth w c :
  reachable auth w -> threads w !! c = Some Ret ->
  conn_over w c \/
  exists client inst pr, (client, c, inst) ∈ matched w /\ threads w !! client = Some pr /\
    (pr = Ret -> conn_over w c /\ conn_over w client).
Proof.
  intros Hr Hc. destruct (reachable_inv _ _ Hr) as (phs & Hinv).
  destruct (inv_thread _ _ _ Hinv _ _ Hc) as (cs & Hcs & [(cl & Hd & Hcl)|(_ & Hf & Hm)]).
  { left. exists cs. split; [done |]. apply Hcl. destruct (phs c); [done | done | by destruct Hd]. }
  right. rewrite <-list_fmap_compose in Hm.
  apply list_elem_of_fmap in Hm as ([[client l] inst] & He & Hin). simpl in He. subst l.
  destruct (inv_match _ _ _ Hinv _ _ _ Hin) as (_ & (csc & Hcsc & _) & _).
  assert (Hph : exists lc, phs client = Matched c inst lc).
  { pose proof (inv_phase _ _ _ Hinv client) as Hp.
    assert (Hcl : client ∈ (matched w).*1.*1).
    { rewrite <-list_fmap_compose. apply list_elem_of_fmap. by exists (client, c, inst). }
    destruct (phs client) as [|q|l q lc]; [done | by destruct Hp |]. destruct Hp as [Hin' _].
    pose proof (inv_excl_client _ _ _ Hinv) as Hn. rewrite <-list_fmap_compose in Hn.
    apply list_elem_of_lookup in Hin as [i H1], Hin' as [j H2].
    assert (i = j) as -> by (eapply (NoDup_lookup _ i j client Hn); rewrite list_lookup_fmap, ?H1, ?H2; done).
    exists lc. congruence. }
  destruct Hph as [lc Hph]. destruct (threads w !! client) as [pr|] eqn:Ht.
  2:{ pose proof (inv_idle _ _ _ Hinv _ Ht). congruence. }
  exists client, inst, pr. split_and!; try done. intros ->.
  destruct (inv_thread _ _ _ Hinv _ _ Ht) as (cs2 & Hcs2 & [(cl & Hd & Hcl2)|(_ & Hf2 & _)]); [| congruence].
  rewrite Hph in Hd. destruct Hd as [-> ->]. pose proof (inv_phase _ _ _ Hinv client) as Hp.
  rewrite Hph in Hp. destruct Hp as [_ Hover]. split; [auto |]. exists cs2. auto.
Qed.

(** The connection and its request are over. *)
Definition ended (w : world) (c : connID) : Prop :=
  exists cs, conns w !! c = Some cs /\ done cs = true /\ reqDone cs = true.

Lemma ended_on_conn f c w c' :
  (forall cs, done cs = true -> reqDone cs = true -> done (f cs) = true /\ reqDone (f cs) = true) ->
  ended w c -> ended (on_conn f c' w) c.
Proof.
  intros Hf (cs & Hc & Hd & Hq). unfold ended. cbn [conns on_conn with_conns].
  destruct (decide (c' = c)) as [->|]; [| by rewrite lookup_alter_ne by done; exists cs].
  rewrite lookup_alter_eq, Hc. exists (f cs). destruct (Hf cs); auto.
Qed.

Lemma ended_close w c c' code reason : ended w c -> ended (on_conn (add_close code reason) c' w) c.
Proof. apply ended_on_conn. intros cs Hd Hq. unfold add_close. by rewrite Hd. Qed.

Lemma ended_set_thread w c c' pr : ended w c -> ended (set_thread c' pr w) c.
Proof. done. Qed.

(** One step of an ended connection's goroutine, whatever it is doing. *)
Lemma ended_step auth w c pr :
  threads w !! c = Some pr -> ended w c -> pr <> Ret ->
  exists i w1 k, step auth w (Run c i) = Some w1 /\ threads w1 !! c = Some k /\ ended w1 c /\
    match pr with
    | Ret => False
    | AcceptPrimary f | HubRegister _ f | WriteMsg _ f | ParkListen _ f => exists r, k = f r
    | ReadHandshake f => exists r, k = f r
    | RandRead f => exists r, k = f r
    | NewInstance _ f => exists r, k = f r
    | HubDelete _ f => exists r, k = f r
    | HubGet _ f => exists r, k = f r
    | MatchListen _ f => exists r, k = f r
    | CancelInst _ f | CloseWith _ _ _ f | AwaitDone f | Bridge _ _ _ f => k = f
    end.
Proof.
  intros Hc He Hr. pose proof He as (cs & Hcs & Hd & Hq). cbn [step]. rewrite Hc.
  assert (Hop : opDone w c = true) by (unfold opDone; rewrite Hcs; by destruct (cpeer cs)).
  destruct pr; try done.
  - exists INil. eexists _, _. split_and!; [done | apply lookup_insert_eq | done | eauto].
  - exists (IErr EOF). eexists _, _. split_and!; [done | apply lookup_insert_eq | done | eauto].
  - exists (IBytes []). eexists _, _. split_and!; [done | apply lookup_insert_eq | done | eauto].
  - exists INil. eexists _, _. split_and!; [done | apply lookup_insert_eq | done | eauto].
  - exists INil. cbn [runProg]. destruct (register w inst) as [w1 err] eqn:E.
    eexists _, _. split_and!; [done | apply lookup_insert_eq | | eauto].
    apply ended_set_thread. by destruct (register_cases _ _ _ _ E) as [(? & -> & _)|(_ & -> & _)].
  - exists INil. cbn [runProg]. unfold hubDelete.
    eexists _, _. split_and!; [done | apply lookup_insert_eq | | eauto].
    apply ended_set_thread. by destruct (match _ with Some _ => _ | None => _ end).
  - exists INil. eexists _, _. split_and!; [done | apply lookup_insert_eq | done | eauto].
  - exists INil. eexists _, _. split_and!; [done | apply lookup_insert_eq | done | eauto].
  - exists (IErr EOF). eexists _, _. split_and!; [done | apply lookup_insert_eq | done | eauto].
  - exists INil. eexists _, _. split_and!; [done | apply lookup_insert_eq | by apply ended_close | eauto].
  - exists INil. cbn [runProg]. unfold is_done. rewrite Hcs, Hd.
    eexists _, _. split_and!; [done | apply lookup_insert_eq | done | eauto].
  - exists ICtxDone. cbn [runProg waitEnds]. rewrite Hop.
    eexists _, _. split_and!; [done | apply lookup_insert_eq | done | eauto].
  - exists ICtxDone. cbn [runProg waitEnds]. rewrite Hop.
    eexists _, _. split_and!; [done | apply lookup_insert_eq | done | eauto].
  - exists INil. eexists _, _.
    split_and!; [done | apply lookup_insert_eq | by do 2 apply ended_close | eauto].
Qed.

(** Teardown cannot get stuck: once a connection and its request are
    over, its goroutine can run to its return by its own steps alone, in
    whatever state the relay is and whatever the goroutine was waiting for. *)
Theorem disconnected_handler_returns auth w c pr :
  threads w !! c = Some pr -> ended w c ->
  exists ins w', run auth w (map (Run c) ins) = Some w' /\ threads w' !! c = Some Ret.
Proof.
  revert w. induction pr as [|f IH|f IH|f IH|i f IH|q f IH|q f IH|q k IH|i f IH|m f IH|c' n r k IH
    |k IH|q f IH|q f IH|q c1 c2 k IH]; intros w Hc He; [by exists [], w | ..];
    (destruct (ended_step auth w c _ Hc He ltac:(done)) as (inp & w1 & k1 & Hs & Hc1 & He1 & Hk);
     cbn beta iota in Hk; first [subst k1 | destruct Hk as [r' ->]];
     destruct (IH _ _ Hc1 He1) as (ins & w' & Hrun & Hret) || destruct (IH _ Hc1 He1) as (ins & w' & Hrun & Hret);
     exists (inp :: ins), w'; split; [| done]; cbn [map run]; by rewrite Hs).
Qed.

(** A relay under [BearerTokenAuth] with a non-empty token serves only
    backends that presented exactly that token, in the greeting or (for a
    WebTransport peer whose greeting has none) as bearer credential. *)
Theorem bearer_relay_requires_token w token i inst :
  token <> EmptyString -> reachable (BearerTokenAuth token) w -> get w i = Some inst ->
  exists cs b dec, conns w !! control inst = Some cs /\ greeting cs = Some b /\
    DecodeRelayGreeting b = Ok dec /\ greetToken (cpeer cs) dec = token.
Proof.
  intros Hne Hr Hs. destruct (reachable_inv _ _ Hr) as (phs & Hinv).
  destruct (slot_admitted _ _ _ _ _ Hinv Hs) as (cs & Hcs & b & dec & Hg & Hd & _ & _ & Hv).
  exists cs, b, dec. split_and!; try done.
  unfold BearerTokenAuth in Hv. rewrite (bool_decide_false (token = EmptyString)) in Hv by done.
  pose proof (Hv _ eq_refl) as He.
  destruct (cpeer cs); cbn [registerRequest rr_Token] in He; case_bool_decide; try done; by apply str_bytes_inj.
Qed.
End Auth.

(** ** Witnesses *)

(** Certificates as numbers; a pool trusts the numbers it lists. *)
Definition toyX509 : X509 := {|
  Certificate := nat;
  CertPool := list nat;
  cert_Verify pool c := if bool_decide (c ∈ pool) then None else Some (ENew "x509: unknown authority")
|}.

Definition tls0 : @ConnectionState toyX509 := @Build_ConnectionState toyX509 [].
Definition web0 : httpRequest := {| Header_Authorization := "Bearer s3cret"; Query_token := EmptyString |}.
Definition bearer : @Auth toyX509 := BearerTokenAuth "s3cret".

(** A QUIC backend registers "abc" and is acknowledged. *)
Definition es_register : list (@event toyX509) :=
  [Arrive 1%nat (QuicPeer tls0); Run 1%nat INil;
   Run 1%nat (IBytes (EncodeRelayGreetingRegister "s3cret" "abc"));
   Run 1%nat INil; Run 1%nat INil; Run 1%nat INil].

(** It parks a listen over WebTransport, and a client is matched to it. *)
Definition es_pair : list (@event toyX509) :=
  es_register ++
  [Arrive 2%nat (WTPeer None web0); Run 2%nat INil;
   Run 2%nat (IBytes (EncodeRelayGreetingListen EmptyString "abc")); Run 2%nat INil; Run 2%nat INil;
   Arrive 3%nat (QuicPeer tls0); Run 3%nat INil;
   Run 3%nat (IBytes (EncodeRelayGreetingConnect "abc")); Run 3%nat INil; Run 3%nat (IListen 2%nat)].

Definition after (es : list (@event toyX509)) : @world toyX509 :=
  match run bearer newHub es with Some w => w | None => newHub end.

Lemma after_reachable es : run bearer newHub es = Some (after es) -> reachable bearer (after es).
Proof. by exists es. Qed.

Definition inst_abc : instance := {| iaddr := 0; id := "abc"; control := 1%nat |}.

Lemma es_pair_matched : matched (after es_pair) = [(3%nat, 2%nat, inst_abc)].
Proof. vm_compute. reflexivity. Qed.

Lemma live_instance_not_displaced_witness :
  get (after es_register) "abc" = Some inst_abc /\ inst_done (after es_register) inst_abc = false.
Proof.
  apply (live_instance_not_displaced (X := toyX509) bearer (after es_register) 1%nat inst_abc);
    [apply after_reachable; vm_compute; reflexivity | vm_compute; reflexivity | vm_compute; reflexivity].
Defined.

Lemma hub_slots_are_owned_witness :
  exists pr, threads (after es_pair) !! 1%nat = Some pr /\ pr <> Ret.
Proof.
  apply (hub_slots_are_owned (X := toyX509) bearer (after es_pair) "abc" inst_abc);
    [apply after_reachable; vm_compute; reflexivity | vm_compute; reflexivity].
Defined.

Lemma only_admitted_peers_witness :
  conn_admitted bearer (after es_pair) RelayGreetingConnect "abc" 3%nat /\
  conn_admitted bearer (after es_pair) RelayGreetingListen "abc" 2%nat.
Proof.
  apply (only_admitted_peers (X := toyX509) bearer (after es_pair)) with (inst := inst_abc);
    [apply after_reachable; vm_compute; reflexivity | rewrite es_pair_matched; left].
Defined.

Lemma pairing_is_exclusive_witness : 3%nat = 3%nat <-> 2%nat = 2%nat.
Proof.
  apply (pairing_is_exclusive (X := toyX509) bearer (after es_pair) 3%nat 2%nat inst_abc 3%nat 2%nat inst_abc);
    [apply after_reachable; vm_compute; reflexivity | rewrite es_pair_matched; left..].
Defined.

Lemma finished_handlers_closed_witness :
  conn_over (after es_pair) 2%nat \/
  exists client inst pr, (client, 2%nat, inst) ∈ matched (after es_pair) /\
    threads (after es_pair) !! client = Some pr /\
    (pr = Ret -> conn_over (after es_pair) 2%nat /\ conn_over (after es_pair) client).
Proof.
  apply (finished_handlers_closed (X := toyX509) bearer);
    [apply after_reachable; vm_compute; reflexivity | vm_compute; reflexivity].
Defined.

Lemma disconnected_handler_returns_witness :
  let w := after (es_register ++ [Disconnect 1%nat; RequestEnds 1%nat]) in
  exists ins w', run bearer w (map (Run 1%nat) ins) = Some w' /\ threads w' !! 1%nat = Some Ret.
Proof.
  apply (disconnected_handler_returns (X := toyX509) bearer _ 1%nat (serveRegistered inst_abc));
    [vm_compute; reflexivity |].
  eexists. split; [vm_compute; reflexivity | split; reflexivity].
Defined.

Lemma bearer_relay_requires_token_witness :
  exists cs b dec, conns (after es_pair) !! 1%nat = Some cs /\ greeting cs = Some b /\
    DecodeRelayGreeting b = Ok dec /\ greetToken (cpeer cs) dec = "s3cret".
Proof.
  apply (bearer_relay_requires_token (X := toyX509) (after es_pair) "s3cret" "abc" inst_abc);
    [done | apply after_reachable; vm_compute; reflexivity | vm_compute; reflexivity].
Defined.
