(* ===== verification/Bridge.v ===== *)
(** * Bridge: what the relay's bridge forwards (session.go, streamctl.go)

    The copy loops of [bridge] and [bridgeStream], over the interface of a
    bidirectional stream, and an in-memory stream ([conduit]) on which the
    loops' effect on the byte streams is proved. *)

From Stdlib Require Import ZArith Lia Strings.Byte Strings.String.
From stdpp Require Import base sets strings list.
From S2P Require Import Prelude Binary Wire.

Open Scope Z_scope.

(** ** Streams *)

(** [readWriteCloserPair], with the optional [streamCtl] surface: [hasCtl]
    is the type assertion [p.(streamCtl)]. *)
Class StreamPair (S : Type) := {
  ReadMessage : S -> S * result bytes;
  WriteMessage : S -> bytes -> S * option error;
  Close : S -> S;
  hasCtl : S -> bool;
  CloseWrite : S -> S;
  Reset : S -> S
}.

(** [errors.As] into the QUIC and the WebTransport stream error types. *)
Class StreamErrors := {
  asQuicStreamError : error -> bool;
  asWTStreamError : error -> bool
}.

Definition isStreamReset `{StreamErrors} (err : option error) : bool :=
  match err with
  | None => false
  | Some err => if asQuicStreamError err then true else asWTStreamError err
  end.

Definition closeWritePair {S} `{StreamPair S} (p : option S) : option S :=
  match p with
  | None => None
  | Some p => Some (if hasCtl p then CloseWrite p else Close p)
  end.

Definition resetPair {S} `{StreamPair S} (p : option S) : option S :=
  match p with
  | None => None
  | Some p => Some (if hasCtl p then Reset p else Close p)
  end.

(** ** Copy loops

    The loops of the source have no bound; [fuel] is one per message, and
    [None] means it ran out.  The theorems below give enough fuel. *)

Section Loops.
Context `{StreamErrors} {S D : Type} `{StreamPair S} `{StreamPair D}.

(** [bridgeStream]: returns the two streams. *)
Fixpoint bridgeStream (fuel : nat) (src : S) (dst : D) : option (S * D) :=
  match fuel with
  | O => None
  | Datatypes.S fuel =>
      match ReadMessage src with
      | (src, Err err) =>
          let dst' := if isStreamReset (Some err) then resetPair (Some dst)
                      else closeWritePair (Some dst) in
          Some (src, default dst dst')
      | (src, Ok msg) =>
          match WriteMessage dst msg with
          | (dst, Some _) => Some (src, dst)
          | (dst, None) => bridgeStream fuel src dst
          end
      end
  end.

(** One direction of the primary streams in [bridge], e.g. backend to
    client with [sname] "backend" and [dname] "client"; the error goes to
    [errCh]. *)
Fixpoint pumpPrimary (fuel : nat) (sname dname : string) (src : S) (dst : D) : option (S * D * error) :=
  match fuel with
  | O => None
  | Datatypes.S fuel =>
      match ReadMessage src with
      | (src, Err err) => Some (src, dst, EWrap ("read " +:+ sname +:+ " primary: %w") [] err)
      | (src, Ok msg) =>
          match WriteMessage dst msg with
          | (dst, Some err) => Some (src, dst, EWrap ("write " +:+ dname +:+ " primary: %w") [] err)
          | (dst, None) => pumpPrimary fuel sname dname src dst
          end
      end
  end.
End Loops.

(** [streamTracker]: the streams a bridge has open. *)
Definition tracker_add {S} (streams : list S) (s : S) : list S := streams ++ [s].
Definition tracker_closeAll {S} `{StreamPair S} (streams : list S) : list S * list S :=
  ([], map Close streams).

(** ** An in-memory QUIC stream *)

(** Bytes still to read, how the read side ends ([None]: a FIN; [Some e]: a
    reset reported as [e]), bytes written, and what was done to the write
    side. *)
Record conduit := {
  inbuf : bytes;
  inend : option error;
  outbuf : bytes;
  finSent : bool;
  resetSent : bool
}.

Definition with_in (c : conduit) (b : bytes) : conduit :=
  {| inbuf := b; inend := inend c; outbuf := outbuf c; finSent := finSent c; resetSent := resetSent c |}.
Definition with_out (c : conduit) (b : bytes) : conduit :=
  {| inbuf := inbuf c; inend := inend c; outbuf := b; finSent := finSent c; resetSent := resetSent c |}.
Definition with_fin (c : conduit) : conduit :=
  {| inbuf := inbuf c; inend := inend c; outbuf := outbuf c; finSent := true; resetSent := resetSent c |}.
Definition with_reset (c : conduit) : conduit :=
  {| inbuf := inbuf c; inend := inend c; outbuf := outbuf c; finSent := finSent c; resetSent := true |}.

(** The error of a read that finds fewer bytes than it wants. *)
Definition short_read (c : conduit) (left : bytes) : error :=
  match inend c with
  | Some e => e
  | None => match left with [] => EOF | _ => ErrUnexpectedEOF end
  end.

#[export] Instance conduit_reader : Reader conduit := {
  ReadFull c n :=
    if (length (inbuf c) <? n)%nat then (with_in c [], Err (short_read c (inbuf c)))
    else (with_in c (drop n (inbuf c)), Ok (take n (inbuf c)))
}.

#[export] Instance conduit_writer : Writer conduit := {
  Write c data := (with_out c (outbuf c ++ data), None)
}.

(** [quicStreamWrapper]: framing over the stream; [Close] and [CloseWrite]
    send FIN, [Reset] cancels both directions. *)
#[export] Instance conduit_pair : StreamPair conduit := {
  ReadMessage := readMessage;
  WriteMessage := writeMessage;
  Close := with_fin;
  hasCtl _ := true;
  CloseWrite := with_fin;
  Reset := with_reset
}.

(** ** Lemmas *)

Lemma conduit_write_msg c m :
  len m <= MaxMessageSize -> writeMessage c m = (with_out c (outbuf c ++ frame m), None).
Proof.
  intros Hm. unfold writeMessage, MaxMessageSize in *. pose proof (len_nonneg m).
  rewrite (proj2 (Z.ltb_ge _ _)), u32_small by lia. cbn [Write conduit_writer].
  unfold with_out, frame. cbn [inbuf inend outbuf finSent resetSent]. by rewrite app_assoc.
Qed.

(** A successful read takes exactly one frame off the front. *)
Lemma conduit_read_ok c c' m :
  readMessage c = (c', Ok m) ->
  inbuf c = frame m ++ inbuf c' /\ len m <= MaxMessageSize /\ c' = with_in c (inbuf c').
Proof.
  unfold readMessage, ReadFull, conduit_reader.
  destruct (Nat.ltb_spec (length (inbuf c)) 4) as [|H4]; [done |].
  destruct (Z.ltb_spec MaxMessageSize (be_get (take 4 (inbuf c)))) as [|Hmax]; [done |].
  cbn [inbuf with_in]. set (n := Z.to_nat _).
  destruct (Nat.ltb_spec (length (drop 4 (inbuf c))) n) as [|Hn]; [done |].
  intros [= <- <-]. cbn [inbuf with_in].
  assert (Hl : len (take n (drop 4 (inbuf c))) = be_get (take 4 (inbuf c))).
  { unfold len. rewrite length_take_le by lia. unfold n.
    pose proof (be_get_bound (take 4 (inbuf c))). lia. }
  split_and!; [| lia | done]. unfold frame. rewrite Hl.
  assert (H4' : length (take 4 (inbuf c)) = 4%nat) by (rewrite length_take; lia).
  rewrite <-H4' at 1. rewrite be_put_get. rewrite <-app_assoc, !take_drop. done.
Qed.

Lemma frame_nonempty m rest : (length rest < length (frame m ++ rest))%nat.
Proof. unfold frame. rewrite !length_app, length_be_put. lia. Qed.

(** ** Properties *)

(** [bridgeStream] is transparent.  Whatever bytes [src] carries, the
    loop terminates; the destination receives exactly the whole messages at
    the front of [src], byte for byte and in order, up to the first point
    where no valid message can be read; then the destination is reset if
    [src] ended by a reset, and otherwise only half-closed, and [src] itself
    is not closed. *)
Theorem bridgeStream_transparent `{StreamErrors} (src dst : conduit) :
  exists msgs rest err src' dst',
    inbuf src = concat (map frame msgs) ++ rest /\
    Forall (fun m => len m <= MaxMessageSize) msgs /\
    (readMessage (with_in src rest)).2 = Err err /\
    bridgeStream (S (length (inbuf src))) src dst = Some (src', dst') /\
    outbuf dst' = outbuf dst ++ concat (map frame msgs) /\
    resetSent dst' = resetSent dst || isStreamReset (Some err) /\
    finSent dst' = finSent dst || negb (isStreamReset (Some err)) /\
    finSent src' = finSent src /\ resetSent src' = resetSent src.
Proof.
  assert (Hgen : forall fuel src dst, (length (inbuf src) < fuel)%nat ->
    exists msgs rest err src' dst',
      inbuf src = concat (map frame msgs) ++ rest /\
      Forall (fun m => len m <= MaxMessageSize) msgs /\
      (readMessage (with_in src rest)).2 = Err err /\
      bridgeStream fuel src dst = Some (src', dst') /\
      outbuf dst' = outbuf dst ++ concat (map frame msgs) /\
      resetSent dst' = resetSent dst || isStreamReset (Some err) /\
      finSent dst' = finSent dst || negb (isStreamReset (Some err)) /\
      finSent src' = finSent src /\ resetSent src' = resetSent src);
    [| apply Hgen; lia].
  clear src dst. intros fuel. induction fuel as [|fuel IH]; intros src dst Hf; [lia |].
  cbn [bridgeStream ReadMessage conduit_pair].
  destruct (readMessage src) as [src1 [m|err]] eqn:Hread.
  - destruct (conduit_read_ok _ _ _ Hread) as (Hin & Hm & Hsrc1).
    cbn [WriteMessage conduit_pair]. rewrite conduit_write_msg by done.
    destruct (IH src1 (with_out dst (outbuf dst ++ frame m)))
      as (msgs & rest & err & src' & dst' & Hi & Hall & He & -> & Ho & Hr & Hfi & Hs1 & Hs2).
    { pose proof (frame_nonempty m (inbuf src1)). rewrite Hin in Hf. lia. }
    exists (m :: msgs), rest, err, src', dst'. cbn [map concat].
    rewrite Hsrc1 in He, Hs1, Hs2. split_and!; try done.
    + by rewrite <-app_assoc, <-Hi.
    + by constructor.
    + rewrite Ho. simpl. by rewrite <-app_assoc.
  - exists [], (inbuf src), err. eexists _, _. split; [done |]. split; [constructor |].
    split; [destruct src; unfold with_in; simpl in *; by rewrite Hread |]. split; [done |].
    assert (Hsrc : finSent src1 = finSent src /\ resetSent src1 = resetSent src).
    { revert Hread. unfold readMessage, ReadFull, conduit_reader.
      repeat case_match; intros [= <- <-] || intros [= <-] || idtac; simplify_eq; done. }
    cbn [map concat]. rewrite app_nil_r.
    destruct (isStreamReset (Some err)); simpl; rewrite ?orb_false_r, ?orb_true_r; tauto.
Qed.
