(* ===== verification/Bridging.v ===== *)
(** * Bridging: the goroutines of the relay's bridge (session.go)

    [bridge] joins a client's session to a backend's: two goroutines copy the
    primary streams, two the datagrams, two accept further streams and start a
    pair of copiers for each, and the caller waits for the first end, closes
    everything and waits for all of them.  [Bridge] has what one copy loop
    forwards; here the goroutines run concurrently, one step per blocking
    call, channel or lock operation. *)

From Stdlib Require Import ZArith Lia Strings.Byte Strings.String.
From stdpp Require Import base gmap strings list.
From S2P Require Import Prelude.

(** ** State *)

Inductive side := Client | Backend.

#[export] Instance side_eq_dec : EqDecision side.
Proof. solve_decision. Defined.

Definition other (s : side) : side := match s with Client => Backend | Backend => Client end.

(** What a goroutine does: copy the primary stream or the datagrams of a
    side to the other, accept that side's streams, or copy one stream. *)
Inductive role :=
  | Primary (src : side)
  | Datagrams (src : side)
  | Acceptor (src : side)
  | Copier (src : side) (from to : nat).

(** Where it stands.  [Reading]: in [ReadMessage], [ReceiveDatagram] or
    [AcceptStream]; [Writing]: in the call that forwards; [Reporting]: sending
    on [errCh]; [Ending]: resetting or half-closing the destination;
    [Opening] to [Spawning]: the acceptor with a stream to forward;
    [Closing]: closing a stream it could not forward. *)
Inductive tstate :=
  | Reading
  | Writing (msg : bytes)
  | Reporting
  | Ending (reset : bool)
  | Opening (s : nat)
  | AddSrc (s d : nat)
  | AddDst (s d : nat)
  | Spawning (s d : nat)
  | Closing (s : nat)
  | Done.

(** A goroutine with what it has read and what it has written so far. *)
Record thread := {
  trole : role;
  got : list bytes;
  put : list bytes;
  st : tstate
}.

Definition start (r : role) : thread := {| trole := r; got := []; put := []; st := Reading |}.
Definition at_state (th : thread) (s : tstate) : thread :=
  {| trole := trole th; got := got th; put := put th; st := s |}.

(** Where the caller stands. *)
Inductive mstate := MSelect | MCancel | MCloseAll | MCloseClient | MCloseBackend | MWait | MReturned.

#[export] Instance mstate_eq_dec : EqDecision mstate.
Proof. solve_decision. Defined.

(** A session ends when its peer is [lost] or when the bridge closes it.
    [accepted] lists the streams accepted from either side, [shut] those the
    bridge closed; [reset] and [finished] how copiers ended their
    destinations. *)
Record bridge := {
  threads : list thread;
  main : mstate;
  lost : side -> bool;
  closed : side -> bool;
  cancelled : bool;
  tracker : list nat;
  errCh : nat;
  wg : nat;
  accepted : list nat;
  shut : list nat;
  ended : list (nat * bool)
}.

Definition over (b : bridge) (s : side) : bool := lost b s || closed b s.

(** [bridge] up to its [select]. *)
Definition newBridge : bridge :=
  {| threads := map start [Primary Backend; Primary Client; Datagrams Backend; Datagrams Client;
                           Acceptor Backend; Acceptor Client];
     main := MSelect; lost := fun _ => false; closed := fun _ => false; cancelled := false; tracker := [];
     errCh := 0; wg := 6; accepted := []; shut := []; ended := [] |}.

Definition with_threads (b : bridge) (ths : list thread) : bridge :=
  {| threads := ths; main := main b; lost := lost b; closed := closed b; cancelled := cancelled b;
     tracker := tracker b; errCh := errCh b; wg := wg b; accepted := accepted b; shut := shut b; ended := ended b |}.
Definition with_main (b : bridge) (m : mstate) : bridge :=
  {| threads := threads b; main := m; lost := lost b; closed := closed b; cancelled := cancelled b;
     tracker := tracker b; errCh := errCh b; wg := wg b; accepted := accepted b; shut := shut b; ended := ended b |}.
Definition with_tracker (b : bridge) (l : list nat) : bridge :=
  {| threads := threads b; main := main b; lost := lost b; closed := closed b; cancelled := cancelled b;
     tracker := l; errCh := errCh b; wg := wg b; accepted := accepted b; shut := shut b; ended := ended b |}.
Definition with_errCh (b : bridge) (n : nat) : bridge :=
  {| threads := threads b; main := main b; lost := lost b; closed := closed b; cancelled := cancelled b;
     tracker := tracker b; errCh := n; wg := wg b; accepted := accepted b; shut := shut b; ended := ended b |}.
Definition with_wg (b : bridge) (n : nat) : bridge :=
  {| threads := threads b; main := main b; lost := lost b; closed := closed b; cancelled := cancelled b;
     tracker := tracker b; errCh := errCh b; wg := n; accepted := accepted b; shut := shut b; ended := ended b |}.
Definition with_accepted (b : bridge) (l : list nat) : bridge :=
  {| threads := threads b; main := main b; lost := lost b; closed := closed b; cancelled := cancelled b;
     tracker := tracker b; errCh := errCh b; wg := wg b; accepted := l; shut := shut b; ended := ended b |}.
Definition with_shut (b : bridge) (l : list nat) : bridge :=
  {| threads := threads b; main := main b; lost := lost b; closed := closed b; cancelled := cancelled b;
     tracker := tracker b; errCh := errCh b; wg := wg b; accepted := accepted b; shut := l; ended := ended b |}.
Definition with_ended (b : bridge) (l : list (nat * bool)) : bridge :=
  {| threads := threads b; main := main b; lost := lost b; closed := closed b; cancelled := cancelled b;
     tracker := tracker b; errCh := errCh b; wg := wg b; accepted := accepted b; shut := shut b; ended := l |}.
Definition with_lost (b : bridge) (s : side) : bridge :=
  {| threads := threads b; main := main b; lost := fun s' => bool_decide (s' = s) || lost b s'; closed := closed b;
     cancelled := cancelled b; tracker := tracker b; errCh := errCh b; wg := wg b; accepted := accepted b;
     shut := shut b; ended := ended b |}.
Definition with_closed (b : bridge) (s : side) : bridge :=
  {| threads := threads b; main := main b; lost := lost b; closed := fun s' => bool_decide (s' = s) || closed b s';
     cancelled := cancelled b; tracker := tracker b; errCh := errCh b; wg := wg b; accepted := accepted b;
     shut := shut b; ended := ended b |}.
Definition with_cancelled (b : bridge) : bridge :=
  {| threads := threads b; main := main b; lost := lost b; closed := closed b; cancelled := true;
     tracker := tracker b; errCh := errCh b; wg := wg b; accepted := accepted b; shut := shut b; ended := ended b |}.

Definition set_thread (b : bridge) (t : nat) (th : thread) : bridge := with_threads b (<[t := th]> (threads b)).

(** [defer wg.Done()] and the return. *)
Definition return_ (b : bridge) (t : nat) (th : thread) : bridge :=
  with_wg (set_thread b t (at_state th Done)) (wg b - 1).

(** ** Steps *)

(** Outcomes of the blocking calls: a message, a stream, success, or an
    error; a read error may be a stream reset. *)
Inductive input :=
  | Msg (m : bytes)
  | Stream (s : nat)
  | Succeeds
  | Fails (reset : bool).

(** A call on a session that is over only fails. *)
Definition threadStep (b : bridge) (t : nat) (th : thread) (i : input) : option bridge :=
  match trole th, st th, i with
  | Primary src, Reading, Msg m | Datagrams src, Reading, Msg m | Copier src _ _, Reading, Msg m =>
      if over b src then None
      else Some (set_thread b t {| trole := trole th; got := got th ++ [m]; put := put th; st := Writing m |})
  | Primary src, Writing m, Succeeds | Datagrams src, Writing m, Succeeds | Copier src _ _, Writing m, Succeeds =>
      if over b (other src) then None
      else Some (set_thread b t {| trole := trole th; got := got th; put := put th ++ [m]; st := Reading |})
  | Primary _, (Reading | Writing _), Fails _ => Some (set_thread b t (at_state th Reporting))
  | Primary _, Reporting, Succeeds =>
      if (errCh b <? 4)%nat then Some (return_ (with_errCh b (S (errCh b))) t th) else None
  | Datagrams _, (Reading | Writing _), Fails _ => Some (return_ b t th)
  | Copier _ _ _, Reading, Fails reset => Some (set_thread b t (at_state th (Ending reset)))
  | Copier _ _ _, Writing _, Fails _ => Some (return_ b t th)
  | Copier _ _ to, Ending reset, Succeeds => Some (return_ (with_ended b ((to, reset) :: ended b)) t th)
  | Acceptor src, Reading, Stream s =>
      if over b src || bool_decide (s ∈ accepted b) then None
      else Some (set_thread (with_accepted b (s :: accepted b)) t (at_state th (Opening s)))
  | Acceptor _, Reading, Fails _ => Some (return_ b t th)
  | Acceptor src, Opening s, Stream d =>
      if over b (other src) then None else Some (set_thread b t (at_state th (AddSrc s d)))
  | Acceptor _, Opening s, Fails _ => Some (set_thread b t (at_state th (Closing s)))
  | Acceptor _, Closing s, Succeeds => Some (return_ (with_shut b (s :: shut b)) t th)
  | Acceptor _, AddSrc s d, Succeeds =>
      Some (set_thread (with_tracker b (tracker b ++ [s])) t (at_state th (AddDst s d)))
  | Acceptor _, AddDst s d, Succeeds =>
      Some (set_thread (with_tracker b (tracker b ++ [d])) t (at_state th (Spawning s d)))
  | Acceptor src, Spawning s d, Succeeds =>
      let b := set_thread b t (at_state th Reading) in
      Some (with_wg (with_threads b (threads b ++ [start (Copier src s d); start (Copier (other src) d s)])) (wg b + 2))
  | _, _, _ => None
  end.

(** The caller: its [select] on [errCh], the client's and the backend's
    contexts; then [cancel], [closeAll], the two [Close] calls, [wg.Wait]. *)
Inductive minput := OnErr | OnClient | OnBackend | Next.

Definition mainStep (b : bridge) (i : minput) : option bridge :=
  match main b, i with
  | MSelect, OnErr => if (errCh b =? 0)%nat then None else Some (with_main (with_errCh b (errCh b - 1)) MCancel)
  | MSelect, OnClient => if cancelled b || over b Client then Some (with_main b MCancel) else None
  | MSelect, OnBackend => if over b Backend then Some (with_main b MCancel) else None
  | MCancel, Next => Some (with_main (with_cancelled b) MCloseAll)
  | MCloseAll, Next => Some (with_main (with_tracker (with_shut b (tracker b ++ shut b)) []) MCloseClient)
  | MCloseClient, Next => Some (with_main (with_closed b Client) MCloseBackend)
  | MCloseBackend, Next => Some (with_main (with_closed b Backend) MWait)
  | MWait, Next => if (wg b =? 0)%nat then Some (with_main b MReturned) else None
  | _, _ => None
  end.

Inductive event :=
  | Run (t : nat) (i : input)
  | Main (i : minput)
  | Lose (s : side).

Definition step (b : bridge) (e : event) : option bridge :=
  match e with
  | Run t i => match threads b !! t with Some th => threadStep b t th i | None => None end
  | Main i => mainStep b i
  | Lose s => Some (with_lost b s)
  end.

Fixpoint run (b : bridge) (es : list event) : option bridge :=
  match es with
  | [] => Some b
  | e :: es => match step b e with Some b => run b es | None => None end
  end.

(** *** Steps that need no peer

    A call that is blocked on a session returns by itself only when that session
    is over: reads and accepts are blocked on the source's, writes and opens on
    the destination's. *)
Definition awaited (th : thread) : side :=
  let src := match trole th with Primary s | Datagrams s | Acceptor s | Copier s _ _ => s end in
  match st th with Writing _ | Opening _ => other src | _ => src end.

(** What the relay does whatever its peers do: the caller's steps, the steps of a
    goroutine that is not blocked on a session, and the failure of a call on a
    session that is over. *)
Definition own (b : bridge) (e : event) : bool :=
  match e with
  | Lose _ => false
  | Main _ => true
  | Run t i =>
      match threads b !! t, i with
      | Some th, Succeeds => match st th with Writing _ => false | _ => true end
      | Some th, Fails _ => over b (awaited th)
      | _, _ => false
      end
  end.

Fixpoint ownRun (b : bridge) (es : list event) : option bridge :=
  match es with
  | [] => Some b
  | e :: es => if own b e then match step b e with Some b => ownRun b es | None => None end else None
  end.

(** A forwarder of the primary streams has failed: it is reporting, or has
    returned. *)
Definition failed (th : thread) : Prop :=
  match trole th, st th with Primary _, (Reporting | Done) => True | _, _ => False end.

(** What ends the bridge has happened. *)
Definition ending (b : bridge) : Prop :=
  main b <> MSelect \/ over b Client = true \/ over b Backend = true \/ Exists failed (threads b).

(** ** Totals over the goroutines *)

Fixpoint total (f : thread -> nat) (ths : list thread) : nat :=
  match ths with
  | [] => 0
  | th :: ths => f th + total f ths
  end.

Lemma total_insert f ths t th th' :
  ths !! t = Some th -> (total f (<[t := th']> ths) + f th = total f ths + f th')%nat.
Proof.
  revert t. induction ths as [|x ths IH]; intros [|t]; try done.
  - intros [= ->]. cbn. lia.
  - intros Ht. specialize (IH t Ht). change (<[S t := th']> (x :: ths)) with (x :: <[t := th']> ths). cbn [total]. lia.
Qed.

Lemma total_lookup f ths t th : ths !! t = Some th -> (f th <= total f ths)%nat.
Proof.
  revert t. induction ths as [|x ths IH]; intros [|t]; cbn; try done.
  - intros [= ->]. lia.
  - intros Ht. specialize (IH t Ht). lia.
Qed.

Lemma total_app f ths ths' : total f (ths ++ ths') = (total f ths + total f ths')%nat.
Proof. induction ths as [|x ths IH]; cbn; [done | lia]. Qed.

Lemma total_zero f ths : total f ths = 0%nat <-> Forall (fun th => f th = 0%nat) ths.
Proof.
  induction ths as [|x ths IH]; cbn; [split; [constructor | done] |].
  rewrite Forall_cons, <-IH. lia.
Qed.

(** Goroutines that have not returned; primary copiers that have not reported. *)
Definition live (th : thread) : nat := match st th with Done => 0 | _ => 1 end.
Definition unreported (th : thread) : nat :=
  match trole th, st th with Primary _, Done => 0 | Primary _, _ => 1 | _, _ => 0 end.

(** Steps a goroutine and the copiers it may still start can take once both
    sessions are over. *)
Definition rank (th : thread) : nat :=
  match st th with
  | Done => 0
  | Reporting | Ending _ | Closing _ => 1
  | Reading | Writing _ => 2
  | Opening _ => 3
  | Spawning _ _ => 7
  | AddDst _ _ => 8
  | AddSrc _ _ => 9
  end.

(** ** Invariants *)

(** The states a goroutine of each role can be in. *)
Definition legal (th : thread) : Prop :=
  match trole th, st th with
  | _, (Reading | Done) => True
  | (Primary _ | Datagrams _ | Copier _ _ _), Writing _ => True
  | Primary _, Reporting => True
  | Copier _ _ _, Ending _ => True
  | Acceptor _, (Opening _ | AddSrc _ _ | AddDst _ _ | Spawning _ _ | Closing _) => True
  | _, _ => False
  end.

(** What is read and not yet written: nothing between two messages, the
    message in hand while forwarding it, at most one message at the end. *)
Definition forwarding (th : thread) : Prop :=
  exists rest, got th = put th ++ rest /\
    match st th with
    | Writing m => rest = [m]
    | Reporting | Ending _ | Done => (length rest <= 1)%nat
    | _ => rest = []
    end.

(** Who answers for an accepted stream. *)
Definition holding (th : thread) (s : nat) : Prop :=
  match st th with
  | Opening s' | Closing s' => s' = s
  | AddSrc s' _ | AddDst s' _ | Spawning s' _ => s' = s
  | _ => False
  end.
Definition forwarded (ths : list thread) (s : nat) : Prop :=
  exists src d th1 th2, th1 ∈ ths /\ th2 ∈ ths /\ trole th1 = Copier src s d /\ trole th2 = Copier (other src) d s.

Record inv (b : bridge) : Prop := {
  i_legal : Forall legal (threads b);
  i_forwarding : Forall forwarding (threads b);
  i_wg : wg b = total live (threads b);
  i_errCh : (errCh b + total unreported (threads b) <= 2)%nat;
  i_closed : (main b = MCloseBackend \/ main b = MWait \/ main b = MReturned -> closed b Client = true) /\
             (main b = MWait \/ main b = MReturned -> closed b Backend = true);
  i_returned : main b = MReturned -> wg b = 0%nat;
  i_streams s : s ∈ accepted b -> s ∈ shut b \/ forwarded (threads b) s \/ exists th, th ∈ threads b /\ holding th s
}.

Lemma forwarded_insert ths t th th' s :
  ths !! t = Some th -> trole th' = trole th -> forwarded ths s -> forwarded (<[t := th']> ths) s.
Proof.
  intros Ht Hr (src & d & th1 & th2 & H1 & H2 & Hr1 & Hr2).
  assert (Hin : forall x, x ∈ ths -> exists x', x' ∈ <[t := th']> ths /\ trole x' = trole x).
  { intros x [j Hj]%list_elem_of_lookup. destruct (decide (j = t)) as [->|].
    - exists th'. split; [| congruence]. apply list_elem_of_lookup. exists t. apply list_lookup_insert_eq.
      by eapply lookup_lt_Some.
    - exists x. split; [| done]. apply list_elem_of_lookup. exists j. by rewrite list_lookup_insert_ne. }
  destruct (Hin th1 H1) as (x1 & ? & ?), (Hin th2 H2) as (x2 & ? & ?). exists src, d, x1, x2. split_and!; congruence || done.
Qed.

(** One goroutine moves on: its new state is legal and accounts for the
    message and the stream it held. *)
Lemma inv_move b b' t th th' :
  inv b -> threads b !! t = Some th -> threads b' = <[t := th']> (threads b) ->
  trole th' = trole th -> legal th' -> forwarding th' ->
  wg b' = (wg b + live th' - live th)%nat -> (errCh b' + unreported th' <= errCh b + unreported th)%nat ->
  (live th' <= live th)%nat -> main b' = main b -> closed b' = closed b ->
  (forall s, s ∈ accepted b' -> s ∈ accepted b \/ holding th' s) ->
  (forall s, s ∈ shut b -> s ∈ shut b') -> (forall s, holding th s -> holding th' s \/ s ∈ shut b') -> inv b'.
Proof.
  intros [] Ht Hths Hr Hl Hf Hwg Herr Hlive Hmain Hcl Hacc Hshut Hhold.
  pose proof (total_insert live _ _ _ th' Ht) as Hlt. pose proof (total_insert unreported _ _ _ th' Ht) as Hut.
  pose proof (total_lookup live _ _ _ Ht) as Hpos.
  split; rewrite ?Hths, ?Hmain, ?Hcl; auto.
  - by apply Forall_insert.
  - by apply Forall_insert.
  - lia.
  - lia.
  - intros Hm. specialize (i_returned0 Hm). lia.
  - assert (Hin : th' ∈ <[t := th']> (threads b)).
    { apply list_elem_of_lookup. exists t. apply list_lookup_insert_eq. by eapply lookup_lt_Some. }
    intros s [Hs|Hs]%Hacc; [| right; right; by exists th'].
    destruct (i_streams0 s Hs) as [?|[?|(x & [j Hj]%list_elem_of_lookup & Hx)]]; [by left; auto | |].
    + right; left. by eapply forwarded_insert.
    + destruct (decide (j = t)) as [->|].
      * assert (x = th) as -> by congruence. destruct (Hhold s Hx); [right; right; by exists th' | by left].
      * right; right. exists x. split; [| done]. apply list_elem_of_lookup. exists j. by rewrite list_lookup_insert_ne.
Qed.

(** The parts of the state the invariant reads. *)
Lemma inv_ext b b' :
  inv b -> threads b' = threads b -> wg b' = wg b -> (errCh b' <= errCh b)%nat ->
  (main b' = MCloseBackend \/ main b' = MWait \/ main b' = MReturned -> closed b' Client = true) ->
  (main b' = MWait \/ main b' = MReturned -> closed b' Backend = true) ->
  (main b' = MReturned -> wg b = 0%nat) -> accepted b' = accepted b -> (forall s, s ∈ shut b -> s ∈ shut b') -> inv b'.
Proof.
  intros [] Ht Hw He Hc Hc' Hr Ha Hs. split; rewrite ?Ht, ?Hw, ?Ha; auto; [lia |].
  intros s [?|?]%i_streams0; auto.
Qed.

Lemma forwarding_got th m :
  forwarding th -> st th = Reading -> forwarding {| trole := trole th; got := got th ++ [m]; put := put th; st := Writing m |}.
Proof. intros (rest & Hg & Hr) Hs. rewrite Hs in Hr. subst rest. exists [m]. cbn. by rewrite Hg, app_nil_r. Qed.

Lemma forwarding_put th m :
  forwarding th -> st th = Writing m -> forwarding {| trole := trole th; got := got th; put := put th ++ [m]; st := Reading |}.
Proof. intros (rest & Hg & Hr) Hs. rewrite Hs in Hr. subst rest. exists []. cbn. by rewrite Hg, app_nil_r. Qed.

(** The loop ends, or goes on without having read. *)
Lemma forwarding_end th s :
  forwarding th -> match s with Reporting | Ending _ | Done => True | _ => False end -> forwarding (at_state th s).
Proof.
  intros (rest & Hg & Hr) Hs. exists rest. cbn. split; [done |].
  assert (length rest <= 1)%nat by (destruct (st th); subst; cbn in *; lia). by destruct s.
Qed.

Lemma forwarding_idle th s :
  forwarding th -> match st th, s with
                   | (Reading | Opening _ | AddSrc _ _ | AddDst _ _ | Spawning _ _),
                     (Reading | Opening _ | AddSrc _ _ | AddDst _ _ | Spawning _ _ | Closing _) => True
                   | _, _ => False
                   end -> forwarding (at_state th s).
Proof. intros (rest & Hg & Hr) Hs. exists rest. cbn. split; [done |]. by destruct (st th), s. Qed.

(** An acceptor starts the two copiers of the stream it holds. *)
Lemma inv_start_thread b t th src s d :
  inv b -> threads b !! t = Some th -> trole th = Acceptor src -> st th = Spawning s d ->
  inv (with_wg (with_threads b (<[t := at_state th Reading]> (threads b)
         ++ [start (Copier src s d); start (Copier (other src) d s)])) (wg b + 2)).
Proof.
  intros [] Ht Hr Hs. assert (Hl : live th = 1%nat) by (unfold live; by rewrite Hs).
  assert (Hu : unreported th = 0%nat) by (unfold unreported; by rewrite Hr).
  pose proof (total_insert live _ _ _ (at_state th Reading) Ht) as Hlt.
  pose proof (total_insert unreported _ _ _ (at_state th Reading) Ht) as Hut.
  assert (Hl' : live (at_state th Reading) = 1%nat) by done.
  assert (Hu' : unreported (at_state th Reading) = 0%nat) by (unfold unreported; cbn; by rewrite Hr).
  assert (Hnew : forall r, forwarding (start r)) by (intros r; by exists []).
  split; cbn [threads wg with_wg with_threads errCh main closed accepted shut].
  - apply Forall_app; split; [apply Forall_insert; [done |]; unfold legal; cbn; by rewrite Hr | by repeat constructor].
  - apply Forall_app; split; [| by repeat constructor]. apply Forall_insert; [done |].
    apply forwarding_idle; [by eapply Forall_lookup_1 | by rewrite Hs].
  - rewrite total_app. cbn. lia.
  - rewrite total_app. cbn. lia.
  - done.
  - intros Hm. specialize (i_returned0 Hm). rewrite i_wg0 in i_returned0.
    pose proof (total_lookup live _ _ _ Ht). lia.
  - intros s0 Hs0. destruct (i_streams0 s0 Hs0) as [?|[Hf|(x & [j Hj]%list_elem_of_lookup & Hx)]]; [by left | |].
    + right; left. apply (forwarded_insert _ t th (at_state th Reading)) in Hf; [| done | done].
      destruct Hf as (src1 & d1 & x1 & x2 & H1 & H2 & Hr1 & Hr2). exists src1, d1, x1, x2.
      rewrite !elem_of_app. auto.
    + destruct (decide (j = t)) as [->|].
      * assert (x = th) as -> by congruence. unfold holding in Hx. rewrite Hs in Hx. subst s0. right; left.
        exists src, d, (start (Copier src s d)), (start (Copier (other src) d s)). rewrite !elem_of_app.
        split_and!; try done; right; set_solver.
      * right; right. exists x. split; [| done]. apply elem_of_app; left. apply list_elem_of_lookup. exists j.
        by rewrite list_lookup_insert_ne.
Qed.

Lemma inv_thread b t th i b' : inv b -> threads b !! t = Some th -> threadStep b t th i = Some b' -> inv b'.
Proof.
  intros Hinv Ht Hs. pose proof (Forall_lookup_1 _ _ _ _ (i_forwarding b Hinv) Ht) as Hf.
  pose proof (i_errCh b Hinv) as He. pose proof (total_lookup unreported _ _ _ Ht) as Hu.
  assert (Hwg : (live th <= wg b)%nat) by (rewrite (i_wg b Hinv); by eapply total_lookup).
  unfold threadStep in Hs.
  destruct (trole th) as [src|src|src|src s0 d0] eqn:Hr, (st th) as [|m| |rs|s|s d|s d|s d|s|] eqn:Hst, i as [m'|s'| |rf]; try done;
    repeat (case_match; try done); simplify_eq; cbv zeta;
    try exact (inv_start_thread b t th _ _ _ Hinv Ht Hr Hst);
    (eapply (inv_move b _ t th); [done | done | reflexivity | ..]); unfold legal, live, unreported, holding in *;
    cbn; rewrite ?Hr, ?Hst in *; cbn in *; try done; try lia; try (by intros; left); try set_solver;
    first [by apply forwarding_got | by apply forwarding_put | by apply forwarding_end
          | apply forwarding_idle; [done | by rewrite Hst] | idtac].
Qed.

Lemma inv_main b i b' : inv b -> mainStep b i = Some b' -> inv b'.
Proof.
  intros Hinv Hs. destruct (i_closed b Hinv) as [Hc Hb]. unfold mainStep in Hs.
  destruct (main b) eqn:Hm, i; try done; repeat (case_match; try done); simplify_eq;
    apply (inv_ext b); cbn; auto; try lia; try naive_solver.
  - intros s Hs. apply elem_of_app. by right.
  - intros _. by apply Nat.eqb_eq.
Qed.

Lemma inv_step b e b' : inv b -> step b e = Some b' -> inv b'.
Proof.
  intros Hinv. destruct e as [t i|i|s]; cbn [step].
  - destruct (threads b !! t) as [th|] eqn:Ht; [| done]. by apply inv_thread.
  - by apply inv_main.
  - intros [= <-]. destruct (i_closed b Hinv) as [Hc Hb]. apply (inv_ext b); auto. apply Hinv.
Qed.

Lemma inv_run es : forall b b', inv b -> run b es = Some b' -> inv b'.
Proof.
  induction es as [|e es IH]; intros b b' Hinv; cbn [run]; [by intros [= <-] |].
  destruct (step b e) as [b1|] eqn:Hs; [| done]. eauto using inv_step.
Qed.

Lemma inv_new : inv newBridge.
Proof.
  split; cbn; try done; try lia; try naive_solver.
  - by repeat constructor.
  - repeat constructor; by exists [].
Qed.

(** ** Draining *)

(** Both sessions are over: every step of a goroutine is one of finitely many. *)
Lemma thread_step_work b t th i b' :
  over b Client = true -> over b Backend = true -> threads b !! t = Some th -> threadStep b t th i = Some b' ->
  (total rank (threads b') < total rank (threads b))%nat /\ main b' = main b /\
  over b' Client = true /\ over b' Backend = true.
Proof.
  intros Hc Hb Ht Hs.
  assert (Hover : forall s, over b s = true) by (by intros []).
  assert (Hins : forall th', (rank th' < rank th)%nat -> (total rank (<[t := th']> (threads b)) < total rank (threads b))%nat).
  { intros th' Hr. pose proof (total_insert rank _ _ _ th' Ht). lia. }
  pose proof (total_insert rank _ _ _ (at_state th Reading) Ht) as Hsp.
  unfold threadStep in Hs.
  destruct (trole th) eqn:Hr, (st th) eqn:Hst, i; try done; rewrite ?Hover in Hs; cbn [orb] in Hs; try done;
    repeat (case_match; try done); simplify_eq;
    (split_and!; [| done | done | done]); cbn [threads with_wg with_threads set_thread return_ with_errCh with_ended
      with_shut with_tracker]; try (apply Hins; unfold rank; cbn; rewrite Hst; lia).
  rewrite total_app. cbn. unfold rank in Hsp at 2 4. cbn in Hsp. rewrite Hst in Hsp. lia.
Qed.

(** When both sessions are over a goroutine that has not returned can take a
    step by itself. *)
Lemma thread_can_step b t th :
  inv b -> over b Client = true -> over b Backend = true -> threads b !! t = Some th -> st th <> Done ->
  exists i b', own b (Run t i) = true /\ threadStep b t th i = Some b'.
Proof.
  intros Hinv Hc Hb Ht Hd. pose proof (Forall_lookup_1 _ _ _ _ (i_legal b Hinv) Ht) as Hl.
  assert (Hover : forall s, over b s = true) by (by intros []).
  pose proof (i_errCh b Hinv) as He. unfold legal in Hl. unfold threadStep, own. rewrite Ht.
  destruct (trole th) eqn:Hr, (st th) eqn:Hst; try done;
    first [exists (Fails false); eexists; split; [apply Hover | reflexivity]
          | exists Succeeds; try (eexists; split; reflexivity)].
  rewrite (proj2 (Nat.ltb_lt _ _)) by lia. eexists. split; reflexivity.
Qed.

(** Steps left before [bridge] returns, once it is in [wg.Wait]. *)
Definition work (b : bridge) : nat := total rank (threads b) + match main b with MWait => 1 | _ => 0 end.

Definition waiting (b : bridge) : Prop := main b = MWait \/ main b = MReturned.

Lemma waiting_over b s : inv b -> waiting b -> over b s = true.
Proof.
  intros Hinv Hw. destruct (i_closed b Hinv) as [Hc Hb]. unfold over. rewrite orb_true_iff. right.
  destruct s; [apply Hc | apply Hb]; destruct Hw; auto.
Qed.

Lemma step_work b e b' :
  inv b -> waiting b -> (forall s, e <> Lose s) -> step b e = Some b' -> (work b' < work b)%nat /\ waiting b'.
Proof.
  intros Hinv Hw He Hs. destruct e as [t i|i|s]; [| | by destruct (He s)]; cbn [step] in Hs.
  - destruct (threads b !! t) as [th|] eqn:Ht; [| done].
    destruct (thread_step_work b t th i b' (waiting_over _ _ Hinv Hw) (waiting_over _ _ Hinv Hw) Ht Hs) as (Hlt & Hm & _).
    unfold work, waiting. rewrite Hm. split; [lia | done].
  - unfold mainStep in Hs. destruct Hw as [Hm|Hm]; rewrite Hm in Hs; destruct i; try done.
    case_match; [| done]. injection Hs as <-. unfold work, waiting. cbn. rewrite Hm. split; [lia | auto].
Qed.

Lemma drain es : forall b b', inv b -> waiting b -> (forall e s, e ∈ es -> e <> Lose s) -> run b es = Some b' ->
  (length es + work b' <= work b)%nat /\ waiting b'.
Proof.
  induction es as [|e es IH]; intros b b' Hinv Hw Hq; cbn [run]; [by intros [= <-]; split; [cbn; lia |] |].
  destruct (step b e) as [b1|] eqn:Hs; [| done]. intros Hr.
  assert (He : forall s, e <> Lose s) by (intros s; apply Hq; left).
  destruct (step_work b e b1 Hinv Hw He Hs) as [Hlt Hw1].
  destruct (IH b1 b') as [Hle Hw']; [by eapply inv_step | done | | done |].
  - intros e' s He'. apply Hq. by right.
  - split; [cbn; lia | done].
Qed.

(** While it has not returned, something can move by itself. *)
Lemma waiting_progress b : inv b -> main b = MWait -> exists e b', own b e = true /\ (forall s, e <> Lose s) /\ step b e = Some b'.
Proof.
  intros Hinv Hm. destruct (decide (wg b = 0%nat)) as [Hz|Hnz].
  - exists (Main Next), (with_main b MReturned). split; [done |]. split; [done |]. cbn. unfold mainStep. by rewrite Hm, Hz.
  - rewrite (i_wg b Hinv), total_zero in Hnz. apply not_Forall_Exists in Hnz; [| intros th; apply _].
    apply Exists_exists in Hnz as (th & [t Ht]%list_elem_of_lookup & Hl).
    pose proof (fun s => waiting_over b s Hinv (or_introl Hm)) as Hover.
    destruct (thread_can_step b t th Hinv (Hover Client) (Hover Backend) Ht) as (i & b' & Ho & Hs).
    { intros Hd. apply Hl. cbn. unfold live. by rewrite Hd. }
    exists (Run t i), b'. split; [done |]. split; [done |]. cbn. by rewrite Ht.
Qed.

Lemma waiting_ends n : forall b, inv b -> waiting b -> (work b <= n)%nat ->
  exists es b', ownRun b es = Some b' /\ (length es <= work b)%nat /\ main b' = MReturned.
Proof.
  induction n as [|n IH]; intros b Hinv Hw Hn.
  - destruct Hw as [Hm|Hm]; [unfold work in Hn; rewrite Hm in Hn; lia |]. exists [], b. split_and!; [done | cbn; lia | done].
  - destruct Hw as [Hm|Hm]; [| by exists [], b; split_and!; [done | cbn; lia | done]].
    destruct (waiting_progress b Hinv Hm) as (e & b1 & Ho & Hq & Hs). destruct (step_work b e b1 Hinv (or_introl Hm) Hq Hs) as [Hlt Hw1].
    destruct (IH b1) as (es & b' & Hr & Hl & Hret); [by eapply inv_step | done | lia |].
    exists (e :: es), b'. cbn [ownRun length]. rewrite Ho, Hs. split_and!; [done | lia | done].
Qed.

(** *** Reports *)

(** While the caller is in its [select] it has taken no report. *)
Definition reported (th : thread) : nat := match trole th, st th with Primary _, Done => 1 | _, _ => 0 end.
Definition reports (b : bridge) : Prop := main b = MSelect -> errCh b = total reported (threads b).

Lemma reports_thread b t th i b' : reports b -> threads b !! t = Some th -> threadStep b t th i = Some b' -> reports b'.
Proof.
  intros Hrep Ht Hs. unfold reports in *.
  pose proof (fun th' => total_insert reported _ _ _ th' Ht) as Hins. pose proof (total_lookup reported _ _ _ Ht) as Hle.
  unfold threadStep in Hs.
  destruct (trole th) eqn:Hr, (st th) eqn:Hst, i; try done; repeat (case_match; try done); simplify_eq;
    cbn [threads main errCh with_wg with_threads set_thread return_ with_errCh with_ended with_shut with_tracker with_accepted]; intros Hm;
    specialize (Hrep Hm); try rewrite total_app;
    match goal with |- context [<[t := ?th']> _] => specialize (Hins th') end;
    unfold reported in Hins at 2 4; cbn in Hins; rewrite ?Hr, ?Hst in Hins; cbn in Hins |- *; lia.
Qed.

Lemma reports_run es : forall b b', reports b -> run b es = Some b' -> reports b'.
Proof.
  induction es as [|e es IH]; intros b b' Hrep; cbn [run]; [by intros [= <-] |].
  destruct (step b e) as [b1|] eqn:Hs; [| done]. apply IH. destruct e as [t i|i|s]; cbn [step] in Hs.
  - destruct (threads b !! t) as [th|] eqn:Ht; [| done]. by eapply reports_thread.
  - unfold mainStep in Hs. destruct (main b), i; try done; repeat (case_match; try done); simplify_eq; by intros ?.
  - by injection Hs as <-.
Qed.

(** *** From the cause to the end *)

(** What has ended the bridge stays. *)
Lemma ending_step b e b' : step b e = Some b' -> ending b -> ending b'.
Proof.
  intros Hs. destruct e as [t i|i|s]; cbn [step] in Hs.
  - destruct (threads b !! t) as [th|] eqn:Ht; [| done].
    assert (main b' = main b /\ over b' Client = over b Client /\ over b' Backend = over b Backend /\
      (Exists failed (threads b) -> Exists failed (threads b'))) as (Hm & Hc & Hb & Hf).
    { unfold threadStep in Hs.
      assert (Hx : forall th', (failed th -> failed th') -> Exists failed (threads b) -> Exists failed (<[t := th']> (threads b))).
      { intros th' Himp (x & [j Hj]%list_elem_of_lookup & Hfx)%Exists_exists. apply Exists_exists.
        destruct (decide (j = t)) as [->|Hne].
        - exists th'. split; [| apply Himp; congruence]. apply list_elem_of_lookup. exists t. apply list_lookup_insert_eq. by eapply lookup_lt_Some.
        - exists x. split; [| done]. apply list_elem_of_lookup. exists j. by rewrite list_lookup_insert_ne. }
      destruct (trole th) eqn:Hr, (st th) eqn:Hst, i; try done; repeat (case_match; try done); simplify_eq;
        (split_and!; [done | done | done |]); cbn; intros He; try (apply Exists_app; left);
        (apply Hx; [| done]); unfold failed; cbn; rewrite ?Hr, ?Hst; done. }
    unfold ending. rewrite Hm, Hc, Hb. tauto.
  - intros He. left. unfold mainStep in Hs. destruct (main b), i; try done; repeat (case_match; try done); by simplify_eq.
  - injection Hs as <-. unfold ending, over. cbn. intros [?|[Ho|[Ho|?]]]; [by left | right; left | right; right; left | by right; right; right].
    + apply orb_true_iff in Ho as [-> | ->]; by rewrite ?orb_true_r.
    + apply orb_true_iff in Ho as [-> | ->]; by rewrite ?orb_true_r.
Qed.

(** Past the [select], the caller goes on to wait. *)
Definition callerLeft (b : bridge) : nat :=
  match main b with MCancel => 4 | MCloseAll => 3 | MCloseClient => 2 | MCloseBackend => 1 | _ => 0 end.

Lemma caller_goes_on k : forall b, inv b -> (callerLeft b <= k)%nat -> main b <> MSelect ->
  exists es b', ownRun b es = Some b' /\ (length es <= k)%nat /\ inv b' /\ waiting b' /\ threads b' = threads b.
Proof.
  unfold callerLeft. induction k as [|k IH]; intros b Hi Hk Hs.
  - exists [], b. split; [done |]. split; [cbn; lia |]. split; [done |]. split; [| done]. unfold waiting. destruct (main b); (done || lia || auto).
  - destruct (decide (main b = MWait \/ main b = MReturned)) as [Hw|Hw];
      [exists [], b; split_and!; [done | cbn; lia | done | exact Hw | done] |].
    assert (exists b1, mainStep b Next = Some b1 /\ threads b1 = threads b /\ main b1 <> MSelect /\ (callerLeft b1 <= k)%nat)
      as (b1 & Hs1 & Ht & Hm1 & Hk1).
    { unfold mainStep, callerLeft. destruct (main b); try done; try (exfalso; apply Hw; by auto);
        (eexists; split; [reflexivity |]; cbn; split_and!; [done | done | lia]). }
    destruct (IH b1) as (es & b' & Hr & Hle & Hi' & Hw' & Ht'); [by eapply inv_main | done | done |].
    exists (Main Next :: es), b'. cbn [ownRun own step length]. rewrite Hs1. split_and!; [done | lia | done | done | congruence].
Qed.

Lemma caller_waits b : inv b -> main b <> MSelect ->
  exists es b', ownRun b es = Some b' /\ (length es <= 4)%nat /\ inv b' /\ waiting b' /\ threads b' = threads b.
Proof. intros Hinv Hm. apply caller_goes_on; [done | unfold callerLeft; destruct (main b); lia | done]. Qed.

Lemma ownRun_app es es' : forall b b1 b2, ownRun b es = Some b1 -> ownRun b1 es' = Some b2 -> ownRun b (es ++ es') = Some b2.
Proof.
  induction es as [|e es IH]; intros b b1 b2; cbn [ownRun app]; [by intros [= <-] |].
  destruct (own b e); [| done]. destruct (step b e) as [b0|]; [| done]. apply IH.
Qed.

Lemma ending_selects b : inv b -> reports b -> ending b ->
  exists es b', ownRun b es = Some b' /\ (length es <= 2)%nat /\ inv b' /\ main b' <> MSelect /\ (total rank (threads b') <= total rank (threads b))%nat.
Proof.
  intros Hinv Hrep He. destruct (decide (main b = MSelect)) as [Hm|Hm]; [| by exists [], b; split_and!; [done | cbn; lia | done | done | lia]].
  assert (Hone : forall b0 i b1, inv b0 -> mainStep b0 i = Some b1 -> main b1 <> MSelect -> threads b1 = threads b0 ->
    exists b', ownRun b0 [Main i] = Some b' /\ inv b' /\ main b' <> MSelect /\ threads b' = threads b0).
  { intros b0 i b1 Hi Hs Hm1 Ht. exists b1. cbn [ownRun own step]. rewrite Hs. split_and!; [done | by eapply inv_main | done | done]. }
  assert (Herr : forall b0, inv b0 -> main b0 = MSelect -> (0 < errCh b0)%nat -> exists b', ownRun b0 [Main OnErr] = Some b' /\ inv b' /\ main b' <> MSelect /\ threads b' = threads b0).
  { intros b0 Hi Hm0 Hpos. eapply Hone; [done | unfold mainStep; rewrite Hm0, (proj2 (Nat.eqb_neq _ _)) by lia; reflexivity | done | done]. }
  destruct He as [?|[Ho|[Ho|Hf]]]; [done | | |].
  - destruct (Hone b OnClient (with_main b MCancel)) as (b' & Hr & Hi & Hs & Ht); [done | unfold mainStep; by rewrite Hm, Ho, orb_true_r | done | done |].
    exists [Main OnClient], b'. rewrite Ht. split_and!; [done | cbn; lia | done | done | lia].
  - destruct (Hone b OnBackend (with_main b MCancel)) as (b' & Hr & Hi & Hs & Ht); [done | unfold mainStep; by rewrite Hm, Ho | done | done |].
    exists [Main OnBackend], b'. rewrite Ht. split_and!; [done | cbn; lia | done | done | lia].
  - apply Exists_exists in Hf as (th & [t Ht]%list_elem_of_lookup & Hfail). specialize (Hrep Hm). unfold failed in Hfail.
    destruct (trole th) as [src| | |] eqn:Hr; try done. destruct (st th) eqn:Hst; try done.
    + set (b1 := return_ (with_errCh b (S (errCh b))) t th).
      pose proof (i_errCh b Hinv) as Hle.
      assert (Hs : threadStep b t th Succeeds = Some b1) by (unfold threadStep; rewrite Hr, Hst, (proj2 (Nat.ltb_lt _ _)) by lia; reflexivity).
      destruct (Herr b1) as (b' & Hrun & Hi & Hm' & Hth); [by eapply inv_thread | done | cbn; lia |].
      exists [Run t Succeeds; Main OnErr], b'. split_and!; [| cbn; lia | done | done |].
      * apply (ownRun_app [Run t Succeeds] [Main OnErr] b b1); [| done]. cbn [ownRun own step]. by rewrite Ht, Hst, Hs.
      * rewrite Hth. unfold b1. cbn. pose proof (total_insert rank _ _ _ (at_state th Done) Ht) as Hx. unfold rank in Hx at 2. cbn in Hx. lia.
    + destruct (Herr b) as (b' & Hrun & Hi & Hm' & Hth); [done | done | |].
      * pose proof (total_lookup reported _ _ _ Ht) as Hle. unfold reported in Hle at 1. rewrite Hr, Hst in Hle. lia.
      * exists [Main OnErr], b'. rewrite Hth. split_and!; [done | cbn; lia | done | done | lia].
Qed.

(** ** Properties *)

(** C13. The bridge is transparent while it runs.  However its goroutines,
    the peers and the ends of the sessions interleave: each goroutine has
    written exactly the messages or datagrams it read, in order, but for at
    most the last one; and every stream accepted from either side is copied
    both ways, in the hands of its acceptor, or closed. *)
Theorem bridge_is_transparent (es : list event) (b : bridge) :
  run newBridge es = Some b ->
  (forall th, th ∈ threads b -> exists rest, got th = put th ++ rest /\ (length rest <= 1)%nat) /\
  (forall s, s ∈ accepted b ->
     s ∈ shut b \/ forwarded (threads b) s \/ exists th, th ∈ threads b /\ holding th s).
Proof.
  intros Hrun. pose proof (inv_run es _ _ inv_new Hrun) as Hinv. split; [| apply Hinv].
  intros th Hth. destruct (proj1 (Forall_forall _ _) (i_forwarding b Hinv) th Hth) as (rest & Hg & Hr).
  exists rest. split; [done |]. destruct (st th); subst; cbn; lia.
Qed.

(** C14. The bridge ends.  Once a session is over or a forwarder of the primary
    streams has failed, and as long as [bridge] has not returned whatever else
    happens, the relay's own steps (the caller's, those of goroutines not
    blocked on a session, and failing calls on sessions that are over) bring it
    to its return, in at most seven steps and the goroutines' ranks; once the caller waits for the goroutines every
    run ends, in at most [work b] steps; and when it has returned no goroutine is
    left and both sessions are closed. *)
Theorem bridge_terminates (es : list event) (b : bridge) :
  run newBridge es = Some b ->
  (ending b -> exists es' b', ownRun b es' = Some b' /\ (length es' <= 7 + total rank (threads b))%nat /\ main b' = MReturned) /\
  (forall e b', step b e = Some b' -> ending b -> ending b') /\
  (main b = MWait -> forall es' b', (forall e s, e ∈ es' -> e <> Lose s) -> run b es' = Some b' -> (length es' <= work b)%nat) /\
  (main b = MReturned ->
     Forall (fun th => st th = Done) (threads b) /\ closed b Client = true /\ closed b Backend = true).
Proof.
  intros Hrun. pose proof (inv_run es _ _ inv_new Hrun) as Hinv. pose proof (reports_run es _ _ (fun _ => eq_refl : errCh newBridge = total reported (threads newBridge)) Hrun) as Hrep. split_and!.
  - intros He. destruct (ending_selects b Hinv Hrep He) as (es1 & b1 & Hr1 & Hl1 & Hi1 & Hm1 & Ht1).
    destruct (caller_waits b1 Hi1 Hm1) as (es2 & b2 & Hr2 & Hl2 & Hi2 & Hw2 & Ht2).
    destruct (waiting_ends (work b2) b2 Hi2 Hw2 (le_n _)) as (es3 & b3 & Hr3 & Hl3 & Hm3).
    exists ((es1 ++ es2) ++ es3), b3. split; [by eapply ownRun_app; [eapply ownRun_app |] |]. split; [| done].
    rewrite !length_app. unfold work in Hl3. rewrite Ht2 in Hl3. destruct (main b2); lia.
  - intros e b' Hs. by apply ending_step with e.
  - intros Hm es' b' Hq Hr. destruct (drain es' b b' Hinv (or_introl Hm) Hq Hr) as [Hle _]. lia.
  - intros Hm. destruct (i_closed b Hinv) as [Hc Hb]. split_and!; auto.
    pose proof (i_returned b Hinv Hm) as Hz. rewrite (i_wg b Hinv), total_zero in Hz.
    eapply Forall_impl; [exact Hz |]. intros th. unfold live. by destruct (st th).
Qed.

(** ** Witnesses *)

(** A message from the client, a stream the backend opened, then the client is
    lost and everything is closed. *)
Definition bridgeRun : list event :=
  [Run 1 (Msg [x01]); Run 1 Succeeds; Run 4 (Stream 7); Run 4 (Stream 8); Run 4 Succeeds; Run 4 Succeeds; Run 4 Succeeds;
   Run 6 (Msg [x02]); Lose Client; Main OnClient; Main Next; Main Next; Main Next; Main Next].
Definition bridgeAfter (es : list event) : bridge := default newBridge (run newBridge es).

Lemma bridgeRun_after : run newBridge bridgeRun = Some (bridgeAfter bridgeRun).
Proof. vm_compute. reflexivity. Qed.

Lemma bridge_is_transparent_witness :
  7%nat ∈ accepted (bridgeAfter bridgeRun) /\
  (7%nat ∈ shut (bridgeAfter bridgeRun) \/ forwarded (threads (bridgeAfter bridgeRun)) 7%nat \/
   exists th, th ∈ threads (bridgeAfter bridgeRun) /\ holding th 7%nat).
Proof.
  assert (Ha : 7%nat ∈ accepted (bridgeAfter bridgeRun)) by (replace (accepted _) with [7%nat] by (vm_compute; reflexivity); left).
  split; [exact Ha |]. exact (proj2 (bridge_is_transparent bridgeRun _ bridgeRun_after) _ Ha).
Defined.

(** The client's forwarder fails; no session is over. *)
Definition failedRun : list event := [Run 1 (Msg [x01]); Run 1 (Fails false)].

Lemma bridge_terminates_witness :
  main (bridgeAfter failedRun) = MSelect /\ over (bridgeAfter failedRun) Client = false /\ over (bridgeAfter failedRun) Backend = false /\
  exists es b', ownRun (bridgeAfter failedRun) es = Some b' /\ main b' = MReturned.
Proof.
  split; [vm_compute; reflexivity |]. split; [vm_compute; reflexivity |]. split; [vm_compute; reflexivity |].
  destruct (bridge_terminates failedRun (bridgeAfter failedRun)) as (He & _); [vm_compute; reflexivity |].
  destruct He as (es & b' & Hr & _ & Hm); [| exists es, b'; split; [exact Hr | exact Hm]].
  right. right. right. apply Exists_exists. exists {| trole := Primary Client; got := [[x01]]; put := []; st := Reporting |}.
  split; [| exact I]. apply list_elem_of_lookup. exists 1%nat. vm_compute. reflexivity.
Defined.
