(* ===== verification/Session.v ===== *)
(** * Session: stream rendezvous of a session (api.go, stream_lifecycle.go)

    The part of [Session] that matches streams the peer opens with local
    [AcceptStream] calls: the accept loop, [deliverIncomingStream], the
    rendezvous timers, [AcceptStream] with cancellation, [GoAway] and
    [Close].  Each goroutine is a [thread]; every section under [streamMu],
    channel operation and atomic access is one step, and the step function
    interleaves all threads with the environment.  Streams, waiters and
    goroutines are pointers, written as numbers. *)

From Stdlib Require Import ZArith Lia Strings.Byte Strings.String.
From stdpp Require Import base gmap sets strings list fin_maps.
From S2P Require Import Prelude Binary Wire.

Open Scope Z_scope.

(** ** Names and policy (stream_lifecycle.go) *)

Definition nul : string := String (Ascii.ascii_of_nat 0) EmptyString.

Definition discoveryStreamName : string := nul +:+ "pigeon.enumerate".
Definition lanControlStreamName : string := nul +:+ "pigeon.lan".
Definition goAwayStreamName : string := nul +:+ "pigeon.goaway".

Definition reservedStreamName (name : string) : bool :=
  bool_decide (name = discoveryStreamName) || bool_decide (name = lanControlStreamName)
  || bool_decide (name = goAwayStreamName).

(** [applyStreamPolicy]: [None] leaves any name allowed. *)
Definition applyStreamPolicy (allowedStreams : option (gset string)) (names : list string)
    : option (gset string) :=
  match names with
  | [] => allowedStreams
  | _ => Some (foldl (fun allowed n =>
           if negb (bool_decide (n = EmptyString)) then {[n]} ∪ allowed else allowed) ∅ names)
  end.

Definition nameAllowed (allowed : option (gset string)) (name : string) : bool :=
  if reservedStreamName name then true else
  match allowed with
  | None => true
  | Some a => bool_decide (name ∈ a)
  end.

Definition DefaultStreamRendezvous : Z := 2000000000.
Definition DefaultMaxBufferedStreams : Z := 1.

Definition rendezvousTimeout (rendezvousWindow : Z) : Z :=
  if rendezvousWindow <=? 0 then DefaultStreamRendezvous else rendezvousWindow.

Definition bufferedCap (maxBufferedPerName : Z) : Z :=
  if maxBufferedPerName <=? 0 then DefaultMaxBufferedStreams else maxBufferedPerName.

Definition ErrSessionDraining : error := ENew "pigeon: session is draining".
Definition ErrClosedPipe : error := ENew "io: read/write on closed pipe".
Definition ErrCtx : error := ENew "context canceled".

(** ** Threads *)

Abbreviation stream := nat.
Abbreviation waiter := nat.
Abbreviation tid := nat.

(** How a call returns: nothing, a stream or an error; and what a thread does
    after resetting streams: go on with the accept loop, or return. *)
Inductive outcome :=
  | Nothing
  | Got (x : stream)
  | Failed (e : error).

Inductive cont :=
  | KLoop
  | KRet (e : option error).

Inductive thread :=
  (** [acceptLoop] waiting in [tr.AcceptStream] *)
  | Loop
  (** [deliverIncomingStream]: entered; waiter popped; sent on [w.ch];
      found [w.done] set; parked, about to arm the timer *)
  | DStart (name : string) (x : stream)
  | DSend (x : stream) (w : waiter)
  | DCheck (w : waiter)
  | DDrain (w : waiter)
  | DArm (name : string) (x : stream)
  (** the rendezvous timer of a parked stream *)
  | Timer (name : string) (x : stream)
  (** [AcceptStream]: entered; in its select; in [removePending]; in
      [abandonWaiter] before the store and before the receive *)
  | AStart (name : string)
  | AWait (name : string) (w : waiter)
  | ARemove (name : string) (w : waiter) (e : error)
  | AStore (w : waiter) (e : error)
  | ADrain (w : waiter) (e : error)
  (** [GoAway] before its check; [enterDrain]; [rejectParkedStreams] *)
  | GCheck
  | EDrain (k : cont)
  | Reject (k : cont)
  (** [Close] before [cancel]; a later call finds the [sync.Once] used *)
  | CStart
  (** resetting streams one by one *)
  | Resetting (xs : list stream) (k : cont)
  | Finished (o : outcome).

Definition continue (k : cont) : thread :=
  match k with
  | KLoop => Loop
  | KRet None => Finished Nothing
  | KRet (Some e) => Finished (Failed e)
  end.

(** [for _, rwc := range q { resetStream(rwc) }], then [k]. *)
Definition resetAll (xs : list stream) (k : cont) : thread :=
  match xs with [] => continue k | _ => Resetting xs k end.

(** The session: its context, drain flag, policy and per-name cap, the
    rendezvous tables, the waiters' channels and done flags, the threads,
    the streams reset, the streams consumed inside the library (discovery,
    LAN control, go-away, or closed for a bad header), the next waiter. *)
Record session := {
  ctxDone : bool;
  closeDone : bool;
  draining : bool;
  allowedStreams : option (gset string);
  maxBufferedPerName : Z;
  hasDiscover : bool;
  preferLAN : bool;
  pendingOpens : gmap string (list waiter);
  bufferedStreams : gmap string (list stream);
  chans : gmap waiter stream;
  wdone : gset waiter;
  threads : gmap tid thread;
  resets : list stream;
  internal : list stream;
  nextWaiter : waiter
}.

Definition pending (s : session) (name : string) : list waiter := default [] (pendingOpens s !! name).
Definition buffered (s : session) (name : string) : list stream := default [] (bufferedStreams s !! name).

(** Field updates. *)
Definition set_thread (t : tid) (th : thread) (s : session) : session :=
  {| ctxDone := ctxDone s; closeDone := closeDone s; draining := draining s;
     allowedStreams := allowedStreams s; maxBufferedPerName := maxBufferedPerName s;
     hasDiscover := hasDiscover s; preferLAN := preferLAN s; pendingOpens := pendingOpens s;
     bufferedStreams := bufferedStreams s; chans := chans s; wdone := wdone s;
     threads := <[t := th]> (threads s); resets := resets s; internal := internal s;
     nextWaiter := nextWaiter s |}.
Definition set_tables (s : session) (p : gmap string (list waiter)) (b : gmap string (list stream))
    (n : waiter) : session :=
  {| ctxDone := ctxDone s; closeDone := closeDone s; draining := draining s;
     allowedStreams := allowedStreams s; maxBufferedPerName := maxBufferedPerName s;
     hasDiscover := hasDiscover s; preferLAN := preferLAN s; pendingOpens := p;
     bufferedStreams := b; chans := chans s; wdone := wdone s; threads := threads s;
     resets := resets s; internal := internal s; nextWaiter := n |}.
Definition set_chans (s : session) (c : gmap waiter stream) (d : gset waiter) : session :=
  {| ctxDone := ctxDone s; closeDone := closeDone s; draining := draining s;
     allowedStreams := allowedStreams s; maxBufferedPerName := maxBufferedPerName s;
     hasDiscover := hasDiscover s; preferLAN := preferLAN s; pendingOpens := pendingOpens s;
     bufferedStreams := bufferedStreams s; chans := c; wdone := d; threads := threads s;
     resets := resets s; internal := internal s; nextWaiter := nextWaiter s |}.
Definition set_flags (s : session) (ctx closed drain : bool) : session :=
  {| ctxDone := ctx; closeDone := closed; draining := drain;
     allowedStreams := allowedStreams s; maxBufferedPerName := maxBufferedPerName s;
     hasDiscover := hasDiscover s; preferLAN := preferLAN s; pendingOpens := pendingOpens s;
     bufferedStreams := bufferedStreams s; chans := chans s; wdone := wdone s; threads := threads s;
     resets := resets s; internal := internal s; nextWaiter := nextWaiter s |}.
Definition set_gone (s : session) (r i : list stream) : session :=
  {| ctxDone := ctxDone s; closeDone := closeDone s; draining := draining s;
     allowedStreams := allowedStreams s; maxBufferedPerName := maxBufferedPerName s;
     hasDiscover := hasDiscover s; preferLAN := preferLAN s; pendingOpens := pendingOpens s;
     bufferedStreams := bufferedStreams s; chans := chans s; wdone := wdone s; threads := threads s;
     resets := r; internal := i; nextWaiter := nextWaiter s |}.

Definition with_pending (s : session) (name : string) (q : list waiter) : session :=
  set_tables s (<[name := q]> (pendingOpens s)) (bufferedStreams s) (nextWaiter s).

(** [s.bufferedStreams[name] = q; if len(q) == 0 { delete }]. *)
Definition with_buffered (s : session) (name : string) (q : list stream) : session :=
  set_tables s (pendingOpens s)
    (match q with
     | [] => delete name (bufferedStreams s)
     | _ => <[name := q]> (bufferedStreams s)
     end) (nextWaiter s).

(** ** The operations, section by section *)

(** The locked part of [AcceptStream]. *)
Definition acceptLocked (s : session) (name : string) : session * thread :=
  match buffered s name with
  | rwc :: buf => (with_buffered s name buf, Finished (Got rwc))
  | [] =>
      let w := nextWaiter s in
      (set_tables s (<[name := pending s name ++ [w]]> (pendingOpens s)) (bufferedStreams s) (S w),
       AWait name w)
  end.

(** [append(q[:i], q[i+1:]...)] at the first [i] where [q[i] == w]. *)
Fixpoint removeFirst (w : nat) (q : list nat) : option (list nat) :=
  match q with
  | [] => None
  | c :: q' => if bool_decide (c = w) then Some q' else cons c <$> removeFirst w q'
  end.

Definition removePending (s : session) (name : string) (w : waiter) : session :=
  match removeFirst w (pending s name) with
  | Some q => with_pending s name q
  | None => s
  end.

(** A non-blocking receive [select { case rwc := <-w.ch: ... default: }]. *)
Definition tryRecv (s : session) (w : waiter) : session * option stream :=
  match chans s !! w with
  | Some x => (set_chans s (delete w (chans s)) (wdone s), Some x)
  | None => (s, None)
  end.

(** The locked part of [deliverIncomingStream], up to the decision. *)
Definition deliverLocked (s : session) (name : string) (rwc : stream) : session * thread :=
  if (draining s || match allowedStreams s with
                    | None => false
                    | Some _ => negb (nameAllowed (allowedStreams s) name)
                    end) && negb (reservedStreamName name)
  then (s, Resetting [rwc] KLoop)
  else
    match pending s name with
    | w :: q => (with_pending s name q, DSend rwc w)
    | [] =>
        if bufferedCap (maxBufferedPerName s) <=? len (buffered s name)
        then (s, Resetting [rwc] KLoop)
        else (with_buffered s name (buffered s name ++ [rwc]), DArm name rwc)
    end.

(** [expireBuffered]. *)
Definition expireBuffered (s : session) (name : string) (rwc : stream) : session * thread :=
  match removeFirst rwc (buffered s name) with
  | Some q => (with_buffered s name q, Resetting [rwc] (KRet None))
  | None => (s, Finished Nothing)
  end.

(** The locked part of [rejectParkedStreams]: take the whole table. *)
Definition rejectParkedStreams (s : session) (k : cont) : session * thread :=
  (set_tables s (pendingOpens s) ∅ (nextWaiter s),
   resetAll (concat (map snd (map_to_list (bufferedStreams s)))) k).

(** The locked part of [enterDrain]. *)
Definition enterDrain (s : session) (k : cont) : session * thread :=
  if draining s then (s, continue k)
  else (set_flags s (ctxDone s) (closeDone s) true, Reject k).

(** What [acceptLoop] does with a stream whose header message is [r]. *)
Definition acceptDispatch (s : session) (x : stream) (r : result bytes) : session * thread :=
  let consume := set_gone s (resets s) (x :: internal s) in
  match r with
  | Err _ => (consume, Loop)
  | Ok header =>
      match DecodeStreamHeader header with
      | Err _ => (consume, Loop)
      | Ok name =>
          if bool_decide (name = discoveryStreamName) && hasDiscover s then (consume, Loop)
          else if bool_decide (name = lanControlStreamName) then (consume, Loop)
          else if bool_decide (name = goAwayStreamName) then (consume, EDrain KLoop)
          else (s, DStart name x)
      end
  end.

(** ** Steps *)

(** Which case a select takes, and for a timer that is armed, its thread. *)
Inductive choice :=
  | PickRecv
  | PickCtx
  | PickSession
  | Spawn (t : tid)
  | NoChoice.

Definition runThread (s : session) (t : tid) (th : thread) (ch : choice) : option session :=
  match th, ch with
  | Loop, PickCtx => Some (set_thread t (Finished Nothing) s)
  | DStart name x, NoChoice =>
      let '(s, th) := deliverLocked s name x in Some (set_thread t th s)
  | DSend x w, NoChoice =>
      match chans s !! w with
      | Some _ => None
      | None => Some (set_thread t (DCheck w) (set_chans s (<[w := x]> (chans s)) (wdone s)))
      end
  | DCheck w, NoChoice => Some (set_thread t (if bool_decide (w ∈ wdone s) then DDrain w else Loop) s)
  | DDrain w, NoChoice =>
      match tryRecv s w with
      | (s, Some leaked) => Some (set_thread t (Resetting [leaked] KLoop) s)
      | (s, None) => Some (set_thread t Loop s)
      end
  | DArm name x, Spawn t' =>
      match threads s !! t' with
      | Some _ => None
      | None => Some (set_thread t' (Timer name x) (set_thread t Loop s))
      end
  | Timer name x, NoChoice =>
      let '(s, th) := expireBuffered s name x in Some (set_thread t th s)
  | AStart name, NoChoice =>
      if bool_decide (name = EmptyString)
      then Some (set_thread t (Finished (Failed (ENew "AcceptStream: name must be non-empty"))) s)
      else let '(s, th) := acceptLocked s name in Some (set_thread t th s)
  | AWait name w, PickRecv =>
      match tryRecv s w with
      | (s, Some rwc) => Some (set_thread t (Finished (Got rwc)) s)
      | (_, None) => None
      end
  | AWait name w, PickCtx => Some (set_thread t (ARemove name w ErrCtx) s)
  | AWait name w, PickSession =>
      if ctxDone s then Some (set_thread t (ARemove name w ErrClosedPipe) s) else None
  | ARemove name w e, NoChoice => Some (set_thread t (AStore w e) (removePending s name w))
  | AStore w e, NoChoice => Some (set_thread t (ADrain w e) (set_chans s (chans s) ({[w]} ∪ wdone s)))
  | ADrain w e, NoChoice =>
      match tryRecv s w with
      | (s, Some rwc) => Some (set_thread t (Resetting [rwc] (KRet (Some e))) s)
      | (s, None) => Some (set_thread t (Finished (Failed e)) s)
      end
  | GCheck, NoChoice => Some (set_thread t (if draining s then Finished Nothing else EDrain (KRet None)) s)
  | EDrain k, NoChoice => let '(s, th) := enterDrain s k in Some (set_thread t th s)
  | Reject k, NoChoice => let '(s, th) := rejectParkedStreams s k in Some (set_thread t th s)
  | CStart, NoChoice =>
      if closeDone s then Some (set_thread t (Finished Nothing) s)
      else Some (set_thread t (Reject (KRet None)) (set_flags s true true (draining s)))
  | Resetting (x :: xs) k, NoChoice =>
      Some (set_thread t (resetAll xs k) (set_gone s (x :: resets s) (internal s)))
  | _, _ => None
  end.

(** The environment starts an accept loop (one per carrier), makes calls,
    and opens streams; everything else is a step of a thread. *)
Inductive event :=
  | StartLoop (t : tid)
  | CallAccept (t : tid) (name : string)
  | CallGoAway (t : tid)
  | CallClose (t : tid)
  | Incoming (t : tid) (x : stream) (header : result bytes)
  | Run (t : tid) (ch : choice).

(** Streams the transport has delivered, in [seen]; each is delivered once. *)
Definition step (seen : list stream) (s : session) (e : event) : option (list stream * session) :=
  let start t th := match threads s !! t with
                    | Some _ => None
                    | None => Some (seen, set_thread t th s)
                    end in
  match e with
  | StartLoop t => start t Loop
  | CallAccept t name => start t (AStart name)
  | CallGoAway t => start t GCheck
  | CallClose t => start t CStart
  | Incoming t x header =>
      match threads s !! t with
      | Some Loop =>
          if bool_decide (x ∈ seen) then None
          else let '(s, th) := acceptDispatch s x header in Some (x :: seen, set_thread t th s)
      | _ => None
      end
  | Run t ch =>
      match threads s !! t with
      | Some th => (fun s' => (seen, s')) <$> runThread s t th ch
      | None => None
      end
  end.

Fixpoint run (seen : list stream) (s : session) (es : list event) : option (list stream * session) :=
  match es with
  | [] => Some (seen, s)
  | e :: es => match step seen s e with
               | Some (seen, s) => run seen s es
               | None => None
               end
  end.

(** [newSession], for the parts modelled here. *)
Definition newSession (allowed : option (gset string)) (cap : Z) (discover lan : bool) : session :=
  {| ctxDone := false; closeDone := false; draining := false; allowedStreams := allowed;
     maxBufferedPerName := cap; hasDiscover := discover; preferLAN := lan; pendingOpens := ∅;
     bufferedStreams := ∅; chans := ∅; wdone := ∅; threads := ∅; resets := []; internal := [];
     nextWaiter := 0%nat |}.

Definition reachable (seen : list stream) (s : session) : Prop :=
  exists allowed cap discover lan es,
    run [] (newSession allowed cap discover lan) es = Some (seen, s).

(** ** Where a stream is *)

Inductive location :=
  | Parked (name : string)
  | InChan (w : waiter)
  | Held (t : tid)
  | WasReset
  | Internal.

#[export] Instance location_eq_dec : EqDecision location.
Proof. solve_decision. Defined.

(** The streams a thread owns: those it is delivering or resetting, and the
    one it returned to the application. *)
Definition holds (th : thread) : list stream :=
  match th with
  | DStart _ x | DSend x _ => [x]
  | Resetting xs _ => xs
  | Finished (Got x) => [x]
  | _ => []
  end.

Definition contents (s : session) (l : location) : list stream :=
  match l with
  | Parked name => buffered s name
  | InChan w => option_list (chans s !! w)
  | Held t => match threads s !! t with Some th => holds th | None => [] end
  | WasReset => resets s
  | Internal => internal s
  end.

(** Every stream seen is in exactly one place, once. *)
Definition placed (seen : list stream) (s : session) (loc : stream -> option location) : Prop :=
  (forall l, NoDup (contents s l)) /\
  (forall l x, x ∈ contents s l <-> loc x = Some l) /\
  (forall x, x ∈ seen <-> loc x <> None).

Definition relocate (loc : stream -> option location) (x : stream) (l : location) (y : stream)
    : option location :=
  if decide (y = x) then Some l else loc y.

Lemma placed_same seen s s' loc :
  placed seen s loc -> (forall l, contents s' l = contents s l) -> placed seen s' loc.
Proof.
  intros (Hn & Hl & Hs) He. split_and!; [intros l; by rewrite He | intros l x; by rewrite He | done].
Qed.

(** One stream moves from [l1] to [l2]. *)
Lemma placed_move seen s s' loc x l1 l2 :
  placed seen s loc -> l1 <> l2 ->
  (forall l, l <> l1 -> l <> l2 -> contents s' l = contents s l) ->
  contents s l1 ≡ₚ x :: contents s' l1 -> contents s' l2 ≡ₚ x :: contents s l2 ->
  placed seen s' (relocate loc x l2).
Proof.
  intros (Hn & Hl & Hs) Hne Hsame H1 H2.
  assert (Hx : loc x = Some l1) by (apply Hl; rewrite H1; left).
  pose proof (Hn l1) as Hn1. rewrite H1 in Hn1. apply NoDup_cons in Hn1 as [Hx1 Hn1].
  split_and!.
  - intros l. destruct (decide (l = l1)) as [->|]; [done |].
    destruct (decide (l = l2)) as [->|]; [| by rewrite Hsame].
    rewrite H2. apply NoDup_cons. split; [| done]. rewrite Hl, Hx. congruence.
  - intros l y. unfold relocate. destruct (decide (y = x)) as [->|Hy].
    + destruct (decide (l = l1)) as [->|]; [split; [done | congruence] |].
      destruct (decide (l = l2)) as [->|].
      * rewrite H2. split; [done | intros _; left].
      * rewrite Hsame, Hl, Hx by done. split; congruence.
    + rewrite <-Hl. destruct (decide (l = l1)) as [->|].
      * rewrite H1, elem_of_cons. tauto.
      * destruct (decide (l = l2)) as [->|]; [rewrite H2, elem_of_cons; tauto | by rewrite Hsame].
  - intros y. unfold relocate. destruct (decide (y = x)) as [->|]; [| done].
    rewrite Hs, Hx. done.
Qed.

(** A stream arrives at [l]. *)
Lemma placed_arrive seen s s' loc x l :
  placed seen s loc -> x ∉ seen ->
  (forall l', l' <> l -> contents s' l' = contents s l') ->
  contents s' l ≡ₚ x :: contents s l ->
  placed (x :: seen) s' (relocate loc x l).
Proof.
  intros (Hn & Hl & Hs) Hx Hsame H2.
  assert (Hxl : forall l', x ∉ contents s l').
  { intros l' Hin. apply Hl in Hin. apply Hx, Hs. congruence. }
  split_and!.
  - intros l'. destruct (decide (l' = l)) as [->|]; [| by rewrite Hsame].
    rewrite H2. by apply NoDup_cons.
  - intros l' y. unfold relocate. destruct (decide (y = x)) as [->|Hy].
    + destruct (decide (l' = l)) as [->|].
      * rewrite H2. split; [done | intros _; left].
      * rewrite Hsame by done. split; [intros Hin; by apply Hxl in Hin | congruence].
    + rewrite <-Hl. destruct (decide (l' = l)) as [->|]; [rewrite H2, elem_of_cons; tauto | by rewrite Hsame].
  - intros y. rewrite elem_of_cons, Hs. unfold relocate.
    destruct (decide (y = x)) as [->|Hyx]; [split; [done | by left] | tauto].
Qed.

(** ** Lemmas: tables *)

Lemma buffered_with_buffered s name q n :
  buffered (with_buffered s name q) n = if decide (n = name) then q else buffered s n.
Proof.
  unfold buffered, with_buffered, set_tables. cbn [bufferedStreams].
  destruct q as [|x q]; destruct (decide (n = name)) as [->|];
    rewrite ?lookup_delete_eq, ?lookup_insert_eq, ?lookup_delete_ne, ?lookup_insert_ne by done; done.
Qed.

Lemma removeFirst_Some w q q' : removeFirst w q = Some q' -> q ≡ₚ w :: q'.
Proof.
  revert q'. induction q as [|c q IH]; intros q'; simpl; [done |]. case_bool_decide as Hc.
  - intros [= <-]. by subst.
  - destruct (removeFirst w q) as [q1|]; simpl; [| done]. intros [= <-].
    rewrite (IH q1 eq_refl). constructor.
Qed.

Lemma removeFirst_sublist w q q' : removeFirst w q = Some q' -> q' `sublist_of` q.
Proof.
  revert q'. induction q as [|c q IH]; intros q'; simpl; [done |]. case_bool_decide as Hc.
  - intros [= <-]. by apply sublist_cons.
  - destruct (removeFirst w q) as [q1|]; simpl; [| done]. intros [= <-].
    by apply sublist_skip, IH.
Qed.

Lemma removeFirst_None w q : removeFirst w q = None -> w ∉ q.
Proof.
  induction q as [|c q IH]; simpl; [intros _; apply not_elem_of_nil |]. case_bool_decide; [done |].
  destruct (removeFirst w q); simpl; [done |]. intros _. rewrite not_elem_of_cons. auto.
Qed.

(** Contents after a table update and a thread change. *)
Lemma contents_thread s t th l :
  contents (set_thread t th s) l = if decide (l = Held t) then holds th else contents s l.
Proof.
  destruct l as [n|w|t'| |]; simpl; try done.
  destruct (decide (Held t' = Held t)) as [[= ->]|Hne]; [by rewrite lookup_insert_eq |].
  rewrite lookup_insert_ne by congruence. done.
Qed.

Lemma contents_buffered s name q l :
  contents (with_buffered s name q) l = if decide (l = Parked name) then q else contents s l.
Proof.
  destruct l as [n|w|t| |]; try done. cbn [contents]. rewrite buffered_with_buffered.
  destruct (decide (n = name)) as [->|]; [by rewrite decide_True |].
  by rewrite decide_False by congruence.
Qed.

Lemma contents_chan s w x d l :
  contents (set_chans s (<[w := x]> (chans s)) d) l = if decide (l = InChan w) then [x] else contents s l.
Proof.
  destruct l as [n|w'|t| |]; try done. cbn [contents set_chans chans].
  destruct (decide (InChan w' = InChan w)) as [[= ->]|]; [by rewrite lookup_insert_eq |].
  by rewrite lookup_insert_ne by congruence.
Qed.

Lemma contents_unchan s w d l :
  contents (set_chans s (delete w (chans s)) d) l = if decide (l = InChan w) then [] else contents s l.
Proof.
  destruct l as [n|w'|t| |]; try done. cbn [contents set_chans chans].
  destruct (decide (InChan w' = InChan w)) as [[= ->]|]; [by rewrite lookup_delete_eq |].
  by rewrite lookup_delete_ne by congruence.
Qed.

Lemma contents_gone s r i l :
  contents (set_gone s r i) l =
    match l with WasReset => r | Internal => i | _ => contents s l end.
Proof. by destruct l. Qed.

Lemma holds_continue k : holds (continue k) = [].
Proof. by destruct k as [|[]]. Qed.

Lemma holds_resetAll xs k : holds (resetAll xs k) = xs.
Proof. destruct xs; [apply holds_continue | done]. Qed.

(** ** Every step keeps every stream in exactly one place *)

(** A thread moves on without touching a stream. *)
Lemma placed_quiet seen s s' loc t th th' :
  placed seen s loc -> threads s !! t = Some th -> holds th' = holds th ->
  (forall l, contents s' l = contents s l) ->
  placed seen (set_thread t th' s') loc.
Proof.
  intros Hp Ht Hh Hc. eapply placed_same; [done |]. intros l. rewrite contents_thread, Hc.
  destruct (decide (l = Held t)) as [->|]; [| done]. simpl. by rewrite Ht.
Qed.

(** A thread gives the one stream it holds to [l2], or takes one from [l1]. *)
Lemma placed_give seen s s' loc t th th' x l2 :
  placed seen s loc -> threads s !! t = Some th -> holds th ≡ₚ x :: holds th' -> l2 <> Held t ->
  (forall l, l <> Held t -> l <> l2 -> contents s' l = contents s l) ->
  contents s' l2 ≡ₚ x :: contents s l2 ->
  exists loc', placed seen (set_thread t th' s') loc'.
Proof.
  intros Hp Ht Hh Hne Hsame H2. exists (relocate loc x l2).
  eapply (placed_move _ s _ _ x (Held t) l2); [done | done | ..].
  - intros l H1 H3. rewrite contents_thread, decide_False by done. auto.
  - rewrite contents_thread, decide_True by done. simpl. by rewrite Ht.
  - rewrite contents_thread, decide_False by done. done.
Qed.

Lemma placed_take seen s s' loc t th th' x l1 :
  placed seen s loc -> threads s !! t = Some th -> holds th = [] -> holds th' = [x] -> l1 <> Held t ->
  (forall l, l <> Held t -> l <> l1 -> contents s' l = contents s l) ->
  contents s l1 ≡ₚ x :: contents s' l1 ->
  exists loc', placed seen (set_thread t th' s') loc'.
Proof.
  intros Hp Ht Hh Hh' Hne Hsame H1. exists (relocate loc x (Held t)).
  eapply (placed_move _ s _ _ x l1 (Held t)); [done | done | ..].
  - intros l ??. rewrite contents_thread, decide_False by done. auto.
  - rewrite contents_thread, decide_False by done. done.
  - rewrite contents_thread, decide_True by done. simpl. by rewrite Ht, Hh, Hh'.
Qed.

Lemma placed_recv seen s s1 loc t th th' w x :
  placed seen s loc -> threads s !! t = Some th -> holds th = [] -> holds th' = [x] ->
  tryRecv s w = (s1, Some x) -> exists loc', placed seen (set_thread t th' s1) loc'.
Proof.
  intros Hp Ht Hh Hh' Hr. unfold tryRecv in Hr. destruct (chans s !! w) as [y|] eqn:Hw; [| done].
  injection Hr as <- ->. eapply (placed_take _ _ _ _ _ _ _ x (InChan w)); eauto.
  - intros l ??. rewrite contents_unchan, decide_False by done. done.
  - rewrite contents_unchan, decide_True by done. simpl. by rewrite Hw.
Qed.

Lemma tryRecv_None s w s1 : tryRecv s w = (s1, None) -> s1 = s.
Proof. unfold tryRecv. destruct (chans s !! w); [done |]. by intros [= <-]. Qed.

Lemma placed_deliver seen s loc t name x s1 th :
  placed seen s loc -> threads s !! t = Some (DStart name x) -> deliverLocked s name x = (s1, th) ->
  exists loc', placed seen (set_thread t th s1) loc'.
Proof.
  intros Hp Ht Hd. unfold deliverLocked in Hd. destruct (_ && _).
  { injection Hd as <- <-. exists loc. by eapply placed_quiet. }
  destruct (pending s name) as [|w q].
  - destruct (_ <=? _); injection Hd as <- <-.
    { exists loc. by eapply placed_quiet. }
    eapply (placed_give _ _ _ _ _ _ _ x (Parked name)); eauto.
    + intros l ??. rewrite contents_buffered, decide_False by done. done.
    + rewrite contents_buffered, decide_True by done. simpl. by rewrite Permutation_app_comm.
  - injection Hd as <- <-. exists loc. by eapply placed_quiet.
Qed.

Lemma placed_accept seen s loc t name s1 th :
  placed seen s loc -> threads s !! t = Some (AStart name) -> acceptLocked s name = (s1, th) ->
  exists loc', placed seen (set_thread t th s1) loc'.
Proof.
  intros Hp Ht Ha. unfold acceptLocked in Ha. destruct (buffered s name) as [|x buf] eqn:Hb.
  - injection Ha as <- <-. exists loc. by eapply placed_quiet.
  - injection Ha as <- <-. eapply (placed_take _ _ _ _ _ _ _ x (Parked name)); eauto.
    + intros l ??. rewrite contents_buffered, decide_False by done. done.
    + rewrite contents_buffered, decide_True by done. simpl. by rewrite Hb.
Qed.

Lemma placed_expire seen s loc t name x s1 th :
  placed seen s loc -> threads s !! t = Some (Timer name x) -> expireBuffered s name x = (s1, th) ->
  exists loc', placed seen (set_thread t th s1) loc'.
Proof.
  intros Hp Ht Ha. unfold expireBuffered in Ha.
  destruct (removeFirst x (buffered s name)) as [q|] eqn:Hr; injection Ha as <- <-.
  - apply removeFirst_Some in Hr.
    eapply (placed_take _ _ _ _ _ _ _ x (Parked name)); eauto.
    + intros l ??. rewrite contents_buffered, decide_False by done. done.
    + rewrite contents_buffered, decide_True by done. done.
  - exists loc. by eapply placed_quiet.
Qed.

Lemma NoDup_concat_by {A B} (f : A -> option B) (ls : list (B * list A)) :
  NoDup ls.*1 -> (forall b xs, (b, xs) ∈ ls -> NoDup xs /\ forall x, x ∈ xs -> f x = Some b) ->
  NoDup (concat (map snd ls)).
Proof.
  induction ls as [|[b xs] ls IH]; intros Hk Hall; cbn [map concat snd]; [constructor |].
  apply NoDup_cons in Hk as [Hb Hk]. destruct (Hall b xs ltac:(left)) as [Hxs Hf].
  apply NoDup_app. split_and!; [done | | apply IH; [done | intros; apply Hall; by right]].
  intros x Hx Hin. apply Hf in Hx. apply list_elem_of_In, in_concat in Hin as (ys & Hys & Hxy).
  apply in_map_iff in Hys as ([b' ys'] & <- & Hys). apply list_elem_of_In in Hys, Hxy.
  destruct (Hall b' ys' ltac:(by right)) as [_ Hf']. rewrite (Hf' x Hxy) in Hx. injection Hx as ->.
  apply Hb. apply list_elem_of_fmap. by exists (b, ys').
Qed.

(** [rejectParkedStreams] takes every parked stream, each once. *)
Lemma placed_reject seen s loc t k s1 th :
  placed seen s loc -> threads s !! t = Some (Reject k) -> rejectParkedStreams s k = (s1, th) ->
  exists loc', placed seen (set_thread t th s1) loc'.
Proof.
  intros (Hn & Hl & Hs) Ht Hr. unfold rejectParkedStreams in Hr. injection Hr as <- <-.
  set (xs := concat _).
  assert (Hkey : forall n q, (n, q) ∈ map_to_list (bufferedStreams s) -> q = contents s (Parked n)).
  { intros n q Hq. apply elem_of_map_to_list in Hq. simpl. unfold buffered. by rewrite Hq. }
  assert (Hxs : forall x, x ∈ xs <-> exists n, loc x = Some (Parked n)).
  { intros x. unfold xs. rewrite list_elem_of_In, in_concat. split.
    - intros (q & Hq & Hx). apply in_map_iff in Hq as ([n q'] & <- & Hq).
      apply list_elem_of_In in Hq, Hx. exists n. apply Hl. by rewrite <-(Hkey _ _ Hq).
    - intros [n Hx]. apply Hl in Hx. cbn [contents] in Hx. unfold buffered in Hx.
      destruct (bufferedStreams s !! n) as [q|] eqn:Hq; [| by apply elem_of_nil in Hx].
      exists q. rewrite in_map_iff. split; [| by apply list_elem_of_In].
      exists (n, q). split; [done |]. by apply list_elem_of_In, elem_of_map_to_list. }
  assert (HNoDup : NoDup xs).
  { unfold xs. apply (NoDup_concat_by (fun x => match loc x with Some (Parked n) => Some n | _ => None end)).
    - apply NoDup_fst_map_to_list.
    - intros n q Hq. rewrite (Hkey _ _ Hq). split; [apply Hn |]. intros x Hx. apply Hl in Hx. by rewrite Hx. }
  assert (Ht0 : contents s (Held t) = []) by (simpl; by rewrite Ht).
  exists (fun x => match loc x with Some (Parked _) => Some (Held t) | l => l end).
  split_and!.
  - intros l. rewrite contents_thread. destruct (decide (l = Held t)); [by rewrite holds_resetAll |].
    destruct l as [n'|w|t'| |]; [constructor | apply (Hn (InChan w)) | apply (Hn (Held t'))
      | apply (Hn WasReset) | apply (Hn Internal)].
  - intros l x. rewrite contents_thread. destruct (decide (l = Held t)) as [->|Hne].
    + rewrite holds_resetAll, Hxs. split; [by intros [n ->] |].
      destruct (loc x) as [[]|] eqn:Hx; try done; [by exists name |].
      intros [= ->]. apply Hl in Hx. rewrite Ht0 in Hx. by apply elem_of_nil in Hx.
    + destruct l as [n|w|t'| |]; [split; [by intros ?%elem_of_nil | by destruct (loc x) as [[]|]] | ..];
        [pose proof (Hl (InChan w) x) as Hlx | pose proof (Hl (Held t') x) as Hlx
        | pose proof (Hl WasReset x) as Hlx | pose proof (Hl Internal x) as Hlx];
        cbn [contents set_tables chans threads resets internal] in *;
        (etransitivity; [apply Hlx |]); (destruct (loc x) as [[]|]; split; congruence).
  - intros x. rewrite Hs. by destruct (loc x) as [[]|].
Qed.

Lemma runThread_placed seen s loc t th ch s' :
  placed seen s loc -> threads s !! t = Some th -> runThread s t th ch = Some s' ->
  exists loc', placed seen s' loc'.
Proof.
  intros Hp Ht Hr. destruct th; destruct ch; try done; cbn [runThread] in Hr.
  - injection Hr as <-. exists loc. by eapply placed_quiet.
  - destruct (deliverLocked s name x) as [s1 th] eqn:Hd. injection Hr as <-. by eapply placed_deliver.
  - destruct (chans s !! w) eqn:Hw; [done |]. injection Hr as <-.
    eapply (placed_give _ _ _ _ _ _ _ x (InChan w)); eauto.
    + intros l ??. rewrite contents_chan, decide_False by done. done.
    + rewrite contents_chan, decide_True by done. simpl. by rewrite Hw.
  - injection Hr as <-. exists loc. eapply placed_quiet; eauto. by case_bool_decide.
  - destruct (tryRecv s w) as [s1 [x|]] eqn:Hrv; injection Hr as <-.
    + by eapply placed_recv.
    + apply tryRecv_None in Hrv as ->. exists loc. by eapply placed_quiet.
  - destruct (threads s !! t0) eqn:Ht0; [done |]. injection Hr as <-. exists loc.
    eapply placed_same; [done |]. intros l. rewrite !contents_thread.
    destruct (decide (l = Held t0)) as [->|]; [simpl; by rewrite Ht0 |].
    destruct (decide (l = Held t)) as [->|]; [simpl; by rewrite Ht | done].
  - destruct (expireBuffered s name x) as [s1 th] eqn:Hd. injection Hr as <-. by eapply placed_expire.
  - case_bool_decide; [injection Hr as <-; exists loc; by eapply placed_quiet |].
    destruct (acceptLocked s name) as [s1 th] eqn:Hd. injection Hr as <-. by eapply placed_accept.
  - destruct (tryRecv s w) as [s1 [x|]] eqn:Hrv; [| done]. injection Hr as <-. by eapply placed_recv.
  - injection Hr as <-. exists loc. by eapply placed_quiet.
  - destruct (ctxDone s); [| done]. injection Hr as <-. exists loc. by eapply placed_quiet.
  - injection Hr as <-. exists loc. eapply placed_quiet; eauto.
    unfold removePending. by destruct (removeFirst _ _).
  - injection Hr as <-. exists loc. by eapply placed_quiet.
  - destruct (tryRecv s w) as [s1 [x|]] eqn:Hrv; injection Hr as <-.
    + by eapply placed_recv.
    + apply tryRecv_None in Hrv as ->. exists loc. by eapply placed_quiet.
  - injection Hr as <-. exists loc. eapply placed_quiet; eauto. by destruct (draining s).
  - unfold enterDrain in Hr. destruct (draining s); injection Hr as <-; exists loc;
      (eapply placed_quiet; eauto); apply holds_continue.
  - destruct (rejectParkedStreams s k) as [s1 th] eqn:Hd. injection Hr as <-. by eapply placed_reject.
  - destruct (closeDone s); injection Hr as <-; exists loc; by eapply placed_quiet.
  - by destruct xs.
  - by destruct xs.
  - by destruct xs.
  - by destruct xs.
  - destruct xs as [|x xs]; [done |]. injection Hr as <-.
    eapply (placed_give _ _ _ _ _ _ _ x WasReset); eauto.
    + by rewrite holds_resetAll.
    + intros l ??. rewrite contents_gone. by destruct l.
Qed.

(** ** Waiters: the hand-over protocol of [AcceptStream] *)

(** The waiter a thread still listens for, may still collect from, or knows. *)
Definition accepts (th : thread) : option waiter :=
  match th with AWait _ w | ARemove _ w _ | AStore w _ => Some w | _ => None end.
Definition collects (th : thread) : option waiter :=
  match th with AWait _ w | ARemove _ w _ | AStore w _ | ADrain w _ => Some w | _ => None end.
Definition mentions (th : thread) : option waiter :=
  match th with
  | AWait _ w | ARemove _ w _ | AStore w _ | ADrain w _ | DSend _ w | DCheck w | DDrain w => Some w
  | _ => None
  end.
Definition queuedUnder (th : thread) : option (string * waiter) :=
  match th with AWait n w | ARemove n w _ => Some (n, w) | _ => None end.
Definition abandons (th : thread) : option waiter :=
  match th with AStore w _ | ADrain w _ => Some w | _ => None end.
Definition sendsTo (th : thread) : option waiter :=
  match th with DSend _ w => Some w | _ => None end.

Definition some_thread (s : session) (P : thread -> Prop) : Prop :=
  exists t th, threads s !! t = Some th /\ P th.

(** Somebody will take what is in the channel of [w]: the caller, or the
    deliverer that has seen or will see the done flag. *)
Definition willCollect (d : gset waiter) (w : waiter) (th : thread) : Prop :=
  collects th = Some w \/ th = DDrain w \/ (th = DCheck w /\ w ∈ d).

Record waiters_ok (s : session) (wloc : waiter -> option string) : Prop := {
  w_pend n w : w ∈ pending s n <-> wloc w = Some n;
  w_nodup n : NoDup (pending s n);
  w_fresh w : (nextWaiter s <= w)%nat ->
    wloc w = None /\ chans s !! w = None /\ ~ some_thread s (fun th => mentions th = Some w);
  w_name t th n w : threads s !! t = Some th -> queuedUnder th = Some (n, w) ->
    wloc w = Some n \/ wloc w = None;
  w_gone t th w : threads s !! t = Some th -> abandons th = Some w -> wloc w = None;
  w_live n w : wloc w = Some n -> some_thread s (fun th => accepts th = Some w);
  w_send t th w : threads s !! t = Some th -> sendsTo th = Some w ->
    wloc w = None /\ chans s !! w = None /\
    (w ∈ wdone s \/ some_thread s (fun th => accepts th = Some w)) /\
    forall t' th', threads s !! t' = Some th' -> sendsTo th' = Some w -> t' = t;
  w_chan w x : chans s !! w = Some x ->
    wloc w = None /\ some_thread s (willCollect (wdone s) w)
}.

Lemma some_thread_upd s s1 t th th' (P Q : thread -> Prop) :
  threads s !! t = Some th -> threads s1 = threads s ->
  some_thread s P -> (P th -> Q th') -> (forall th0, P th0 -> Q th0) ->
  some_thread (set_thread t th' s1) Q.
Proof.
  intros Ht Hs (t0 & th0 & Ht0 & HP) Hth HQ. destruct (decide (t0 = t)) as [->|Hne].
  - exists t, th'. split; [apply lookup_insert_eq |]. apply Hth. congruence.
  - exists t0, th0. cbn [set_thread threads]. rewrite lookup_insert_ne, Hs by done. auto.
Qed.

Lemma no_thread_upd s s1 t th th' (P : thread -> Prop) :
  threads s !! t = Some th -> threads s1 = threads s ->
  ~ some_thread s P -> (P th' -> P th) -> ~ some_thread (set_thread t th' s1) P.
Proof.
  intros Ht Hs Hno Hth (t0 & th0 & Ht0 & HP). apply Hno. cbn [set_thread threads] in Ht0.
  destruct (decide (t0 = t)) as [->|Hne].
  - rewrite lookup_insert_eq in Ht0. injection Ht0 as <-. exists t, th. auto.
  - rewrite lookup_insert_ne, Hs in Ht0 by done. by exists t0, th0.
Qed.

Lemma thread_upd_inv s1 t th' t0 th0 :
  threads (set_thread t th' s1) !! t0 = Some th0 ->
  (t0 = t /\ th0 = th') \/ (t0 <> t /\ threads s1 !! t0 = Some th0).
Proof.
  cbn [set_thread threads]. destruct (decide (t0 = t)) as [->|Hne].
  - rewrite lookup_insert_eq. intros [= <-]. by left.
  - rewrite lookup_insert_ne by done. by right.
Qed.

(** A thread step that leaves the pending table alone. *)
Lemma waiters_thread s s1 wloc t th th' :
  waiters_ok s wloc -> threads s !! t = Some th ->
  threads s1 = threads s -> pendingOpens s1 = pendingOpens s -> nextWaiter s1 = nextWaiter s ->
  wdone s ⊆ wdone s1 ->
  (forall w x, chans s1 !! w = Some x -> chans s !! w = Some x) ->
  (forall w, mentions th' = Some w -> mentions th = Some w) ->
  (forall n w, queuedUnder th' = Some (n, w) -> queuedUnder th = Some (n, w)) ->
  (forall w, abandons th' = Some w -> wloc w = None) ->
  sendsTo th' = None ->
  (forall w, accepts th = Some w ->
     accepts th' = Some w \/ (wloc w = None /\ (w ∈ wdone s1 \/ chans s !! w <> None))) ->
  (forall w, chans s1 !! w <> None -> willCollect (wdone s) w th -> willCollect (wdone s1) w th') ->
  waiters_ok (set_thread t th' s1) wloc.
Proof.
  intros [] Ht Hth Hp Hnx Hd Hch Hm Hq Ha Hsnd Hacc Hcol.
  assert (Hch0 : forall w, chans s !! w = None -> chans s1 !! w = None).
  { intros w Hw. destruct (chans s1 !! w) eqn:E; [| done]. apply Hch in E. congruence. }
  split; unfold pending; cbn [set_thread pendingOpens nextWaiter chans wdone]; rewrite ?Hp, ?Hnx; auto.
  - intros w Hw. destruct (w_fresh0 w Hw) as (? & ? & ?). split_and!; auto.
    eapply no_thread_upd; eauto.
  - intros t0 th0 n w H0 H1. apply thread_upd_inv in H0 as [[-> ->]|[? H0]];
      [eapply w_name0; eauto | rewrite Hth in H0; eapply w_name0; eauto].
  - intros t0 th0 w H0 H1. apply thread_upd_inv in H0 as [[-> ->]|[? H0]];
      [auto | rewrite Hth in H0; eapply w_gone0; eauto].
  - intros n w Hw. eapply some_thread_upd; eauto.
    intros Hac. destruct (Hacc w Hac) as [?|[? _]]; [done | congruence].
  - intros t0 th0 w H0 H1. apply thread_upd_inv in H0 as [[-> ->]|[Hne H0]]; [congruence |].
    rewrite Hth in H0. destruct (w_send0 _ _ _ H0 H1) as (Hw & Hc & Hl & Hu). split_and!; auto.
    + destruct Hl as [Hl|Hl]; [left; by apply Hd |].
      destruct (accepts th) as [w'|] eqn:Hac.
      * destruct (decide (w' = w)) as [->|Hw'].
        -- destruct (Hacc w eq_refl) as [?|[_ [?|?]]]; [| by left | congruence].
           right. exists t, th'. split; [apply lookup_insert_eq | done].
        -- right. eapply some_thread_upd; eauto. congruence.
      * right. eapply some_thread_upd; eauto. congruence.
    + intros t1 th1 H2 H3. apply thread_upd_inv in H2 as [[-> ->]|[? H2]]; [congruence |].
      rewrite Hth in H2. eauto.
  - intros w x Hw. destruct (w_chan0 _ _ (Hch _ _ Hw)) as [? Hc]. split; [done |].
    eapply some_thread_upd; eauto; [apply Hcol; congruence |].
    intros th0 [?|[?|[? ?]]]; [by left | right; by left | right; right; split; [done | by apply Hd]].
Qed.

Definition wupd (wloc : waiter -> option string) (w : waiter) (o : option string) (v : waiter)
    : option string := if decide (v = w) then o else wloc v.

Lemma wupd_eq wloc w o : wupd wloc w o w = o.
Proof. unfold wupd. by rewrite decide_True. Qed.
Lemma wupd_ne wloc w o v : v <> w -> wupd wloc w o v = wloc v.
Proof. intros. unfold wupd. by rewrite decide_False. Qed.

(** Removing one waiter from one queue updates its place. *)
Lemma pending_remove s wloc n w q :
  waiters_ok s wloc -> pending s n ≡ₚ w :: q ->
  (forall n' v, v ∈ pending (with_pending s n q) n' <-> wupd wloc w None v = Some n') /\
  (forall n', NoDup (pending (with_pending s n q) n')) /\ wloc w = Some n.
Proof.
  intros [] Hq.
  assert (Hw : wloc w = Some n) by (apply w_pend0; rewrite Hq; left).
  assert (Hnd : NoDup (w :: q)) by (rewrite <-Hq; apply w_nodup0).
  apply NoDup_cons in Hnd as [Hwq Hnd].
  assert (Hp : forall n', pending (with_pending s n q) n' = if decide (n' = n) then q else pending s n').
  { intros n'. unfold pending, with_pending. cbn [set_tables pendingOpens].
    destruct (decide (n' = n)) as [->|]; [by rewrite lookup_insert_eq | by rewrite lookup_insert_ne]. }
  split_and!; [| intros n'; rewrite Hp; by destruct (decide (n' = n)) | done].
  intros n' v. rewrite Hp. unfold wupd. destruct (decide (v = w)) as [->|Hv].
  - destruct (decide (n' = n)) as [->|Hn']; [split; [done | congruence] |].
    rewrite w_pend0, Hw. split; congruence.
  - destruct (decide (n' = n)) as [->|Hn']; [| apply w_pend0].
    rewrite <-w_pend0, Hq, elem_of_cons. tauto.
Qed.

Lemma waiters_pop s wloc t n x w q :
  waiters_ok s wloc -> threads s !! t = Some (DStart n x) -> pending s n = w :: q ->
  exists wloc', waiters_ok (set_thread t (DSend x w) (with_pending s n q)) wloc'.
Proof.
  intros Hok Ht Hq. destruct (pending_remove s wloc n w q Hok ltac:(by rewrite Hq)) as (Hp & Hnd & Hw).
  exists (wupd wloc w None). destruct Hok.
  assert (Hnone : forall v, wloc v = None -> wupd wloc w None v = None).
  { intros v Hv. unfold wupd. by destruct (decide (v = w)). }
  split; cbn [set_thread with_pending set_tables pendingOpens nextWaiter chans wdone]; auto.
  - intros v Hv. destruct (w_fresh0 v Hv) as (? & ? & Hno). split_and!; auto.
    eapply (no_thread_upd s); eauto. simpl. intros [= ->]. congruence.
  - intros t0 th0 n0 v H0 H1. apply thread_upd_inv in H0 as [[-> ->]|[? H0]]; [done |].
    destruct (decide (v = w)) as [->|]; [right; apply wupd_eq | rewrite wupd_ne by done; eauto].
  - intros t0 th0 v H0 H1. apply thread_upd_inv in H0 as [[-> ->]|[? H0]]; [done |]. eauto.
  - intros n0 v Hv. destruct (decide (v = w)) as [->|]; [by rewrite wupd_eq in Hv |].
    rewrite wupd_ne in Hv by done. by eapply (some_thread_upd s); eauto.
  - intros t0 th0 v H0 H1. apply thread_upd_inv in H0 as [[-> ->]|[Hne H0]].
    + injection H1 as <-. split_and!; [apply wupd_eq | | |].
      * destruct (chans s !! w) eqn:E; [| done]. apply w_chan0 in E as [? _]. congruence.
      * right. by eapply (some_thread_upd s); eauto.
      * intros t' th' H2 H3. apply thread_upd_inv in H2 as [[? _]|[? H2]]; [done |].
        destruct (w_send0 _ _ _ H2 H3) as (? & _). congruence.
    + destruct (w_send0 _ _ _ H0 H1) as (Hv & Hc & Hl & Hu). split_and!; auto.
      * destruct Hl as [?|Hl]; [by left | right]. by eapply (some_thread_upd s); eauto.
      * intros t' th' H2 H3. apply thread_upd_inv in H2 as [[-> ->]|[? H2]]; [| eauto].
        injection H3 as ->. congruence.
  - intros v y Hv. destruct (w_chan0 _ _ Hv) as [? Hc]. split; [auto |].
    eapply (some_thread_upd s); eauto. intros [?|[?|[? ?]]]; done.
Qed.

Lemma waiters_sent s wloc t x w :
  waiters_ok s wloc -> threads s !! t = Some (DSend x w) -> chans s !! w = None ->
  waiters_ok (set_thread t (DCheck w) (set_chans s (<[w := x]> (chans s)) (wdone s))) wloc.
Proof.
  intros [] Ht Hch. destruct (w_send0 _ _ _ Ht eq_refl) as (Hw & _ & Hlive & Huniq).
  split; cbn [set_thread set_chans nextWaiter chans wdone]; auto.
  - intros v Hv. destruct (w_fresh0 v Hv) as (? & ? & Hno). split_and!; auto.
    + rewrite lookup_insert_ne; [done |]. intros <-. apply Hno. by exists t, (DSend x w).
    + by eapply (no_thread_upd s); eauto.
  - intros t0 th0 n0 v H0 H1. apply thread_upd_inv in H0 as [[-> ->]|[? H0]]; [done | eauto].
  - intros t0 th0 v H0 H1. apply thread_upd_inv in H0 as [[-> ->]|[? H0]]; [done | eauto].
  - intros n0 v Hv. by eapply (some_thread_upd s); eauto.
  - intros t0 th0 v H0 H1. apply thread_upd_inv in H0 as [[-> ->]|[Hne H0]]; [done |].
    destruct (w_send0 _ _ _ H0 H1) as (Hv & Hc & Hl & Hu). split_and!; auto.
    + rewrite lookup_insert_ne; [done |]. intros <-. by apply Hne, (Huniq _ th0).
    + destruct Hl as [?|Hl]; [by left | right]. by eapply (some_thread_upd s); eauto.
    + intros t' th' H2 H3. apply thread_upd_inv in H2 as [[-> ->]|[? H2]]; [done | eauto].
  - intros v y Hv. destruct (decide (v = w)) as [->|Hvw].
    + split; [done |]. destruct Hlive as [Hd|Hl].
      * exists t, (DCheck w). split; [apply lookup_insert_eq | right; right; done].
      * eapply (some_thread_upd s); eauto; [done |]. intros th0 Hac. left. by destruct th0.
    + rewrite lookup_insert_ne in Hv by done. destruct (w_chan0 _ _ Hv) as [? Hc]. split; [done |].
      eapply (some_thread_upd s); eauto. intros [?|[?|[? ?]]]; done.
Qed.

Lemma waiters_wait s wloc t n :
  waiters_ok s wloc -> threads s !! t = Some (AStart n) ->
  exists wloc', waiters_ok
    (set_thread t (AWait n (nextWaiter s))
      (set_tables s (<[n := pending s n ++ [nextWaiter s]]> (pendingOpens s)) (bufferedStreams s)
         (S (nextWaiter s)))) wloc'.
Proof.
  intros [] Ht. set (w := nextWaiter s) in *. exists (wupd wloc w (Some n)).
  destruct (w_fresh0 w ltac:(lia)) as (Hw & Hch & Hno).
  assert (Hmen : forall t0 th0 v, threads s !! t0 = Some th0 -> mentions th0 = Some v -> v <> w).
  { intros t0 th0 v H0 H1 ->. apply Hno. by exists t0, th0. }
  assert (Hp : forall n', pending (set_tables s (<[n := pending s n ++ [w]]> (pendingOpens s))
            (bufferedStreams s) (S w)) n' = if decide (n' = n) then pending s n ++ [w] else pending s n').
  { intros n'. unfold pending at 1. cbn [set_tables pendingOpens].
    destruct (decide (n' = n)) as [->|]; [by rewrite lookup_insert_eq | by rewrite lookup_insert_ne]. }
  assert (Hacc : forall th0 v, accepts th0 = Some v -> mentions th0 = Some v) by (by intros []).
  split.
  - intros n' v. unfold pending in *. cbn [set_thread pendingOpens] in *. rewrite Hp. unfold wupd.
    destruct (decide (n' = n)) as [->|Hn']; [rewrite elem_of_app, list_elem_of_singleton |];
      rewrite w_pend0; destruct (decide (v = w)) as [->|Hv]; rewrite ?Hw; [| tauto | | done].
    + split; [done | by right].
    + split; congruence.
  - intros n'. unfold pending in *. cbn [set_thread pendingOpens] in *. rewrite Hp.
    destruct (decide (n' = n)) as [->|]; [| done]. apply NoDup_app. split_and!; [done | | apply NoDup_singleton].
    intros v Hv. rewrite list_elem_of_singleton. intros ->. apply w_pend0 in Hv. congruence.
  - cbn [set_thread set_tables nextWaiter chans]. intros v Hv.
    destruct (w_fresh0 v ltac:(lia)) as (? & ? & ?). rewrite wupd_ne by lia. split_and!; auto.
    eapply (no_thread_upd s); eauto. simpl. intros [= <-]. lia.
  - intros t0 th0 n0 v H0 H1. apply thread_upd_inv in H0 as [[-> ->]|[? H0]].
    + injection H1 as <- <-. left. apply wupd_eq.
    + rewrite wupd_ne; [eauto |]. eapply Hmen; [apply H0 |]. destruct th0; simplify_eq/=; done.
  - intros t0 th0 v H0 H1. apply thread_upd_inv in H0 as [[-> ->]|[? H0]]; [done |].
    rewrite wupd_ne; [eauto |]. eapply Hmen; [apply H0 |]. by destruct th0.
  - intros n0 v Hv. destruct (decide (v = w)) as [->|Hne].
    + exists t, (AWait n w). split; [apply lookup_insert_eq | done].
    + rewrite wupd_ne in Hv by done. by eapply (some_thread_upd s); eauto.
  - intros t0 th0 v H0 H1. apply thread_upd_inv in H0 as [[-> ->]|[Hne H0]]; [done |].
    destruct (w_send0 _ _ _ H0 H1) as (Hv & Hc & Hl & Hu).
    assert (v <> w) by (eapply Hmen; [apply H0 | by destruct th0]). split_and!; auto.
    + by rewrite wupd_ne.
    + destruct Hl as [?|Hl]; [by left | right]. by eapply (some_thread_upd s); eauto.
    + intros t' th' H2 H3. apply thread_upd_inv in H2 as [[-> ->]|[? H2]]; [done | eauto].
  - intros v y Hv. change (chans s !! v = Some y) in Hv. destruct (w_chan0 _ _ Hv) as [? Hc].
    assert (v <> w) by congruence. rewrite wupd_ne by done.

    split; [auto |]. eapply (some_thread_upd s); eauto. intros [?|[?|[? ?]]]; done.
Qed.

Lemma waiters_remove s wloc t n w e :
  waiters_ok s wloc -> threads s !! t = Some (ARemove n w e) ->
  exists wloc', waiters_ok (set_thread t (AStore w e) (removePending s n w)) wloc'.
Proof.
  intros Hok Ht. unfold removePending. destruct (removeFirst w (pending s n)) as [q|] eqn:Hr.
  - apply removeFirst_Some in Hr.
    destruct (pending_remove s wloc n w q Hok Hr) as (Hp & Hnd & Hw).
    exists (wupd wloc w None). destruct Hok.
    assert (Hnone : forall v, wloc v = None -> wupd wloc w None v = None).
    { intros v Hv. unfold wupd. by destruct (decide (v = w)). }
    split; cbn [set_thread with_pending set_tables pendingOpens nextWaiter chans wdone]; auto.
    + intros v Hv. destruct (w_fresh0 v Hv) as (? & ? & Hno). split_and!; auto.
      by eapply (no_thread_upd s); eauto.
    + intros t0 th0 n0 v H0 H1. apply thread_upd_inv in H0 as [[-> ->]|[? H0]]; [done |].
      destruct (decide (v = w)) as [->|]; [right; apply wupd_eq | rewrite wupd_ne by done; eauto].
    + intros t0 th0 v H0 H1. apply thread_upd_inv in H0 as [[-> ->]|[? H0]]; [| eauto].
      injection H1 as <-. apply wupd_eq.
    + intros n0 v Hv. destruct (decide (v = w)) as [->|]; [by rewrite wupd_eq in Hv |].
      rewrite wupd_ne in Hv by done. by eapply (some_thread_upd s); eauto.
    + intros t0 th0 v H0 H1. apply thread_upd_inv in H0 as [[-> ->]|[Hne H0]]; [done |].
      destruct (w_send0 _ _ _ H0 H1) as (Hv & Hc & Hl & Hu). split_and!; auto.
      * destruct Hl as [?|Hl]; [by left | right]. by eapply (some_thread_upd s); eauto.
      * intros t' th' H2 H3. apply thread_upd_inv in H2 as [[-> ->]|[? H2]]; [done | eauto].
    + intros v y Hv. destruct (w_chan0 _ _ Hv) as [? Hc]. split; [auto |].
      eapply (some_thread_upd s); eauto. intros [?|[?|[? ?]]]; [by left | done | done].
  - exists wloc. eapply waiters_thread; eauto; try done.
    + intros v [= <-]. destruct (w_name _ _ Hok _ _ _ _ Ht eq_refl) as [Hn|]; [| done].
      apply (w_pend _ _ Hok) in Hn. by apply removeFirst_None in Hr.
    + intros v _ [?|[?|[? ?]]]; [by left | done | done].
Qed.

(** A thread that knows no waiter starts, or one such becomes another. *)
Lemma waiters_spawn s wloc t th :
  waiters_ok s wloc -> threads s !! t = None -> mentions th = None -> waiters_ok (set_thread t th s) wloc.
Proof.
  intros [] Ht Hm.
  assert (Hst : forall P, some_thread s P -> some_thread (set_thread t th s) P).
  { intros P (t0 & th0 & Hx0 & HP). exists t0, th0. cbn [set_thread threads].
    rewrite lookup_insert_ne by congruence. done. }
  assert (Hcl : queuedUnder th = None /\ abandons th = None /\ sendsTo th = None) by (by destruct th).
  destruct Hcl as (Hq & Ha & Hs).
  split; cbn [set_thread nextWaiter chans wdone]; auto.
  - intros w Hw. destruct (w_fresh0 w Hw) as (? & ? & Hno). split_and!; auto.
    intros (t0 & th0 & Hx0 & HP). apply thread_upd_inv in Hx0 as [[-> ->]|[? Hx0]]; [congruence |].
    apply Hno. by exists t0, th0.
  - intros t0 th0 n w Hx0 Hx1. apply thread_upd_inv in Hx0 as [[-> ->]|[? Hx0]]; [congruence | eauto].
  - intros t0 th0 w Hx0 Hx1. apply thread_upd_inv in Hx0 as [[-> ->]|[? Hx0]]; [congruence | eauto].
  - intros n w Hw. eauto.
  - intros t0 th0 w Hx0 Hx1. apply thread_upd_inv in Hx0 as [[-> ->]|[? Hx0]]; [congruence |].
    destruct (w_send0 _ _ _ Hx0 Hx1) as (? & ? & [?|?] & Hu); split_and!; auto;
      (intros t' th' Hx2 Hx3; apply thread_upd_inv in Hx2 as [[-> ->]|[? Hx2]]; [congruence | eauto]).
  - intros w x Hw. destruct (w_chan0 _ _ Hw). auto.
Qed.

(** A receive empties the channel of [w]. *)
Lemma waiters_recv s s1 wloc t th th' w x :
  waiters_ok s wloc -> threads s !! t = Some th -> tryRecv s w = (s1, Some x) ->
  accepts th = Some w \/ accepts th = None -> collects th = Some w \/ th = DDrain w ->
  mentions th' = None -> waiters_ok (set_thread t th' s1) wloc.
Proof.
  intros Hok Ht Hr Ha Hc Hm. unfold tryRecv in Hr. destruct (chans s !! w) as [y|] eqn:Hw; [| done].
  injection Hr as <- <-. destruct (w_chan _ _ Hok _ _ Hw) as [Hwl _].
  assert (Hcl : queuedUnder th' = None /\ abandons th' = None /\ sendsTo th' = None) by (by destruct th').
  destruct Hcl as (Hq & Hab & Hs). eapply waiters_thread; eauto; cbn [set_chans chans wdone]; try congruence.
  - intros v z. destruct (decide (v = w)) as [->|]; [by rewrite lookup_delete_eq | by rewrite lookup_delete_ne].
  - intros v Hv. destruct Ha as [Ha|Ha]; [| congruence]. right.
    assert (v = w) as -> by congruence. split; [done | right; congruence].
  - intros v Hv [Hcv|[->|[-> _]]]; [| |by destruct Hc]; exfalso; apply Hv;
      (assert (v = w) as -> by (destruct Hc; simplify_eq/=; done)); apply lookup_delete_eq.
Qed.

Lemma waiters_quiet s s1 wloc t th th' :
  waiters_ok s wloc -> threads s !! t = Some th -> threads s1 = threads s ->
  pendingOpens s1 = pendingOpens s -> nextWaiter s1 = nextWaiter s -> wdone s1 = wdone s ->
  chans s1 = chans s -> mentions th = None -> mentions th' = None ->
  waiters_ok (set_thread t th' s1) wloc.
Proof.
  intros Hok Ht Hth Hp Hn Hd Hc Hm Hm'.
  assert (Hcl : queuedUnder th' = None /\ abandons th' = None /\ sendsTo th' = None) by (by destruct th').
  destruct Hcl as (Hq & Ha & Hs).
  eapply waiters_thread; eauto; rewrite ?Hd, ?Hc; try done; try congruence.
  - intros w Hw. by destruct th.
  - intros w _ [Hw|[->|[-> _]]]; [by destruct th | done | done].
Qed.

Lemma mentions_resetAll xs k : mentions (resetAll xs k) = None.
Proof. by destruct xs, k as [|[]]. Qed.

Lemma runThread_waiters s wloc t th ch s' :
  waiters_ok s wloc -> threads s !! t = Some th -> runThread s t th ch = Some s' ->
  exists wloc', waiters_ok s' wloc'.
Proof.
  intros Hok Ht Hr. destruct th; destruct ch; try done; cbn [runThread] in Hr.
  - injection Hr as <-. exists wloc. by eapply waiters_quiet.
  - unfold deliverLocked in Hr. destruct (_ && _); [injection Hr as <-; exists wloc; by eapply waiters_quiet |].
    destruct (pending s name) as [|w q] eqn:Hq.
    + destruct (_ <=? _); injection Hr as <-; exists wloc; by eapply waiters_quiet.
    + injection Hr as <-. by eapply waiters_pop.
  - destruct (chans s !! w) eqn:Hw; [done |]. injection Hr as <-. exists wloc. by apply waiters_sent.
  - injection Hr as <-. exists wloc. case_bool_decide as Hd; eapply waiters_thread; eauto; try done.
    + intros v _ [?|[?|[[= ->] ?]]]; [done | done | right; by left].
    + intros v _ [?|[?|[[= ->] ?]]]; done.
  - destruct (tryRecv s w) as [s1 [x|]] eqn:Hrv; injection Hr as <-; exists wloc.
    + eapply waiters_recv; eauto.
    + assert (Hn : chans s !! w = None) by (unfold tryRecv in Hrv; by destruct (chans s !! w)).
      apply tryRecv_None in Hrv as ->. eapply waiters_thread; eauto; try done.
      intros v Hv [?|[[= ->]|[? _]]]; done.
  - destruct (threads s !! t0) eqn:Ht0; [done |]. injection Hr as <-. exists wloc.
    apply waiters_spawn; [by eapply waiters_quiet | | done].
    cbn [set_thread threads]. rewrite lookup_insert_ne by congruence. done.
  - unfold expireBuffered in Hr. destruct (removeFirst _ _); injection Hr as <-; exists wloc;
      by eapply waiters_quiet.
  - case_bool_decide; [injection Hr as <-; exists wloc; by eapply waiters_quiet |].
    unfold acceptLocked in Hr. destruct (buffered s name); injection Hr as <-; [by eapply waiters_wait |].
    exists wloc. by eapply waiters_quiet.
  - destruct (tryRecv s w) as [s1 [x|]] eqn:Hrv; [| done]. injection Hr as <-. exists wloc.
    eapply waiters_recv; eauto.
  - injection Hr as <-. exists wloc. eapply waiters_thread; eauto; try done.
    intros v _ [?|[?|[? ?]]]; [by left | done | done].
  - destruct (ctxDone s); [| done]. injection Hr as <-. exists wloc. eapply waiters_thread; eauto; try done.
    intros v _ [?|[?|[? ?]]]; [by left | done | done].
  - injection Hr as <-. by eapply waiters_remove.
  - injection Hr as <-. exists wloc. pose proof (w_gone _ _ Hok _ _ w Ht eq_refl) as Hg.
    eapply waiters_thread; eauto; cbn [set_chans wdone chans]; try done.
    + apply union_subseteq_r.
    + intros v [= <-]. done.
    + intros v [= <-]. right. split; [done |]. left. apply elem_of_union_l, elem_of_singleton. done.
    + intros v _ [?|[?|[? ?]]]; [by left | done | done].
  - destruct (tryRecv s w) as [s1 [x|]] eqn:Hrv; injection Hr as <-; exists wloc.
    + eapply waiters_recv; eauto.
    + assert (Hn : chans s !! w = None) by (unfold tryRecv in Hrv; by destruct (chans s !! w)).
      apply tryRecv_None in Hrv as ->. eapply waiters_thread; eauto; try done.
      intros v Hv [[= ->]|[?|[? _]]]; done.
  - injection Hr as <-. exists wloc. eapply waiters_quiet; eauto. by destruct (draining s).
  - unfold enterDrain in Hr. destruct (draining s); injection Hr as <-; exists wloc;
      (eapply waiters_quiet; eauto). by destruct k as [|[]].
  - injection Hr as <-. exists wloc. eapply waiters_quiet; eauto. apply mentions_resetAll.
  - destruct (closeDone s); injection Hr as <-; exists wloc; by eapply waiters_quiet.
  - by destruct xs.
  - by destruct xs.
  - by destruct xs.
  - by destruct xs.
  - destruct xs as [|x xs]; [done |]. injection Hr as <-. exists wloc. eapply waiters_quiet; eauto.
    apply mentions_resetAll.
Qed.

(** ** The rendezvous table: policy, cap, drain and timers *)

Record table_ok (s : session) : Prop := {
  t_policy n : buffered s n <> [] -> nameAllowed (allowedStreams s) n = true;
  t_cap n : len (buffered s n) <= bufferedCap (maxBufferedPerName s);
  t_drain : draining s = true ->
    some_thread s (fun th => exists k, th = Reject k) \/
    forall n, buffered s n <> [] -> reservedStreamName n = true;
  t_timer n x : x ∈ buffered s n -> some_thread s (fun th => th = DArm n x \/ th = Timer n x);
  t_shape t k : threads s !! t <> Some (Resetting [] k)
}.

Lemma bufferedCap_pos m : 1 <= bufferedCap m.
Proof. unfold bufferedCap, DefaultMaxBufferedStreams. destruct (Z.leb_spec m 0); lia. Qed.

(** Steps that park nothing. *)
Lemma table_shrink s s1 t th th' :
  table_ok s -> threads s !! t = Some th -> threads s1 = threads s ->
  allowedStreams s1 = allowedStreams s -> maxBufferedPerName s1 = maxBufferedPerName s ->
  draining s1 = draining s \/ (exists k, th' = Reject k) ->
  (forall n, buffered s1 n `sublist_of` buffered s n) ->
  (forall k, th = Reject k -> forall n, buffered s1 n = []) ->
  (forall n x, th = DArm n x \/ th = Timer n x -> th' = Timer n x \/ x ∉ buffered s1 n) ->
  (forall k, th' <> Resetting [] k) ->
  table_ok (set_thread t th' s1).
Proof.
  intros [] Ht Hth Hal Hcap Hdr Hsub Hrej Htim Hsh.
  assert (Hne : forall n, buffered s1 n <> [] -> buffered s n <> []).
  { intros n Hn He. pose proof (Hsub n) as Hs. rewrite He in Hs. by apply sublist_nil_r in Hs. }
  split.
  - cbn. rewrite Hal. auto.
  - intros n. cbn. rewrite Hcap. etransitivity; [| apply (t_cap0 n)].
    pose proof (sublist_length _ _ (Hsub n)). unfold len. change (buffered (set_thread t th' s1) n) with (buffered s1 n). lia.
  - change (draining (set_thread t th' s1)) with (draining s1).
    intros Hd. destruct Hdr as [Hdr|[k ->]].
    2:{ left. exists t, (Reject k). split; [apply lookup_insert_eq | by exists k]. }
    destruct t_drain0 as [Hr|Hr]; [congruence | | right; intros n Hn; apply Hr, Hne, Hn].
    destruct Hr as (t0 & th0 & Ht0 & k & ->). destruct (decide (t0 = t)) as [->|Hn].
    + right. intros n Hn. exfalso. apply Hn. apply (Hrej k). congruence.
    + left. exists t0, (Reject k). split; [| by exists k]. cbn. by rewrite lookup_insert_ne, Hth.
  - intros n x Hx. change (x ∈ buffered s1 n) in Hx.
    assert (Hx0 : x ∈ buffered s n) by (by eapply elem_of_sublist).
    destruct (t_timer0 n x Hx0) as (t0 & th0 & Ht0 & Hor). destruct (decide (t0 = t)) as [->|Hn].
    + assert (th0 = th) as -> by congruence. destruct (Htim n x Hor) as [->|?]; [| done].
      exists t, (Timer n x). split; [apply lookup_insert_eq | by right].
    + exists t0, th0. split; [| done]. cbn. by rewrite lookup_insert_ne, Hth.
  - intros t0 k. cbn. destruct (decide (t0 = t)) as [->|].
    + rewrite lookup_insert_eq. specialize (Hsh k). congruence.
    + rewrite lookup_insert_ne, Hth by done. apply t_shape0.
Qed.

(** Steps that leave the table alone. *)
Lemma table_quiet s s1 t th th' :
  table_ok s -> threads s !! t = Some th -> threads s1 = threads s ->
  allowedStreams s1 = allowedStreams s -> maxBufferedPerName s1 = maxBufferedPerName s ->
  draining s1 = draining s \/ (exists k, th' = Reject k) ->
  bufferedStreams s1 = bufferedStreams s ->
  (forall k, th <> Reject k) -> (forall n x, th <> DArm n x) -> (forall n x, th <> Timer n x) ->
  (forall k, th' <> Resetting [] k) ->
  table_ok (set_thread t th' s1).
Proof.
  intros Hok Ht Hth Hal Hcap Hdr Hb H1 H2 H3 H4. eapply table_shrink; eauto.
  - intros n. unfold buffered. by rewrite Hb.
  - intros k ->. by destruct (H1 k).
  - intros n x [->| ->]; [by destruct (H2 n x) | by destruct (H3 n x)].
Qed.

Lemma table_park s t name x :
  table_ok s -> threads s !! t = Some (DStart name x) ->
  (draining s || match allowedStreams s with
                 | None => false
                 | Some _ => negb (nameAllowed (allowedStreams s) name)
                 end) && negb (reservedStreamName name) = false ->
  len (buffered s name) < bufferedCap (maxBufferedPerName s) ->
  table_ok (set_thread t (DArm name x) (with_buffered s name (buffered s name ++ [x]))).
Proof.
  intros [] Ht Hg Hlen. set (s1 := with_buffered s name _).
  assert (Hb : forall n, buffered s1 n = if decide (n = name) then buffered s name ++ [x] else buffered s n).
  { intros n. apply buffered_with_buffered. }
  assert (Hst : forall P, some_thread s P -> ~ P (DStart name x) -> some_thread (set_thread t (DArm name x) s1) P).
  { intros P (t0 & th0 & Ht0 & HP) Hno. exists t0, th0. split; [| done]. cbn.
    rewrite lookup_insert_ne; [done |]. intros <-. congruence. }
  split.
  - intros n. change (buffered (set_thread t (DArm name x) s1) n) with (buffered s1 n).
    change (allowedStreams (set_thread t (DArm name x) s1)) with (allowedStreams s).
    rewrite Hb. destruct (decide (n = name)) as [->|]; [intros _ | auto].
    unfold nameAllowed in *. destruct (reservedStreamName name); [done |].
    destruct (allowedStreams s); [| done]. rewrite andb_true_r in Hg. bool_hyps. by apply bool_decide_eq_true.
  - intros n. change (buffered (set_thread t (DArm name x) s1) n) with (buffered s1 n). rewrite Hb.
    cbn. destruct (decide (n = name)) as [->|]; [| auto]. rewrite len_app. change (len [x]) with 1. lia.
  - change (draining (set_thread t (DArm name x) s1)) with (draining s). intros Hd.
    destruct (t_drain0 Hd) as [Hr|Hr]; [left; apply Hst; [done | by intros [k ?]] | right].
    intros n. change (buffered (set_thread t (DArm name x) s1) n) with (buffered s1 n). rewrite Hb.
    destruct (decide (n = name)) as [->|]; [| auto]. intros _. rewrite Hd in Hg. simpl in Hg. by bool_hyps.
  - intros n y. change (buffered (set_thread t (DArm name x) s1) n) with (buffered s1 n). rewrite Hb.
    destruct (decide (n = name)) as [->|]; [| intros Hy; apply Hst; [auto | by intros [?|?]]].
    rewrite elem_of_app, list_elem_of_singleton. intros [Hy| ->]; [apply Hst; [auto | by intros [?|?]] |].
    exists t, (DArm name x). split; [apply lookup_insert_eq | by left].
  - intros t0 k. cbn. destruct (decide (t0 = t)) as [->|].
    + by rewrite lookup_insert_eq.
    + rewrite lookup_insert_ne by done. apply t_shape0.
Qed.

Lemma resetAll_shape xs k k' : resetAll xs k <> Resetting [] k'.
Proof. by destruct xs, k as [|[]]. Qed.

Lemma table_spawn s t th :
  table_ok s -> threads s !! t = None -> (forall k, th <> Resetting [] k) -> table_ok (set_thread t th s).
Proof.
  intros [] Ht Hs.
  assert (Hst : forall P, some_thread s P -> some_thread (set_thread t th s) P).
  { intros P (t0 & th0 & Ht0 & HP). exists t0, th0. split; [| done]. cbn.
    rewrite lookup_insert_ne; [done | congruence]. }
  split; auto.
  - intros Hd. destruct (t_drain0 Hd) as [?|?]; [left; by apply Hst | by right].
  - intros t0 k. cbn. destruct (decide (t0 = t)) as [->|].
    + rewrite lookup_insert_eq. specialize (Hs k). congruence.
    + rewrite lookup_insert_ne by done. apply t_shape0.
Qed.

Lemma table_arm s t t0 name x :
  table_ok s -> threads s !! t = Some (DArm name x) -> threads s !! t0 = None ->
  table_ok (set_thread t0 (Timer name x) (set_thread t Loop s)).
Proof.
  intros Hok Ht Ht0.
  assert (Hsw : set_thread t0 (Timer name x) (set_thread t Loop s) =
                set_thread t Loop (set_thread t0 (Timer name x) s)).
  { unfold set_thread. cbn. f_equal. apply insert_insert_ne. congruence. }
  rewrite Hsw. pose proof (table_spawn s t0 (Timer name x) Hok Ht0 ltac:(done)) as Hok1.
  assert (Ht1 : threads (set_thread t0 (Timer name x) s) !! t = Some (DArm name x)).
  { cbn. rewrite lookup_insert_ne; congruence. }
  destruct Hok1 as [Hp1 Hc1 Hd1 Htm1 Hs1]. destruct Hok as [Hp Hc Hd Htm Hs].
  split; auto.
  + intros Hdr. destruct (Hd1 Hdr) as [Hrj|?]; [left | by right].
    eapply some_thread_upd; eauto. by intros [k ?].
  + intros n y Hy. destruct (decide ((n, y) = (name, x))) as [[= -> ->]|Hne].
    * exists t0, (Timer name x). split; [| by right]. cbn. rewrite lookup_insert_ne by congruence.
      apply lookup_insert_eq.
    * eapply some_thread_upd; eauto. intros [[= -> ->]|?]; done.
  + intros t1 k. cbn. destruct (decide (t1 = t)) as [->|]; [by rewrite lookup_insert_eq |].
    rewrite lookup_insert_ne by done. apply Hs1.
Qed.

Lemma runThread_table seen s loc t th ch s' :
  placed seen s loc -> table_ok s -> threads s !! t = Some th -> runThread s t th ch = Some s' ->
  table_ok s'.
Proof.
  intros (Hnd & _ & _) Hok Ht Hr. destruct th; destruct ch; try done; cbn [runThread] in Hr.
  - injection Hr as <-. eapply table_quiet; eauto; done.
  - unfold deliverLocked in Hr.
    destruct (_ && _) eqn:Hg; [injection Hr as <-; eapply table_quiet; eauto; done |].
    destruct (pending s name) as [|w q] eqn:Hq.
    + destruct (Z.leb_spec (bufferedCap (maxBufferedPerName s)) (len (buffered s name)));
        injection Hr as <-; [eapply table_quiet; eauto; done | by apply table_park].
    + injection Hr as <-. eapply table_quiet; eauto; done.
  - destruct (chans s !! w); [done |]. injection Hr as <-. eapply table_quiet; eauto; done.
  - injection Hr as <-. eapply table_quiet; eauto; by case_bool_decide.
  - destruct (tryRecv s w) as [s1 [x|]] eqn:Hrv; injection Hr as <-.
    + unfold tryRecv in Hrv. destruct (chans s !! w); [| done]. injection Hrv as <- <-.
      eapply table_quiet; eauto; done.
    + apply tryRecv_None in Hrv as ->. eapply table_quiet; eauto; done.
  - destruct (threads s !! t0) eqn:Ht0; [done |]. injection Hr as <-.
    by apply table_arm.
  - unfold expireBuffered in Hr.
    destruct (removeFirst x (buffered s name)) as [q|] eqn:Hq; injection Hr as <-;
      (eapply table_shrink; eauto; try done).
    + intros n. rewrite buffered_with_buffered. destruct (decide (n = name)) as [->|]; [| done].
      by eapply removeFirst_sublist.
    + intros n y [?|[= -> ->]]; [done | right]. rewrite buffered_with_buffered, decide_True by done.
      apply removeFirst_Some in Hq. pose proof (Hnd (Parked n)) as Hn. cbn [contents] in Hn.
      rewrite Hq in Hn. by apply NoDup_cons in Hn as [? _].
    + intros n y [?|[= -> ->]]; [done | right]. by apply removeFirst_None.
  - case_bool_decide; [injection Hr as <-; eapply table_quiet; eauto; done |].
    unfold acceptLocked in Hr. destruct (buffered s name) as [|x buf] eqn:Hb; injection Hr as <-.
    + eapply table_quiet; eauto; done.
    + eapply table_shrink; eauto; try done; [| by intros n y [?|?]].
      intros n. rewrite buffered_with_buffered. destruct (decide (n = name)) as [->|]; [| done].
      rewrite Hb. by apply sublist_cons.
  - destruct (tryRecv s w) as [s1 [x|]] eqn:Hrv; [| done]. injection Hr as <-.
    unfold tryRecv in Hrv. destruct (chans s !! w); [| done]. injection Hrv as <- <-.
    eapply table_quiet; eauto; done.
  - injection Hr as <-. eapply table_quiet; eauto; done.
  - destruct (ctxDone s); [| done]. injection Hr as <-. eapply table_quiet; eauto; done.
  - injection Hr as <-. unfold removePending. destruct (removeFirst w _); eapply table_quiet; eauto; done.
  - injection Hr as <-. eapply table_quiet; eauto; done.
  - destruct (tryRecv s w) as [s1 [x|]] eqn:Hrv; injection Hr as <-.
    + unfold tryRecv in Hrv. destruct (chans s !! w); [| done]. injection Hrv as <- <-.
      eapply table_quiet; eauto; done.
    + apply tryRecv_None in Hrv as ->. eapply table_quiet; eauto; done.
  - injection Hr as <-. eapply table_quiet; eauto; [done.. | by destruct (draining s)].
  - unfold enterDrain in Hr. destruct (draining s) eqn:Hdr; injection Hr as <-;
      (eapply table_quiet; eauto; try done). by destruct k as [|[]].
  - injection Hr as <-. eapply table_shrink; eauto; try done.
    + intros n. apply sublist_nil_l.
    + by intros n x [?|?].
    + intros k'. apply resetAll_shape.
  - destruct (closeDone s); injection Hr as <-; eapply table_quiet; eauto; done.
  - by destruct xs.
  - by destruct xs.
  - by destruct xs.
  - by destruct xs.
  - destruct xs as [|x xs]; [done |]. injection Hr as <-. eapply table_quiet; eauto; try done.
    intros k'. apply resetAll_shape.
Qed.

(** ** The invariant of reachable sessions *)

Definition sess_ok (seen : list stream) (s : session) : Prop :=
  (exists loc, placed seen s loc) /\ (exists wloc, waiters_ok s wloc) /\ table_ok s.

Lemma spawn_ok seen s t th :
  sess_ok seen s -> threads s !! t = None -> holds th = [] -> mentions th = None ->
  (forall k, th <> Resetting [] k) -> sess_ok seen (set_thread t th s).
Proof.
  intros ([loc Hp] & [wloc Hw] & Ht) Hn Hh Hm Hs. split_and!.
  - exists loc. eapply placed_same; [done |]. intros l. rewrite contents_thread.
    destruct (decide (l = Held t)) as [->|]; [| done]. simpl. by rewrite Hn.
  - exists wloc. by apply waiters_spawn.
  - by apply table_spawn.
Qed.

Lemma consume_ok seen s t x th :
  sess_ok seen s -> threads s !! t = Some Loop -> x ∉ seen -> th = Loop \/ th = EDrain KLoop ->
  sess_ok (x :: seen) (set_thread t th (set_gone s (resets s) (x :: internal s))).
Proof.
  intros ([loc Hp] & [wloc Hw] & Htab) Ht Hx Hth.
  assert (Hh : holds th = [] /\ mentions th = None /\ forall k, th <> Resetting [] k)
    by (destruct Hth as [->| ->]; done).
  destruct Hh as (Hh & Hm & Hs). split_and!.
  - exists (relocate loc x Internal). eapply placed_arrive; eauto.
    + intros l Hl. rewrite contents_thread, contents_gone.
      destruct (decide (l = Held t)) as [->|]; [simpl; by rewrite Ht | by destruct l].
  - exists wloc. by eapply waiters_quiet.
  - by eapply table_quiet; eauto.
Qed.

Lemma arrive_ok seen s t x name :
  sess_ok seen s -> threads s !! t = Some Loop -> x ∉ seen ->
  sess_ok (x :: seen) (set_thread t (DStart name x) s).
Proof.
  intros ([loc Hp] & [wloc Hw] & Htab) Ht Hx. split_and!.
  - exists (relocate loc x (Held t)). eapply placed_arrive; eauto.
    + intros l Hl. by rewrite contents_thread, decide_False.
    + rewrite contents_thread, decide_True by done. simpl. by rewrite Ht.
  - exists wloc. by eapply waiters_quiet.
  - eapply table_quiet; eauto; done.
Qed.

Lemma step_ok seen s e seen' s' :
  sess_ok seen s -> step seen s e = Some (seen', s') -> sess_ok seen' s'.
Proof.
  intros Hok Hs. destruct e as [t|t name|t|t|t x header|t ch]; cbn [step] in Hs;
    try (destruct (threads s !! t) eqn:Ht; [done |]; injection Hs as <- <-; by apply spawn_ok).
  - destruct (threads s !! t) as [[]|] eqn:Ht; try done. case_bool_decide as Hx; [done |].
    unfold acceptDispatch in Hs. destruct header as [hdr|e]; [| injection Hs as <- <-; apply consume_ok; auto].
    destruct (DecodeStreamHeader hdr) as [name|]; [| injection Hs as <- <-; apply consume_ok; auto].
    repeat match goal with
    | H : context [if ?b then _ else _] |- _ => destruct b
    end; injection Hs as <- <-; try (apply consume_ok; auto). by apply arrive_ok.
  - destruct (threads s !! t) as [th|] eqn:Ht; [| done].
    destruct (runThread s t th ch) as [s1|] eqn:Hr; [| done]. injection Hs as <- <-.
    destruct Hok as ([loc Hp] & [wloc Hw] & Htab). split_and!.
    + by eapply runThread_placed.
    + by eapply runThread_waiters.
    + by eapply runThread_table.
Qed.

Lemma reachable_ok seen s : reachable seen s -> sess_ok seen s.
Proof.
  intros (allowed & cap & discover & lan & es & Hrun).
  assert (Hgen : forall es seen0 s0 seen1 s1, sess_ok seen0 s0 -> run seen0 s0 es = Some (seen1, s1) ->
            sess_ok seen1 s1).
  { clear. induction es as [|e es IH]; intros seen0 s0 seen1 s1 Hok; simpl; [by intros [= <- <-] |].
    destruct (step seen0 s0 e) as [[seen2 s2]|] eqn:Hs; [| done]. eauto using step_ok. }
  eapply Hgen; [| done]. split_and!.
  - exists (fun _ => None). split_and!.
    + intros []; simpl; constructor.
    + intros l x. split; [| done]. destruct l; simpl; by intros ?%elem_of_nil.
    + intros x. split; [by intros ?%elem_of_nil | done].
  - exists (fun _ => None). split; try done.
    + intros n w. split; [by intros ?%elem_of_nil | done].
    + constructor.
    + intros w _. split_and!; try done. by intros (t & th & ? & _).
  - split; try done.
    + intros n. pose proof (bufferedCap_pos cap). change (0 <= bufferedCap cap). lia.
    + by intros n x ?%elem_of_nil.
Qed.

(** ** Properties *)

(** C10. No stream is handed out twice: at every moment, under every
    interleaving of the accept loops, [AcceptStream] calls and their
    cancellation, timers, drain and close, a stream the peer opened is in
    exactly one place; in particular at most one [AcceptStream] call returns
    it, and a returned stream is neither reset nor still parked. *)
Theorem stream_in_one_place seen s :
  reachable seen s ->
  (forall x, x ∈ seen <-> exists l, x ∈ contents s l) /\
  (forall x l1 l2, x ∈ contents s l1 -> x ∈ contents s l2 -> l1 = l2) /\
  (forall l, NoDup (contents s l)).
Proof.
  intros ([loc (Hn & Hl & Hs)] & _ & _)%reachable_ok. split_and!; [| | done].
  - intros x. rewrite Hs. split.
    + destruct (loc x) as [l|] eqn:Hx; [| done]. intros _. exists l. by apply Hl.
    + intros [l Hx]. apply Hl in Hx. congruence.
  - intros x l1 l2 H1 H2. apply Hl in H1, H2. congruence.
Qed.

(** A goroutine that is between streams, or has returned. *)
Definition idle (th : thread) : Prop := th = Loop \/ exists o, th = Finished o.

(** C17. No stream leaks: whenever all goroutines are idle (the accept loops
    waiting, every call returned and every timer fired), each stream the
    peer opened has been returned by an [AcceptStream] call, reset, or
    consumed by the library; none is left parked or in the channel of an
    abandoned waiter. *)
Theorem no_stream_leaks seen s :
  reachable seen s -> (forall t th, threads s !! t = Some th -> idle th) ->
  forall x, x ∈ seen ->
    (exists t, threads s !! t = Some (Finished (Got x))) \/ x ∈ resets s \/ x ∈ internal s.
Proof.
  intros ([loc (Hn & Hl & Hs)] & [wloc Hw] & Ht)%reachable_ok Hidle x Hx.
  apply Hs in Hx. destruct (loc x) as [l|] eqn:Hloc; [| done]. apply Hl in Hloc.
  destruct l as [n|w|t| |]; simpl in Hloc; [| | | by right; left | by right; right].
  - destruct (t_timer _ Ht _ _ Hloc) as (t & th & Hth & Hor). apply Hidle in Hth as [->|[o ->]];
      by destruct Hor.
  - destruct (chans s !! w) as [y|] eqn:Hc; simpl in Hloc; [| by apply elem_of_nil in Hloc].
    destruct (w_chan _ _ Hw _ _ Hc) as (_ & t & th & Hth & Hcol).
    apply Hidle in Hth as [->|[o ->]]; by destruct Hcol as [?|[?|[? ?]]].
  - left. exists t. destruct (threads s !! t) as [th|] eqn:Hth; [| by apply elem_of_nil in Hloc].
    destruct (Hidle _ _ Hth) as [->|[[] ->]]; simpl in Hloc; try by apply elem_of_nil in Hloc.
    apply list_elem_of_singleton in Hloc as ->. done.
Qed.

(** C30. The rendezvous never deadlocks: every goroutine of a reachable
    session can take its next step, except an accept loop (which waits for
    the peer), a returned call, and an [AcceptStream] in its select; and that
    one can proceed once its stream is delivered or the session is closed.
    In particular the delivering loop never blocks on a waiter's channel. *)
Theorem rendezvous_never_deadlocks seen s t th :
  reachable seen s -> threads s !! t = Some th -> ~ idle th ->
  match th with
  | AWait _ w => chans s !! w <> None \/ ctxDone s = true
  | _ => True
  end -> exists ch s', runThread s t th ch = Some s'.
Proof.
  intros ([loc Hp] & [wloc Hw] & Htab)%reachable_ok Ht Hid Hwait.
  destruct th; cbn [runThread]; try (exists NoChoice; cbn [runThread]; repeat case_match; by eexists).
  - exfalso. apply Hid. by left.
  - exists NoChoice. cbn [runThread]. destruct (w_send _ _ Hw _ _ _ Ht eq_refl) as (_ & -> & _). by eexists.
  - exists (Spawn (fresh (dom (threads s)))). cbn [runThread].
    rewrite (proj1 (not_elem_of_dom (threads s) _)) by apply is_fresh. by eexists.
  - destruct Hwait as [Hc|Hc].
    + exists PickRecv. cbn [runThread]. unfold tryRecv. destruct (chans s !! w); [by eexists | done].
    + exists PickSession. cbn [runThread]. rewrite Hc. by eexists.
  - destruct xs as [|x xs]; [by destruct (t_shape _ Htab t k) |]. exists NoChoice. by eexists.
  - exfalso. apply Hid. right. by eexists.
Qed.

(** C34. What may be parked: only names the policy allows (or reserved
    ones), at most the per-name cap of them, and once a drain has rejected
    the parked streams, only reserved control names ever again. *)
Theorem parked_streams_bounded seen s n :
  reachable seen s -> buffered s n <> [] ->
  nameAllowed (allowedStreams s) n = true /\
  len (buffered s n) <= bufferedCap (maxBufferedPerName s) /\
  (draining s = true -> (forall t k, threads s !! t <> Some (Reject k)) -> reservedStreamName n = true).
Proof.
  intros (_ & _ & Htab)%reachable_ok Hne. split_and!; [by apply (t_policy _ Htab) | apply (t_cap _ Htab) |].
  intros Hd Hno. destruct (t_drain _ Htab Hd) as [(t & th & Ht & k & ->)|Hr]; [| by apply Hr].
  by destruct (Hno t k).
Qed.

(** ** Witnesses *)

(** An [AcceptStream] is cancelled in the window between the loop popping
    its waiter and sending the stream: the loop notices and resets it. *)
Definition race : list event :=
  [StartLoop 0%nat; CallAccept 1%nat "chat"; Run 1%nat NoChoice;
   Incoming 0%nat 10%nat (Ok (EncodeStreamHeader "chat")); Run 0%nat NoChoice;
   Run 1%nat PickCtx; Run 1%nat NoChoice; Run 1%nat NoChoice; Run 1%nat NoChoice;
   Run 0%nat NoChoice; Run 0%nat NoChoice; Run 0%nat NoChoice; Run 0%nat NoChoice].

Definition after (es : list event) : session :=
  match run [] (newSession None 1 false false) es with Some (_, s) => s | None => newSession None 1 false false end.

Lemma session_after es seen :
  run [] (newSession None 1 false false) es = Some (seen, after es) -> reachable seen (after es).
Proof. intros H. by exists None, 1, false, false, es. Qed.

Lemma stream_in_one_place_witness :
  NoDup (contents (after race) WasReset) /\ contents (after race) WasReset = [10%nat].
Proof.
  split; [| vm_compute; reflexivity].
  apply (stream_in_one_place [10%nat] (after race)). apply session_after. vm_compute. reflexivity.
Defined.

Lemma race_threads :
  threads (after race) = <[0%nat := Loop]> {[1%nat := Finished (Failed ErrCtx)]}.
Proof. vm_compute. reflexivity. Qed.

Lemma no_stream_leaks_witness : 10%nat ∈ resets (after race).
Proof.
  destruct (no_stream_leaks [10%nat] (after race)) with (x := 10%nat) as [[t Ht]|[H|H]].
  - apply session_after. vm_compute. reflexivity.
  - intros t th. rewrite race_threads, lookup_insert_Some, lookup_singleton_Some.
    intros [[_ <-]|[_ [_ <-]]]; [by left | right; by eexists].
  - left.
  - exfalso. rewrite race_threads, lookup_insert_Some, lookup_singleton_Some in Ht.
    by destruct Ht as [[_ ?]|[_ [_ ?]]].
  - exact H.
  - exfalso. vm_compute in H. by inversion H.
Defined.

Lemma rendezvous_never_deadlocks_witness :
  exists ch s', runThread (after (firstn 9 race)) 0%nat (DSend 10 0) ch = Some s'.
Proof.
  apply (rendezvous_never_deadlocks [10%nat] (after (firstn 9 race)) 0%nat (DSend 10 0));
    [apply session_after; vm_compute; reflexivity | vm_compute; reflexivity | | done].
  by intros [?|[o ?]].
Defined.

(** A parked stream, under a policy that allows its name. *)
Definition parked : list event :=
  [StartLoop 0%nat; Incoming 0%nat 10%nat (Ok (EncodeStreamHeader "chat")); Run 0%nat NoChoice].

Lemma parked_streams_bounded_witness : len (buffered (after parked) "chat") <= 1.
Proof.
  apply (parked_streams_bounded [10%nat] (after parked) "chat");
    [apply session_after; vm_compute; reflexivity | vm_compute; discriminate].
Defined.
