(* ===== verification/Stream.v ===== *)
(** * Stream: named message streams of a session (api.go)

    [OpenStream], the per-name AEAD channel, and [Stream.Send] / [Recv].
    [Send] encrypts before it takes the stream's write lock and [Recv] reads
    in a goroutine of its own, so both are modelled at that granularity: a
    call is a sequence of steps that may interleave with another call's.
    The AEAD channels are those of [Cwire], derived by name from the session's
    key material. *)

From Stdlib Require Import ZArith Lia Strings.Byte Strings.String.
From stdpp Require Import base gmap strings list fin_maps.
From S2P Require Import Prelude Binary Wire Channel Cwire Session.

Open Scope Z_scope.

Section Stream.
Context {P : Primitives} {So : Sodium P}.

(** ** Channels by name *)

(** [Session.streamChannel]: the table keeps the channels already derived;
    [None] is a nil channel. *)
Definition streamChannel (material : option SessionMaterial) (streamChans : gmap string pigeon_channel) (name : string)
    : gmap string pigeon_channel * option pigeon_channel :=
  match material with
  | None => (streamChans, None)
  | Some m =>
      match streamChans !! name with
      | Some ch => (streamChans, Some ch)
      | None =>
          match StreamChannel m name with
          | Err _ => (streamChans, None)
          | Ok ch => (<[name := ch]> streamChans, Some ch)
          end
      end
  end.

(** ** Opening *)

(** [Session.OpenStream], for a carrier whose [OpenStream] yields [opened]
    ([None]: no carrier).  The result is the byte stream with the name
    header written. *)
Definition OpenStream {W} `{Writer W} (isDraining : bool) (opened : option (result W)) (name : string)
    : result W :=
  if bool_decide (name = EmptyString) then Err (ENew "OpenStream: name must be non-empty") else
  if isDraining && negb (reservedStreamName name) then Err ErrSessionDraining else
  match opened with
  | None => Err ErrClosedPipe
  | Some r =>
      let! rwc := rwrap "open quic stream: %w" [] r in
      match writeMessage rwc (EncodeStreamHeader name) with
      | (_, Some err) => Err (EWrap "write stream header: %w" [] err)
      | (rwc, None) => Ok rwc
      end
  end.

(** ** Sending *)

(** The first step of [Send], outside the lock: the payload to write. *)
Definition sendEncrypt (channel : option pigeon_channel) (msg : bytes) : option pigeon_channel * result bytes :=
  match channel with
  | None => (None, Ok msg)
  | Some ch => let '(ch, r) := cwEncrypt ch msg in (Some ch, rwrap "stream: encrypt: %w" [] r)
  end.

(** The second step, under the lock. *)
Definition sendWrite {W} `{Writer W} (rwc : W) (payload : bytes) : W * option error :=
  writeMessage rwc payload.

(** A call of [Send] on its own. *)
Definition Send {W} `{Writer W} (channel : option pigeon_channel) (rwc : W) (msg : bytes)
    : option pigeon_channel * W * option error :=
  match sendEncrypt channel msg with
  | (channel, Err err) => (channel, rwc, Some err)
  | (channel, Ok payload) => let '(rwc, err) := sendWrite rwc payload in (channel, rwc, err)
  end.

Fixpoint sendAll {W} `{Writer W} (channel : option pigeon_channel) (rwc : W) (msgs : list bytes)
    : option pigeon_channel * W * option error :=
  match msgs with
  | [] => (channel, rwc, None)
  | m :: msgs =>
      match Send channel rwc m with
      | (channel, rwc, Some err) => (channel, rwc, Some err)
      | (channel, rwc, None) => sendAll channel rwc msgs
      end
  end.

(** Concurrent calls of [Send] on one stream: each call is before its
    encryption, before its write, or done. *)
Inductive sendCall :=
  | SendMsg (msg : bytes)
  | SendPayload (payload : bytes)
  | SendDone (err : option error).

Record sendState := {
  sChannel : option pigeon_channel;
  sRwc : bytes;
  sCalls : list sendCall
}.

(** One step of call [i]. *)
Definition sendStep (st : sendState) (i : nat) : option sendState :=
  match sCalls st !! i with
  | Some (SendMsg msg) =>
      let '(channel, r) := sendEncrypt (sChannel st) msg in
      let call := match r with Ok payload => SendPayload payload | Err err => SendDone (Some err) end in
      Some {| sChannel := channel; sRwc := sRwc st; sCalls := <[i := call]> (sCalls st) |}
  | Some (SendPayload payload) =>
      let '(rwc, err) := sendWrite (sRwc st) payload in
      Some {| sChannel := sChannel st; sRwc := rwc; sCalls := <[i := SendDone err]> (sCalls st) |}
  | _ => None
  end.

Fixpoint sendRun (st : sendState) (is_ : list nat) : option sendState :=
  match is_ with
  | [] => Some st
  | i :: is_ => match sendStep st i with Some st => sendRun st is_ | None => None end
  end.

(** ** Receiving *)

(** The goroutine of [Recv]: read one message and decrypt it. *)
Definition recvReader {R} `{Reader R} (channel : option pigeon_channel) (rwc : R)
    : option pigeon_channel * R * result bytes :=
  match readMessage rwc with
  | (rwc, Err err) => (channel, rwc, Err err)
  | (rwc, Ok raw) =>
      match channel with
      | None => (None, rwc, Ok raw)
      | Some ch => let '(ch, r) := cwDecrypt ch raw in (Some ch, rwc, r)
      end
  end.

(** What happens next on the receiving side: a call whose select takes the
    goroutine's result, a call cancelled while its goroutine still waits, and
    the goroutine of a cancelled call running later (its result is dropped:
    nobody receives from its channel). *)
Inductive recvEvent :=
  | RecvOk
  | RecvCancelled
  | LateReader.

Record recvState (R : Type) := {
  rChannel : option pigeon_channel;
  rRwc : R;
  lateReaders : nat
}.
Arguments rChannel {R}.
Arguments rRwc {R}.
Arguments lateReaders {R}.

(** The state after an event and what the call returned, if it was one. *)
Definition recvStep {R} `{Reader R} (st : recvState R) (e : recvEvent)
    : option (recvState R * option (result bytes)) :=
  match e with
  | RecvOk =>
      let '(ch, rwc, r) := recvReader (rChannel st) (rRwc st) in
      Some ({| rChannel := ch; rRwc := rwc; lateReaders := lateReaders st |}, Some r)
  | RecvCancelled =>
      Some ({| rChannel := rChannel st; rRwc := rRwc st; lateReaders := S (lateReaders st) |},
            Some (Err ErrCtx))
  | LateReader =>
      match lateReaders st with
      | O => None
      | S n =>
          let '(ch, rwc, r) := recvReader (rChannel st) (rRwc st) in
          Some ({| rChannel := ch; rRwc := rwc; lateReaders := n |}, None)
      end
  end.

(** The results of the calls of a run, in order. *)
Fixpoint recvRun {R} `{Reader R} (st : recvState R) (es : list recvEvent)
    : option (recvState R * list (result bytes)) :=
  match es with
  | [] => Some (st, [])
  | e :: es =>
      match recvStep st e with
      | None => None
      | Some (st, o) =>
          match recvRun st es with
          | None => None
          | Some (st, rs) => Some (st, option_list o ++ rs)
          end
      end
  end.

(** ** Lemmas *)

Context {PL : PrimitivesLaws P} {SL : SodiumLaws So}.

Definition fits (m : bytes) : Prop := len m + 24 <= MaxMessageSize.

(** [r] is ready for what [s] sends next, under the key of [g]. *)
Definition ready (g : AEAD) (s r : pigeon_channel) : Prop :=
  NewGCM (send_key s) = Ok g /\ NewGCM (recv_key r) = Ok g /\ recv_seq r = send_seq s /\
  0 <= send_seq s < 2 ^ 64 /\ cmode r = ModeStrict.

Lemma send_pipe ch g w m :
  NewGCM (send_key ch) = Ok g -> fits m ->
  Send (W := bytes) (Some ch) w m =
    (Some (with_send_seq ch (u64 (send_seq ch + 1))), w ++ frame (packet g (send_seq ch) m), None).
Proof.
  intros Hg Hm. unfold fits, MaxMessageSize in Hm. unfold Send, sendEncrypt, sendWrite.
  rewrite (cwEncrypt_packet ch g) by (done || lia). cbn [rwrap].
  rewrite writeMessage_pipe; [done |]. by rewrite len_packet.
Qed.

(** The receiving side of a frame the peer's channel sealed. *)
Lemma reader_pipe ch g seq m rest :
  NewGCM (recv_key ch) = Ok g -> cmode ch = ModeStrict -> seq = recv_seq ch -> 0 <= seq < 2 ^ 64 -> fits m ->
  recvReader (R := bytes) (Some ch) (frame (packet g seq m) ++ rest) =
    (Some (with_recv_seq ch (u64 (seq + 1))), rest, Ok m).
Proof.
  intros Hg Hm Hs Hr Hf. unfold recvReader. rewrite readMessage_frame by (rewrite len_packet; exact Hf).
  unfold fits, MaxMessageSize in Hf. rewrite (cwDecrypt_packet ch g) by (try done; try lia; by rewrite Hm). done.
Qed.

(** A strict channel refuses a frame with another number and stays as it was. *)
Lemma reader_refuses ch g seq m rest :
  cmode ch = ModeStrict -> seq <> recv_seq ch -> 0 <= seq < 2 ^ 64 -> fits m ->
  recvReader (R := bytes) (Some ch) (frame (packet g seq m) ++ rest) =
    (Some ch, rest, Err (ENew "cwire: pigeon_channel_decrypt failed")).
Proof.
  intros Hm Hs Hr Hf. unfold recvReader. rewrite readMessage_frame by (rewrite len_packet; exact Hf).
  unfold cwDecrypt, pigeon_channel_decrypt. rewrite len_packet. pose proof (len_nonneg m).
  rewrite (proj2 (Z.ltb_ge _ _)) by lia.
  by rewrite take_packet, le_get_put, Z.mod_small, Hm, (proj2 (Z.eqb_neq _ _)) by (simpl; lia).
Qed.

Lemma sendStep_msg st i m ch g :
  sCalls st !! i = Some (SendMsg m) -> sChannel st = Some ch -> NewGCM (send_key ch) = Ok g -> fits m ->
  sendStep st i = Some {| sChannel := Some (with_send_seq ch (u64 (send_seq ch + 1))); sRwc := sRwc st;
    sCalls := <[i := SendPayload (packet g (send_seq ch) m)]> (sCalls st) |}.
Proof.
  intros Hi Hc Hg Hm. unfold fits, MaxMessageSize in Hm. unfold sendStep, sendEncrypt. rewrite Hi, Hc.
  by rewrite (cwEncrypt_packet ch g) by (done || lia).
Qed.

Lemma sendStep_payload st i p :
  sCalls st !! i = Some (SendPayload p) -> len p <= MaxMessageSize ->
  sendStep st i = Some {| sChannel := sChannel st; sRwc := sRwc st ++ frame p;
    sCalls := <[i := SendDone None]> (sCalls st) |}.
Proof. intros Hi Hp. unfold sendStep, sendWrite. by rewrite Hi, writeMessage_pipe. Qed.

Lemma ready_next g s r : ready g s r ->
  ready g (with_send_seq s (u64 (send_seq s + 1))) (with_recv_seq r (u64 (send_seq s + 1))).
Proof. intros (H1 & H2 & H3 & H4 & H5). split_and!; try done; apply u64_range. Qed.

Lemma send_recv_all msgs : forall g s r w,
  ready g s r -> Forall fits msgs ->
  exists s' w', sendAll (W := bytes) (Some s) w msgs = (Some s', w ++ w', None) /\
    forall n rest, exists st', recvRun {| rChannel := Some r; rRwc := w' ++ rest; lateReaders := n |}
                       (repeat RecvOk (length msgs)) = Some (st', map Ok msgs).
Proof.
  induction msgs as [|m msgs IH]; intros g s r w Hr Hf.
  - exists s, []. rewrite app_nil_r. split; [done |]. intros n rest. by eexists.
  - apply Forall_cons in Hf as [Hf1 Hf]. pose proof Hr as (Hg & Hg' & Hq & Hs & Hm).
    cbn [sendAll]. rewrite (send_pipe s g) by done.
    destruct (IH g _ _ (w ++ frame (packet g (send_seq s) m)) (ready_next g s r Hr) Hf) as (s' & w' & -> & Hrec).
    exists s', (frame (packet g (send_seq s) m) ++ w'). split; [by rewrite app_assoc |].
    intros n rest. cbn [length repeat recvRun recvStep rChannel rRwc].
    rewrite <-app_assoc, (reader_pipe r g) by done. cbn [lateReaders].
    destruct (Hrec n rest) as [st' ->]. by eexists.
Qed.

(** ** Properties *)

(** A stream delivers in order: messages sent one call after the other
    (each with its seal fitting a frame) are received by the peer, whose
    strict channel is at the sender's counter, exactly and in order, whatever
    follows on the stream. *)
Theorem stream_delivers_in_order (g : AEAD) (s r : pigeon_channel) (w : bytes) (msgs : list bytes) :
  ready g s r -> Forall fits msgs ->
  exists s' w', sendAll (W := bytes) (Some s) w msgs = (Some s', w ++ w', None) /\
    forall n rest, exists st', recvRun {| rChannel := Some r; rRwc := w' ++ rest; lateReaders := n |}
                       (repeat RecvOk (length msgs)) = Some (st', map Ok msgs).
Proof. apply send_recv_all. Qed.

(** Overlapping calls of [Send] break a stream: [Send] draws its
    sequence number before it takes the write lock, so when two calls
    encrypt in one order and write in the other, the peer's strict channel
    refuses the first message and the message sent first is received alone. *)
Theorem overlapping_sends_lose_message (g : AEAD) (s r : pigeon_channel) (m1 m2 : bytes) :
  ready g s r -> send_seq s < 2 ^ 64 - 1 -> fits m1 -> fits m2 ->
  exists st,
    sendRun {| sChannel := Some s; sRwc := []; sCalls := [SendMsg m1; SendMsg m2] |} [0; 1; 1; 0]%nat = Some st /\
    sCalls st = [SendDone None; SendDone None] /\
    exists st', recvRun {| rChannel := Some r; rRwc := sRwc st; lateReaders := 0 |} [RecvOk; RecvOk] =
      Some (st', [Err (ENew "cwire: pigeon_channel_decrypt failed"); Ok m1]).
Proof.
  intros (Hg & Hg' & Hq & Hs & Hm) Hlast Hf1 Hf2.
  cbn [sendRun]. rewrite (sendStep_msg _ 0 m1 s g), (sendStep_msg _ 1 m2 (with_send_seq s (u64 (send_seq s + 1))) g) by done.
  rewrite (sendStep_payload _ 1 (packet g (u64 (send_seq s + 1)) m2)) by first [done | rewrite len_packet; done].
  rewrite (sendStep_payload _ 0 (packet g (send_seq s) m1)) by first [done | rewrite len_packet; done].
  eexists. split; [done |]. split; [done |]. cbn [sRwc app send_key send_seq with_send_seq].
  assert (Hu : u64 (send_seq s + 1) = send_seq s + 1) by (apply u64_small; lia). rewrite Hu.
  cbn [recvRun recvStep rChannel rRwc]. rewrite (reader_refuses r g) by (done || lia). cbn [lateReaders rChannel rRwc].
  rewrite <-(app_nil_r (frame (packet g (send_seq s) m1))), (reader_pipe r g) by (done || lia).
  by eexists.
Qed.

(** A cancelled [Recv] loses a message: its goroutine keeps reading, so
    the next message goes to a result nobody takes, and the following call
    returns the one after it with no error. *)
Theorem cancelled_recv_drops_message (g : AEAD) (s r : pigeon_channel) (m1 m2 : bytes) :
  ready g s r -> fits m1 -> fits m2 ->
  exists s' w', sendAll (W := bytes) (Some s) [] [m1; m2] = (Some s', w', None) /\
    exists st', recvRun {| rChannel := Some r; rRwc := w'; lateReaders := 0 |}
                  [RecvCancelled; LateReader; RecvOk] = Some (st', [Err ErrCtx; Ok m2]).
Proof.
  intros Hr Hf1 Hf2. pose proof Hr as (Hg & Hg' & Hq & Hs & Hm).
  destruct (ready_next g s r Hr) as (_ & K2 & K3 & K4 & K5).
  cbn [sendAll]. rewrite (send_pipe s g) by done. rewrite (send_pipe _ g) by done.
  eexists _, _. split; [done |]. cbn [app send_seq with_send_seq] in *.
  cbn [recvRun recvStep rChannel rRwc lateReaders].
  rewrite (reader_pipe r g) by done. cbn [rChannel rRwc].
  rewrite <-(app_nil_r (frame (packet g (u64 (send_seq s + 1)) m2))).
  rewrite (reader_pipe _ g) by done. by eexists.
Qed.

(** C33. A stream with a long name is not encrypted.  libpigeon's key derivation
    refuses a label of more than 255 bytes, so for a name of more than 238
    bytes [streamChannel] logs the error and returns no channel, which is what
    a pairing-mode session has: on a session with keys, [Send] writes the
    message itself.  Up to 238 bytes every stream has a channel. *)
Theorem long_stream_names_go_unencrypted (m : SessionMaterial) (chans : gmap string pigeon_channel) (name : string) :
  chans !! name = None -> len (SendKey m) = 32 -> len (RecvKey m) = 32 ->
  (238 < slen name ->
   streamChannel (Some m) chans name = (chans, None) /\
   forall w msg, len msg <= MaxMessageSize ->
     Send (W := bytes) (streamChannel (Some m) chans name).2 w msg = (None, w ++ frame msg, None)) /\
  (slen name <= 238 -> exists ch, streamChannel (Some m) chans name = (<[name := ch]> chans, Some ch)).
Proof.
  intros Hc H1 H2. unfold streamChannel. rewrite Hc. unfold StreamChannel.
  assert (Hlen : slen (aeadStreamInfoPrefix +:+ name) = 17 + slen name).
  { unfold slen. rewrite str_bytes_app, len_app. done. }
  split.
  - intros Hn. assert (ExpandKey (SendKey m) (aeadStreamInfoPrefix +:+ name)
        = Err (ENew "cwire: ExpandKey: pigeon_diversify_key failed")) as ->.
    { unfold ExpandKey, pigeon_diversify_key, hkdf_sha256. rewrite H1. fold (slen (aeadStreamInfoPrefix +:+ name)).
      rewrite Hlen. cbn [Z.eqb Pos.eqb negb Z.ltb Z.compare Pos.compare Pos.compare_cont].
      by rewrite (proj2 (Z.ltb_lt 255 _)) by lia. }
    cbn [rbind]. split; [done |]. intros w msg Hm. cbn [snd]. unfold Send, sendEncrypt, sendWrite. by rewrite writeMessage_pipe.
  - intros Hn. destruct (ExpandKey_ok (SendKey m) (aeadStreamInfoPrefix +:+ name) H1 ltac:(lia)) as (k1 & -> & Hk1).
    destruct (ExpandKey_ok (RecvKey m) (aeadStreamInfoPrefix +:+ name) H2 ltac:(lia)) as (k2 & -> & Hk2). cbn [rbind].
    rewrite cwNewChannel_ok by done. by eexists.
Qed.

(** Opening binds the name: for every application name that fits a
    frame, [OpenStream] on a fresh stream succeeds (unless draining), and the
    peer's accept loop, reading the header it wrote, starts delivering the
    stream under exactly that name. *)
Theorem open_binds_name (name : string) (peer : session) (x : nat) (rest : bytes) :
  name <> EmptyString -> reservedStreamName name = false ->
  slen name + 10 <= MaxMessageSize ->
  exists w, OpenStream (W := bytes) false (Some (Ok [])) name = Ok w /\
    acceptDispatch peer x (readMessage (R := bytes) (w ++ rest)).2 = (peer, DStart name x) /\
    OpenStream (W := bytes) true (Some (Ok [])) name = Err ErrSessionDraining.
Proof.
  intros Hne Hres Hlen.
  assert (Hhdr : len (EncodeStreamHeader name) <= MaxMessageSize).
  { unfold EncodeStreamHeader. rewrite len_app. fold (slen name).
    pose proof (len_PutUvarint (slen name)). unfold MaxVarintLen64 in *. lia. }
  unfold OpenStream. rewrite (bool_decide_false (name = EmptyString)) by done.
  rewrite Hres. cbn [andb negb rwrap rbind]. rewrite writeMessage_pipe by done.
  eexists. split; [done |]. split; [| done]. cbn [app].
  rewrite readMessage_frame by done. cbn [snd]. unfold acceptDispatch.
  rewrite stream_header_roundtrip by (unfold slen in *; unfold MaxMessageSize in *; lia).
  unfold reservedStreamName in Hres. bool_hyps.
  rewrite !bool_decide_false by done. done.
Qed.
End Stream.

(** ** Witnesses *)

#[local] Existing Instance toySodium.

Definition toyPeer : pigeon_channel := pigeon_channel_init key2 key1 ModeStrict.

Lemma toy_ready : ready (P := toy) key1 (toyChannel ModeStrict) toyPeer.
Proof. split_and!; done. Qed.

Lemma stream_delivers_in_order_witness :
  exists s' w', sendAll (P := toy) (W := bytes) (Some (toyChannel ModeStrict)) [] [[x41]; [x42]] = (Some s', [] ++ w', None) /\
    forall n rest, exists st', recvRun (P := toy) {| rChannel := Some toyPeer; rRwc := w' ++ rest; lateReaders := n |}
                       [RecvOk; RecvOk] = Some (st', [Ok [x41]; Ok [x42]]).
Proof.
  apply (stream_delivers_in_order (P := toy) key1 (toyChannel ModeStrict) toyPeer [] [[x41]; [x42]]); [exact toy_ready |].
  repeat constructor; vm_compute; discriminate.
Defined.

Lemma overlapping_sends_lose_message_witness : exists st,
  sendRun (P := toy) {| sChannel := Some (toyChannel ModeStrict); sRwc := []; sCalls := [SendMsg [x41]; SendMsg [x42]] |} [0; 1; 1; 0]%nat
    = Some st /\ sCalls st = [SendDone None; SendDone None] /\
  exists st', recvRun (P := toy) {| rChannel := Some toyPeer; rRwc := sRwc st; lateReaders := 0 |} [RecvOk; RecvOk] =
      Some (st', [Err (ENew "cwire: pigeon_channel_decrypt failed"); Ok [x41]]).
Proof.
  apply (overlapping_sends_lose_message (P := toy) key1 (toyChannel ModeStrict) toyPeer [x41] [x42]);
    [exact toy_ready | simpl; lia | vm_compute; discriminate | vm_compute; discriminate].
Defined.

Lemma cancelled_recv_drops_message_witness :
  exists s' w', sendAll (P := toy) (W := bytes) (Some (toyChannel ModeStrict)) [] [[x41]; [x42]] = (Some s', w', None) /\
    exists st', recvRun (P := toy) {| rChannel := Some toyPeer; rRwc := w'; lateReaders := 0 |}
                  [RecvCancelled; LateReader; RecvOk] = Some (st', [Err ErrCtx; Ok [x42]]).
Proof.
  apply (cancelled_recv_drops_message (P := toy) key1 (toyChannel ModeStrict) toyPeer [x41] [x42]);
    [exact toy_ready | vm_compute; discriminate | vm_compute; discriminate].
Defined.

(** A name of 239 bytes. *)
Definition longName : string := bytes_str (replicate 239 x61).

Lemma long_stream_names_go_unencrypted_witness :
  Send (P := toy) (W := bytes) (streamChannel (P := toy) (Some {| SendKey := key1; RecvKey := key2 |}) ∅ longName).2 [] [x41]
    = (None, frame [x41], None).
Proof.
  destruct (long_stream_names_go_unencrypted (P := toy) {| SendKey := key1; RecvKey := key2 |} ∅ longName) as [Hl _];
    [reflexivity | reflexivity | reflexivity |].
  destruct Hl as [_ Hs]; [vm_compute; reflexivity |]. apply (Hs []). vm_compute. discriminate.
Defined.

Lemma open_binds_name_witness :
  exists w, OpenStream (W := bytes) false (Some (Ok [])) "chat" = Ok w /\
    acceptDispatch (newSession None 1 false false) 7 (readMessage (R := bytes) (w ++ [x00])).2
      = (newSession None 1 false false, DStart "chat" 7) /\
    OpenStream (W := bytes) true (Some (Ok [])) "chat" = Err ErrSessionDraining.
Proof.
  apply (open_binds_name "chat" (newSession None 1 false false) 7 [x00]);
    [done | vm_compute; reflexivity | vm_compute; discriminate].
Defined.
