(* ===== verification/Discovery.v ===== *)
(** * Discovery: route enumeration between two sessions (discovery.go)

    [Enumerate] on the client and [handleEnumerate] on the backend, over the
    reserved stream: the composition of [Stream]'s messages with [Wire]'s
    route list.  The two directions of the stream are byte pipes. *)

From Stdlib Require Import ZArith Lia Strings.Byte Strings.String.
From stdpp Require Import base gmap strings list.
From S2P Require Import Prelude Binary Wire Channel Cwire Session Stream.

Open Scope Z_scope.

Section Discovery.
Context {P : Primitives} {So : Sodium P}.

(** [Enumerate] up to its receive: open the reserved stream and send the
    one-byte request. *)
Definition enumerateRequest (isDraining : bool) (opened : option (result bytes)) (channel : option pigeon_channel)
    : result (option pigeon_channel * bytes) :=
  let! rwc := rwrap "enumerate: open: %w" [] (OpenStream isDraining opened discoveryStreamName) in
  match Send channel rwc [x01] with
  | (_, _, Some err) => Err (EWrap "enumerate: send: %w" [] err)
  | (channel, rwc, None) => Ok (channel, rwc)
  end.

(** The rest of [Enumerate]: receive the reply and decode it ([None]: the
    decoder panics; [maxCap] bounds what [make] can allocate). *)
Definition enumerateReply (maxCap : Z) (channel : option pigeon_channel) (incoming : bytes)
    : option (result (list RouteEntry)) :=
  match recvReader channel incoming with
  | (_, _, Err err) => Some (Err (EWrap "enumerate: recv: %w" [] err))
  | (_, _, Ok resp) => decodeRoutes maxCap resp
  end.

(** [handleEnumerate] on what follows the stream's header: its channel and
    what it has written when it returns (closing the stream). *)
Definition handleEnumerate (discover : string -> result (list RouteEntry)) (peerID : string)
    (channel : option pigeon_channel) (incoming : bytes) : option pigeon_channel * bytes :=
  match recvReader channel incoming with
  | (channel, _, Err _) => (channel, [])
  | (channel, _, Ok _) =>
      let entries := match discover peerID with Ok entries => entries | Err _ => [] end in
      let '(channel, out, _) := Send channel ([] : bytes) (encodeRoutes entries) in (channel, out)
  end.

Context {PL : PrimitivesLaws P} {SL : SodiumLaws So}.

(** Two ends of one stream: each end's receive side matches the other's send side. *)
Definition joined (a b : pigeon_channel) : Prop := exists g1 g2, ready g1 a b /\ ready g2 b a.

Definition visible (discover : string -> result (list RouteEntry)) (peerID : string) : list RouteEntry :=
  match discover peerID with Ok entries => entries | Err _ => [] end.

(** Enumeration returns what the backend's hook shows this client.  The
    request opens a stream the backend reads as the reserved one, and when the
    backend answers it the client decodes exactly the entries [Discover]
    returned for its peer id (none, when the hook fails), provided the reply
    fits a message. *)
Theorem enumerate_returns_visible_routes (maxCap : Z) (discover : string -> result (list RouteEntry)) (peerID : string)
    (isDraining : bool) (a b : pigeon_channel) :
  joined a b -> Forall entry_ok (visible discover peerID) -> len (visible discover peerID) <= maxCap ->
  len (visible discover peerID) < 2 ^ 64 -> fits (encodeRoutes (visible discover peerID)) ->
  exists a' b' wire request reply,
    enumerateRequest isDraining (Some (Ok [])) (Some a) = Ok (Some a', wire) /\
    readMessage wire = (request, Ok (EncodeStreamHeader discoveryStreamName)) /\
    DecodeStreamHeader (EncodeStreamHeader discoveryStreamName) = Ok discoveryStreamName /\
    handleEnumerate discover peerID (Some b) request = (Some b', reply) /\
    enumerateReply maxCap (Some a') reply = Some (Ok (visible discover peerID)).
Proof.
  intros (g1 & g2 & Hab & Hba) Hok Hcap Hlen Hfit.
  pose proof Hab as (Hg1 & Hg1' & Hs1 & Hr1 & Hm1). pose proof Hba as (Hg2 & Hg2' & Hs2 & Hr2 & Hm2).
  set (hdr := EncodeStreamHeader discoveryStreamName).
  assert (Hhdr : len hdr <= MaxMessageSize) by (vm_compute; discriminate).
  set (pkt := packet g1 (send_seq a) [x01]).
  assert (Hreq : fits [x01]) by (vm_compute; discriminate).
  exists (with_send_seq a (u64 (send_seq a + 1))).
  eexists _, (frame hdr ++ frame pkt), (frame pkt), _. split_and!.
  - unfold enumerateRequest, OpenStream. rewrite bool_decide_false by done.
    replace (isDraining && negb (reservedStreamName discoveryStreamName)) with false by (by destruct isDraining).
    cbn [rwrap rbind]. fold hdr. rewrite writeMessage_pipe by done. cbn [rwrap rbind app].
    rewrite (send_pipe a g1) by done. done.
  - by rewrite readMessage_frame.
  - vm_compute. reflexivity.
  - unfold handleEnumerate. rewrite <-(app_nil_r (frame pkt)). unfold pkt.
    rewrite (reader_pipe b g1 (send_seq a)) by done. fold (visible discover peerID).
    rewrite (send_pipe _ g2) by done. cbn [app]. reflexivity.
  - unfold enumerateReply. cbn [send_key with_recv_seq send_seq].
    rewrite <-(app_nil_r (frame _)).
    rewrite (reader_pipe (with_send_seq a (u64 (send_seq a + 1))) g2 (send_seq b)) by done.
    rewrite <-(app_nil_r (encodeRoutes _)). by apply routes_roundtrip.
Qed.
End Discovery.

(** ** Witness *)

#[local] Existing Instance toySodium.

Lemma enumerate_returns_visible_routes_witness :
  exists a' b' wire request reply,
    enumerateRequest (P := toy) true (Some (Ok [])) (Some (toyChannel ModeStrict)) = Ok (Some a', wire) /\
    readMessage wire = (request, Ok (EncodeStreamHeader discoveryStreamName)) /\
    DecodeStreamHeader (EncodeStreamHeader discoveryStreamName) = Ok discoveryStreamName /\
    handleEnumerate (P := toy) (fun _ => Ok [{| Route := "chat"; Metadata := [x01] |}]) "phone" (Some toyPeer) request =
      (Some b', reply) /\
    enumerateReply (P := toy) 1000 (Some a') reply = Some (Ok [{| Route := "chat"; Metadata := [x01] |}]).
Proof.
  apply (enumerate_returns_visible_routes (P := toy) 1000 (fun _ => Ok [{| Route := "chat"; Metadata := [x01] |}]) "phone").
  - exists key1, key2. split; split_and!; done.
  - repeat constructor.
  - vm_compute. discriminate.
  - vm_compute. reflexivity.
  - vm_compute. discriminate.
Defined.
