(* ===== verification/Machine.v ===== *)
(** * Machine: protocol definitions and their executor (protocol/protocol.go, machine.go)

    Protocols as data (actors with hierarchical states, sub-machines,
    transitions), the flattening of superstate transitions, [Validate], and
    the run-time [Machine] with its two transition indexes.  Guards and
    actions run on a context of type [C], which actions may change. *)

From Stdlib Require Import ZArith Lia Strings.String.
From stdpp Require Import base gmap strings list fin_maps.
From S2P Require Import Prelude.

(** ** Data (protocol.go) *)

Abbreviation State := string.
Abbreviation MsgType := string.
Abbreviation GuardID := string.
Abbreviation ActionID := string.
Abbreviation EventID := string.
Abbreviation CmdID := string.

Inductive PropertyKind :=
  | Invariant
  | Liveness
  | LeadsTo.

Inductive FairnessKind :=
  | WeakFair
  | StrongFair.

Inductive TriggerKind :=
  | TriggerRecv
  | TriggerInternal.

#[export] Instance TriggerKind_eq_dec : EqDecision TriggerKind.
Proof. solve_decision. Defined.

Record Trigger := {
  Kind : TriggerKind;
  Msg : MsgType;
  Desc : string
}.

Definition Recv (msg : MsgType) : Trigger :=
  {| Kind := TriggerRecv; Msg := msg; Desc := EmptyString |}.
Definition Internal (desc : string) : Trigger :=
  {| Kind := TriggerInternal; Msg := EmptyString; Desc := desc |}.

Record MsgSend := {
  sendTo : string;
  sendMsg : MsgType;
  sendFields : list (string * string)
}.

Record VarUpdate := {
  Var : string;
  Expr : string
}.

Record Transition := {
  From : State;
  To : State;
  On : Trigger;
  Guard : GuardID;
  Do : ActionID;
  Fairness : FairnessKind;
  Sends : list MsgSend;
  Updates : list VarUpdate;
  Emits : list CmdID
}.

Record Message := {
  msgType : MsgType;
  msgFrom : string;
  msgTo : string;
  msgDesc : string
}.

(** [VarType], a Go string type with four constants. *)
Abbreviation VarType := string.
Definition VarString : VarType := "string".
Definition VarInt : VarType := "int".
Definition VarBool : VarType := "bool".
Definition VarSetString : VarType := "set<string>".

Record VarDef := {
  varName : string;
  varType : VarType;
  varInitial : string;
  varDesc : string
}.

Record StructField := {
  fldName : string;
  fldType : VarType;
  fldInitial : string;
  fldDesc : string
}.

Record StructDef := {
  structName : string;
  structFields : list StructField;
  structDesc : string
}.

Record GuardDef := {
  guardID : GuardID;
  guardExpr : string
}.

Record EventDef := {
  eventID : EventID;
  eventDesc : string
}.

Record CommandDef := {
  cmdID : CmdID;
  cmdDesc : string
}.

Record Operator := {
  opName : string;
  opParams : string;
  opExpr : string;
  opDesc : string
}.

Record AdvAction := {
  advName : string;
  advDesc : string;
  advCode : string
}.

Record Property := {
  propName : string;
  propKind : PropertyKind;
  propExpr : string;
  propFromExpr : string;
  propToExpr : string;
  propDesc : string
}.

(** The [any] of a wire constant; a [float64] by the integer it truncates
    to, the only thing its readers use. *)
Inductive wireValue :=
  | WInt (n : Z)
  | WFloat (trunc : Z)
  | WString (s : string)
  | WBool (b : bool).

Record WireConstant := {
  wcName : string;
  wcValue : wireValue;
  wcType : string;
  wcDesc : string;
  wcGroup : string
}.

Record ConstantDef := {
  constName : string;
  constType : VarType;
  constValues : list string;
  constDesc : string
}.

Record Phase := {
  phaseName : string;
  phaseStates : list State;
  phaseVars : list string;
  phaseAdversary : bool
}.

Set Warnings "-register-all".

(** A state node: its address, its parent pointer, its children. *)
Inductive StateNode :=
  | Node (addr : nat) (parent : option nat) (name : State) (children : list StateNode)
      (transitions : list Transition).

Definition nodeAddr (n : StateNode) : nat := let 'Node a _ _ _ _ := n in a.
Definition nodeParent (n : StateNode) : option nat := let 'Node _ p _ _ _ := n in p.
Definition nodeName (n : StateNode) : State := let 'Node _ _ s _ _ := n in s.
Definition nodeChildren (n : StateNode) : list StateNode := let 'Node _ _ _ c _ := n in c.
Definition nodeTransitions (n : StateNode) : list Transition := let 'Node _ _ _ _ t := n in t.

Definition IsLeaf (n : StateNode) : bool :=
  match nodeChildren n with [] => true | _ => false end.

Fixpoint LeafStates (n : StateNode) : list StateNode :=
  let 'Node _ _ _ children _ := n in
  match children with
  | [] => [n]
  | _ => flat_map LeafStates children
  end.

Record SubMachine := {
  smName : string;
  smInitial : State;
  smTransitions : list Transition;
  smStateIndex : list (State * StateNode);
  smRoots : list StateNode;
  smReports : list EventID;
  smAccepts : list EventID
}.

Record RouteSend := {
  rsTo : string;
  rsEvent : EventID
}.

Record Route := {
  rtOn : EventID;
  rtFrom : string;
  rtGuard : GuardID;
  rtSends : list RouteSend
}.

Record Actor := {
  Name : string;
  Initial : State;
  Transitions : list Transition;
  StateIndex : list (State * StateNode);
  Roots : list StateNode;
  Machines : list SubMachine;
  Routes : list Route
}.

Record Protocol := {
  pName : string;
  Actors : list Actor;
  Messages : list Message;
  Events : list EventDef;
  Commands : list CommandDef;
  Structs : list StructDef;
  Vars : list VarDef;
  Guards : list GuardDef;
  Operators : list Operator;
  AdvActions : list AdvAction;
  AdvGuard : string;
  Phases : list Phase;
  WireConsts : list WireConstant;
  Constants : list ConstantDef;
  Properties : list Property;
  ChannelBound : Z;
  OneShot : bool
}.

Definition guardIDs (p : Protocol) : list GuardID := map guardID (Guards p).

Definition IsComposed (a : Actor) : bool :=
  match Machines a with [] => false | _ => true end.

(** ** Flattening *)

Definition retarget (t : Transition) (leaf : State) : Transition :=
  {| From := leaf; To := leaf; On := On t; Guard := Guard t; Do := Do t; Fairness := Fairness t;
     Sends := Sends t; Updates := Updates t; Emits := Emits t |}.

(** The closure [expand]: what it appends to [result] for [node]. *)
Fixpoint expand (node : StateNode) : list Transition :=
  let 'Node _ _ _ children transitions := node in
  match children with
  | [] => []
  | _ =>
      flat_map (fun t => map (fun leaf => retarget t (nodeName leaf)) (LeafStates node)) transitions
      ++ flat_map expand children
  end.

Definition SubMachine_FlattenedTransitions (m : SubMachine) : list Transition :=
  match smStateIndex m with
  | [] => smTransitions m
  | _ => smTransitions m ++ flat_map expand (smRoots m)
  end.

(** [Actor.FlattenedTransitions]; for a composed actor it is
    [allActorTransitions], the union over the sub-machines. *)
Definition FlattenedTransitions (a : Actor) : list Transition :=
  if IsComposed a then flat_map SubMachine_FlattenedTransitions (Machines a) else
  match StateIndex a with
  | [] => Transitions a
  | _ => Transitions a ++ flat_map expand (Roots a)
  end.

(** The closure [add] of [collectStates]: keep first occurrences. *)
Definition addState (states : list State) (s : State) : list State :=
  if bool_decide (s ∈ states) then states else states ++ [s].

Definition collectStates (a : Actor) : list State :=
  foldl (fun states t => addState (addState states (From t)) (To t))
    (addState [] (Initial a)) (FlattenedTransitions a).

Definition collectSubMachineStates (m : SubMachine) : list State :=
  foldl (fun states t => addState (addState states (From t)) (To t))
    (addState [] (smInitial m)) (SubMachine_FlattenedTransitions m).

(** ** Validation *)

(** [for _, x := range l { if err := check(x); err != nil { return err } }] *)
Fixpoint for_each {A} (l : list A) (check : A -> option error) : option error :=
  match l with
  | [] => None
  | x :: l => match check x with Some e => Some e | None => for_each l check end
  end.

Definition first_err (a b : option error) : option error :=
  match a with Some e => Some e | None => b end.

Definition declared (names : list string) (n : string) : bool := bool_decide (n ∈ names).

(** [if seen[name] { return err }; seen[name] = true] over a list of names. *)
Fixpoint noDuplicates (seen names : list string) (err : string -> error) : option error :=
  match names with
  | [] => None
  | n :: names => if declared seen n then Some (err n) else noDuplicates (n :: seen) names err
  end.

(** [msgSenders], a map filled in order: the last declaration wins. *)
Definition msgSender (p : Protocol) (m : MsgType) : string :=
  foldl (fun s d => if bool_decide (msgType d = m) then msgFrom d else s) EmptyString (Messages p).

Definition checkParents (index : list (State * StateNode)) (err : State -> State -> error) : option error :=
  for_each index (fun '(name, node) =>
    for_each (nodeChildren node) (fun child =>
      if negb (bool_decide (nodeParent child = Some (nodeAddr node)))
      then Some (err name (nodeName child)) else None)).

(** Where an error is reported: the prefix of its format and its arguments. *)
Record site := {
  sfmt : string;
  sargs : list arg
}.
Definition errorAt (w : site) (fmt : string) (args : list arg) : error :=
  EFmt (sfmt w +:+ fmt) (sargs w ++ args).
Definition edge (t : Transition) : list arg := [AStr (From t); AStr (To t)].

(** The checks of one transition's trigger and guard. *)
Definition checkTrigger (msgTypes guardDefs : list string) (w : site) (t : Transition)
    : option error :=
  if bool_decide (Kind (On t) = TriggerRecv) && negb (declared msgTypes (Msg (On t))) then
    Some (errorAt w ": transition %s->%s triggers on undeclared message %s"
            (edge t ++ [AStr (Msg (On t))]))
  else if negb (bool_decide (Guard t = EmptyString)) && negb (declared guardDefs (Guard t)) then
    Some (errorAt w ": transition %s->%s uses undefined guard %s" (edge t ++ [AStr (Guard t)]))
  else None.

Definition checkSendTo (actorNames : list string) (w : site) (t : Transition) (s : MsgSend)
    : option error :=
  if negb (declared actorNames (sendTo s)) then
    Some (errorAt w ": transition %s->%s sends to unknown actor %q" (edge t ++ [AStr (sendTo s)]))
  else None.

(** The body of the loop over the sub-machines of a composed actor. *)
Fixpoint validateMachines (actorNames msgTypes guardDefs : list string) (actor : string)
    (machineNames : list string) (ms : list SubMachine) : option error :=
  match ms with
  | [] => None
  | m :: ms =>
      if declared machineNames (smName m) then
        Some (EFmt "actor %s: duplicate machine name: %s" [AStr actor; AStr (smName m)]) else
      let w := {| sfmt := "actor %s machine %s"; sargs := [AStr actor; AStr (smName m)] |} in
      first_err
        (checkParents (smStateIndex m) (fun n c =>
           errorAt w ": state %s child %s has wrong parent" [AStr n; AStr c]))
      (first_err
        (for_each (SubMachine_FlattenedTransitions m) (fun t =>
           first_err (checkTrigger msgTypes guardDefs w t)
             (for_each (Sends t) (checkSendTo actorNames w t))))
        (validateMachines actorNames msgTypes guardDefs actor (smName m :: machineNames) ms))
  end.

(** The loop over the routes, [i] being the route's index. *)
Fixpoint validateRoutes (guardDefs machineNames : list string) (actor : string) (i : Z)
    (rs : list Route) : option error :=
  match rs with
  | [] => None
  | r :: rs =>
      let w := {| sfmt := "actor %s: route %d"; sargs := [AStr actor; AInt i] |} in
      if negb (declared machineNames (rtFrom r)) then
        Some (errorAt w " references unknown source machine %q" [AStr (rtFrom r)])
      else if negb (bool_decide (rtGuard r = EmptyString)) && negb (declared guardDefs (rtGuard r)) then
        Some (errorAt w " uses undefined guard %s" [AStr (rtGuard r)])
      else first_err
        (for_each (rtSends r) (fun s =>
           if negb (declared machineNames (rsTo s)) then
             Some (errorAt w " sends to unknown machine %q" [AStr (rsTo s)])
           else None))
        (validateRoutes guardDefs machineNames actor (i + 1) rs)
  end.

(** The composed branch. *)
Definition validateComposed (actorNames msgTypes guardDefs : list string) (a : Actor) : option error :=
  first_err (validateMachines actorNames msgTypes guardDefs (Name a) [] (Machines a))
    (validateRoutes guardDefs (map smName (Machines a)) (Name a) 0 (Routes a)).

(** The flat branch. *)
Definition validateFlat (p : Protocol) (actorNames msgTypes guardDefs : list string) (a : Actor)
    : option error :=
  let w := {| sfmt := "actor %s"; sargs := [AStr (Name a)] |} in
  first_err
    (checkParents (StateIndex a) (fun n c =>
       errorAt w ": state %s child %s has wrong parent" [AStr n; AStr c]))
    (for_each (FlattenedTransitions a) (fun t =>
       first_err (checkTrigger msgTypes guardDefs w t)
         (for_each (Sends t) (fun s =>
            first_err (checkSendTo actorNames w t s)
              (if negb (declared msgTypes (sendMsg s)) then
                 Some (errorAt w ": transition %s->%s sends undeclared message %s"
                         (edge t ++ [AStr (sendMsg s)]))
               else if negb (bool_decide (msgSender p (sendMsg s) = Name a)) then
                 Some (errorAt w ": transition %s->%s sends message %s but declared sender is %s"
                         (edge t ++ [AStr (sendMsg s); AStr (msgSender p (sendMsg s))]))
               else None))))).

Definition Validate (p : Protocol) : option error :=
  let actorNames := map Name (Actors p) in
  let msgTypes := map msgType (Messages p) in
  let guardDefs := guardIDs p in
  first_err (noDuplicates [] actorNames (fun n => EFmt "duplicate actor name: %s" [AStr n]))
  (first_err
    (for_each (Messages p) (fun m =>
       if negb (declared actorNames (msgFrom m)) then
         Some (EFmt "message %s: unknown sender %q" [AStr (msgType m); AStr (msgFrom m)])
       else if negb (declared actorNames (msgTo m)) then
         Some (EFmt "message %s: unknown receiver %q" [AStr (msgType m); AStr (msgTo m)])
       else None))
    (for_each (Actors p) (fun a =>
       if IsComposed a then validateComposed actorNames msgTypes guardDefs a
       else validateFlat p actorNames msgTypes guardDefs a))).

(** ** The executor (machine.go) *)

Section Executor.
Context {C : Type}.

(** A guard reads the context; an action may change it and may fail. *)
Definition GuardFunc := C -> bool.
Definition ActionFunc := C -> C * option error.

Record Machine := {
  actor : Actor;
  state : State;
  guards : gmap GuardID GuardFunc;
  actions : gmap ActionID ActionFunc;
  recvIndex : gmap (State * MsgType) (list Transition);
  internalIndex : gmap (State * EventID) (list Transition)
}.

(** [index[key] = append(index[key], t)]. *)
Definition indexAppend (index : gmap (string * string) (list Transition)) (key : string * string)
    (t : Transition) : gmap (string * string) (list Transition) :=
  <[key := default [] (index !! key) ++ [t]]> index.

(** The loop of [NewMachine] over the flattened transitions. *)
Definition indexTransition (ix : gmap (string * string) (list Transition) * gmap (string * string) (list Transition))
    (t : Transition) : gmap (string * string) (list Transition) * gmap (string * string) (list Transition) :=
  match Kind (On t) with
  | TriggerRecv => (indexAppend ix.1 (From t, Msg (On t)) t, ix.2)
  | TriggerInternal => (ix.1, indexAppend ix.2 (From t, Desc (On t)) t)
  end.

Definition initialState (a : Actor) : State :=
  match Machines a with
  | [] => Initial a
  | m :: _ => smInitial m
  end.

Definition NewMachine (p : Protocol) (actorName : string) : result Machine :=
  match find (fun a => bool_decide (Name a = actorName)) (Actors p) with
  | None => Err (EFmt "actor %q not found in protocol %q" [AStr actorName; AStr (pName p)])
  | Some a =>
      let ix := foldl indexTransition (∅, ∅) (FlattenedTransitions a) in
      Ok {| actor := a; state := initialState a; guards := ∅; actions := ∅;
            recvIndex := ix.1; internalIndex := ix.2 |}
  end.

Definition with_state (m : Machine) (s : State) : Machine :=
  {| actor := actor m; state := s; guards := guards m; actions := actions m;
     recvIndex := recvIndex m; internalIndex := internalIndex m |}.

Definition RegisterGuard (m : Machine) (i : GuardID) (fn : GuardFunc) : Machine :=
  {| actor := actor m; state := state m; guards := <[i := fn]> (guards m); actions := actions m;
     recvIndex := recvIndex m; internalIndex := internalIndex m |}.

Definition RegisterAction (m : Machine) (i : ActionID) (fn : ActionFunc) : Machine :=
  {| actor := actor m; state := state m; guards := guards m; actions := <[i := fn]> (actions m);
     recvIndex := recvIndex m; internalIndex := internalIndex m |}.

Definition SetState (m : Machine) (s : State) : Machine := with_state m s.

(** [tryTransitions]: the machine and the context after the call, and its error. *)
Fixpoint tryTransitions (m : Machine) (transitions : list Transition) (ctx : C)
    : Machine * C * option error :=
  match transitions with
  | [] => (m, ctx, Some (EFmt "all guards failed for transitions from %s" [AStr (state m)]))
  | t :: rest =>
      let fire :=
        if bool_decide (Do t = EmptyString) then (with_state m (To t), ctx, None) else
        match actions m !! Do t with
        | None => (m, ctx, Some (EFmt "unregistered action: %s" [AStr (Do t)]))
        | Some action =>
            match action ctx with
            | (ctx, Some err) => (m, ctx, Some (EWrap "action %s failed: %w" [AStr (Do t)] err))
            | (ctx, None) => (with_state m (To t), ctx, None)
            end
        end in
      if bool_decide (Guard t = EmptyString) then fire else
      match guards m !! Guard t with
      | None => (m, ctx, Some (EFmt "unregistered guard: %s" [AStr (Guard t)]))
      | Some guard => if negb (guard ctx) then tryTransitions m rest ctx else fire
      end
  end.

Definition HandleMessage (m : Machine) (msg : MsgType) (ctx : C) : Machine * C * option error :=
  match default [] (recvIndex m !! (state m, msg)) with
  | [] => (m, ctx, Some (EFmt "no transition from %s on message %s" [AStr (state m); AStr msg]))
  | transitions => tryTransitions m transitions ctx
  end.

(** [Step].  With no event, the transitions of all events are tried, event
    by event in the order in which the runtime iterates the index: [order]
    is that iteration, any enumeration of the index. *)
Definition Step (m : Machine) (order : list ((State * EventID) * list Transition)) (event : EventID)
    (ctx : C) : Machine * C * option error :=
  if negb (bool_decide (event = EmptyString)) then
    match default [] (internalIndex m !! (state m, event)) with
    | [] => (m, ctx, Some (EFmt "no internal transition from %s on event %s" [AStr (state m); AStr event]))
    | transitions => tryTransitions m transitions ctx
    end
  else
    match flat_map snd (filter (fun e => fst (fst e) = state m) order) with
    | [] => (m, ctx, Some (EFmt "no internal transition from %s" [AStr (state m)]))
    | all => tryTransitions m all ctx
    end.
End Executor.
Arguments Machine : clear implicits.

(** ** Specification *)

(** The transitions of an actor that a message, or an internal event,
    triggers in a state, in declaration order. *)
Definition onMessage (a : Actor) (st : State) (msg : MsgType) : list Transition :=
  filter (fun t => Kind (On t) = TriggerRecv /\ From t = st /\ Msg (On t) = msg) (FlattenedTransitions a).
Definition onEvent (a : Actor) (st : State) (ev : EventID) : list Transition :=
  filter (fun t => Kind (On t) = TriggerInternal /\ From t = st /\ Desc (On t) = ev) (FlattenedTransitions a).

Section Spec.
Context {C : Type}.

(** A machine made for actor [a] of [p], whatever was registered or run since. *)
Definition built (p : Protocol) (a : Actor) (m : Machine C) : Prop :=
  a ∈ Actors p /\ actor m = a /\
  (recvIndex m, internalIndex m) = foldl indexTransition (∅, ∅) (FlattenedTransitions a).

(** [t] is passed over in context [ctx]: its guard is registered and false. *)
Definition blocked (m : Machine C) (ctx : C) (t : Transition) : Prop :=
  Guard t <> EmptyString /\ exists g, guards m !! Guard t = Some g /\ g ctx = false.

(** [t] is taken in [ctx], leaving [ctx']. *)
Definition taken (m : Machine C) (ctx : C) (t : Transition) (ctx' : C) : Prop :=
  (Guard t = EmptyString \/ exists g, guards m !! Guard t = Some g /\ g ctx = true) /\
  ((Do t = EmptyString /\ ctx' = ctx) \/
   (Do t <> EmptyString /\ exists f, actions m !! Do t = Some f /\ f ctx = (ctx', None))).

Lemma tryTransitions_ok (m : Machine C) l : forall ctx m' ctx',
  tryTransitions m l ctx = (m', ctx', None) <->
  exists l1 t l2, l = l1 ++ t :: l2 /\ Forall (blocked m ctx) l1 /\ taken m ctx t ctx' /\
    m' = with_state m (To t).
Proof.
  induction l as [|t l IH]; intros ctx m' ctx'.
  { split; [done |]. intros (l1 & t & l2 & He & _). by destruct l1. }
  cbn [tryTransitions]. set (fire := if bool_decide (Do t = EmptyString) then _ else _).
  assert (Hfire : fire = (m', ctx', None) <->
    ((Do t = EmptyString /\ ctx' = ctx) \/
     (Do t <> EmptyString /\ exists f, actions m !! Do t = Some f /\ f ctx = (ctx', None))) /\
    m' = with_state m (To t)).
  { unfold fire. case_bool_decide as Hd.
    - split; [intros [= <- <-]; auto | intros [[[_ ->]|[? _]] ->]; done].
    - destruct (actions m !! Do t) as [f|]; [destruct (f ctx) as [c1 [e|]] eqn:Hf |].
      + split; [done |]. intros [[[? _]|(_ & g & [= <-] & Hg)] _]; congruence.
      + split; [intros [= <- <-]; split; [right; eauto | done] |].
        intros [[[? _]|(_ & g & [= <-] & Hg)] ->]; [done | congruence].
      + split; [done |]. intros [[[? _]|(_ & g & ? & _)] _]; congruence. }
  clearbody fire. split.
  - case_bool_decide as Hg.
    { intros He. apply Hfire in He as [Hact ->]. exists [], t, l. split_and!; auto.
      split; [by left | done]. }
    destruct (guards m !! Guard t) as [g|] eqn:Hgt; [| done]. destruct (g ctx) eqn:Hgc; simpl.
    + intros He. apply Hfire in He as [Hact ->]. exists [], t, l. split_and!; auto.
      split; [right; eauto | done].
    + intros He. apply IH in He as (l1 & t' & l2 & -> & Hb & Ht & ->).
      exists (t :: l1), t', l2. split_and!; try done. constructor; [split; eauto | done].
  - intros (l1 & t' & l2 & He & Hb & Ht & ->). destruct l1 as [|t1 l1]; injection He as -> ->.
    + destruct Ht as [Hgd Hact]. assert (Hf : fire = (with_state m (To t'), ctx', None)) by (by apply Hfire).
      case_bool_decide as Hg; [done |].
      destruct Hgd as [?|(g & -> & Hgc)]; [done |]. by rewrite Hgc.
    + apply Forall_cons in Hb as [(Hne & g & Hg & Hgc) Hb]. rewrite bool_decide_false by done.
      rewrite Hg, Hgc. simpl. apply IH. eauto 10.
Qed.

Lemma tryTransitions_err (m : Machine C) l : forall ctx m' ctx' e,
  tryTransitions m l ctx = (m', ctx', Some e) -> m' = m.
Proof.
  induction l as [|t l IH]; intros ctx m' ctx' e; cbn [tryTransitions]; [by intros [= <- _ _] |].
  repeat case_match; intros He; simplify_eq; eauto.
Qed.

(** ** Lemmas: the indexes *)

Lemma filter_snoc {A} (P : A -> Prop) `{forall x, Decision (P x)} l x :
  filter P (l ++ [x]) = filter P l ++ if decide (P x) then [x] else [].
Proof. by rewrite filter_app. Qed.

Lemma index_spec ts st k :
  let ix := foldl indexTransition (∅, ∅) ts in
  default [] (ix.1 !! (st, k)) =
    filter (fun t => Kind (On t) = TriggerRecv /\ From t = st /\ Msg (On t) = k) ts /\
  default [] (ix.2 !! (st, k)) =
    filter (fun t => Kind (On t) = TriggerInternal /\ From t = st /\ Desc (On t) = k) ts.
Proof.
  cbn zeta. induction ts as [|t ts [IH1 IH2]] using rev_ind; [done |].
  rewrite foldl_snoc, !filter_snoc. set (ix := foldl _ _ ts) in *. clearbody ix.
  unfold indexTransition, indexAppend. destruct (Kind (On t)) eqn:Hk; cbn [fst snd].
  - rewrite (decide_False (P := TriggerRecv = TriggerInternal /\ _)), app_nil_r by (by intros [? _]).
    split; [| done]. destruct (decide ((From t, Msg (On t)) = (st, k))) as [[= <- <-]|Hne].
    + rewrite lookup_insert_eq, decide_True by done. simpl. by rewrite IH1.
    + rewrite lookup_insert_ne by done. rewrite decide_False, app_nil_r; [done |].
      intros (_ & ? & ?). congruence.
  - rewrite (decide_False (P := TriggerInternal = TriggerRecv /\ _)), app_nil_r by (by intros [? _]).
    split; [done |]. destruct (decide ((From t, Desc (On t)) = (st, k))) as [[= <- <-]|Hne].
    + rewrite lookup_insert_eq, decide_True by done. simpl. by rewrite IH2.
    + rewrite lookup_insert_ne by done. rewrite decide_False, app_nil_r; [done |].
      intros (_ & ? & ?). congruence.
Qed.

Lemma built_index p a m st k : built p a m ->
  default [] (recvIndex m !! (st, k)) = onMessage a st k /\
  default [] (internalIndex m !! (st, k)) = onEvent a st k.
Proof.
  intros (_ & _ & Hix). pose proof (index_spec (FlattenedTransitions a) st k) as Hs.
  cbn zeta in Hs. rewrite <-Hix in Hs. exact Hs.
Qed.

Lemma NewMachine_built p n m : NewMachine (C := C) p n = Ok m -> exists a, built p a m /\ Name a = n.
Proof.
  unfold NewMachine. destruct (find _ _) as [a|] eqn:Hf; [| done]. intros [= <-].
  apply find_some in Hf as [Hin Hn]. bool_hyps. exists a. split; [| done].
  split_and!; [by apply list_elem_of_In | done |]. simpl. by destruct (foldl _ _ _).
Qed.
End Spec.

(** ** Lemmas: the hierarchy *)

(** [within root n]: [n] is [root] or a descendant of it. *)
Inductive within : StateNode -> StateNode -> Prop :=
  | within_self n : within n n
  | within_child root c n : c ∈ nodeChildren root -> within c n -> within root n.

Lemma StateNode_rect' (Q : StateNode -> Prop) :
  (forall a p s cs ts, Forall Q cs -> Q (Node a p s cs ts)) -> forall n, Q n.
Proof.
  intros HQ. fix IH 1. intros [a p s cs ts]. apply HQ.
  induction cs as [|c cs IHcs]; constructor; [apply IH | apply IHcs].
Qed.

Lemma elem_of_flat_map {A B} (f : A -> list B) l y : y ∈ flat_map f l <-> exists x, x ∈ l /\ y ∈ f x.
Proof.
  rewrite list_elem_of_In, in_flat_map. split; intros (x & H1 & H2); exists x;
    rewrite ?list_elem_of_In in *; by rewrite ?list_elem_of_In.
Qed.

Lemma LeafStates_spec n leaf : leaf ∈ LeafStates n <-> within n leaf /\ IsLeaf leaf = true.
Proof.
  induction n as [a p s cs ts IH] using StateNode_rect'. destruct cs as [|c cs].
  - cbn [LeafStates]. rewrite list_elem_of_singleton. split; [intros ->; split; [constructor | done] |].
    intros [Hw _]. inversion Hw as [|? ? ? Hc]; [done |]. by apply elem_of_nil in Hc.
  - cbn [LeafStates]. rewrite elem_of_flat_map. rewrite Forall_forall in IH. split.
    + intros (x & Hx & Hl). apply IH in Hl as [Hw Hl]; [| done]. split; [| done]. by econstructor.
    + intros [Hw Hl]. inversion Hw as [|? x ? Hx]; simplify_eq/=.
      exists x. split; [done |]. by apply IH.
Qed.

Lemma expand_spec n t : t ∈ expand n <->
  exists sup t0 leaf, within n sup /\ IsLeaf sup = false /\ t0 ∈ nodeTransitions sup /\
    within sup leaf /\ IsLeaf leaf = true /\ t = retarget t0 (nodeName leaf).
Proof.
  induction n as [a p s cs ts IH] using StateNode_rect'. destruct cs as [|c cs].
  - cbn [expand]. split; [by intros ?%elem_of_nil |]. intros (sup & t0 & leaf & Hw & Hl & _).
    inversion Hw as [|? ? ? Hc]; simplify_eq/=. by apply elem_of_nil in Hc.
  - assert (He : expand (Node a p s (c :: cs) ts) =
      flat_map (fun t => map (fun leaf => retarget t (nodeName leaf)) (LeafStates (Node a p s (c :: cs) ts))) ts
      ++ flat_map expand (c :: cs)) by done.
    rewrite He, elem_of_app, !elem_of_flat_map. rewrite Forall_forall in IH. split.
    + intros [(t0 & Ht0 & Hm)|(x & Hx & Ht)].
      * apply list_elem_of_fmap in Hm as (leaf & -> & Hlf). apply LeafStates_spec in Hlf as [Hw Hlf].
        exists (Node a p s (c :: cs) ts), t0, leaf. split_and!; try done. constructor.
      * apply IH in Ht as (sup & t0 & leaf & Hw & Hrest); [| done].
        exists sup, t0, leaf. split; [by econstructor | done].
    + intros (sup & t0 & leaf & Hw & Hl & Ht0 & Hwl & Hlf & ->).
      inversion Hw as [|? x ? Hx Hwx]; simplify_eq/=.
      * left. exists t0. split; [done |]. apply list_elem_of_fmap. exists leaf. split; [done |].
        exact (proj2 (LeafStates_spec (Node a p s (c :: cs) ts) leaf) (conj Hwl Hlf)).
      * right. exists x. split; [done |]. apply IH; [done |]. exists sup, t0, leaf. by split_and!.
Qed.

(** ** Lemmas: validation *)

Lemma for_each_None {A} (l : list A) check : for_each l check = None <-> forall x, x ∈ l -> check x = None.
Proof.
  induction l as [|x l IH]; cbn [for_each]; [split; [intros _ ? ?%elem_of_nil; done | done] |].
  destruct (check x) eqn:Hx.
  - split; [done |]. intros Hall. rewrite Hall in Hx; [done | left].
  - rewrite IH. split; [intros Hall y [->|Hy]%elem_of_cons; auto | intros Hall y Hy; apply Hall; by right].
Qed.

Lemma first_err_None a b : first_err a b = None <-> a = None /\ b = None.
Proof. destruct a; simpl; [split; [done | by intros [? _]] | tauto]. Qed.

Lemma checkTrigger_guard msgs gs w t : checkTrigger msgs gs w t = None -> Guard t = EmptyString \/ Guard t ∈ gs.
Proof.
  unfold checkTrigger, declared. destruct (bool_decide (Kind (On t) = TriggerRecv) && _); [done |].
  case_bool_decide; [by left |]. case_bool_decide; [by right | done].
Qed.

Lemma validateMachines_In an mt gd nm ms : forall seen m,
  validateMachines an mt gd nm seen ms = None -> m ∈ ms ->
  forall t, t ∈ SubMachine_FlattenedTransitions m -> exists w, checkTrigger mt gd w t = None.
Proof.
  induction ms as [|m0 ms IH]; intros seen m Hv Hm t Ht; [by apply elem_of_nil in Hm |].
  cbn [validateMachines] in Hv. destruct (declared seen (smName m0)); [done |].
  rewrite !first_err_None, for_each_None in Hv. destruct Hv as (_ & Hts & Hrest).
  apply elem_of_cons in Hm as [->|Hm]; [| by eapply IH].
  apply Hts in Ht. apply first_err_None in Ht as [Ht _]. eauto.
Qed.

(** A valid protocol's transitions use only declared guards. *)
Lemma Validate_guards p a t :
  Validate p = None -> a ∈ Actors p -> t ∈ FlattenedTransitions a ->
  Guard t = EmptyString \/ Guard t ∈ guardIDs p.
Proof.
  unfold Validate. rewrite !first_err_None, !for_each_None. intros (_ & _ & Hact) Ha Ht.
  specialize (Hact a Ha). cbn beta in Hact. destruct (IsComposed a) eqn:Hc.
  - unfold validateComposed in Hact. apply first_err_None in Hact as [Hact _].
    unfold FlattenedTransitions in Ht. rewrite Hc, elem_of_flat_map in Ht. destruct Ht as (m & Hm & Ht).
    destruct (validateMachines_In _ _ _ _ _ _ _ Hact Hm _ Ht) as [w Hw]. by eapply checkTrigger_guard.
  - unfold validateFlat in Hact. apply first_err_None in Hact as [_ Hact].
    rewrite for_each_None in Hact. apply Hact in Ht. apply first_err_None in Ht as [Ht _].
    by eapply checkTrigger_guard.
Qed.

Section Runs.
Context {C : Type}.

(** The machines a client obtains from [NewMachine] by registering and
    running (every public operation but the test-only [SetState]). *)
Inductive used (p : Protocol) (n : string) : Machine C -> Prop :=
  | used_new m : NewMachine p n = Ok m -> used p n m
  | used_guard m i g : used p n m -> used p n (RegisterGuard m i g)
  | used_action m i f : used p n m -> used p n (RegisterAction m i f)
  | used_message m msg ctx : used p n m -> used p n (HandleMessage m msg ctx).1.1
  | used_step m order ev ctx : used p n m -> order ≡ₚ map_to_list (internalIndex m) ->
      used p n (Step m order ev ctx).1.1.

Lemma tryTransitions_state (m : Machine C) l ctx :
  let m' := (tryTransitions m l ctx).1.1 in m' = m \/ exists t, t ∈ l /\ m' = with_state m (To t).
Proof.
  cbn zeta. destruct (tryTransitions m l ctx) as [[m' ctx'] [e|]] eqn:E; simpl.
  - left. by eapply tryTransitions_err.
  - right. apply tryTransitions_ok in E as (l1 & t & l2 & -> & _ & _ & ->). exists t.
    split; [apply elem_of_app; right; left | done].
Qed.

Lemma order_transitions p a (m : Machine C) order t :
  built p a m -> order ≡ₚ map_to_list (internalIndex m) ->
  t ∈ flat_map snd (filter (fun e => fst (fst e) = state m) order) -> t ∈ FlattenedTransitions a.
Proof.
  intros Hb Ho Ht. apply elem_of_flat_map in Ht as ([[st k] ts] & Hin & Ht).
  apply list_elem_of_filter in Hin as [_ Hin]. rewrite Ho in Hin. apply elem_of_map_to_list in Hin.
  destruct (built_index p a m st k Hb) as [_ Hi]. rewrite Hin in Hi. simpl in *. subst ts.
  unfold onEvent in Ht. by apply list_elem_of_filter in Ht as [_ ?].
Qed.

(** Every transition a call of [HandleMessage] or [Step] may try is one of the actor's. *)
Lemma calls_try_actor_transitions p a (m : Machine C) order key ctx :
  built p a m -> order ≡ₚ map_to_list (internalIndex m) ->
  (exists l, (forall t, t ∈ l -> t ∈ FlattenedTransitions a) /\
     (HandleMessage m key ctx = tryTransitions m l ctx \/
      exists fmt args, HandleMessage m key ctx = (m, ctx, Some (EFmt ("no " +:+ fmt) args)))) /\
  (exists l, (forall t, t ∈ l -> t ∈ FlattenedTransitions a) /\
     (Step m order key ctx = tryTransitions m l ctx \/
      exists fmt args, Step m order key ctx = (m, ctx, Some (EFmt ("no " +:+ fmt) args)))).
Proof.
  intros Hb Ho. destruct (built_index p a m (state m) key Hb) as [Hr Hi]. split.
  - exists (onMessage a (state m) key). unfold HandleMessage. rewrite Hr. split.
    + intros t Ht. by apply list_elem_of_filter in Ht as [_ ?].
    + destruct (onMessage _ _ _); [right; by exists "transition from %s on message %s"%string, [AStr (state m); AStr key] | by left].
  - unfold Step. destruct (bool_decide_reflect (key = EmptyString)); cbn [negb].
    + eexists. split; [intros t Ht; by eapply order_transitions |].
      destruct (flat_map _ _); [right; by exists "internal transition from %s"%string, [AStr (state m)] | by left].
    + exists (onEvent a (state m) key). rewrite Hi. split.
      * intros t Ht. by apply list_elem_of_filter in Ht as [_ ?].
      * destruct (onEvent _ _ _);
          [right; by exists "internal transition from %s on event %s"%string, [AStr (state m); AStr key] | by left].
Qed.

Lemma built_with_state p a (m : Machine C) st : built p a m -> built p a (with_state m st).
Proof. done. Qed.

Lemma try_keeps p a (m : Machine C) l ctx :
  built p a m -> (forall t, t ∈ l -> t ∈ FlattenedTransitions a) ->
  let m' := (tryTransitions m l ctx).1.1 in
  built p a m' /\ (state m' = state m \/ exists t, t ∈ FlattenedTransitions a /\ state m' = To t).
Proof.
  intros Hb Hl. cbn zeta. destruct (tryTransitions_state m l ctx) as [-> | (t & Ht & ->)]; [by auto |].
  split; [done |]. right. exists t. auto.
Qed.

Lemma used_inv p n m : used p n m ->
  exists a, built p a m /\ Name a = n /\
    (state m = initialState a \/ exists t, t ∈ FlattenedTransitions a /\ state m = To t).
Proof.
  induction 1 as [m Hn|m i g Hm (a & Hb & Hna & Hs)|m i f Hm (a & Hb & Hna & Hs)
    |m msg ctx Hm (a & Hb & Hna & Hs)|m order ev ctx Hm (a & Hb & Hna & Hs) Ho].
  - destruct (NewMachine_built p n m Hn) as (a & Hb & Hna). exists a. split_and!; [done | done |].
    left. unfold NewMachine in Hn. destruct (find _ _) as [a'|]; [| done]. injection Hn as <-.
    destruct Hb as (_ & Ha & _). simpl in *. by subst.
  - by exists a.
  - by exists a.
  - exists a. destruct (calls_try_actor_transitions p a m (map_to_list (internalIndex m)) msg ctx Hb ltac:(done))
      as [(l & Hl & [-> | (fmt & args & ->)]) _]; [| by split_and!].
    destruct (try_keeps p a m l ctx Hb Hl) as [Hb' [Hst|Hst]]; split_and!; auto. by rewrite Hst.
  - exists a. destruct (calls_try_actor_transitions p a m order ev ctx Hb Ho)
      as [_ (l & Hl & [-> | (fmt & args & ->)])]; [| by split_and!].
    destruct (try_keeps p a m l ctx Hb Hl) as [Hb' [Hst|Hst]]; split_and!; auto. by rewrite Hst.
Qed.

Definition unregisteredGuard (g : GuardID) : error := EFmt "unregistered guard: %s" [AStr g].

Lemma try_guards_registered (m : Machine C) l ctx g :
  (forall t, t ∈ l -> Guard t = EmptyString \/ guards m !! Guard t <> None) ->
  (tryTransitions m l ctx).2 <> Some (unregisteredGuard g).
Proof.
  induction l as [|t l IH]; intros Hl; cbn [tryTransitions]; [done |].
  assert (Ht := Hl t ltac:(left)).
  specialize (IH (fun t' Ht' => Hl t' (list_elem_of_further _ _ _ Ht'))).
  repeat case_match; simplify_eq/=; bool_hyps; try done; by destruct Ht.
Qed.
End Runs.

Lemma addState_elem ss s x : x ∈ addState ss s <-> x ∈ ss \/ x = s.
Proof.
  unfold addState. case_bool_decide as Hs; [split; [by left | by intros [?| ->]] |].
  by rewrite elem_of_app, list_elem_of_singleton.
Qed.

Lemma addState_NoDup ss s : NoDup ss -> NoDup (addState ss s).
Proof.
  intros Hn. unfold addState. case_bool_decide as Hs; [done |]. apply NoDup_app.
  split_and!; [done | | apply NoDup_singleton]. intros x Hx. rewrite list_elem_of_singleton. by intros ->.
Qed.

Lemma collectStates_spec a :
  NoDup (collectStates a) /\
  forall s, s ∈ collectStates a <->
    s = Initial a \/ exists t, t ∈ FlattenedTransitions a /\ (s = From t \/ s = To t).
Proof.
  unfold collectStates. induction (FlattenedTransitions a) as [|t ts [IHn IHs]] using rev_ind.
  { split; [apply addState_NoDup; constructor |]. intros s. simpl. rewrite addState_elem. split.
    - intros [?%elem_of_nil|?]; [done | by left].
    - intros [?|(t & ?%elem_of_nil & _)]; [by right | done]. }
  rewrite foldl_snoc. split; [by do 2 apply addState_NoDup |].
  intros s. rewrite !addState_elem, IHs. setoid_rewrite elem_of_app. setoid_rewrite list_elem_of_singleton.
  split.
  - intros [[[?|(t' & ? & ?)]|?]|?]; [by left | right; eauto | right; eauto | right; eauto].
  - intros [?|(t' & [?| ->] & Hor)]; [by left; left; left | left; left; right; eauto | destruct Hor; auto].
Qed.

(** ** Properties *)

(** What flattening means, for an actor with a state hierarchy: the
    explicit transitions, first and in order, and after them, for each
    superstate below a root, each of its transitions as a self-loop on each
    leaf state below it; nothing else. *)
Theorem flattening_is_inheritance (a : Actor) (t : Transition) :
  IsComposed a = false -> StateIndex a <> [] ->
  Transitions a `prefix_of` FlattenedTransitions a /\
  (t ∈ FlattenedTransitions a <->
   t ∈ Transitions a \/
   exists root sup t0 leaf, root ∈ Roots a /\ within root sup /\ IsLeaf sup = false /\
     t0 ∈ nodeTransitions sup /\ within sup leaf /\ IsLeaf leaf = true /\
     t = retarget t0 (nodeName leaf)).
Proof.
  intros Hc Hi. unfold FlattenedTransitions. rewrite Hc. destruct (StateIndex a); [done |].
  split; [by apply prefix_app_r |]. rewrite elem_of_app, elem_of_flat_map.
  split; (intros [?|Hx]; [by left | right]).
  - destruct Hx as (root & Hr & Ht). apply expand_spec in Ht as (sup & t0 & leaf & Hx). by exists root, sup, t0, leaf.
  - destruct Hx as (root & sup & t0 & leaf & Hr & Hx). exists root. split; [done |]. apply expand_spec. eauto.
Qed.

(** The executor implements the transition table: a machine made for an
    actor accepts a message (or a named event) exactly when, in the table's
    order, every triggered transition before some [t] is blocked by its
    registered guard and [t]'s guard and action succeed; it then moves to
    [t]'s target with the context the action left.  On any error the machine
    is unchanged. *)
Theorem executor_takes_first_enabled {C} (p : Protocol) (a : Actor) (m : Machine C)
    (order : list (State * EventID * list Transition)) (key : string) (ctx : C) :
  built p a m ->
  (forall m' ctx', HandleMessage m key ctx = (m', ctx', None) <->
     exists l1 t l2, onMessage a (state m) key = l1 ++ t :: l2 /\ Forall (blocked m ctx) l1 /\
       taken m ctx t ctx' /\ m' = with_state m (To t)) /\
  (key <> EmptyString -> forall m' ctx', Step m order key ctx = (m', ctx', None) <->
     exists l1 t l2, onEvent a (state m) key = l1 ++ t :: l2 /\ Forall (blocked m ctx) l1 /\
       taken m ctx t ctx' /\ m' = with_state m (To t)) /\
  (forall m' ctx' e, HandleMessage m key ctx = (m', ctx', Some e) -> m' = m) /\
  (forall m' ctx' e, Step m order key ctx = (m', ctx', Some e) -> m' = m).
Proof.
  intros Hb. destruct (built_index p a m (state m) key Hb) as [Hr Hi].
  unfold HandleMessage, Step. rewrite Hr, Hi. split_and!.
  - intros m' ctx'. destruct (onMessage a (state m) key); [| apply tryTransitions_ok].
    split; [done |]. intros (l1 & t & l2 & He & _). by destruct l1.
  - intros Hk m' ctx'. rewrite bool_decide_false by done. cbn [negb].
    destruct (onEvent a (state m) key); [| apply tryTransitions_ok].
    split; [done |]. intros (l1 & t & l2 & He & _). by destruct l1.
  - intros m' ctx' e. destruct (onMessage _ _ _); [by intros [= <- _ _] |]. apply tryTransitions_err.
  - intros m' ctx' e. repeat case_match; try (by intros [= <- _ _]); apply tryTransitions_err.
Qed.

(** C38. A valid protocol runs well typed: a machine of one of its actors,
    after any use, is in the actor's initial state or in one of the states
    [collectStates] lists (each once), and if every declared guard is
    registered no call ever fails for a missing guard. *)
Theorem validated_machine_well_typed {C} (p : Protocol) (n : string) (m : Machine C) :
  Validate p = None -> used p n m -> (forall g, g ∈ guardIDs p -> guards m !! g <> None) ->
  exists a, a ∈ Actors p /\ Name a = n /\ NoDup (collectStates a) /\
    (state m = initialState a \/ state m ∈ collectStates a) /\
    forall order key ctx g, order ≡ₚ map_to_list (internalIndex m) ->
      (HandleMessage m key ctx).2 <> Some (unregisteredGuard g) /\
      (Step m order key ctx).2 <> Some (unregisteredGuard g).
Proof.
  intros Hv Hu Hg. destruct (used_inv p n m Hu) as (a & Hb & Hna & Hs). exists a.
  destruct (collectStates_spec a) as [Hnd Hcs]. pose proof Hb as (Ha & _ & _). split_and!; try done.
  - destruct Hs as [?|(t & Ht & ->)]; [by left | right]. apply Hcs. eauto.
  - intros order key ctx g Ho.
    assert (Hok : forall l, (forall t, t ∈ l -> t ∈ FlattenedTransitions a) ->
              (tryTransitions m l ctx).2 <> Some (unregisteredGuard g)).
    { intros l Hl. apply try_guards_registered. intros t Ht.
      destruct (Validate_guards p a t Hv Ha (Hl t Ht)); auto. }
    destruct (calls_try_actor_transitions p a m order key ctx Hb Ho)
      as [(l1 & Hl1 & H1) (l2 & Hl2 & H2)].
    split; [destruct H1 as [-> | (f & r & ->)] | destruct H2 as [-> | (f & r & ->)]]; auto; done.
Qed.

(** ** Witnesses *)

Definition edge_to (f t : State) (on : Trigger) (g : GuardID) : Transition :=
  {| From := f; To := t; On := on; Guard := g; Do := EmptyString; Fairness := WeakFair;
     Sends := []; Updates := []; Emits := [] |}.

(** Idle -> Up on "hello" (guarded), with a superstate "Top" over both that
    absorbs "ping". *)
Definition leafIdle : StateNode := Node 1 (Some 0) "Idle" [] [].
Definition leafUp : StateNode := Node 2 (Some 0) "Up" [] [].
Definition nodeTop : StateNode :=
  Node 0 None "Top" [leafIdle; leafUp] [edge_to "Top" "Top" (Recv "ping") EmptyString].
Definition peerActor : Actor :=
  {| Name := "peer"; Initial := "Idle"; Transitions := [edge_to "Idle" "Up" (Recv "hello") "fresh"];
     StateIndex := [("Top", nodeTop)]; Roots := [nodeTop]; Machines := []; Routes := [] |}.
Definition tinyProtocol : Protocol :=
  {| pName := "tiny"; Actors := [peerActor];
     Messages := [{| msgType := "hello"; msgFrom := "peer"; msgTo := "peer"; msgDesc := EmptyString |};
                  {| msgType := "ping"; msgFrom := "peer"; msgTo := "peer"; msgDesc := EmptyString |}];
     Events := []; Commands := []; Structs := []; Vars := [];
     Guards := [{| guardID := "fresh"; guardExpr := "TRUE" |}];
     Operators := []; AdvActions := []; AdvGuard := EmptyString; Phases := []; WireConsts := [];
     Constants := []; Properties := []; ChannelBound := 0; OneShot := false |}.
Definition tinyMachine : Machine bool :=
  RegisterGuard (match NewMachine (C := bool) tinyProtocol "peer" with
                 | Ok m => m
                 | Err _ => {| actor := peerActor; state := EmptyString; guards := ∅; actions := ∅;
                               recvIndex := ∅; internalIndex := ∅ |}
                 end) "fresh" (fun b => b).

Lemma tinyMachine_used : used tinyProtocol "peer" tinyMachine.
Proof. apply used_guard, used_new. reflexivity. Qed.

Lemma flattening_is_inheritance_witness :
  retarget (edge_to "Top" "Top" (Recv "ping") EmptyString) "Up" ∈ FlattenedTransitions peerActor.
Proof.
  apply (flattening_is_inheritance peerActor); [done | done |]. right.
  exists nodeTop, nodeTop, (edge_to "Top" "Top" (Recv "ping") EmptyString), leafUp.
  split_and!; try done; [left | constructor | left |].
  apply (within_child nodeTop leafUp leafUp); [right; left | constructor].
Defined.

Lemma executor_takes_first_enabled_witness :
  HandleMessage tinyMachine "hello" true = (with_state tinyMachine "Up", true, None).
Proof.
  apply (executor_takes_first_enabled tinyProtocol peerActor tinyMachine [] "hello" true).
  - split_and!; [left | done | done].
  - exists [], (edge_to "Idle" "Up" (Recv "hello") "fresh"), [].
    split_and!; [done | constructor | | done].
    split; [right; by exists (fun b => b) | by left].
Defined.

Lemma validated_machine_well_typed_witness :
  (HandleMessage tinyMachine "hello" false).2 <> Some (unregisteredGuard "fresh").
Proof.
  destruct (validated_machine_well_typed tinyProtocol "peer" tinyMachine) as (a & _ & _ & _ & _ & H).
  - vm_compute. reflexivity.
  - apply tinyMachine_used.
  - intros g Hg. apply list_elem_of_singleton in Hg as ->. done.
  - apply (H (map_to_list (internalIndex tinyMachine)) "hello" false "fresh"). done.
Defined.
