(* ===== verification/GoGen.v ===== *)
(** * GoGen: the Go code generator and the meaning of what it writes (protocol/gogen.go)

    [ExportGo] prints, for every actor of a protocol, a typed state machine:
    a struct with the actor's variables and three methods [HandleMessage],
    [Step] and [HandleEvent], each one [switch] with a case per transition.
    Here the generator produces that code as syntax trees ([GoCase], [GoStmt]:
    one constructor per shape of line it prints, identifiers included), the
    trees are elaborated against the constants it declares, and the elaborated
    cases run on a machine with typed variables, host callbacks and 64-bit
    integers.  The theorem of this file relates every generated machine to
    the run-time executor of [Machine].

    Identifiers, expressions and literals are ASCII here, as in every protocol
    of the repository. *)

From Stdlib Require Import ZArith Lia Strings.String Strings.Ascii.
From stdpp Require Import base gmap strings pretty list fin_maps.
From S2P Require Import Prelude Machine.

(** ** Strings of the Go standard library *)

Definition dquote : string := String (ascii_of_nat 34) EmptyString.

(** [strings.HasPrefix] and [strings.CutPrefix]. *)
Fixpoint CutPrefix (s pre : string) : option string :=
  match pre, s with
  | EmptyString, _ => Some s
  | String a pre, String b s => if bool_decide (a = b) then CutPrefix s pre else None
  | String _ _, EmptyString => None
  end.
Definition HasPrefix (s pre : string) : bool :=
  match CutPrefix s pre with Some _ => true | None => false end.

Fixpoint srev (acc s : string) : string :=
  match s with
  | EmptyString => acc
  | String a s => srev (String a acc) s
  end.
Definition reverse (s : string) : string := srev EmptyString s.

Definition HasSuffix (s suf : string) : bool := HasPrefix (reverse s) (reverse suf).

(** [strings.TrimSpace] on ASCII. *)
Definition isSpace (a : ascii) : bool :=
  let n := nat_of_ascii a in ((9 <=? n)%nat && (n <=? 13)%nat) || (n =? 32)%nat.
Fixpoint trimLeft (s : string) : string :=
  match s with
  | String a s' => if isSpace a then trimLeft s' else s
  | EmptyString => EmptyString
  end.
Definition TrimSpace (s : string) : string := reverse (trimLeft (reverse (trimLeft s))).

Definition isDigit (a : ascii) : bool :=
  let n := nat_of_ascii a in (48 <=? n)%nat && (n <=? 57)%nat.

(** The longest prefix of digits, as a number. *)
Fixpoint scanDigits (acc : Z) (s : string) : Z :=
  match s with
  | String a s' => if isDigit a then scanDigits (acc * 10 + Z.of_nat (nat_of_ascii a - 48)) s' else acc
  | EmptyString => acc
  end.

(** A Go [int] is 64 bits wide. *)
Definition goInt (z : Z) : Z := ((z + 2 ^ 63) mod 2 ^ 64 - 2 ^ 63)%Z.

(** [fmt.Sscanf(s, "%d", &n)] on a string that does not start with a space:
    an optional sign and at least one digit; what follows is not read, and a
    number that does not fit an [int] is an error. *)
Definition Sscanf_d (s : string) : option Z :=
  let '(sign, body) :=
    match s with
    | String "+" b => (1, b)%Z
    | String "-" b => (-1, b)%Z
    | _ => (1, s)%Z
    end in
  match body with
  | String a _ =>
      if isDigit a then
        let n := (sign * scanDigits 0 body)%Z in
        if bool_decide (goInt n = n) then Some n else None
      else None
  | EmptyString => None
  end.

(** [strings.ReplaceAll] for a pattern that is not empty: [fuel] is more than
    the length of the string. *)
Fixpoint replaceAll (fuel : nat) (s old new : string) : string :=
  match fuel with
  | O => s
  | S fuel =>
      match CutPrefix s old with
      | Some rest => new +:+ replaceAll fuel rest old new
      | None =>
          match s with
          | EmptyString => EmptyString
          | String a s => String a (replaceAll fuel s old new)
          end
      end
  end.
Definition ReplaceAll (s old new : string) : string := replaceAll (S (String.length s)) s old new.

(** [strings.Contains] *)
Fixpoint Contains (s sub : string) : bool :=
  HasPrefix s sub || match s with EmptyString => false | String _ s => Contains s sub end.

(** ** Identifiers *)

Fixpoint camel (upper : bool) (s : string) : string :=
  match s with
  | EmptyString => EmptyString
  | String r s =>
      if bool_decide (r = "_"%char) || bool_decide (r = "-"%char) || bool_decide (r = " "%char)
      then camel true s
      else String (if upper then toUpper r else r) (camel false s)
  end.
Definition goCamel (s : string) : string := camel true s.

Definition goConstPrefix (actor : string) : string :=
  if bool_decide (actor = "ios") then "App"
  else if bool_decide (actor = "cli") then "CLI"
  else match actor with
       | EmptyString => EmptyString
       | String r s => String (toUpper r) s
       end.

(** ** Expressions *)

Definition goSimpleLiteral (expr : string) : option string :=
  let expr := TrimSpace expr in
  if bool_decide (expr = "TRUE") then Some "true"
  else if bool_decide (expr = "FALSE") then Some "false"
  else if HasPrefix expr dquote && HasSuffix expr dquote then Some expr
  else match Sscanf_d expr with
       | Some n => Some (pretty n)
       | None => None
       end.

(** What [goSelfUpdate] recognises; its text is [printExpr] of this. *)
Inductive GoExpr :=
  | GLit (text : string)
  | GSelf (field op : string) (n : Z).

Definition printExpr (e : GoExpr) : string :=
  match e with
  | GLit text => text
  | GSelf field op n => "m." +:+ field +:+ op +:+ pretty n
  end.

Fixpoint goSelfUpdate_loop (ops : list string) (varName expr : string) : option GoExpr :=
  match ops with
  | [] => None
  | op :: ops =>
      match CutPrefix expr (varName +:+ op) with
      | Some rest =>
          match Sscanf_d (TrimSpace rest) with
          | Some n => Some (GSelf (goCamel varName) op n)
          | None => goSelfUpdate_loop ops varName expr
          end
      | None => goSelfUpdate_loop ops varName expr
      end
  end.
Definition goSelfUpdate (varName expr : string) : option GoExpr :=
  goSelfUpdate_loop [" + "; " - "] varName (TrimSpace expr).

Definition goInitialValue (v : VarDef) : string :=
  match goSimpleLiteral (varInitial v) with
  | Some lit => lit
  | None =>
      if bool_decide (varType v = VarInt) then "0"
      else if bool_decide (varType v = VarBool) then "false"
      else if bool_decide (varType v = VarSetString) then EmptyString
      else dquote +:+ dquote
  end.

Definition goType (t : VarType) : string :=
  if bool_decide (t = VarInt) then "int"
  else if bool_decide (t = VarBool) then "bool"
  else if bool_decide (t = VarSetString) then "frozen.Set[string]"
  else "string".

(** ** The code it writes *)

(** The lines of a case body:
    [if fn := m.Actions[c]; fn != nil { if err := fn(); err != nil { return .., err } }],
    [m.F = e], [if m.OnChange != nil { m.OnChange(v) }], a comment,
    [m.State = c]. *)
Inductive GoStmt :=
  | GAction (const : string)
  | GAssign (field : string) (e : GoExpr)
  | GNotify (var : string)
  | GComment (text : string)
  | GState (const : string).

(** The last line of a case: [return true, nil], or the commands. *)
Inductive GoRet :=
  | GTrue
  | GCmds (consts : list string).

(** [case m.State == s && on == k && m.Guards[g] != nil && m.Guards[g]():] *)
Record GoCase := {
  gcState : string;
  gcOn : string;
  gcGuard : option string;
  gcBody : list GoStmt;
  gcRet : GoRet
}.

Definition goUpdate (u : VarUpdate) : list GoStmt :=
  match goSimpleLiteral (Expr u) with
  | Some lit => [GAssign (goCamel (Var u)) (GLit lit); GNotify (Var u)]
  | None =>
      match goSelfUpdate (Var u) (Expr u) with
      | Some e => [GAssign (goCamel (Var u)) e; GNotify (Var u)]
      | None => [GComment (Var u +:+ ": " +:+ Expr u +:+ " (set by action)")]
      end
  end.

Definition writeGoTransitionBody (t : Transition) (stateType cPrefix : string) : list GoStmt :=
  (if bool_decide (Do t = EmptyString) then [] else [GAction (cPrefix +:+ "Action" +:+ goCamel (Do t))])
  ++ flat_map goUpdate (Updates t)
  ++ [GState (stateType +:+ goCamel (To t))].

(** [writeGoEventTransitionBody]: the same lines, then the commands. *)
Definition writeGoEventTransitionBody (t : Transition) (stateType cPrefix : string)
    : list GoStmt * GoRet :=
  (writeGoTransitionBody t stateType cPrefix,
   GCmds (map (fun cmd => cPrefix +:+ "Cmd" +:+ goCamel cmd) (Emits t))).

Definition goGuard (cPrefix : string) (t : Transition) : option string :=
  if bool_decide (Guard t = EmptyString) then None
  else Some (cPrefix +:+ "Guard" +:+ goCamel (Guard t)).

(** The loops of [ExportGo] that write the three methods, over the flattened
    transitions of an actor (or, for [HandleMessage] and [Step], of a
    sub-machine of a composed actor). *)
Definition goHandleMessage (stateType cPrefix : string) (ts : list Transition) : list GoCase :=
  flat_map (fun t =>
    if negb (bool_decide (Kind (On t) = TriggerRecv)) then [] else
    [{| gcState := stateType +:+ goCamel (From t);
        gcOn := cPrefix +:+ "Msg" +:+ goCamel (Msg (On t));
        gcGuard := goGuard cPrefix t;
        gcBody := writeGoTransitionBody t stateType cPrefix;
        gcRet := GTrue |}]) ts.

Definition goStep (stateType cPrefix : string) (ts : list Transition) : list GoCase :=
  flat_map (fun t =>
    if negb (bool_decide (Kind (On t) = TriggerInternal)) then [] else
    [{| gcState := stateType +:+ goCamel (From t);
        gcOn := cPrefix +:+ "Event" +:+ goCamel (Desc (On t));
        gcGuard := goGuard cPrefix t;
        gcBody := writeGoTransitionBody t stateType cPrefix;
        gcRet := GTrue |}]) ts.

Definition goHandleEvent (stateType cPrefix : string) (ts : list Transition) : list GoCase :=
  map (fun t =>
    let '(body, ret) := writeGoEventTransitionBody t stateType cPrefix in
    {| gcState := stateType +:+ goCamel (From t);
       gcOn := if bool_decide (Kind (On t) = TriggerRecv)
               then cPrefix +:+ "EventRecv" +:+ goCamel (Msg (On t))
               else cPrefix +:+ "Event" +:+ goCamel (Desc (On t));
       gcGuard := goGuard cPrefix t;
       gcBody := body;
       gcRet := ret |}) ts.

(** ** The constants it declares *)

(** [sortedKeys] of a set of strings filled from a list. *)
Fixpoint insertKey (k : string) (keys : list string) : list string :=
  match keys with
  | [] => [k]
  | k' :: rest =>
      match String.compare k k' with
      | Lt => k :: keys
      | Eq => keys
      | Gt => k' :: insertKey k rest
      end
  end.
Definition sortedKeys (l : list string) : list string := foldr insertKey [] l.

(** A declared constant: its identifier and its string value. *)
Abbreviation GoConst := (string * string)%type.

Definition stateConsts (cPrefix : string) (a : Actor) : list GoConst :=
  if IsComposed a then
    flat_map (fun m =>
      map (fun s => (cPrefix +:+ goConstPrefix (Name a) +:+ goCamel (smName m) +:+ s, s))
        (collectSubMachineStates m)) (Machines a)
  else map (fun s => (cPrefix +:+ goConstPrefix (Name a) +:+ s, s)) (collectStates a).

Definition msgConsts (cPrefix : string) (p : Protocol) : list GoConst :=
  map (fun m => (cPrefix +:+ "Msg" +:+ goCamel (msgType m), msgType m)) (Messages p).

Definition guardConsts (cPrefix : string) (p : Protocol) : list GoConst :=
  map (fun g => (cPrefix +:+ "Guard" +:+ goCamel (guardID g), guardID g)) (Guards p).

Definition allTransitions (p : Protocol) : list Transition := flat_map FlattenedTransitions (Actors p).

Definition actionKeys (p : Protocol) : list string :=
  sortedKeys (flat_map (fun t => if bool_decide (Do t = EmptyString) then [] else [Do t]) (allTransitions p)).
Definition actionConsts (cPrefix : string) (p : Protocol) : list GoConst :=
  map (fun i => (cPrefix +:+ "Action" +:+ goCamel i, i)) (actionKeys p).

(** Internal events, receipts, declared events, and the events that
    sub-machines report, accept or are routed. *)
Definition transitionEvent (t : Transition) : EventID :=
  match Kind (On t) with
  | TriggerInternal => Desc (On t)
  | TriggerRecv => "recv_" +:+ Msg (On t)
  end.
Definition eventKeys (p : Protocol) : list string :=
  sortedKeys (map transitionEvent (allTransitions p)
    ++ map eventID (Events p)
    ++ flat_map (fun a =>
         flat_map (fun m => smReports m ++ smAccepts m) (Machines a)
         ++ flat_map (fun r => rtOn r :: map rsEvent (rtSends r)) (Routes a)) (Actors p)).
Definition eventConsts (cPrefix : string) (p : Protocol) : list GoConst :=
  map (fun i => (cPrefix +:+ "Event" +:+ goCamel i, i)) (eventKeys p).

Definition cmdConsts (cPrefix : string) (p : Protocol) : list GoConst :=
  map (fun c => (cPrefix +:+ "Cmd" +:+ goCamel (cmdID c), cmdID c)) (Commands p).

(** Every string constant of the generated file. *)
Definition goConsts (cPrefix : string) (p : Protocol) : list GoConst :=
  flat_map (stateConsts cPrefix) (Actors p) ++ msgConsts cPrefix p ++ guardConsts cPrefix p
  ++ actionConsts cPrefix p ++ eventConsts cPrefix p ++ cmdConsts cPrefix p.

Definition resolve (consts : list GoConst) (ident : string) : option string :=
  snd <$> find (fun c => bool_decide (c.1 = ident)) consts.

(** ** The meaning of the code *)

(** The values that generated assignments store. *)
Inductive goValue :=
  | VInt (z : Z)
  | VBool (b : bool)
  | VStr (s : string).

Fixpoint plain (s : string) : bool :=
  match s with
  | EmptyString => true
  | String a s => negb (bool_decide (a = "\"%char)) && negb (bool_decide (String a EmptyString = dquote)) && plain s
  end.

(** The value of a Go literal: a boolean, a decimal integer, or an
    interpreted string literal without escapes. *)
Definition literalValue (text : string) : option goValue :=
  if bool_decide (text = "true") then Some (VBool true)
  else if bool_decide (text = "false") then Some (VBool false)
  else match CutPrefix text dquote with
       | Some rest =>
           match CutPrefix (reverse rest) dquote with
           | Some inner => if plain inner then Some (VStr (reverse inner)) else None
           | None => None
           end
       | None => VInt <$> Sscanf_d text
       end.

(** A wire constant: its identifier, its declared type (empty when untyped)
    and its value. *)
Definition GoWireConst : Type := string * string * goValue.

Definition wireInt (v : wireValue) : Z :=
  match v with
  | WInt n => n
  | WFloat trunc => trunc
  | WString _ | WBool _ => 0
  end.

(** The constants of the wire section in their order; a constant of another
    type, or a string constant whose value is not a string, declares nothing
    the Go compiler reads as a string. *)
Definition goWireConst (wc : WireConstant) : list GoWireConst :=
  let name := goCamel (wcName wc) in
  if bool_decide (wcType wc = "byte") then [(name, "byte", VInt (wireInt (wcValue wc)))]
  else if bool_decide (wcType wc = "int") then [(name, EmptyString, VInt (wireInt (wcValue wc)))]
  else if bool_decide (wcType wc = "duration_ms") then [(name, EmptyString, VInt (wireInt (wcValue wc)))]
  else if bool_decide (wcType wc = "string") then
    match wcValue wc with WString s => [(name, EmptyString, VStr s)] | _ => [] end
  else [].
Definition goWireConsts (p : Protocol) : list GoWireConst := flat_map goWireConst (WireConsts p).

(** The declared structs with their fields' types. *)
Definition goStructs (p : Protocol) : list (string * list (string * string)) :=
  map (fun sd => (goCamel (structName sd),
                  map (fun f => (goCamel (fldName f), goType (fldType f))) (structFields sd))) (Structs p).

(** The typed variable fields of a generated struct: what an assignment of a
    value to a field by name does, and the integer fields; [None] when the Go
    compiler rejects the assignment. *)
Class GoVars (V : Type) := {
  goSet : string -> goValue -> option (V -> V);
  goInt_field : string -> option ((V -> Z) * (Z -> V -> V))
}.

(** A variable field of a generated struct, by its Go type. *)
Inductive fieldOps (V : Type) :=
  | FInt (get : V -> Z) (set : Z -> V -> V)
  | FBool (get : V -> bool) (set : bool -> V -> V)
  | FString (get : V -> string) (set : string -> V -> V)
  | FSet (get : V -> gset string) (set : gset string -> V -> V).
Arguments FInt {V} get set.
Arguments FBool {V} get set.
Arguments FString {V} get set.
Arguments FSet {V} get set.

Definition fieldNamed {V} (fields : list (string * fieldOps V)) (name : string) : option (fieldOps V) :=
  snd <$> find (fun f => bool_decide (f.1 = name)) fields.

(** The assignments a struct with these fields admits. *)
Definition goFields {V} (fields : list (string * fieldOps V)) : GoVars V :=
  {| goSet name v :=
       match fieldNamed fields name, v with
       | Some (FInt _ set), VInt z => Some (set z)
       | Some (FBool _ set), VBool b => Some (set b)
       | Some (FString _ set), VStr s => Some (set s)
       | _, _ => None
       end;
     goInt_field name :=
       match fieldNamed fields name with
       | Some (FInt get set) => Some (get, set)
       | _ => None
       end |}.

(** The statements of a case body once identifiers are resolved: the action
    call, [m.F = literal], [m.F = m.F + n], the notification, [m.State = s]. *)
Inductive stmt :=
  | Act (i : ActionID)
  | Set_ (field : string) (x : goValue)
  | Incr (field : string) (n : Z)
  | Changed (var : string)
  | Goto (s : State).

(** A case of the [switch]; [R] is the first result of the method. *)
Record Case (R : Type) := {
  cState : State;
  cOn : string;
  cGuard : option GuardID;
  cBody : list stmt;
  cRet : R
}.

(** [m.F = x] and [m.F = m.F + n] on the variables; the assignments of a
    program that compiles exist. *)
Definition assign {V} `{!GoVars V} (field : string) (x : goValue) : V -> V := default id (goSet field x).
Definition increment {V} `{!GoVars V} (field : string) (n : Z) (v : V) : V :=
  match goInt_field field with
  | Some (get, set) => set (goInt (get v + n)) v
  | None => v
  end.

Section Meaning.
Context {V H : Type} `{!GoVars V}.

(** A generated machine's fields [State] and variables, and its host. *)
Record World := {
  wState : State;
  wVars : V;
  wHost : H
}.

Definition withState (w : World) (s : State) : World :=
  {| wState := s; wVars := wVars w; wHost := wHost w |}.
Definition withVars (w : World) (f : V -> V) : World :=
  {| wState := wState w; wVars := f (wVars w); wHost := wHost w |}.

(** The callback fields: [Guards], [Actions] and [OnChange]. *)
Record Callbacks := {
  cbGuards : gmap GuardID (GuardFunc (C := World));
  cbActions : gmap ActionID (ActionFunc (C := World));
  cbOnChange : option (string -> World -> World)
}.

Fixpoint exec (cb : Callbacks) (body : list stmt) (w : World) : World * option error :=
  match body with
  | [] => (w, None)
  | Act i :: body =>
      match cbActions cb !! i with
      | None => exec cb body w
      | Some fn =>
          match fn w with
          | (w, Some err) => (w, Some err)
          | (w, None) => exec cb body w
          end
      end
  | Set_ field x :: body => exec cb body (withVars w (assign field x))
  | Incr field n :: body => exec cb body (withVars w (increment field n))
  | Changed v :: body =>
      exec cb body (match cbOnChange cb with None => w | Some f => f v w end)
  | Goto s :: body => exec cb body (withState w s)
  end.

Definition guardHolds (cb : Callbacks) (g : option GuardID) (w : World) : bool :=
  match g with
  | None => true
  | Some g => match cbGuards cb !! g with None => false | Some fn => fn w end
  end.

Definition selects {R} (cb : Callbacks) (on : string) (w : World) (c : Case R) : bool :=
  bool_decide (wState w = cState _ c) && bool_decide (on = cOn _ c) && guardHolds cb (cGuard _ c) w.

(** [switch { cases }; return zero, nil]: the first selected case runs; an
    action's error returns [zero] with it. *)
Fixpoint switch {R} (zero : R) (cases : list (Case R)) (cb : Callbacks) (on : string) (w : World)
    : World * R * option error :=
  match cases with
  | [] => (w, zero, None)
  | c :: cases =>
      if selects cb on w c then
        match exec cb (cBody _ c) w with
        | (w, None) => (w, cRet _ c, None)
        | (w, Some err) => (w, zero, Some err)
        end
      else switch zero cases cb on w
  end.

End Meaning.
Arguments World : clear implicits.
Arguments Callbacks : clear implicits.

(** ** Elaboration: identifiers to values, assignments to typed fields *)

Section Elaboration.
(** The declared constants, and the variable fields of the struct with their types. *)
Context (consts : list GoConst) (fields : list (string * string)).

Definition declaredType (field : string) : option string :=
  snd <$> find (fun f => bool_decide (f.1 = field)) fields.

Definition valueType (x : goValue) : string :=
  match x with
  | VInt _ => "int"
  | VBool _ => "bool"
  | VStr _ => "string"
  end.

(** [m.field = e], when the field exists and has the type of [e]. *)
Definition evalAssign (field : string) (e : GoExpr) : option stmt :=
  match e with
  | GLit text =>
      x ← literalValue text;
      if bool_decide (declaredType field = Some (valueType x)) then Some (Set_ field x) else None
  | GSelf field' op n =>
      if bool_decide (field' = field) && bool_decide (declaredType field = Some "int") then
        if bool_decide (op = " + ") then Some (Incr field n)
        else if bool_decide (op = " - ") then Some (Incr field (- n)) else None
      else None
  end.

Definition elabStmt (s : GoStmt) : option (list stmt) :=
  match s with
  | GAction c => i ← resolve consts c; Some [Act i]
  | GAssign field e => a ← evalAssign field e; Some [a]
  | GNotify v => Some [Changed v]
  | GComment _ => Some []
  | GState c => s ← resolve consts c; Some [Goto s]
  end.

Definition elabBody (b : list GoStmt) : option (list stmt) := mjoin <$> mapM elabStmt b.

Definition elabRet (r : GoRet) : option (list CmdID) :=
  match r with
  | GTrue => None
  | GCmds cs => mapM (resolve consts) cs
  end.

Definition retTrue (r : GoRet) : option bool := match r with GTrue => Some true | GCmds _ => None end.

Definition elabCase {R} (ret : GoRet -> option R) (c : GoCase) : option (Case R) :=
  s ← resolve consts (gcState c);
  on ← resolve consts (gcOn c);
  g ← match gcGuard c with
      | None => Some None
      | Some g => Some <$> resolve consts g
      end;
  b ← elabBody (gcBody c);
  r ← ret (gcRet c);
  Some {| cState := s; cOn := on; cGuard := g; cBody := b; cRet := r |}.

(** The methods of a generated machine, [None] when the generated code does
    not compile. *)
Definition HandleMessageCases (stateType cPrefix : string) (ts : list Transition) : option (list (Case bool)) :=
  mapM (elabCase retTrue) (goHandleMessage stateType cPrefix ts).
Definition StepCases (stateType cPrefix : string) (ts : list Transition) : option (list (Case bool)) :=
  mapM (elabCase retTrue) (goStep stateType cPrefix ts).
Definition HandleEventCases (stateType cPrefix : string) (ts : list Transition)
    : option (list (Case (list CmdID))) :=
  mapM (elabCase elabRet) (goHandleEvent stateType cPrefix ts).
End Elaboration.

(** ** The protocol table it writes *)

(** [writeGoTransitionLiteral]: [Fairness] and [Emits] are not written. *)
Definition writeGoTransitionLiteral (t : Transition) : Transition :=
  {| From := From t; To := To t;
     On := match Kind (On t) with
           | TriggerRecv => Recv (Msg (On t))
           | TriggerInternal => Internal (Desc (On t))
           end;
     Guard := Guard t; Do := Do t; Fairness := WeakFair; Sends := Sends t; Updates := Updates t; Emits := [] |}.

Definition goActorLiteral (a : Actor) : Actor :=
  if IsComposed a then
    {| Name := Name a; Initial := EmptyString; Transitions := []; StateIndex := []; Roots := [];
       Machines := map (fun sm =>
         {| smName := smName sm; smInitial := smInitial sm;
            smTransitions := map writeGoTransitionLiteral (SubMachine_FlattenedTransitions sm);
            smStateIndex := []; smRoots := []; smReports := []; smAccepts := [] |}) (Machines a);
       Routes := Routes a |}
  else
    {| Name := Name a; Initial := Initial a;
       Transitions := map writeGoTransitionLiteral (FlattenedTransitions a);
       StateIndex := []; Roots := []; Machines := []; Routes := [] |}.

(** The value of the literal [ExportGo] prints for [p]: what the generated
    constructor function returns.  Types of variables are not written, and a
    property is written as an invariant unless it is a liveness property. *)
Definition goTable (p : Protocol) : Protocol :=
  {| pName := pName p;
     Actors := map goActorLiteral (Actors p);
     Messages := Messages p;
     Events := []; Commands := []; Structs := [];
     Vars := map (fun v => {| varName := varName v; varType := EmptyString; varInitial := varInitial v;
                              varDesc := varDesc v |}) (Vars p);
     Guards := Guards p;
     Operators := Operators p;
     AdvActions := AdvActions p;
     AdvGuard := EmptyString; Phases := []; WireConsts := []; Constants := [];
     Properties := map (fun pr =>
       {| propName := propName pr;
          propKind := match propKind pr with Liveness => Liveness | _ => Invariant end;
          propExpr := propExpr pr; propFromExpr := EmptyString; propToExpr := EmptyString;
          propDesc := propDesc pr |}) (Properties p);
     ChannelBound := ChannelBound p;
     OneShot := OneShot p |}.

(** The variable fields of an actor's struct with their types, and the
    constructor's initial values: the declared variables its transitions
    update, in declaration order. *)
Definition goStructVars (p : Protocol) (ts : list Transition) : list VarDef :=
  filter (fun v => varName v ∈ flat_map (fun t => map Var (Updates t)) ts) (Vars p).
Definition goStructFields (p : Protocol) (ts : list Transition) : list (string * string) :=
  map (fun v => (goCamel (varName v), goType (varType v))) (goStructVars p ts).
Definition goConstructor (p : Protocol) (ts : list Transition) : list (string * string) :=
  flat_map (fun v =>
    if bool_decide (goInitialValue v = EmptyString) then []
    else [(goCamel (varName v), goInitialValue v)]) (goStructVars p ts).

Definition fieldType {V} (f : fieldOps V) : string :=
  match f with
  | FInt _ _ => "int"
  | FBool _ _ => "bool"
  | FString _ _ => "string"
  | FSet _ _ => "frozen.Set[string]"
  end.

(** The composite literal of the constructor: fields not named keep their zero value. *)
Fixpoint goInit {V} `{!GoVars V} (v : V) (inits : list (string * string)) : option V :=
  match inits with
  | [] => Some v
  | (field, lit) :: inits => x ← literalValue lit; f ← goSet field x; goInit (f v) inits
  end.

(** [generates p cPrefix actor fields zero new hm st he]: the struct with
    these fields, the constructor returning [new] and the methods with the
    cases [hm], [st] and [he] are what [ExportGo] writes for the flat actor
    named [actor] of [p], under the prefix [cPrefix]. *)
Definition generates {V} `{!GoVars V} (p : Protocol) (cPrefix actor : string)
    (fields : list (string * fieldOps V)) (zero : V) (new : State * V)
    (hm st : list (Case bool)) (he : list (Case (list CmdID))) : Prop :=
  exists a, find (fun a => bool_decide (Name a = actor)) (Actors p) = Some a /\ IsComposed a = false /\
    let ts := FlattenedTransitions a in
    let stateType := cPrefix +:+ goConstPrefix actor in
    let consts := goConsts cPrefix p in
    goStructFields p ts = map (fun f => (f.1, fieldType f.2)) fields /\
    resolve consts (stateType +:+ goCamel (Initial a)) = Some new.1 /\
    goInit zero (goConstructor p ts) = Some new.2 /\
    HandleMessageCases consts (goStructFields p ts) stateType cPrefix ts = Some hm /\
    StepCases consts (goStructFields p ts) stateType cPrefix ts = Some st /\
    HandleEventCases consts (goStructFields p ts) stateType cPrefix ts = Some he.

(** ** Writing tables and machines down *)

(** [case m.State == s && on == k [&& guard g]: body; return ret] *)
Definition case_ {R} (s : State) (k : string) (g : option GuardID) (body : list stmt) (ret : R) : Case R :=
  {| cState := s; cOn := k; cGuard := g; cBody := body; cRet := ret |}.

(** Text with its double quotes written as single ones. *)
Fixpoint q (s : string) : string :=
  match s with
  | EmptyString => EmptyString
  | String a s => String (if bool_decide (a = "'"%char) then ascii_of_nat 34 else a) (q s)
  end.

Definition gsend (to msg : string) (fields : list (string * string)) : MsgSend :=
  {| sendTo := to; sendMsg := msg; sendFields := fields |}.
Definition gtr (from to : State) (on : Trigger) (guard : GuardID) (do : ActionID) (sends : list MsgSend)
    (updates : list (string * string)) : Transition :=
  {| From := from; To := to; On := on; Guard := guard; Do := do; Fairness := WeakFair; Sends := sends;
     Updates := map (fun u => {| Var := u.1; Expr := u.2 |}) updates; Emits := [] |}.
Definition gmsg (type from to desc : string) : Message :=
  {| msgType := type; msgFrom := from; msgTo := to; msgDesc := desc |}.
Definition gvar (name initial desc : string) : VarDef :=
  {| varName := name; varType := EmptyString; varInitial := initial; varDesc := desc |}.
Definition gguard (i : GuardID) (expr : string) : GuardDef := {| guardID := i; guardExpr := expr |}.
Definition gop (name params expr desc : string) : Operator :=
  {| opName := name; opParams := params; opExpr := expr; opDesc := desc |}.
Definition gadv (name desc code : string) : AdvAction := {| advName := name; advDesc := desc; advCode := code |}.
Definition gprop (name : string) (kind : PropertyKind) (expr desc : string) : Property :=
  {| propName := name; propKind := kind; propExpr := expr; propFromExpr := EmptyString;
     propToExpr := EmptyString; propDesc := desc |}.

(** ** Lemmas: constants *)

Lemma resolve_declared (consts : list GoConst) i v :
  NoDup consts.*1 -> (i, v) ∈ consts -> resolve consts i = Some v.
Proof.
  unfold resolve. induction consts as [|[j u] consts IH]; intros Hnd Hin; [by apply elem_of_nil in Hin |].
  apply NoDup_cons in Hnd as [Hj Hnd]. simpl. apply elem_of_cons in Hin as [[= <- <-]|Hin].
  - by rewrite bool_decide_true.
  - rewrite bool_decide_false; [by apply IH |]. simpl. intros ->. apply Hj.
    by apply (list_elem_of_fmap_2 fst) in Hin.
Qed.

Lemma insertKey_elem k keys x : x ∈ insertKey k keys <-> x = k \/ x ∈ keys.
Proof.
  induction keys as [|k' keys IH]; simpl; [by rewrite elem_of_cons |].
  destruct (String.compare k k') eqn:Hc; rewrite !elem_of_cons; [| tauto | rewrite IH; tauto].
  apply String.compare_eq_iff in Hc as ->. tauto.
Qed.

Lemma sortedKeys_elem l x : x ∈ sortedKeys l <-> x ∈ l.
Proof. induction l as [|k l IH]; simpl; [done |]. by rewrite insertKey_elem, IH, elem_of_cons. Qed.

Lemma declared_const {A} (f : A -> string) (g : A -> string) (l : list A) x :
  x ∈ l -> (f x, g x) ∈ map (fun x => (f x, g x)) l.
Proof. intros Hx. apply list_elem_of_fmap. eauto. Qed.

(** A valid protocol's message triggers are declared. *)
Lemma checkTrigger_msg msgs gs w t :
  checkTrigger msgs gs w t = None -> Kind (On t) = TriggerRecv -> Msg (On t) ∈ msgs.
Proof.
  unfold checkTrigger, declared. intros Hc Hk. rewrite (bool_decide_true _ Hk) in Hc.
  simpl in Hc. case_bool_decide; done.
Qed.

Lemma Validate_flat p a t :
  Validate p = None -> a ∈ Actors p -> IsComposed a = false -> t ∈ FlattenedTransitions a ->
  exists w, checkTrigger (map msgType (Messages p)) (guardIDs p) w t = None.
Proof.
  unfold Validate. rewrite !first_err_None, !for_each_None. intros (_ & _ & Hact) Ha Hc Ht.
  specialize (Hact a Ha). cbn beta in Hact. rewrite Hc in Hact.
  unfold validateFlat in Hact. apply first_err_None in Hact as [_ Hact].
  rewrite for_each_None in Hact. apply Hact in Ht. apply first_err_None in Ht as [Ht _]. eauto.
Qed.

(** ** The transition table as cases *)

Section Table.
Context (fields : list (string * string)).

Definition tableUpdate (u : VarUpdate) : option (list stmt) :=
  match goSimpleLiteral (Expr u) with
  | Some lit => a ← evalAssign fields (goCamel (Var u)) (GLit lit); Some [a; Changed (Var u)]
  | None =>
      match goSelfUpdate (Var u) (Expr u) with
      | Some e => a ← evalAssign fields (goCamel (Var u)) e; Some [a; Changed (Var u)]
      | None => Some []
      end
  end.

(** The updates a transition's code performs, after its action. *)
Definition tableUpdates (t : Transition) : option (list stmt) := mjoin <$> mapM tableUpdate (Updates t).

Definition tableAction (t : Transition) : list stmt :=
  if bool_decide (Do t = EmptyString) then [] else [Act (Do t)].

Definition tableCase {R} (on : Transition -> string) (ret : Transition -> R) (t : Transition) : option (Case R) :=
  us ← tableUpdates t;
  Some {| cState := From t; cOn := on t;
          cGuard := if bool_decide (Guard t = EmptyString) then None else Some (Guard t);
          cBody := tableAction t ++ us ++ [Goto (To t)]; cRet := ret t |}.

Lemma mapM_app_option {A B} (f : A -> option B) l1 l2 :
  mapM f (l1 ++ l2) = (x ← mapM f l1; y ← mapM f l2; Some (x ++ y)).
Proof.
  induction l1 as [|a l1 IH]; simpl; [by destruct (mapM f l2) |].
  destruct (f a); simpl; [| done]. rewrite IH. destruct (mapM f l1); simpl; [| done]. by destruct (mapM f l2).
Qed.

Lemma elabBody_app consts (b1 b2 : list GoStmt) :
  elabBody consts fields (b1 ++ b2) =
  (x ← elabBody consts fields b1; y ← elabBody consts fields b2; Some (x ++ y)).
Proof.
  unfold elabBody. rewrite mapM_app_option.
  destruct (mapM (elabStmt consts fields) b1) as [x|]; simpl; [| done].
  destruct (mapM (elabStmt consts fields) b2) as [y|]; simpl; [| done]. by rewrite join_app.
Qed.

Lemma elab_updates consts us :
  elabBody consts fields (flat_map goUpdate us) = (mjoin <$> mapM tableUpdate us).
Proof.
  induction us as [|u us IH]; [done |]. cbn [flat_map]. rewrite elabBody_app, IH. cbn [mapM mapM_Some].
  unfold goUpdate, tableUpdate, elabBody.
  destruct (goSimpleLiteral (Expr u)) as [lit|] eqn:Hl; [| destruct (goSelfUpdate (Var u) (Expr u)) as [e|]];
    cbn -[evalAssign]; try destruct (evalAssign _ _) as [s|]; cbn -[evalAssign]; try done;
    by destruct (mapM _ us).
Qed.
End Table.

(** ** Lemmas: the identifiers of a generated machine resolve to what they stand for *)

Lemma app_assoc_string (s1 s2 s3 : string) : (s1 +:+ s2) +:+ s3 = s1 +:+ (s2 +:+ s3).
Proof. induction s1 as [|c s1 IH]; [done |]. change (String c ((s1 +:+ s2) +:+ s3) = String c (s1 +:+ (s2 +:+ s3))). by rewrite IH. Qed.

Section Named.
Context (p : Protocol) (a : Actor) (cPrefix : string) (fields : list (string * string)).
Local Abbreviation consts := (goConsts cPrefix p).
Local Abbreviation stateType := (cPrefix +:+ goConstPrefix (Name a)).
Context (Hval : Validate p = None) (Ha : a ∈ Actors p) (Hflat : IsComposed a = false).
Context (Hnd : NoDup consts.*1) (Hcamel : forall s, s ∈ collectStates a -> goCamel s = s).

Lemma resolve_state t s : t ∈ FlattenedTransitions a -> s = From t \/ s = To t ->
  resolve consts (stateType +:+ goCamel s) = Some s.
Proof.
  intros Ht Hs. assert (Hin : s ∈ collectStates a) by (apply collectStates_spec; eauto).
  rewrite Hcamel, app_assoc_string by done. apply resolve_declared; [done |].
  unfold goConsts. apply elem_of_app. left. apply elem_of_flat_map. exists a. split; [done |].
  unfold stateConsts. rewrite Hflat. by apply (declared_const (fun s => cPrefix +:+ goConstPrefix (Name a) +:+ s) id).
Qed.

Lemma in_allTransitions t : t ∈ FlattenedTransitions a -> t ∈ allTransitions p.
Proof. intros Ht. apply elem_of_flat_map. eauto. Qed.

Lemma resolve_action t : t ∈ FlattenedTransitions a -> Do t <> EmptyString ->
  resolve consts (cPrefix +:+ "Action" +:+ goCamel (Do t)) = Some (Do t).
Proof.
  intros Ht Hd. apply resolve_declared; [done |]. unfold goConsts. rewrite !elem_of_app. do 3 right. left.
  apply (declared_const (fun i => cPrefix +:+ "Action" +:+ goCamel i) id). apply sortedKeys_elem, elem_of_flat_map.
  exists t. split; [by apply in_allTransitions |]. rewrite bool_decide_false by done. left.
Qed.

Lemma resolve_guard t : t ∈ FlattenedTransitions a -> Guard t <> EmptyString ->
  resolve consts (cPrefix +:+ "Guard" +:+ goCamel (Guard t)) = Some (Guard t).
Proof.
  intros Ht Hg. apply resolve_declared; [done |]. unfold goConsts. rewrite !elem_of_app. do 2 right. left.
  destruct (Validate_guards p a t Hval Ha Ht) as [?|Hin]; [done |].
  apply list_elem_of_fmap in Hin as (g & -> & Hin).
  by apply (declared_const (fun g => cPrefix +:+ "Guard" +:+ goCamel (guardID g)) guardID).
Qed.

Lemma resolve_msg t : t ∈ FlattenedTransitions a -> Kind (On t) = TriggerRecv ->
  resolve consts (cPrefix +:+ "Msg" +:+ goCamel (Msg (On t))) = Some (Msg (On t)).
Proof.
  intros Ht Hk. apply resolve_declared; [done |]. unfold goConsts. rewrite !elem_of_app. right. left.
  destruct (Validate_flat p a t Hval Ha Hflat Ht) as [w Hw]. apply checkTrigger_msg in Hw; [| done].
  apply list_elem_of_fmap in Hw as (m & -> & Hin).
  by apply (declared_const (fun m => cPrefix +:+ "Msg" +:+ goCamel (msgType m)) msgType).
Qed.

Lemma goCamel_recv msg : goCamel ("recv_" +:+ msg) = "Recv" +:+ goCamel msg.
Proof. done. Qed.

Lemma resolve_event t : t ∈ FlattenedTransitions a ->
  resolve consts (if bool_decide (Kind (On t) = TriggerRecv)
                  then cPrefix +:+ "EventRecv" +:+ goCamel (Msg (On t))
                  else cPrefix +:+ "Event" +:+ goCamel (Desc (On t))) = Some (transitionEvent t).
Proof.
  intros Ht.
  assert (Hi : resolve consts (cPrefix +:+ "Event" +:+ goCamel (transitionEvent t)) = Some (transitionEvent t)).
  { apply resolve_declared; [done |]. unfold goConsts. rewrite !elem_of_app. do 4 right. left.
    apply (declared_const (fun i => cPrefix +:+ "Event" +:+ goCamel i) id).
    apply sortedKeys_elem. rewrite elem_of_app. left. apply list_elem_of_fmap. exists t.
    split; [done | by apply in_allTransitions]. }
  unfold transitionEvent in *. destruct (Kind (On t)); [| done]. by rewrite goCamel_recv in Hi.
Qed.

Lemma elab_transition_body t : t ∈ FlattenedTransitions a ->
  elabBody consts fields (writeGoTransitionBody t stateType cPrefix) =
  (us ← tableUpdates fields t; Some (tableAction t ++ us ++ [Goto (To t)])).
Proof.
  intros Ht. unfold writeGoTransitionBody. rewrite !elabBody_app, elab_updates. fold (tableUpdates fields t).
  assert (Hgoto : elabBody consts fields [GState (stateType +:+ goCamel (To t))] = Some [Goto (To t)]).
  { unfold elabBody. simpl. by rewrite (resolve_state t) by auto. }
  rewrite Hgoto. unfold tableAction. case_bool_decide as Hd.
  - unfold elabBody at 1. simpl. by destruct (tableUpdates fields t).
  - unfold elabBody at 1. simpl. rewrite resolve_action by done. simpl. by destruct (tableUpdates fields t).
Qed.

Lemma elab_transition_guard t : t ∈ FlattenedTransitions a ->
  match goGuard cPrefix t with
  | None => Some None
  | Some g => Some <$> resolve consts g
  end = Some (if bool_decide (Guard t = EmptyString) then None else Some (Guard t)).
Proof.
  intros Ht. unfold goGuard. case_bool_decide as Hg; [done |]. by rewrite resolve_guard.
Qed.

(** Every case the generator writes for a transition elaborates to the case
    of the table. *)
Lemma elab_case {R} (ret : GoRet -> option R) on ident r0 r t :
  t ∈ FlattenedTransitions a -> resolve consts ident = Some (on t) -> ret r0 = Some (r t) ->
  elabCase consts fields ret
    {| gcState := stateType +:+ goCamel (From t); gcOn := ident; gcGuard := goGuard cPrefix t;
       gcBody := writeGoTransitionBody t stateType cPrefix; gcRet := r0 |} = tableCase fields on r t.
Proof.
  intros Ht Hon Hr. unfold elabCase, tableCase. cbn [gcState gcOn gcGuard gcBody gcRet].
  rewrite (resolve_state t) by auto. cbn [mbind option_bind]. rewrite Hon. cbn [mbind option_bind].
  rewrite elab_transition_guard by done. cbn [mbind option_bind]. rewrite elab_transition_body by done.
  destruct (tableUpdates fields t); [| done]. cbn [mbind option_bind]. by rewrite Hr.
Qed.

Lemma mapM_flat_map_ext {A B C} (P : A -> Prop) `{forall x, Decision (P x)} (f : A -> list B)
    (g : B -> option C) (k : A -> option C) l :
  (forall x, x ∈ l -> ~ P x -> f x = []) ->
  (forall x, x ∈ l -> P x -> exists y, f x = [y] /\ g y = k x) ->
  mapM g (flat_map f l) = mapM k (filter P l).
Proof.
  intros Hno Hyes. induction l as [|x l IH]; [done |]. cbn [flat_map]. rewrite filter_cons.
  specialize (IH (fun y Hy => Hno y (list_elem_of_further _ _ _ Hy)) (fun y Hy => Hyes y (list_elem_of_further _ _ _ Hy))).
  case_decide as HP.
  - destruct (Hyes x ltac:(left) HP) as (y & -> & Hy). simpl. rewrite Hy, IH. done.
  - rewrite (Hno x ltac:(left) HP). done.
Qed.

Lemma HandleMessageCases_table :
  HandleMessageCases consts fields stateType cPrefix (FlattenedTransitions a) =
  mapM (tableCase fields (fun t => Msg (On t)) (fun _ => true))
    (filter (fun t => Kind (On t) = TriggerRecv) (FlattenedTransitions a)).
Proof.
  unfold HandleMessageCases, goHandleMessage. apply mapM_flat_map_ext.
  - intros t _ Hk. by rewrite bool_decide_false.
  - intros t Ht Hk. rewrite bool_decide_true by done. cbn [negb]. eexists. split; [done |].
    apply elab_case; [done | by apply resolve_msg | done].
Qed.

Lemma StepCases_table :
  StepCases consts fields stateType cPrefix (FlattenedTransitions a) =
  mapM (tableCase fields (fun t => Desc (On t)) (fun _ => true))
    (filter (fun t => Kind (On t) = TriggerInternal) (FlattenedTransitions a)).
Proof.
  unfold StepCases, goStep. apply mapM_flat_map_ext.
  - intros t _ Hk. by rewrite bool_decide_false.
  - intros t Ht Hk. rewrite bool_decide_true by done. cbn [negb]. eexists. split; [done |].
    apply elab_case; [done | | done]. pose proof (resolve_event t Ht) as He.
    unfold transitionEvent in He. rewrite Hk in He. by rewrite bool_decide_false in He.
Qed.

Lemma resolve_cmds t : (forall c, c ∈ Emits t -> c ∈ map cmdID (Commands p)) ->
  elabRet consts (GCmds (map (fun cmd => cPrefix +:+ "Cmd" +:+ goCamel cmd) (Emits t))) = Some (Emits t).
Proof.
  intros Hc. cbn [elabRet]. induction (Emits t) as [|c cs IH]; [done |]. cbn [map mapM].
  assert (Hr : resolve consts (cPrefix +:+ "Cmd" +:+ goCamel c) = Some c).
  { apply resolve_declared; [done |]. unfold goConsts. rewrite !elem_of_app. do 5 right.
    pose proof (Hc c ltac:(left)) as Hin. apply list_elem_of_fmap in Hin as (d & -> & Hin).
    by apply (declared_const (fun d => cPrefix +:+ "Cmd" +:+ goCamel (cmdID d)) cmdID). }
  simpl. rewrite Hr. simpl. rewrite IH; [done |]. intros d Hd. apply Hc. by right.
Qed.

Lemma mapM_map_ext {A B C} (f : A -> B) (g : B -> option C) (k : A -> option C) l :
  (forall x, x ∈ l -> g (f x) = k x) -> mapM g (map f l) = mapM k l.
Proof.
  intros Hf. induction l as [|x l IH]; [done |]. simpl. rewrite Hf by left.
  rewrite IH; [done |]. intros y Hy. apply Hf. by right.
Qed.

Lemma HandleEventCases_table :
  (forall t c, t ∈ FlattenedTransitions a -> c ∈ Emits t -> c ∈ map cmdID (Commands p)) ->
  HandleEventCases consts fields stateType cPrefix (FlattenedTransitions a) =
  mapM (tableCase fields transitionEvent Emits) (FlattenedTransitions a).
Proof.
  intros Hem. unfold HandleEventCases, goHandleEvent. apply mapM_map_ext. intros t Ht.
  unfold writeGoEventTransitionBody. apply elab_case; [done | by apply resolve_event |].
  apply resolve_cmds. intros c Hc. by eapply Hem.
Qed.
End Named.

(** ** Lemmas: running cases *)

Section Simulation.
Context {V H : Type} `{!GoVars V} (fields : list (string * string)).

Lemma exec_app (cb : Callbacks V H) b1 b2 w :
  exec cb (b1 ++ b2) w =
  match exec cb b1 w with
  | (w', None) => exec cb b2 w'
  | (w', Some e) => (w', Some e)
  end.
Proof.
  revert w. induction b1 as [|s b1 IH]; intros w; [done |]. destruct s; cbn [app exec]; auto.
  destruct (cbActions cb !! i) as [fn|]; [| done]. by destruct (fn w) as [w' [e|]].
Qed.

(** Updates call no action, so they cannot fail. *)
Definition pureStmt (s : stmt) : Prop := match s with Act _ => False | _ => True end.

Lemma exec_pure (cb : Callbacks V H) b w : Forall pureStmt b -> (exec cb b w).2 = None.
Proof. intros Hp. revert w. induction Hp as [|s b Hs Hb IH]; intros w; [done |]. by destruct s; cbn [exec]. Qed.

Lemma evalAssign_pure field e (s : stmt) : evalAssign fields field e = Some s -> pureStmt s.
Proof.
  unfold evalAssign. destruct e as [text|field' op n].
  - destruct (literalValue text) as [v|]; simpl; [| done]. case_bool_decide; by intros [= <-].
  - repeat case_match; by intros [= <-].
Qed.

Lemma tableUpdate_pure u (us : list stmt) : tableUpdate fields u = Some us -> Forall pureStmt us.
Proof.
  unfold tableUpdate. intros Hu.
  repeat case_match; simplify_option_eq; repeat constructor; eauto using evalAssign_pure.
Qed.

Lemma tableUpdates_pure t (us : list stmt) : tableUpdates fields t = Some us -> Forall pureStmt us.
Proof.
  unfold tableUpdates. destruct (mapM (tableUpdate fields) (Updates t)) as [l|] eqn:Hm; [| done]. intros [= <-].
  apply mapM_Some in Hm. induction Hm as [|u us0 us1 l Hu _ IH]; [constructor |]. simpl.
  apply Forall_app. eauto using tableUpdate_pure.
Qed.

(** What a generated method and the executor's method for the same input do
    when the generated machine is in world [w] and the executor, with the
    same callbacks, is [m]: the code leaves [w] and returns false exactly
    when the executor refuses; an action's error stops both after it; else
    both move to the same state, the code having performed the transition's
    updates after the action. *)
Definition agrees (cb : Callbacks V H) (m : Machine (World V H)) (w : World V H)
    (gen : World V H * bool * option error) (ex : Machine (World V H) * World V H * option error) : Prop :=
  match gen with
  | (w', true, None) =>
      exists ctx t us, ex = (with_state m (wState w'), ctx, None) /\ wState w' = To t /\
        tableUpdates fields t = Some us /\ exec cb (us ++ [Goto (To t)]) ctx = (w', None)
  | (w', false, None) => w' = w /\ exists fmt args, ex = (m, w, Some (EFmt fmt args))
  | (w', false, Some e) => exists act, ex = (m, w', Some (EWrap "action %s failed: %w" [AStr act] e))
  | (_, true, Some _) => False
  end.

(** The updates and the state change of a selected transition. *)
Lemma exec_updates_goto (cb : Callbacks V H) (us : list stmt) w s :
  Forall pureStmt us -> exists w', exec cb (us ++ [Goto s]) w = (w', None) /\ wState w' = s.
Proof.
  intros Hp. rewrite exec_app. pose proof (exec_pure cb us w Hp) as He.
  destruct (exec cb us w) as [w1 e]. simpl in He. subst e. cbn [exec]. eauto.
Qed.

Lemma agrees_fire (cb : Callbacks V H) (m : Machine (World V H)) (w : World V H) t us :
  actions m = cbActions cb -> Do t = EmptyString \/ is_Some (actions m !! Do t) -> tableUpdates fields t = Some us ->
  agrees cb m w
    match exec cb (tableAction t ++ us ++ [Goto (To t)]) w with
    | (w', None) => (w', true, None)
    | (w', Some e) => (w', false, Some e)
    end
    (if bool_decide (Do t = EmptyString) then (with_state m (To t), w, None) else
     match actions m !! Do t with
     | None => (m, w, Some (EFmt "unregistered action: %s" [AStr (Do t)]))
     | Some action =>
         match action w with
         | (ctx, Some err) => (m, ctx, Some (EWrap "action %s failed: %w" [AStr (Do t)] err))
         | (ctx, None) => (with_state m (To t), ctx, None)
         end
     end).
Proof.
  intros Ha Hdo Hu. pose proof (tableUpdates_pure t us Hu) as Hp. unfold tableAction.
  case_bool_decide as Hd.
  - simpl. destruct (exec_updates_goto cb us w (To t) Hp) as (w' & He & Hs). rewrite He. simpl.
    exists w, t, us. by rewrite Hs.
  - destruct Hdo as [?|[fn Hfn]]; [done |]. cbn [app exec]. unfold ActionFunc in *. rewrite <-Ha, Hfn.
    destruct (fn w) as [ctx [e|]]; [by exists (Do t) |].
    destruct (exec_updates_goto cb us ctx (To t) Hp) as (w' & He & Hs). rewrite He. simpl.
    exists ctx, t, us. by rewrite Hs.
Qed.

Lemma agrees_try (cb : Callbacks V H) (m : Machine (World V H)) (w : World V H) on key ts cases :
  guards m = cbGuards cb -> actions m = cbActions cb ->
  (forall t, t ∈ ts -> Guard t = EmptyString \/ is_Some (guards m !! Guard t)) ->
  (forall t, t ∈ ts -> Do t = EmptyString \/ is_Some (actions m !! Do t)) ->
  mapM (tableCase fields on (fun _ => true)) ts = Some cases ->
  agrees cb m w (switch false cases cb key w)
    (tryTransitions m (filter (fun t => From t = wState w /\ on t = key) ts) w).
Proof.
  intros Hg Ha Hgs Has Hm. apply mapM_Some in Hm. revert Hgs Has.
  induction Hm as [|t c ts cases Hc _ IH]; intros Hgs Has; [by split; eauto |].
  specialize (IH (fun t Ht => Hgs t (list_elem_of_further _ _ _ Ht)) (fun t Ht => Has t (list_elem_of_further _ _ _ Ht))).
  specialize (Hgs t ltac:(left)). specialize (Has t ltac:(left)).
  unfold tableCase in Hc. destruct (tableUpdates fields t) as [us|] eqn:Hu; [| done]. injection Hc as <-.
  cbn [switch]. unfold selects at 1. cbn [cState cOn cGuard cBody cRet]. rewrite filter_cons.
  destruct (decide (From t = wState w /\ on t = key)) as [[Hs Hk]|Hno].
  2:{ destruct (bool_decide (wState w = From t) && bool_decide (key = on t)) eqn:Hsel; [| done]. bool_hyps.
      by destruct Hno. }
  rewrite (bool_decide_true (wState w = From t)), (bool_decide_true (key = on t)) by done. cbn [andb].
  pose proof (agrees_fire cb m w t us Ha Has Hu) as Hfire. cbn [tryTransitions].
  destruct (bool_decide_reflect (Guard t = EmptyString)) as [Hgd|Hgd]; cbn [guardHolds]; [exact Hfire |]. rewrite <-Hg.
  destruct Hgs as [?|[g Hgt]]; [done |]. unfold GuardFunc in *. rewrite Hgt. destruct (g w); [exact Hfire | exact IH].
Qed.

(** The switch depends on a case only through the selected one: an
    unmatched trigger falls through. *)
Lemma switch_trigger_only {R} (zero : R) (cases : list (Case R)) (cb : Callbacks V H) key w :
  (forall c, c ∈ cases -> cState _ c <> wState w \/ cOn _ c <> key) ->
  switch zero cases cb key w = (w, zero, None).
Proof.
  induction cases as [|c cases IH]; intros Hc; [done |]. cbn [switch].
  assert (Hn : selects cb key w c = false).
  { unfold selects. destruct (Hc c ltac:(left)); [rewrite (bool_decide_false (wState w = _)) by congruence; done |].
    rewrite (bool_decide_false (key = _)) by congruence. by rewrite andb_false_r. }
  rewrite Hn. apply IH. intros d Hd. apply Hc. by right.
Qed.
End Simulation.

(** ** Properties *)

Section Generated.
Context {V H : Type} `{!GoVars V}.

(** The executor [m] of actor [a] next to a generated machine in world [w]
    with the callbacks [cb]: same state, same guards and actions. *)
Record mirrors (p : Protocol) (a : Actor) (cb : Callbacks V H) (m : Machine (World V H)) (w : World V H) : Prop := {
  mir_built : built p a m;
  mir_state : state m = wState w;
  mir_guards : guards m = cbGuards cb;
  mir_actions : actions m = cbActions cb
}.

(** Every guard and action the actor names is registered. *)
Definition allRegistered (a : Actor) (m : Machine (World V H)) : Prop :=
  forall t, t ∈ FlattenedTransitions a ->
    (Guard t = EmptyString \/ is_Some (guards m !! Guard t)) /\ (Do t = EmptyString \/ is_Some (actions m !! Do t)).

(** What is not registered: a guard that never holds, an action that does nothing. *)
Definition withDefaults {F} (d : F) (names : list string) (reg : gmap string F) : gmap string F :=
  reg ∪ list_to_map (map (fun n => (n, d)) names).
Definition defaultGuards (a : Actor) : gmap GuardID GuardFunc -> gmap GuardID GuardFunc :=
  withDefaults (fun _ : World V H => false) (map Guard (FlattenedTransitions a)).
Definition defaultActions (a : Actor) : gmap ActionID ActionFunc -> gmap ActionID ActionFunc :=
  withDefaults (fun w : World V H => (w, None)) (map Do (FlattenedTransitions a)).

(** The executor and the callbacks with every name registered. *)
Definition completed (a : Actor) (m : Machine (World V H)) : Machine (World V H) :=
  {| actor := actor m; state := state m; guards := defaultGuards a (guards m); actions := defaultActions a (actions m);
     recvIndex := recvIndex m; internalIndex := internalIndex m |}.
Definition completedCb (a : Actor) (cb : Callbacks V H) : Callbacks V H :=
  {| cbGuards := defaultGuards a (cbGuards cb); cbActions := defaultActions a (cbActions cb); cbOnChange := cbOnChange cb |}.

Lemma withDefaults_lookup {F} (d : F) names reg n :
  withDefaults d names reg !! n = reg !! n \/ reg !! n = None /\ withDefaults d names reg !! n = Some d.
Proof.
  unfold withDefaults. destruct (reg !! n) as [f|] eqn:Hn; [left; by apply lookup_union_Some_l |].
  rewrite lookup_union_r by done. destruct (list_to_map _ !! n) as [f|] eqn:Hl; [right | by left].
  apply elem_of_list_to_map_2, list_elem_of_fmap in Hl as (? & [= -> ->] & _). done.
Qed.

Lemma withDefaults_total {F} (d : F) names reg n : n ∈ names -> is_Some (withDefaults d names reg !! n).
Proof.
  intros Hin. unfold withDefaults. destruct (reg !! n) as [f|] eqn:Hn; [exists f; by apply lookup_union_Some_l |].
  rewrite lookup_union_r by done. apply elem_of_dom. rewrite dom_list_to_map. apply elem_of_list_to_set.
  apply list_elem_of_fmap. exists (n, d). split; [done |]. apply list_elem_of_fmap. by exists n.
Qed.

Lemma exec_completed a (cb : Callbacks V H) body : forall w, exec (completedCb a cb) body w = exec cb body w.
Proof.
  induction body as [|s body IH]; intros w; [done |]. destruct s; cbn [exec]; try apply IH.
  cbn [cbActions completedCb]. unfold defaultActions, ActionFunc.
  destruct (withDefaults_lookup (fun w : World V H => (w, @None error)) (map Do (FlattenedTransitions a)) (cbActions cb) i)
    as [-> | [-> ->]]; [| apply IH].
  repeat case_match; first [done | apply IH].
Qed.

Lemma switch_completed {R} a (zero : R) (cases : list (Case R)) (cb : Callbacks V H) key w :
  switch zero cases (completedCb a cb) key w = switch zero cases cb key w.
Proof.
  induction cases as [|c cases IH]; [done |]. cbn [switch]. rewrite exec_completed, IH.
  assert (guardHolds (completedCb a cb) (cGuard _ c) w = guardHolds cb (cGuard _ c) w) as Hg.
  { destruct (cGuard _ c) as [g|]; [| done]. cbn [guardHolds cbGuards completedCb]. unfold defaultGuards, GuardFunc.
    destruct (withDefaults_lookup (fun _ : World V H => false) (map Guard (FlattenedTransitions a)) (cbGuards cb) g)
      as [-> | [-> ->]]; done. }
  unfold selects. by rewrite Hg.
Qed.

Lemma agrees_completed fields a (cb : Callbacks V H) m w gen ex :
  agrees fields (completedCb a cb) m w gen ex -> agrees fields cb m w gen ex.
Proof.
  unfold agrees. destruct gen as [[w' [|]] [e|]]; try done. intros (ctx & t & us & H1 & H2 & H3 & H4).
  exists ctx, t, us. by rewrite exec_completed in H4.
Qed.

Lemma completed_mirrors p a cb m w : mirrors p a cb m w ->
  mirrors p a (completedCb a cb) (completed a m) w /\ allRegistered a (completed a m).
Proof.
  intros [H1 H2 H3 H4]. split; [split; cbn; [done | done | by rewrite H3 | by rewrite H4] |].
  intros t Ht. split; right; apply withDefaults_total, list_elem_of_fmap; by exists t.
Qed.

(** The generated file compiles: its constants are declared once, and the
    states, used through [goCamel] but declared by their own names, are in
    camel case. *)
Record compiles (p : Protocol) (a : Actor) (cPrefix : string) : Prop := {
  com_valid : Validate p = None;
  com_actor : a ∈ Actors p;
  com_flat : IsComposed a = false;
  com_consts : NoDup (goConsts cPrefix p).*1;
  com_states s : s ∈ collectStates a -> goCamel s = s
}.

Lemma agrees_refused fields (cb : Callbacks V H) m w gen ex fmt args :
  agrees fields cb m w gen (m, w, Some (EFmt fmt args)) ->
  (exists fmt' args', ex = (m, w, Some (EFmt fmt' args'))) -> agrees fields cb m w gen ex.
Proof.
  unfold agrees. destruct gen as [[w' [|]] [e|]]; [done | | |].
  - intros (? & ? & ? & [=] & _).
  - intros (act & [=]).
  - intros [-> _] Hex. done.
Qed.

(** The methods of an actor all of whose guards and actions are registered. *)
Lemma refines_registered (p : Protocol) (a : Actor) (cPrefix : string)
    (hm st : list (Case bool)) (cb : Callbacks V H) (m : Machine (World V H)) (w : World V H) :
  compiles p a cPrefix ->
  let stateType := cPrefix +:+ goConstPrefix (Name a) in
  let fields := goStructFields p (FlattenedTransitions a) in
  HandleMessageCases (goConsts cPrefix p) fields stateType cPrefix (FlattenedTransitions a) = Some hm ->
  StepCases (goConsts cPrefix p) fields stateType cPrefix (FlattenedTransitions a) = Some st ->
  mirrors p a cb m w -> allRegistered a m ->
  forall key,
    agrees fields cb m w (switch false hm cb key w) (HandleMessage m key w) /\
    (key <> EmptyString -> forall order,
       agrees fields cb m w (switch false st cb key w) (Step m order key w)).
Proof.
  intros [Hval Ha Hflat Hnd Hcamel] stateType fields Hhm Hst [Hb Hs Hg Hact] Hreg key.
  unfold stateType in *. rewrite HandleMessageCases_table in Hhm by done. rewrite StepCases_table in Hst by done.
  destruct (built_index p a m (state m) key Hb) as [Hr Hi]. split.
  - unfold HandleMessage. rewrite Hr. unfold onMessage.
    apply (agrees_try fields cb m w _ key) in Hhm; [| done | done | |].
    2-3: intros t [_ Ht]%list_elem_of_filter; by apply Hreg.
    rewrite list_filter_filter in Hhm. rewrite <-Hs in Hhm.
    rewrite (list_filter_iff _ (fun t => Kind (On t) = TriggerRecv /\ From t = state m /\ Msg (On t) = key)) in Hhm
      by (intros; tauto).
    destruct (filter _ _); [eapply agrees_refused; [exact Hhm | eauto] | exact Hhm].
  - clear Hhm Hr. intros Hk order. unfold Step. rewrite bool_decide_false by done. cbn [negb]. rewrite Hi. unfold onEvent.
    apply (agrees_try fields cb m w _ key) in Hst; [| done | done | |].
    2-3: intros t [_ Ht]%list_elem_of_filter; by apply Hreg.
    rewrite list_filter_filter in Hst. rewrite <-Hs in Hst.
    rewrite (list_filter_iff _ (fun t => Kind (On t) = TriggerInternal /\ From t = state m /\ Desc (On t) = key)) in Hst
      by (intros; tauto).
    destruct (filter _ _); [eapply agrees_refused; [exact Hst | eauto] | exact Hst].
Qed.


(** Two methods called in the same world: same world after, same error. *)
Definition sameEffect {R S} (x : World V H * R * option error) (y : World V H * S * option error) : Prop :=
  x.1.1 = y.1.1 /\ x.2 = y.2.

Lemma mapM_cons_inv {A B} (f : A -> option B) x l k :
  mapM f (x :: l) = Some k -> exists y ys, k = y :: ys /\ f x = Some y /\ mapM f l = Some ys.
Proof. intros Hm. simpl in Hm. destruct (f x); [| done]. destruct (mapM f l); [| done]. injection Hm as <-. eauto. Qed.

Lemma tableCase_inv {R} fields on (ret : Transition -> R) t (c : Case R) :
  tableCase fields on ret t = Some c ->
  cState _ c = From t /\ cOn _ c = on t /\ cRet _ c = ret t /\
  cGuard _ c = (if bool_decide (Guard t = EmptyString) then None else Some (Guard t)) /\
  exists us, tableUpdates fields t = Some us /\ cBody _ c = tableAction t ++ us ++ [Goto (To t)].
Proof. unfold tableCase. destruct (tableUpdates fields t) as [us|]; [| done]. intros [= <-]. split_and!; eauto. Qed.

(** A switch whose cases agree with another's on the selected trigger. *)
Lemma switch_same {R S} fields (zr : R) (zs : S) onr ons (retr : Transition -> R) (rets : Transition -> S)
    (P : Transition -> Prop) `{forall t, Decision (P t)} (cb : Callbacks V H) kr ks w ts : forall cr cs,
  mapM (tableCase fields onr retr) ts = Some cr -> mapM (tableCase fields ons rets) (filter P ts) = Some cs ->
  (forall t, t ∈ ts -> P t -> onr t = kr <-> ons t = ks) ->
  (forall t, t ∈ ts -> ~ P t -> onr t <> kr) ->
  sameEffect (switch zr cr cb kr w) (switch zs cs cb ks w).
Proof.
  induction ts as [|t ts IH]; intros cr cs Hr Hs Hon Hno.
  { injection Hr as <-. injection Hs as <-. done. }
  specialize (fun cr cs Hr Hs => IH cr cs Hr Hs (fun t Ht => Hon t (list_elem_of_further _ _ _ Ht))
    (fun t Ht => Hno t (list_elem_of_further _ _ _ Ht))).
  apply mapM_cons_inv in Hr as (c1 & cr' & -> & (Hst1 & Hon1 & _ & Hg1 & us1 & Hu1 & Hb1)%tableCase_inv & Hcr).
  cbn [switch]. unfold selects. rewrite Hst1, Hon1, Hg1, Hb1. rewrite filter_cons in Hs. case_decide as HP.
  - apply mapM_cons_inv in Hs as (c2 & cs' & -> & (Hst2 & Hon2 & _ & Hg2 & us2 & Hu2 & Hb2)%tableCase_inv & Hcs).
    cbn [switch]. unfold selects. rewrite Hst2, Hon2, Hg2, Hb2. assert (us2 = us1) as -> by congruence.
    assert (He : bool_decide (kr = onr t) = bool_decide (ks = ons t)).
    { apply bool_decide_ext. specialize (Hon t ltac:(left) HP). split; intros ->; symmetry; by apply Hon. }
    rewrite He. destruct (_ && _ && _); [| by apply IH].
    by destruct (exec cb _ w) as [w' [e|]].
  - rewrite (bool_decide_false (kr = onr t)), andb_false_r by (intros ->; by apply (Hno t ltac:(left) HP)).
    cbn [andb]. by apply IH.
Qed.

(** The unified entry point is the two older ones: on the event of a
    message receipt [HandleEvent] has the effect of [HandleMessage] on that
    message, on an internal event that of [Step], as long as no internal
    event is named like a receipt. *)
Theorem event_entry_point_agrees (p : Protocol) (a : Actor) (cPrefix : string)
    (hm st : list (Case bool)) (he : list (Case (list CmdID))) (cb : Callbacks V H) (w : World V H) (key : string) :
  compiles p a cPrefix ->
  (forall t c, t ∈ FlattenedTransitions a -> c ∈ Emits t -> c ∈ map cmdID (Commands p)) ->
  let stateType := cPrefix +:+ goConstPrefix (Name a) in
  let fields := goStructFields p (FlattenedTransitions a) in
  HandleMessageCases (goConsts cPrefix p) fields stateType cPrefix (FlattenedTransitions a) = Some hm ->
  StepCases (goConsts cPrefix p) fields stateType cPrefix (FlattenedTransitions a) = Some st ->
  HandleEventCases (goConsts cPrefix p) fields stateType cPrefix (FlattenedTransitions a) = Some he ->
  ((forall t, t ∈ FlattenedTransitions a -> Kind (On t) = TriggerInternal -> Desc (On t) <> "recv_" +:+ key) ->
   sameEffect (switch [] he cb ("recv_" +:+ key) w) (switch false hm cb key w)) /\
  ((forall t, t ∈ FlattenedTransitions a -> Kind (On t) = TriggerRecv -> "recv_" +:+ Msg (On t) <> key) ->
   sameEffect (switch [] he cb key w) (switch false st cb key w)).
Proof.
  intros [Hval Ha Hflat Hnd Hcamel] Hem stateType fields Hhm Hst Hhe. unfold stateType in *.
  rewrite HandleMessageCases_table in Hhm by done. rewrite StepCases_table in Hst by done.
  rewrite HandleEventCases_table in Hhe by done. split; intros Hint.
  - eapply switch_same; [exact Hhe | exact Hhm | |]; intros t Ht Hk; unfold transitionEvent.
    + rewrite Hk. split; [by intros ?%(inj (String.append "recv_")) | by intros ->].
    + destruct (Kind (On t)) eqn:Hkind; [done |]. by apply Hint.
  - eapply switch_same; [exact Hhe | exact Hst | |]; intros t Ht Hk; unfold transitionEvent.
    + by rewrite Hk.
    + destruct (Kind (On t)) eqn:Hkind; [| done]. by apply Hint.
Qed.
End Generated.
