(* ===== verification/Yaml.v ===== *)
(** * Yaml: from a protocol document to a [Protocol] (protocol/yaml.go)

    The YAML package is an input: a [yamlProtocol] is what it decoded, a
    mapping node being the list of its keys with the decoded value of each, or
    the error of decoding it.  [ParseYAML] builds the protocol from it.  The
    state hierarchy is built as the code builds it, as nodes that refer to
    each other ([hnode], a pointer being the node's name, under which the
    index keeps exactly one node), and then read as the trees of [Machine]. *)

From Stdlib Require Import ZArith Lia Strings.String.
From stdpp Require Import base gmap strings list fin_maps.
From S2P Require Import Prelude Machine GoGen.

(** ** The decoded document *)

(** A [yaml.Node] that should hold a mapping: absent ([Kind == 0]), a mapping
    with its entries in document order, or a node of another kind. *)
Inductive section (V : Type) :=
  | Absent
  | Mapping (entries : list (string * V))
  | OtherKind (kind : Z).
Arguments Absent {V}.
Arguments Mapping {V} entries.
Arguments OtherKind {V} kind.

Record yamlSend := {
  ysTo : string;
  ysMsg : string;
  ysFields : list (string * string)
}.

Record yamlTransition := {
  ytFrom : string;
  ytTo : string;
  ytOn : string;
  ytGuard : string;
  ytDo : string;
  ytFairness : string;
  ytSends : list yamlSend;
  ytUpdates : section string;
  ytEmits : list string
}.

Record yamlStateNode := {
  ynChildren : list string;
  ynTransitions : list yamlTransition
}.

Record yamlMessage := {
  ymFrom : string;
  ymTo : string;
  ymDesc : string
}.

Record yamlSubMachine := {
  ysmInitial : string;
  ysmStates : section (result yamlStateNode);
  ysmTransitions : list yamlTransition;
  ysmReports : list string;
  ysmAccepts : list string
}.

Record yamlRouteSend := {
  yrsTo : string;
  yrsEvent : string
}.

Record yamlRoute := {
  yrOn : string;
  yrFrom : string;
  yrGuard : string;
  yrSends : list yamlRouteSend
}.

Record yamlActor := {
  yaInitial : string;
  yaStates : section (result yamlStateNode);
  yaTransitions : list yamlTransition;
  yaMachines : section (result yamlSubMachine);
  yaRoutes : list yamlRoute
}.

Record yamlVar := {
  yvInitial : string;
  yvType : string;
  yvDesc : string
}.

Record yamlOperator := {
  yoParams : string;
  yoExpr : string;
  yoDesc : string
}.

Record yamlConstant := {
  ycName : string;
  ycType : string;
  ycValues : list string;
  ycDesc : string
}.

Record yamlAdvAction := {
  yaaName : string;
  yaaDesc : string;
  yaaCode : string
}.

Record yamlProperty := {
  ypName : string;
  ypKind : string;
  ypExpr : string;
  ypFromExpr : string;
  ypToExpr : string;
  ypDesc : string
}.

(** The value of a phase: a sequence of names, the rich form (decoded, or
    the error of decoding it), or anything else. *)
Record richPhase := {
  rpStates : list string;
  rpVars : list string;
  rpAdversary : bool
}.
Inductive yamlPhase :=
  | PhaseList (states : list string)
  | PhaseRich (r : result richPhase)
  | PhaseOther.

Record yamlProtocol := {
  yName : string;
  yMessages : section (result yamlMessage);
  yEvents : section string;
  yCommands : section string;
  yActors : section (result yamlActor);
  yStructs : section (section (result yamlVar));
  yVars : section (result yamlVar);
  yGuards : section string;
  yOperators : section (result yamlOperator);
  yPhases : section yamlPhase;
  yWireConsts : list WireConstant;
  yConstants : list yamlConstant;
  yAdvGuard : string;
  yAdversary : list yamlAdvAction;
  yProperties : list yamlProperty;
  yChannelBound : Z;
  yOneShot : bool
}.

(** ** Ordered maps *)

(** The value of the first error, or all values. *)
Fixpoint collect {A B} (f : A -> result B) (l : list A) : result (list B) :=
  match l with
  | [] => Ok []
  | x :: l => let! y := f x in let! ys := collect f l in Ok (y :: ys)
  end.

(** The same with the index of the element, from [i] on. *)
Fixpoint collectFrom {A B} (i : Z) (f : Z -> A -> result B) (l : list A) : result (list B) :=
  match l with
  | [] => Ok []
  | x :: l => let! y := f i x in let! ys := collectFrom (i + 1) f l in Ok (y :: ys)
  end.

Definition parseOrderedMap {V} (node : section (result V)) : result (list (string * V)) :=
  match node with
  | Absent => Ok []
  | OtherKind k => Err (EFmt "expected mapping, got %d" [AInt k])
  | Mapping kvs =>
      collect (fun '(key, v) =>
        let! v := rwrap "key %s: %w" [AStr key] v in Ok (key, v)) kvs
  end.

Definition parseOrderedMapString (node : section string) : result (list (string * string)) :=
  match node with
  | Absent => Ok []
  | OtherKind k => Err (EFmt "expected mapping, got %d" [AInt k])
  | Mapping kvs => Ok kvs
  end.

Definition parseVarType (s : string) : VarType :=
  if bool_decide (s = "int") then VarInt
  else if bool_decide (s = "bool") then VarBool
  else if bool_decide (s = "set<string>") then VarSetString
  else VarString.

(** ** Transitions *)

Definition convertTransition (yt : yamlTransition) : result Transition :=
  let! updates :=
    match ytUpdates yt with
    | Absent => Ok []
    | node => rwrap "updates: %w" [] (parseOrderedMapString node)
    end in
  Ok {| From := ytFrom yt;
        To := ytTo yt;
        On := match CutPrefix (ytOn yt) "recv " with
              | Some msg => Recv msg
              | None => Internal (ytOn yt)
              end;
        Guard := ytGuard yt;
        Do := ytDo yt;
        Fairness := if bool_decide (ytFairness yt = "strong") then StrongFair else WeakFair;
        Sends := map (fun ys => {| sendTo := ysTo ys; sendMsg := ysMsg ys; sendFields := ysFields ys |}) (ytSends yt);
        Updates := map (fun '(k, v) => {| Var := k; Expr := v |}) updates;
        Emits := ytEmits yt |}.

(** ** The state hierarchy *)

(** A [*StateNode] under construction. *)
Record hnode := {
  hId : nat;
  hParent : option State;
  hChildren : list State;
  hTransitions : list Transition
}.
Abbreviation heap := (gmap State hnode).

(** The closure [getOrCreate]: a new node gets the next address. *)
Definition getOrCreate (h : heap) (name : State) : heap :=
  match h !! name with
  | Some _ => h
  | None => <[name := {| hId := size h; hParent := None; hChildren := []; hTransitions := [] |}]> h
  end.

Definition setParent (p : State) (n : hnode) : hnode :=
  {| hId := hId n; hParent := Some p; hChildren := hChildren n; hTransitions := hTransitions n |}.
Definition addChild (c : State) (n : hnode) : hnode :=
  {| hId := hId n; hParent := hParent n; hChildren := hChildren n ++ [c]; hTransitions := hTransitions n |}.
Definition addTransitions (ts : list Transition) (n : hnode) : hnode :=
  {| hId := hId n; hParent := hParent n; hChildren := hChildren n; hTransitions := hTransitions n ++ ts |}.

(** One pass of the loop over the children of [parent]. *)
Definition linkChild (parent : State) (h : heap) (childName : State) : result heap :=
  let h := getOrCreate h childName in
  match h !! childName ≫= hParent with
  | Some p => Err (EFmt "state %s has multiple parents (%s and %s)" [AStr childName; AStr p; AStr parent])
  | None => Ok (alter (addChild childName) parent (alter (setParent parent) childName h))
  end.

Fixpoint linkChildren (parent : State) (h : heap) (children : list State) : result heap :=
  match children with
  | [] => Ok h
  | c :: children => let! h := linkChild parent h c in linkChildren parent h children
  end.

(** The first loop over the states section. *)
Fixpoint linkStates (h : heap) (states : list (string * yamlStateNode)) : result heap :=
  match states with
  | [] => Ok h
  | (key, sn) :: states =>
      let! h := linkChildren key (getOrCreate h key) (ynChildren sn) in
      let! ts := collectFrom 0 (fun i yt =>
        rwrap "superstate %s transition %d: %w" [AStr key; AInt i] (convertTransition yt)) (ynTransitions sn) in
      linkStates (alter (addTransitions ts) key h) states
  end.

(** The second loop: superstates without a parent, in document order. *)
Definition rootNames (h : heap) (states : list (string * yamlStateNode)) : list State :=
  flat_map (fun '(key, _) =>
    match h !! key with
    | Some n => if bool_decide (hParent n = None) && negb (bool_decide (hChildren n = [])) then [key] else []
    | None => []
    end) states.

(** The node of a name as a tree, down to [fuel] levels. *)
Fixpoint treeOf (fuel : nat) (h : heap) (name : State) : StateNode :=
  match h !! name with
  | None => Node 0 None name [] []
  | Some n =>
      Node (hId n) (hParent n ≫= fun p => hId <$> h !! p) name
        match fuel with
        | O => []
        | S fuel => map (treeOf fuel h) (hChildren n)
        end (hTransitions n)
  end.

(** [parseStateHierarchy] and [parseSubMachineStateHierarchy]: the index and
    the roots.  The trees have as many levels as there are nodes, plus one. *)
Definition parseStateHierarchy (node : section (result yamlStateNode))
    : result (list (State * StateNode) * list StateNode) :=
  let! states := rwrap "parse states map: %w" [] (parseOrderedMap node) in
  let! h := linkStates ∅ states in
  let tree := treeOf (S (size h)) h in
  Ok (map (fun kv => (kv.1, tree kv.1)) (map_to_list h), map tree (rootNames h states)).

(** [parseSubMachineStateHierarchy]: the same steps on a sub-machine's fields. *)
Definition parseSubMachineStateHierarchy (node : section (result yamlStateNode))
    : result (list (State * StateNode) * list StateNode) := parseStateHierarchy node.

(** ** The protocol *)

Definition newline : Ascii.ascii := Ascii.ascii_of_nat 10.

(** [strings.Split(s, "\n")], never empty. *)
Fixpoint splitLines (s : string) : list string :=
  match s with
  | EmptyString => [EmptyString]
  | String a s =>
      if bool_decide (a = newline) then EmptyString :: splitLines s
      else match splitLines s with
           | l :: ls => String a l :: ls
           | [] => [String a EmptyString]
           end
  end.

Fixpoint joinLines (ls : list string) : string :=
  match ls with
  | [] => EmptyString
  | [l] => l
  | l :: ls => l +:+ String newline (joinLines ls)
  end.

(** [strings.TrimRight(s, "\n")]. *)
Fixpoint trimNewlines (s : string) : string :=
  match s with
  | String a s' => if bool_decide (a = newline) then trimNewlines s' else s
  | EmptyString => EmptyString
  end.
Definition TrimRightNewlines (s : string) : string := reverse (trimNewlines (reverse s)).

Definition indentCode (code : string) : string :=
  joinLines (map (fun l => "      " +:+ l) (splitLines (TrimRightNewlines code))).

Definition convertVar (kv : string * yamlVar) : VarDef :=
  {| varName := kv.1; varType := parseVarType (yvType kv.2); varInitial := yvInitial kv.2; varDesc := yvDesc kv.2 |}.

Definition convertField (kv : string * yamlVar) : StructField :=
  {| fldName := kv.1; fldType := parseVarType (yvType kv.2); fldInitial := yvInitial kv.2; fldDesc := yvDesc kv.2 |}.

Definition convertRoute (yr : yamlRoute) : Route :=
  {| rtOn := yrOn yr; rtFrom := yrFrom yr; rtGuard := yrGuard yr;
     rtSends := map (fun ys => {| rsTo := yrsTo ys; rsEvent := yrsEvent ys |}) (yrSends yr) |}.

Definition isMapping {V} (node : section V) : bool := match node with Mapping _ => true | _ => false end.

(** The body of the loop over the sub-machines of the actor [key]. *)
Definition convertSubMachine (key : string) (mkv : string * yamlSubMachine) : result SubMachine :=
  let '(name, ym) := mkv in
  let! ts := collectFrom 0 (fun i yt =>
    rwrap "actor %s machine %s transition %d: %w" [AStr key; AStr name; AInt i] (convertTransition yt))
    (ysmTransitions ym) in
  let! hier := if isMapping (ysmStates ym)
               then rwrap "actor %s machine %s states: %w" [AStr key; AStr name] (parseSubMachineStateHierarchy (ysmStates ym))
               else Ok ([], []) in
  Ok {| smName := name; smInitial := ysmInitial ym; smTransitions := ts;
        smStateIndex := hier.1; smRoots := hier.2; smReports := ysmReports ym; smAccepts := ysmAccepts ym |}.

(** The body of the loop over the actors. *)
Definition convertActor (kv : string * yamlActor) : result Actor :=
  let '(key, ya) := kv in
  if isMapping (yaMachines ya) then
    let! machines := rwrap "actor %s machines: %w" [AStr key] (parseOrderedMap (yaMachines ya)) in
    let! ms := collect (convertSubMachine key) machines in
    Ok {| Name := key; Initial := yaInitial ya; Transitions := []; StateIndex := []; Roots := [];
          Machines := ms; Routes := map convertRoute (yaRoutes ya) |}
  else
    let! ts := collectFrom 0 (fun i yt =>
      rwrap "actor %s transition %d: %w" [AStr key; AInt i] (convertTransition yt)) (yaTransitions ya) in
    let! hier := if isMapping (yaStates ya)
                 then rwrap "actor %s states: %w" [AStr key] (parseStateHierarchy (yaStates ya))
                 else Ok ([], []) in
    Ok {| Name := key; Initial := yaInitial ya; Transitions := ts; StateIndex := hier.1; Roots := hier.2;
          Machines := []; Routes := [] |}.

Definition convertStructs (node : section (section (result yamlVar))) : result (list StructDef) :=
  match node with
  | Mapping kvs =>
      collect (fun '(name, fields) =>
        let! fs := if isMapping fields then rwrap "struct %q: %w" [AStr name] (parseOrderedMap fields) else Ok [] in
        Ok {| structName := name; structFields := map convertField fs; structDesc := EmptyString |}) kvs
  | _ => Ok []
  end.

Definition convertPhases (node : section yamlPhase) : result (list Phase) :=
  match node with
  | Mapping kvs =>
      collect (fun '(name, v) =>
        match v with
        | PhaseList states =>
            Ok {| phaseName := name; phaseStates := states; phaseVars := []; phaseAdversary := false |}
        | PhaseRich r =>
            let! rich := rwrap "parse phase %q: %w" [AStr name] r in
            Ok {| phaseName := name; phaseStates := rpStates rich; phaseVars := rpVars rich;
                  phaseAdversary := rpAdversary rich |}
        | PhaseOther =>
            Ok {| phaseName := name; phaseStates := []; phaseVars := []; phaseAdversary := false |}
        end) kvs
  | _ => Ok []
  end.

Definition convertProperty (yp : yamlProperty) : Property :=
  {| propName := ypName yp;
     propKind := if bool_decide (ypKind yp = "liveness") then Liveness
                 else if bool_decide (ypKind yp = "leads_to") then LeadsTo else Invariant;
     propExpr := ypExpr yp; propFromExpr := ypFromExpr yp; propToExpr := ypToExpr yp; propDesc := ypDesc yp |}.

(** [ParseYAML], [decoded] being what [yaml.Unmarshal] returned. *)
Definition ParseYAML (decoded : result yamlProtocol) : result Protocol :=
  let! yp := rwrap "parse YAML: %w" [] decoded in
  let! evts := rwrap "events: %w" [] (parseOrderedMapString (yEvents yp)) in
  let! cmds := rwrap "commands: %w" [] (parseOrderedMapString (yCommands yp)) in
  let! msgs := rwrap "messages: %w" [] (parseOrderedMap (yMessages yp)) in
  let! actors := rwrap "actors: %w" [] (parseOrderedMap (yActors yp)) in
  let! acts := collect convertActor actors in
  let! structs := convertStructs (yStructs yp) in
  let! vars := rwrap "vars: %w" [] (parseOrderedMap (yVars yp)) in
  let! guards := rwrap "guards: %w" [] (parseOrderedMapString (yGuards yp)) in
  let! ops := rwrap "operators: %w" [] (parseOrderedMap (yOperators yp)) in
  let! phases := convertPhases (yPhases yp) in
  Ok {| pName := yName yp;
        Actors := acts;
        Messages := map (fun kv => {| msgType := kv.1; msgFrom := ymFrom kv.2; msgTo := ymTo kv.2;
                                      msgDesc := ymDesc kv.2 |}) msgs;
        Events := map (fun kv => {| eventID := kv.1; eventDesc := kv.2 |}) evts;
        Commands := map (fun kv => {| cmdID := kv.1; cmdDesc := kv.2 |}) cmds;
        Structs := structs;
        Vars := map convertVar vars;
        Guards := map (fun kv => {| guardID := kv.1; guardExpr := kv.2 |}) guards;
        Operators := map (fun kv => {| opName := kv.1; opParams := yoParams kv.2; opExpr := yoExpr kv.2;
                                       opDesc := yoDesc kv.2 |}) ops;
        AdvActions := map (fun ya => {| advName := yaaName ya; advDesc := yaaDesc ya;
                                        advCode := indentCode (yaaCode ya) |}) (yAdversary yp);
        AdvGuard := yAdvGuard yp;
        Phases := phases;
        WireConsts := yWireConsts yp;
        Constants := map (fun yc => {| constName := ycName yc; constType := parseVarType (ycType yc);
                                       constValues := ycValues yc; constDesc := ycDesc yc |}) (yConstants yp);
        Properties := map convertProperty (yProperties yp);
        ChannelBound := yChannelBound yp;
        OneShot := yOneShot yp |}.

(** ** Writing documents down *)

Definition ysend (to msg : string) (fields : list (string * string)) : yamlSend :=
  {| ysTo := to; ysMsg := msg; ysFields := fields |}.
Definition ytr (from to on guard do fairness : string) (sends : list yamlSend) (updates : section string)
    (emits : list string) : yamlTransition :=
  {| ytFrom := from; ytTo := to; ytOn := on; ytGuard := guard; ytDo := do; ytFairness := fairness;
     ytSends := sends; ytUpdates := updates; ytEmits := emits |}.
Definition ymsg (from to desc : string) : yamlMessage := {| ymFrom := from; ymTo := to; ymDesc := desc |}.
Definition yvar (initial type desc : string) : yamlVar := {| yvInitial := initial; yvType := type; yvDesc := desc |}.
Definition yop (params expr desc : string) : yamlOperator := {| yoParams := params; yoExpr := expr; yoDesc := desc |}.
Definition yadv (name desc code : string) : yamlAdvAction := {| yaaName := name; yaaDesc := desc; yaaCode := code |}.
Definition yconst (name type : string) (values : list string) (desc : string) : yamlConstant :=
  {| ycName := name; ycType := type; ycValues := values; ycDesc := desc |}.
Definition yprop (name kind expr fromExpr toExpr desc : string) : yamlProperty :=
  {| ypName := name; ypKind := kind; ypExpr := expr; ypFromExpr := fromExpr; ypToExpr := toExpr; ypDesc := desc |}.
Definition wconst (name : string) (value : wireValue) (type desc group : string) : WireConstant :=
  {| wcName := name; wcValue := value; wcType := type; wcDesc := desc; wcGroup := group |}.

(** ** The heap of state nodes *)

Definition parentOf (h : heap) (c : State) : option State := h !! c ≫= hParent.
Definition childrenOf (h : heap) (n : State) : list State := default [] (hChildren <$> h !! n).

(** Parent and child pointers agree; in particular they stay inside the index. *)
Definition wfHeap (h : heap) : Prop := forall n c, c ∈ childrenOf h n <-> parentOf h c = Some n.

Lemma getOrCreate_lookup h name s :
  getOrCreate h name !! s =
    match h !! s with
    | Some x => Some x
    | None => if decide (s = name)
              then Some {| hId := size h; hParent := None; hChildren := []; hTransitions := [] |} else None
    end.
Proof.
  unfold getOrCreate. destruct (h !! name) as [x|] eqn:Hn.
  - destruct (h !! s) eqn:Hs; [done |]. case_decide; [congruence | done].
  - destruct (decide (s = name)) as [->|Hne].
    + by rewrite lookup_insert_eq, Hn.
    + rewrite lookup_insert_ne by done. by destruct (h !! s).
Qed.

Lemma getOrCreate_parent h name s : parentOf (getOrCreate h name) s = parentOf h s.
Proof. unfold parentOf. rewrite getOrCreate_lookup. destruct (h !! s); [done |]. by case_decide. Qed.

Lemma getOrCreate_children h name s : childrenOf (getOrCreate h name) s = childrenOf h s.
Proof. unfold childrenOf. rewrite getOrCreate_lookup. destruct (h !! s); [done |]. by case_decide. Qed.

Lemma getOrCreate_dom h name s : is_Some (getOrCreate h name !! s) <-> is_Some (h !! s) \/ s = name.
Proof.
  rewrite getOrCreate_lookup. destruct (h !! s); [split; eauto |].
  case_decide; (split; [intros [? ?]; auto; done | intros [[? ?]|?]; eauto; done]).
Qed.

Lemma wfHeap_empty : wfHeap ∅.
Proof.
  intros n c. unfold childrenOf, parentOf. rewrite !lookup_empty. simpl.
  split; [by intros ?%elem_of_nil | done].
Qed.

Lemma wfHeap_create h name : wfHeap h -> wfHeap (getOrCreate h name).
Proof. intros Hwf n c. rewrite getOrCreate_children, getOrCreate_parent. apply Hwf. Qed.

Lemma alter_heap_dom (f : hnode -> hnode) k (h : heap) s : is_Some (alter f k h !! s) <-> is_Some (h !! s).
Proof.
  destruct (decide (s = k)) as [->|]; [rewrite lookup_alter_eq | by rewrite lookup_alter_ne].
  by rewrite fmap_is_Some.
Qed.

(** The heap after a successful [linkChild]. *)
Lemma linkChild_inv parent h c h' :
  is_Some (h !! parent) -> linkChild parent h c = Ok h' ->
  parentOf h c = None /\
  (forall s, parentOf h' s = if decide (s = c) then Some parent else parentOf h s) /\
  (forall s, childrenOf h' s = if decide (s = parent) then childrenOf h s ++ [c] else childrenOf h s) /\
  (forall s, is_Some (h' !! s) <-> is_Some (h !! s) \/ s = c).
Proof.
  intros Hp. unfold linkChild. change (getOrCreate h c !! c ≫= hParent) with (parentOf (getOrCreate h c) c).
  rewrite getOrCreate_parent. destruct (parentOf h c) eqn:Hc; [done |]. intros [= <-].
  set (g := getOrCreate h c).
  assert (Hgc : is_Some (g !! c)) by (apply getOrCreate_dom; auto).
  assert (Hgp : is_Some (g !! parent)) by (apply getOrCreate_dom; auto).
  split_and!; [done | | |].
  - intros s. rewrite <-(getOrCreate_parent h c s). fold g. unfold parentOf.
    destruct (decide (s = parent)) as [->|Hsp]; [rewrite lookup_alter_eq | rewrite lookup_alter_ne by done].
    + destruct (decide (parent = c)) as [->|Hne]; [rewrite lookup_alter_eq | rewrite lookup_alter_ne by done].
      * by destruct (g !! c) as [x|]; [| destruct Hgc].
      * by destruct (g !! parent).
    + destruct (decide (s = c)) as [->|Hne]; [rewrite lookup_alter_eq | by rewrite lookup_alter_ne].
      by destruct (g !! c) as [x|]; [| destruct Hgc].
  - intros s. rewrite <-(getOrCreate_children h c s). fold g. unfold childrenOf.
    assert (Hch : hChildren <$> alter (setParent parent) c g !! s = hChildren <$> g !! s).
    { destruct (decide (s = c)) as [->|]; [rewrite lookup_alter_eq | by rewrite lookup_alter_ne].
      by destruct (g !! c). }
    destruct (decide (s = parent)) as [->|Hne]; [rewrite lookup_alter_eq | by rewrite lookup_alter_ne, Hch].
    rewrite <-Hch. apply (alter_heap_dom (setParent parent) c) in Hgp as [x ->]. done.
  - intros s. rewrite !alter_heap_dom. apply getOrCreate_dom.
Qed.

Lemma wfHeap_link parent h c h' :
  wfHeap h -> is_Some (h !! parent) -> linkChild parent h c = Ok h' -> wfHeap h'.
Proof.
  intros Hwf Hp Hl. destruct (linkChild_inv _ _ _ _ Hp Hl) as (Hc & Hpar & Hch & _).
  intros n x. rewrite Hpar, Hch. specialize (Hwf n x).
  repeat case_decide; subst; rewrite ?elem_of_app, ?list_elem_of_singleton, ?Hwf, ?Hc; naive_solver.
Qed.

Lemma linkChildren_inv parent cs : forall h h',
  wfHeap h -> is_Some (h !! parent) -> linkChildren parent h cs = Ok h' ->
  wfHeap h' /\ forall s, is_Some (h !! s) -> is_Some (h' !! s).
Proof.
  induction cs as [|c cs IH]; intros h h' Hwf Hp; cbn [linkChildren]; [by intros [= <-] |].
  intros (h1 & Hl & Hr)%rbind_ok_inv. pose proof (wfHeap_link _ _ _ _ Hwf Hp Hl) as Hwf1.
  destruct (linkChild_inv _ _ _ _ Hp Hl) as (_ & _ & _ & Hd).
  destruct (IH h1 h' Hwf1) as [Hw Hmono]; [apply Hd; auto | done |].
  split; [done |]. intros s Hs. apply Hmono, Hd. auto.
Qed.

Lemma wfHeap_transitions h key ts : wfHeap h -> wfHeap (alter (addTransitions ts) key h).
Proof.
  intros Hwf n c. unfold childrenOf, parentOf in *.
  assert (Hc : hChildren <$> alter (addTransitions ts) key h !! n = hChildren <$> h !! n).
  { destruct (decide (n = key)) as [->|]; [rewrite lookup_alter_eq | by rewrite lookup_alter_ne].
    by destruct (h !! key). }
  assert (Hp : alter (addTransitions ts) key h !! c ≫= hParent = h !! c ≫= hParent).
  { destruct (decide (c = key)) as [->|]; [rewrite lookup_alter_eq | by rewrite lookup_alter_ne].
    by destruct (h !! key). }
  rewrite Hc, Hp. apply Hwf.
Qed.

Lemma linkStates_wf states : forall h h', wfHeap h -> linkStates h states = Ok h' -> wfHeap h'.
Proof.
  induction states as [|[key sn] states IH]; intros h h' Hwf; cbn [linkStates]; [by intros [= <-] |].
  intros (h1 & Hl & (ts & _ & Hr)%rbind_ok_inv)%rbind_ok_inv.
  destruct (linkChildren_inv _ _ _ _ (wfHeap_create h key Hwf) ltac:(apply getOrCreate_dom; auto) Hl) as [Hw _].
  eapply IH; [| done]. by apply wfHeap_transitions.
Qed.

(** ** Walking down from a root *)

(** [descent h r l n]: following child pointers from [r] through the nodes
    [l] leads to [n]. *)
Inductive descent (h : heap) (r : State) : list State -> State -> Prop :=
  | descent_here : descent h r [] r
  | descent_down l n c : descent h r l n -> c ∈ childrenOf h n -> descent h r (l ++ [n]) c.

Lemma descent_trans h a b c l1 l2 : descent h a l1 b -> descent h b l2 c -> descent h a (l1 ++ l2) c.
Proof.
  intros H1. induction 1 as [|l2 n c Hd IH Hc]; [by rewrite app_nil_r |].
  rewrite app_assoc. by econstructor.
Qed.

Section Roots.
Context (h : heap) (Hwf : wfHeap h).

Lemma child_in_heap n c : c ∈ childrenOf h n -> is_Some (h !! n) /\ is_Some (h !! c).
Proof.
  intros Hc. pose proof (proj1 (Hwf n c) Hc) as Hp. split.
  - unfold childrenOf in Hc. destruct (h !! n); [eauto | by apply elem_of_nil in Hc].
  - unfold parentOf in Hp. destruct (h !! c); [eauto | done].
Qed.

(** Every node of a walk but its start has its parent earlier in the walk. *)
Lemma descent_parents r l n : descent h r l n ->
  forall x, x ∈ l ++ [n] -> x = r \/ exists p, p ∈ l /\ parentOf h x = Some p.
Proof.
  induction 1 as [|l n c Hd IH Hc]; intros x Hx.
  - apply list_elem_of_singleton in Hx. auto.
  - apply elem_of_app in Hx as [Hx|Hx].
    + destruct (IH x Hx) as [?|(p & Hp & ?)]; [by left | right]. exists p. set_solver.
    + apply list_elem_of_singleton in Hx as ->. right. exists n. split; [set_solver | by apply Hwf].
Qed.

(** A walk from a node without parent never meets a node twice. *)
Lemma descent_NoDup r l n : parentOf h r = None -> descent h r l n -> NoDup (l ++ [n]).
Proof.
  intros Hr. induction 1 as [|l n c Hd IH Hc]; [apply NoDup_singleton |].
  apply NoDup_app. split_and!; [done | | apply NoDup_singleton].
  intros x Hx ->%list_elem_of_singleton. apply Hwf in Hc.
  destruct (descent_parents _ _ _ Hd c Hx) as [->|(p & Hp & Hpc)]; [congruence |].
  assert (p = n) as -> by congruence. apply NoDup_app in IH as (_ & Hn & _).
  apply (Hn n Hp). by apply list_elem_of_singleton.
Qed.

Lemma descent_in_heap r l n : is_Some (h !! r) -> descent h r l n -> forall x, x ∈ l ++ [n] -> is_Some (h !! x).
Proof.
  intros Hr. induction 1 as [|l n c Hd IH Hc]; intros x Hx; [by apply list_elem_of_singleton in Hx as -> |].
  apply elem_of_app in Hx as [Hx|Hx]; [by apply IH |].
  apply list_elem_of_singleton in Hx as ->. by eapply child_in_heap.
Qed.

Lemma descent_bounded r l n : is_Some (h !! r) -> parentOf h r = None -> descent h r l n -> (length l < size h)%nat.
Proof.
  intros Hin Hr Hd. pose proof (descent_NoDup _ _ _ Hr Hd) as Hnd.
  assert (Hsub : list_to_set (C := gset State) (l ++ [n]) ⊆ dom h).
  { intros x Hx%elem_of_list_to_set. apply elem_of_dom. by eapply descent_in_heap. }
  apply subseteq_size in Hsub. rewrite size_list_to_set, size_dom, length_app in Hsub by done. simpl in Hsub. lia.
Qed.

(** Unfolding a node further than its longest walk changes nothing. *)
Lemma treeOf_complete k : forall n m,
  (forall l c, descent h n l c -> (length l <= k)%nat) -> treeOf (k + m) h n = treeOf k h n.
Proof.
  induction k as [|k IH]; intros n m Hb.
  - destruct m as [|m]; [done |]. simpl. destruct (h !! n) as [x|] eqn:Hn; [| done]. f_equal.
    destruct (hChildren x) as [|c cs] eqn:Hc; [done |].
    assert (Hd : descent h n ([] ++ [n]) c).
    { econstructor; [constructor |]. unfold childrenOf. rewrite Hn. simpl. rewrite Hc. left. }
    apply Hb in Hd. simpl in Hd. lia.
  - simpl. destruct (h !! n) as [x|] eqn:Hn; [| done]. f_equal.
    apply map_ext_in. intros c Hc. apply IH. intros l d Hd.
    assert (Hc' : descent h n ([] ++ [n]) c).
    { econstructor; [constructor |]. unfold childrenOf. rewrite Hn. simpl. by apply list_elem_of_In. }
    pose proof (Hb _ _ (descent_trans _ _ _ _ _ _ Hc' Hd)) as Hl. simpl in Hl. lia.
Qed.
End Roots.

Lemma rootNames_spec h states r : r ∈ rootNames h states -> is_Some (h !! r) /\ parentOf h r = None /\ childrenOf h r <> [].
Proof.
  unfold rootNames. intros Hr. apply elem_of_flat_map in Hr as ([key sn] & _ & Hr). unfold parentOf, childrenOf.
  destruct (h !! key) as [x|] eqn:Hk; [| by apply elem_of_nil in Hr].
  destruct (bool_decide (hParent x = None)) eqn:Hp; [| by apply elem_of_nil in Hr].
  destruct (bool_decide (hChildren x = [])) eqn:Hc; [by apply elem_of_nil in Hr |].
  apply list_elem_of_singleton in Hr as ->. bool_hyps. rewrite Hk. simpl. eauto.
Qed.

(** The parent check of [Validate] on a parsed index. *)
Lemma parsed_parents h fuel names err : wfHeap h ->
  checkParents (map (fun n => (n, treeOf (S fuel) h n)) names) err = None.
Proof.
  intros Hwf. apply for_each_None. intros [name node] Hin. apply list_elem_of_fmap in Hin as (n & [= -> ->] & _).
  apply for_each_None. intros child Hc. cbn [treeOf] in Hc |- *.
  destruct (h !! n) as [x|] eqn:Hn; simpl in Hc; [| by apply elem_of_nil in Hc].
  apply list_elem_of_fmap in Hc as (c & -> & Hc).
  assert (Hp : parentOf h c = Some n) by (apply Hwf; unfold childrenOf; by rewrite Hn).
  unfold parentOf in Hp. destruct (h !! c) as [y|] eqn:Hy; [| done]. simpl in Hp.
  destruct fuel; simpl; rewrite Hy; simpl; rewrite Hp; simpl; rewrite Hn; simpl; by rewrite bool_decide_true.
Qed.

(** ** When a hierarchy is accepted *)

Definition declaredChildren (states : list (string * yamlStateNode)) : list State :=
  flat_map (fun kv => ynChildren kv.2) states.

(** Every superstate transition converts. *)
Definition convertible (states : list (string * yamlStateNode)) : Prop :=
  forall key sn yt, (key, sn) ∈ states -> yt ∈ ynTransitions sn -> is_ok (convertTransition yt) = true.

Lemma collectFrom_ok {A B} (f : Z -> A -> result B) l : forall i,
  (forall j x, x ∈ l -> is_ok (f j x) = true) -> exists ys, collectFrom i f l = Ok ys.
Proof.
  induction l as [|x l IH]; intros i Hf; cbn [collectFrom]; [eauto |].
  pose proof (Hf i x ltac:(left)) as Hx. destruct (f i x); [| done]. simpl.
  destruct (IH (i + 1)%Z) as [ys ->]; [| simpl; eauto]. intros j y Hy. apply Hf. by right.
Qed.

(** The children of one entry are linked when none has a parent yet. *)
Lemma linkChildren_spec parent cs : forall h, is_Some (h !! parent) ->
  match linkChildren parent h cs with
  | Ok h' => NoDup cs /\ (forall c, c ∈ cs -> parentOf h c = None) /\
             (forall s, parentOf h' s = None <-> s ∉ cs /\ parentOf h s = None)
  | Err _ => NoDup cs -> (forall c, c ∈ cs -> parentOf h c = None) -> False
  end.
Proof.
  induction cs as [|c cs IH]; intros h Hp; cbn [linkChildren].
  { split; [constructor |]. split; [by intros ? ?%elem_of_nil |]. intros s. rewrite elem_of_nil. tauto. }
  destruct (linkChild parent h c) as [h1|e] eqn:Hl; simpl.
  - destruct (linkChild_inv _ _ _ _ Hp Hl) as (Hc & Hpar & _ & Hd).
    assert (Hp1 : is_Some (h1 !! parent)) by (apply Hd; auto). specialize (IH h1 Hp1).
    assert (Hpn : forall s, parentOf h1 s = None <-> s <> c /\ parentOf h s = None).
    { intros s. rewrite Hpar. case_decide; naive_solver. }
    destruct (linkChildren parent h1 cs) as [h'|e].
    + destruct IH as (Hnd & Hno & Hs). rewrite NoDup_cons. split_and!.
      * intros Hin. apply Hno, Hpn in Hin as [? _]. done.
      * done.
      * intros d [->|Hd']%elem_of_cons; [done |]. by apply Hno, Hpn in Hd' as [_ ?].
      * intros s. rewrite Hs, Hpn, not_elem_of_cons. tauto.
    + intros [Hcn Hnd]%NoDup_cons Hno. apply IH; [done |]. intros d Hd'. apply Hpn.
      split; [by intros -> | apply Hno; by right].
  - intros _ Hno. unfold linkChild in Hl.
    change (getOrCreate h c !! c ≫= hParent) with (parentOf (getOrCreate h c) c) in Hl.
    rewrite getOrCreate_parent, Hno in Hl by left. done.
Qed.

Lemma alter_transitions_parent ts key h s : parentOf (alter (addTransitions ts) key h) s = parentOf h s.
Proof.
  unfold parentOf. destruct (decide (s = key)) as [->|]; [rewrite lookup_alter_eq | by rewrite lookup_alter_ne].
  by destruct (h !! key).
Qed.

Lemma linkStates_ok_iff states : forall h, convertible states ->
  is_ok (linkStates h states) = true <->
  NoDup (declaredChildren states) /\ forall c, c ∈ declaredChildren states -> parentOf h c = None.
Proof.
  induction states as [|[key sn] states IH]; intros h Hconv; cbn [linkStates declaredChildren flat_map snd].
  { split; [| done]. intros _. split; [constructor | by intros ? ?%elem_of_nil]. }
  pose proof (linkChildren_spec key (ynChildren sn) (getOrCreate h key) ltac:(apply getOrCreate_dom; auto)) as Hl.
  fold (declaredChildren states).
  destruct (collectFrom_ok (fun i yt => rwrap "superstate %s transition %d: %w" [AStr key; AInt i] (convertTransition yt))
    (ynTransitions sn) 0) as [ts Hts].
  { intros j yt Hyt. pose proof (Hconv key sn yt ltac:(left) Hyt) as Hok. by destruct (convertTransition yt). }
  assert (Hconv' : convertible states) by (intros k s yt Hin; apply (Hconv k s yt); by right).
  rewrite NoDup_app. setoid_rewrite elem_of_app.
  destruct (linkChildren key (getOrCreate h key) (ynChildren sn)) as [h1|e]; cbn [rbind].
  - destruct Hl as (Hnd & Hno & Hs). setoid_rewrite getOrCreate_parent in Hno.
    setoid_rewrite getOrCreate_parent in Hs. rewrite Hts. cbn [rbind]. rewrite IH by done.
    setoid_rewrite alter_transitions_parent. setoid_rewrite Hs. naive_solver.
  - split; [done |]. intros [(Hnd & _ & _) Hno]. exfalso. apply Hl; [done |].
    intros c Hc. rewrite getOrCreate_parent. auto.
Qed.

(** ** Properties *)

(** The state hierarchy under the roots of any document that parses is a
    forest: parent and child pointers agree everywhere (so [Validate]'s parent
    check passes), a walk from a root never meets a node twice and takes fewer
    steps than there are states, so the recursive [LeafStates] and [expand] end
    on the node graph and the trees of the roots hold all of it. *)
Theorem yaml_hierarchy_is_forest (states : list (string * yamlStateNode)) (h : heap) :
  linkStates ∅ states = Ok h ->
  (forall err, checkParents (map (fun kv => (kv.1, treeOf (S (size h)) h kv.1)) (map_to_list h)) err = None) /\
  forall r, r ∈ rootNames h states ->
    (forall l n, descent h r l n -> NoDup (l ++ [n]) /\ (length l < size h)%nat) /\
    (forall m, treeOf (S (size h) + m) h r = treeOf (S (size h)) h r).
Proof.
  intros Hl. pose proof (linkStates_wf _ _ _ wfHeap_empty Hl) as Hwf. split.
  - intros err. rewrite <-(map_map fst (fun n => (n, treeOf (S (size h)) h n))). by apply parsed_parents.
  - intros r Hr. apply rootNames_spec in Hr as (Hin & Hp & _). split.
    + intros l n Hd. split; [by eapply descent_NoDup | by eapply descent_bounded].
    + intros m. apply treeOf_complete. intros l c Hd. pose proof (descent_bounded h Hwf r l c Hin Hp Hd). lia.
Qed.

(** Which hierarchies are accepted: when every superstate transition
    converts, the states section parses exactly when no state is listed as a
    child twice, whatever the order of the entries. *)
Theorem yaml_hierarchy_accepts (states : list (string * yamlStateNode)) :
  convertible states ->
  is_ok (linkStates ∅ states) = true <-> NoDup (declaredChildren states).
Proof.
  intros Hc. rewrite linkStates_ok_iff by done. split; [by intros [? _] |].
  intros Hnd. split; [done |]. intros c _. unfold parentOf. by rewrite lookup_empty.
Qed.

(** ** Witnesses *)

(** A superstate with two leaves, the second declared with an entry of its own. *)
Definition twoLeaves : list (string * yamlStateNode) :=
  [("Active", {| ynChildren := ["Relay"; "Direct"]; ynTransitions := [] |});
   ("Direct", {| ynChildren := []; ynTransitions := [] |})].

Lemma yaml_hierarchy_is_forest_witness :
  exists h, linkStates ∅ twoLeaves = Ok h /\ rootNames h twoLeaves = ["Active"] /\
    forall m, treeOf (S (size h) + m) h "Active" = treeOf (S (size h)) h "Active".
Proof.
  destruct (linkStates ∅ twoLeaves) as [h|e] eqn:Hl; [| exfalso; vm_compute in Hl; discriminate].
  exists h. split; [done |]. assert (Hr : rootNames h twoLeaves = ["Active"]).
  { vm_compute in Hl. injection Hl as <-. reflexivity. }
  split; [done |]. apply (yaml_hierarchy_is_forest twoLeaves h Hl). rewrite Hr. by left.
Defined.

Lemma yaml_hierarchy_accepts_witness :
  is_ok (linkStates ∅ (twoLeaves ++ [("Idle", {| ynChildren := ["Relay"]; ynTransitions := [] |})])) = false.
Proof.
  apply not_true_iff_false. rewrite yaml_hierarchy_accepts.
  - intros Hnd. rewrite <-(bool_decide_eq_true _) in Hnd. vm_compute in Hnd. discriminate.
  - intros key sn yt Hin Hyt. apply list_elem_of_In in Hin. simpl in Hin.
    destruct Hin as [[= _ <-]|[[= _ <-]|[[= _ <-]|[]]]]; by apply not_elem_of_nil in Hyt.
Defined.
