(* ===== verification/Tla.v ===== *)
(** * Tla: the TLA+ export and what it says about the executor (protocol/tla.go)

    [ExportTLAPhase] writes a TLA+ module for a protocol, or for one phase of
    it.  Here the module is the data it prints: the constants, the variables,
    the initial predicate and the actions with their conjuncts in order, the
    texts of TLA+ expressions as they stand.  An action is then given its
    TLA+ meaning as a relation between a state and the next one, and related
    to the transition it was written for and to the executor of [Machine]. *)

From Stdlib Require Import ZArith Lia Strings.String Strings.Ascii.
From stdpp Require Import base gmap strings list fin_maps.
From S2P Require Import Prelude Machine GoGen.

(** ** Names *)

(** The replacer of [sanitiseTLA]. *)
Fixpoint sanitiseTLA (s : string) : string :=
  match s with
  | EmptyString => EmptyString
  | String a s =>
      String (if bool_decide (a = " "%char) || bool_decide (a = "-"%char) || bool_decide (a = "."%char)
              then "_"%char else a) (sanitiseTLA s)
  end.

(** [strings.EqualFold] on ASCII. *)
Fixpoint EqualFold (s t : string) : bool :=
  match s, t with
  | EmptyString, EmptyString => true
  | String a s, String b t => bool_decide (toLower a = toLower b) && EqualFold s t
  | _, _ => false
  end.

(** What is common to the names of actions. *)
Definition actionSuffix (t : Transition) : string :=
  match Kind (On t) with
  | TriggerRecv => "_on_" +:+ sanitiseTLA (Msg (On t))
  | TriggerInternal => if bool_decide (Desc (On t) = EmptyString) then EmptyString else "_" +:+ sanitiseTLA (Desc (On t))
  end +:+ (if bool_decide (Guard t = EmptyString) then EmptyString else "_" +:+ sanitiseTLA (Guard t)).
Definition makeActionName (actorName : string) (t : Transition) : string :=
  sanitiseTLA actorName +:+ "_" +:+ sanitiseTLA (From t) +:+ "_to_" +:+ sanitiseTLA (To t) +:+ actionSuffix t.
Definition makeComposedActionName (actorName machineName : string) (t : Transition) : string :=
  sanitiseTLA actorName +:+ "_" +:+ sanitiseTLA machineName +:+ "_" +:+ sanitiseTLA (From t) +:+ "_to_"
    +:+ sanitiseTLA (To t) +:+ actionSuffix t.
Definition makeRouteActionName (actorName : string) (r : Route) : string :=
  sanitiseTLA actorName +:+ "_route_" +:+ sanitiseTLA (rtFrom r) +:+ "_" +:+ sanitiseTLA (rtOn r).

Definition stateVar (owner : string) : string := owner +:+ "_state".
Definition machinePrefix (a : Actor) (machine : string) : string := sanitiseTLA (Name a) +:+ "_" +:+ sanitiseTLA machine.
Definition recvVar (m : MsgType) : string := "received_" +:+ sanitiseTLA m.

(** ** The printed module *)

(** A right-hand side: the name of a constant, the empty message, a message,
    the text of an expression. *)
Inductive rhs :=
  | RConst (name : string)
  | RNone
  | RRecord (msg : string) (fields : list (string * string))
  | RText (expr : string).

(** A conjunct: [x = c], a disjunction of such equations, [x.type = MSG],
    the text of a guard, [TRUE], [x' = rhs], [UNCHANGED <<xs>>]. *)
Inductive conjunct :=
  | CEq (var const : string)
  | COneOf (var : string) (consts : list string)
  | CType (var msg : string)
  | CText (expr : string)
  | CTrue
  | CPrime (var : string) (r : rhs)
  | CUnchanged (vars : list string).

Inductive tlaProperty :=
  | PInvariant (expr : string)
  | PEventually (expr : string)
  | PLeadsTo (from to : string).

Record tlaModule := {
  tlaName : string;
  tlaDefs : list (string * string);
  tlaOperators : list Operator;
  tlaConstants : list string;
  tlaVariables : list string;
  tlaInit : list (string * rhs);
  tlaActions : list (string * list conjunct);
  tlaCmds : list (string * list string);
  tlaProperties : list (string * tlaProperty)
}.

(** ** Choosing what a phase contains *)

Definition inPhase (phase : option Phase) (s : State) : bool :=
  match phase with
  | None => true
  | Some ph => match phaseStates ph with [] => true | ss => bool_decide (s ∈ ss) end
  end.
Definition staysInPhase (phase : option Phase) (t : Transition) : bool := inPhase phase (From t) && inPhase phase (To t).
Definition varInPhase (phase : option Phase) (v : string) : bool :=
  match phase with None => true | Some ph => bool_decide (v ∈ phaseVars ph) end.

(** [phaseTransitions] and [composedTransitions]. *)
Definition phaseTransitions (p : Protocol) (phase : option Phase) : list (Actor * Transition) :=
  flat_map (fun a => if IsComposed a then []
                     else map (fun t => (a, t)) (List.filter (staysInPhase phase) (FlattenedTransitions a))) (Actors p).
Definition composedTransitions (p : Protocol) : list (Actor * SubMachine * Transition) :=
  flat_map (fun a => if IsComposed a then
                       flat_map (fun m => map (fun t => (a, m, t)) (SubMachine_FlattenedTransitions m)) (Machines a)
                     else []) (Actors p).
(** The transitions written as actions, flat ones first. *)
Definition usedTransitions (p : Protocol) (phase : option Phase) : list Transition :=
  map snd (phaseTransitions p phase) ++ map snd (composedTransitions p).

Definition usedMsgs (p : Protocol) (phase : option Phase) : list MsgType :=
  flat_map (fun t => match Kind (On t) with TriggerRecv => [Msg (On t)] | TriggerInternal => [] end ++ map sendMsg (Sends t))
    (usedTransitions p phase).
Definition usedEvents (p : Protocol) (phase : option Phase) : list EventID :=
  flat_map (fun t => match Kind (On t) with
                     | TriggerInternal => if bool_decide (Desc (On t) = EmptyString) then [] else [Desc (On t)]
                     | TriggerRecv => ["recv_" +:+ Msg (On t)]
                     end) (usedTransitions p phase).
Definition usedCmds (p : Protocol) (phase : option Phase) : list CmdID := flat_map Emits (usedTransitions p phase).

Definition isNeighbour (a : Actor) (s : State) (phase : option Phase) : bool :=
  existsb (fun t => (bool_decide (From t = s) && inPhase phase (To t)) || (bool_decide (To t = s) && inPhase phase (From t)))
    (FlattenedTransitions a).

Definition initialForPhase (a : Actor) (phase : option Phase) : State :=
  match phase with
  | None => Initial a
  | Some ph =>
      let inside s := bool_decide (s ∈ phaseStates ph) in
      if inside (Initial a) then Initial a
      else match find (fun t => negb (inside (From t)) && inside (To t)) (FlattenedTransitions a) with
           | Some t => To t
           | None => Initial a
           end
  end.

(** ** Constants and variables *)

Definition stateDefs (p : Protocol) (phase : option Phase) : list (string * string) :=
  flat_map (fun a =>
    if IsComposed a then
      flat_map (fun m =>
        map (fun s => (machinePrefix a (smName m) +:+ "_" +:+ sanitiseTLA s, Name a +:+ "_" +:+ smName m +:+ "_" +:+ s))
          (collectSubMachineStates m)) (Machines a)
    else
      map (fun s => (sanitiseTLA (Name a) +:+ "_" +:+ sanitiseTLA s, Name a +:+ "_" +:+ s))
        (List.filter (fun s => inPhase phase s || isNeighbour a s phase) (collectStates a))) (Actors p).

Definition msgDefs (p : Protocol) (phase : option Phase) : list (string * string) :=
  let used := usedMsgs p phase in
  map (fun m => ("MSG_" +:+ sanitiseTLA (msgType m), msgType m))
    (List.filter (fun m => match used with [] => true | _ => bool_decide (msgType m ∈ used) end) (Messages p)).
Definition eventDefs (p : Protocol) (phase : option Phase) : list (string * string) :=
  map (fun e => ("EVT_" +:+ sanitiseTLA e, e)) (sortedKeys (usedEvents p phase)).
Definition cmdDefs (p : Protocol) (phase : option Phase) : list (string * string) :=
  map (fun c => ("CMD_" +:+ sanitiseTLA c, c)) (sortedKeys (usedCmds p phase)).

(** The protocol's variables that are declared in the module. *)
Definition moduleVars (p : Protocol) (phase : option Phase) : list VarDef :=
  List.filter (fun v => negb (bool_decide (varName v = "recv_msg")) && varInPhase phase (varName v)) (Vars p).
Definition modifiedVars (p : Protocol) (phase : option Phase) : list string :=
  flat_map (fun t => map Var (Updates t)) (usedTransitions p phase).

Definition hasTransitions (p : Protocol) (phase : option Phase) (a : Actor) : bool :=
  existsb (fun at_ => bool_decide (Name at_.1 = Name a)) (phaseTransitions p phase).
Definition actorChangesState (p : Protocol) (phase : option Phase) (a : Actor) : bool :=
  existsb (fun at_ => bool_decide (Name at_.1 = Name a) && negb (bool_decide (From at_.2 = To at_.2))) (phaseTransitions p phase).

Definition constVars (p : Protocol) (phase : option Phase) : list string :=
  let modified := modifiedVars p phase in
  map (fun v => sanitiseTLA (varName v))
    (List.filter (fun v => negb (bool_decide (varName v ∈ modified))) (moduleVars p phase))
  ++ flat_map (fun a => if negb (IsComposed a) && hasTransitions p phase a && negb (actorChangesState p phase a)
                        then [stateVar (sanitiseTLA (Name a))] else []) (Actors p).

(** [recvVars]: first occurrences. *)
Definition recvVars (p : Protocol) (phase : option Phase) : list string :=
  foldl addState [] (flat_map (fun t => match Kind (On t) with TriggerRecv => [recvVar (Msg (On t))] | TriggerInternal => [] end)
                       (usedTransitions p phase)).

Definition flatStateVars (p : Protocol) (phase : option Phase) : list string :=
  flat_map (fun a => if negb (IsComposed a) && hasTransitions p phase a && actorChangesState p phase a
                     then [stateVar (sanitiseTLA (Name a))] else []) (Actors p).
Definition composedStateVars (p : Protocol) : list string :=
  flat_map (fun a => map (fun m => stateVar (machinePrefix a (smName m))) (Machines a)) (Actors p).
(** The variables that are not promoted to constants. *)
Definition freeVars (p : Protocol) (phase : option Phase) : list VarDef :=
  let consts := constVars p phase in
  List.filter (fun v => negb (bool_decide (sanitiseTLA (varName v) ∈ consts))) (moduleVars p phase).

Definition allVarNames (p : Protocol) (phase : option Phase) : list string :=
  flatStateVars p phase ++ composedStateVars p
  ++ map (fun v => sanitiseTLA (varName v)) (freeVars p phase) ++ recvVars p phase.

(** ** Init *)

(** The first occurrence of each actor among the phase's transitions. *)
Definition initActors (p : Protocol) (phase : option Phase) : list Actor :=
  foldl (fun seen a => if existsb (fun b => bool_decide (Name b = Name a)) seen then seen else seen ++ [a])
    [] (map fst (phaseTransitions p phase)).

Definition exportInit (p : Protocol) (phase : option Phase) : list (string * rhs) :=
  map (fun a => (stateVar (sanitiseTLA (Name a)),
                 RConst (sanitiseTLA (Name a) +:+ "_" +:+ sanitiseTLA (initialForPhase a phase)))) (initActors p phase)
  ++ flat_map (fun a => map (fun m => (stateVar (machinePrefix a (smName m)),
                                       RConst (machinePrefix a (smName m) +:+ "_" +:+ sanitiseTLA (smInitial m)))) (Machines a))
       (Actors p)
  ++ map (fun v => (sanitiseTLA (varName v), RText (varInitial v))) (freeVars p phase)
  ++ map (fun v => (v, RNone)) (recvVars p phase).

(** ** Actions *)

Definition guardText (p : Protocol) (i : GuardID) : string :=
  default i (guardExpr <$> find (fun g => bool_decide (guardID g = i)) (Guards p)).

(** The fields of [writeRecord], in the order of their names. *)
Definition writeRecord (s : MsgSend) : rhs :=
  RRecord (sendMsg s)
    (flat_map (fun k => match find (fun e => bool_decide (e.1 = k)) (sendFields s) with Some e => [e] | None => [] end)
       (sortedKeys (map fst (sendFields s)))).

(** [recv_msg] stands for the message a transition receives. *)
Definition substRecv (t : Transition) (expr : string) : string :=
  match Kind (On t) with
  | TriggerRecv => ReplaceAll expr "recv_msg" (recvVar (Msg (On t)))
  | TriggerInternal => expr
  end.

(** The primed equations of a transition whose owner has the given prefix. *)
Definition transitionPrimes (owner : string) (t : Transition) : list (string * rhs) :=
  match Kind (On t) with TriggerRecv => [(recvVar (Msg (On t)), RNone)] | TriggerInternal => [] end
  ++ map (fun s => (recvVar (sendMsg s), writeRecord s)) (Sends t)
  ++ [(stateVar owner, RConst (owner +:+ "_" +:+ sanitiseTLA (To t)))]
  ++ map (fun u => (sanitiseTLA (Var u), RText (substRecv t (Expr u)))) (Updates t).

Definition unchangedConjunct (vars modified : list string) : list conjunct :=
  match List.filter (fun v => negb (bool_decide (v ∈ modified))) vars with
  | [] => []
  | unchanged => [CUnchanged unchanged]
  end.

(** The body of an action, of a flat actor or of a sub-machine. *)
Definition transitionAction (p : Protocol) (vars : list string) (owner : string) (t : Transition) : list conjunct :=
  [CEq (stateVar owner) (owner +:+ "_" +:+ sanitiseTLA (From t))]
  ++ match Kind (On t) with TriggerRecv => [CType (recvVar (Msg (On t))) (Msg (On t))] | TriggerInternal => [] end
  ++ (if bool_decide (Guard t = EmptyString) then [] else [CText (substRecv t (guardText p (Guard t)))])
  ++ map (fun e => CPrime e.1 e.2) (transitionPrimes owner t)
  ++ unchangedConjunct vars (map fst (transitionPrimes owner t)).

Definition machineNamed (a : Actor) (name : string) : option SubMachine :=
  find (fun m => bool_decide (smName m = name)) (Machines a).

Definition reportingStates (a : Actor) (machine : string) (event : EventID) : list State :=
  match machineNamed a machine with
  | None => []
  | Some m =>
      foldl (fun states t =>
        let states := if bool_decide (Kind (On t) = TriggerInternal) && bool_decide (Desc (On t) = event)
                      then addState states (To t) else states in
        if EqualFold (To t) event then addState states (To t) else states)
        [] (SubMachine_FlattenedTransitions m)
  end.

Definition acceptingState (a : Actor) (machine : string) (event : EventID) : State :=
  match machineNamed a machine with
  | None => EmptyString
  | Some m =>
      default EmptyString
        (To <$> find (fun t => bool_decide (Kind (On t) = TriggerInternal) && bool_decide (Desc (On t) = event))
                  (SubMachine_FlattenedTransitions m))
  end.

(** The primed equation of one delivery; without an accepting state the
    target keeps its state. *)
Definition routePrime (a : Actor) (s : RouteSend) : string * rhs :=
  let target := stateVar (machinePrefix a (rsTo s)) in
  let st := acceptingState a (rsTo s) (rsEvent s) in
  (target, if bool_decide (st = EmptyString) then RText target
           else RConst (machinePrefix a (rsTo s) +:+ "_" +:+ sanitiseTLA st)).

Definition routeAction (p : Protocol) (vars : list string) (a : Actor) (r : Route) : list conjunct :=
  let source := stateVar (machinePrefix a (rtFrom r)) in
  let const st := machinePrefix a (rtFrom r) +:+ "_" +:+ sanitiseTLA st in
  match reportingStates a (rtFrom r) (rtOn r) with
  | [] => [CTrue]
  | [st] => [CEq source (const st)]
  | sts => [COneOf source (map const sts)]
  end
  ++ (if bool_decide (rtGuard r = EmptyString) then [] else [CText (guardText p (rtGuard r))])
  ++ map (fun s => CPrime (routePrime a s).1 (routePrime a s).2) (rtSends r)
  ++ unchangedConjunct vars (map (fun s => (routePrime a s).1) (rtSends r)).

Definition flatActions (p : Protocol) (phase : option Phase) (vars : list string) : list (string * list conjunct) :=
  map (fun e => (makeActionName (Name e.1) e.2, transitionAction p vars (sanitiseTLA (Name e.1)) e.2)) (phaseTransitions p phase).

(** The actions of a composed actor's sub-machines, and of its routes. *)
Definition composedActions (p : Protocol) (vars : list string) (a : Actor) : list (string * list conjunct) :=
  flat_map (fun m => map (fun t => (makeComposedActionName (Name a) (smName m) t,
                                    transitionAction p vars (machinePrefix a (smName m)) t))
                       (SubMachine_FlattenedTransitions m)) (Machines a).
Definition routeActions (p : Protocol) (vars : list string) (a : Actor) : list (string * list conjunct) :=
  map (fun r => (makeRouteActionName (Name a) r, routeAction p vars a r)) (Routes a).

Definition exportActions (p : Protocol) (phase : option Phase) : list (string * list conjunct) :=
  let vars := allVarNames p phase in
  flatActions p phase vars
  ++ flat_map (fun a => if IsComposed a then composedActions p vars a ++ routeActions p vars a else []) (Actors p).

(** The operators [Cmds_<action>]. *)
Definition cmdsOperator (action : string) (t : Transition) : list (string * list string) :=
  match Emits t with
  | [] => []
  | es => [("Cmds_" +:+ action, map (fun c => "CMD_" +:+ sanitiseTLA c) es)]
  end.
Definition exportCmds (p : Protocol) (phase : option Phase) : list (string * list string) :=
  flat_map (fun e => cmdsOperator (makeActionName (Name e.1) e.2) e.2) (phaseTransitions p phase)
  ++ flat_map (fun e => cmdsOperator (makeComposedActionName (Name e.1.1) (smName e.1.2) e.2) e.2) (composedTransitions p).

(** ** Properties *)

Definition propertyRelevant (prop : Property) (ph : Phase) (vars : list VarDef) : bool :=
  match phaseVars ph with
  | [] => true
  | pvars =>
      let expr := propExpr prop +:+ propFromExpr prop +:+ propToExpr prop in
      negb (existsb (fun v => negb (bool_decide (varName v ∈ pvars)) && negb (bool_decide (varName v = "recv_msg"))
                              && Contains expr (varName v)) vars)
      && (negb (Contains expr "adversary_knowledge" || Contains expr "adversary_keys")
          || bool_decide ("adversary_keys" ∈ pvars))
  end.

Definition exportProperty (prop : Property) : string * tlaProperty :=
  (sanitiseTLA (propName prop),
   match propKind prop with
   | Invariant => PInvariant (propExpr prop)
   | Liveness => PEventually (propExpr prop)
   | LeadsTo => PLeadsTo (propFromExpr prop) (propToExpr prop)
   end).

Definition exportName (p : Protocol) (phase : option Phase) : string :=
  match phase with
  | None => sanitiseTLA (pName p)
  | Some ph =>
      if bool_decide (pName p = "Session") && bool_decide (phaseName ph = "Transport") then "SessionMachine"
      else sanitiseTLA (pName p) +:+ "_" +:+ sanitiseTLA (phaseName ph)
  end.

Definition exportModule (p : Protocol) (phase : option Phase) : tlaModule := {|
  tlaName := exportName p phase;
  tlaDefs := stateDefs p phase ++ msgDefs p phase ++ eventDefs p phase ++ cmdDefs p phase;
  tlaOperators := Operators p;
  tlaConstants := constVars p phase;
  tlaVariables := allVarNames p phase;
  tlaInit := exportInit p phase;
  tlaActions := exportActions p phase;
  tlaCmds := exportCmds p phase;
  tlaProperties := map exportProperty
    (List.filter (fun prop => match phase with None => true | Some ph => propertyRelevant prop ph (Vars p) end) (Properties p))
|}.

Definition ExportTLAPhase (p : Protocol) (name : string) : result tlaModule :=
  if bool_decide (name = EmptyString) then Ok (exportModule p None)
  else match find (fun ph => bool_decide (phaseName ph = name)) (Phases p) with
       | Some ph => Ok (exportModule p (Some ph))
       | None => Err (EFmt "phase %q not found" [AStr name])
       end.

Definition ExportTLA (p : Protocol) : result tlaModule := ExportTLAPhase p EmptyString.

(** ** What a module means *)

(** The values and expressions of TLA+: strings, records with a [type] field,
    the value of an expression's text in a state, its truth. *)
Class TLA (V : Type) := {
  str : string -> V;
  record : string -> list (string * V) -> V;
  typeOf : V -> string;
  text : string -> (string -> V) -> V;
  truth : V -> bool
}.

Section Meaning.
Context {V : Type} {tla : TLA V}.

(** A state gives every variable a value. *)
Definition tstate : Type := string -> V.

(** The string a constant was defined to be. *)
Definition defValue (defs : list (string * string)) (name : string) : string :=
  default EmptyString (snd <$> find (fun d => bool_decide (d.1 = name)) defs).
Definition msgConst (m : MsgType) : string := "MSG_" +:+ sanitiseTLA m.

Definition evalRhs (defs : list (string * string)) (s : tstate) (r : rhs) : V :=
  match r with
  | RConst name => str (defValue defs name)
  | RNone => record "none" []
  | RRecord m fields => record (defValue defs (msgConst m)) (map (fun f => (f.1, text f.2 s)) fields)
  | RText e => text e s
  end.

Definition holds (defs : list (string * string)) (s s' : tstate) (c : conjunct) : Prop :=
  match c with
  | CEq v k => s v = str (defValue defs k)
  | COneOf v ks => exists k, k ∈ ks /\ s v = str (defValue defs k)
  | CType v m => typeOf (s v) = defValue defs (msgConst m)
  | CText e => truth (text e s) = true
  | CTrue => True
  | CPrime v r => s' v = evalRhs defs s r
  | CUnchanged vs => forall v, v ∈ vs -> s' v = s v
  end.

Definition actionHolds (md : tlaModule) (body : list conjunct) (s s' : tstate) : Prop :=
  Forall (holds (tlaDefs md) s s') body.

(** [Init], [Next] and the states the specification reaches; a state also says
    what the constants are. *)
Definition Init (md : tlaModule) (s : tstate) : Prop :=
  Forall (fun e => s e.1 = evalRhs (tlaDefs md) s e.2) (tlaInit md).
Definition Next (md : tlaModule) (s s' : tstate) : Prop :=
  (forall k, k ∈ tlaConstants md -> s' k = s k) /\
  exists name body, (name, body) ∈ tlaActions md /\ actionHolds md body s s'.
Definition reachable (md : tlaModule) (s : tstate) : Prop :=
  exists s0, Init md s0 /\ rtc (Next md) s0 s.

(** ** The executors, with the variables of the model *)

(** What a guard or an update of a transition reads: the variables, and the
    message being handled under the name [recv_msg]. *)
Definition deliver (t : Trigger) (s : tstate) : tstate :=
  match Kind t with
  | TriggerRecv => fun v => if bool_decide (v = "recv_msg") then s (recvVar (Msg t)) else s v
  | TriggerInternal => s
  end.

(** What a transition says it sends and updates: the messages replace what
    their receivers had. *)
Definition sendWrites (t : Transition) (s : tstate) : list (string * V) :=
  map (fun sd => (recvVar (sendMsg sd),
                  match writeRecord sd with
                  | RRecord m fields => record m (map (fun f => (f.1, text f.2 s)) fields)
                  | _ => record (sendMsg sd) []
                  end)) (Sends t).
Definition updateWrites (t : Transition) (s : tstate) : list (string * V) :=
  map (fun u => (sanitiseTLA (Var u), text (Expr u) (deliver (On t) s))) (Updates t).

(** What the transition as a whole writes: the message it receives is
    consumed, and its actor moves. *)
Definition writes (a : Actor) (t : Transition) (s : tstate) : list (string * V) :=
  match Kind (On t) with TriggerRecv => [(recvVar (Msg (On t)), record "none" [])] | TriggerInternal => [] end
  ++ sendWrites t s
  ++ [(stateVar (sanitiseTLA (Name a)), str (Name a +:+ "_" +:+ To t))]
  ++ updateWrites t s.

Definition set (s : tstate) (w : string * V) : tstate := fun v => if bool_decide (v = w.1) then w.2 else s v.
Definition effect (a : Actor) (t : Transition) (s : tstate) : tstate := foldl set s (writes a t s).

(** A configuration: the machine of each actor, and the variables. *)
Definition config : Type := gmap string (Machine tstate) * tstate.

(** The guards are registered as what the protocol defines them to be. *)
Definition guardsRegistered (p : Protocol) (m : Machine tstate) : Prop :=
  forall g, g ∈ guardIDs p -> guards m !! g = Some (fun s => truth (text (guardText p g) s)).

(** The executor carries out no sends and no updates itself: the actions do.
    The actions registered with [m] do what its transitions say: a transition
    that sends or updates names an action, and that action, when it
    succeeds, leaves in the variables what the transition says (and no
    variable is called [recv_msg]). *)
Definition actionsPerform (a : Actor) (m : Machine tstate) : Prop :=
  forall t, t ∈ FlattenedTransitions a ->
    (Do t = EmptyString -> Sends t = [] /\ Updates t = []) /\
    (forall s, "recv_msg" ∉ map fst (sendWrites t s ++ updateWrites t s)) /\
    (forall f s s1 v, actions m !! Do t = Some f -> f (deliver (On t) s) = (s1, None) -> v <> "recv_msg" ->
       s1 v = foldl set s (sendWrites t s ++ updateWrites t s) v).

(** The variables after a call of the machine of [a] that left [s1] in its
    context: the machine's state is the actor's, the message handled is gone,
    [recv_msg] no longer names it, and the rest is as the actions left it. *)
Definition settle (a : Actor) (m' : Machine tstate) (on : Trigger) (s s1 : tstate) : tstate := fun v =>
  if bool_decide (v = stateVar (sanitiseTLA (Name a))) then str (Name a +:+ "_" +:+ state m')
  else if bool_decide (Kind on = TriggerRecv) && bool_decide (v = recvVar (Msg on)) then record "none" []
  else if bool_decide (v = "recv_msg") then s v else s1 v.

(** The machine of an actor handles a message that has been sent to it, or an
    event of its own. *)
Inductive sysStep (p : Protocol) : config -> config -> Prop :=
  | step_message ms s a m m' msg s1 :
      a ∈ Actors p -> ms !! Name a = Some m -> typeOf (s (recvVar msg)) = msg ->
      HandleMessage m msg (deliver (Recv msg) s) = (m', s1, None) ->
      sysStep p (ms, s) (<[Name a := m']> ms, settle a m' (Recv msg) s s1)
  | step_event ms s a m m' order ev s1 :
      a ∈ Actors p -> ms !! Name a = Some m -> ev <> EmptyString ->
      Step m order ev s = (m', s1, None) ->
      sysStep p (ms, s) (<[Name a := m']> ms, settle a m' (Internal ev) s s1).

(** Machines as [NewMachine] makes them, and variables as [Init] has them. *)
Definition sysInit (p : Protocol) (md : tlaModule) (c : config) : Prop :=
  Init md c.2 /\
  (forall a m, a ∈ Actors p -> c.1 !! Name a = Some m -> 
     built p a m /\ state m = Initial a /\ guardsRegistered p m /\ actionsPerform a m).

End Meaning.

(** ** When an export is sound *)

Definition distinct (l : list string) : bool := bool_decide (NoDup l).

(** What a transition primes: a declared variable, or its own actor's state
    where that never changes and so is a constant. *)
Definition primeDeclared (md : tlaModule) (owner : string) (t : Transition) (v : string) : bool :=
  bool_decide (v ∈ tlaVariables md)
  || (bool_decide (v ∈ tlaConstants md) && bool_decide (v = stateVar owner) && bool_decide (From t = To t)).

(** Checks on a protocol that TLA+ makes of the exported module, or that its
    names require: no name is declared or defined twice, an action assigns
    only declared variables, none of them twice and none of them another
    actor's state, actor names differ, messages are declared. *)
Definition exportable (p : Protocol) : bool :=
  let md := exportModule p None in
  match Validate p with
  | Some _ => false
  | None =>
      forallb (fun a => negb (IsComposed a)) (Actors p)
      && distinct (map Name (Actors p))
      && distinct (map fst (tlaDefs md))
      && distinct (tlaVariables md ++ tlaConstants md)
      && forallb (fun e =>
           let owner := sanitiseTLA (Name e.1) in
           let primed := map fst (transitionPrimes owner e.2) in
           distinct primed && forallb (primeDeclared md owner e.2) primed
           && forallb (fun b => bool_decide (Name b = Name e.1) || negb (bool_decide (stateVar (sanitiseTLA (Name b)) ∈ primed)))
                (Actors p)) (phaseTransitions p None)
      && forallb (fun m => bool_decide (m ∈ map msgType (Messages p))) (usedMsgs p None)
  end.

(** Substituting the text [recv_msg] by the variable that holds the message
    is reading the message, for the guards and updates of the protocol. *)
Definition substitutes {V} {tla : TLA V} (p : Protocol) : Prop :=
  forall e msg s, e ∈ map guardExpr (Guards p) ++ flat_map (fun t => map Expr (Updates t)) (usedTransitions p None) ->
    text (ReplaceAll e "recv_msg" (recvVar msg)) s = text e (deliver (Recv msg) s).

(** ** Lemmas *)

Lemma defValue_elem (defs : list (string * string)) n v :
  NoDup (map fst defs) -> (n, v) ∈ defs -> defValue defs n = v.
Proof.
  intros Hn Hin. unfold defValue. induction defs as [|[k w] defs IH]; [by apply elem_of_nil in Hin |].
  cbn [map fst] in Hn. apply NoDup_cons in Hn as [Hk Hn]. cbn [find fst].
  case_bool_decide as E.
  - subst k. apply elem_of_cons in Hin as [[= <-]|Hin]; [done |].
    exfalso. apply Hk. apply list_elem_of_fmap. by exists (n, v).
  - apply elem_of_cons in Hin as [[= -> ->]|Hin]; [done |]. auto.
Qed.

Lemma elem_phaseTransitions p a t :
  (a, t) ∈ phaseTransitions p None <-> a ∈ Actors p /\ IsComposed a = false /\ t ∈ FlattenedTransitions a.
Proof.
  unfold phaseTransitions. rewrite elem_of_flat_map.
  assert (Hf : forall l, List.filter (staysInPhase None) l = l).
  { induction l as [|x l IH]; [done |]. cbn. by rewrite IH. }
  split.
  - intros (b & Hb & Hin). destruct (IsComposed b) eqn:E; [by apply elem_of_nil in Hin |].
    rewrite Hf in Hin. apply list_elem_of_fmap in Hin as (t' & [= <- <-] & Ht). done.
  - intros (Ha & Hc & Ht). exists a. split; [done |]. rewrite Hc, Hf. apply list_elem_of_fmap. by exists t.
Qed.

Lemma initActors_spec p phase a :
  a ∈ map fst (phaseTransitions p phase) ->
  exists b, b ∈ initActors p phase /\ Name b = Name a /\ b ∈ map fst (phaseTransitions p phase).
Proof.
  unfold initActors. generalize (map fst (phaseTransitions p phase)). intros l. revert a.
  induction l as [|x l IH] using rev_ind; intros a Ha; [by apply elem_of_nil in Ha |].
  rewrite foldl_snoc. set (seen := foldl _ _ l) in *. apply elem_of_app in Ha as [Ha|Ha].
  - destruct (IH a Ha) as (b & Hb & Hn & Hl). exists b. split_and!; [| done | apply elem_of_app; by left].
    destruct (existsb _ seen); [done | apply elem_of_app; by left].
  - apply list_elem_of_singleton in Ha as ->. destruct (existsb _ seen) eqn:E.
    + apply existsb_exists in E as (b & Hb & Hn). apply list_elem_of_In in Hb. bool_hyps.
      assert (Hsub : forall c, c ∈ seen -> c ∈ l).
      { clear -l. subst seen. induction l as [|y l IH] using rev_ind; [done |]. rewrite foldl_snoc. intros c.
        destruct (existsb _ _); rewrite ?elem_of_app; intros Hc; [left; auto |]. destruct Hc; [left; auto | by right]. }
      exists b. split_and!; [done | done | apply elem_of_app; left; auto].
    + exists x. split_and!; [apply elem_of_app; right; by left | done | apply elem_of_app; right; by left].
Qed.

Section Store.
Context {V : Type}.

Lemma foldl_set_out (ws : list (string * V)) : forall (s : tstate) v, v ∉ map fst ws -> foldl set s ws v = s v.
Proof.
  induction ws as [|w ws IH]; intros s v Hv; [done |]. cbn [map] in Hv. cbn [foldl].
  rewrite IH by set_solver. unfold set. rewrite bool_decide_false by set_solver. done.
Qed.

Lemma foldl_set_in (ws : list (string * V)) : forall (s : tstate) v x,
  NoDup (map fst ws) -> (v, x) ∈ ws -> foldl set s ws v = x.
Proof.
  induction ws as [|w ws IH]; intros s v x Hn Hin; [by apply elem_of_nil in Hin |].
  cbn [map] in Hn. apply NoDup_cons in Hn as [Hw Hn]. cbn [foldl].
  apply elem_of_cons in Hin as [<-|Hin]; [| by apply IH].
  rewrite foldl_set_out by done. unfold set. by rewrite bool_decide_true.
Qed.
End Store.

Section Sound.
Context {V : Type} {tla : TLA V}.
Context (p : Protocol) (md : tlaModule).
Context (Hmd : md = exportModule p None) (Hexp : exportable p = true) (Hsub : substitutes p).

Lemma exportable_parts :
  Validate p = None /\ (forall a, a ∈ Actors p -> IsComposed a = false) /\ NoDup (map Name (Actors p)) /\
  NoDup (map fst (tlaDefs md)) /\ NoDup (tlaVariables md ++ tlaConstants md) /\
  (forall m, m ∈ usedMsgs p None -> m ∈ map msgType (Messages p)).
Proof.
  pose proof Hexp as He. unfold exportable, distinct in He. rewrite <-Hmd in He. destruct (Validate p); [done |].
  cbv zeta in He. rewrite !andb_true_iff, !forallb_forall in He. destruct He as [[[[[Hc Hn] Hd] Hv] Ht] Hm].
  setoid_rewrite <-list_elem_of_In in Hc. setoid_rewrite <-list_elem_of_In in Hm.
  split_and!; [done | | by eapply bool_decide_eq_true | by eapply bool_decide_eq_true | by eapply bool_decide_eq_true |].
  - intros a Ha. apply negb_true_iff. auto.
  - intros m Hin. eapply bool_decide_eq_true, Hm, Hin.
Qed.

Lemma exportable_primes a t :
  (a, t) ∈ phaseTransitions p None ->
  let owner := sanitiseTLA (Name a) in
  let primed := map fst (transitionPrimes owner t) in
  NoDup primed /\ (forall v, v ∈ primed -> primeDeclared md owner t v = true) /\
  (forall b, b ∈ Actors p -> Name b <> Name a -> stateVar (sanitiseTLA (Name b)) ∉ primed).
Proof.
  intros Hat. pose proof Hexp as He. unfold exportable, distinct in He. rewrite <-Hmd in He. destruct (Validate p); [done |].
  cbv zeta in He. rewrite !andb_true_iff, !forallb_forall in He. destruct He as [[_ Ht] _].
  setoid_rewrite <-list_elem_of_In in Ht. apply Ht in Hat. cbn [fst snd] in Hat. cbv zeta in Hat |- *.
  rewrite !andb_true_iff, !forallb_forall in Hat. destruct Hat as [[Hd Hp] Hb].
  setoid_rewrite <-list_elem_of_In in Hp. setoid_rewrite <-list_elem_of_In in Hb.
  split_and!; [by eapply bool_decide_eq_true | done |].
  intros b Hin Hne. apply Hb in Hin. apply orb_true_iff in Hin as [Hin|Hin]; bool_hyps; done.
Qed.

Lemma state_const a st :
  a ∈ Actors p -> st ∈ collectStates a ->
  defValue (tlaDefs md) (sanitiseTLA (Name a) +:+ "_" +:+ sanitiseTLA st) = Name a +:+ "_" +:+ st.
Proof.
  intros Ha Hs. destruct exportable_parts as (_ & Hc & _ & Hd & _). apply defValue_elem; [done |].
  rewrite Hmd. cbn [tlaDefs exportModule]. rewrite !elem_of_app. left. unfold stateDefs. apply elem_of_flat_map.
  exists a. split; [done |]. rewrite (Hc a Ha). apply list_elem_of_fmap. exists st. split; [done |].
  apply list_elem_of_In, filter_In. split; [by apply list_elem_of_In | done].
Qed.

Lemma msg_const m : m ∈ usedMsgs p None -> defValue (tlaDefs md) (msgConst m) = m.
Proof.
  intros Hm. destruct exportable_parts as (_ & _ & _ & Hd & _ & Hu). apply defValue_elem; [done |].
  rewrite Hmd. cbn [tlaDefs exportModule]. rewrite !elem_of_app. right. left. unfold msgDefs.
  pose proof (Hu m Hm) as Hdecl. apply list_elem_of_fmap in Hdecl as (d & -> & Hdm).
  apply list_elem_of_fmap. exists d. split; [done |]. apply list_elem_of_In, filter_In.
  split; [by apply list_elem_of_In |]. destruct (usedMsgs p None); [done |]. by apply bool_decide_eq_true.
Qed.

Lemma used_transition a t : (a, t) ∈ phaseTransitions p None -> t ∈ usedTransitions p None.
Proof. intros H. unfold usedTransitions. apply elem_of_app. left. apply list_elem_of_fmap. by exists (a, t). Qed.

Lemma To_collected a t : t ∈ FlattenedTransitions a -> From t ∈ collectStates a /\ To t ∈ collectStates a.
Proof. intros Ht. split; apply collectStates_spec; right; exists t; auto. Qed.

(** The primed equations of a transition give exactly what it writes. *)
Lemma primes_writes a t s :
  (a, t) ∈ phaseTransitions p None ->
  map (fun e => (e.1, evalRhs (tlaDefs md) s e.2)) (transitionPrimes (sanitiseTLA (Name a)) t) = writes a t s.
Proof.
  intros Hin. pose proof (used_transition _ _ Hin) as Hu. apply elem_phaseTransitions in Hin as (Ha & _ & Ht).
  unfold transitionPrimes, writes, sendWrites, updateWrites. rewrite !map_app, !map_map. f_equal; [by destruct (Kind (On t)) |].
  f_equal; [| f_equal].
  - apply map_ext_in. intros sd Hsd. cbn [fst snd writeRecord evalRhs]. rewrite msg_const; [done |].
    unfold usedMsgs. apply elem_of_flat_map. exists t. split; [done |]. apply elem_of_app. right.
    apply list_elem_of_fmap. exists sd. split; [done |]. by apply list_elem_of_In.
  - cbn. rewrite state_const; [done | done |]. by apply To_collected.
  - apply map_ext_in. intros u Hup. cbn [fst snd evalRhs]. f_equal. unfold substRecv, deliver.
    destruct (Kind (On t)) eqn:Hk; [| done].
    rewrite (Hsub (Expr u) (Msg (On t)) s); [done |]. apply elem_of_app. right. apply elem_of_flat_map.
    exists t. split; [done |]. apply list_elem_of_fmap. exists u. split; [done | by apply list_elem_of_In].
Qed.

Lemma writes_fst a t s :
  (a, t) ∈ phaseTransitions p None -> map fst (writes a t s) = map fst (transitionPrimes (sanitiseTLA (Name a)) t).
Proof. intros Hin. rewrite <-(primes_writes a t s Hin), map_map. done. Qed.

Lemma effect_state a t s :
  (a, t) ∈ phaseTransitions p None -> effect a t s (stateVar (sanitiseTLA (Name a))) = str (Name a +:+ "_" +:+ To t).
Proof.
  intros Hin. unfold effect. apply foldl_set_in; [rewrite writes_fst by done; by apply exportable_primes |].
  unfold writes. rewrite !elem_of_app. right. right. left. by left.
Qed.

Lemma constants_kept a t s :
  (a, t) ∈ phaseTransitions p None ->
  s (stateVar (sanitiseTLA (Name a))) = str (Name a +:+ "_" +:+ From t) ->
  forall k, k ∈ tlaConstants md -> effect a t s k = s k.
Proof.
  intros Hin Hst k Hk. destruct (exportable_primes a t Hin) as (_ & Hdecl & _).
  destruct exportable_parts as (_ & _ & _ & _ & Hdis & _). apply NoDup_app in Hdis as (_ & Hdis & _).
  destruct (decide (k ∈ map fst (transitionPrimes (sanitiseTLA (Name a)) t))) as [Hp|Hp].
  - apply Hdecl in Hp. unfold primeDeclared in Hp. rewrite orb_true_iff, !andb_true_iff in Hp.
    destruct Hp as [Hp|[[_ Hown] Hsame]]; bool_hyps; [by destruct (Hdis k) |]. subst k.
    rewrite effect_state by done. congruence.
  - unfold effect. apply foldl_set_out. by rewrite writes_fst.
Qed.

(** A transition that can be taken is an action of the module, and its effect
    is the action's next state. *)
Lemma transition_is_action a t s :
  (a, t) ∈ phaseTransitions p None ->
  s (stateVar (sanitiseTLA (Name a))) = str (Name a +:+ "_" +:+ From t) ->
  (Kind (On t) = TriggerRecv -> typeOf (s (recvVar (Msg (On t)))) = Msg (On t)) ->
  (Guard t <> EmptyString -> truth (text (guardText p (Guard t)) (deliver (On t) s)) = true /\ Guard t ∈ guardIDs p) ->
  Next md s (effect a t s).
Proof.
  intros Hin Hst Hmsg Hg. pose proof (used_transition _ _ Hin) as Hu.
  destruct (exportable_primes a t Hin) as (Hnd & _). split; [by apply constants_kept |].
  exists (makeActionName (Name a) t), (transitionAction p (allVarNames p None) (sanitiseTLA (Name a)) t). split.
  { rewrite Hmd. cbn. unfold exportActions, flatActions. apply elem_of_app. left. apply list_elem_of_fmap. by exists (a, t). }
  pose proof (primes_writes a t s Hin) as Hw. pose proof (writes_fst a t s Hin) as Hf.
  apply elem_phaseTransitions in Hin as (Ha & _ & Ht).
  unfold actionHolds, transitionAction. rewrite !Forall_app. split_and!.
  - apply Forall_singleton. cbn. rewrite state_const; [done | done |]. by apply To_collected.
  - destruct (Kind (On t)) eqn:Hk; [| constructor]. apply Forall_singleton. cbn. rewrite Hmsg by done.
    rewrite msg_const; [done |]. unfold usedMsgs. apply elem_of_flat_map. exists t. split; [done |].
    rewrite Hk. by left.
  - case_bool_decide as Hge; [constructor |]. apply Forall_singleton. cbn. destruct (Hg Hge) as [Htrue Hgin].
    unfold substRecv, deliver in *. destruct (Kind (On t)) eqn:Hk; [| done].
    rewrite (Hsub (guardText p (Guard t)) (Msg (On t)) s); [done |]. apply elem_of_app. left.
    unfold guardText. unfold guardIDs in Hgin. apply list_elem_of_fmap in Hgin as (g & Hgn & Hgin).
    destruct (find _ (Guards p)) as [g'|] eqn:Ef; cbn.
    + apply find_some in Ef as [Hin' _]. apply list_elem_of_fmap. exists g'. split; [done | by apply list_elem_of_In].
    + apply list_elem_of_In in Hgin. apply (find_none _ _ Ef) in Hgin. rewrite bool_decide_true in Hgin by done. done.
  - apply Forall_map. apply Forall_forall. intros [v r] Hvr. cbn. unfold effect.
    apply foldl_set_in; [by rewrite Hf |]. rewrite <-Hw. apply list_elem_of_fmap. by exists (v, r).
  - unfold unchangedConjunct. destruct (List.filter _ _) as [|v vs] eqn:Ef; [constructor |].
    apply Forall_singleton. cbn [holds]. intros w Hwin. unfold effect. apply foldl_set_out. rewrite Hf.
    rewrite <-Ef in Hwin. apply list_elem_of_In, filter_In in Hwin as [_ Hwin]. bool_hyps. done.
Qed.

(** ** Runs *)

Definition sysInv (c : config) : Prop :=
  forall a m, a ∈ Actors p -> c.1 !! Name a = Some m ->
    built p a m /\ guardsRegistered p m /\ actionsPerform a m /\
    (FlattenedTransitions a <> [] -> c.2 (stateVar (sanitiseTLA (Name a))) = str (Name a +:+ "_" +:+ state m)).

Lemma sysInit_inv c : sysInit p md c -> sysInv c.
Proof.
  intros [Hinit Hms] a m Ha Hm. destruct (Hms a m Ha Hm) as (Hb & Hs & Hg & Hp). split_and!; [done | done | done |].
  intros Hne. rewrite Hs. destruct (FlattenedTransitions a) as [|t ts] eqn:Et; [done |].
  destruct exportable_parts as (_ & Hc & Hn & _).
  assert (Hat : (a, t) ∈ phaseTransitions p None).
  { apply elem_phaseTransitions. split_and!; [done | auto |]. rewrite Et. by left. }
  destruct (initActors_spec p None a) as (b & Hbi & Hbn & Hbp).
  { apply list_elem_of_fmap. by exists (a, t). }
  apply list_elem_of_fmap in Hbp as ([b' t'] & -> & Hbt). cbn [fst] in *.
  apply elem_phaseTransitions in Hbt as (Hb' & _). assert (b' = a) as -> by (by eapply NoDup_map_inj).
  unfold Init in Hinit. rewrite Hmd in Hinit. rewrite Forall_forall in Hinit.
  pose proof (Hinit (stateVar (sanitiseTLA (Name a)), RConst (sanitiseTLA (Name a) +:+ "_" +:+ sanitiseTLA (Initial a)))) as H0.
  cbn [fst snd evalRhs] in H0. rewrite H0.
  - rewrite <-Hmd, state_const; [done | done |]. apply collectStates_spec. by left.
  - cbn. unfold exportInit. apply elem_of_app. left. apply list_elem_of_fmap. by exists a.
Qed.

Lemma Next_ext s s1 s2 : (forall v, s2 v = s1 v) -> Next md s s1 -> Next md s s2.
Proof.
  intros Hv [Hc (n & body & Hin & Hb)]. split; [intros k Hk; rewrite Hv; by apply Hc |]. exists n, body. split; [done |].
  eapply Forall_impl; [exact Hb |]. intros c. destruct c; cbn [holds]; try done; [by rewrite Hv |].
  intros H v Hvin. rewrite Hv. by apply H.
Qed.

(** What the call leaves is what the transition writes. *)
Lemma settle_effect a t m s s1 :
  (a, t) ∈ phaseTransitions p None -> actionsPerform a m -> taken m (deliver (On t) s) t s1 ->
  forall v, settle a (with_state m (To t)) (On t) s s1 v = effect a t s v.
Proof.
  intros Hin Hact Htk v. destruct (exportable_primes a t Hin) as (Hnd & _).
  pose proof (writes_fst a t s Hin) as Hf. rewrite <-Hf in Hnd.
  apply elem_phaseTransitions in Hin as (_ & _ & Ht). destruct (Hact t Ht) as (Hnone & Hrecv & Hdo).
  assert (Hin : forall x, (v, x) ∈ writes a t s -> effect a t s v = x) by (intros x; by apply foldl_set_in).
  unfold settle. case_bool_decide as Hst; [symmetry; apply Hin; unfold writes; rewrite !elem_of_app; subst v; right; right; left; by left |].
  destruct (bool_decide (Kind (On t) = TriggerRecv) && bool_decide (v = recvVar (Msg (On t)))) eqn:Hmsg; bool_hyps.
  { symmetry. apply Hin. unfold writes. rewrite H, H0. by left. }
  assert (Heff : effect a t s v = foldl set s (sendWrites t s ++ updateWrites t s) v).
  { destruct (decide (v ∈ map fst (sendWrites t s ++ updateWrites t s))) as [Hw|Hw].
    - apply list_elem_of_fmap in Hw as ([v' x] & -> & Hw). rewrite (Hin x).
      2: { unfold writes. rewrite !elem_of_app. apply elem_of_app in Hw as [?|?]; tauto. }
      symmetry. apply foldl_set_in; [| done]. unfold writes in Hnd. rewrite map_app in Hnd.
      apply NoDup_app in Hnd as (_ & _ & Hnd). cbn [app] in Hnd. rewrite <-Permutation_middle in Hnd.
      cbn [map] in Hnd. by apply NoDup_cons in Hnd as [_ ?].
    - rewrite foldl_set_out by done. unfold effect. apply foldl_set_out. unfold writes. rewrite !map_app, !elem_of_app.
      rewrite map_app, elem_of_app in Hw. intros [Hk|[?|[Hk|?]]]; [| tauto | | tauto].
      + destruct (Kind (On t)) eqn:Ek; [| by apply elem_of_nil in Hk]. apply list_elem_of_singleton in Hk.
        rewrite bool_decide_true in Hmsg by done. by rewrite bool_decide_true in Hmsg.
      + by apply list_elem_of_singleton in Hk. }
  rewrite Heff. destruct (bool_decide_reflect (v = "recv_msg")) as [-> | Hr]; [symmetry; by apply foldl_set_out |].
  destruct Htk as [_ [[Hd ->]|(_ & f & Hlk & Hfs)]].
  - destruct (Hnone Hd) as [Hs Hu]. unfold sendWrites, updateWrites. rewrite Hs, Hu. cbn.
    unfold deliver. destruct (Kind (On t)); [| done]. by rewrite bool_decide_false.
  - by apply (Hdo f s s1 v).
Qed.

(** What every step has in common. *)
Lemma taken_step a t m s s1 ms :
  sysInv (ms, s) -> a ∈ Actors p -> ms !! Name a = Some m ->
  t ∈ FlattenedTransitions a -> From t = state m -> taken m (deliver (On t) s) t s1 ->
  (Kind (On t) = TriggerRecv -> typeOf (s (recvVar (Msg (On t)))) = Msg (On t)) ->
  let s' := settle a (with_state m (To t)) (On t) s s1 in
  sysInv (<[Name a := with_state m (To t)]> ms, s') /\ Next md s s'.
Proof.
  intros Hinv Ha Hm Ht Hfrom Htk Hmsg s'. destruct (Hinv a m Ha Hm) as (Hb & Hg & Hact & Hst). cbn [fst snd] in *.
  destruct exportable_parts as (Hv & Hc & Hn & _).
  assert (Hat : (a, t) ∈ phaseTransitions p None) by (apply elem_phaseTransitions; auto).
  assert (Hs' : forall v, s' v = effect a t s v) by (by apply settle_effect).
  destruct (exportable_primes a t Hat) as (Hnd & _ & Hother).
  assert (Hne : FlattenedTransitions a <> []) by (intros E; rewrite E in Ht; by apply elem_of_nil in Ht).
  pose proof (writes_fst a t s Hat) as Hf. split.
  - intros b mb Hb' Hmb. cbn [fst snd] in *. rewrite Hs'. destruct (decide (Name b = Name a)) as [Heq|Hneq].
    + assert (b = a) as -> by (by eapply NoDup_map_inj). rewrite lookup_insert_eq in Hmb. injection Hmb as <-.
      split_and!; [done | done | done |]. intros _. cbn [state with_state]. by apply effect_state.
    + rewrite lookup_insert_ne in Hmb by done. destruct (Hinv b mb Hb' Hmb) as (Hbb & Hgb & Hab & Hstb).
      split_and!; [done | done | done |]. intros Hneb. cbn [snd] in Hstb. rewrite <-Hstb by done. unfold effect.
      apply foldl_set_out. rewrite Hf. by apply Hother.
  - eapply Next_ext; [exact Hs' |].
    apply transition_is_action; [done | by rewrite Hst, Hfrom by done | done |].
    intros Hge. destruct Htk as [[?|(g & Hlk & Hgs)] _]; [done |].
    destruct (Validate_guards p a t Hv Ha Ht) as [?|Hin]; [done |]. pose proof (Hg _ Hin) as Hreg.
    assert (Some g = Some (fun s => truth (text (guardText p (Guard t)) s))) as [= ->] by exact (eq_trans (eq_sym Hlk) Hreg).
    done.
Qed.

(** A call that succeeds has taken one of the transitions it had. *)
Lemma tried_taken (m m' : Machine (tstate (V := V))) ts ctx s1 : tryTransitions m ts ctx = (m', s1, None) ->
  exists t, t ∈ ts /\ taken m ctx t s1 /\ m' = with_state m (To t).
Proof.
  intros H. apply tryTransitions_ok in H as (l1 & t & l2 & -> & _ & Ht & ->).
  exists t. split_and!; try done. apply elem_of_app. right. apply list_elem_of_here.
Qed.

Lemma sysStep_sound c c' : sysStep p c c' -> sysInv c -> sysInv c' /\ Next md c.2 c'.2.
Proof.
  intros Hstep Hinv. destruct Hstep as [ms s a m m' msg s1 Ha Hm Hty Hh|ms s a m m' order ev s1 Ha Hm Hev Hh];
    destruct (Hinv a m Ha Hm) as (Hb & _).
  - unfold HandleMessage in Hh. rewrite (proj1 (built_index p a m (state m) msg Hb)) in Hh.
    assert (Htry : tryTransitions m (onMessage a (state m) msg) (deliver (Recv msg) s) = (m', s1, None))
      by (by destruct (onMessage a (state m) msg)).
    apply tried_taken in Htry as (t & Ht & Htk & ->).
    unfold onMessage in Ht. apply list_elem_of_filter in Ht as [(Hk & Hf & Hmsg) Ht].
    assert (Hd : deliver (Recv msg) s = deliver (On t) s) by (unfold deliver; rewrite Hk; cbn; by rewrite Hmsg).
    assert (Hs : settle a (with_state m (To t)) (Recv msg) s s1 = settle a (with_state m (To t)) (On t) s s1)
      by (unfold settle; rewrite Hk; cbn; by rewrite Hmsg).
    rewrite Hs. rewrite Hd in Htk. apply (taken_step a t m s s1); try done. intros _. by rewrite Hmsg.
  - unfold Step in Hh. rewrite bool_decide_false in Hh by done. cbn [negb] in Hh.
    rewrite (proj2 (built_index p a m (state m) ev Hb)) in Hh.
    assert (Htry : tryTransitions m (onEvent a (state m) ev) s = (m', s1, None))
      by (by destruct (onEvent a (state m) ev)).
    apply tried_taken in Htry as (t & Ht & Htk & ->).
    unfold onEvent in Ht. apply list_elem_of_filter in Ht as [(Hk & Hf & Hmsg) Ht].
    assert (Hd : s = deliver (On t) s) by (unfold deliver; by rewrite Hk).
    assert (Hs : settle a (with_state m (To t)) (Internal ev) s s1 = settle a (with_state m (To t)) (On t) s s1)
      by (unfold settle; rewrite Hk; done).
    rewrite Hs. rewrite Hd in Htk. apply (taken_step a t m s s1); try done. by rewrite Hk.
Qed.

Lemma run_reachable c0 c : sysInit p md c0 -> rtc (sysStep p) c0 c -> sysInv c /\ reachable md c.2.
Proof.
  intros Hinit Hrun. revert c Hrun. apply (rtc_ind_r (fun c => sysInv c /\ reachable md c.2)).
  - split; [by apply sysInit_inv |]. exists c0.2. split; [by apply Hinit | constructor].
  - intros c c' _ Hstep [Hinv (s0 & H0 & Hs)]. destruct (sysStep_sound _ _ Hstep Hinv) as [Hinv' Hnext].
    split; [done |]. exists s0. split; [done | by eapply rtc_r].
Qed.
End Sound.

(** ** Theorems *)


(** ** Witnesses *)

(** An actor that sends on its own event, one that keeps what it receives. *)
Definition sendEdge : Transition :=
  {| From := "Idle"; To := "Sent"; On := Internal "go"; Guard := EmptyString; Do := "send"; Fairness := WeakFair;
     Sends := [{| sendTo := "b"; sendMsg := "hello"; sendFields := [] |}]; Updates := []; Emits := [] |}.
Definition keepEdge : Transition :=
  {| From := "Wait"; To := "Got"; On := Recv "hello"; Guard := "fresh"; Do := "keep"; Fairness := WeakFair;
     Sends := []; Updates := [{| Var := "seen"; Expr := "recv_msg" |}]; Emits := [] |}.
Definition senderActor : Actor :=
  {| Name := "a"; Initial := "Idle"; Transitions := [sendEdge];
     StateIndex := []; Roots := []; Machines := []; Routes := [] |}.
Definition keeperActor : Actor :=
  {| Name := "b"; Initial := "Wait"; Transitions := [keepEdge];
     StateIndex := []; Roots := []; Machines := []; Routes := [] |}.
Definition sendingProtocol : Protocol :=
  {| pName := "sending"; Actors := [senderActor; keeperActor];
     Messages := [{| msgType := "hello"; msgFrom := "a"; msgTo := "b"; msgDesc := EmptyString |}];
     Events := [{| eventID := "go"; eventDesc := EmptyString |}]; Commands := []; Structs := [];
     Vars := [{| varName := "seen"; varInitial := "nothing"; varDesc := EmptyString; varType := VarString |}];
     Guards := [{| guardID := "fresh"; guardExpr := "TRUE" |}];
     Operators := []; AdvActions := []; AdvGuard := EmptyString; Phases := []; WireConsts := [];
     Constants := []; Properties := []; ChannelBound := 0; OneShot := false |}.

Inductive value :=
  | VText (s : string)
  | VMessage (type : string).
(** Expressions that are [TRUE] or the name of a variable, messages without
    fields. *)
#[local] Instance value_tla : TLA value := {|
  str := VText;
  record t _ := VMessage t;
  typeOf v := match v with VText _ => EmptyString | VMessage t => t end;
  text e s := if bool_decide (e = "TRUE") then VText "TRUE" else s e;
  truth v := match v with VText t => bool_decide (t = "TRUE") | VMessage _ => false end
|}.

Definition sendingModule : tlaModule := exportModule sendingProtocol None.
(** The actions of the host. *)
Definition hostActions : gmap string (ActionFunc (C := tstate (V := value))) :=
  {["send" := fun s => (set s ("received_hello", VMessage "hello"), None);
    "keep" := fun s => (set s ("seen", s "recv_msg"), None)]}.
Definition madeMachine (a : Actor) : Machine (tstate (V := value)) :=
  let '(recv, internal) := foldl indexTransition (∅, ∅) (FlattenedTransitions a) in
  {| actor := a; state := Initial a; guards := {["fresh" := fun s => truth (text "TRUE" s)]}; actions := hostActions;
     recvIndex := recv; internalIndex := internal |}.
Definition start : tstate (V := value) := fun v =>
  if bool_decide (v = "a_state") then VText "a_Idle" else if bool_decide (v = "b_state") then VText "b_Wait"
  else if bool_decide (v = "received_hello") then VMessage "none" else VText "nothing".
Definition startConfig : config (V := value) :=
  ({["a" := madeMachine senderActor; "b" := madeMachine keeperActor]}, start).
Definition sent : tstate (V := value) :=
  settle senderActor (with_state (madeMachine senderActor) "Sent") (Internal "go") start
    (set start ("received_hello", VMessage "hello")).
Definition got : tstate (V := value) :=
  let ctx := deliver (Recv "hello") sent in
  settle keeperActor (with_state (madeMachine keeperActor) "Got") (Recv "hello") sent (set ctx ("seen", ctx "recv_msg")).

Lemma string_app_nil s : s +:+ EmptyString = s.
Proof. induction s as [|a s IH]; [done |].
  change (String a (s +:+ EmptyString) = String a s). by rewrite IH. Qed.

Lemma sending_substitutes : substitutes sendingProtocol.
Proof.
  intros e msg s He.
  change (e ∈ ["TRUE"; "recv_msg"]) in He. rewrite !elem_of_cons in He.
  destruct He as [->|[->|He%elem_of_nil]]; [done | | done].
  assert (ReplaceAll "recv_msg" "recv_msg" (recvVar msg) = recvVar msg) as -> by apply string_app_nil. done.
Qed.

Definition keptInv (s : tstate (V := value)) : Prop :=
  s "b_state" = VText "b_Got" -> typeOf (s "seen") = "hello".

Lemma sending_invariant s : reachable sendingModule s -> keptInv s.
Proof.
  intros (s0 & H0 & Hrun). revert s Hrun. apply (rtc_ind_r keptInv).
  - unfold Init in H0. rewrite Forall_forall in H0. intros Hb.
    assert (Hw : s0 "b_state" = VText "b_Wait") by (apply (H0 ("b_state", RConst "b_Wait")); vm_compute; right; by left).
    rewrite Hw in Hb. done.
  - intros s s' _ [_ (n & body & Hin & Hact)] Hs. apply list_elem_of_In in Hin. vm_compute in Hin.
    destruct Hin as [[= <- <-]|[[= <- <-]|[]]];
      unfold actionHolds in Hact; rewrite !Forall_cons in Hact; cbn [holds] in Hact; destruct_and! Hact; intros Hb.
    + match goal with H : forall v, v ∈ _ -> s' v = s v |- _ => rewrite (H "b_state") in Hb by set_solver; rewrite (H "seen") by set_solver end.
      by apply Hs.
    + match goal with H : s' "seen" = _ |- _ => rewrite H end.
      match goal with H : typeOf (s "received_hello") = _ |- _ => exact H end.
Qed.

Lemma sending_performs : actionsPerform senderActor (madeMachine senderActor) /\
  actionsPerform keeperActor (madeMachine keeperActor).
Proof.
  split; intros t Ht; apply list_elem_of_singleton in Ht as ->; (split_and!; [done | intros s; cbn; set_solver |]);
    intros f s s1 v Hf Hs Hv; vm_compute in Hf; injection Hf as <-; injection Hs as <-; [done |].
  change (set (deliver (Recv "hello") s) ("seen", s "received_hello") v = set s ("seen", s "received_hello") v).
  unfold set, deliver. cbn [Kind Recv]. case_bool_decide; [done |]. by rewrite bool_decide_false.
Qed.

Lemma sending_starts : sysInit sendingProtocol sendingModule startConfig.
Proof.
  split.
  - vm_compute. repeat (constructor; [reflexivity |]). constructor.
  - intros a m Ha Hm. change (a ∈ [senderActor; keeperActor]) in Ha. rewrite !elem_of_cons in Ha.
    destruct sending_performs as [H1 H2].
    assert (forall b, b ∈ [senderActor; keeperActor] -> built sendingProtocol b (madeMachine b) /\
      state (madeMachine b) = Initial b /\ guardsRegistered sendingProtocol (madeMachine b)) as Hall.
    { intros b Hb. rewrite !elem_of_cons in Hb. destruct Hb as [->|[->|Hb%elem_of_nil]]; [| | done];
        (split_and!; [split_and!; [set_solver | done | done] | done |]);
        intros g Hg; apply list_elem_of_singleton in Hg as ->; reflexivity. }
    destruct Ha as [->|[->|Ha%elem_of_nil]]; [| | done];
      [replace m with (madeMachine senderActor) by (by injection Hm)
      | replace m with (madeMachine keeperActor) by (by injection Hm)];
      (destruct (Hall senderActor ltac:(set_solver)) as (? & ? & ?));
      (destruct (Hall keeperActor ltac:(set_solver)) as (? & ? & ?)); done.
Qed.

Lemma sending_run :
  rtc (sysStep sendingProtocol) startConfig
    (<["b" := with_state (madeMachine keeperActor) "Got"]> (<["a" := with_state (madeMachine senderActor) "Sent"]> startConfig.1), got).
Proof.
  eapply rtc_l; [| eapply rtc_l; [| constructor]].
  - eapply (step_event _ startConfig.1 start senderActor (madeMachine senderActor) _ [] "go"); [by left | done | done | reflexivity].
  - eapply (step_message _ (<["a" := with_state (madeMachine senderActor) "Sent"]> startConfig.1) sent keeperActor
      (madeMachine keeperActor) _ "hello"); [right; by left | done | done | reflexivity].
Qed.

