(* ===== verification/Sdk.v ===== *)
(** * Sdk: the machines written for Swift, Kotlin and TypeScript
      (protocol/swift.go, kotlin.go, typescript.go)

    The generators of the other SDKs print, for an actor, a machine class like
    the one [GoGen] describes.  They differ in
    the identifiers, in the enums these are declared in, in the types, and in
    what they do with an update of a variable.  The printed cases are kept as
    the syntax of [GoGen] with each language's identifiers, and elaborated
    against each language's declarations; the variables are then compared
    under the names they have in the Go struct. *)

From Stdlib Require Import ZArith Lia Strings.String Strings.Ascii.
From stdpp Require Import base gmap strings list fin_maps pretty.
From S2P Require Import Prelude Machine GoGen.

(** ** Identifiers *)

Definition isUpper (a : ascii) : bool := let n := nat_of_ascii a in (65 <=? n)%nat && (n <=? 90)%nat.
Definition isLower (a : ascii) : bool := let n := nat_of_ascii a in (97 <=? n)%nat && (n <=? 122)%nat.
Definition isLetter (a : ascii) : bool := isUpper a || isLower a.
Definition isSep (a : ascii) : bool := bool_decide (a = "_"%char) || bool_decide (a = "-"%char) || bool_decide (a = " "%char).
Fixpoint mapChars (f : ascii -> ascii) (s : string) : string :=
  match s with
  | EmptyString => EmptyString
  | String a s => String (f a) (mapChars f s)
  end.
Definition ToUpper (s : string) : string := mapChars toUpper s.
Definition ToLower (s : string) : string := mapChars toLower s.

(** [swiftTypeName], [kotlinTypeName] and [tsTypeName]. *)
Definition typeName (name : string) : string :=
  match name with EmptyString => EmptyString | String r s => String (toUpper r) s end.
Definition lowerFirst (name : string) : string :=
  match name with EmptyString => EmptyString | String r s => String (toLower r) s end.

(** [swiftCase] on ASCII; [acc] is the result so far, reversed. *)
Fixpoint swiftCase_loop (acc : string) (prevUpper atBoundary : bool) (s : string) : string :=
  match s with
  | EmptyString => reverse acc
  | String r s =>
      if negb (isLetter r) && negb (isDigit r) then swiftCase_loop acc false true s
      else if bool_decide (acc = EmptyString) then swiftCase_loop (String (toLower r) EmptyString) (isUpper r) false s
      else if atBoundary then swiftCase_loop (String (toUpper r) acc) (isUpper r) false s
      else if isUpper r && negb prevUpper then swiftCase_loop (String r acc) (isUpper r) false s
      else if prevUpper && isLower r then
        swiftCase_loop (String r (match acc with
                                  | String last (String _ _ as rest) => String (toUpper last) rest
                                  | _ => acc
                                  end)) (isUpper r) false s
      else swiftCase_loop (String r acc) (isUpper r) false s
  end.
Definition swiftCase (s : string) : string := swiftCase_loop EmptyString false false s.
Definition swiftCamelField (s : string) : string := swiftCase s.

Fixpoint pascal (nextUpper : bool) (s : string) : string :=
  match s with
  | EmptyString => EmptyString
  | String r s =>
      if isSep r then pascal true s
      else if negb (isLetter r) && negb (isDigit r) then pascal nextUpper s
      else String (if nextUpper then toUpper r else r) (pascal false s)
  end.
Definition kotlinPascalCase (s : string) : string := pascal true s.

Fixpoint kotlinCamel_loop (first nextUpper : bool) (s : string) : string :=
  match s with
  | EmptyString => EmptyString
  | String r s =>
      if bool_decide (r = "_"%char) || bool_decide (r = "-"%char) then kotlinCamel_loop false true s
      else String (if nextUpper then toUpper r else if first then toLower r else r) (kotlinCamel_loop false false s)
  end.
Definition kotlinCamelCase (s : string) : string := kotlinCamel_loop true false s.

(** [strings.Split] at one character. *)
Fixpoint splitOn (sep : ascii) (cur s : string) : list string :=
  match s with
  | EmptyString => [reverse cur]
  | String r s => if bool_decide (r = sep) then reverse cur :: splitOn sep EmptyString s else splitOn sep (String r cur) s
  end.
Definition tsVarFieldName (name : string) : string :=
  match splitOn "_"%char EmptyString name with
  | [] => name
  | part :: parts => ToLower part +:+ String.concat EmptyString (map typeName parts)
  end.

(** ** Literals and types *)

(** The functions [...SimpleLiteral] have the text of [goSimpleLiteral]. *)
Definition swiftSimpleLiteral : string -> option string := goSimpleLiteral.
Definition kotlinSimpleLiteral : string -> option string := goSimpleLiteral.
Definition tsSimpleLiteral : string -> option string := goSimpleLiteral.

Definition swiftType (t : VarType) : string :=
  if bool_decide (t = VarInt) then "Int" else if bool_decide (t = VarBool) then "Bool" else "String".
Definition kotlinType (t : VarType) : string :=
  if bool_decide (t = VarInt) then "Int" else if bool_decide (t = VarBool) then "Boolean" else "String".
Definition tsVarType (t : VarType) : string :=
  if bool_decide (t = VarInt) then "number" else if bool_decide (t = VarBool) then "boolean"
  else if bool_decide (t = VarSetString) then "Set<string>" else "string".
(** The type of a literal, in each language. *)
Definition literalType (int bool str : string) (x : goValue) : string :=
  match x with VInt _ => int | VBool _ => bool | VStr _ => str end.

(** ** The declarations *)

(** First occurrences, in order. *)
Definition firsts (l : list string) : list string := foldl addState [] l.

Definition collectActions (p : Protocol) : list string :=
  firsts (flat_map (fun t => if bool_decide (Do t = EmptyString) then [] else [Do t]) (allTransitions p)).

Definition internalEvents (ts : list Transition) : list string :=
  flat_map (fun t => match Kind (On t) with TriggerInternal => [Desc (On t)] | TriggerRecv => [] end) ts.
Definition recvEvents (ts : list Transition) : list string :=
  flat_map (fun t => match Kind (On t) with TriggerRecv => ["recv_" +:+ Msg (On t)] | TriggerInternal => [] end) ts.
Definition machineTransitions (a : Actor) : list Transition := flat_map SubMachine_FlattenedTransitions (Machines a).

(** For Swift and C; a composed actor's transitions are those of its
    sub-machines. *)
Definition collectAllEvents (p : Protocol) : list string :=
  firsts (map eventID (Events p) ++ internalEvents (allTransitions p) ++ recvEvents (allTransitions p)
          ++ flat_map (fun a => map rtOn (Routes a)) (Actors p)).
Definition tsCollectEvents (p : Protocol) : list string :=
  let ts := flat_map (fun a => FlattenedTransitions a ++ machineTransitions a) (Actors p) in
  firsts (map eventID (Events p) ++ internalEvents ts ++ recvEvents ts).
Definition collectKotlinEvents (p : Protocol) : list string :=
  sortedKeys (map eventID (Events p) ++ flat_map (fun a =>
    if IsComposed a then map transitionEvent (machineTransitions a)
                         ++ flat_map (fun r => rtOn r :: map rsEvent (rtSends r)) (Routes a)
    else map transitionEvent (FlattenedTransitions a)) (Actors p)).

(** How a language names things. *)
Record Target := {
  stateIdent : string -> string;
  ident : string -> string;
  fieldIdent : string -> string;
  simpleLiteral : string -> option string;
  varTypeOf : VarType -> string;
  litType : goValue -> string;
  eventsOf : Protocol -> list string
}.
Definition swift : Target := {|
  stateIdent := swiftCase; ident := swiftCase; fieldIdent := swiftCamelField; simpleLiteral := swiftSimpleLiteral;
  varTypeOf := swiftType; litType := literalType "Int" "Bool" "String"; eventsOf := collectAllEvents |}.
Definition kotlin : Target := {|
  stateIdent := id; ident := kotlinPascalCase; fieldIdent := kotlinCamelCase; simpleLiteral := kotlinSimpleLiteral;
  varTypeOf := kotlinType; litType := literalType "Int" "Boolean" "String"; eventsOf := collectKotlinEvents |}.
Definition typescript : Target := {|
  stateIdent := id; ident := kotlinPascalCase; fieldIdent := tsVarFieldName; simpleLiteral := tsSimpleLiteral;
  varTypeOf := tsVarType; litType := literalType "number" "boolean" "string"; eventsOf := tsCollectEvents |}.

(** The enums of a machine: each constant with the value it stands for. *)
Record Enums := {
  enStates : list GoConst;
  enMsgs : list GoConst;
  enGuards : list GoConst;
  enActions : list GoConst;
  enEvents : list GoConst;
  enCmds : list GoConst
}.

Definition enum (f : string -> string) (l : list string) : list GoConst := map (fun x => (f x, x)) l.

Definition enumsOf (T : Target) (p : Protocol) (a : Actor) : Enums := {|
  enStates := enum (stateIdent T) (collectStates a);
  enMsgs := enum (ident T) (map msgType (Messages p));
  enGuards := enum (ident T) (guardIDs p);
  enActions := enum (ident T) (collectActions p);
  enEvents := enum (ident T) (eventsOf T p);
  enCmds := enum (ident T) (map cmdID (Commands p))
|}.

(** The variable fields of a class: identifier, variable, type. *)
Definition fieldsOf (T : Target) (p : Protocol) (ts : list Transition) : list (string * (string * string)) :=
  map (fun v => (fieldIdent T (varName v), (varName v, varTypeOf T (varType v)))) (goStructVars p ts).

(** The initial values, printed for every field. *)
Definition zeroOf (T : Target) (t : VarType) : string :=
  if bool_decide (t = VarInt) then "0" else if bool_decide (t = VarBool) then "false" else dquote +:+ dquote.
Definition swiftInitialValue (v : VarDef) : string := default (zeroOf swift (varType v)) (swiftSimpleLiteral (varInitial v)).
Definition kotlinInitialValue (v : VarDef) : string := default (zeroOf kotlin (varType v)) (kotlinSimpleLiteral (varInitial v)).
Definition tsInitialValue (v : VarDef) : string :=
  default (if bool_decide (varType v = VarSetString) then "new Set()" else zeroOf typescript (varType v))
    (tsSimpleLiteral (varInitial v)).

(** ** The code they write *)

Definition sdkComment (u : VarUpdate) : GoStmt := GComment (Var u +:+ ": " +:+ Expr u +:+ " (set by action)").

(** An update is printed when it is a literal. *)
Definition sdkUpdate (T : Target) (u : VarUpdate) : list GoStmt :=
  match simpleLiteral T (Expr u) with
  | Some lit => [GAssign (fieldIdent T (Var u)) (GLit lit)]
  | None => [sdkComment u]
  end.
Definition sdkBody (T : Target) (t : Transition) : list GoStmt :=
  (if bool_decide (Do t = EmptyString) then [] else [GAction (ident T (Do t))])
  ++ flat_map (sdkUpdate T) (Updates t)
  ++ [GState (stateIdent T (To t))].
Definition sdkGuard (T : Target) (t : Transition) : option string :=
  if bool_decide (Guard t = EmptyString) then None else Some (ident T (Guard t)).
Definition sdkCase (T : Target) (on : Transition -> string) (ret : Transition -> GoRet) (t : Transition) : GoCase :=
  {| gcState := stateIdent T (From t); gcOn := on t; gcGuard := sdkGuard T t; gcBody := sdkBody T t; gcRet := ret t |}.

(** [handleEvent]: a case per transition, returning its commands. *)
Definition sdkHandleEvent (T : Target) (ts : list Transition) : list GoCase :=
  map (sdkCase T (fun t => ident T (transitionEvent t)) (fun t => GCmds (map (ident T) (Emits t)))) ts.

Definition writeSwiftEventTransitionBody : Transition -> list GoStmt := sdkBody swift.
Definition writeSwiftTransitionBodyIndented : Transition -> list GoStmt := sdkBody swift.
Definition swiftHandleEvent : list Transition -> list GoCase := sdkHandleEvent swift.
Definition kotlinHandleEvent : list Transition -> list GoCase := sdkHandleEvent kotlin.
Definition tsHandleEvent : list Transition -> list GoCase := sdkHandleEvent typescript.

(** [handleMessage] of a Swift class, and of the TypeScript class of a
    sub-machine, which also has a [step] by event. *)
Definition sdkHandleMessage (T : Target) (ts : list Transition) : list GoCase :=
  map (sdkCase T (fun t => ident T (Msg (On t))) (fun _ => GTrue)) (filter (fun t => Kind (On t) = TriggerRecv) ts).
Definition sdkStep (T : Target) (ts : list Transition) : list GoCase :=
  map (sdkCase T (fun t => ident T (Desc (On t))) (fun _ => GTrue)) (filter (fun t => Kind (On t) = TriggerInternal) ts).
Definition swiftHandleMessage : list Transition -> list GoCase := sdkHandleMessage swift.
Definition tsHandleMessage : list Transition -> list GoCase := sdkHandleMessage typescript.
Definition tsStep : list Transition -> list GoCase := sdkStep typescript.

(** [step] of a Swift class takes no event: it has a case for each state whose
    internal transitions all have the same event. *)
Definition internalFrom (ts : list Transition) (s : State) : list Transition :=
  filter (fun t => Kind (On t) = TriggerInternal /\ From t = s) ts.
Definition singleEvent (ts : list Transition) (s : State) : bool :=
  bool_decide (length (firsts (map (fun t => Desc (On t)) (internalFrom ts s))) = 1).
Definition fromOrder (ts : list Transition) : list State :=
  firsts (map From (filter (fun t => Kind (On t) = TriggerInternal) ts)).
Definition swiftStepOrder (ts : list Transition) : list Transition :=
  flat_map (internalFrom ts) (List.filter (singleEvent ts) (fromOrder ts)).
Definition swiftStep (ts : list Transition) : list GoCase :=
  map (sdkCase swift (fun _ => EmptyString) (fun _ => GTrue)) (swiftStepOrder ts).

(** The transition tables printed next to the machines, an entry per
    transition: names as strings, the guard and the action when there is one. *)
Record TableEntry := {
  teFrom : string;
  teTo : string;
  teOn : string;
  teOnKind : string;
  teGuard : option string;
  teAction : option string;
  teSends : list (string * string)
}.
Definition nonEmpty (s : string) : option string := if bool_decide (s = EmptyString) then None else Some s.
Definition tableEntry (t : Transition) : TableEntry := {|
  teFrom := From t; teTo := To t;
  teOn := match Kind (On t) with TriggerRecv => Msg (On t) | TriggerInternal => Desc (On t) end;
  teOnKind := match Kind (On t) with TriggerRecv => "recv" | TriggerInternal => "internal" end;
  teGuard := nonEmpty (Guard t); teAction := nonEmpty (Do t);
  teSends := map (fun s => (sendTo s, sendMsg s)) (Sends t)
|}.
Definition swiftTransitionTableEntry : Transition -> TableEntry := tableEntry.
Definition kotlinWriteTransitionEntry : Transition -> TableEntry := tableEntry.
Definition tsTransitionEntry : Transition -> TableEntry := tableEntry.

(** The wire constants: identifier and value, by the declared type. *)
Definition wireConstAs (name : string) (byte : Z -> Z) (wc : WireConstant) : list (string * goValue) :=
  if bool_decide (wcType wc = "byte") then [(name, VInt (byte (wireInt (wcValue wc))))]
  else if bool_decide (wcType wc = "int") || bool_decide (wcType wc = "duration_ms") then [(name, VInt (wireInt (wcValue wc)))]
  else if bool_decide (wcType wc = "string") then
    match wcValue wc with WString s => [(name, VStr s)] | _ => [] end
  else [].
(** [.toByte()] reads the eight bits as a signed number. *)
Definition toByte (z : Z) : Z := ((z + 128) mod 256 - 128)%Z.
Definition swiftWireConst (wc : WireConstant) := wireConstAs (swiftCase (wcName wc)) id wc.
Definition kotlinWireConst (wc : WireConstant) := wireConstAs (ToUpper (wcName wc)) toByte wc.
Definition tsWireConst (wc : WireConstant) := wireConstAs (ToUpper (wcName wc)) id wc.

(** ** What the code means *)

Section Elaborate.
Context (T : Target) (en : Enums) (fields : list (string * (string * string))).

(** An assignment to a field of the literal's type, to the variable the field
    was declared for. *)
Definition sdkAssign (field text : string) : option stmt :=
  f ← snd <$> find (fun f => bool_decide (f.1 = field)) fields;
  x ← literalValue text;
  if bool_decide (f.2 = litType T x) then Some (Set_ (goCamel f.1) x) else None.

Definition sdkStmt (s : GoStmt) : option (list stmt) :=
  match s with
  | GAction c => i ← resolve (enActions en) c; Some [Act i]
  | GAssign field (GLit text) => a ← sdkAssign field text; Some [a]
  | GAssign _ (GSelf _ _ _) => None
  | GNotify v => Some [Changed v]
  | GComment _ => Some []
  | GState c => s ← resolve (enStates en) c; Some [Goto s]
  end.

Definition sdkCmds (r : GoRet) : option (list CmdID) :=
  match r with
  | GTrue => None
  | GCmds cs => mapM (resolve (enCmds en)) cs
  end.

Definition elabSdkCase {R} (on : string -> option string) (ret : GoRet -> option R) (c : GoCase) : option (Case R) :=
  s ← resolve (enStates en) (gcState c);
  k ← on (gcOn c);
  g ← match gcGuard c with None => Some None | Some g => Some <$> resolve (enGuards en) g end;
  b ← (mjoin <$> mapM sdkStmt (gcBody c));
  r ← ret (gcRet c);
  Some {| cState := s; cOn := k; cGuard := g; cBody := b; cRet := r |}.

Definition handleEventCases (ts : list Transition) : option (list (Case (list CmdID))) :=
  mapM (elabSdkCase (resolve (enEvents en)) sdkCmds) (sdkHandleEvent T ts).
Definition handleMessageCases (ts : list Transition) : option (list (Case bool)) :=
  mapM (elabSdkCase (resolve (enMsgs en)) retTrue) (sdkHandleMessage T ts).
Definition stepCases (ts : list Transition) : option (list (Case bool)) :=
  mapM (elabSdkCase (resolve (enEvents en)) retTrue) (sdkStep T ts).
Definition swiftStepCases (ts : list Transition) : option (list (Case bool)) :=
  mapM (elabSdkCase Some retTrue) (swiftStep ts).
End Elaborate.

(** ** When the code compiles *)

Definition unique (l : list GoConst) : bool := bool_decide (NoDup l.*1).

(** No enum has a constant twice, no class a field twice, the Go struct has
    no field twice either, and the variables updated are declared. *)
Definition sdkCompiles (T : Target) (p : Protocol) (a : Actor) : bool :=
  let en := enumsOf T p a in
  let ts := FlattenedTransitions a in
  unique (enStates en) && unique (enMsgs en) && unique (enGuards en) && unique (enActions en)
  && unique (enEvents en) && unique (enCmds en)
  && bool_decide (NoDup (fieldsOf T p ts).*1) && bool_decide (NoDup (goStructFields p ts).*1)
  && forallb (fun t => forallb (fun u => bool_decide (Var u ∈ map varName (Vars p))) (Updates t)
                       && forallb (fun c => bool_decide (c ∈ map cmdID (Commands p))) (Emits t)) ts.

(** What a language's naming has to satisfy. *)
Class TargetLaws (T : Target) : Prop := {
  literal_go expr : simpleLiteral T expr = goSimpleLiteral expr;
  type_go vt x : goType vt = valueType x -> varTypeOf T vt = litType T x;
  events_flat p a t : a ∈ Actors p -> IsComposed a = false -> t ∈ FlattenedTransitions a ->
    transitionEvent t ∈ eventsOf T p
}.

Lemma firsts_elem l x : x ∈ firsts l <-> x ∈ l.
Proof.
  unfold firsts. induction l as [|y l IH] using rev_ind; [done |]. rewrite foldl_snoc, addState_elem, IH.
  rewrite elem_of_app, list_elem_of_singleton. done.
Qed.

Lemma transitionEvent_split t ts : t ∈ ts -> transitionEvent t ∈ internalEvents ts ++ recvEvents ts.
Proof.
  intros Ht. unfold transitionEvent, internalEvents, recvEvents. rewrite elem_of_app, !elem_of_flat_map.
  destruct (Kind (On t)) eqn:Hk; [right | left]; exists t; rewrite Hk; (split; [done | left]).
Qed.

Lemma int_kind vt x : goType vt = valueType x ->
  match x with VInt _ => vt = VarInt | VBool _ => vt = VarBool
  | VStr _ => vt <> VarInt /\ vt <> VarBool /\ vt <> VarSetString end.
Proof. unfold goType. destruct x; simpl; repeat case_bool_decide; done. Qed.

Ltac solve_types :=
  let H := fresh in intros ? x H; apply int_kind in H; destruct x; simpl; [subst; done | subst; done |];
  destruct H as (? & ? & ?); cbv [swiftType kotlinType tsVarType]; by repeat rewrite bool_decide_false by done.

#[export] Instance swift_laws : TargetLaws swift.
Proof.
  split; [done | solve_types |]. intros p a t Ha _ Ht. apply firsts_elem. rewrite !elem_of_app. right.
  pose proof (transitionEvent_split t (allTransitions p)) as He. rewrite elem_of_app in He.
  assert (t ∈ allTransitions p) by (apply elem_of_flat_map; eauto). tauto.
Qed.

#[export] Instance kotlin_laws : TargetLaws kotlin.
Proof.
  split; [done | solve_types |]. intros p a t Ha Hc Ht. apply sortedKeys_elem. rewrite elem_of_app. right.
  apply elem_of_flat_map. exists a. split; [done |]. rewrite Hc. apply list_elem_of_fmap. eauto.
Qed.

#[export] Instance typescript_laws : TargetLaws typescript.
Proof.
  split; [done | solve_types |]. intros p a t Ha _ Ht. apply firsts_elem. rewrite !elem_of_app. right.
  set (ts := flat_map _ _). pose proof (transitionEvent_split t ts) as He. rewrite elem_of_app in He.
  assert (t ∈ ts) by (apply elem_of_flat_map; exists a; split; [done | apply elem_of_app; by left]). tauto.
Qed.

(** ** Lemmas: against the Go machine *)

(** What the other SDKs keep of a Go case body. *)
Definition kept (s : stmt) : bool := match s with Incr _ _ | Changed _ => false | _ => true end.
Definition stripCase {R} (c : Case R) : Case R :=
  {| cState := cState _ c; cOn := cOn _ c; cGuard := cGuard _ c; cBody := List.filter kept (cBody _ c); cRet := cRet _ c |}.

Lemma find_declared {B} (l : list (string * B)) i v :
  NoDup l.*1 -> (i, v) ∈ l -> snd <$> find (fun f => bool_decide (f.1 = i)) l = Some v.
Proof.
  induction l as [|[j u] l IH]; intros Hnd Hin; [by apply elem_of_nil in Hin |].
  apply NoDup_cons in Hnd as [Hj Hnd]. simpl. apply elem_of_cons in Hin as [[= <- <-]|Hin].
  - by rewrite bool_decide_true.
  - rewrite bool_decide_false; [by apply IH |]. simpl. intros ->. apply Hj.
    by apply (list_elem_of_fmap_2 fst) in Hin.
Qed.

(** Updates of a variable by itself are increments. *)
Lemma goSelfUpdate_loop_self ops v expr e : goSelfUpdate_loop ops v expr = Some e -> exists op n, e = GSelf (goCamel v) op n.
Proof. induction ops as [|op ops IH]; simpl; [done |]. repeat case_match; eauto. intros [= <-]. eauto. Qed.

Lemma evalAssign_self fields v expr e (s : stmt) :
  goSelfUpdate v expr = Some e -> evalAssign fields (goCamel v) e = Some s -> exists f n, s = Incr f n.
Proof.
  intros Hs He. apply goSelfUpdate_loop_self in Hs as (op & n & ->). unfold evalAssign in He.
  repeat case_match; try done; injection He as <-; eauto.
Qed.

Lemma resolve_enum f l x : unique (enum f l) = true -> x ∈ l -> resolve (enum f l) (f x) = Some x.
Proof.
  intros Hu Hx. apply resolve_declared; [by eapply bool_decide_eq_true |].
  by apply (declared_const f id).
Qed.

Lemma resolve_enums f l xs :
  unique (enum f l) = true -> (forall x, x ∈ xs -> x ∈ l) -> mapM (resolve (enum f l)) (map f xs) = Some xs.
Proof.
  intros Hu. induction xs as [|x xs IH]; intros Hxs; [done |]. simpl. rewrite resolve_enum by (done || apply Hxs; left).
  simpl. rewrite IH; [done |]. intros y Hy. apply Hxs. by right.
Qed.

Section Against.
Context (T : Target) {laws : TargetLaws T} (p : Protocol) (a : Actor).
Context (Hval : Validate p = None) (Ha : a ∈ Actors p) (Hflat : IsComposed a = false) (Hok : sdkCompiles T p a = true).
Local Abbreviation en := (enumsOf T p a).
Local Abbreviation ts := (FlattenedTransitions a).
Local Abbreviation fields := (fieldsOf T p ts).
Local Abbreviation gofields := (goStructFields p ts).

Lemma sdkCompiles_parts :
  (unique (enStates en) = true /\ unique (enMsgs en) = true /\ unique (enGuards en) = true /\ unique (enActions en) = true /\
   unique (enEvents en) = true /\ unique (enCmds en) = true) /\
  NoDup fields.*1 /\ NoDup gofields.*1 /\
  (forall t, t ∈ ts -> (forall u, u ∈ Updates t -> Var u ∈ map varName (Vars p)) /\
                       (forall c, c ∈ Emits t -> c ∈ map cmdID (Commands p))).
Proof.
  unfold sdkCompiles in Hok. cbv zeta in Hok. rewrite !andb_true_iff, forallb_forall in Hok.
  destruct Hok as [[[[[[[[? ?] ?] ?] ?] ?] Hf] Hg] Ht]. setoid_rewrite <-list_elem_of_In in Ht.
  split_and!; try done; [by eapply bool_decide_eq_true | by eapply bool_decide_eq_true |].
  intros t Hin. apply Ht in Hin. rewrite andb_true_iff, !forallb_forall in Hin. destruct Hin as [Hu Hc].
  setoid_rewrite <-list_elem_of_In in Hu. setoid_rewrite <-list_elem_of_In in Hc.
  split; intros x Hx; [apply Hu in Hx | apply Hc in Hx]; by eapply bool_decide_eq_true.
Qed.

(** A literal the Go struct accepts for a variable, the class accepts. *)
Lemma assign_same t u lit s :
  t ∈ ts -> u ∈ Updates t -> evalAssign gofields (goCamel (Var u)) (GLit lit) = Some s ->
  sdkAssign T fields (fieldIdent T (Var u)) lit = Some s /\ kept s = true.
Proof.
  intros Ht Hu. destruct sdkCompiles_parts as (_ & Hf & Hg & Hd). destruct (Hd t Ht) as [Hv _].
  pose proof (Hv u Hu) as Hvar. apply list_elem_of_fmap in Hvar as (v & Hvn & Hvin).
  assert (Hsv : v ∈ goStructVars p ts).
  { apply list_elem_of_filter. split; [| done]. rewrite <-Hvn. apply elem_of_flat_map. exists t. split; [done |].
    apply list_elem_of_fmap. by exists u. }
  unfold evalAssign, sdkAssign, declaredType. rewrite Hvn.
  assert (Hgo : snd <$> find (fun f => bool_decide (f.1 = goCamel (varName v))) gofields = Some (goType (varType v))).
  { apply (resolve_declared gofields); [done |]. apply list_elem_of_fmap. by exists v. }
  rewrite Hgo.
  assert (Hsdk : snd <$> find (fun f => bool_decide (f.1 = fieldIdent T (varName v))) fields = Some (varName v, varTypeOf T (varType v))).
  { apply find_declared; [done |]. apply list_elem_of_fmap. by exists v. }
  rewrite Hsdk. cbn [mbind option_bind fst snd]. destruct (literalValue lit) as [x|]; [| done]. cbn [mbind option_bind].
  case_bool_decide as Hty; [| done]. injection Hty as Hty. intros [= <-].
  rewrite (bool_decide_true _ (type_go _ _ Hty)). done.
Qed.

Lemma update_same t u us :
  t ∈ ts -> u ∈ Updates t -> tableUpdate gofields u = Some us ->
  (mjoin <$> mapM (sdkStmt T en fields) (sdkUpdate T u)) = Some (List.filter kept us).
Proof.
  intros Ht Hu. unfold tableUpdate, sdkUpdate. rewrite literal_go.
  destruct (goSimpleLiteral (Expr u)) as [lit|].
  - destruct (evalAssign _ _ _) as [s|] eqn:He; [| done]. intros [= <-].
    destruct (assign_same t u lit s Ht Hu He) as [Hs Hk]. simpl. rewrite Hs. simpl. by rewrite Hk.
  - simpl. destruct (goSelfUpdate (Var u) (Expr u)) as [e|] eqn:Hself; [| by intros [= <-]].
    destruct (evalAssign _ _ _) as [s|] eqn:He; [| done]. intros [= <-]. simpl.
    destruct (evalAssign_self _ _ _ _ _ Hself He) as (f & n & ->). done.
Qed.

Lemma sdk_body_app (b1 b2 : list GoStmt) :
  (mjoin <$> mapM (sdkStmt T en fields) (b1 ++ b2)) =
  (x ← (mjoin <$> mapM (sdkStmt T en fields) b1); y ← (mjoin <$> mapM (sdkStmt T en fields) b2); Some (x ++ y)).
Proof.
  rewrite mapM_app_option. destruct (mapM (sdkStmt T en fields) b1) as [x|]; simpl; [| done].
  destruct (mapM (sdkStmt T en fields) b2) as [y|]; simpl; [| done]. by rewrite join_app.
Qed.

Lemma updates_same t us l :
  t ∈ ts -> l ⊆ Updates t -> (mjoin <$> mapM (tableUpdate gofields) l) = Some us ->
  (mjoin <$> mapM (sdkStmt T en fields) (flat_map (sdkUpdate T) l)) = Some (List.filter kept us).
Proof.
  intros Ht. revert us. induction l as [|u l IH]; intros us Hl Hus; [by injection Hus as <-|].
  destruct (mapM (tableUpdate gofields) (u :: l)) as [k|] eqn:Hm; [| done]. injection Hus as <-.
  apply mapM_cons_inv in Hm as (y & ys & -> & Hy & Hys). cbn [flat_map]. rewrite sdk_body_app.
  rewrite (update_same t u y Ht) by (done || apply Hl; left). cbn [mbind option_bind].
  rewrite (IH (mjoin ys)) by (try (intros z Hz; apply Hl; by right); by rewrite Hys). cbn [mbind option_bind].
  change (mjoin (y :: ys)) with (y ++ mjoin ys). by rewrite List.filter_app.
Qed.

Lemma sdk_resolve_state t s : t ∈ ts -> s = From t \/ s = To t -> resolve (enStates en) (stateIdent T s) = Some s.
Proof.
  intros Ht Hs. apply resolve_enum; [by apply sdkCompiles_parts |]. apply collectStates_spec. eauto.
Qed.

Lemma body_same t us :
  t ∈ ts -> tableUpdates gofields t = Some us ->
  (mjoin <$> mapM (sdkStmt T en fields) (sdkBody T t)) = Some (List.filter kept (tableAction t ++ us ++ [Goto (To t)])).
Proof.
  intros Ht Hus. unfold sdkBody. rewrite !sdk_body_app, (updates_same t us) by done.
  assert (Hact : (mjoin <$> mapM (sdkStmt T en fields)
      (if bool_decide (Do t = EmptyString) then [] else [GAction (ident T (Do t))])) = Some (tableAction t)).
  { unfold tableAction. case_bool_decide as Hd; [done |]. simpl.
    rewrite resolve_enum; [done | by apply sdkCompiles_parts |]. apply firsts_elem, elem_of_flat_map. exists t.
    split; [apply elem_of_flat_map; eauto |]. rewrite bool_decide_false by done. left. }
  rewrite Hact. simpl. rewrite (sdk_resolve_state t) by auto. simpl. rewrite !List.filter_app. simpl.
  assert (List.filter kept (tableAction t) = tableAction t) as -> by (unfold tableAction; by case_bool_decide). done.
Qed.

(** The case printed for a transition is the Go one without increments and
    notifications. *)
Lemma case_same {R} (on : Transition -> string) onT (ret : Transition -> R) retT (res : string -> option string) r0 t c :
  t ∈ ts -> tableCase gofields on ret t = Some c -> res (onT t) = Some (on t) -> retT (r0 t) = Some (ret t) ->
  elabSdkCase T en fields res retT (sdkCase T onT r0 t) = Some (stripCase c).
Proof.
  intros Ht Hc Hon Hr. apply tableCase_inv in Hc as (Hst & Hk & Hret & Hg & us & Hus & Hb).
  unfold elabSdkCase. cbn [gcState gcOn gcGuard gcBody gcRet sdkCase]. rewrite (sdk_resolve_state t) by auto.
  cbn [mbind option_bind]. rewrite Hon. cbn [mbind option_bind].
  assert (Hguard : match sdkGuard T t with None => Some None | Some g => Some <$> resolve (enGuards en) g end = Some (cGuard _ c)).
  { rewrite Hg. unfold sdkGuard. case_bool_decide as Hge; [done |].
    cbn [enGuards enumsOf]. rewrite resolve_enum; [done | by apply sdkCompiles_parts |].
    by destruct (Validate_guards p a t Hval Ha Ht) as [?|?]. }
  rewrite Hguard. cbn [mbind option_bind]. rewrite (body_same t us Ht Hus). cbn [mbind option_bind]. rewrite Hr.
  cbn [mbind option_bind]. unfold stripCase. by rewrite Hst, Hk, Hret, Hb.
Qed.

Lemma mapM_same {A B C} (f : A -> option B) (g : A -> C) (h : C -> option B) (k : B -> B) l : forall r,
  mapM f l = Some r -> (forall x y, x ∈ l -> f x = Some y -> h (g x) = Some (k y)) -> mapM h (map g l) = Some (map k r).
Proof.
  induction l as [|x l IH]; intros r Hm Hx; [by injection Hm as <- |].
  apply mapM_cons_inv in Hm as (y & ys & -> & Hy & Hys). cbn [map mapM]. simpl. rewrite (Hx x y) by (done || left).
  rewrite (IH ys Hys) by (intros z w Hz; apply Hx; by right). done.
Qed.
End Against.

(** ** Lemmas: running the cases *)

(** An update that counts: printed as an increment in Go, and a comment in
    the other SDKs. *)
Definition counting (u : VarUpdate) : bool :=
  match goSimpleLiteral (Expr u) with
  | Some _ => false
  | None => match goSelfUpdate (Var u) (Expr u) with Some _ => true | None => false end
  end.

Section Running.
Context {V H : Type} `{!GoVars V}.

Definition noIncr (s : stmt) : Prop := match s with Incr _ _ => False | _ => True end.

Lemma exec_kept (cb : Callbacks V H) b : forall w,
  cbOnChange cb = None -> Forall noIncr b -> exec cb (List.filter kept b) w = exec cb b w.
Proof.
  induction b as [|s b IH]; intros w Hc Hb; [done |]. apply Forall_cons in Hb as [Hs Hb].
  destruct s; simpl in *; try done; try (by apply IH).
  - destruct (cbActions cb !! i) as [fn|]; [| by apply IH]. destruct (fn w) as [w' [e|]]; [done | by apply IH].
  - rewrite Hc. by apply IH.
Qed.

Lemma switch_strip {R} (zero : R) cases (cb : Callbacks V H) key w :
  cbOnChange cb = None -> (forall c, c ∈ cases -> Forall noIncr (cBody _ c)) ->
  switch zero (map stripCase cases) cb key w = switch zero cases cb key w.
Proof.
  intros Hc. induction cases as [|c cases IH]; intros Hn; [done |]. cbn [map switch].
  change (selects cb key w (stripCase c)) with (selects cb key w c). cbn [cBody cRet stripCase].
  rewrite exec_kept by (done || apply Hn; left). rewrite IH by (intros d Hd; apply Hn; by right). done.
Qed.

Lemma table_noIncr {R} gofields on (ret : Transition -> R) l cases :
  (forall t u, t ∈ l -> u ∈ Updates t -> counting u = false) ->
  mapM (tableCase gofields on ret) l = Some cases -> forall c, c ∈ cases -> Forall noIncr (cBody _ c).
Proof.
  revert cases. induction l as [|t l IH]; intros cases Hn Hm c Hin.
  { injection Hm as <-. by apply elem_of_nil in Hin. }
  apply mapM_cons_inv in Hm as (y & ys & -> & Hy & Hys). apply elem_of_cons in Hin as [->|Hin].
  2:{ eapply IH; [| done | done]. intros t' u Ht'. apply Hn. by right. }
  apply tableCase_inv in Hy as (_ & _ & _ & _ & us & Hus & ->). rewrite !Forall_app. split_and!.
  - unfold tableAction. case_bool_decide; repeat constructor.
  - unfold tableUpdates in Hus. specialize (Hn t). revert us Hus.
    induction (Updates t) as [|u l' IHu]; intros us Hus; [by injection Hus as <- |].
    destruct (mapM (tableUpdate gofields) (u :: l')) as [k|] eqn:Hk; [| done]. injection Hus as <-.
    apply mapM_cons_inv in Hk as (z & zs & -> & Hz & Hzs). change (mjoin (z :: zs)) with (z ++ mjoin zs).
    apply Forall_app. split.
    + pose proof (Hn u ltac:(left) ltac:(left)) as Hcu. unfold counting in Hcu. unfold tableUpdate in Hz.
      destruct (goSimpleLiteral (Expr u)) as [lit|].
      * unfold evalAssign in Hz. destruct (literalValue lit); [| done]. simpl in Hz.
        case_bool_decide; [| done]. injection Hz as <-. repeat constructor.
      * destruct (goSelfUpdate _ _); [done |]. injection Hz as <-. constructor.
    + apply IHu; [| by rewrite Hzs]. intros v Ht Hv. apply Hn; [done | by right].
  - repeat constructor.
Qed.

(** Only the cases of the current state and of the key matter. *)
Definition onKey {R} (w : World V H) (key : string) (c : Case R) : bool :=
  bool_decide (cState _ c = wState w) && bool_decide (cOn _ c = key).

Lemma switch_onKey {R} (zero : R) cases (cb : Callbacks V H) key w :
  switch zero (List.filter (onKey w key) cases) cb key w = switch zero cases cb key w.
Proof.
  induction cases as [|c cases IH]; [done |]. cbn [List.filter]. destruct (onKey w key c) eqn:Hk; cbn [switch].
  - by rewrite IH.
  - assert (selects cb key w c = false) as ->; [| done]. unfold onKey in Hk. unfold selects.
    rewrite (bool_decide_ext (wState w = cState _ c) (cState _ c = wState w)) by (split; congruence).
    rewrite (bool_decide_ext (key = cOn _ c) (cOn _ c = key)) by (split; congruence). by rewrite Hk.
Qed.

(** Cases that are the same but for their trigger. *)
Definition retrigger {R} (key : string) (c : Case R) : Case R :=
  {| cState := cState _ c; cOn := key; cGuard := cGuard _ c; cBody := cBody _ c; cRet := cRet _ c |}.

Lemma switch_retrigger {R} (zero : R) cases (cb : Callbacks V H) key key' w :
  (forall c, c ∈ cases -> cOn _ c = key) ->
  switch zero (map (retrigger key') cases) cb key' w = switch zero cases cb key w.
Proof.
  induction cases as [|c cases IH]; intros Hc; [done |]. cbn [map switch].
  rewrite IH by (intros d Hd; apply Hc; by right).
  assert (selects cb key' w (retrigger key' c) = selects cb key w c) as ->; [| done].
  unfold selects. simpl. rewrite (Hc c) by left.
  by rewrite (bool_decide_true (key' = key')), (bool_decide_true (key = key)).
Qed.
End Running.

(** ** Theorems *)

Lemma sdk_laws T : T ∈ [swift; kotlin; typescript] -> TargetLaws T.
Proof. rewrite !elem_of_cons. intros [->|[->|[->|?%elem_of_nil]]]; [apply _ | apply _ | apply _ | done]. Qed.

Section Theorems.
Context {V H : Type} `{!GoVars V}.

(** C22. The Swift, Kotlin and TypeScript machines are the Go machine without
    its counters: whenever the Go code of an actor compiles and the other
    language's declarations are distinct, that language's [handleEvent] has
    the Go cases in the same order, with the same states, events, guards,
    actions, literal assignments and commands, but none of the increments.
    On an actor that counts nothing, and with no change callback, the two
    give the same state, variables, commands and errors on every event. *)
Theorem sdk_machines_are_go_without_counters (T : Target) (p : Protocol) (a : Actor) (cPrefix : string)
    (he : list (Case (list CmdID))) :
  T ∈ [swift; kotlin; typescript] ->
  compiles p a cPrefix -> sdkCompiles T p a = true ->
  let ts := FlattenedTransitions a in
  HandleEventCases (goConsts cPrefix p) (goStructFields p ts) (cPrefix +:+ goConstPrefix (Name a)) cPrefix ts = Some he ->
  handleEventCases T (enumsOf T p a) (fieldsOf T p ts) ts = Some (map stripCase he) /\
  ((forall t u, t ∈ ts -> u ∈ Updates t -> counting u = false) ->
   forall (cb : Callbacks V H) ev w, cbOnChange cb = None ->
     switch [] (map stripCase he) cb ev w = switch [] he cb ev w).
Proof.
  intros HT [Hval Ha Hflat Hnd Hcamel] Hok ts Hhe. pose proof (sdk_laws T HT) as laws.
  destruct (sdkCompiles_parts T p a Hok) as ((Hs & _ & _ & _ & He & Hcm) & _ & _ & Hd).
  rewrite HandleEventCases_table in Hhe; [| done | done | done | done | done |].
  2:{ intros t c Ht. by apply Hd. }
  split.
  - unfold handleEventCases, sdkHandleEvent. eapply mapM_same; [exact Hhe |]. intros t c Ht Hc.
    eapply (case_same T p a Hval Ha Hok transitionEvent _ Emits); [done | exact Hc | |].
    + apply resolve_enum; [done |]. by eapply events_flat.
    + destruct (Hd t Ht) as [_ Hem]. by apply resolve_enums.
  - intros Hcount cb ev w Hcb. apply switch_strip; [done |]. by eapply table_noIncr.
Qed.
End Theorems.

(** ** Swift's [step] *)

Lemma firsts_NoDup l : NoDup (firsts l).
Proof.
  unfold firsts. induction l as [|y l IH] using rev_ind; [constructor |]. rewrite foldl_snoc. by apply addState_NoDup.
Qed.

Lemma filter_internalFrom ts s s' :
  List.filter (fun t => bool_decide (From t = s)) (internalFrom ts s') = if bool_decide (s' = s) then internalFrom ts s else [].
Proof.
  unfold internalFrom. induction ts as [|t ts IH]; [by case_bool_decide |]. rewrite !filter_cons.
  case_bool_decide as Hs.
  - subst s'. case_decide as Ht; [| by rewrite IH]. destruct Ht as [? Ht]. simpl. rewrite (bool_decide_true (From t = s)) by done.
    by rewrite IH.
  - case_decide as Ht; [| by rewrite IH]. destruct Ht as [? Ht]. simpl.
    rewrite (bool_decide_false (From t = s)) by congruence. by rewrite IH.
Qed.

Lemma filter_swiftStepOrder ts s :
  List.filter (fun t => bool_decide (From t = s)) (swiftStepOrder ts) = if singleEvent ts s then internalFrom ts s else [].
Proof.
  assert (Hgen : forall ss, NoDup ss ->
    List.filter (fun t => bool_decide (From t = s)) (flat_map (internalFrom ts) ss) = if bool_decide (s ∈ ss) then internalFrom ts s else []).
  { induction ss as [|s' ss IH]; intros Hn; [done |]. apply NoDup_cons in Hn as [Hs' Hn]. cbn [flat_map].
    rewrite List.filter_app, filter_internalFrom, IH by done. destruct (bool_decide_reflect (s' = s)) as [->|Hne].
    - rewrite (bool_decide_false (s ∈ ss)), (bool_decide_true (s ∈ s :: ss)) by (done || left). apply app_nil_r.
    - simpl. rewrite (bool_decide_ext (s ∈ ss) (s ∈ s' :: ss)); [done |]. rewrite elem_of_cons.
      split; [by right | by intros [->|?]]. }
  unfold swiftStepOrder. rewrite Hgen; [| apply NoDup_ListNoDup, List.NoDup_filter, NoDup_ListNoDup, firsts_NoDup].
  case_bool_decide as Hin.
  - apply list_elem_of_In, filter_In in Hin as [_ Hin]. by rewrite Hin.
  - destruct (singleEvent ts s) eqn:Hs; [| done]. symmetry. apply elem_of_nil_inv. intros t Ht.
    apply Hin, list_elem_of_In, filter_In. split; [| done]. apply list_elem_of_In, firsts_elem, list_elem_of_fmap.
    apply list_elem_of_filter in Ht as [[Hk Hf] Ht]. exists t. split; [done |]. by apply list_elem_of_filter.
Qed.

Section SwiftStep.
Context {V H : Type} `{!GoVars V} (gofields : list (string * string)).

(** The case of a transition whose updates are in order. *)
Definition caseOf (on : Transition -> string) (t : Transition) : Case bool :=
  {| cState := From t; cOn := on t; cGuard := if bool_decide (Guard t = EmptyString) then None else Some (Guard t);
     cBody := tableAction t ++ default [] (tableUpdates gofields t) ++ [Goto (To t)]; cRet := true |}.

Lemma tableCase_caseOf on t (c : Case bool) : tableCase gofields on (fun _ => true) t = Some c -> c = caseOf on t.
Proof. unfold tableCase, caseOf. destruct (tableUpdates gofields t); [| done]. by intros [= <-]. Qed.

Lemma tableCase_on on on' t (c : Case bool) :
  tableCase gofields on (fun _ => true) t = Some c -> tableCase gofields on' (fun _ => true) t = Some (caseOf on' t).
Proof. unfold tableCase, caseOf. by destruct (tableUpdates gofields t). Qed.

Lemma mapM_caseOf on l cases : mapM (tableCase gofields on (fun _ => true)) l = Some cases -> cases = map (caseOf on) l.
Proof.
  revert cases. induction l as [|t l IH]; intros cases Hm; [by injection Hm as <- |].
  apply mapM_cons_inv in Hm as (y & ys & -> & Hy & Hys). cbn [map]. f_equal; [by apply tableCase_caseOf in Hy | by apply IH].
Qed.

Lemma filter_map_onKey (G : Transition -> Case bool) on (w : World V H) key l :
  (forall t, cState _ (G t) = From t) -> (forall t, cOn _ (G t) = on t) ->
  List.filter (onKey w key) (map G l) =
  map G (List.filter (fun t => bool_decide (on t = key)) (List.filter (fun t => bool_decide (From t = wState w)) l)).
Proof.
  intros Hs Ho. induction l as [|t l IH]; [done |]. cbn [map List.filter]. unfold onKey at 1. rewrite Hs, Ho.
  destruct (bool_decide (From t = wState w)); simpl; [| done]. destruct (bool_decide (on t = key)); simpl; by rewrite IH.
Qed.

Lemma filter_all {A} (f : A -> bool) l : (forall x, x ∈ l -> f x = true) -> List.filter f l = l.
Proof.
  induction l as [|x l IH]; intros Hf; [done |]. simpl. rewrite Hf by left. f_equal. apply IH. intros y Hy. apply Hf. by right.
Qed.

Lemma step_by_state ts st (cb : Callbacks V H) w :
  mapM (tableCase gofields (fun t => Desc (On t)) (fun _ => true)) (filter (fun t => Kind (On t) = TriggerInternal) ts) = Some st ->
  let sc := map (fun t => stripCase (caseOf (fun _ => EmptyString) t)) (swiftStepOrder ts) in
  (forall e, internalFrom ts (wState w) <> [] -> (forall t, t ∈ internalFrom ts (wState w) -> Desc (On t) = e) ->
     switch false sc cb EmptyString w = switch false (map stripCase st) cb e w) /\
  (singleEvent ts (wState w) = false -> switch false sc cb EmptyString w = (w, false, None)).
Proof.
  intros Hst sc. apply mapM_caseOf in Hst as ->. rewrite <-(switch_onKey false sc). unfold sc.
  rewrite (filter_map_onKey _ (fun _ => EmptyString)) by done. rewrite filter_swiftStepOrder. split.
  - intros e Hne He. rewrite <-(switch_onKey false (map stripCase _)), map_map.
    rewrite (filter_map_onKey (fun t => stripCase (caseOf (fun t => Desc (On t)) t)) (fun t => Desc (On t))) by done.
    assert (Hgo : List.filter (fun t => bool_decide (From t = wState w)) (filter (fun t => Kind (On t) = TriggerInternal) ts)
                  = internalFrom ts (wState w)).
    { unfold internalFrom. clear. induction ts as [|t ts IH]; [done |]. rewrite !filter_cons.
      repeat case_decide; simpl; try case_bool_decide; rewrite ?IH; tauto. }
    rewrite Hgo. rewrite (filter_all (fun t => bool_decide (Desc (On t) = e))) by (intros t Ht; apply bool_decide_eq_true; auto).
    assert (singleEvent ts (wState w) = true) as ->.
    { apply bool_decide_eq_true. set (X := firsts _). pose proof (firsts_NoDup (map (fun t => Desc (On t)) (internalFrom ts (wState w)))) as Hn.
      fold X in Hn. assert (Hall : forall x, x ∈ X -> x = e).
      { intros x Hx. apply firsts_elem, list_elem_of_fmap in Hx as (t & -> & Ht). auto. }
      destruct (internalFrom ts (wState w)) as [|t0 rest] eqn:Hi; [done |].
      assert (Hin : Desc (On t0) ∈ X) by (apply firsts_elem; left).
      destruct X as [|x [|y X]]; [by apply elem_of_nil in Hin | done |]. apply NoDup_cons in Hn as [Hx _].
      destruct Hx. rewrite (Hall x), (Hall y) by (repeat first [left | right]). left. }
    rewrite filter_all by (intros; by apply bool_decide_eq_true).
    rewrite <-(switch_retrigger false (map (fun t => stripCase (caseOf (fun t => Desc (On t)) t)) (internalFrom ts (wState w)))
      cb e EmptyString w).
    + by rewrite map_map.
    + intros c Hc. apply list_elem_of_fmap in Hc as (t & -> & Ht). simpl. auto.
  - intros ->. done.
Qed.
End SwiftStep.

Lemma mapM_elem {A B} (f : A -> option B) l r x : mapM f l = Some r -> x ∈ l -> exists y, f x = Some y.
Proof.
  revert r. induction l as [|z l IH]; intros r Hm Hx; [by apply elem_of_nil in Hx |].
  apply mapM_cons_inv in Hm as (y & ys & -> & Hy & Hys). apply elem_of_cons in Hx as [->|Hx]; eauto.
Qed.

Section SwiftTheorem.
Context {V H : Type} `{!GoVars V}.

(** The older entry points of a Swift machine: [handleMessage] has the Go
    cases of [HandleMessage] without increments, and [step], which takes no
    event, does in a state whose internal transitions all have one event
    what [Step] does on that event, and in a state with several events
    nothing at all, whichever of them the host wanted. *)
Theorem swift_step_takes_the_only_event (p : Protocol) (a : Actor) (cPrefix : string) (hm st : list (Case bool)) :
  compiles p a cPrefix -> sdkCompiles swift p a = true ->
  let ts := FlattenedTransitions a in
  let stateType := cPrefix +:+ goConstPrefix (Name a) in
  HandleMessageCases (goConsts cPrefix p) (goStructFields p ts) stateType cPrefix ts = Some hm ->
  StepCases (goConsts cPrefix p) (goStructFields p ts) stateType cPrefix ts = Some st ->
  handleMessageCases swift (enumsOf swift p a) (fieldsOf swift p ts) ts = Some (map stripCase hm) /\
  exists sc, swiftStepCases swift (enumsOf swift p a) (fieldsOf swift p ts) ts = Some sc /\
    forall (cb : Callbacks V H) w,
      (forall e, internalFrom ts (wState w) <> [] -> (forall t, t ∈ internalFrom ts (wState w) -> Desc (On t) = e) ->
         switch false sc cb EmptyString w = switch false (map stripCase st) cb e w) /\
      (forall t1 t2, t1 ∈ internalFrom ts (wState w) -> t2 ∈ internalFrom ts (wState w) -> Desc (On t1) <> Desc (On t2) ->
         switch false sc cb EmptyString w = (w, false, None)).
Proof.
  intros [Hval Ha Hflat Hnd Hcamel] Hok ts stateType Hhm Hst. unfold stateType in *.
  rewrite HandleMessageCases_table in Hhm by done. rewrite StepCases_table in Hst by done.
  destruct (sdkCompiles_parts swift p a Hok) as ((_ & Hm & _) & _). split.
  - unfold handleMessageCases, sdkHandleMessage. eapply mapM_same; [exact Hhm |].
    intros t c [Hk Ht]%list_elem_of_filter Hc.
    eapply (case_same swift p a Hval Ha Hok (fun t => Msg (On t)) _ (fun _ => true)); [done | exact Hc | | done].
    apply resolve_enum; [done |]. destruct (Validate_flat p a t Hval Ha Hflat Ht) as [msg Hw].
    by eapply checkTrigger_msg.
  - pose proof (fun cb w => step_by_state (V := V) (H := H) _ ts st cb w Hst) as Hrun.
    eexists. split; [| intros cb w; destruct (Hrun cb w) as [H1 H2]; split; [exact H1 |]].
    + unfold swiftStepCases, swiftStep.
      rewrite <-(map_map (caseOf (goStructFields p ts) (fun _ => EmptyString)) stripCase). eapply mapM_same.
      2:{ intros t c Ht Hc. apply list_elem_of_In, in_flat_map in Ht as (s & _ & Ht). apply list_elem_of_In, list_elem_of_filter in Ht as [_ Ht].
          eapply (case_same swift p a Hval Ha Hok (fun _ => EmptyString) _ (fun _ => true)); [done | exact Hc | done | done]. }
      apply mapM_Some. apply Forall2_fmap_r, Forall_Forall2_diag, Forall_forall. intros t Ht.
      apply list_elem_of_In, in_flat_map in Ht as (s & _ & Ht). apply list_elem_of_In, list_elem_of_filter in Ht as [[Hk _] Ht].
      assert (Hin : t ∈ filter (fun t => Kind (On t) = TriggerInternal) ts) by (by apply list_elem_of_filter).
      destruct (mapM_elem _ _ _ t Hst Hin) as [c Hc]. by eapply tableCase_on.
    + intros t1 t2 Ht1 Ht2 Hne. apply H2. apply bool_decide_eq_false. intros Hlen.
      set (X := firsts _) in Hlen. destruct X as [|x [|y X']] eqn:HX; [done | | done].
      assert (Hone : forall t, t ∈ internalFrom ts (wState w) -> Desc (On t) = x).
      { intros t Ht. apply list_elem_of_singleton. rewrite <-HX. apply firsts_elem, list_elem_of_fmap. eauto. }
      apply Hne. by rewrite (Hone t1), (Hone t2).
Qed.
End SwiftTheorem.

(** ** Witnesses *)

(** A meter that is started, ticks, and is stopped. *)
Definition meterEdge (from to ev : string) (do : ActionID) (updates : list (string * string)) : Transition :=
  gtr from to (Internal ev) EmptyString do [] updates.
Definition meterActor : Actor :=
  {| Name := "meter"; Initial := "Idle";
     Transitions := [meterEdge "Idle" "Busy" "start" "open" [("level", "0")];
                     meterEdge "Busy" "Busy" "tick" EmptyString [("level", "level + 1")];
                     meterEdge "Busy" "Idle" "stop" EmptyString []];
     StateIndex := []; Roots := []; Machines := []; Routes := [] |}.
Definition meterProtocol : Protocol :=
  {| pName := "Meter"; Actors := [meterActor]; Messages := [gmsg "hello" "meter" "meter" EmptyString];
     Events := []; Commands := []; Structs := [];
     Vars := [{| varName := "level"; varType := VarInt; varInitial := "0"; varDesc := EmptyString |}];
     Guards := []; Operators := []; AdvActions := []; AdvGuard := EmptyString; Phases := []; WireConsts := [];
     Constants := []; Properties := []; ChannelBound := 0; OneShot := false |}.
#[export] Instance meterVars : GoVars Z := goFields [("Level", FInt id (fun z _ => z))].
Definition meterWorld (s : State) (level : Z) (host : nat) : World Z nat := {| wState := s; wVars := level; wHost := host |}.
Definition meterCallbacks : Callbacks Z nat :=
  {| cbGuards := ∅; cbActions := {["open" := fun w => (meterWorld (wState w) (wVars w) (S (wHost w)), None)]};
     cbOnChange := None |}.

Lemma meter_compiles : compiles meterProtocol meterActor "Meter".
Proof.
  split; [done | left | done | by eapply bool_decide_eq_true |].
  intros s Hs. by repeat (apply elem_of_cons in Hs as [->|Hs]; [done |]); apply elem_of_nil in Hs.
Qed.

(** The Go cases of the three transitions. *)
Definition meterStep {R} (ret : R) : list (Case R) :=
  [case_ "Idle" "start" None [Act "open"; Set_ "Level" (VInt 0); Changed "level"; Goto "Busy"] ret;
   case_ "Busy" "tick" None [Incr "Level" 1; Changed "level"; Goto "Busy"] ret;
   case_ "Busy" "stop" None [Goto "Idle"] ret].

Definition meterEvents : list (Case (list CmdID)) := meterStep [].

Lemma sdk_machines_are_go_without_counters_witness :
  handleEventCases kotlin (enumsOf kotlin meterProtocol meterActor)
    (fieldsOf kotlin meterProtocol (FlattenedTransitions meterActor)) (FlattenedTransitions meterActor)
  = Some (map stripCase meterEvents) /\
  (switch [] meterEvents meterCallbacks "tick" (meterWorld "Busy" 4 0)).1.1 = meterWorld "Busy" 5 0 /\
  (switch [] (map stripCase meterEvents) meterCallbacks "tick" (meterWorld "Busy" 4 0)).1.1 = meterWorld "Busy" 4 0.
Proof.
  destruct (sdk_machines_are_go_without_counters (V := Z) (H := nat) kotlin meterProtocol meterActor "Meter" meterEvents)
    as [Hcases _]; [right; left | apply meter_compiles | vm_compute; reflexivity | vm_compute; reflexivity |].
  split_and!; [exact Hcases | vm_compute; reflexivity | vm_compute; reflexivity].
Defined.

Lemma swift_step_takes_the_only_event_witness :
  exists sc, swiftStepCases swift (enumsOf swift meterProtocol meterActor)
    (fieldsOf swift meterProtocol (FlattenedTransitions meterActor)) (FlattenedTransitions meterActor) = Some sc /\
  switch false sc meterCallbacks EmptyString (meterWorld "Idle" 7 0) = (meterWorld "Busy" 0 1, true, None) /\
  switch false sc meterCallbacks EmptyString (meterWorld "Busy" 7 0) = (meterWorld "Busy" 7 0, false, None).
Proof.
  destruct (swift_step_takes_the_only_event (V := Z) (H := nat) meterProtocol meterActor "Meter" [] (meterStep true))
    as [_ (sc & Hsc & Hrun)]; [apply meter_compiles | vm_compute; reflexivity | vm_compute; reflexivity | vm_compute; reflexivity |].
  exists sc. split; [exact Hsc |]. split.
  - destruct (Hrun meterCallbacks (meterWorld "Idle" 7 0)) as [Hone _]. rewrite (Hone "start"); [vm_compute; reflexivity | done |].
    intros t Ht. apply list_elem_of_singleton in Ht as ->. done.
  - destruct (Hrun meterCallbacks (meterWorld "Busy" 7 0)) as [_ Hmany].
    apply (Hmany (meterEdge "Busy" "Busy" "tick" EmptyString [("level", "level + 1")]) (meterEdge "Busy" "Idle" "stop" EmptyString []));
      [left | right; left | done].
Defined.
