(* ===== verification/CGen.v ===== *)
(** * CGen: the machines written for C (protocol/cgen.go)

    The header declares the enums, in one name space, and a struct per actor;
    the implementation has [..._handle_message] and [..._step], a chain of
    [if]s like the cases of the Go methods.  The variables are named here as
    in the Go struct, and enum constants stand for the names they were
    declared for. *)

From Stdlib Require Import ZArith Lia Strings.String Strings.Ascii.
From stdpp Require Import base gmap strings list fin_maps pretty.
From S2P Require Import Prelude Machine GoGen Sdk.

(** ** Identifiers *)

(** [cSnake] on ASCII; [prev] is the character before. *)
Fixpoint cSnake_loop (prev : option ascii) (s : string) : string :=
  match s with
  | EmptyString => EmptyString
  | String r s =>
      let rest := cSnake_loop (Some r) s in
      if isSep r then String "_"%char rest
      else if isUpper r then
        let prevLower := match prev with Some a => isLower a | None => false end in
        let prevIsLetter := match prev with Some a => isLetter a | None => false end in
        let nextLower := match s with String a _ => isLower a | EmptyString => false end in
        if prevLower || (prevIsLetter && nextLower) then String "_"%char (String (toLower r) rest)
        else String (toLower r) rest
      else String r rest
  end.
Definition cSnake (s : string) : string := cSnake_loop None s.

(** Runs of underscores collapsed: each pass shortens the string, so its
    length is enough fuel. *)
Fixpoint collapse (fuel : nat) (s : string) : string :=
  match fuel with
  | O => s
  | S fuel => if Contains s "__" then collapse fuel (ReplaceAll s "__" "_") else s
  end.
Fixpoint trimUnderscores (s : string) : string :=
  match s with
  | String "_" s => trimUnderscores s
  | _ => s
  end.
Definition cConstName (s : string) : string :=
  let snake := ToUpper (cSnake s) in
  reverse (trimUnderscores (reverse (trimUnderscores (collapse (String.length snake) snake)))).
Definition cConstPrefix (actor : string) : string :=
  if bool_decide (actor = "ios") then "APP" else if bool_decide (actor = "cli") then "CLI" else ToUpper actor.

(** ** Literals, types and declarations *)

Definition cSimpleLiteral : string -> option string := goSimpleLiteral.
(** Empty for a type that has no C field. *)
Definition cType (t : VarType) : string :=
  if bool_decide (t = VarInt) then "int" else if bool_decide (t = VarBool) then "bool"
  else if bool_decide (t = VarString) || bool_decide (t = EmptyString) then "const char *" else EmptyString.


(** C has one name space for the constants of all enums; each enum ends with
    a count. *)
Definition cStateConst (prefix : string) (s : State) : string := "PIGEON_" +:+ prefix +:+ "_" +:+ cConstName s.
Definition cKindConst (p : Protocol) (kind id : string) : string := "PIGEON_" +:+ ToUpper (pName p) +:+ kind +:+ cConstName id.
Definition cCount (prefix : string) : GoConst := (prefix, prefix).
Definition cMachPrefix (a : Actor) (m : SubMachine) : string := cConstPrefix (Name a) +:+ "_" +:+ cConstName (smName m).

Definition cStateEnum (prefix : string) (states : list State) : list GoConst :=
  enum (cStateConst prefix) states ++ [cCount ("PIGEON_" +:+ prefix +:+ "_STATE_COUNT")].
Definition cActorStates (a : Actor) : list GoConst :=
  if IsComposed a then flat_map (fun m => cStateEnum (cMachPrefix a m) (collectSubMachineStates m)) (Machines a)
  else cStateEnum (cConstPrefix (Name a)) (collectStates a).
(** The enum of a kind; but for messages, an empty one is not written. *)
Definition cEnum (p : Protocol) (kind : string) (always : bool) (ids : list string) : list GoConst :=
  if bool_decide (ids = []) && negb always then []
  else enum (cKindConst p kind) ids ++ [cCount ("PIGEON_" +:+ ToUpper (pName p) +:+ kind +:+ "COUNT")].

Definition cConsts (p : Protocol) : list GoConst :=
  flat_map cActorStates (Actors p) ++ cEnum p "_MSG_" true (map msgType (Messages p))
  ++ cEnum p "_GUARD_" false (guardIDs p) ++ cEnum p "_ACTION_" false (collectActions p)
  ++ cEnum p "_EVENT_" false (collectAllEvents p) ++ cEnum p "_CMD_" false (map cmdID (Commands p)).

(** The variable fields of the struct; a set has none. *)
Definition cFields (p : Protocol) (ts : list Transition) : list (string * (string * string)) :=
  flat_map (fun v => if bool_decide (cType (varType v) = EmptyString) then []
                     else [(cSnake (varName v), (varName v, cType (varType v)))]) (goStructVars p ts).

(** What [..._machine_init] assigns after clearing the struct. *)
Definition cInitialValue (v : VarDef) : string := default EmptyString (cSimpleLiteral (varInitial v)).
Definition cMachineInit (p : Protocol) (ts : list Transition) : list (string * string) :=
  flat_map (fun v => if bool_decide (cType (varType v) = EmptyString) || bool_decide (cInitialValue v = EmptyString) then []
                     else [(cSnake (varName v), cInitialValue v)]) (goStructVars p ts).

Fixpoint cSelfUpdate_loop (ops : list string) (varName expr : string) : option GoExpr :=
  match ops with
  | [] => None
  | op :: ops =>
      match CutPrefix expr (varName +:+ op) with
      | Some rest =>
          match Sscanf_d (TrimSpace rest) with
          | Some n => Some (GSelf (cSnake varName) op n)
          | None => cSelfUpdate_loop ops varName expr
          end
      | None => cSelfUpdate_loop ops varName expr
      end
  end.
Definition cSelfUpdate (varName expr : string) : option GoExpr :=
  cSelfUpdate_loop [" + "; " - "] varName (TrimSpace expr).

Definition cUpdate (u : VarUpdate) : list GoStmt :=
  match cSimpleLiteral (Expr u) with
  | Some lit => [GAssign (cSnake (Var u)) (GLit lit); GNotify (Var u)]
  | None =>
      match cSelfUpdate (Var u) (Expr u) with
      | Some e => [GAssign (cSnake (Var u)) e; GNotify (Var u)]
      | None => [sdkComment u]
      end
  end.

(** [writeCTransitionBody], and [writeCSubTransitionBody] with the prefix of a
    sub-machine. *)
Definition writeCTransitionBody (p : Protocol) (statePrefix : string) (t : Transition) : list GoStmt :=
  (if bool_decide (Do t = EmptyString) then [] else [GAction (cKindConst p "_ACTION_" (Do t))])
  ++ flat_map cUpdate (Updates t)
  ++ [GState (cStateConst statePrefix (To t))].

(** [if (m->state == s && on == k && guards...) { body; return 1; }] *)
Definition cCase (p : Protocol) (statePrefix : string) (on : Transition -> string) (t : Transition) : GoCase :=
  {| gcState := cStateConst statePrefix (From t); gcOn := on t;
     gcGuard := if bool_decide (Guard t = EmptyString) then None else Some (cKindConst p "_GUARD_" (Guard t));
     gcBody := writeCTransitionBody p statePrefix t; gcRet := GTrue |}.
Definition cHandleMessage (p : Protocol) (statePrefix : string) (ts : list Transition) : list GoCase :=
  map (cCase p statePrefix (fun t => cKindConst p "_MSG_" (Msg (On t)))) (filter (fun t => Kind (On t) = TriggerRecv) ts).
Definition cStep (p : Protocol) (statePrefix : string) (ts : list Transition) : list GoCase :=
  map (cCase p statePrefix (fun t => cKindConst p "_EVENT_" (Desc (On t)))) (filter (fun t => Kind (On t) = TriggerInternal) ts).

Definition cWireConst (wc : WireConstant) := wireConstAs ("PIGEON_WIRE_" +:+ cConstName (wcName wc)) id wc.

(** ** What the C code means *)

Definition fitsInt (z : Z) : bool := bool_decide (- 2 ^ 31 <= z < 2 ^ 31)%Z.
Definition literalFits (x : goValue) : bool := match x with VInt z => fitsInt z | _ => true end.
Definition cLitType : goValue -> string := literalType "int" "bool" "const char *".

Section ElaborateC.
Context (consts : list GoConst) (fields : list (string * (string * string))).

(** An [int] field takes values of 32 bits. *)
Definition cAssign (field : string) (e : GoExpr) : option stmt :=
  f ← snd <$> find (fun f => bool_decide (f.1 = field)) fields;
  match e with
  | GLit text =>
      x ← literalValue text;
      if bool_decide (f.2 = cLitType x) && literalFits x then Some (Set_ (goCamel f.1) x) else None
  | GSelf field' op n =>
      if bool_decide (field' = field) && bool_decide (f.2 = "int") && fitsInt n then
        if bool_decide (op = " + ") then Some (Incr (goCamel f.1) n)
        else if bool_decide (op = " - ") then Some (Incr (goCamel f.1) (- n)) else None
      else None
  end.

Definition cStmt (s : GoStmt) : option (list stmt) :=
  match s with
  | GAction c => i ← resolve consts c; Some [Act i]
  | GAssign field e => a ← cAssign field e; Some [a]
  | GNotify v => Some [Changed v]
  | GComment _ => Some []
  | GState c => s ← resolve consts c; Some [Goto s]
  end.

Definition elabCCase (c : GoCase) : option (Case bool) :=
  s ← resolve consts (gcState c);
  k ← resolve consts (gcOn c);
  g ← match gcGuard c with None => Some None | Some g => Some <$> resolve consts g end;
  b ← (mjoin <$> mapM cStmt (gcBody c));
  r ← retTrue (gcRet c);
  Some {| cState := s; cOn := k; cGuard := g; cBody := b; cRet := r |}.
End ElaborateC.

Definition cHandleMessageCases (p : Protocol) (a : Actor) : option (list (Case bool)) :=
  let ts := FlattenedTransitions a in
  mapM (elabCCase (cConsts p) (cFields p ts)) (cHandleMessage p (cConstPrefix (Name a)) ts).
Definition cStepCases (p : Protocol) (a : Actor) : option (list (Case bool)) :=
  let ts := FlattenedTransitions a in
  mapM (elabCCase (cConsts p) (cFields p ts)) (cStep p (cConstPrefix (Name a)) ts).

Section RunC.
Context {V H : Type} `{!GoVars V}.

(** The callback tables; an action returns an [int]. *)
Record CCallbacks := {
  ccGuards : gmap GuardID (World V H -> bool);
  ccActions : gmap ActionID (World V H -> World V H * Z);
  ccOnChange : option (string -> World V H -> World V H)
}.

Definition toGo (cb : CCallbacks) : Callbacks V H := {|
  cbGuards := ccGuards cb;
  cbActions := (fun fn w => let '(w, err) := fn w in (w, if (err =? 0)%Z then None else Some (EFmt "%d" [AStr (pretty err)])))
               <$> ccActions cb;
  cbOnChange := ccOnChange cb
|}.

(** A body: the error code of an action, or 0; nothing where an [int]
    overflows, which has no meaning in C. *)
Fixpoint cExec (cb : CCallbacks) (body : list stmt) (w : World V H) : option (World V H * Z) :=
  match body with
  | [] => Some (w, 0%Z)
  | Act i :: body =>
      match ccActions cb !! i with
      | None => cExec cb body w
      | Some fn => let '(w, err) := fn w in if (err =? 0)%Z then cExec cb body w else Some (w, err)
      end
  | Set_ field x :: body => cExec cb body (withVars w (assign field x))
  | Incr field n :: body =>
      match goInt_field field with
      | Some (get, _) => if fitsInt (get (wVars w) + n)%Z then cExec cb body (withVars w (increment field n)) else None
      | None => None
      end
  | Changed v :: body => cExec cb body (match ccOnChange cb with None => w | Some f => f v w end)
  | Goto s :: body => cExec cb body (withState w s)
  end.

(** [if (err) return -err;] and [return 1;]; [return 0;] at the end. *)
Fixpoint cCall (cases : list (Case bool)) (cb : CCallbacks) (key : string) (w : World V H) : option (World V H * Z) :=
  match cases with
  | [] => Some (w, 0%Z)
  | c :: cases =>
      if selects (toGo cb) key w c then
        match cExec cb (cBody _ c) w with
        | Some (w, err) => if (err =? 0)%Z then Some (w, 1%Z) else if fitsInt (- err) then Some (w, - err)%Z else None
        | None => None
        end
      else cCall cases cb key w
  end.
End RunC.
Arguments CCallbacks : clear implicits.

(** ** Lemmas: the cases *)

(** Constants are declared once, fields too, in both languages; the variables
    updated are declared. *)
Definition cCompiles (p : Protocol) (a : Actor) : bool :=
  let ts := FlattenedTransitions a in
  unique (cConsts p) && bool_decide (NoDup (map (fun v => cSnake (varName v)) (goStructVars p ts)))
  && bool_decide (NoDup (goStructFields p ts).*1)
  && forallb (fun t => forallb (fun u => bool_decide (Var u ∈ map varName (Vars p))) (Updates t)) ts.

Lemma cSelfUpdate_go v expr :
  match goSelfUpdate v expr with
  | Some (GSelf _ op n) => cSelfUpdate v expr = Some (GSelf (cSnake v) op n)
  | Some (GLit _) => False
  | None => cSelfUpdate v expr = None
  end.
Proof.
  unfold goSelfUpdate, cSelfUpdate. generalize [" + "; " - "]. intros ops. induction ops as [|op ops IH]; [done |].
  cbn [goSelfUpdate_loop cSelfUpdate_loop]. destruct (CutPrefix _ _) as [rest|]; [| exact IH].
  destruct (Sscanf_d _); [done | exact IH].
Qed.

Section CNamed.
Context (p : Protocol) (a : Actor) (Hval : Validate p = None) (Ha : a ∈ Actors p) (Hflat : IsComposed a = false).
Context (Hok : cCompiles p a = true).
Local Abbreviation ts := (FlattenedTransitions a).
Local Abbreviation fields := (cFields p ts).
Local Abbreviation gofields := (goStructFields p ts).
Local Abbreviation prefix := (cConstPrefix (Name a)).

Lemma cCompiles_parts :
  NoDup (cConsts p).*1 /\ NoDup (map (fun v => cSnake (varName v)) (goStructVars p ts)) /\ NoDup gofields.*1 /\
  (forall t u, t ∈ ts -> u ∈ Updates t -> Var u ∈ map varName (Vars p)).
Proof.
  unfold cCompiles in Hok. cbv zeta in Hok. rewrite !andb_true_iff, forallb_forall in Hok.
  destruct Hok as [[[Hc Hs] Hg] Ht]. setoid_rewrite <-list_elem_of_In in Ht.
  split_and!; try by eapply bool_decide_eq_true. intros t u Hin Hu. apply Ht in Hin. rewrite forallb_forall in Hin.
  eapply bool_decide_eq_true, Hin. by apply list_elem_of_In.
Qed.

(** The constants of an enum resolve to what they were declared for. *)
Lemma cResolve_kind kind always ids x :
  (forall e, e ∈ cEnum p kind always ids -> e ∈ cConsts p) -> x ∈ ids -> resolve (cConsts p) (cKindConst p kind x) = Some x.
Proof.
  intros Hin Hx. apply resolve_declared; [apply cCompiles_parts |]. apply Hin. unfold cEnum.
  rewrite bool_decide_false by (intros ->; by apply elem_of_nil in Hx). cbn [andb]. apply elem_of_app. left.
  by apply (declared_const (cKindConst p kind) id).
Qed.

Ltac in_consts := intros e He; unfold cConsts; rewrite !elem_of_app; tauto.

Lemma cResolve_state t s : t ∈ ts -> s = From t \/ s = To t -> resolve (cConsts p) (cStateConst prefix s) = Some s.
Proof.
  intros Ht Hs. apply resolve_declared; [apply cCompiles_parts |]. unfold cConsts. rewrite elem_of_app. left.
  apply elem_of_flat_map. exists a. split; [done |]. unfold cActorStates. rewrite Hflat. unfold cStateEnum.
  apply elem_of_app. left. apply (declared_const (cStateConst prefix) id). apply collectStates_spec. eauto.
Qed.

Lemma cResolve_action t : t ∈ ts -> Do t <> EmptyString -> resolve (cConsts p) (cKindConst p "_ACTION_" (Do t)) = Some (Do t).
Proof.
  intros Ht Hd. apply (cResolve_kind "_ACTION_" false (collectActions p)); [in_consts |].
  apply firsts_elem, elem_of_flat_map. exists t. split; [apply elem_of_flat_map; eauto |].
  rewrite bool_decide_false by done. left.
Qed.

Lemma cResolve_guard t : t ∈ ts -> Guard t <> EmptyString -> resolve (cConsts p) (cKindConst p "_GUARD_" (Guard t)) = Some (Guard t).
Proof.
  intros Ht Hg. apply (cResolve_kind "_GUARD_" false (guardIDs p)); [in_consts |].
  by destruct (Validate_guards p a t Hval Ha Ht).
Qed.

Lemma cResolve_msg t : t ∈ ts -> Kind (On t) = TriggerRecv -> resolve (cConsts p) (cKindConst p "_MSG_" (Msg (On t))) = Some (Msg (On t)).
Proof.
  intros Ht Hk. apply (cResolve_kind "_MSG_" true (map msgType (Messages p))); [in_consts |].
  destruct (Validate_flat p a t Hval Ha Hflat Ht) as [w Hw]. by eapply checkTrigger_msg.
Qed.

Lemma cResolve_event t : t ∈ ts -> Kind (On t) = TriggerInternal ->
  resolve (cConsts p) (cKindConst p "_EVENT_" (Desc (On t))) = Some (Desc (On t)).
Proof.
  intros Ht Hk. apply (cResolve_kind "_EVENT_" false (collectAllEvents p)); [in_consts |].
  pose proof (events_flat (T := swift) p a t Ha Hflat Ht) as He. unfold transitionEvent in He. by rewrite Hk in He.
Qed.

(** An assignment that both languages accept is the same. *)
Lemma cAssign_same t u e e' s s' :
  t ∈ ts -> u ∈ Updates t ->
  (e = e' /\ (exists lit, e = GLit lit) \/ exists op n, e = GSelf (goCamel (Var u)) op n /\ e' = GSelf (cSnake (Var u)) op n) ->
  evalAssign gofields (goCamel (Var u)) e = Some s -> cAssign fields (cSnake (Var u)) e' = Some s' -> s' = s.
Proof.
  intros Ht Hu Hee Hs Hs'. destruct cCompiles_parts as (_ & Hn & _ & Hd).
  unfold cAssign in Hs'. destruct (find _ fields) as [[id [v ty]]|] eqn:Hf; [| done]. cbn [fmap option_fmap option_map mbind option_bind snd] in Hs'.
  assert (Hv : v = Var u).
  { apply find_some in Hf as [Hin Hid]. bool_hyps. cbn [fst] in Hid. subst id. apply list_elem_of_In, elem_of_flat_map in Hin as (d & Hdv & Hin).
    destruct (bool_decide (cType (varType d) = EmptyString)); [by apply elem_of_nil in Hin |]. apply list_elem_of_singleton in Hin as [= Hsn -> ->].
    pose proof (Hd t u Ht Hu) as Hvar. apply list_elem_of_fmap in Hvar as (d' & Hd' & Hd'in). rewrite Hd' in *.
    assert (Hd'v : d' ∈ goStructVars p ts).
    { apply list_elem_of_filter. split; [| done]. rewrite <-Hd'. apply elem_of_flat_map. exists t. split; [done |].
      apply list_elem_of_fmap. eauto. }
    f_equal. eapply NoDup_map_inj; [exact Hn | done | done | done]. }
  subst v. destruct Hee as [[<- [lit ->]]|(op & n & -> & ->)]; unfold evalAssign in Hs; cbn [fst snd] in Hs'.
  - destruct (literalValue lit) as [x|]; [| done]. simpl in Hs, Hs'. repeat case_match; try done. congruence.
  - repeat case_match; try done; congruence.
Qed.

Lemma cUpdate_same t u us us' :
  t ∈ ts -> u ∈ Updates t -> tableUpdate gofields u = Some us ->
  (mjoin <$> mapM (cStmt (cConsts p) fields) (cUpdate u)) = Some us' -> us' = us.
Proof.
  intros Ht Hu. unfold tableUpdate, cUpdate, cSimpleLiteral. destruct (goSimpleLiteral (Expr u)) as [lit|].
  - destruct (evalAssign _ _ _) as [s|] eqn:He; [| done]. intros [= <-]. simpl.
    destruct (cAssign _ _ _) as [s'|] eqn:He'; [| done]. intros [= <-].
    rewrite (cAssign_same t u (GLit lit) (GLit lit) s s' Ht Hu); [done | left; eauto | done | done].
  - pose proof (cSelfUpdate_go (Var u) (Expr u)) as Hself.
    destruct (goSelfUpdate (Var u) (Expr u)) as [[|f op n]|] eqn:Hg; [done | | by rewrite Hself; intros [= <-] [= <-]].
    rewrite Hself. destruct (evalAssign _ _ _) as [s|] eqn:He; [| done]. intros [= <-]. simpl.
    destruct (cAssign _ _ _) as [s'|] eqn:He'; [| done]. intros [= <-].
    apply goSelfUpdate_loop_self in Hg as (op' & n' & [= -> -> ->]).
    rewrite (cAssign_same t u (GSelf (goCamel (Var u)) op' n') (GSelf (cSnake (Var u)) op' n') s s' Ht Hu); [done | right; eauto | done | done].
Qed.

Lemma c_body_app (b1 b2 : list GoStmt) :
  (mjoin <$> mapM (cStmt (cConsts p) fields) (b1 ++ b2)) =
  (x ← (mjoin <$> mapM (cStmt (cConsts p) fields) b1); y ← (mjoin <$> mapM (cStmt (cConsts p) fields) b2); Some (x ++ y)).
Proof.
  rewrite mapM_app_option. destruct (mapM (cStmt (cConsts p) fields) b1) as [x|]; simpl; [| done].
  destruct (mapM (cStmt (cConsts p) fields) b2) as [y|]; simpl; [| done]. by rewrite join_app.
Qed.

Lemma cUpdates_same t l : t ∈ ts -> l ⊆ Updates t -> forall us us',
  (mjoin <$> mapM (tableUpdate gofields) l) = Some us ->
  (mjoin <$> mapM (cStmt (cConsts p) fields) (flat_map cUpdate l)) = Some us' -> us' = us.
Proof.
  intros Ht. induction l as [|u l IH]; intros Hl us us' Hus Hus'.
  { injection Hus as <-. by injection Hus' as <-. }
  destruct (mapM (tableUpdate gofields) (u :: l)) as [k|] eqn:Hm; [| done]. injection Hus as <-.
  apply mapM_cons_inv in Hm as (y & ys & -> & Hy & Hys). cbn [flat_map] in Hus'. rewrite c_body_app in Hus'.
  destruct (mjoin <$> mapM _ (cUpdate u)) as [x|] eqn:Hx; [| done]. cbn [mbind option_bind] in Hus'.
  destruct (mjoin <$> mapM _ (flat_map cUpdate l)) as [z|] eqn:Hz; [| done]. injection Hus' as <-.
  change (mjoin (y :: ys)) with (y ++ mjoin ys). f_equal.
  - by eapply cUpdate_same; [| apply Hl; left | |].
  - apply IH; [intros w Hw; apply Hl; by right | by rewrite Hys | done].
Qed.

Lemma cBody_same t us b :
  t ∈ ts -> tableUpdates gofields t = Some us ->
  (mjoin <$> mapM (cStmt (cConsts p) fields) (writeCTransitionBody p prefix t)) = Some b ->
  b = tableAction t ++ us ++ [Goto (To t)].
Proof.
  intros Ht Hus Hb. unfold writeCTransitionBody in Hb. rewrite !c_body_app in Hb.
  assert (Hact : (mjoin <$> mapM (cStmt (cConsts p) fields)
      (if bool_decide (Do t = EmptyString) then [] else [GAction (cKindConst p "_ACTION_" (Do t))])) = Some (tableAction t)).
  { unfold tableAction. case_bool_decide as Hd; [done |]. simpl. by rewrite cResolve_action. }
  rewrite Hact in Hb. cbn [mbind option_bind] in Hb.
  destruct (mjoin <$> mapM _ (flat_map cUpdate (Updates t))) as [z|] eqn:Hz; [| done]. cbn [mbind option_bind] in Hb.
  cbn [mapM] in Hb. simpl in Hb. rewrite (cResolve_state t) in Hb by auto. simpl in Hb. injection Hb as <-.
  by rewrite (cUpdates_same t (Updates t) Ht ltac:(done) us z Hus Hz).
Qed.

Lemma cCase_same (on onT : Transition -> string) t c c' :
  t ∈ ts -> resolve (cConsts p) (onT t) = Some (on t) ->
  tableCase gofields on (fun _ => true) t = Some c -> elabCCase (cConsts p) fields (cCase p prefix onT t) = Some c' -> c' = c.
Proof.
  intros Ht Hon Hc Hc'. unfold tableCase in Hc. destruct (tableUpdates gofields t) as [us|] eqn:Hus; [| done]. injection Hc as <-.
  unfold elabCCase in Hc'. cbn [gcState gcOn gcGuard gcBody gcRet cCase] in Hc'.
  rewrite (cResolve_state t) in Hc' by auto. cbn [mbind option_bind] in Hc'. rewrite Hon in Hc'. cbn [mbind option_bind] in Hc'.
  assert (Hguard : match (if bool_decide (Guard t = EmptyString) then None else Some (cKindConst p "_GUARD_" (Guard t))) with
                   | None => Some None | Some g => Some <$> resolve (cConsts p) g end
                   = Some (if bool_decide (Guard t = EmptyString) then None else Some (Guard t))).
  { case_bool_decide as Hg; [done |]. by rewrite cResolve_guard. }
  rewrite Hguard in Hc'. cbn [mbind option_bind] in Hc'.
  destruct (mjoin <$> mapM _ (writeCTransitionBody p prefix t)) as [b|] eqn:Hb; [| done]. injection Hc' as <-.
  by rewrite (cBody_same t us b Ht Hus Hb).
Qed.

Lemma mapM_agree {A B C} (f : A -> option B) (g : A -> C) (h : C -> option B) l : forall r r',
  mapM f l = Some r -> mapM h (map g l) = Some r' ->
  (forall x y y', x ∈ l -> f x = Some y -> h (g x) = Some y' -> y' = y) -> r' = r.
Proof.
  induction l as [|x l IH]; intros r r' Hr Hr' Hx; [injection Hr as <-; by injection Hr' as <- |].
  apply mapM_cons_inv in Hr as (y & ys & -> & Hy & Hys). cbn [map] in Hr'. apply mapM_cons_inv in Hr' as (y' & ys' & -> & Hy' & Hys').
  f_equal; [by eapply Hx; [left | |] |]. eapply IH; [done | done |]. intros z w w' Hz. apply Hx. by right.
Qed.
End CNamed.

(** ** Lemmas: running *)

Section CRun.
Context {V H : Type} `{!GoVars V}.

Lemma cExec_go (cb : CCallbacks V H) b : forall w w' err,
  cExec cb b w = Some (w', err) ->
  exec (toGo cb) b w = (w', if (err =? 0)%Z then None else Some (EFmt "%d" [AStr (pretty err)])).
Proof.
  induction b as [|s b IH]; intros w w' err He; [by injection He as <- <- |].
  destruct s as [i|f x|f n|v|s]; cbn [exec cExec] in *.
  - unfold toGo at 1. cbn [cbActions]. rewrite lookup_fmap. destruct (ccActions cb !! i) as [fn|]; [| by apply IH]. simpl.
    destruct (fn w) as [w1 e1]. destruct (Z.eqb_spec e1 0); [by apply IH |]. injection He as <- <-.
    by rewrite (proj2 (Z.eqb_neq _ _)).
  - by apply IH.
  - destruct (goInt_field f) as [[get set]|]; [| done]. destruct (fitsInt _); [by apply IH | done].
  - by apply IH.
  - by apply IH.
Qed.
End CRun.

(** ** Theorems *)

Section CTheorems.
Context {V H : Type} `{!GoVars V}.

(** What a C function returns, next to what the Go method returns. *)
Definition cReports (call : World V H * Z) (go : World V H * bool * option error) : Prop :=
  match go with
  | (w, true, None) => call = (w, 1%Z)
  | (w, false, None) => call = (w, 0%Z)
  | (w, false, Some e) => exists err, err <> 0%Z /\ e = EFmt "%d" [AStr (pretty err)] /\ call = (w, - err)%Z
  | (_, true, Some _) => False
  end.

Lemma cCall_go cases (cb : CCallbacks V H) key w r :
  (forall c, c ∈ cases -> cRet _ c = true) ->
  cCall cases cb key w = Some r -> cReports r (switch false cases (toGo cb) key w).
Proof.
  induction cases as [|c cases IH]; intros Hc Hr; [by injection Hr as <- |]. cbn [cCall switch] in *.
  destruct (selects _ _ _ c); [| by apply IH; [intros d Hd; apply Hc; by right |]].
  destruct (cExec cb (cBody _ c) w) as [[w1 err]|] eqn:He; [| done]. rewrite (cExec_go _ _ _ _ _ He).
  destruct (Z.eqb_spec err 0) as [->|Hne].
  - injection Hr as <-. rewrite (Hc c) by left. done.
  - destruct (fitsInt _); [| done]. injection Hr as <-. by exists err.
Qed.

Lemma cExec_defined (cb : CCallbacks V H) b : forall w,
  Forall noIncr b -> (forall i fn w, ccActions cb !! i = Some fn -> fitsInt (- (fn w).2) = true) ->
  exists r, cExec cb b w = Some r /\ fitsInt (- r.2) = true.
Proof.
  induction b as [|s b IH]; intros w Hb Hf; [by eexists |]. apply Forall_cons in Hb as [Hs Hb].
  destruct s as [i|f x|f n|v|s]; cbn [cExec]; try (by apply IH); [| done].
  destruct (ccActions cb !! i) as [fn|] eqn:Hi; [| by apply IH]. pose proof (Hf i fn w Hi) as Hw.
  destruct (fn w) as [w1 e1]. destruct (e1 =? 0)%Z; [by apply IH | by eexists].
Qed.

Lemma cCall_defined cases (cb : CCallbacks V H) key w :
  (forall c, c ∈ cases -> Forall noIncr (cBody _ c)) ->
  (forall i fn w, ccActions cb !! i = Some fn -> fitsInt (- (fn w).2) = true) -> is_Some (cCall cases cb key w).
Proof.
  intros Hn Hf. induction cases as [|c cases IH]; [by eexists |]. cbn [cCall].
  destruct (selects _ _ _ c); [| apply IH; intros d Hd; apply Hn; by right].
  destruct (cExec_defined cb (cBody _ c) w (Hn c ltac:(left)) Hf) as ([w1 err] & -> & Hfit).
  cbn [snd] in Hfit. rewrite Hfit. destruct (err =? 0)%Z; by eexists.
Qed.

(** C23. The C machine is the Go machine, except for the width of its
    integers and its error codes: where the code of both compiles,
    [handle_message] and [step] have the Go cases, and a call whose [int]
    arithmetic is defined leaves what the Go method leaves and returns 1, 0 or
    an action's code negated where that returns true, false or the action's
    error.  Without counters, and with codes that can be negated, every call
    is defined. *)
Theorem c_machine_is_go_machine (p : Protocol) (a : Actor) (cPrefix : string) (hm st chm cst : list (Case bool)) :
  compiles p a cPrefix -> cCompiles p a = true ->
  let ts := FlattenedTransitions a in
  let stateType := cPrefix +:+ goConstPrefix (Name a) in
  HandleMessageCases (goConsts cPrefix p) (goStructFields p ts) stateType cPrefix ts = Some hm ->
  StepCases (goConsts cPrefix p) (goStructFields p ts) stateType cPrefix ts = Some st ->
  cHandleMessageCases p a = Some chm -> cStepCases p a = Some cst ->
  chm = hm /\ cst = st /\
  forall (cb : CCallbacks V H) cases key w, cases ∈ [chm; cst] ->
    (forall r, cCall cases cb key w = Some r -> cReports r (switch false cases (toGo cb) key w)) /\
    ((forall t u, t ∈ ts -> u ∈ Updates t -> counting u = false) ->
     (forall i fn w, ccActions cb !! i = Some fn -> fitsInt (- (fn w).2) = true) -> is_Some (cCall cases cb key w)).
Proof.
  intros [Hval Ha Hflat Hnd Hcamel] Hok ts stateType Hhm Hst Hchm Hcst. unfold stateType in *.
  rewrite HandleMessageCases_table in Hhm by done. rewrite StepCases_table in Hst by done.
  assert (chm = hm) as ->.
  { eapply mapM_agree; [exact Hhm | exact Hchm |]. intros t c c' [Hk Ht]%list_elem_of_filter.
    apply (cCase_same p a Hval Ha Hflat Hok); [done | by apply (cResolve_msg p a)]. }
  assert (cst = st) as ->.
  { eapply mapM_agree; [exact Hst | exact Hcst |]. intros t c c' [Hk Ht]%list_elem_of_filter.
    apply (cCase_same p a Hval Ha Hflat Hok); [done | by apply (cResolve_event p a)]. }
  split_and!; [done | done |]. intros cb cases key w Hin.
  assert (Hret : exists on l, mapM (tableCase (goStructFields p ts) on (fun _ => true)) l = Some cases /\ l ⊆ ts).
  { rewrite !elem_of_cons in Hin. destruct Hin as [->|[->|?%elem_of_nil]]; [| | done].
    - eexists _, _. split; [exact Hhm |]. by intros t [_ Ht]%list_elem_of_filter.
    - eexists _, _. split; [exact Hst |]. by intros t [_ Ht]%list_elem_of_filter. }
  destruct Hret as (on & l & Hm & Hl). split.
  - intros r. apply cCall_go. intros c Hc. apply mapM_caseOf in Hm as ->. by apply list_elem_of_fmap in Hc as (t & -> & _).
  - intros Hcount. apply cCall_defined. eapply table_noIncr; [| exact Hm]. intros t u Ht. apply Hcount. by apply Hl.
Qed.

(** A negative code of an action reads as success: the call returns 1 although
    the transition was not taken. *)
Theorem negative_code_reads_as_handled (cb : CCallbacks V H) c cases key w i rest fn w' :
  selects (toGo cb) key w c = true -> cBody _ c = Act i :: rest -> ccActions cb !! i = Some fn -> fn w = (w', (-1)%Z) ->
  cCall (c :: cases) cb key w = Some (w', 1%Z) /\
  switch false (c :: cases) (toGo cb) key w = (w', false, Some (EFmt "%d" [AStr (pretty (-1)%Z)])).
Proof.
  intros Hs Hb Hi Hf. cbn [cCall switch]. rewrite Hs, Hb. cbn [cExec exec]. rewrite Hi, Hf. simpl. split; [done |].
  rewrite lookup_fmap, Hi. simpl. by rewrite Hf.
Qed.
End CTheorems.

(** ** Witnesses *)

Definition meterC (code : Z) : CCallbacks Z nat :=
  {| ccGuards := ∅; ccActions := {["open" := fun w => (meterWorld (wState w) (wVars w) (S (wHost w)), code)]};
     ccOnChange := None |}.

Lemma c_machine_is_go_machine_witness :
  cStepCases meterProtocol meterActor = Some (meterStep true) /\
  cReports (meterWorld "Busy" 0 1, 1%Z) (switch false (meterStep true) (toGo (meterC 0)) "start" (meterWorld "Idle" 7 0)) /\
  cReports (meterWorld "Idle" 7 1, (-5)%Z) (switch false (meterStep true) (toGo (meterC 5)) "start" (meterWorld "Idle" 7 0)).
Proof.
  assert (Hst : cStepCases meterProtocol meterActor = Some (meterStep true)) by (vm_compute; reflexivity).
  destruct (c_machine_is_go_machine (V := Z) (H := nat) meterProtocol meterActor "Meter" [] (meterStep true) [] (meterStep true))
    as (_ & _ & Hrun); [apply meter_compiles | vm_compute; reflexivity | vm_compute; reflexivity | vm_compute; reflexivity
                       | vm_compute; reflexivity | exact Hst |].
  split_and!; [exact Hst | |]; (apply Hrun; [right; left | vm_compute; reflexivity]).
Defined.
