(* ===== verification/Composed.v ===== *)
(** * Composed: the dispatchers of composed actors
      (writeGoComposedActor, writeSwiftComposedActor, writeTSComposedActor,
      writeKotlinComposedActor, writeCComposedActorImpl)

    For an actor made of sub-machines the generators print a machine per
    sub-machine, as for a flat actor, and a composite with a [Route] method
    that hands an event reported by one sub-machine to others, by the actor's
    routes. *)

From Stdlib Require Import ZArith Lia Strings.String.
From stdpp Require Import base gmap strings list fin_maps.
From S2P Require Import Prelude Machine GoGen Sdk CGen.

(** ** The code they write *)

(** The methods of a sub-machine's struct or class. *)
Definition goSubMachine (cPrefix : string) (a : Actor) (m : SubMachine) : list GoCase * list GoCase :=
  let stateType := cPrefix +:+ goConstPrefix (Name a) +:+ goCamel (smName m) in
  let ts := SubMachine_FlattenedTransitions m in
  (goStep stateType cPrefix ts, goHandleMessage stateType cPrefix ts).
Definition swiftSubMachine (m : SubMachine) : list GoCase * list GoCase * list GoCase :=
  let ts := SubMachine_FlattenedTransitions m in (swiftHandleEvent ts, swiftHandleMessage ts, swiftStep ts).
Definition tsSubMachine (m : SubMachine) : list GoCase * list GoCase :=
  let ts := SubMachine_FlattenedTransitions m in (tsStep ts, tsHandleMessage ts).
Definition kotlinSubMachine (m : SubMachine) : list GoCase := kotlinHandleEvent (SubMachine_FlattenedTransitions m).
Definition cSubMachine (p : Protocol) (a : Actor) (m : SubMachine) : list GoCase * list GoCase :=
  let ts := SubMachine_FlattenedTransitions m in (cHandleMessage p (cMachPrefix a m) ts, cStep p (cMachPrefix a m) ts).

(** [case from == "F" && event == E && guard: c.M.Step(E')...] *)
Record RouteCase := {
  rcFrom : string;
  rcOn : string;
  rcGuard : option string;
  rcSends : list (string * string)
}.

(** How a language names what a route mentions, and where it declares it. *)
Record RouteNames := {
  rnEvent : string -> string;
  rnGuard : string -> option string;
  rnMachine : string -> string;
  rnEvents : list GoConst;
  rnGuards : list GoConst
}.

Definition routeGuard (f : string -> string) (g : GuardID) : option string :=
  if bool_decide (g = EmptyString) then None else Some (f g).

Definition goRouteNames (p : Protocol) (cPrefix : string) : RouteNames := {|
  rnEvent := fun e => cPrefix +:+ "Event" +:+ goCamel e; rnGuard := routeGuard (fun g => cPrefix +:+ "Guard" +:+ goCamel g);
  rnMachine := goCamel; rnEvents := goConsts cPrefix p; rnGuards := goConsts cPrefix p |}.
Definition swiftRouteNames (p : Protocol) : RouteNames := {|
  rnEvent := swiftCase; rnGuard := routeGuard swiftCase; rnMachine := swiftCase;
  rnEvents := enum swiftCase (collectAllEvents p); rnGuards := enum swiftCase (guardIDs p) |}.
Definition tsRouteNames (p : Protocol) : RouteNames := {|
  rnEvent := kotlinPascalCase; rnGuard := routeGuard kotlinPascalCase; rnMachine := lowerFirst;
  rnEvents := enum kotlinPascalCase (tsCollectEvents p); rnGuards := enum kotlinPascalCase (guardIDs p) |}.
(** Kotlin prints a route's guard as a comment. *)
Definition kotlinRouteNames (p : Protocol) : RouteNames := {|
  rnEvent := kotlinPascalCase; rnGuard := fun _ => None; rnMachine := kotlinCamelCase;
  rnEvents := enum kotlinPascalCase (collectKotlinEvents p); rnGuards := enum kotlinPascalCase (guardIDs p) |}.
Definition cRouteNames (p : Protocol) : RouteNames := {|
  rnEvent := cKindConst p "_EVENT_"; rnGuard := routeGuard (cKindConst p "_GUARD_"); rnMachine := cSnake;
  rnEvents := cConsts p; rnGuards := cConsts p |}.

Definition writeRoutes (N : RouteNames) (a : Actor) : list RouteCase :=
  map (fun r => {| rcFrom := rtFrom r; rcOn := rnEvent N (rtOn r); rcGuard := rnGuard N (rtGuard r);
                   rcSends := map (fun s => (rnMachine N (rsTo s), rnEvent N (rsEvent s))) (rtSends r) |}) (Routes a).

(** ** What the code means *)

(** The sub-machines are fields of the composite. *)
Definition machineFields (N : RouteNames) (a : Actor) : list GoConst := enum (rnMachine N) (map smName (Machines a)).

Definition elabRoute (N : RouteNames) (a : Actor) (rc : RouteCase) : option RouteCase :=
  e ← resolve (rnEvents N) (rcOn rc);
  g ← match rcGuard rc with None => Some None | Some g => Some <$> resolve (rnGuards N) g end;
  ss ← mapM (fun s => m ← resolve (machineFields N a) s.1; ev ← resolve (rnEvents N) s.2; Some (m, ev)) (rcSends rc);
  Some {| rcFrom := rcFrom rc; rcOn := e; rcGuard := g; rcSends := ss |}.
Definition routeCases (N : RouteNames) (a : Actor) : option (list RouteCase) := mapM (elabRoute N a) (writeRoutes N a).

Section Dispatch.
(** [C] is the composite with its host, [deliver] the call of a sub-machine. *)
Context {C : Type} (deliver : string -> string -> C -> C * option error).

(** The sends of a route in order; Go returns the first error, Swift throws
    it, and C looks at no result. *)
Fixpoint sendAll (stop : bool) (sends : list (string * string)) (c : C) : C * option error :=
  match sends with
  | [] => (c, None)
  | (m, e) :: sends =>
      match deliver m e c with
      | (c, Some err) => if stop then (c, Some err) else sendAll stop sends c
      | (c, None) => sendAll stop sends c
      end
  end.

Fixpoint Route_ (stop : bool) (guards : gmap GuardID (C -> bool)) (routes : list RouteCase) (from event : string) (c : C)
    : C * option error :=
  match routes with
  | [] => (c, None)
  | r :: routes =>
      if bool_decide (from = rcFrom r) && bool_decide (event = rcOn r)
         && match rcGuard r with None => true | Some g => match guards !! g with None => false | Some f => f c end end
      then sendAll stop (rcSends r) c
      else Route_ stop guards routes from event c
  end.
End Dispatch.

(** ** The table of routes *)

Definition tableRoute (r : Route) : RouteCase :=
  {| rcFrom := rtFrom r; rcOn := rtOn r; rcGuard := nonEmpty (rtGuard r);
     rcSends := map (fun s => (rsTo s, rsEvent s)) (rtSends r) |}.
Definition unguarded (r : RouteCase) : RouteCase :=
  {| rcFrom := rcFrom r; rcOn := rcOn r; rcGuard := None; rcSends := rcSends r |}.

(** ** Lemmas *)

(** The events a route mentions. *)
Definition routed (r : Route) : list EventID := rtOn r :: map rsEvent (rtSends r).

(** The events routes mention are declared, or events of transitions. *)
Definition eventsKnown (p : Protocol) (a : Actor) : bool :=
  forallb (fun r => forallb (fun e => bool_decide (e ∈ map eventID (Events p) ++ internalEvents (allTransitions p))) (routed r))
    (Routes a).

Lemma eventsKnown_spec p a r e :
  eventsKnown p a = true -> r ∈ Routes a -> e ∈ routed r -> e ∈ map eventID (Events p) ++ internalEvents (allTransitions p).
Proof.
  unfold eventsKnown. rewrite forallb_forall. intros Hk Hr He. apply list_elem_of_In, Hk in Hr.
  rewrite forallb_forall in Hr. eapply bool_decide_eq_true, Hr. by apply list_elem_of_In.
Qed.

Lemma validateRoutes_spec gds ms actor rs : forall i,
  validateRoutes gds ms actor i rs = None -> forall r, r ∈ rs ->
  (rtGuard r = EmptyString \/ rtGuard r ∈ gds) /\ forall s, s ∈ rtSends r -> rsTo s ∈ ms.
Proof.
  induction rs as [|r0 rs IH]; intros i Hv r Hr; [by apply elem_of_nil in Hr |]. cbn [validateRoutes] in Hv. cbv zeta in Hv.
  destruct (negb (declared ms (rtFrom r0))); [done |].
  destruct (negb (bool_decide (rtGuard r0 = EmptyString)) && negb (declared gds (rtGuard r0))) eqn:Hg; [done |].
  apply first_err_None in Hv as [Hs Hv]. apply elem_of_cons in Hr as [->|Hr]; [| by eapply IH]. split.
  - unfold declared in Hg. apply andb_false_iff in Hg as [Hg|Hg]; bool_hyps; auto.
  - rewrite for_each_None in Hs. intros s Hin. apply Hs in Hin. unfold declared in Hin.
    destruct (bool_decide (rsTo s ∈ ms)) eqn:E; [by eapply bool_decide_eq_true | done].
Qed.

Lemma Validate_routes p a r :
  Validate p = None -> a ∈ Actors p -> IsComposed a = true -> r ∈ Routes a ->
  (rtGuard r = EmptyString \/ rtGuard r ∈ guardIDs p) /\ forall s, s ∈ rtSends r -> rsTo s ∈ map smName (Machines a).
Proof.
  unfold Validate. rewrite !first_err_None, !for_each_None. intros (_ & _ & Hact) Ha Hc Hr.
  specialize (Hact a Ha). cbn beta in Hact. rewrite Hc in Hact. unfold validateComposed in Hact.
  apply first_err_None in Hact as [_ Hact]. by eapply validateRoutes_spec.
Qed.

Section Elaborated.
Context (N : RouteNames) (p : Protocol) (a : Actor) (guardOf : Route -> option GuardID).
Context (Hev : forall r e, r ∈ Routes a -> e ∈ routed r -> resolve (rnEvents N) (rnEvent N e) = Some e).
Context (Hg : forall r, r ∈ Routes a ->
  match rnGuard N (rtGuard r) with None => Some None | Some g => Some <$> resolve (rnGuards N) g end = Some (guardOf r)).
Context (Hm : forall r s, r ∈ Routes a -> s ∈ rtSends r -> resolve (machineFields N a) (rnMachine N (rsTo s)) = Some (rsTo s)).

Lemma elabRoutes :
  routeCases N a = Some (map (fun r => {| rcFrom := rtFrom r; rcOn := rtOn r; rcGuard := guardOf r;
                                          rcSends := map (fun s => (rsTo s, rsEvent s)) (rtSends r) |}) (Routes a)).
Proof.
  unfold routeCases, writeRoutes. generalize (fun r (H : r ∈ Routes a) => H). generalize (Routes a) at 1 3 4. intros rs Hrs.
  induction rs as [|r rs IH]; [done |]. cbn [map mapM]. simpl.
  assert (Hr : r ∈ Routes a) by (apply Hrs; left). rewrite IH by (intros r' Hr'; apply Hrs; by right).
  unfold elabRoute. cbn [rcFrom rcOn rcGuard rcSends]. rewrite (Hev r) by (done || left). cbn [mbind option_bind].
  rewrite (Hg r Hr). cbn [mbind option_bind].
  assert (Hss : mapM (fun s => m ← resolve (machineFields N a) s.1; ev ← resolve (rnEvents N) s.2; Some (m, ev))
                  (map (fun s => (rnMachine N (rsTo s), rnEvent N (rsEvent s))) (rtSends r))
                = Some (map (fun s => (rsTo s, rsEvent s)) (rtSends r))).
  { generalize (fun s (H : s ∈ rtSends r) => H). generalize (rtSends r) at 1 3 4. intros ss Hsub.
    induction ss as [|s ss IHs]; [done |]. cbn [map mapM]. simpl. assert (Hs : s ∈ rtSends r) by (apply Hsub; left).
    rewrite (Hm r s Hr Hs). simpl. rewrite (Hev r (rsEvent s) Hr). 2:{ right. apply list_elem_of_fmap. eauto. }
    simpl. rewrite IHs by (intros s' Hs'; apply Hsub; by right). done. }
  rewrite Hss. done.
Qed.
End Elaborated.

(** Names declared once, in one language. *)
Definition routeNamesOk (N : RouteNames) (a : Actor) : bool :=
  unique (rnEvents N) && unique (rnGuards N) && unique (machineFields N a).

Lemma machine_resolves N p a r s :
  routeNamesOk N a = true -> Validate p = None -> a ∈ Actors p -> IsComposed a = true -> r ∈ Routes a -> s ∈ rtSends r ->
  resolve (machineFields N a) (rnMachine N (rsTo s)) = Some (rsTo s).
Proof.
  intros Hok Hval Ha Hc Hr Hs. apply andb_true_iff in Hok as [_ Hok]. apply resolve_enum; [done |].
  by apply (Validate_routes p a r Hval Ha Hc Hr).
Qed.

Lemma guard_resolves f consts p a r :
  (forall g, g ∈ guardIDs p -> resolve consts (f g) = Some g) ->
  Validate p = None -> a ∈ Actors p -> IsComposed a = true -> r ∈ Routes a ->
  match routeGuard f (rtGuard r) with None => Some None | Some g => Some <$> resolve consts g end = Some (nonEmpty (rtGuard r)).
Proof.
  intros Hf Hval Ha Hc Hr. unfold routeGuard, nonEmpty. case_bool_decide as Hg; [done |].
  destruct (Validate_routes p a r Hval Ha Hc Hr) as [[?|Hin] _]; [done |]. by rewrite Hf.
Qed.

(** ** Theorems *)

Section RouteTheorem.
Context (p : Protocol) (a : Actor) (Hval : Validate p = None) (Ha : a ∈ Actors p) (Hc : IsComposed a = true).
Context (Hk : eventsKnown p a = true).

Lemma enum_names_routes f g events r e :
  unique (enum f events) = true -> (forall x, x ∈ map eventID (Events p) ++ internalEvents (allTransitions p) -> x ∈ events) ->
  r ∈ Routes a -> e ∈ routed r -> g = f -> resolve (enum f events) (g e) = Some e.
Proof. intros Hu Hin Hr He ->. apply resolve_enum; [done |]. apply Hin. by eapply eventsKnown_spec. Qed.

Lemma go_routes cPrefix :
  routeNamesOk (goRouteNames p cPrefix) a = true -> routeCases (goRouteNames p cPrefix) a = Some (map tableRoute (Routes a)).
Proof.
  intros Hok. pose proof Hok as Hu. unfold routeNamesOk in Hu. rewrite !andb_true_iff in Hu. destruct Hu as [[He _] _].
  apply bool_decide_eq_true in He. apply (elabRoutes _ _ (fun r => nonEmpty (rtGuard r))).
  - intros r e Hr Hin. apply resolve_declared; [done |]. unfold rnEvents, goRouteNames, goConsts. rewrite !elem_of_app. do 4 right. left.
    apply (declared_const (fun i => cPrefix +:+ "Event" +:+ goCamel i) id), sortedKeys_elem. rewrite !elem_of_app. do 2 right.
    apply elem_of_flat_map. exists a. split; [done |]. apply elem_of_app. right. apply elem_of_flat_map. eauto.
  - intros r Hr. eapply guard_resolves; [| done | done | done | done]. intros g Hg. apply resolve_declared; [done |].
    unfold rnGuards, goRouteNames, goConsts. rewrite !elem_of_app. do 2 right. left.
    apply list_elem_of_fmap in Hg as (d & -> & Hd).
    by apply (declared_const (fun d => cPrefix +:+ "Guard" +:+ goCamel (guardID d)) guardID).
  - intros r s Hr Hs. by eapply machine_resolves.
Qed.

Lemma swift_routes :
  routeNamesOk (swiftRouteNames p) a = true -> routeCases (swiftRouteNames p) a = Some (map tableRoute (Routes a)).
Proof.
  intros Hok. pose proof Hok as Hu. unfold routeNamesOk in Hu. rewrite !andb_true_iff in Hu. destruct Hu as [[He Hgu] _].
  apply (elabRoutes _ _ (fun r => nonEmpty (rtGuard r))).
  - intros r e Hr Hin. eapply enum_names_routes; [done | | done | done | done]. intros x Hx. apply firsts_elem.
    rewrite !elem_of_app in *. tauto.
  - intros r Hr. eapply guard_resolves; [| done | done | done | done]. intros g Hg. by apply resolve_enum.
  - intros r s Hr Hs. by eapply machine_resolves.
Qed.

Lemma ts_routes :
  routeNamesOk (tsRouteNames p) a = true -> routeCases (tsRouteNames p) a = Some (map tableRoute (Routes a)).
Proof.
  intros Hok. pose proof Hok as Hu. unfold routeNamesOk in Hu. rewrite !andb_true_iff in Hu. destruct Hu as [[He Hgu] _].
  apply (elabRoutes _ _ (fun r => nonEmpty (rtGuard r))).
  - intros r e Hr Hin. eapply enum_names_routes; [done | | done | done | done]. intros x Hx. apply firsts_elem.
    rewrite !elem_of_app in *. destruct Hx as [Hx|Hx]; [by left |]. right. left.
    apply elem_of_flat_map in Hx as (t & Ht & Hx). apply elem_of_flat_map. exists t. split; [| done].
    apply elem_of_flat_map in Ht as (b & Hb & Ht). apply elem_of_flat_map. exists b. split; [done |]. apply elem_of_app. by left.
  - intros r Hr. eapply guard_resolves; [| done | done | done | done]. intros g Hg. by apply resolve_enum.
  - intros r s Hr Hs. by eapply machine_resolves.
Qed.

Lemma c_routes :
  routeNamesOk (cRouteNames p) a = true -> routeCases (cRouteNames p) a = Some (map tableRoute (Routes a)).
Proof.
  intros Hok. pose proof Hok as Hu. unfold routeNamesOk in Hu. rewrite !andb_true_iff in Hu. destruct Hu as [[He Hgu] _].
  apply bool_decide_eq_true in He.
  assert (Hres : forall kind ids x, (forall e, e ∈ cEnum p kind false ids -> e ∈ cConsts p) -> x ∈ ids ->
    resolve (cConsts p) (cKindConst p kind x) = Some x).
  { intros kind ids x Hin Hx. apply resolve_declared; [done |]. apply Hin. unfold cEnum.
    rewrite bool_decide_false by (intros ->; by apply elem_of_nil in Hx). cbn [andb]. apply elem_of_app. left.
    by apply (declared_const (cKindConst p kind) id). }
  apply (elabRoutes _ _ (fun r => nonEmpty (rtGuard r))).
  - intros r e Hr Hin. apply (Hres "_EVENT_" (collectAllEvents p)).
    + intros x Hx. unfold cConsts. rewrite !elem_of_app. tauto.
    + apply firsts_elem. pose proof (eventsKnown_spec p a r e Hk Hr Hin) as Hx. rewrite !elem_of_app in *. tauto.
  - intros r Hr. eapply guard_resolves; [| done | done | done | done]. intros g Hg. apply (Hres "_GUARD_" (guardIDs p)); [| done].
    intros x Hx. unfold cConsts. rewrite !elem_of_app. tauto.
  - intros r s Hr Hs. by eapply machine_resolves.
Qed.

Lemma kotlin_routes :
  routeNamesOk (kotlinRouteNames p) a = true ->
  routeCases (kotlinRouteNames p) a = Some (map (fun r => unguarded (tableRoute r)) (Routes a)).
Proof.
  intros Hok. pose proof Hok as Hu. unfold routeNamesOk in Hu. rewrite !andb_true_iff in Hu. destruct Hu as [[He _] _].
  apply (elabRoutes _ _ (fun r => None)).
  - intros r e Hr Hin. apply resolve_enum; [done |]. apply sortedKeys_elem, elem_of_app. right.
    apply elem_of_flat_map. exists a. split; [done |]. rewrite Hc. apply elem_of_app. right. apply elem_of_flat_map. eauto.
  - done.
  - intros r s Hr Hs. by eapply machine_resolves.
Qed.
End RouteTheorem.

(** The dispatchers of a composed actor have the actor's routes in their
    order, with their sources, events, guards and deliveries, in Go, Swift,
    TypeScript and C; in Kotlin the guards are gone.  So where the first
    route of a source and an event has a guard that does not hold, the
    others go on to the next route, and Kotlin delivers all the same. *)
Theorem composite_routes_agree {C} (p : Protocol) (a : Actor) (cPrefix : string) :
  Validate p = None -> a ∈ Actors p -> IsComposed a = true -> eventsKnown p a = true ->
  forallb (fun N => routeNamesOk N a)
    [goRouteNames p cPrefix; swiftRouteNames p; tsRouteNames p; cRouteNames p; kotlinRouteNames p] = true ->
  (forall N, N ∈ [goRouteNames p cPrefix; swiftRouteNames p; tsRouteNames p; cRouteNames p] ->
     routeCases N a = Some (map tableRoute (Routes a))) /\
  routeCases (kotlinRouteNames p) a = Some (map (fun r => unguarded (tableRoute r)) (Routes a)) /\
  forall (deliver : string -> string -> C -> C * option error) stop guards c r rs f,
    rtGuard r <> EmptyString -> guards !! rtGuard r = Some f -> f c = false ->
    Route_ deliver stop guards (map tableRoute (r :: rs)) (rtFrom r) (rtOn r) c
      = Route_ deliver stop guards (map tableRoute rs) (rtFrom r) (rtOn r) c /\
    Route_ deliver stop guards (map (fun r => unguarded (tableRoute r)) (r :: rs)) (rtFrom r) (rtOn r) c
      = sendAll deliver stop (map (fun s => (rsTo s, rsEvent s)) (rtSends r)) c.
Proof.
  intros Hval Ha Hc Hk Hok. rewrite forallb_forall in Hok. split_and!.
  - intros N HN. assert (HokN : routeNamesOk N a = true).
    { apply Hok, list_elem_of_In. rewrite !elem_of_cons in *. tauto. }
    rewrite !elem_of_cons in HN. destruct HN as [->|[->|[->|[->|?%elem_of_nil]]]];
      [by apply go_routes | by apply swift_routes | by apply ts_routes | by apply c_routes | done].
  - apply kotlin_routes; try done. apply Hok, list_elem_of_In. rewrite !elem_of_cons. tauto.
  - intros deliver stop guards c r rs f Hge Hg Hf. cbn [map Route_]. cbn [rcFrom rcOn rcGuard rcSends tableRoute unguarded].
    unfold nonEmpty. rewrite (bool_decide_false (rtGuard r = EmptyString)) by done.
    rewrite !(bool_decide_true (_ = _)) by done. cbn [andb]. by rewrite Hg, Hf.
Qed.

(** ** Witnesses *)

(** A link whose readiness starts a path, when that is allowed. *)
Definition linkMachine : SubMachine :=
  {| smName := "link"; smInitial := "Down"; smTransitions := [gtr "Down" "Up" (Internal "dialled") EmptyString EmptyString [] []];
     smStateIndex := []; smRoots := []; smReports := ["link_ready"]; smAccepts := [] |}.
Definition pathMachine : SubMachine :=
  {| smName := "path"; smInitial := "Idle"; smTransitions := [gtr "Idle" "Active" (Internal "start_path") EmptyString EmptyString [] []];
     smStateIndex := []; smRoots := []; smReports := []; smAccepts := ["start_path"] |}.
Definition readyRoute : Route :=
  {| rtOn := "link_ready"; rtFrom := "link"; rtGuard := "allowed"; rtSends := [{| rsTo := "path"; rsEvent := "start_path" |}] |}.
Definition hostActor : Actor :=
  {| Name := "host"; Initial := EmptyString; Transitions := []; StateIndex := []; Roots := [];
     Machines := [linkMachine; pathMachine]; Routes := [readyRoute] |}.
Definition hostProtocol : Protocol :=
  {| pName := "Host"; Actors := [hostActor]; Messages := [gmsg "hello" "host" "host" EmptyString];
     Events := [{| eventID := "link_ready"; eventDesc := EmptyString |}]; Commands := []; Structs := []; Vars := [];
     Guards := [gguard "allowed" "TRUE"]; Operators := []; AdvActions := []; AdvGuard := EmptyString; Phases := [];
     WireConsts := []; Constants := []; Properties := []; ChannelBound := 0; OneShot := false |}.

Definition record_delivery (m e : string) (log : list (string * string)) : list (string * string) * option error := ((m, e) :: log, None).

Lemma composite_routes_agree_witness :
  routeCases (cRouteNames hostProtocol) hostActor = Some [tableRoute readyRoute] /\
  Route_ record_delivery true {["allowed" := fun _ => false]} (map tableRoute [readyRoute]) "link" "link_ready" [] = ([], None) /\
  Route_ record_delivery true {["allowed" := fun _ => false]} (map (fun r => unguarded (tableRoute r)) [readyRoute]) "link" "link_ready" []
    = ([("path", "start_path")], None).
Proof.
  destruct (composite_routes_agree (C := list (string * string)) hostProtocol hostActor "Host") as (Hroutes & _ & Hrun);
    [vm_compute; reflexivity | left | reflexivity | vm_compute; reflexivity | vm_compute; reflexivity |].
  destruct (Hrun record_delivery true {["allowed" := fun _ => false]} [] readyRoute [] (fun _ => false)) as [Hgo Hkt];
    [done | reflexivity | reflexivity |].
  split_and!; [apply Hroutes; do 3 right; left | exact Hgo | exact Hkt].
Defined.
