(* ===== verification/PlantUml.v ===== *)
(** * PlantUml: the state diagrams (protocol/plantuml.go)

    [ExportPlantUMLActors] draws the machines of some actors: a box per actor,
    in it the actor's transitions, by phase if the protocol has phases, and
    arrows between the boxes for the messages.  The diagram is kept as the
    data it prints, with [printDiagram] giving the text. *)

From Stdlib Require Import ZArith Lia Strings.String.
From stdpp Require Import base gmap strings list fin_maps.
From S2P Require Import Prelude Machine GoGen.

(** ** Text *)

Fixpoint ToLower (s : string) : string :=
  match s with EmptyString => EmptyString | String a s => String (toLower a) (ToLower s) end.
Definition sanitisePUML (s : string) : string := ReplaceAll s " " "_".
Definition stateID (alias : string) (s : State) : string := alias +:+ "_" +:+ sanitisePUML s.

(** ** Coalescing *)

#[export] Instance FairnessKind_eq_dec : EqDecision FairnessKind.
Proof. solve_decision. Defined.

Record transitionGroupKey := {
  gkFrom : string;
  gkTo : string;
  gkGuard : GuardID;
  gkDo : ActionID;
  gkFairness : FairnessKind
}.

#[export] Instance transitionGroupKey_eq_dec : EqDecision transitionGroupKey.
Proof. solve_decision. Defined.

Definition groupKey (t : Transition) : transitionGroupKey :=
  {| gkFrom := From t; gkTo := To t; gkGuard := Guard t; gkDo := Do t; gkFairness := Fairness t |}.

Definition triggerName (t : Transition) : string :=
  match Kind (On t) with TriggerRecv => "recv " +:+ Msg (On t) | TriggerInternal => Desc (On t) end.

Definition styleOf (f : FairnessKind) : string := match f with StrongFair => "-[bold]->" | WeakFair => "-->" end.
Definition transitionStyle (t : Transition) : string := styleOf (Fairness t).

Record group := {
  gkey : transitionGroupKey;
  triggers : list string;
  style : string
}.

(** [groups] and [index]: a transition joins the group of its key, or opens
    one at the end. *)
Fixpoint addToGroup (gs : list group) (t : Transition) : list group :=
  match gs with
  | [] => [{| gkey := groupKey t; triggers := [triggerName t]; style := transitionStyle t |}]
  | g :: gs =>
      if bool_decide (gkey g = groupKey t)
      then {| gkey := gkey g; triggers := triggers g ++ [triggerName t]; style := style g |} :: gs
      else g :: addToGroup gs t
  end.
Definition groupsOf (ts : list Transition) : list group := foldl addToGroup [] ts.

Definition groupLabel (g : group) : list string :=
  triggers g
  ++ (if bool_decide (gkGuard (gkey g) = EmptyString) then [] else ["[" +:+ gkGuard (gkey g) +:+ "]"])
  ++ (if bool_decide (gkDo (gkey g) = EmptyString) then [] else [gkDo (gkey g)])
  ++ (if bool_decide (gkFairness (gkey g) = StrongFair) then ["«SF»"] else []).

Definition groupLine (alias : string) (g : group) : string :=
  stateID alias (gkFrom (gkey g)) +:+ " " +:+ style g +:+ " " +:+ stateID alias (gkTo (gkey g)) +:+ " : "
  +:+ String.concat "\n" (groupLabel g).

Definition coalesceTransitions (ts : list Transition) (alias : string) : list string := map (groupLine alias) (groupsOf ts).

(** ** The diagram *)

(** A phase's box: its transitions and the first state; a phase-less actor's
    content; the states in no phase. *)
Record phaseBox := {
  pbTitle : string;
  pbInitial : State;
  pbTransitions : list Transition
}.

Inductive actorBody :=
  | Phased (boxes : list phaseBox) (cross : list Transition) (ungrouped : list State)
  | Flat (initial : State) (ts : list Transition).

Record actorBox := {
  abName : string;
  abAlias : string;
  abBody : actorBody
}.

Record arrow := {
  arFrom : string;
  arTo : string;
  arMsg : MsgType;
  arFields : list string
}.

Record diagram := {
  dgName : string;
  dgTitle : string;
  dgActors : list actorBox;
  dgArrows : list arrow
}.

(** [phaseOf]: a later phase overwrites; the empty name if there is none. *)
Definition phaseEntries (p : Protocol) : list (State * string) :=
  flat_map (fun ph => map (fun s => (s, phaseName ph)) (phaseStates ph)) (Phases p).
Definition phaseLookup (p : Protocol) (s : State) : option string :=
  snd <$> find (fun e => bool_decide (e.1 = s)) (rev (phaseEntries p)).
Definition phaseOf (p : Protocol) (s : State) : string := default EmptyString (phaseLookup p s).

Definition hasInteraction (p : Protocol) (name : string) : bool :=
  existsb (fun a => existsb (fun t =>
    (bool_decide (Name a = name) && (bool_decide (Kind (On t) = TriggerRecv) || negb (bool_decide (Sends t = []))))
    || existsb (fun s => bool_decide (sendTo s = name)) (Sends t)) (FlattenedTransitions a)) (Actors p).

Definition includeActor (actors : list string) (name : string) : bool :=
  match actors with [] => true | _ => bool_decide (name ∈ actors) end.

(** Whether an actor gets a box. *)
Definition drawn (p : Protocol) (actors : list string) (name : string) : bool :=
  includeActor actors name && negb (bool_decide (actors = []) && negb (hasInteraction p name)).

Definition aliases : list string := ["B"; "C"; "R"; "D"; "E"; "F"].
Definition aliasAt (i : nat) : string := nth (i mod 6) aliases EmptyString.

(** The states of a phase, its box, and what joins the boxes. *)
Definition statesInPhase (p : Protocol) (a : Actor) (ph : string) : list State :=
  List.filter (fun s => bool_decide (phaseLookup p s = Some ph)) (collectStates a).
Definition withinPhase (p : Protocol) (ph : string) (t : Transition) : bool :=
  bool_decide (phaseOf p (From t) = ph) && bool_decide (phaseOf p (To t) = ph).
Definition phaseBoxOf (p : Protocol) (a : Actor) (ph : Phase) : list phaseBox :=
  match statesInPhase p a (phaseName ph) with
  | [] => []
  | s0 :: _ as states =>
      [{| pbTitle := phaseName ph;
          pbInitial := if bool_decide (Initial a ∈ states) then Initial a else s0;
          pbTransitions := List.filter (withinPhase p (phaseName ph)) (FlattenedTransitions a) |}]
  end.
Definition crossPhase (p : Protocol) (t : Transition) : bool := negb (bool_decide (phaseOf p (From t) = phaseOf p (To t))).

Definition actorBodyOf (p : Protocol) (a : Actor) : actorBody :=
  match Phases p with
  | [] => Flat (Initial a) (FlattenedTransitions a)
  | phs => Phased (flat_map (phaseBoxOf p a) phs)
             (List.filter (crossPhase p) (FlattenedTransitions a))
             (List.filter (fun s => bool_decide (phaseLookup p s = None)) (collectStates a))
  end.

Definition actorBoxes (p : Protocol) (actors : list string) : list actorBox :=
  mjoin (imap (fun i a => if drawn p actors (Name a)
                          then [{| abName := Name a; abAlias := aliasAt i; abBody := actorBodyOf p a |}] else [])
              (Actors p)).

(** [actorAlias]: the last box of the name; the empty string without one. *)
Definition actorAlias (boxes : list actorBox) (name : string) : string :=
  default EmptyString (abAlias <$> find (fun b => bool_decide (abName b = name)) (rev boxes)).

Definition findRecvState (p : Protocol) (actorName : string) (msg : MsgType) (alias : string) : string :=
  match find (fun t => bool_decide (Kind (On t) = TriggerRecv) && bool_decide (Msg (On t) = msg))
          (flat_map FlattenedTransitions (List.filter (fun a => bool_decide (Name a = actorName)) (Actors p))) with
  | Some t => stateID alias (From t)
  | None => alias +:+ "_" +:+ "unknown"
  end.

(** The sends that get an arrow, with the actor and the transition. *)
Definition drawnSends (p : Protocol) (actors : list string) : list (Actor * Transition * MsgSend) :=
  flat_map (fun a => flat_map (fun t => map (fun s => (a, t, s))
                (List.filter (fun s => includeActor actors (sendTo s)) (Sends t))) (FlattenedTransitions a))
    (List.filter (fun a => includeActor actors (Name a)) (Actors p)).

(** [range i s]: the fields of the [i]-th drawn send in the order in which Go
    iterates over the map. *)
Definition ExportPlantUMLActors (p : Protocol) (titleSuffix : string) (actors : list string)
    (range : nat -> MsgSend -> list string) : diagram :=
  let boxes := actorBoxes p actors in
  let suffixName := ToLower (sanitisePUML titleSuffix) in
  {| dgName := if bool_decide (suffixName = EmptyString) then ToLower (sanitisePUML (pName p)) else suffixName;
     dgTitle := if bool_decide (titleSuffix = EmptyString) then pName p else pName p +:+ " — " +:+ titleSuffix;
     dgActors := boxes;
     dgArrows := imap (fun i x =>
       let '(a, t, s) := x in
       {| arFrom := stateID (actorAlias boxes (Name a)) (From t);
          arTo := findRecvState p (sendTo s) (sendMsg s) (actorAlias boxes (sendTo s));
          arMsg := sendMsg s; arFields := range i s |}) (drawnSends p actors) |}.

Definition ExportPlantUML (p : Protocol) (range : nat -> MsgSend -> list string) : diagram :=
  ExportPlantUMLActors p EmptyString [] range.

(** ** The text *)

Definition lf : string := String (Ascii.ascii_of_nat 10) EmptyString.
Definition line (indent s : string) : string := indent +:+ s +:+ lf.
Definition linesText (indent : string) (ls : list string) : string := String.concat EmptyString (map (line indent) ls).
Definition quoted (s : string) : string := dquote +:+ s +:+ dquote.

Definition bodyText (alias : string) (b : actorBody) : string :=
  match b with
  | Phased boxes cross ungrouped =>
      String.concat EmptyString (map (fun x =>
        line "  " ("state " +:+ quoted (pbTitle x) +:+ " as " +:+ stateID alias (pbTitle x) +:+ " {")
        +:+ line "    " ("[*] --> " +:+ stateID alias (pbInitial x))
        +:+ linesText "    " (coalesceTransitions (pbTransitions x) alias) +:+ line "  " "}" +:+ lf) boxes)
      +:+ linesText "  " (coalesceTransitions cross alias)
      +:+ linesText "  " (map (fun s => "state " +:+ stateID alias s) ungrouped)
  | Flat initial ts =>
      line "  " ("[*] --> " +:+ stateID alias initial) +:+ linesText "  " (coalesceTransitions ts alias)
  end.

Definition arrowText (x : arrow) : string :=
  let label := match arFields x with [] => arMsg x | fs => arMsg x +:+ "\n{" +:+ String.concat ", " fs +:+ "}" end in
  line EmptyString (arFrom x +:+ " -[#888,dashed]-> " +:+ arTo x +:+ " : " +:+ label).

Definition printDiagram (d : diagram) : string :=
  line EmptyString ("@startuml " +:+ dgName d)
  +:+ linesText EmptyString ["!theme plain"; "skinparam backgroundColor white"; "skinparam state {";
        "  BackgroundColor #f8f8f8"; "  BorderColor #888"; "}"; EmptyString]
  +:+ line EmptyString ("title " +:+ dgTitle d) +:+ lf
  +:+ String.concat EmptyString (map (fun b =>
        line EmptyString ("state " +:+ quoted (abName b) +:+ " as " +:+ abAlias b +:+ " {")
        +:+ bodyText (abAlias b) (abBody b) +:+ line EmptyString "}" +:+ lf) (dgActors d))
  +:+ line EmptyString "' === Cross-actor interactions ===" +:+ lf
  +:+ String.concat EmptyString (map arrowText (dgArrows d))
  +:+ lf +:+ line EmptyString "@enduml".

(** ** What is drawn *)

(** The keys in the order of their first transitions, and the group of a key
    as it should be. *)
Definition addKey (ks : list transitionGroupKey) (t : Transition) : list transitionGroupKey :=
  if bool_decide (groupKey t ∈ ks) then ks else ks ++ [groupKey t].
Definition keysOf (ts : list Transition) : list transitionGroupKey := foldl addKey [] ts.
Definition groupFor (ts : list Transition) (k : transitionGroupKey) : group :=
  {| gkey := k; triggers := map triggerName (List.filter (fun t => bool_decide (groupKey t = k)) ts);
     style := styleOf (gkFairness k) |}.

(** The transitions with a line in an actor's box. *)
Definition bodyTransitions (b : actorBody) : list Transition :=
  match b with Phased boxes cross _ => flat_map pbTransitions boxes ++ cross | Flat _ ts => ts end.

(** A transition between two states in no phase, of a protocol that has phases. *)
Definition outsidePhases (p : Protocol) (t : Transition) : bool :=
  negb (match Phases p with [] => true | _ => false end)
  && bool_decide (phaseLookup p (From t) = None) && bool_decide (phaseLookup p (To t) = None).

Lemma keysOf_spec ts : NoDup (keysOf ts) /\ forall k, k ∈ keysOf ts <-> exists t, t ∈ ts /\ groupKey t = k.
Proof.
  unfold keysOf. induction ts as [|t ts [IHn IHk]] using rev_ind.
  { split; [constructor |]. intros k. split; [by intros ?%elem_of_nil | by intros (t & ?%elem_of_nil & _)]. }
  rewrite foldl_snoc. unfold addKey at 1 3. set (ks := foldl addKey [] ts) in *. split.
  - case_bool_decide as Hk; [done |]. apply NoDup_app. split_and!; [done | | apply NoDup_singleton].
    intros x Hx. rewrite list_elem_of_singleton. by intros ->.
  - intros k. setoid_rewrite elem_of_app. setoid_rewrite list_elem_of_singleton. case_bool_decide as Hk.
    + rewrite IHk. split; [intros (t' & ? & ?); eauto |]. intros (t' & [Ht| ->] & <-); [eauto | by apply IHk].
    + rewrite elem_of_app, list_elem_of_singleton, IHk. split.
      * intros [(t' & ? & ?)| ->]; eauto.
      * intros (t' & [Ht| ->] & <-); eauto.
Qed.

Lemma groupFor_snoc ts t k :
  groupFor (ts ++ [t]) k =
    if bool_decide (k = groupKey t)
    then {| gkey := k; triggers := triggers (groupFor ts k) ++ [triggerName t]; style := style (groupFor ts k) |}
    else groupFor ts k.
Proof.
  unfold groupFor. rewrite List.filter_app, map_app. cbn. repeat case_bool_decide; subst; try done. by rewrite app_nil_r.
Qed.

Lemma addToGroup_map ts t ks :
  NoDup ks -> (groupKey t ∈ ks \/ forall t', t' ∈ ts -> groupKey t' <> groupKey t) ->
  addToGroup (map (groupFor ts) ks) t = map (groupFor (ts ++ [t])) (addKey ks t).
Proof.
  intros Hn. unfold addKey. induction Hn as [|k ks Hk Hn IH]; intros Hin; cbn [map addToGroup].
  - rewrite bool_decide_false by apply not_elem_of_nil. cbn. rewrite groupFor_snoc, bool_decide_true by done.
    destruct Hin as [?%elem_of_nil|Hf]; [done |]. unfold groupFor. cbn.
    assert (List.filter (fun t' => bool_decide (groupKey t' = groupKey t)) ts = []) as ->; [| done].
    induction ts as [|t' ts IHt]; [done |]. cbn. rewrite bool_decide_false by (apply Hf; left).
    apply IHt. intros x Hx. apply Hf. by right.
  - change (gkey (groupFor ts k)) with k. destruct (bool_decide_reflect (k = groupKey t)) as [He|He].
    + subst k. rewrite bool_decide_true by left. cbn [map]. rewrite groupFor_snoc, bool_decide_true by done. f_equal.
      apply map_ext_in. intros k Hi. apply list_elem_of_In in Hi. rewrite groupFor_snoc, bool_decide_false; congruence.
    + rewrite IH by (destruct Hin as [[Hx|Hx]%elem_of_cons|]; [congruence | by left | by right]).
      assert (bool_decide (groupKey t ∈ k :: ks) = bool_decide (groupKey t ∈ ks)) as ->.
      { apply bool_decide_ext. rewrite elem_of_cons. split; [by intros [?|?]; congruence | by right]. }
      case_bool_decide; cbn [map app]; rewrite groupFor_snoc, bool_decide_false by done; done.
Qed.

(** Coalescing groups the transitions by their key, in the order of the first
    transition of each key, every group with the triggers of its transitions
    in their order: the index keeps the groups apart. *)
Theorem coalescing_groups_by_key ts :
  groupsOf ts = map (groupFor ts) (keysOf ts) /\ NoDup (keysOf ts) /\
  forall k, k ∈ keysOf ts <-> exists t, t ∈ ts /\ groupKey t = k.
Proof.
  split; [| apply keysOf_spec]. unfold groupsOf. induction ts as [|t ts IH] using rev_ind; [done |].
  unfold keysOf. rewrite !foldl_snoc, IH. destruct (keysOf_spec ts) as [Hn Hk]. apply addToGroup_map; [done |].
  destruct (decide (groupKey t ∈ keysOf ts)) as [|Hni]; [by left | right].
  intros t' Ht' He. apply Hni. apply Hk. eauto.
Qed.

(** ** Phases *)

Lemma phaseLookup_name p s ph : phaseLookup p s = Some ph -> ph ∈ map phaseName (Phases p).
Proof.
  unfold phaseLookup. destruct (find _ _) as [[s' n]|] eqn:Hf; [| done]. intros [= <-].
  apply find_some in Hf as [Hin _]. apply in_rev, in_flat_map in Hin as (x & Hx & Hi).
  apply in_map_iff in Hi as (s0 & [= _ <-] & _). apply list_elem_of_In. by apply in_map.
Qed.

Section Phases.
Context (p : Protocol) (a : Actor).
Context (Hnames : NoDup (map phaseName (Phases p))) (Hempty : EmptyString ∉ map phaseName (Phases p)).

Lemma phaseOf_some s ph : ph <> EmptyString -> phaseOf p s = ph -> phaseLookup p s = Some ph.
Proof. unfold phaseOf. destruct (phaseLookup p s); simpl; congruence. Qed.

(** A box left out would have been empty. *)
Lemma phaseBox_transitions ph : ph ∈ Phases p ->
  flat_map pbTransitions (phaseBoxOf p a ph) = List.filter (withinPhase p (phaseName ph)) (FlattenedTransitions a).
Proof.
  intros Hph. unfold phaseBoxOf. destruct (statesInPhase p a (phaseName ph)) eqn:Hs; cbn; [| by rewrite app_nil_r].
  destruct (List.filter _ _) as [|t ts] eqn:Hf; [done |]. exfalso.
  assert (Ht : t ∈ t :: ts) by left. rewrite <-Hf in Ht. apply list_elem_of_In, List.filter_In in Ht as [Hin Hw].
  apply andb_true_iff in Hw as [Hw _]. apply bool_decide_eq_true in Hw.
  assert (Hne : phaseName ph <> EmptyString).
  { intros He. apply Hempty. rewrite <-He. apply list_elem_of_In, in_map. by apply list_elem_of_In. }
  assert (Hx : From t ∈ statesInPhase p a (phaseName ph)).
  { apply list_elem_of_In, List.filter_In. split; [| by apply bool_decide_eq_true, phaseOf_some].
    apply list_elem_of_In, collectStates_spec. right. exists t. split; [by apply list_elem_of_In | by left]. }
  rewrite Hs in Hx. by apply elem_of_nil in Hx.
Qed.

Lemma boxes_transitions phs : (forall ph, ph ∈ phs -> ph ∈ Phases p) ->
  flat_map pbTransitions (flat_map (phaseBoxOf p a) phs)
  = flat_map (fun ph => List.filter (withinPhase p (phaseName ph)) (FlattenedTransitions a)) phs.
Proof.
  induction phs as [|ph phs IH]; intros Hin; [done |]. cbn [flat_map].
  rewrite flat_map_app, phaseBox_transitions by (apply Hin; left). by rewrite IH by (intros; apply Hin; by right).
Qed.

(** How often a transition is drawn in the boxes: once if it stays in a phase. *)
Lemma within_once t phs :
  NoDup (map phaseName phs) ->
  flat_map (fun ph => if withinPhase p (phaseName ph) t then [t] else []) phs =
    if bool_decide (phaseOf p (From t) = phaseOf p (To t)) && bool_decide (phaseOf p (From t) ∈ map phaseName phs)
    then [t] else [].
Proof.
  intros Hn. unfold withinPhase. induction phs as [|ph phs IH]; [by rewrite andb_false_r |].
  cbn [map flat_map] in *. apply NoDup_cons in Hn as [Hp Hn]. rewrite (IH Hn).
  destruct (decide (phaseOf p (From t) = phaseOf p (To t))) as [He|He]; rewrite ?(bool_decide_true _ He), ?(bool_decide_false _ He).
  - rewrite <-He, andb_diag. cbn. destruct (decide (phaseOf p (From t) = phaseName ph)) as [Hx|Hx].
    + rewrite (bool_decide_true (phaseOf p (From t) = phaseName ph)) by done. rewrite (bool_decide_false (_ ∈ map _ _)) by congruence.
      by rewrite bool_decide_true by (rewrite elem_of_cons; by left).
    + rewrite (bool_decide_false (phaseOf p (From t) = phaseName ph)) by done. cbn.
      erewrite (bool_decide_ext (_ ∈ _ :: _)); [done |]. rewrite elem_of_cons. naive_solver.
  - cbn. by destruct (decide (phaseOf p (From t) = phaseName ph)) as [Hx|Hx];
      rewrite ?(bool_decide_true _ Hx), ?(bool_decide_false _ Hx); cbn; rewrite ?bool_decide_false by congruence.
Qed.

Lemma boxes_cons t ts phs :
  flat_map (fun ph => List.filter (withinPhase p (phaseName ph)) (t :: ts)) phs ≡ₚ
    flat_map (fun ph => if withinPhase p (phaseName ph) t then [t] else []) phs
    ++ flat_map (fun ph => List.filter (withinPhase p (phaseName ph)) ts) phs.
Proof.
  induction phs as [|ph phs IH]; [done |]. cbn [flat_map List.filter]. rewrite IH.
  rewrite <-app_assoc. destruct (withinPhase p (phaseName ph) t); cbn [app]; [apply perm_skip |]; apply Permutation_app_swap_app.
Qed.

Lemma phased_transitions ts : Phases p <> [] ->
  flat_map (fun ph => List.filter (withinPhase p (phaseName ph)) ts) (Phases p) ++ List.filter (crossPhase p) ts
  ≡ₚ List.filter (fun t => negb (outsidePhases p t)) ts.
Proof.
  intros Hne. induction ts as [|t ts IH].
  { cbn [List.filter]. rewrite app_nil_r. clear. by induction (Phases p) as [|ph phs IH]. }
  rewrite boxes_cons, (within_once t _ Hnames). cbn [List.filter]. unfold crossPhase at 1, outsidePhases at 1.
  destruct (Phases p) as [|ph0 phs0] eqn:Hp; [done |]. cbn [negb andb]. rewrite <-Hp in *.
  assert (Hin : forall s, phaseOf p s ∈ map phaseName (Phases p) <-> phaseLookup p s <> None).
  { intros s. unfold phaseOf. destruct (phaseLookup p s) as [n|] eqn:Hl; cbn; [| by split].
    split; [done |]. intros _. by eapply phaseLookup_name. }
  assert (Hout : forall s, phaseOf p s ∉ map phaseName (Phases p) -> phaseLookup p s = None).
  { intros s Hs. destruct (decide (phaseLookup p s = None)) as [|Hl]; [done |]. by apply Hin in Hl. }
  destruct (bool_decide_reflect (phaseOf p (From t) = phaseOf p (To t))) as [He|He]; cbn [negb andb].
  - destruct (bool_decide_reflect (phaseOf p (From t) ∈ map phaseName (Phases p))) as [Hi|Hi].
    + rewrite (bool_decide_false (phaseLookup p (From t) = None)) by (by apply Hin). cbn. by rewrite IH.
    + rewrite (bool_decide_true (phaseLookup p (From t) = None)) by auto. rewrite He in Hi.
      rewrite (bool_decide_true (phaseLookup p (To t) = None)) by auto.
      exact IH.
  - assert (bool_decide (phaseLookup p (From t) = None) && bool_decide (phaseLookup p (To t) = None) = false) as ->.
    { apply andb_false_iff. destruct (phaseLookup p (From t)) eqn:H1; [by left |]. right.
      destruct (phaseLookup p (To t)) eqn:H2; [done |]. exfalso. apply He. unfold phaseOf. by rewrite H1, H2. }
    cbn. rewrite <-Permutation_middle. by rewrite IH.
Qed.
End Phases.

Lemma actorBoxes_elem p actors b : b ∈ actorBoxes p actors ->
  exists i a, Actors p !! i = Some a /\ drawn p actors (Name a) = true /\
    b = {| abName := Name a; abAlias := aliasAt i; abBody := actorBodyOf p a |}.
Proof.
  unfold actorBoxes. intros Hb. apply list_elem_of_join in Hb as (l & Hbl & Hl).
  apply elem_of_lookup_imap in Hl as (i & a & -> & Ha). exists i, a.
  destruct (drawn p actors (Name a)) eqn:Hd; [| by apply elem_of_nil in Hbl]. by apply list_elem_of_singleton in Hbl.
Qed.

Lemma actorBody_transitions p a :
  NoDup (map phaseName (Phases p)) -> EmptyString ∉ map phaseName (Phases p) ->
  bodyTransitions (actorBodyOf p a) ≡ₚ List.filter (fun t => negb (outsidePhases p t)) (FlattenedTransitions a).
Proof.
  intros Hn He. destruct (decide (Phases p = [])) as [Hp|Hp].
  - unfold actorBodyOf, outsidePhases. rewrite Hp. cbn. induction (FlattenedTransitions a) as [|t ts IH]; [done |].
    cbn. by apply perm_skip.
  - rewrite <-phased_transitions by done. unfold actorBodyOf. destruct (Phases p) as [|ph0 phs0] eqn:Hps; [done |].
    cbn [bodyTransitions]. rewrite <-Hps in *. by rewrite boxes_transitions.
Qed.

(** Every box of a diagram belongs to an actor asked for, and its lines
    are those of the actor's transitions, each drawn once: all of them without
    phases, and with phases all but those between two states that are in no
    phase, which are left out. *)
Theorem diagram_draws_transitions (p : Protocol) (suffix : string) (actors : list string)
    (range : nat -> MsgSend -> list string) (b : actorBox) :
  NoDup (map phaseName (Phases p)) -> EmptyString ∉ map phaseName (Phases p) ->
  b ∈ dgActors (ExportPlantUMLActors p suffix actors range) ->
  exists a, a ∈ Actors p /\ Name a = abName b /\ (actors = [] \/ Name a ∈ actors) /\
    bodyTransitions (abBody b) ≡ₚ List.filter (fun t => negb (outsidePhases p t)) (FlattenedTransitions a).
Proof.
  intros Hn He Hb. apply actorBoxes_elem in Hb as (i & a & Ha & Hd & ->). exists a. cbn [abName abBody].
  apply andb_true_iff in Hd as [Hi _]. split_and!; [by eapply list_elem_of_lookup_2 | done | | by apply actorBody_transitions].
  unfold includeActor in Hi. destruct actors; [by left | right]. by apply bool_decide_eq_true in Hi.
Qed.

Definition onEvent (from to ev : string) : Transition :=
  {| From := from; To := to; On := Internal ev; Guard := EmptyString; Do := EmptyString; Fairness := WeakFair;
     Sends := []; Updates := []; Emits := [] |}.

(** A protocol with a phase of two states and two states outside. *)
Definition phasedActor : Actor :=
  {| Name := "door"; Initial := "Closed";
     Transitions := [onEvent "Closed" "Open" "push"; onEvent "Open" "Broken" "kick"; onEvent "Broken" "Gone" "remove"];
     StateIndex := []; Roots := []; Machines := []; Routes := [] |}.
Definition phasedProtocol : Protocol :=
  {| pName := "Door"; Actors := [phasedActor]; Messages := []; Events := []; Commands := []; Structs := []; Vars := [];
     Guards := []; Operators := []; AdvActions := []; AdvGuard := EmptyString;
     Phases := [{| phaseName := "Use"; phaseStates := ["Closed"; "Open"]; phaseVars := []; phaseAdversary := false |}];
     WireConsts := []; Constants := []; Properties := []; ChannelBound := 0; OneShot := false |}.

Lemma diagram_draws_transitions_witness :
  map (fun b => map To (bodyTransitions (abBody b)))
    (dgActors (ExportPlantUMLActors phasedProtocol EmptyString ["door"] (fun _ s => map fst (sendFields s)))) = [["Open"; "Broken"]] /\
  [onEvent "Closed" "Open" "push"; onEvent "Open" "Broken" "kick"]
  ≡ₚ List.filter (fun t => negb (outsidePhases phasedProtocol t)) (FlattenedTransitions phasedActor).
Proof.
  split; [vm_compute; reflexivity |].
  destruct (diagram_draws_transitions phasedProtocol EmptyString ["door"] (fun _ s => map fst (sendFields s))
    {| abName := "door"; abAlias := "B"; abBody := actorBodyOf phasedProtocol phasedActor |}) as (a & Ha & _ & _ & Hp).
  - apply NoDup_singleton.
  - change (EmptyString ∉ ["Use"]). by rewrite list_elem_of_singleton.
  - left.
  - apply list_elem_of_singleton in Ha. subst a. exact Hp.
Defined.
