(* ===== verification/PathSwitchGen.v ===== *)
(** * PathSwitchGen: the path-switching protocol and its generated machines

    The document protocol/pathswitch.yaml as the YAML package decodes it, and
    what the generator wrote for it, protocol/pathswitch_gen.go: the table, the
    constants and the three typed machines, case by case, with the constants
    by their values. *)

From Stdlib Require Import ZArith Strings.String.
From stdpp Require Import base gmap strings list.
From S2P Require Import Prelude Machine GoGen Yaml.

(** ** The document (protocol/pathswitch.yaml) *)

Definition pathswitchDoc_actors : section (result yamlActor) :=
  Mapping [
    ("backend", Ok {| yaInitial := "RelayConnected";
      yaStates := Absent;
      yaTransitions := [
        ytr "RelayConnected" "LANOffered" "lan_server_ready" EmptyString EmptyString EmptyString [ysend "client"
            "lan_offer" [("addr", "lan_addr"); ("cert_hash", "cert_hash_bytes"); ("challenge",
            "challenge_bytes")]] Absent [];
        ytr "LANOffered" "LANActive" "recv lan_verify" "challenge_valid" "activate_lan" EmptyString [ysend
            "client" "lan_confirm" []] (Mapping [("ping_failures", "0"); ("backoff_level", "0"); ("active_path",
            q "'lan'"); ("monitor_target", q "'lan'"); ("dispatcher_path", q "'lan'"); ("lan_signal", q
            "'ready'")]) [];
        ytr "LANOffered" "RelayConnected" "recv lan_verify" "challenge_invalid" EmptyString EmptyString []
            Absent [];
        ytr "LANOffered" "RelayBackoff" "offer_timeout" EmptyString EmptyString EmptyString [] (Mapping
            [("backoff_level", "Min(backoff_level + 1, max_backoff_level)")]) [];
        ytr "LANActive" "LANActive" "ping_tick" EmptyString EmptyString EmptyString [ysend "client" "path_ping"
            []] Absent [];
        ytr "LANActive" "LANDegraded" "ping_timeout" EmptyString EmptyString EmptyString [] (Mapping
            [("ping_failures", "1")]) [];
        ytr "LANDegraded" "LANDegraded" "ping_tick" EmptyString EmptyString EmptyString [ysend "client"
            "path_ping" []] Absent [];
        ytr "LANDegraded" "LANActive" "recv path_pong" EmptyString "reset_failures" EmptyString [] (Mapping
            [("ping_failures", "0")]) [];
        ytr "LANDegraded" "LANDegraded" "ping_timeout" "under_max_failures" EmptyString EmptyString [] (Mapping
            [("ping_failures", "ping_failures + 1")]) [];
        ytr "LANDegraded" "RelayBackoff" "ping_timeout" "at_max_failures" "fallback_to_relay" EmptyString []
            (Mapping [("backoff_level", "Min(backoff_level + 1, max_backoff_level)"); ("active_path", q
            "'relay'"); ("monitor_target", q "'none'"); ("dispatcher_path", q "'relay'"); ("lan_signal", q
            "'pending'"); ("ping_failures", "0")]) [];
        ytr "RelayBackoff" "LANOffered" "backoff_expired" EmptyString EmptyString EmptyString [ysend "client"
            "lan_offer" [("addr", "lan_addr"); ("cert_hash", "cert_hash_bytes"); ("challenge",
            "challenge_bytes")]] Absent [];
        ytr "RelayBackoff" "LANOffered" "lan_server_changed" EmptyString EmptyString EmptyString [ysend "client"
            "lan_offer" [("addr", "lan_addr"); ("cert_hash", "cert_hash_bytes"); ("challenge",
            "challenge_bytes")]] (Mapping [("backoff_level", "0")]) [];
        ytr "RelayConnected" "LANOffered" "readvertise_tick" "lan_server_available" EmptyString EmptyString
            [ysend "client" "lan_offer" [("addr", "lan_addr"); ("cert_hash", "cert_hash_bytes"); ("challenge",
            "challenge_bytes")]] Absent []];
      yaMachines := Absent; yaRoutes := [] |});
    ("client", Ok {| yaInitial := "RelayConnected";
      yaStates := Absent;
      yaTransitions := [
        ytr "RelayConnected" "LANConnecting" "recv lan_offer" "lan_enabled" "dial_lan" EmptyString [] Absent [];
        ytr "RelayConnected" "RelayConnected" "recv lan_offer" "lan_disabled" EmptyString EmptyString [] Absent
            [];
        ytr "LANConnecting" "LANVerifying" "lan_dial_ok" EmptyString EmptyString EmptyString [ysend "backend"
            "lan_verify" [("challenge", "offer_challenge"); ("instance_id", "instance_id")]] Absent [];
        ytr "LANConnecting" "RelayConnected" "lan_dial_failed" EmptyString EmptyString EmptyString [] Absent [];
        ytr "LANVerifying" "LANActive" "recv lan_confirm" EmptyString "activate_lan" EmptyString [] (Mapping
            [("active_path", q "'lan'"); ("dispatcher_path", q "'lan'"); ("lan_signal", q "'ready'")]) [];
        ytr "LANVerifying" "RelayConnected" "verify_timeout" EmptyString EmptyString EmptyString [] (Mapping
            [("dispatcher_path", q "'relay'")]) [];
        ytr "LANActive" "LANActive" "recv path_ping" EmptyString EmptyString EmptyString [ysend "backend"
            "path_pong" []] Absent [];
        ytr "LANActive" "RelayFallback" "lan_error" EmptyString "fallback_to_relay" EmptyString [] (Mapping
            [("active_path", q "'relay'"); ("dispatcher_path", q "'relay'"); ("lan_signal", q "'pending'")]) [];
        ytr "RelayFallback" "RelayConnected" "relay_ok" EmptyString EmptyString EmptyString [] Absent [];
        ytr "LANActive" "LANConnecting" "recv lan_offer" "lan_enabled" "dial_lan" EmptyString [] Absent []];
      yaMachines := Absent; yaRoutes := [] |});
    ("relay", Ok {| yaInitial := "Idle";
      yaStates := Absent;
      yaTransitions := [
        ytr "Idle" "BackendRegistered" "backend_register" EmptyString EmptyString EmptyString [] Absent [];
        ytr "BackendRegistered" "Bridged" "client_connect" EmptyString "bridge_streams" EmptyString [] (Mapping
            [("relay_bridge", q "'active'")]) [];
        ytr "Bridged" "BackendRegistered" "client_disconnect" EmptyString "unbridge" EmptyString [] (Mapping
            [("relay_bridge", q "'idle'")]) [];
        ytr "Bridged" "Bridged" "recv relay_resume" EmptyString "rebridge_streams" EmptyString [ysend "client"
            "relay_resumed" []] Absent [];
        ytr "BackendRegistered" "Idle" "backend_disconnect" EmptyString EmptyString EmptyString [] Absent []];
      yaMachines := Absent; yaRoutes := [] |})].

Definition pathswitchDoc : yamlProtocol :=
  {| yName := "PathSwitch";
     yMessages := Mapping [
       ("lan_offer", Ok (ymsg "backend" "client" "LAN address + challenge + cert hash (sent via relay)"));
       ("lan_verify", Ok (ymsg "client" "backend" "challenge response + instance ID (sent via LAN)"));
       ("lan_confirm", Ok (ymsg "backend" "client" "LAN verified, path is live (sent via LAN)"));
       ("path_ping", Ok (ymsg "backend" "client" "health check on active direct path"));
       ("path_pong", Ok (ymsg "client" "backend" "health check response"));
       ("relay_resume", Ok (ymsg "client" "relay" "client reconnects relay stream after direct path failure"));
       ("relay_resumed", Ok (ymsg "relay" "client" "relay confirms stream is re-bridged"))];
     yEvents := Absent;
     yCommands := Absent;
     yActors := pathswitchDoc_actors;
     yStructs := Absent;
     yVars := Mapping [
       ("lan_addr", Ok (yvar (q "'none'") EmptyString "LAN server address (host:port)"));
       ("challenge_bytes", Ok (yvar (q "'none'") EmptyString "32-byte random challenge for LAN verification"));
       ("cert_hash_bytes", Ok (yvar (q "'none'") EmptyString
           "SHA-256 of DER cert for browser serverCertificateHashes"));
       ("offer_challenge", Ok (yvar (q "'none'") EmptyString "challenge from the most recent LAN offer"));
       ("instance_id", Ok (yvar (q "'none'") EmptyString "relay instance ID of this peer"));
       ("ping_failures", Ok (yvar "0" "int" "consecutive failed pings on the direct path"));
       ("max_ping_failures", Ok (yvar "3" "int" "threshold before fallback"));
       ("backoff_level", Ok (yvar "0" "int" "current exponential backoff level (0 = no backoff)"));
       ("max_backoff_level", Ok (yvar "5" "int" "cap on backoff level (2^5 * base = 32x base interval)"));
       ("active_path", Ok (yvar (q "'relay'") EmptyString (q
           "'relay' or 'lan' — which path carries application traffic")));
       ("dispatcher_path", Ok (yvar (q "'relay'") EmptyString (q
           "which path the datagram dispatcher reads from ('relay', 'lan', 'none')")));
       ("monitor_target", Ok (yvar (q "'none'") EmptyString (q
           "which path the health monitor pings ('lan', 'none')")));
       ("lan_signal", Ok (yvar (q "'pending'") EmptyString (q
           "LANReady notification state ('pending' = not yet, 'ready' = closed/signalled)")));
       ("relay_bridge", Ok (yvar (q "'idle'") EmptyString (q
           "relay bridge state ('active' = bridging, 'idle' = backend registered but no client)")));
       ("lan_server_addr", Ok (yvar (q "'none'") EmptyString "LAN server listen address (backend only)"))];
     yGuards := Mapping [
       ("challenge_valid", "offer_challenge = challenge_bytes");
       ("challenge_invalid", "offer_challenge /= challenge_bytes");
       ("lan_enabled", "TRUE");
       ("lan_disabled", "FALSE");
       ("lan_server_available", q "lan_server_addr /= 'none'");
       ("under_max_failures", "ping_failures + 1 < max_ping_failures");
       ("at_max_failures", "ping_failures + 1 >= max_ping_failures")];
     yOperators := Absent;
     yPhases := Absent;
     yWireConsts := [];
     yConstants := [];
     yAdvGuard := EmptyString;
     yAdversary := [];
     yProperties := [
       yprop "RelayAlwaysAvailable" "invariant" "relay_state \in {relay_BackendRegistered, relay_Bridged}"
           EmptyString EmptyString "The relay registration is never lost while the session is active";
       yprop "PathConsistency" "invariant" (q "active_path \in {'relay', 'lan'}") EmptyString EmptyString
           "Traffic flows through exactly one valid path";
       yprop "LANRequiresVerification" "invariant"
           "(backend_state = backend_LANActive /\ client_state = client_LANActive) => challenge_bytes = offer_challenge"
           EmptyString EmptyString "LAN path is only active after successful challenge verification";
       yprop "BackoffBounded" "invariant" "backoff_level <= max_backoff_level" EmptyString EmptyString
           "Backoff level never exceeds the cap";
       yprop "BackoffResetsOnSuccess" "invariant" "backend_state = backend_LANActive => backoff_level = 0"
           EmptyString EmptyString "Successful LAN establishment resets the backoff level";
       yprop "DispatcherAlwaysBound" "invariant" (q "dispatcher_path \in {'relay', 'lan'}") EmptyString
           EmptyString "The datagram dispatcher is always reading from a valid path";
       yprop "DispatcherMatchesActivePath" "invariant" (q
           "(backend_state = backend_LANActive \/ client_state = client_LANActive) => dispatcher_path = 'lan'")
           EmptyString EmptyString "When LAN is active, the dispatcher reads from LAN";
       yprop "DispatcherRelayOnFallback" "invariant" (q
           "(backend_state = backend_RelayBackoff \/ client_state = client_RelayFallback) => dispatcher_path = 'relay'")
           EmptyString EmptyString "After fallback, the dispatcher reads from relay";
       yprop "MonitorOnlyWhenLANActive" "invariant" (q
           "monitor_target = 'lan' => backend_state \in {backend_LANActive, backend_LANDegraded}") EmptyString
           EmptyString "Health monitor only pings when LAN is active or degraded";
       yprop "MonitorOffOnFallback" "invariant" (q
           "backend_state = backend_RelayBackoff => monitor_target = 'none'") EmptyString EmptyString
           "Health monitor stops on fallback";
       yprop "LANSignalReady" "invariant" (q
           "(backend_state = backend_LANActive /\ lan_signal = 'ready') => active_path = 'lan'") EmptyString
           EmptyString (q "LANReady signal is only 'ready' when LAN is the active path");
       yprop "LANSignalPendingOnFallback" "invariant" (q
           "backend_state = backend_RelayBackoff => lan_signal = 'pending'") EmptyString EmptyString
           "LANReady resets to pending on fallback"];
     yChannelBound := 3;
     yOneShot := false |}.

(** ** The table ([PathSwitch()], protocol/pathswitch_gen.go) *)

Definition PathSwitch_backend : Actor :=
  {| Name := "backend"; Initial := "RelayConnected";
     Transitions := [
       gtr "RelayConnected" "LANOffered" (Internal "lan_server_ready") EmptyString EmptyString [gsend "client"
           "lan_offer" [("addr", "lan_addr"); ("cert_hash", "cert_hash_bytes"); ("challenge",
           "challenge_bytes")]] [];
       gtr "LANOffered" "LANActive" (Recv "lan_verify") "challenge_valid" "activate_lan" [gsend "client"
           "lan_confirm" []] [("ping_failures", "0"); ("backoff_level", "0"); ("active_path", q "'lan'");
           ("monitor_target", q "'lan'"); ("dispatcher_path", q "'lan'"); ("lan_signal", q "'ready'")];
       gtr "LANOffered" "RelayConnected" (Recv "lan_verify") "challenge_invalid" EmptyString [] [];
       gtr "LANOffered" "RelayBackoff" (Internal "offer_timeout") EmptyString EmptyString [] [("backoff_level",
           "Min(backoff_level + 1, max_backoff_level)")];
       gtr "LANActive" "LANActive" (Internal "ping_tick") EmptyString EmptyString [gsend "client" "path_ping"
           []] [];
       gtr "LANActive" "LANDegraded" (Internal "ping_timeout") EmptyString EmptyString [] [("ping_failures",
           "1")];
       gtr "LANDegraded" "LANDegraded" (Internal "ping_tick") EmptyString EmptyString [gsend "client"
           "path_ping" []] [];
       gtr "LANDegraded" "LANActive" (Recv "path_pong") EmptyString "reset_failures" [] [("ping_failures",
           "0")];
       gtr "LANDegraded" "LANDegraded" (Internal "ping_timeout") "under_max_failures" EmptyString []
           [("ping_failures", "ping_failures + 1")];
       gtr "LANDegraded" "RelayBackoff" (Internal "ping_timeout") "at_max_failures" "fallback_to_relay" []
           [("backoff_level", "Min(backoff_level + 1, max_backoff_level)"); ("active_path", q "'relay'");
           ("monitor_target", q "'none'"); ("dispatcher_path", q "'relay'"); ("lan_signal", q "'pending'");
           ("ping_failures", "0")];
       gtr "RelayBackoff" "LANOffered" (Internal "backoff_expired") EmptyString EmptyString [gsend "client"
           "lan_offer" [("addr", "lan_addr"); ("cert_hash", "cert_hash_bytes"); ("challenge",
           "challenge_bytes")]] [];
       gtr "RelayBackoff" "LANOffered" (Internal "lan_server_changed") EmptyString EmptyString [gsend "client"
           "lan_offer" [("addr", "lan_addr"); ("cert_hash", "cert_hash_bytes"); ("challenge",
           "challenge_bytes")]] [("backoff_level", "0")];
       gtr "RelayConnected" "LANOffered" (Internal "readvertise_tick") "lan_server_available" EmptyString [gsend
           "client" "lan_offer" [("addr", "lan_addr"); ("cert_hash", "cert_hash_bytes"); ("challenge",
           "challenge_bytes")]] []];
     StateIndex := []; Roots := []; Machines := []; Routes := [] |}.

Definition PathSwitch_client : Actor :=
  {| Name := "client"; Initial := "RelayConnected";
     Transitions := [
       gtr "RelayConnected" "LANConnecting" (Recv "lan_offer") "lan_enabled" "dial_lan" [] [];
       gtr "RelayConnected" "RelayConnected" (Recv "lan_offer") "lan_disabled" EmptyString [] [];
       gtr "LANConnecting" "LANVerifying" (Internal "lan_dial_ok") EmptyString EmptyString [gsend "backend"
           "lan_verify" [("challenge", "offer_challenge"); ("instance_id", "instance_id")]] [];
       gtr "LANConnecting" "RelayConnected" (Internal "lan_dial_failed") EmptyString EmptyString [] [];
       gtr "LANVerifying" "LANActive" (Recv "lan_confirm") EmptyString "activate_lan" [] [("active_path", q
           "'lan'"); ("dispatcher_path", q "'lan'"); ("lan_signal", q "'ready'")];
       gtr "LANVerifying" "RelayConnected" (Internal "verify_timeout") EmptyString EmptyString []
           [("dispatcher_path", q "'relay'")];
       gtr "LANActive" "LANActive" (Recv "path_ping") EmptyString EmptyString [gsend "backend" "path_pong" []]
           [];
       gtr "LANActive" "RelayFallback" (Internal "lan_error") EmptyString "fallback_to_relay" []
           [("active_path", q "'relay'"); ("dispatcher_path", q "'relay'"); ("lan_signal", q "'pending'")];
       gtr "RelayFallback" "RelayConnected" (Internal "relay_ok") EmptyString EmptyString [] [];
       gtr "LANActive" "LANConnecting" (Recv "lan_offer") "lan_enabled" "dial_lan" [] []];
     StateIndex := []; Roots := []; Machines := []; Routes := [] |}.

Definition PathSwitch_relay : Actor :=
  {| Name := "relay"; Initial := "Idle";
     Transitions := [
       gtr "Idle" "BackendRegistered" (Internal "backend_register") EmptyString EmptyString [] [];
       gtr "BackendRegistered" "Bridged" (Internal "client_connect") EmptyString "bridge_streams" []
           [("relay_bridge", q "'active'")];
       gtr "Bridged" "BackendRegistered" (Internal "client_disconnect") EmptyString "unbridge" []
           [("relay_bridge", q "'idle'")];
       gtr "Bridged" "Bridged" (Recv "relay_resume") EmptyString "rebridge_streams" [gsend "client"
           "relay_resumed" []] [];
       gtr "BackendRegistered" "Idle" (Internal "backend_disconnect") EmptyString EmptyString [] []];
     StateIndex := []; Roots := []; Machines := []; Routes := [] |}.

Definition PathSwitch : Protocol :=
  {| pName := "PathSwitch";
     Actors := [PathSwitch_backend; PathSwitch_client; PathSwitch_relay];
     Messages := [
       gmsg "lan_offer" "backend" "client" "LAN address + challenge + cert hash (sent via relay)";
       gmsg "lan_verify" "client" "backend" "challenge response + instance ID (sent via LAN)";
       gmsg "lan_confirm" "backend" "client" "LAN verified, path is live (sent via LAN)";
       gmsg "path_ping" "backend" "client" "health check on active direct path";
       gmsg "path_pong" "client" "backend" "health check response";
       gmsg "relay_resume" "client" "relay" "client reconnects relay stream after direct path failure";
       gmsg "relay_resumed" "relay" "client" "relay confirms stream is re-bridged"];
     Events := []; Commands := []; Structs := [];
     Vars := [
       gvar "lan_addr" (q "'none'") "LAN server address (host:port)";
       gvar "challenge_bytes" (q "'none'") "32-byte random challenge for LAN verification";
       gvar "cert_hash_bytes" (q "'none'") "SHA-256 of DER cert for browser serverCertificateHashes";
       gvar "offer_challenge" (q "'none'") "challenge from the most recent LAN offer";
       gvar "instance_id" (q "'none'") "relay instance ID of this peer";
       gvar "ping_failures" "0" "consecutive failed pings on the direct path";
       gvar "max_ping_failures" "3" "threshold before fallback";
       gvar "backoff_level" "0" "current exponential backoff level (0 = no backoff)";
       gvar "max_backoff_level" "5" "cap on backoff level (2^5 * base = 32x base interval)";
       gvar "active_path" (q "'relay'") (q "'relay' or 'lan' — which path carries application traffic");
       gvar "dispatcher_path" (q "'relay'") (q
           "which path the datagram dispatcher reads from ('relay', 'lan', 'none')");
       gvar "monitor_target" (q "'none'") (q "which path the health monitor pings ('lan', 'none')");
       gvar "lan_signal" (q "'pending'") (q
           "LANReady notification state ('pending' = not yet, 'ready' = closed/signalled)");
       gvar "relay_bridge" (q "'idle'") (q
           "relay bridge state ('active' = bridging, 'idle' = backend registered but no client)");
       gvar "lan_server_addr" (q "'none'") "LAN server listen address (backend only)"];
     Guards := [
       gguard "challenge_valid" "offer_challenge = challenge_bytes";
       gguard "challenge_invalid" "offer_challenge /= challenge_bytes";
       gguard "lan_enabled" "TRUE";
       gguard "lan_disabled" "FALSE";
       gguard "lan_server_available" (q "lan_server_addr /= 'none'");
       gguard "under_max_failures" "ping_failures + 1 < max_ping_failures";
       gguard "at_max_failures" "ping_failures + 1 >= max_ping_failures"];
     Operators := [];
     AdvActions := [];
     AdvGuard := EmptyString; Phases := []; WireConsts := []; Constants := [];
     Properties := [
       gprop "RelayAlwaysAvailable" Invariant "relay_state \in {relay_BackendRegistered, relay_Bridged}"
           "The relay registration is never lost while the session is active";
       gprop "PathConsistency" Invariant (q "active_path \in {'relay', 'lan'}")
           "Traffic flows through exactly one valid path";
       gprop "LANRequiresVerification" Invariant
           "(backend_state = backend_LANActive /\ client_state = client_LANActive) => challenge_bytes = offer_challenge"
           "LAN path is only active after successful challenge verification";
       gprop "BackoffBounded" Invariant "backoff_level <= max_backoff_level"
           "Backoff level never exceeds the cap";
       gprop "BackoffResetsOnSuccess" Invariant "backend_state = backend_LANActive => backoff_level = 0"
           "Successful LAN establishment resets the backoff level";
       gprop "DispatcherAlwaysBound" Invariant (q "dispatcher_path \in {'relay', 'lan'}")
           "The datagram dispatcher is always reading from a valid path";
       gprop "DispatcherMatchesActivePath" Invariant (q
           "(backend_state = backend_LANActive \/ client_state = client_LANActive) => dispatcher_path = 'lan'")
           "When LAN is active, the dispatcher reads from LAN";
       gprop "DispatcherRelayOnFallback" Invariant (q
           "(backend_state = backend_RelayBackoff \/ client_state = client_RelayFallback) => dispatcher_path = 'relay'")
           "After fallback, the dispatcher reads from relay";
       gprop "MonitorOnlyWhenLANActive" Invariant (q
           "monitor_target = 'lan' => backend_state \in {backend_LANActive, backend_LANDegraded}")
           "Health monitor only pings when LAN is active or degraded";
       gprop "MonitorOffOnFallback" Invariant (q
           "backend_state = backend_RelayBackoff => monitor_target = 'none'")
           "Health monitor stops on fallback";
       gprop "LANSignalReady" Invariant (q
           "(backend_state = backend_LANActive /\ lan_signal = 'ready') => active_path = 'lan'") (q
           "LANReady signal is only 'ready' when LAN is the active path");
       gprop "LANSignalPendingOnFallback" Invariant (q
           "backend_state = backend_RelayBackoff => lan_signal = 'pending'")
           "LANReady resets to pending on fallback"];
     ChannelBound := 3;
     OneShot := false |}.

(** ** The constants *)

Definition PathSwitch_backend_states : list GoConst :=
  [
    ("PathSwitchBackendRelayConnected", "RelayConnected");
    ("PathSwitchBackendLANOffered", "LANOffered");
    ("PathSwitchBackendLANActive", "LANActive");
    ("PathSwitchBackendRelayBackoff", "RelayBackoff");
    ("PathSwitchBackendLANDegraded", "LANDegraded")].
Definition PathSwitch_client_states : list GoConst :=
  [
    ("PathSwitchClientRelayConnected", "RelayConnected");
    ("PathSwitchClientLANConnecting", "LANConnecting");
    ("PathSwitchClientLANVerifying", "LANVerifying");
    ("PathSwitchClientLANActive", "LANActive");
    ("PathSwitchClientRelayFallback", "RelayFallback")].
Definition PathSwitch_relay_states : list GoConst :=
  [
    ("PathSwitchRelayIdle", "Idle");
    ("PathSwitchRelayBackendRegistered", "BackendRegistered");
    ("PathSwitchRelayBridged", "Bridged")].
Definition PathSwitch_message_types : list GoConst :=
  [
    ("PathSwitchMsgLanOffer", "lan_offer");
    ("PathSwitchMsgLanVerify", "lan_verify");
    ("PathSwitchMsgLanConfirm", "lan_confirm");
    ("PathSwitchMsgPathPing", "path_ping");
    ("PathSwitchMsgPathPong", "path_pong");
    ("PathSwitchMsgRelayResume", "relay_resume");
    ("PathSwitchMsgRelayResumed", "relay_resumed")].
Definition PathSwitch_guards : list GoConst :=
  [
    ("PathSwitchGuardChallengeValid", "challenge_valid");
    ("PathSwitchGuardChallengeInvalid", "challenge_invalid");
    ("PathSwitchGuardLanEnabled", "lan_enabled");
    ("PathSwitchGuardLanDisabled", "lan_disabled");
    ("PathSwitchGuardLanServerAvailable", "lan_server_available");
    ("PathSwitchGuardUnderMaxFailures", "under_max_failures");
    ("PathSwitchGuardAtMaxFailures", "at_max_failures")].
Definition PathSwitch_actions : list GoConst :=
  [
    ("PathSwitchActionActivateLan", "activate_lan");
    ("PathSwitchActionBridgeStreams", "bridge_streams");
    ("PathSwitchActionDialLan", "dial_lan");
    ("PathSwitchActionFallbackToRelay", "fallback_to_relay");
    ("PathSwitchActionRebridgeStreams", "rebridge_streams");
    ("PathSwitchActionResetFailures", "reset_failures");
    ("PathSwitchActionUnbridge", "unbridge")].
Definition PathSwitch_events : list GoConst :=
  [
    ("PathSwitchEventBackendDisconnect", "backend_disconnect");
    ("PathSwitchEventBackendRegister", "backend_register");
    ("PathSwitchEventBackoffExpired", "backoff_expired");
    ("PathSwitchEventClientConnect", "client_connect");
    ("PathSwitchEventClientDisconnect", "client_disconnect");
    ("PathSwitchEventLanDialFailed", "lan_dial_failed");
    ("PathSwitchEventLanDialOk", "lan_dial_ok");
    ("PathSwitchEventLanError", "lan_error");
    ("PathSwitchEventLanServerChanged", "lan_server_changed");
    ("PathSwitchEventLanServerReady", "lan_server_ready");
    ("PathSwitchEventOfferTimeout", "offer_timeout");
    ("PathSwitchEventPingTick", "ping_tick");
    ("PathSwitchEventPingTimeout", "ping_timeout");
    ("PathSwitchEventReadvertiseTick", "readvertise_tick");
    ("PathSwitchEventRecvLanConfirm", "recv_lan_confirm");
    ("PathSwitchEventRecvLanOffer", "recv_lan_offer");
    ("PathSwitchEventRecvLanVerify", "recv_lan_verify");
    ("PathSwitchEventRecvPathPing", "recv_path_ping");
    ("PathSwitchEventRecvPathPong", "recv_path_pong");
    ("PathSwitchEventRecvRelayResume", "recv_relay_resume");
    ("PathSwitchEventRelayOk", "relay_ok");
    ("PathSwitchEventVerifyTimeout", "verify_timeout")].

Definition PathSwitch_consts : list GoConst :=
  PathSwitch_backend_states ++ PathSwitch_client_states ++ PathSwitch_relay_states ++ PathSwitch_message_types
      ++ PathSwitch_guards ++ PathSwitch_actions ++ PathSwitch_events.

(** ** Wire constants and structs *)

Definition PathSwitch_wire_constants : list GoWireConst :=
  [].
Definition PathSwitch_structs : list (string * list (string * string)) :=
  [].

(** ** The machines *)

Module PathSwitchBackendMachine.

Record PathSwitchBackendMachine := {
  PingFailures : Z;
  BackoffLevel : Z;
  ActivePath : string;
  DispatcherPath : string;
  MonitorTarget : string;
  LanSignal : string
}.

Definition set_PingFailures (x : Z) (m : PathSwitchBackendMachine) : PathSwitchBackendMachine :=
  {| PingFailures := x; BackoffLevel := BackoffLevel m; ActivePath := ActivePath m; DispatcherPath :=
      DispatcherPath m; MonitorTarget := MonitorTarget m; LanSignal := LanSignal m |}.
Definition set_BackoffLevel (x : Z) (m : PathSwitchBackendMachine) : PathSwitchBackendMachine :=
  {| PingFailures := PingFailures m; BackoffLevel := x; ActivePath := ActivePath m; DispatcherPath :=
      DispatcherPath m; MonitorTarget := MonitorTarget m; LanSignal := LanSignal m |}.
Definition set_ActivePath (x : string) (m : PathSwitchBackendMachine) : PathSwitchBackendMachine :=
  {| PingFailures := PingFailures m; BackoffLevel := BackoffLevel m; ActivePath := x; DispatcherPath :=
      DispatcherPath m; MonitorTarget := MonitorTarget m; LanSignal := LanSignal m |}.
Definition set_DispatcherPath (x : string) (m : PathSwitchBackendMachine) : PathSwitchBackendMachine :=
  {| PingFailures := PingFailures m; BackoffLevel := BackoffLevel m; ActivePath := ActivePath m; DispatcherPath
      := x; MonitorTarget := MonitorTarget m; LanSignal := LanSignal m |}.
Definition set_MonitorTarget (x : string) (m : PathSwitchBackendMachine) : PathSwitchBackendMachine :=
  {| PingFailures := PingFailures m; BackoffLevel := BackoffLevel m; ActivePath := ActivePath m; DispatcherPath
      := DispatcherPath m; MonitorTarget := x; LanSignal := LanSignal m |}.
Definition set_LanSignal (x : string) (m : PathSwitchBackendMachine) : PathSwitchBackendMachine :=
  {| PingFailures := PingFailures m; BackoffLevel := BackoffLevel m; ActivePath := ActivePath m; DispatcherPath
      := DispatcherPath m; MonitorTarget := MonitorTarget m; LanSignal := x |}.

Definition fields : list (string * fieldOps PathSwitchBackendMachine) :=
  [("PingFailures", FInt PingFailures set_PingFailures);
   ("BackoffLevel", FInt BackoffLevel set_BackoffLevel);
   ("ActivePath", FString ActivePath set_ActivePath);
   ("DispatcherPath", FString DispatcherPath set_DispatcherPath);
   ("MonitorTarget", FString MonitorTarget set_MonitorTarget);
   ("LanSignal", FString LanSignal set_LanSignal)].
#[export] Instance vars : GoVars PathSwitchBackendMachine := goFields fields.
Definition zero : PathSwitchBackendMachine := {| PingFailures := 0%Z; BackoffLevel := 0%Z; ActivePath :=
    EmptyString; DispatcherPath := EmptyString; MonitorTarget := EmptyString; LanSignal := EmptyString |}.

(** [NewPathSwitchBackendMachine]: the initial state and variables. *)
Definition NewPathSwitchBackendMachine : State * PathSwitchBackendMachine :=
  ("RelayConnected", {| PingFailures := 0%Z; BackoffLevel := 0%Z; ActivePath := "relay"; DispatcherPath :=
      "relay"; MonitorTarget := "none"; LanSignal := "pending" |}).

Definition PathSwitchBackendMachine_HandleMessage_cases : list (Case bool) := [
  case_ "LANOffered" "lan_verify" (Some "challenge_valid")
    [Act "activate_lan"; Set_ "PingFailures" (VInt 0); Changed "ping_failures"; Set_ "BackoffLevel" (VInt 0);
        Changed "backoff_level"; Set_ "ActivePath" (VStr "lan"); Changed "active_path"; Set_ "MonitorTarget"
        (VStr "lan"); Changed "monitor_target"; Set_ "DispatcherPath" (VStr "lan"); Changed "dispatcher_path";
        Set_ "LanSignal" (VStr "ready"); Changed "lan_signal"; Goto "LANActive"] true;
  case_ "LANOffered" "lan_verify" (Some "challenge_invalid")
    [Goto "RelayConnected"] true;
  case_ "LANDegraded" "path_pong" None
    [Act "reset_failures"; Set_ "PingFailures" (VInt 0); Changed "ping_failures"; Goto "LANActive"] true].
Definition PathSwitchBackendMachine_HandleMessage {H} : Callbacks PathSwitchBackendMachine H -> string -> World
    PathSwitchBackendMachine H -> World PathSwitchBackendMachine H * bool * option error :=
  switch false PathSwitchBackendMachine_HandleMessage_cases.

Definition PathSwitchBackendMachine_Step_cases : list (Case bool) := [
  case_ "RelayConnected" "lan_server_ready" None
    [Goto "LANOffered"] true;
  case_ "LANOffered" "offer_timeout" None
    [Goto "RelayBackoff"] true;
  case_ "LANActive" "ping_tick" None
    [Goto "LANActive"] true;
  case_ "LANActive" "ping_timeout" None
    [Set_ "PingFailures" (VInt 1); Changed "ping_failures"; Goto "LANDegraded"] true;
  case_ "LANDegraded" "ping_tick" None
    [Goto "LANDegraded"] true;
  case_ "LANDegraded" "ping_timeout" (Some "under_max_failures")
    [Incr "PingFailures" 1; Changed "ping_failures"; Goto "LANDegraded"] true;
  case_ "LANDegraded" "ping_timeout" (Some "at_max_failures")
    [Act "fallback_to_relay"; Set_ "ActivePath" (VStr "relay"); Changed "active_path"; Set_ "MonitorTarget"
        (VStr "none"); Changed "monitor_target"; Set_ "DispatcherPath" (VStr "relay"); Changed
        "dispatcher_path"; Set_ "LanSignal" (VStr "pending"); Changed "lan_signal"; Set_ "PingFailures" (VInt
        0); Changed "ping_failures"; Goto "RelayBackoff"] true;
  case_ "RelayBackoff" "backoff_expired" None
    [Goto "LANOffered"] true;
  case_ "RelayBackoff" "lan_server_changed" None
    [Set_ "BackoffLevel" (VInt 0); Changed "backoff_level"; Goto "LANOffered"] true;
  case_ "RelayConnected" "readvertise_tick" (Some "lan_server_available")
    [Goto "LANOffered"] true].
Definition PathSwitchBackendMachine_Step {H} : Callbacks PathSwitchBackendMachine H -> string -> World
    PathSwitchBackendMachine H -> World PathSwitchBackendMachine H * bool * option error :=
  switch false PathSwitchBackendMachine_Step_cases.

Definition PathSwitchBackendMachine_HandleEvent_cases : list (Case (list CmdID)) := [
  case_ "RelayConnected" "lan_server_ready" None
    [Goto "LANOffered"] [];
  case_ "LANOffered" "recv_lan_verify" (Some "challenge_valid")
    [Act "activate_lan"; Set_ "PingFailures" (VInt 0); Changed "ping_failures"; Set_ "BackoffLevel" (VInt 0);
        Changed "backoff_level"; Set_ "ActivePath" (VStr "lan"); Changed "active_path"; Set_ "MonitorTarget"
        (VStr "lan"); Changed "monitor_target"; Set_ "DispatcherPath" (VStr "lan"); Changed "dispatcher_path";
        Set_ "LanSignal" (VStr "ready"); Changed "lan_signal"; Goto "LANActive"] [];
  case_ "LANOffered" "recv_lan_verify" (Some "challenge_invalid")
    [Goto "RelayConnected"] [];
  case_ "LANOffered" "offer_timeout" None
    [Goto "RelayBackoff"] [];
  case_ "LANActive" "ping_tick" None
    [Goto "LANActive"] [];
  case_ "LANActive" "ping_timeout" None
    [Set_ "PingFailures" (VInt 1); Changed "ping_failures"; Goto "LANDegraded"] [];
  case_ "LANDegraded" "ping_tick" None
    [Goto "LANDegraded"] [];
  case_ "LANDegraded" "recv_path_pong" None
    [Act "reset_failures"; Set_ "PingFailures" (VInt 0); Changed "ping_failures"; Goto "LANActive"] [];
  case_ "LANDegraded" "ping_timeout" (Some "under_max_failures")
    [Incr "PingFailures" 1; Changed "ping_failures"; Goto "LANDegraded"] [];
  case_ "LANDegraded" "ping_timeout" (Some "at_max_failures")
    [Act "fallback_to_relay"; Set_ "ActivePath" (VStr "relay"); Changed "active_path"; Set_ "MonitorTarget"
        (VStr "none"); Changed "monitor_target"; Set_ "DispatcherPath" (VStr "relay"); Changed
        "dispatcher_path"; Set_ "LanSignal" (VStr "pending"); Changed "lan_signal"; Set_ "PingFailures" (VInt
        0); Changed "ping_failures"; Goto "RelayBackoff"] [];
  case_ "RelayBackoff" "backoff_expired" None
    [Goto "LANOffered"] [];
  case_ "RelayBackoff" "lan_server_changed" None
    [Set_ "BackoffLevel" (VInt 0); Changed "backoff_level"; Goto "LANOffered"] [];
  case_ "RelayConnected" "readvertise_tick" (Some "lan_server_available")
    [Goto "LANOffered"] []].
Definition PathSwitchBackendMachine_HandleEvent {H} : Callbacks PathSwitchBackendMachine H -> string -> World
    PathSwitchBackendMachine H -> World PathSwitchBackendMachine H * list CmdID * option error :=
  switch [] PathSwitchBackendMachine_HandleEvent_cases.

End PathSwitchBackendMachine.

Module PathSwitchClientMachine.

Record PathSwitchClientMachine := {
  ActivePath : string;
  DispatcherPath : string;
  LanSignal : string
}.

Definition set_ActivePath (x : string) (m : PathSwitchClientMachine) : PathSwitchClientMachine :=
  {| ActivePath := x; DispatcherPath := DispatcherPath m; LanSignal := LanSignal m |}.
Definition set_DispatcherPath (x : string) (m : PathSwitchClientMachine) : PathSwitchClientMachine :=
  {| ActivePath := ActivePath m; DispatcherPath := x; LanSignal := LanSignal m |}.
Definition set_LanSignal (x : string) (m : PathSwitchClientMachine) : PathSwitchClientMachine :=
  {| ActivePath := ActivePath m; DispatcherPath := DispatcherPath m; LanSignal := x |}.

Definition fields : list (string * fieldOps PathSwitchClientMachine) :=
  [("ActivePath", FString ActivePath set_ActivePath);
   ("DispatcherPath", FString DispatcherPath set_DispatcherPath);
   ("LanSignal", FString LanSignal set_LanSignal)].
#[export] Instance vars : GoVars PathSwitchClientMachine := goFields fields.
Definition zero : PathSwitchClientMachine := {| ActivePath := EmptyString; DispatcherPath := EmptyString;
    LanSignal := EmptyString |}.

(** [NewPathSwitchClientMachine]: the initial state and variables. *)
Definition NewPathSwitchClientMachine : State * PathSwitchClientMachine :=
  ("RelayConnected", {| ActivePath := "relay"; DispatcherPath := "relay"; LanSignal := "pending" |}).

Definition PathSwitchClientMachine_HandleMessage_cases : list (Case bool) := [
  case_ "RelayConnected" "lan_offer" (Some "lan_enabled")
    [Act "dial_lan"; Goto "LANConnecting"] true;
  case_ "RelayConnected" "lan_offer" (Some "lan_disabled")
    [Goto "RelayConnected"] true;
  case_ "LANVerifying" "lan_confirm" None
    [Act "activate_lan"; Set_ "ActivePath" (VStr "lan"); Changed "active_path"; Set_ "DispatcherPath" (VStr
        "lan"); Changed "dispatcher_path"; Set_ "LanSignal" (VStr "ready"); Changed "lan_signal"; Goto
        "LANActive"] true;
  case_ "LANActive" "path_ping" None
    [Goto "LANActive"] true;
  case_ "LANActive" "lan_offer" (Some "lan_enabled")
    [Act "dial_lan"; Goto "LANConnecting"] true].
Definition PathSwitchClientMachine_HandleMessage {H} : Callbacks PathSwitchClientMachine H -> string -> World
    PathSwitchClientMachine H -> World PathSwitchClientMachine H * bool * option error :=
  switch false PathSwitchClientMachine_HandleMessage_cases.

Definition PathSwitchClientMachine_Step_cases : list (Case bool) := [
  case_ "LANConnecting" "lan_dial_ok" None
    [Goto "LANVerifying"] true;
  case_ "LANConnecting" "lan_dial_failed" None
    [Goto "RelayConnected"] true;
  case_ "LANVerifying" "verify_timeout" None
    [Set_ "DispatcherPath" (VStr "relay"); Changed "dispatcher_path"; Goto "RelayConnected"] true;
  case_ "LANActive" "lan_error" None
    [Act "fallback_to_relay"; Set_ "ActivePath" (VStr "relay"); Changed "active_path"; Set_ "DispatcherPath"
        (VStr "relay"); Changed "dispatcher_path"; Set_ "LanSignal" (VStr "pending"); Changed "lan_signal"; Goto
        "RelayFallback"] true;
  case_ "RelayFallback" "relay_ok" None
    [Goto "RelayConnected"] true].
Definition PathSwitchClientMachine_Step {H} : Callbacks PathSwitchClientMachine H -> string -> World
    PathSwitchClientMachine H -> World PathSwitchClientMachine H * bool * option error :=
  switch false PathSwitchClientMachine_Step_cases.

Definition PathSwitchClientMachine_HandleEvent_cases : list (Case (list CmdID)) := [
  case_ "RelayConnected" "recv_lan_offer" (Some "lan_enabled")
    [Act "dial_lan"; Goto "LANConnecting"] [];
  case_ "RelayConnected" "recv_lan_offer" (Some "lan_disabled")
    [Goto "RelayConnected"] [];
  case_ "LANConnecting" "lan_dial_ok" None
    [Goto "LANVerifying"] [];
  case_ "LANConnecting" "lan_dial_failed" None
    [Goto "RelayConnected"] [];
  case_ "LANVerifying" "recv_lan_confirm" None
    [Act "activate_lan"; Set_ "ActivePath" (VStr "lan"); Changed "active_path"; Set_ "DispatcherPath" (VStr
        "lan"); Changed "dispatcher_path"; Set_ "LanSignal" (VStr "ready"); Changed "lan_signal"; Goto
        "LANActive"] [];
  case_ "LANVerifying" "verify_timeout" None
    [Set_ "DispatcherPath" (VStr "relay"); Changed "dispatcher_path"; Goto "RelayConnected"] [];
  case_ "LANActive" "recv_path_ping" None
    [Goto "LANActive"] [];
  case_ "LANActive" "lan_error" None
    [Act "fallback_to_relay"; Set_ "ActivePath" (VStr "relay"); Changed "active_path"; Set_ "DispatcherPath"
        (VStr "relay"); Changed "dispatcher_path"; Set_ "LanSignal" (VStr "pending"); Changed "lan_signal"; Goto
        "RelayFallback"] [];
  case_ "RelayFallback" "relay_ok" None
    [Goto "RelayConnected"] [];
  case_ "LANActive" "recv_lan_offer" (Some "lan_enabled")
    [Act "dial_lan"; Goto "LANConnecting"] []].
Definition PathSwitchClientMachine_HandleEvent {H} : Callbacks PathSwitchClientMachine H -> string -> World
    PathSwitchClientMachine H -> World PathSwitchClientMachine H * list CmdID * option error :=
  switch [] PathSwitchClientMachine_HandleEvent_cases.

End PathSwitchClientMachine.

Module PathSwitchRelayMachine.

Record PathSwitchRelayMachine := {
  RelayBridge : string
}.

Definition set_RelayBridge (x : string) (m : PathSwitchRelayMachine) : PathSwitchRelayMachine :=
  {| RelayBridge := x |}.

Definition fields : list (string * fieldOps PathSwitchRelayMachine) :=
  [("RelayBridge", FString RelayBridge set_RelayBridge)].
#[export] Instance vars : GoVars PathSwitchRelayMachine := goFields fields.
Definition zero : PathSwitchRelayMachine := {| RelayBridge := EmptyString |}.

(** [NewPathSwitchRelayMachine]: the initial state and variables. *)
Definition NewPathSwitchRelayMachine : State * PathSwitchRelayMachine :=
  ("Idle", {| RelayBridge := "idle" |}).

Definition PathSwitchRelayMachine_HandleMessage_cases : list (Case bool) := [
  case_ "Bridged" "relay_resume" None
    [Act "rebridge_streams"; Goto "Bridged"] true].
Definition PathSwitchRelayMachine_HandleMessage {H} : Callbacks PathSwitchRelayMachine H -> string -> World
    PathSwitchRelayMachine H -> World PathSwitchRelayMachine H * bool * option error :=
  switch false PathSwitchRelayMachine_HandleMessage_cases.

Definition PathSwitchRelayMachine_Step_cases : list (Case bool) := [
  case_ "Idle" "backend_register" None
    [Goto "BackendRegistered"] true;
  case_ "BackendRegistered" "client_connect" None
    [Act "bridge_streams"; Set_ "RelayBridge" (VStr "active"); Changed "relay_bridge"; Goto "Bridged"] true;
  case_ "Bridged" "client_disconnect" None
    [Act "unbridge"; Set_ "RelayBridge" (VStr "idle"); Changed "relay_bridge"; Goto "BackendRegistered"] true;
  case_ "BackendRegistered" "backend_disconnect" None
    [Goto "Idle"] true].
Definition PathSwitchRelayMachine_Step {H} : Callbacks PathSwitchRelayMachine H -> string -> World
    PathSwitchRelayMachine H -> World PathSwitchRelayMachine H * bool * option error :=
  switch false PathSwitchRelayMachine_Step_cases.

Definition PathSwitchRelayMachine_HandleEvent_cases : list (Case (list CmdID)) := [
  case_ "Idle" "backend_register" None
    [Goto "BackendRegistered"] [];
  case_ "BackendRegistered" "client_connect" None
    [Act "bridge_streams"; Set_ "RelayBridge" (VStr "active"); Changed "relay_bridge"; Goto "Bridged"] [];
  case_ "Bridged" "client_disconnect" None
    [Act "unbridge"; Set_ "RelayBridge" (VStr "idle"); Changed "relay_bridge"; Goto "BackendRegistered"] [];
  case_ "Bridged" "recv_relay_resume" None
    [Act "rebridge_streams"; Goto "Bridged"] [];
  case_ "BackendRegistered" "backend_disconnect" None
    [Goto "Idle"] []].
Definition PathSwitchRelayMachine_HandleEvent {H} : Callbacks PathSwitchRelayMachine H -> string -> World
    PathSwitchRelayMachine H -> World PathSwitchRelayMachine H * list CmdID * option error :=
  switch [] PathSwitchRelayMachine_HandleEvent_cases.

End PathSwitchRelayMachine.

