(* ===== verification/PairingGen.v ===== *)
(** * PairingGen: the pairing ceremony protocol and its generated machines

    The document protocol/pairing.yaml as the YAML package decodes it, and what
    the generator wrote for it, pairing/pairingceremony_gen.go: the table, the
    constants and the two typed machines. *)

From Stdlib Require Import ZArith Strings.String.
From stdpp Require Import base gmap strings list.
From S2P Require Import Prelude Machine GoGen Yaml.

(** ** The document (protocol/pairing.yaml) *)

Definition pairingDoc_actors : section (result yamlActor) :=
  Mapping [
    ("acceptor", Ok {| yaInitial := "Idle";
      yaStates := Absent;
      yaTransitions := [
        ytr "Idle" "GeneratingEphemeral" "pair_begin" EmptyString "gen_ephemeral" EmptyString [] (Mapping
            [("acceptor_eph_pub", q "'acceptor_eph'")]) [];
        ytr "GeneratingEphemeral" "RegisteringRelay" "ephemeral_ready" EmptyString "register_relay" EmptyString
            [] Absent [];
        ytr "RegisteringRelay" "WaitingForHello" "relay_registered" EmptyString "emit_token" EmptyString []
            Absent [];
        ytr "WaitingForHello" "WaitingForReveal" "recv hello" EmptyString "store_commit" EmptyString [ysend
            "initiator" "welcome" [("eph_pub", "acceptor_eph_pub"); ("identity_pub", "acceptor_identity_pub");
            ("instance_id", "acceptor_instance_id")]] (Mapping [("acceptor_received_commit", "recv_msg.commit");
            ("acceptor_received_identity", "recv_msg.identity_pub"); ("acceptor_received_instance",
            "recv_msg.instance_id")]) [];
        ytr "WaitingForReveal" "DerivingCode" "recv reveal" EmptyString "verify_commit_and_derive" EmptyString
            [] (Mapping [("acceptor_received_eph_pub", "recv_msg.eph_pub"); ("acceptor_commit_ok", q
            "IF CommitMatches(acceptor_received_commit, recv_msg.eph_pub) THEN 'true' ELSE 'false'");
            ("acceptor_code", q
            "IF CommitMatches(acceptor_received_commit, recv_msg.eph_pub) THEN DeriveCode(acceptor_eph_pub, recv_msg.eph_pub) ELSE <<'none'>>")])
            [];
        ytr "DerivingCode" "AwaitingUserConfirm" "code_ready" EmptyString EmptyString EmptyString [] Absent [];
        ytr "AwaitingUserConfirm" "AwaitingPeerConfirm" "user_confirm" EmptyString EmptyString EmptyString
            [ysend "initiator" "confirm_to_initiator" []] (Mapping [("acceptor_user_confirmed", q "'true'")])
            [];
        ytr "AwaitingPeerConfirm" "Paired" "recv confirm_to_acceptor" EmptyString "store_record" EmptyString []
            (Mapping [("acceptor_received_confirm", q "'true'")]) [];
        ytr "AwaitingUserConfirm" "Aborted" "user_cancel" EmptyString EmptyString EmptyString [] Absent [];
        ytr "AwaitingPeerConfirm" "Aborted" "user_cancel" EmptyString EmptyString EmptyString [] Absent [];
        ytr "WaitingForReveal" "Aborted" "commit_fail" EmptyString EmptyString EmptyString [] Absent []];
      yaMachines := Absent; yaRoutes := [] |});
    ("initiator", Ok {| yaInitial := "Idle";
      yaStates := Absent;
      yaTransitions := [
        ytr "Idle" "DecodingToken" "token_received" EmptyString "decode_token" EmptyString [] (Mapping
            [("received_acceptor_eph_pub", q "'acceptor_eph'"); ("received_acceptor_identity", q
            "'acceptor_id'"); ("received_acceptor_instance", q "'acceptor_instance'")]) [];
        ytr "DecodingToken" "GeneratingEphemeral" "token_decoded" EmptyString "gen_ephemeral" EmptyString []
            (Mapping [("initiator_eph_pub", q "'initiator_eph'"); ("initiator_commit", q "'initiator_commit'")])
            [];
        ytr "GeneratingEphemeral" "ConnectingRelay" "ephemeral_ready" EmptyString "dial_relay" EmptyString []
            Absent [];
        ytr "ConnectingRelay" "AwaitingWelcome" "relay_connected" EmptyString EmptyString EmptyString [ysend
            "acceptor" "hello" [("commit", "initiator_commit"); ("identity_pub", "initiator_identity_pub");
            ("instance_id", "initiator_instance_id")]] Absent [];
        ytr "AwaitingWelcome" "Revealing" "recv welcome" EmptyString "send_reveal" EmptyString [ysend "acceptor"
            "reveal" [("blind", q "'initiator_blind'"); ("eph_pub", "initiator_eph_pub")]] (Mapping
            [("initiator_received_eph_pub", "recv_msg.eph_pub"); ("initiator_received_identity",
            "recv_msg.identity_pub"); ("initiator_received_instance", "recv_msg.instance_id")]) [];
        ytr "Revealing" "DerivingCode" "reveal_sent" EmptyString "derive_code" EmptyString [] (Mapping
            [("initiator_code", "DeriveCode(initiator_eph_pub, initiator_received_eph_pub)")]) [];
        ytr "DerivingCode" "AwaitingUserConfirm" "code_ready" EmptyString EmptyString EmptyString [] Absent [];
        ytr "AwaitingUserConfirm" "AwaitingPeerConfirm" "user_confirm" EmptyString EmptyString EmptyString
            [ysend "acceptor" "confirm_to_acceptor" []] (Mapping [("initiator_user_confirmed", q "'true'")]) [];
        ytr "AwaitingPeerConfirm" "Paired" "recv confirm_to_initiator" EmptyString "store_record" EmptyString []
            (Mapping [("initiator_received_confirm", q "'true'")]) [];
        ytr "AwaitingUserConfirm" "Aborted" "user_cancel" EmptyString EmptyString EmptyString [] Absent [];
        ytr "AwaitingPeerConfirm" "Aborted" "user_cancel" EmptyString EmptyString EmptyString [] Absent []];
      yaMachines := Absent; yaRoutes := [] |})].

Definition pairingDoc : yamlProtocol :=
  {| yName := "PairingCeremony";
     yMessages := Mapping [
       ("hello", Ok (ymsg "initiator" "acceptor" (q
           "JSON {kind: 'hello', commit, identity_pub, instance_id} — commit = SHA256('pigeon-sas-commit'||eph||blind); eph not yet revealed")));
       ("welcome", Ok (ymsg "acceptor" "initiator" (q
           "JSON {kind: 'welcome', eph_pub, identity_pub, instance_id}")));
       ("reveal", Ok (ymsg "initiator" "acceptor" (q
           "JSON {kind: 'reveal', eph_pub, blind} — opens the hello commit; acceptor verifies CommitOf(eph_pub)==stored commit")));
       ("confirm_to_initiator", Ok (ymsg "acceptor" "initiator" ("JSON {kind: " +:+ dquote +:+ "confirm" +:+
           dquote +:+ "} — sent after acceptor's local user pressed y")));
       ("confirm_to_acceptor", Ok (ymsg "initiator" "acceptor" ("JSON {kind: " +:+ dquote +:+ "confirm" +:+
           dquote +:+ "} — sent after initiator's local user pressed y")))];
     yEvents := Absent;
     yCommands := Absent;
     yActors := pairingDoc_actors;
     yStructs := Absent;
     yVars := Mapping [
       ("acceptor_eph_pub", Ok (yvar (q "'none'") EmptyString "acceptor's ephemeral X25519 public key"));
       ("acceptor_identity_pub", Ok (yvar (q "'acceptor_id'") EmptyString
           "acceptor's long-term Identity public key"));
       ("acceptor_instance_id", Ok (yvar (q "'acceptor_instance'") EmptyString
           "acceptor's stable instance ID"));
       ("acceptor_received_commit", Ok (yvar (q "'none'") EmptyString
           "SAS commit from hello (binds peer eph before reveal)"));
       ("acceptor_received_eph_pub", Ok (yvar (q "'none'") EmptyString
           "ephemeral pubkey acceptor saw in reveal (may be adversary's)"));
       ("acceptor_received_identity", Ok (yvar (q "'none'") EmptyString
           "identity pubkey acceptor saw in hello"));
       ("acceptor_received_instance", Ok (yvar (q "'none'") EmptyString "instance ID acceptor saw in hello"));
       ("acceptor_commit_ok", Ok (yvar (q "'false'") EmptyString (q
           "did the reveal open the hello commit? 'true' only after CommitMatches")));
       ("acceptor_code", Ok (yvar (q "<<'none'>>") EmptyString
           "confirmation code acceptor derived from its (ephA, ephB) view"));
       ("acceptor_user_confirmed", Ok (yvar (q "'false'") EmptyString
           "has the acceptor's local human pressed y?"));
       ("acceptor_received_confirm", Ok (yvar (q "'false'") EmptyString
           "has the acceptor received initiator's confirm message?"));
       ("initiator_eph_pub", Ok (yvar (q "'none'") EmptyString "initiator's ephemeral X25519 public key"));
       ("initiator_commit", Ok (yvar (q "'none'") EmptyString (q
           "SHA256('pigeon-sas-commit'||eph||blind) for initiator_eph_pub")));
       ("initiator_identity_pub", Ok (yvar (q "'initiator_id'") EmptyString
           "initiator's long-term Identity public key"));
       ("initiator_instance_id", Ok (yvar (q "'initiator_instance'") EmptyString
           "initiator's stable instance ID"));
       ("received_acceptor_eph_pub", Ok (yvar (q "'none'") EmptyString
           "acceptor ephemeral pubkey from token (trusted, out-of-band)"));
       ("received_acceptor_identity", Ok (yvar (q "'none'") EmptyString "acceptor identity pubkey from token"));
       ("received_acceptor_instance", Ok (yvar (q "'none'") EmptyString "acceptor instance ID from token"));
       ("initiator_received_eph_pub", Ok (yvar (q "'none'") EmptyString
           "ephemeral pubkey initiator saw in welcome (may be adversary's)"));
       ("initiator_received_identity", Ok (yvar (q "'none'") EmptyString
           "identity pubkey initiator saw in welcome"));
       ("initiator_received_instance", Ok (yvar (q "'none'") EmptyString
           "instance ID initiator saw in welcome"));
       ("initiator_code", Ok (yvar (q "<<'none'>>") EmptyString
           "confirmation code initiator derived from its (ephA, ephB) view"));
       ("initiator_user_confirmed", Ok (yvar (q "'false'") EmptyString
           "has the initiator's local human pressed y?"));
       ("initiator_received_confirm", Ok (yvar (q "'false'") EmptyString
           "has the initiator received acceptor's confirm message?"));
       ("adversary_keys", Ok (yvar "{}" EmptyString "ephemeral pubkeys the adversary has injected"));
       ("adv_eph_pub", Ok (yvar (q "'adv_eph'") EmptyString "adversary's ephemeral X25519 public key"));
       ("adv_commit", Ok (yvar (q "'adv_commit'") EmptyString "adversary's SAS commit (CommitOf(adv_eph))"));
       ("adv_saved_acceptor_eph", Ok (yvar (q "'none'") EmptyString
           "real acceptor eph pubkey saved during MitM substitution"));
       ("adv_saved_initiator_eph", Ok (yvar (q "'none'") EmptyString
           "real initiator eph pubkey saved during MitM substitution"));
       ("adv_saved_initiator_commit", Ok (yvar (q "'none'") EmptyString
           "real initiator commit saved during MitM substitution of hello"));
       ("recv_msg", Ok (yvar (q "[type |-> 'none']") EmptyString "last received message (staging slot)"))];
     yGuards := Absent;
     yOperators := Mapping [
       ("KeyRank", Ok (yop "k" (q
           "CASE k = 'adv_eph' -> 0 [] k = 'initiator_eph' -> 1 [] k = 'acceptor_eph' -> 2 [] OTHER -> 3")
           "Stable rank for symbolic pubkeys so DeriveCode is order-independent."));
       ("DeriveCode", Ok (yop "a, b" (q
           "IF KeyRank(a) <= KeyRank(b) THEN <<'code', a, b>> ELSE <<'code', b, a>>")
           "Confirmation code derived from both ephemeral pubkeys (order-independent)."));
       ("CommitOf", Ok (yop "eph" (q
           "CASE eph = 'initiator_eph' -> 'initiator_commit' [] eph = 'adv_eph' -> 'adv_commit' [] eph = 'acceptor_eph' -> 'acceptor_commit' [] OTHER -> 'unknown_commit'")
           "Symbolic commitment: commit = H(eph||blind). Models the binding that SHA256 provides in the implementation."));
       ("CommitMatches", Ok (yop "commit, eph" "commit = CommitOf(eph)"
           "True iff reveal(eph, blind) opens the previously received commit."));
       ("ValidPairingRecord", Ok (yop "r" (q "r.peer_instance_id /= 'none' /\ r.peer_eph_pub /= 'none'")
           "Interface contract with SessionMachine: a PairingRecord is well-formed iff it carries a non-default peer instance ID and ephemeral pubkey. Pairing proves it as a postcondition (PairingProducesValidRecord); SessionMachine assumes it over its initial state."))];
     yPhases := Absent;
     yWireConsts := [];
     yConstants := [];
     yAdvGuard := EmptyString;
     yAdversary := [
       yadv "MitM_hello"
           "intercept hello and substitute adversary commit (so a later reveal of adv_eph can open it)"
           (joinLines
           ["await Len(chan_initiator_acceptor) > 0 /\ Head(chan_initiator_acceptor).type = MSG_hello;";
           "adv_saved_initiator_commit := Head(chan_initiator_acceptor).commit;";
           "adversary_keys := adversary_keys \union {adv_eph_pub};";
           "chan_initiator_acceptor := <<[type |-> MSG_hello, commit |-> adv_commit, identity_pub |-> Head(chan_initiator_acceptor).identity_pub, instance_id |-> Head(chan_initiator_acceptor).instance_id]>> \o Tail(chan_initiator_acceptor);";
           EmptyString]);
       yadv "MitM_welcome" "intercept welcome and substitute adversary ephemeral pubkey" (joinLines
           ["await Len(chan_acceptor_initiator) > 0 /\ Head(chan_acceptor_initiator).type = MSG_welcome;";
           "adv_saved_acceptor_eph := Head(chan_acceptor_initiator).eph_pub;";
           "adversary_keys := adversary_keys \union {adv_eph_pub};";
           "chan_acceptor_initiator := <<[type |-> MSG_welcome, eph_pub |-> adv_eph_pub, identity_pub |-> Head(chan_acceptor_initiator).identity_pub, instance_id |-> Head(chan_acceptor_initiator).instance_id]>> \o Tail(chan_acceptor_initiator);";
           EmptyString]);
       yadv "MitM_reveal"
           "intercept reveal and substitute adversary eph (fails CommitMatches unless hello was also MitM'd with adv_commit)"
           (joinLines
           ["await Len(chan_initiator_acceptor) > 0 /\ Head(chan_initiator_acceptor).type = MSG_reveal;";
           "adv_saved_initiator_eph := Head(chan_initiator_acceptor).eph_pub;";
           "adversary_keys := adversary_keys \union {adv_eph_pub};"; q
           "chan_initiator_acceptor := <<[type |-> MSG_reveal, eph_pub |-> adv_eph_pub, blind |-> 'adv_blind']>> \o Tail(chan_initiator_acceptor);";
           EmptyString])];
     yProperties := [
       yprop "MitMDetectedByCodeMismatch" "invariant" (q
           "(adv_eph_pub \in adversary_keys /\ acceptor_code /= <<'none'>> /\ initiator_code /= <<'none'>>) => acceptor_code /= initiator_code")
           EmptyString EmptyString
           "If the adversary has injected its ephemeral pubkey AND both sides have computed codes, the codes differ — so the human comparison would catch the MitM.";
       yprop "MitMPreventsPairing" "invariant"
           "(adv_eph_pub \in adversary_keys /\ acceptor_code /= initiator_code) => (acceptor_state /= acceptor_Paired \/ initiator_state /= initiator_Paired)"
           EmptyString EmptyString
           "When codes differ (MitM detected), at least one side never reaches Paired (because the human cancels).";
       yprop "HonestPairingMatchesCodes" "invariant" (q
           "(adversary_keys = {} /\ acceptor_code /= <<'none'>> /\ initiator_code /= <<'none'>>) => acceptor_code = initiator_code")
           EmptyString EmptyString "Without adversary interference, both sides derive the same 6-digit code.";
       yprop "HonestPairingCompletes" "liveness"
           "acceptor_state = acceptor_Paired /\ initiator_state = initiator_Paired" EmptyString EmptyString
           "Without adversary interference and with both users pressing y, both sides eventually reach Paired.";
       yprop "PairingProducesValidRecord" "invariant"
           "(acceptor_state = acceptor_Paired => ValidPairingRecord([peer_instance_id |-> acceptor_received_instance, peer_eph_pub |-> acceptor_received_eph_pub])) /\ (initiator_state = initiator_Paired => ValidPairingRecord([peer_instance_id |-> initiator_received_instance, peer_eph_pub |-> initiator_received_eph_pub]))"
           EmptyString EmptyString
           "Postcondition: whenever either side reaches Paired, the implicit PairingRecord built from received-peer fields satisfies the ValidPairingRecord interface contract that SessionMachine assumes.";
       yprop "CodeRequiresCommit" "invariant" (q "acceptor_code /= <<'none'>> => acceptor_commit_ok = 'true'")
           EmptyString EmptyString
           "Acceptor never derives a SAS code unless the reveal opened the hello commit — commitment binding (anti-grind).";
       yprop "RevealBoundByCommit" "invariant" (q
           "(acceptor_received_eph_pub /= 'none' /\ acceptor_commit_ok = 'true') => CommitMatches(acceptor_received_commit, acceptor_received_eph_pub)")
           EmptyString EmptyString
           "When commit verification succeeded, the revealed eph is exactly the one bound by the earlier hello commit; the acceptor cannot have been shown a ground key after the fact."];
     yChannelBound := 3;
     yOneShot := true |}.

(** ** The table ([PairingCeremonyProtocol()], pairing/pairingceremony_gen.go) *)

Definition PairingCeremonyProtocol_acceptor : Actor :=
  {| Name := "acceptor"; Initial := "Idle";
     Transitions := [
       gtr "Idle" "GeneratingEphemeral" (Internal "pair_begin") EmptyString "gen_ephemeral" []
           [("acceptor_eph_pub", q "'acceptor_eph'")];
       gtr "GeneratingEphemeral" "RegisteringRelay" (Internal "ephemeral_ready") EmptyString "register_relay" []
           [];
       gtr "RegisteringRelay" "WaitingForHello" (Internal "relay_registered") EmptyString "emit_token" [] [];
       gtr "WaitingForHello" "WaitingForReveal" (Recv "hello") EmptyString "store_commit" [gsend "initiator"
           "welcome" [("eph_pub", "acceptor_eph_pub"); ("identity_pub", "acceptor_identity_pub");
           ("instance_id", "acceptor_instance_id")]] [("acceptor_received_commit", "recv_msg.commit");
           ("acceptor_received_identity", "recv_msg.identity_pub"); ("acceptor_received_instance",
           "recv_msg.instance_id")];
       gtr "WaitingForReveal" "DerivingCode" (Recv "reveal") EmptyString "verify_commit_and_derive" []
           [("acceptor_received_eph_pub", "recv_msg.eph_pub"); ("acceptor_commit_ok", q
           "IF CommitMatches(acceptor_received_commit, recv_msg.eph_pub) THEN 'true' ELSE 'false'");
           ("acceptor_code", q
           "IF CommitMatches(acceptor_received_commit, recv_msg.eph_pub) THEN DeriveCode(acceptor_eph_pub, recv_msg.eph_pub) ELSE <<'none'>>")];
       gtr "DerivingCode" "AwaitingUserConfirm" (Internal "code_ready") EmptyString EmptyString [] [];
       gtr "AwaitingUserConfirm" "AwaitingPeerConfirm" (Internal "user_confirm") EmptyString EmptyString [gsend
           "initiator" "confirm_to_initiator" []] [("acceptor_user_confirmed", q "'true'")];
       gtr "AwaitingPeerConfirm" "Paired" (Recv "confirm_to_acceptor") EmptyString "store_record" []
           [("acceptor_received_confirm", q "'true'")];
       gtr "AwaitingUserConfirm" "Aborted" (Internal "user_cancel") EmptyString EmptyString [] [];
       gtr "AwaitingPeerConfirm" "Aborted" (Internal "user_cancel") EmptyString EmptyString [] [];
       gtr "WaitingForReveal" "Aborted" (Internal "commit_fail") EmptyString EmptyString [] []];
     StateIndex := []; Roots := []; Machines := []; Routes := [] |}.

Definition PairingCeremonyProtocol_initiator : Actor :=
  {| Name := "initiator"; Initial := "Idle";
     Transitions := [
       gtr "Idle" "DecodingToken" (Internal "token_received") EmptyString "decode_token" []
           [("received_acceptor_eph_pub", q "'acceptor_eph'"); ("received_acceptor_identity", q
           "'acceptor_id'"); ("received_acceptor_instance", q "'acceptor_instance'")];
       gtr "DecodingToken" "GeneratingEphemeral" (Internal "token_decoded") EmptyString "gen_ephemeral" []
           [("initiator_eph_pub", q "'initiator_eph'"); ("initiator_commit", q "'initiator_commit'")];
       gtr "GeneratingEphemeral" "ConnectingRelay" (Internal "ephemeral_ready") EmptyString "dial_relay" [] [];
       gtr "ConnectingRelay" "AwaitingWelcome" (Internal "relay_connected") EmptyString EmptyString [gsend
           "acceptor" "hello" [("commit", "initiator_commit"); ("identity_pub", "initiator_identity_pub");
           ("instance_id", "initiator_instance_id")]] [];
       gtr "AwaitingWelcome" "Revealing" (Recv "welcome") EmptyString "send_reveal" [gsend "acceptor" "reveal"
           [("blind", q "'initiator_blind'"); ("eph_pub", "initiator_eph_pub")]] [("initiator_received_eph_pub",
           "recv_msg.eph_pub"); ("initiator_received_identity", "recv_msg.identity_pub");
           ("initiator_received_instance", "recv_msg.instance_id")];
       gtr "Revealing" "DerivingCode" (Internal "reveal_sent") EmptyString "derive_code" [] [("initiator_code",
           "DeriveCode(initiator_eph_pub, initiator_received_eph_pub)")];
       gtr "DerivingCode" "AwaitingUserConfirm" (Internal "code_ready") EmptyString EmptyString [] [];
       gtr "AwaitingUserConfirm" "AwaitingPeerConfirm" (Internal "user_confirm") EmptyString EmptyString [gsend
           "acceptor" "confirm_to_acceptor" []] [("initiator_user_confirmed", q "'true'")];
       gtr "AwaitingPeerConfirm" "Paired" (Recv "confirm_to_initiator") EmptyString "store_record" []
           [("initiator_received_confirm", q "'true'")];
       gtr "AwaitingUserConfirm" "Aborted" (Internal "user_cancel") EmptyString EmptyString [] [];
       gtr "AwaitingPeerConfirm" "Aborted" (Internal "user_cancel") EmptyString EmptyString [] []];
     StateIndex := []; Roots := []; Machines := []; Routes := [] |}.

Definition PairingCeremonyProtocol : Protocol :=
  {| pName := "PairingCeremony";
     Actors := [PairingCeremonyProtocol_acceptor; PairingCeremonyProtocol_initiator];
     Messages := [
       gmsg "hello" "initiator" "acceptor" (q
           "JSON {kind: 'hello', commit, identity_pub, instance_id} — commit = SHA256('pigeon-sas-commit'||eph||blind); eph not yet revealed");
       gmsg "welcome" "acceptor" "initiator" (q "JSON {kind: 'welcome', eph_pub, identity_pub, instance_id}");
       gmsg "reveal" "initiator" "acceptor" (q
           "JSON {kind: 'reveal', eph_pub, blind} — opens the hello commit; acceptor verifies CommitOf(eph_pub)==stored commit");
       gmsg "confirm_to_initiator" "acceptor" "initiator" ("JSON {kind: " +:+ dquote +:+ "confirm" +:+ dquote
           +:+ "} — sent after acceptor's local user pressed y");
       gmsg "confirm_to_acceptor" "initiator" "acceptor" ("JSON {kind: " +:+ dquote +:+ "confirm" +:+ dquote +:+
           "} — sent after initiator's local user pressed y")];
     Events := []; Commands := []; Structs := [];
     Vars := [
       gvar "acceptor_eph_pub" (q "'none'") "acceptor's ephemeral X25519 public key";
       gvar "acceptor_identity_pub" (q "'acceptor_id'") "acceptor's long-term Identity public key";
       gvar "acceptor_instance_id" (q "'acceptor_instance'") "acceptor's stable instance ID";
       gvar "acceptor_received_commit" (q "'none'") "SAS commit from hello (binds peer eph before reveal)";
       gvar "acceptor_received_eph_pub" (q "'none'")
           "ephemeral pubkey acceptor saw in reveal (may be adversary's)";
       gvar "acceptor_received_identity" (q "'none'") "identity pubkey acceptor saw in hello";
       gvar "acceptor_received_instance" (q "'none'") "instance ID acceptor saw in hello";
       gvar "acceptor_commit_ok" (q "'false'") (q
           "did the reveal open the hello commit? 'true' only after CommitMatches");
       gvar "acceptor_code" (q "<<'none'>>") "confirmation code acceptor derived from its (ephA, ephB) view";
       gvar "acceptor_user_confirmed" (q "'false'") "has the acceptor's local human pressed y?";
       gvar "acceptor_received_confirm" (q "'false'") "has the acceptor received initiator's confirm message?";
       gvar "initiator_eph_pub" (q "'none'") "initiator's ephemeral X25519 public key";
       gvar "initiator_commit" (q "'none'") (q "SHA256('pigeon-sas-commit'||eph||blind) for initiator_eph_pub");
       gvar "initiator_identity_pub" (q "'initiator_id'") "initiator's long-term Identity public key";
       gvar "initiator_instance_id" (q "'initiator_instance'") "initiator's stable instance ID";
       gvar "received_acceptor_eph_pub" (q "'none'")
           "acceptor ephemeral pubkey from token (trusted, out-of-band)";
       gvar "received_acceptor_identity" (q "'none'") "acceptor identity pubkey from token";
       gvar "received_acceptor_instance" (q "'none'") "acceptor instance ID from token";
       gvar "initiator_received_eph_pub" (q "'none'")
           "ephemeral pubkey initiator saw in welcome (may be adversary's)";
       gvar "initiator_received_identity" (q "'none'") "identity pubkey initiator saw in welcome";
       gvar "initiator_received_instance" (q "'none'") "instance ID initiator saw in welcome";
       gvar "initiator_code" (q "<<'none'>>") "confirmation code initiator derived from its (ephA, ephB) view";
       gvar "initiator_user_confirmed" (q "'false'") "has the initiator's local human pressed y?";
       gvar "initiator_received_confirm" (q "'false'") "has the initiator received acceptor's confirm message?";
       gvar "adversary_keys" "{}" "ephemeral pubkeys the adversary has injected";
       gvar "adv_eph_pub" (q "'adv_eph'") "adversary's ephemeral X25519 public key";
       gvar "adv_commit" (q "'adv_commit'") "adversary's SAS commit (CommitOf(adv_eph))";
       gvar "adv_saved_acceptor_eph" (q "'none'") "real acceptor eph pubkey saved during MitM substitution";
       gvar "adv_saved_initiator_eph" (q "'none'") "real initiator eph pubkey saved during MitM substitution";
       gvar "adv_saved_initiator_commit" (q "'none'")
           "real initiator commit saved during MitM substitution of hello";
       gvar "recv_msg" (q "[type |-> 'none']") "last received message (staging slot)"];
     Guards := [];
     Operators := [
       gop "KeyRank" "k" (q
           "CASE k = 'adv_eph' -> 0 [] k = 'initiator_eph' -> 1 [] k = 'acceptor_eph' -> 2 [] OTHER -> 3")
           "Stable rank for symbolic pubkeys so DeriveCode is order-independent.";
       gop "DeriveCode" "a, b" (q "IF KeyRank(a) <= KeyRank(b) THEN <<'code', a, b>> ELSE <<'code', b, a>>")
           "Confirmation code derived from both ephemeral pubkeys (order-independent).";
       gop "CommitOf" "eph" (q
           "CASE eph = 'initiator_eph' -> 'initiator_commit' [] eph = 'adv_eph' -> 'adv_commit' [] eph = 'acceptor_eph' -> 'acceptor_commit' [] OTHER -> 'unknown_commit'")
           "Symbolic commitment: commit = H(eph||blind). Models the binding that SHA256 provides in the implementation.";
       gop "CommitMatches" "commit, eph" "commit = CommitOf(eph)"
           "True iff reveal(eph, blind) opens the previously received commit.";
       gop "ValidPairingRecord" "r" (q "r.peer_instance_id /= 'none' /\ r.peer_eph_pub /= 'none'")
           "Interface contract with SessionMachine: a PairingRecord is well-formed iff it carries a non-default peer instance ID and ephemeral pubkey. Pairing proves it as a postcondition (PairingProducesValidRecord); SessionMachine assumes it over its initial state."];
     AdvActions := [
       gadv "MitM_hello"
           "intercept hello and substitute adversary commit (so a later reveal of adv_eph can open it)"
           (joinLines
           ["      await Len(chan_initiator_acceptor) > 0 /\ Head(chan_initiator_acceptor).type = MSG_hello;";
           "      adv_saved_initiator_commit := Head(chan_initiator_acceptor).commit;";
           "      adversary_keys := adversary_keys \union {adv_eph_pub};";
           "      chan_initiator_acceptor := <<[type |-> MSG_hello, commit |-> adv_commit, identity_pub |-> Head(chan_initiator_acceptor).identity_pub, instance_id |-> Head(chan_initiator_acceptor).instance_id]>> \o Tail(chan_initiator_acceptor);"]);
       gadv "MitM_welcome" "intercept welcome and substitute adversary ephemeral pubkey" (joinLines
           ["      await Len(chan_acceptor_initiator) > 0 /\ Head(chan_acceptor_initiator).type = MSG_welcome;";
           "      adv_saved_acceptor_eph := Head(chan_acceptor_initiator).eph_pub;";
           "      adversary_keys := adversary_keys \union {adv_eph_pub};";
           "      chan_acceptor_initiator := <<[type |-> MSG_welcome, eph_pub |-> adv_eph_pub, identity_pub |-> Head(chan_acceptor_initiator).identity_pub, instance_id |-> Head(chan_acceptor_initiator).instance_id]>> \o Tail(chan_acceptor_initiator);"]);
       gadv "MitM_reveal"
           "intercept reveal and substitute adversary eph (fails CommitMatches unless hello was also MitM'd with adv_commit)"
           (joinLines
           ["      await Len(chan_initiator_acceptor) > 0 /\ Head(chan_initiator_acceptor).type = MSG_reveal;";
           "      adv_saved_initiator_eph := Head(chan_initiator_acceptor).eph_pub;";
           "      adversary_keys := adversary_keys \union {adv_eph_pub};"; q
           "      chan_initiator_acceptor := <<[type |-> MSG_reveal, eph_pub |-> adv_eph_pub, blind |-> 'adv_blind']>> \o Tail(chan_initiator_acceptor);"])];
     AdvGuard := EmptyString; Phases := []; WireConsts := []; Constants := [];
     Properties := [
       gprop "MitMDetectedByCodeMismatch" Invariant (q
           "(adv_eph_pub \in adversary_keys /\ acceptor_code /= <<'none'>> /\ initiator_code /= <<'none'>>) => acceptor_code /= initiator_code")
           "If the adversary has injected its ephemeral pubkey AND both sides have computed codes, the codes differ — so the human comparison would catch the MitM.";
       gprop "MitMPreventsPairing" Invariant
           "(adv_eph_pub \in adversary_keys /\ acceptor_code /= initiator_code) => (acceptor_state /= acceptor_Paired \/ initiator_state /= initiator_Paired)"
           "When codes differ (MitM detected), at least one side never reaches Paired (because the human cancels).";
       gprop "HonestPairingMatchesCodes" Invariant (q
           "(adversary_keys = {} /\ acceptor_code /= <<'none'>> /\ initiator_code /= <<'none'>>) => acceptor_code = initiator_code")
           "Without adversary interference, both sides derive the same 6-digit code.";
       gprop "HonestPairingCompletes" Liveness
           "acceptor_state = acceptor_Paired /\ initiator_state = initiator_Paired"
           "Without adversary interference and with both users pressing y, both sides eventually reach Paired.";
       gprop "PairingProducesValidRecord" Invariant
           "(acceptor_state = acceptor_Paired => ValidPairingRecord([peer_instance_id |-> acceptor_received_instance, peer_eph_pub |-> acceptor_received_eph_pub])) /\ (initiator_state = initiator_Paired => ValidPairingRecord([peer_instance_id |-> initiator_received_instance, peer_eph_pub |-> initiator_received_eph_pub]))"
           "Postcondition: whenever either side reaches Paired, the implicit PairingRecord built from received-peer fields satisfies the ValidPairingRecord interface contract that SessionMachine assumes.";
       gprop "CodeRequiresCommit" Invariant (q "acceptor_code /= <<'none'>> => acceptor_commit_ok = 'true'")
           "Acceptor never derives a SAS code unless the reveal opened the hello commit — commitment binding (anti-grind).";
       gprop "RevealBoundByCommit" Invariant (q
           "(acceptor_received_eph_pub /= 'none' /\ acceptor_commit_ok = 'true') => CommitMatches(acceptor_received_commit, acceptor_received_eph_pub)")
           "When commit verification succeeded, the revealed eph is exactly the one bound by the earlier hello commit; the acceptor cannot have been shown a ground key after the fact."];
     ChannelBound := 3;
     OneShot := true |}.

(** ** The constants *)

Definition PairingCeremonyProtocol_acceptor_states : list GoConst :=
  [
    ("PairingCeremonyProtocolAcceptorIdle", "Idle");
    ("PairingCeremonyProtocolAcceptorGeneratingEphemeral", "GeneratingEphemeral");
    ("PairingCeremonyProtocolAcceptorRegisteringRelay", "RegisteringRelay");
    ("PairingCeremonyProtocolAcceptorWaitingForHello", "WaitingForHello");
    ("PairingCeremonyProtocolAcceptorWaitingForReveal", "WaitingForReveal");
    ("PairingCeremonyProtocolAcceptorDerivingCode", "DerivingCode");
    ("PairingCeremonyProtocolAcceptorAwaitingUserConfirm", "AwaitingUserConfirm");
    ("PairingCeremonyProtocolAcceptorAwaitingPeerConfirm", "AwaitingPeerConfirm");
    ("PairingCeremonyProtocolAcceptorPaired", "Paired");
    ("PairingCeremonyProtocolAcceptorAborted", "Aborted")].
Definition PairingCeremonyProtocol_initiator_states : list GoConst :=
  [
    ("PairingCeremonyProtocolInitiatorIdle", "Idle");
    ("PairingCeremonyProtocolInitiatorDecodingToken", "DecodingToken");
    ("PairingCeremonyProtocolInitiatorGeneratingEphemeral", "GeneratingEphemeral");
    ("PairingCeremonyProtocolInitiatorConnectingRelay", "ConnectingRelay");
    ("PairingCeremonyProtocolInitiatorAwaitingWelcome", "AwaitingWelcome");
    ("PairingCeremonyProtocolInitiatorRevealing", "Revealing");
    ("PairingCeremonyProtocolInitiatorDerivingCode", "DerivingCode");
    ("PairingCeremonyProtocolInitiatorAwaitingUserConfirm", "AwaitingUserConfirm");
    ("PairingCeremonyProtocolInitiatorAwaitingPeerConfirm", "AwaitingPeerConfirm");
    ("PairingCeremonyProtocolInitiatorPaired", "Paired");
    ("PairingCeremonyProtocolInitiatorAborted", "Aborted")].
Definition PairingCeremonyProtocol_message_types : list GoConst :=
  [
    ("PairingCeremonyProtocolMsgHello", "hello");
    ("PairingCeremonyProtocolMsgWelcome", "welcome");
    ("PairingCeremonyProtocolMsgReveal", "reveal");
    ("PairingCeremonyProtocolMsgConfirmToInitiator", "confirm_to_initiator");
    ("PairingCeremonyProtocolMsgConfirmToAcceptor", "confirm_to_acceptor")].
Definition PairingCeremonyProtocol_actions : list GoConst :=
  [
    ("PairingCeremonyProtocolActionDecodeToken", "decode_token");
    ("PairingCeremonyProtocolActionDeriveCode", "derive_code");
    ("PairingCeremonyProtocolActionDialRelay", "dial_relay");
    ("PairingCeremonyProtocolActionEmitToken", "emit_token");
    ("PairingCeremonyProtocolActionGenEphemeral", "gen_ephemeral");
    ("PairingCeremonyProtocolActionRegisterRelay", "register_relay");
    ("PairingCeremonyProtocolActionSendReveal", "send_reveal");
    ("PairingCeremonyProtocolActionStoreCommit", "store_commit");
    ("PairingCeremonyProtocolActionStoreRecord", "store_record");
    ("PairingCeremonyProtocolActionVerifyCommitAndDerive", "verify_commit_and_derive")].
Definition PairingCeremonyProtocol_events : list GoConst :=
  [
    ("PairingCeremonyProtocolEventCodeReady", "code_ready");
    ("PairingCeremonyProtocolEventCommitFail", "commit_fail");
    ("PairingCeremonyProtocolEventEphemeralReady", "ephemeral_ready");
    ("PairingCeremonyProtocolEventPairBegin", "pair_begin");
    ("PairingCeremonyProtocolEventRecvConfirmToAcceptor", "recv_confirm_to_acceptor");
    ("PairingCeremonyProtocolEventRecvConfirmToInitiator", "recv_confirm_to_initiator");
    ("PairingCeremonyProtocolEventRecvHello", "recv_hello");
    ("PairingCeremonyProtocolEventRecvReveal", "recv_reveal");
    ("PairingCeremonyProtocolEventRecvWelcome", "recv_welcome");
    ("PairingCeremonyProtocolEventRelayConnected", "relay_connected");
    ("PairingCeremonyProtocolEventRelayRegistered", "relay_registered");
    ("PairingCeremonyProtocolEventRevealSent", "reveal_sent");
    ("PairingCeremonyProtocolEventTokenDecoded", "token_decoded");
    ("PairingCeremonyProtocolEventTokenReceived", "token_received");
    ("PairingCeremonyProtocolEventUserCancel", "user_cancel");
    ("PairingCeremonyProtocolEventUserConfirm", "user_confirm")].

Definition PairingCeremonyProtocol_consts : list GoConst :=
  PairingCeremonyProtocol_acceptor_states ++ PairingCeremonyProtocol_initiator_states ++
      PairingCeremonyProtocol_message_types ++ PairingCeremonyProtocol_actions ++
      PairingCeremonyProtocol_events.

(** ** Wire constants and structs *)

Definition PairingCeremonyProtocol_wire_constants : list GoWireConst :=
  [].
Definition PairingCeremonyProtocol_structs : list (string * list (string * string)) :=
  [].

(** ** The machines *)

Module PairingCeremonyProtocolAcceptorMachine.

Record PairingCeremonyProtocolAcceptorMachine := {
  AcceptorEphPub : string;
  AcceptorReceivedCommit : string;
  AcceptorReceivedEphPub : string;
  AcceptorReceivedIdentity : string;
  AcceptorReceivedInstance : string;
  AcceptorCommitOk : string;
  AcceptorCode : string;
  AcceptorUserConfirmed : string;
  AcceptorReceivedConfirm : string
}.

Definition set_AcceptorEphPub (x : string) (m : PairingCeremonyProtocolAcceptorMachine) :
    PairingCeremonyProtocolAcceptorMachine :=
  {| AcceptorEphPub := x; AcceptorReceivedCommit := AcceptorReceivedCommit m; AcceptorReceivedEphPub :=
      AcceptorReceivedEphPub m; AcceptorReceivedIdentity := AcceptorReceivedIdentity m; AcceptorReceivedInstance
      := AcceptorReceivedInstance m; AcceptorCommitOk := AcceptorCommitOk m; AcceptorCode := AcceptorCode m;
      AcceptorUserConfirmed := AcceptorUserConfirmed m; AcceptorReceivedConfirm := AcceptorReceivedConfirm m |}.
Definition set_AcceptorReceivedCommit (x : string) (m : PairingCeremonyProtocolAcceptorMachine) :
    PairingCeremonyProtocolAcceptorMachine :=
  {| AcceptorEphPub := AcceptorEphPub m; AcceptorReceivedCommit := x; AcceptorReceivedEphPub :=
      AcceptorReceivedEphPub m; AcceptorReceivedIdentity := AcceptorReceivedIdentity m; AcceptorReceivedInstance
      := AcceptorReceivedInstance m; AcceptorCommitOk := AcceptorCommitOk m; AcceptorCode := AcceptorCode m;
      AcceptorUserConfirmed := AcceptorUserConfirmed m; AcceptorReceivedConfirm := AcceptorReceivedConfirm m |}.
Definition set_AcceptorReceivedEphPub (x : string) (m : PairingCeremonyProtocolAcceptorMachine) :
    PairingCeremonyProtocolAcceptorMachine :=
  {| AcceptorEphPub := AcceptorEphPub m; AcceptorReceivedCommit := AcceptorReceivedCommit m;
      AcceptorReceivedEphPub := x; AcceptorReceivedIdentity := AcceptorReceivedIdentity m;
      AcceptorReceivedInstance := AcceptorReceivedInstance m; AcceptorCommitOk := AcceptorCommitOk m;
      AcceptorCode := AcceptorCode m; AcceptorUserConfirmed := AcceptorUserConfirmed m; AcceptorReceivedConfirm
      := AcceptorReceivedConfirm m |}.
Definition set_AcceptorReceivedIdentity (x : string) (m : PairingCeremonyProtocolAcceptorMachine) :
    PairingCeremonyProtocolAcceptorMachine :=
  {| AcceptorEphPub := AcceptorEphPub m; AcceptorReceivedCommit := AcceptorReceivedCommit m;
      AcceptorReceivedEphPub := AcceptorReceivedEphPub m; AcceptorReceivedIdentity := x;
      AcceptorReceivedInstance := AcceptorReceivedInstance m; AcceptorCommitOk := AcceptorCommitOk m;
      AcceptorCode := AcceptorCode m; AcceptorUserConfirmed := AcceptorUserConfirmed m; AcceptorReceivedConfirm
      := AcceptorReceivedConfirm m |}.
Definition set_AcceptorReceivedInstance (x : string) (m : PairingCeremonyProtocolAcceptorMachine) :
    PairingCeremonyProtocolAcceptorMachine :=
  {| AcceptorEphPub := AcceptorEphPub m; AcceptorReceivedCommit := AcceptorReceivedCommit m;
      AcceptorReceivedEphPub := AcceptorReceivedEphPub m; AcceptorReceivedIdentity := AcceptorReceivedIdentity
      m; AcceptorReceivedInstance := x; AcceptorCommitOk := AcceptorCommitOk m; AcceptorCode := AcceptorCode m;
      AcceptorUserConfirmed := AcceptorUserConfirmed m; AcceptorReceivedConfirm := AcceptorReceivedConfirm m |}.
Definition set_AcceptorCommitOk (x : string) (m : PairingCeremonyProtocolAcceptorMachine) :
    PairingCeremonyProtocolAcceptorMachine :=
  {| AcceptorEphPub := AcceptorEphPub m; AcceptorReceivedCommit := AcceptorReceivedCommit m;
      AcceptorReceivedEphPub := AcceptorReceivedEphPub m; AcceptorReceivedIdentity := AcceptorReceivedIdentity
      m; AcceptorReceivedInstance := AcceptorReceivedInstance m; AcceptorCommitOk := x; AcceptorCode :=
      AcceptorCode m; AcceptorUserConfirmed := AcceptorUserConfirmed m; AcceptorReceivedConfirm :=
      AcceptorReceivedConfirm m |}.
Definition set_AcceptorCode (x : string) (m : PairingCeremonyProtocolAcceptorMachine) :
    PairingCeremonyProtocolAcceptorMachine :=
  {| AcceptorEphPub := AcceptorEphPub m; AcceptorReceivedCommit := AcceptorReceivedCommit m;
      AcceptorReceivedEphPub := AcceptorReceivedEphPub m; AcceptorReceivedIdentity := AcceptorReceivedIdentity
      m; AcceptorReceivedInstance := AcceptorReceivedInstance m; AcceptorCommitOk := AcceptorCommitOk m;
      AcceptorCode := x; AcceptorUserConfirmed := AcceptorUserConfirmed m; AcceptorReceivedConfirm :=
      AcceptorReceivedConfirm m |}.
Definition set_AcceptorUserConfirmed (x : string) (m : PairingCeremonyProtocolAcceptorMachine) :
    PairingCeremonyProtocolAcceptorMachine :=
  {| AcceptorEphPub := AcceptorEphPub m; AcceptorReceivedCommit := AcceptorReceivedCommit m;
      AcceptorReceivedEphPub := AcceptorReceivedEphPub m; AcceptorReceivedIdentity := AcceptorReceivedIdentity
      m; AcceptorReceivedInstance := AcceptorReceivedInstance m; AcceptorCommitOk := AcceptorCommitOk m;
      AcceptorCode := AcceptorCode m; AcceptorUserConfirmed := x; AcceptorReceivedConfirm :=
      AcceptorReceivedConfirm m |}.
Definition set_AcceptorReceivedConfirm (x : string) (m : PairingCeremonyProtocolAcceptorMachine) :
    PairingCeremonyProtocolAcceptorMachine :=
  {| AcceptorEphPub := AcceptorEphPub m; AcceptorReceivedCommit := AcceptorReceivedCommit m;
      AcceptorReceivedEphPub := AcceptorReceivedEphPub m; AcceptorReceivedIdentity := AcceptorReceivedIdentity
      m; AcceptorReceivedInstance := AcceptorReceivedInstance m; AcceptorCommitOk := AcceptorCommitOk m;
      AcceptorCode := AcceptorCode m; AcceptorUserConfirmed := AcceptorUserConfirmed m; AcceptorReceivedConfirm
      := x |}.

Definition fields : list (string * fieldOps PairingCeremonyProtocolAcceptorMachine) :=
  [("AcceptorEphPub", FString AcceptorEphPub set_AcceptorEphPub);
   ("AcceptorReceivedCommit", FString AcceptorReceivedCommit set_AcceptorReceivedCommit);
   ("AcceptorReceivedEphPub", FString AcceptorReceivedEphPub set_AcceptorReceivedEphPub);
   ("AcceptorReceivedIdentity", FString AcceptorReceivedIdentity set_AcceptorReceivedIdentity);
   ("AcceptorReceivedInstance", FString AcceptorReceivedInstance set_AcceptorReceivedInstance);
   ("AcceptorCommitOk", FString AcceptorCommitOk set_AcceptorCommitOk);
   ("AcceptorCode", FString AcceptorCode set_AcceptorCode);
   ("AcceptorUserConfirmed", FString AcceptorUserConfirmed set_AcceptorUserConfirmed);
   ("AcceptorReceivedConfirm", FString AcceptorReceivedConfirm set_AcceptorReceivedConfirm)].
#[export] Instance vars : GoVars PairingCeremonyProtocolAcceptorMachine := goFields fields.
Definition zero : PairingCeremonyProtocolAcceptorMachine := {| AcceptorEphPub := EmptyString;
    AcceptorReceivedCommit := EmptyString; AcceptorReceivedEphPub := EmptyString; AcceptorReceivedIdentity :=
    EmptyString; AcceptorReceivedInstance := EmptyString; AcceptorCommitOk := EmptyString; AcceptorCode :=
    EmptyString; AcceptorUserConfirmed := EmptyString; AcceptorReceivedConfirm := EmptyString |}.

(** [NewPairingCeremonyProtocolAcceptorMachine]: the initial state and variables. *)
Definition NewPairingCeremonyProtocolAcceptorMachine : State * PairingCeremonyProtocolAcceptorMachine :=
  ("Idle", {| AcceptorEphPub := "none"; AcceptorReceivedCommit := "none"; AcceptorReceivedEphPub := "none";
      AcceptorReceivedIdentity := "none"; AcceptorReceivedInstance := "none"; AcceptorCommitOk := "false";
      AcceptorCode := EmptyString; AcceptorUserConfirmed := "false"; AcceptorReceivedConfirm := "false" |}).

Definition PairingCeremonyProtocolAcceptorMachine_HandleMessage_cases : list (Case bool) := [
  case_ "WaitingForHello" "hello" None
    [Act "store_commit"; Goto "WaitingForReveal"] true;
  case_ "WaitingForReveal" "reveal" None
    [Act "verify_commit_and_derive"; Goto "DerivingCode"] true;
  case_ "AwaitingPeerConfirm" "confirm_to_acceptor" None
    [Act "store_record"; Set_ "AcceptorReceivedConfirm" (VStr "true"); Changed "acceptor_received_confirm"; Goto
        "Paired"] true].
Definition PairingCeremonyProtocolAcceptorMachine_HandleMessage {H} : Callbacks
    PairingCeremonyProtocolAcceptorMachine H -> string -> World PairingCeremonyProtocolAcceptorMachine H ->
    World PairingCeremonyProtocolAcceptorMachine H * bool * option error :=
  switch false PairingCeremonyProtocolAcceptorMachine_HandleMessage_cases.

Definition PairingCeremonyProtocolAcceptorMachine_Step_cases : list (Case bool) := [
  case_ "Idle" "pair_begin" None
    [Act "gen_ephemeral"; Set_ "AcceptorEphPub" (VStr "acceptor_eph"); Changed "acceptor_eph_pub"; Goto
        "GeneratingEphemeral"] true;
  case_ "GeneratingEphemeral" "ephemeral_ready" None
    [Act "register_relay"; Goto "RegisteringRelay"] true;
  case_ "RegisteringRelay" "relay_registered" None
    [Act "emit_token"; Goto "WaitingForHello"] true;
  case_ "DerivingCode" "code_ready" None
    [Goto "AwaitingUserConfirm"] true;
  case_ "AwaitingUserConfirm" "user_confirm" None
    [Set_ "AcceptorUserConfirmed" (VStr "true"); Changed "acceptor_user_confirmed"; Goto "AwaitingPeerConfirm"]
        true;
  case_ "AwaitingUserConfirm" "user_cancel" None
    [Goto "Aborted"] true;
  case_ "AwaitingPeerConfirm" "user_cancel" None
    [Goto "Aborted"] true;
  case_ "WaitingForReveal" "commit_fail" None
    [Goto "Aborted"] true].
Definition PairingCeremonyProtocolAcceptorMachine_Step {H} : Callbacks PairingCeremonyProtocolAcceptorMachine H
    -> string -> World PairingCeremonyProtocolAcceptorMachine H -> World PairingCeremonyProtocolAcceptorMachine
    H * bool * option error :=
  switch false PairingCeremonyProtocolAcceptorMachine_Step_cases.

Definition PairingCeremonyProtocolAcceptorMachine_HandleEvent_cases : list (Case (list CmdID)) := [
  case_ "Idle" "pair_begin" None
    [Act "gen_ephemeral"; Set_ "AcceptorEphPub" (VStr "acceptor_eph"); Changed "acceptor_eph_pub"; Goto
        "GeneratingEphemeral"] [];
  case_ "GeneratingEphemeral" "ephemeral_ready" None
    [Act "register_relay"; Goto "RegisteringRelay"] [];
  case_ "RegisteringRelay" "relay_registered" None
    [Act "emit_token"; Goto "WaitingForHello"] [];
  case_ "WaitingForHello" "recv_hello" None
    [Act "store_commit"; Goto "WaitingForReveal"] [];
  case_ "WaitingForReveal" "recv_reveal" None
    [Act "verify_commit_and_derive"; Goto "DerivingCode"] [];
  case_ "DerivingCode" "code_ready" None
    [Goto "AwaitingUserConfirm"] [];
  case_ "AwaitingUserConfirm" "user_confirm" None
    [Set_ "AcceptorUserConfirmed" (VStr "true"); Changed "acceptor_user_confirmed"; Goto "AwaitingPeerConfirm"]
        [];
  case_ "AwaitingPeerConfirm" "recv_confirm_to_acceptor" None
    [Act "store_record"; Set_ "AcceptorReceivedConfirm" (VStr "true"); Changed "acceptor_received_confirm"; Goto
        "Paired"] [];
  case_ "AwaitingUserConfirm" "user_cancel" None
    [Goto "Aborted"] [];
  case_ "AwaitingPeerConfirm" "user_cancel" None
    [Goto "Aborted"] [];
  case_ "WaitingForReveal" "commit_fail" None
    [Goto "Aborted"] []].
Definition PairingCeremonyProtocolAcceptorMachine_HandleEvent {H} : Callbacks
    PairingCeremonyProtocolAcceptorMachine H -> string -> World PairingCeremonyProtocolAcceptorMachine H ->
    World PairingCeremonyProtocolAcceptorMachine H * list CmdID * option error :=
  switch [] PairingCeremonyProtocolAcceptorMachine_HandleEvent_cases.

End PairingCeremonyProtocolAcceptorMachine.

Module PairingCeremonyProtocolInitiatorMachine.

Record PairingCeremonyProtocolInitiatorMachine := {
  InitiatorEphPub : string;
  InitiatorCommit : string;
  ReceivedAcceptorEphPub : string;
  ReceivedAcceptorIdentity : string;
  ReceivedAcceptorInstance : string;
  InitiatorReceivedEphPub : string;
  InitiatorReceivedIdentity : string;
  InitiatorReceivedInstance : string;
  InitiatorCode : string;
  InitiatorUserConfirmed : string;
  InitiatorReceivedConfirm : string
}.

Definition set_InitiatorEphPub (x : string) (m : PairingCeremonyProtocolInitiatorMachine) :
    PairingCeremonyProtocolInitiatorMachine :=
  {| InitiatorEphPub := x; InitiatorCommit := InitiatorCommit m; ReceivedAcceptorEphPub :=
      ReceivedAcceptorEphPub m; ReceivedAcceptorIdentity := ReceivedAcceptorIdentity m; ReceivedAcceptorInstance
      := ReceivedAcceptorInstance m; InitiatorReceivedEphPub := InitiatorReceivedEphPub m;
      InitiatorReceivedIdentity := InitiatorReceivedIdentity m; InitiatorReceivedInstance :=
      InitiatorReceivedInstance m; InitiatorCode := InitiatorCode m; InitiatorUserConfirmed :=
      InitiatorUserConfirmed m; InitiatorReceivedConfirm := InitiatorReceivedConfirm m |}.
Definition set_InitiatorCommit (x : string) (m : PairingCeremonyProtocolInitiatorMachine) :
    PairingCeremonyProtocolInitiatorMachine :=
  {| InitiatorEphPub := InitiatorEphPub m; InitiatorCommit := x; ReceivedAcceptorEphPub :=
      ReceivedAcceptorEphPub m; ReceivedAcceptorIdentity := ReceivedAcceptorIdentity m; ReceivedAcceptorInstance
      := ReceivedAcceptorInstance m; InitiatorReceivedEphPub := InitiatorReceivedEphPub m;
      InitiatorReceivedIdentity := InitiatorReceivedIdentity m; InitiatorReceivedInstance :=
      InitiatorReceivedInstance m; InitiatorCode := InitiatorCode m; InitiatorUserConfirmed :=
      InitiatorUserConfirmed m; InitiatorReceivedConfirm := InitiatorReceivedConfirm m |}.
Definition set_ReceivedAcceptorEphPub (x : string) (m : PairingCeremonyProtocolInitiatorMachine) :
    PairingCeremonyProtocolInitiatorMachine :=
  {| InitiatorEphPub := InitiatorEphPub m; InitiatorCommit := InitiatorCommit m; ReceivedAcceptorEphPub := x;
      ReceivedAcceptorIdentity := ReceivedAcceptorIdentity m; ReceivedAcceptorInstance :=
      ReceivedAcceptorInstance m; InitiatorReceivedEphPub := InitiatorReceivedEphPub m;
      InitiatorReceivedIdentity := InitiatorReceivedIdentity m; InitiatorReceivedInstance :=
      InitiatorReceivedInstance m; InitiatorCode := InitiatorCode m; InitiatorUserConfirmed :=
      InitiatorUserConfirmed m; InitiatorReceivedConfirm := InitiatorReceivedConfirm m |}.
Definition set_ReceivedAcceptorIdentity (x : string) (m : PairingCeremonyProtocolInitiatorMachine) :
    PairingCeremonyProtocolInitiatorMachine :=
  {| InitiatorEphPub := InitiatorEphPub m; InitiatorCommit := InitiatorCommit m; ReceivedAcceptorEphPub :=
      ReceivedAcceptorEphPub m; ReceivedAcceptorIdentity := x; ReceivedAcceptorInstance :=
      ReceivedAcceptorInstance m; InitiatorReceivedEphPub := InitiatorReceivedEphPub m;
      InitiatorReceivedIdentity := InitiatorReceivedIdentity m; InitiatorReceivedInstance :=
      InitiatorReceivedInstance m; InitiatorCode := InitiatorCode m; InitiatorUserConfirmed :=
      InitiatorUserConfirmed m; InitiatorReceivedConfirm := InitiatorReceivedConfirm m |}.
Definition set_ReceivedAcceptorInstance (x : string) (m : PairingCeremonyProtocolInitiatorMachine) :
    PairingCeremonyProtocolInitiatorMachine :=
  {| InitiatorEphPub := InitiatorEphPub m; InitiatorCommit := InitiatorCommit m; ReceivedAcceptorEphPub :=
      ReceivedAcceptorEphPub m; ReceivedAcceptorIdentity := ReceivedAcceptorIdentity m; ReceivedAcceptorInstance
      := x; InitiatorReceivedEphPub := InitiatorReceivedEphPub m; InitiatorReceivedIdentity :=
      InitiatorReceivedIdentity m; InitiatorReceivedInstance := InitiatorReceivedInstance m; InitiatorCode :=
      InitiatorCode m; InitiatorUserConfirmed := InitiatorUserConfirmed m; InitiatorReceivedConfirm :=
      InitiatorReceivedConfirm m |}.
Definition set_InitiatorReceivedEphPub (x : string) (m : PairingCeremonyProtocolInitiatorMachine) :
    PairingCeremonyProtocolInitiatorMachine :=
  {| InitiatorEphPub := InitiatorEphPub m; InitiatorCommit := InitiatorCommit m; ReceivedAcceptorEphPub :=
      ReceivedAcceptorEphPub m; ReceivedAcceptorIdentity := ReceivedAcceptorIdentity m; ReceivedAcceptorInstance
      := ReceivedAcceptorInstance m; InitiatorReceivedEphPub := x; InitiatorReceivedIdentity :=
      InitiatorReceivedIdentity m; InitiatorReceivedInstance := InitiatorReceivedInstance m; InitiatorCode :=
      InitiatorCode m; InitiatorUserConfirmed := InitiatorUserConfirmed m; InitiatorReceivedConfirm :=
      InitiatorReceivedConfirm m |}.
Definition set_InitiatorReceivedIdentity (x : string) (m : PairingCeremonyProtocolInitiatorMachine) :
    PairingCeremonyProtocolInitiatorMachine :=
  {| InitiatorEphPub := InitiatorEphPub m; InitiatorCommit := InitiatorCommit m; ReceivedAcceptorEphPub :=
      ReceivedAcceptorEphPub m; ReceivedAcceptorIdentity := ReceivedAcceptorIdentity m; ReceivedAcceptorInstance
      := ReceivedAcceptorInstance m; InitiatorReceivedEphPub := InitiatorReceivedEphPub m;
      InitiatorReceivedIdentity := x; InitiatorReceivedInstance := InitiatorReceivedInstance m; InitiatorCode :=
      InitiatorCode m; InitiatorUserConfirmed := InitiatorUserConfirmed m; InitiatorReceivedConfirm :=
      InitiatorReceivedConfirm m |}.
Definition set_InitiatorReceivedInstance (x : string) (m : PairingCeremonyProtocolInitiatorMachine) :
    PairingCeremonyProtocolInitiatorMachine :=
  {| InitiatorEphPub := InitiatorEphPub m; InitiatorCommit := InitiatorCommit m; ReceivedAcceptorEphPub :=
      ReceivedAcceptorEphPub m; ReceivedAcceptorIdentity := ReceivedAcceptorIdentity m; ReceivedAcceptorInstance
      := ReceivedAcceptorInstance m; InitiatorReceivedEphPub := InitiatorReceivedEphPub m;
      InitiatorReceivedIdentity := InitiatorReceivedIdentity m; InitiatorReceivedInstance := x; InitiatorCode :=
      InitiatorCode m; InitiatorUserConfirmed := InitiatorUserConfirmed m; InitiatorReceivedConfirm :=
      InitiatorReceivedConfirm m |}.
Definition set_InitiatorCode (x : string) (m : PairingCeremonyProtocolInitiatorMachine) :
    PairingCeremonyProtocolInitiatorMachine :=
  {| InitiatorEphPub := InitiatorEphPub m; InitiatorCommit := InitiatorCommit m; ReceivedAcceptorEphPub :=
      ReceivedAcceptorEphPub m; ReceivedAcceptorIdentity := ReceivedAcceptorIdentity m; ReceivedAcceptorInstance
      := ReceivedAcceptorInstance m; InitiatorReceivedEphPub := InitiatorReceivedEphPub m;
      InitiatorReceivedIdentity := InitiatorReceivedIdentity m; InitiatorReceivedInstance :=
      InitiatorReceivedInstance m; InitiatorCode := x; InitiatorUserConfirmed := InitiatorUserConfirmed m;
      InitiatorReceivedConfirm := InitiatorReceivedConfirm m |}.
Definition set_InitiatorUserConfirmed (x : string) (m : PairingCeremonyProtocolInitiatorMachine) :
    PairingCeremonyProtocolInitiatorMachine :=
  {| InitiatorEphPub := InitiatorEphPub m; InitiatorCommit := InitiatorCommit m; ReceivedAcceptorEphPub :=
      ReceivedAcceptorEphPub m; ReceivedAcceptorIdentity := ReceivedAcceptorIdentity m; ReceivedAcceptorInstance
      := ReceivedAcceptorInstance m; InitiatorReceivedEphPub := InitiatorReceivedEphPub m;
      InitiatorReceivedIdentity := InitiatorReceivedIdentity m; InitiatorReceivedInstance :=
      InitiatorReceivedInstance m; InitiatorCode := InitiatorCode m; InitiatorUserConfirmed := x;
      InitiatorReceivedConfirm := InitiatorReceivedConfirm m |}.
Definition set_InitiatorReceivedConfirm (x : string) (m : PairingCeremonyProtocolInitiatorMachine) :
    PairingCeremonyProtocolInitiatorMachine :=
  {| InitiatorEphPub := InitiatorEphPub m; InitiatorCommit := InitiatorCommit m; ReceivedAcceptorEphPub :=
      ReceivedAcceptorEphPub m; ReceivedAcceptorIdentity := ReceivedAcceptorIdentity m; ReceivedAcceptorInstance
      := ReceivedAcceptorInstance m; InitiatorReceivedEphPub := InitiatorReceivedEphPub m;
      InitiatorReceivedIdentity := InitiatorReceivedIdentity m; InitiatorReceivedInstance :=
      InitiatorReceivedInstance m; InitiatorCode := InitiatorCode m; InitiatorUserConfirmed :=
      InitiatorUserConfirmed m; InitiatorReceivedConfirm := x |}.

Definition fields : list (string * fieldOps PairingCeremonyProtocolInitiatorMachine) :=
  [("InitiatorEphPub", FString InitiatorEphPub set_InitiatorEphPub);
   ("InitiatorCommit", FString InitiatorCommit set_InitiatorCommit);
   ("ReceivedAcceptorEphPub", FString ReceivedAcceptorEphPub set_ReceivedAcceptorEphPub);
   ("ReceivedAcceptorIdentity", FString ReceivedAcceptorIdentity set_ReceivedAcceptorIdentity);
   ("ReceivedAcceptorInstance", FString ReceivedAcceptorInstance set_ReceivedAcceptorInstance);
   ("InitiatorReceivedEphPub", FString InitiatorReceivedEphPub set_InitiatorReceivedEphPub);
   ("InitiatorReceivedIdentity", FString InitiatorReceivedIdentity set_InitiatorReceivedIdentity);
   ("InitiatorReceivedInstance", FString InitiatorReceivedInstance set_InitiatorReceivedInstance);
   ("InitiatorCode", FString InitiatorCode set_InitiatorCode);
   ("InitiatorUserConfirmed", FString InitiatorUserConfirmed set_InitiatorUserConfirmed);
   ("InitiatorReceivedConfirm", FString InitiatorReceivedConfirm set_InitiatorReceivedConfirm)].
#[export] Instance vars : GoVars PairingCeremonyProtocolInitiatorMachine := goFields fields.
Definition zero : PairingCeremonyProtocolInitiatorMachine := {| InitiatorEphPub := EmptyString; InitiatorCommit
    := EmptyString; ReceivedAcceptorEphPub := EmptyString; ReceivedAcceptorIdentity := EmptyString;
    ReceivedAcceptorInstance := EmptyString; InitiatorReceivedEphPub := EmptyString; InitiatorReceivedIdentity
    := EmptyString; InitiatorReceivedInstance := EmptyString; InitiatorCode := EmptyString;
    InitiatorUserConfirmed := EmptyString; InitiatorReceivedConfirm := EmptyString |}.

(** [NewPairingCeremonyProtocolInitiatorMachine]: the initial state and variables. *)
Definition NewPairingCeremonyProtocolInitiatorMachine : State * PairingCeremonyProtocolInitiatorMachine :=
  ("Idle", {| InitiatorEphPub := "none"; InitiatorCommit := "none"; ReceivedAcceptorEphPub := "none";
      ReceivedAcceptorIdentity := "none"; ReceivedAcceptorInstance := "none"; InitiatorReceivedEphPub := "none";
      InitiatorReceivedIdentity := "none"; InitiatorReceivedInstance := "none"; InitiatorCode := EmptyString;
      InitiatorUserConfirmed := "false"; InitiatorReceivedConfirm := "false" |}).

Definition PairingCeremonyProtocolInitiatorMachine_HandleMessage_cases : list (Case bool) := [
  case_ "AwaitingWelcome" "welcome" None
    [Act "send_reveal"; Goto "Revealing"] true;
  case_ "AwaitingPeerConfirm" "confirm_to_initiator" None
    [Act "store_record"; Set_ "InitiatorReceivedConfirm" (VStr "true"); Changed "initiator_received_confirm";
        Goto "Paired"] true].
Definition PairingCeremonyProtocolInitiatorMachine_HandleMessage {H} : Callbacks
    PairingCeremonyProtocolInitiatorMachine H -> string -> World PairingCeremonyProtocolInitiatorMachine H ->
    World PairingCeremonyProtocolInitiatorMachine H * bool * option error :=
  switch false PairingCeremonyProtocolInitiatorMachine_HandleMessage_cases.

Definition PairingCeremonyProtocolInitiatorMachine_Step_cases : list (Case bool) := [
  case_ "Idle" "token_received" None
    [Act "decode_token"; Set_ "ReceivedAcceptorEphPub" (VStr "acceptor_eph"); Changed
        "received_acceptor_eph_pub"; Set_ "ReceivedAcceptorIdentity" (VStr "acceptor_id"); Changed
        "received_acceptor_identity"; Set_ "ReceivedAcceptorInstance" (VStr "acceptor_instance"); Changed
        "received_acceptor_instance"; Goto "DecodingToken"] true;
  case_ "DecodingToken" "token_decoded" None
    [Act "gen_ephemeral"; Set_ "InitiatorEphPub" (VStr "initiator_eph"); Changed "initiator_eph_pub"; Set_
        "InitiatorCommit" (VStr "initiator_commit"); Changed "initiator_commit"; Goto "GeneratingEphemeral"]
        true;
  case_ "GeneratingEphemeral" "ephemeral_ready" None
    [Act "dial_relay"; Goto "ConnectingRelay"] true;
  case_ "ConnectingRelay" "relay_connected" None
    [Goto "AwaitingWelcome"] true;
  case_ "Revealing" "reveal_sent" None
    [Act "derive_code"; Goto "DerivingCode"] true;
  case_ "DerivingCode" "code_ready" None
    [Goto "AwaitingUserConfirm"] true;
  case_ "AwaitingUserConfirm" "user_confirm" None
    [Set_ "InitiatorUserConfirmed" (VStr "true"); Changed "initiator_user_confirmed"; Goto
        "AwaitingPeerConfirm"] true;
  case_ "AwaitingUserConfirm" "user_cancel" None
    [Goto "Aborted"] true;
  case_ "AwaitingPeerConfirm" "user_cancel" None
    [Goto "Aborted"] true].
Definition PairingCeremonyProtocolInitiatorMachine_Step {H} : Callbacks PairingCeremonyProtocolInitiatorMachine
    H -> string -> World PairingCeremonyProtocolInitiatorMachine H -> World
    PairingCeremonyProtocolInitiatorMachine H * bool * option error :=
  switch false PairingCeremonyProtocolInitiatorMachine_Step_cases.

Definition PairingCeremonyProtocolInitiatorMachine_HandleEvent_cases : list (Case (list CmdID)) := [
  case_ "Idle" "token_received" None
    [Act "decode_token"; Set_ "ReceivedAcceptorEphPub" (VStr "acceptor_eph"); Changed
        "received_acceptor_eph_pub"; Set_ "ReceivedAcceptorIdentity" (VStr "acceptor_id"); Changed
        "received_acceptor_identity"; Set_ "ReceivedAcceptorInstance" (VStr "acceptor_instance"); Changed
        "received_acceptor_instance"; Goto "DecodingToken"] [];
  case_ "DecodingToken" "token_decoded" None
    [Act "gen_ephemeral"; Set_ "InitiatorEphPub" (VStr "initiator_eph"); Changed "initiator_eph_pub"; Set_
        "InitiatorCommit" (VStr "initiator_commit"); Changed "initiator_commit"; Goto "GeneratingEphemeral"] [];
  case_ "GeneratingEphemeral" "ephemeral_ready" None
    [Act "dial_relay"; Goto "ConnectingRelay"] [];
  case_ "ConnectingRelay" "relay_connected" None
    [Goto "AwaitingWelcome"] [];
  case_ "AwaitingWelcome" "recv_welcome" None
    [Act "send_reveal"; Goto "Revealing"] [];
  case_ "Revealing" "reveal_sent" None
    [Act "derive_code"; Goto "DerivingCode"] [];
  case_ "DerivingCode" "code_ready" None
    [Goto "AwaitingUserConfirm"] [];
  case_ "AwaitingUserConfirm" "user_confirm" None
    [Set_ "InitiatorUserConfirmed" (VStr "true"); Changed "initiator_user_confirmed"; Goto
        "AwaitingPeerConfirm"] [];
  case_ "AwaitingPeerConfirm" "recv_confirm_to_initiator" None
    [Act "store_record"; Set_ "InitiatorReceivedConfirm" (VStr "true"); Changed "initiator_received_confirm";
        Goto "Paired"] [];
  case_ "AwaitingUserConfirm" "user_cancel" None
    [Goto "Aborted"] [];
  case_ "AwaitingPeerConfirm" "user_cancel" None
    [Goto "Aborted"] []].
Definition PairingCeremonyProtocolInitiatorMachine_HandleEvent {H} : Callbacks
    PairingCeremonyProtocolInitiatorMachine H -> string -> World PairingCeremonyProtocolInitiatorMachine H ->
    World PairingCeremonyProtocolInitiatorMachine H * list CmdID * option error :=
  switch [] PairingCeremonyProtocolInitiatorMachine_HandleEvent_cases.

End PairingCeremonyProtocolInitiatorMachine.

