(* ===== verification/SessionGen.v ===== *)
(** * SessionGen: the session protocol and its generated machines

    The document protocol/session.yaml as the YAML package decodes it, and what
    the generator wrote for it, session_gen.go: the table, the constants and
    the three typed machines. *)

From Stdlib Require Import ZArith Strings.String.
From stdpp Require Import base gmap strings list.
From S2P Require Import Prelude Machine GoGen Yaml.

(** ** The document (protocol/session.yaml) *)

Definition sessionDoc_actors : section (result yamlActor) :=
  Mapping [
    ("backend", Ok {| yaInitial := "Idle";
      yaStates := Mapping [
        ("Connected", Ok {| ynChildren := ["RelayConnected"; "CandidatesAdvertised"; "AltPath"; "RelayBackoff"];
        ynTransitions := [
          ytr EmptyString EmptyString "app_send" EmptyString EmptyString EmptyString [] Absent
              ["write_active_stream"];
          ytr EmptyString EmptyString "relay_stream_data" EmptyString EmptyString EmptyString [] Absent
              ["deliver_recv"];
          ytr EmptyString EmptyString "relay_stream_error" EmptyString EmptyString EmptyString [] Absent
              ["deliver_recv_error"];
          ytr EmptyString EmptyString "app_send_datagram" EmptyString EmptyString EmptyString [] Absent
              ["send_active_datagram"];
          ytr EmptyString EmptyString "relay_datagram" EmptyString EmptyString EmptyString [] Absent
              ["deliver_recv_datagram"]] |});
        ("AltPath", Ok {| ynChildren := ["AltActive"; "AltDegraded"];
        ynTransitions := [
          ytr EmptyString EmptyString "alt_stream_data" EmptyString EmptyString EmptyString [] Absent
              ["deliver_recv"];
          ytr EmptyString EmptyString "alt_datagram" EmptyString EmptyString EmptyString [] Absent
              ["deliver_recv_datagram"]] |})];
      yaTransitions := [
        ytr "Idle" "GenerateToken" "cli_init_pair" EmptyString "generate_token" EmptyString [] (Mapping
            [("current_token", q "'tok_1'"); ("active_tokens", q "active_tokens \union {'tok_1'}")]) [];
        ytr "GenerateToken" "RegisterRelay" "token_created" EmptyString "register_relay" EmptyString [] Absent
            [];
        ytr "RegisterRelay" "WaitingForClient" "relay_registered" EmptyString EmptyString EmptyString []
            (Mapping [("secret_published", "TRUE")]) [];
        ytr "WaitingForClient" "DeriveSecret" "recv pair_hello" "token_valid" "derive_secret" EmptyString []
            (Mapping [("received_client_pub", "recv_msg.pubkey"); ("backend_ecdh_pub", q "'backend_pub'");
            ("backend_shared_key", q "DeriveKey('backend_pub', recv_msg.pubkey)"); ("backend_code", q
            "DeriveCode('backend_pub', recv_msg.pubkey)")]) [];
        ytr "WaitingForClient" "Idle" "recv pair_hello" "token_invalid" EmptyString EmptyString [] Absent [];
        ytr "DeriveSecret" "SendAck" "ecdh_complete" EmptyString EmptyString EmptyString [ysend "client"
            "pair_hello_ack" [("pubkey", "backend_ecdh_pub")]] Absent [];
        ytr "SendAck" "WaitingForCode" "signal_code_display" EmptyString EmptyString EmptyString [ysend "client"
            "pair_confirm" []] Absent [];
        ytr "WaitingForCode" "ValidateCode" "cli_code_entered" EmptyString EmptyString EmptyString [] (Mapping
            [("received_code", "cli_entered_code")]) [];
        ytr "ValidateCode" "StorePaired" "check_code" "code_correct" EmptyString EmptyString [] Absent [];
        ytr "ValidateCode" "Idle" "check_code" "code_wrong" EmptyString EmptyString [] (Mapping
            [("code_attempts", "code_attempts + 1")]) [];
        ytr "StorePaired" "Paired" "finalise" EmptyString "store_device" EmptyString [ysend "client"
            "pair_complete" [("key", "backend_shared_key"); ("secret", q "'dev_secret_1'")]] (Mapping
            [("device_secret", q "'dev_secret_1'"); ("paired_devices", q "paired_devices \union {'device_1'}");
            ("active_tokens", "active_tokens \ {current_token}"); ("used_tokens",
            "used_tokens \union {current_token}")]) [];
        ytr "Paired" "AuthCheck" "recv auth_request" EmptyString EmptyString EmptyString [] (Mapping
            [("received_device_id", "recv_msg.device_id"); ("received_auth_nonce", "recv_msg.nonce")]) [];
        ytr "AuthCheck" "SessionActive" "verify" "device_known" "verify_device" EmptyString [ysend "client"
            "auth_ok" []] (Mapping [("auth_nonces_used", "auth_nonces_used \union {received_auth_nonce}")]) [];
        ytr "AuthCheck" "Idle" "verify" "device_unknown" EmptyString EmptyString [] Absent [];
        ytr "SessionActive" "RelayConnected" "session_established" EmptyString EmptyString EmptyString [] Absent
            [];
        ytr "RelayConnected" "CandidatesAdvertised" "candidates_gathered" EmptyString EmptyString EmptyString
            [ysend "client" "candidates" [("challenge", "local_pair_check_challenge"); ("set",
            "local_candidates")]] Absent ["send_candidates"];
        ytr "CandidatesAdvertised" "AltActive" "recv pair_check" "challenge_valid" "activate_lan" EmptyString
            [ysend "client" "pair_check_ack" []] (Mapping [("ping_failures", "0"); ("backoff_level", "0");
            ("b_active_path", q "'alt'"); ("b_dispatcher_path", q "'alt'"); ("monitor_target", q "'alt'");
            ("alt_signal", q "'ready'")]) ["send_pair_check_ack"; "start_alt_stream_reader";
            "start_alt_dg_reader"; "start_monitor"; "signal_alt_ready"; "set_crypto_datagram"];
        ytr "CandidatesAdvertised" "RelayConnected" "recv pair_check" "challenge_invalid" EmptyString
            EmptyString [] Absent [];
        ytr "CandidatesAdvertised" "RelayBackoff" "candidates_timeout" EmptyString EmptyString EmptyString []
            (Mapping [("backoff_level", "Min(backoff_level + 1, max_backoff_level)"); ("alt_signal", q
            "'pending'")]) ["reset_alt_ready"; "start_backoff_timer"];
        ytr "AltActive" "AltActive" "ping_tick" EmptyString EmptyString EmptyString [ysend "client" "path_ping"
            []] Absent ["send_path_ping"; "start_pong_timeout"];
        ytr "AltActive" "AltDegraded" "ping_timeout" EmptyString EmptyString EmptyString [] (Mapping
            [("ping_failures", "1")]) [];
        ytr "AltDegraded" "AltDegraded" "ping_tick" EmptyString EmptyString EmptyString [ysend "client"
            "path_ping" []] Absent ["send_path_ping"; "start_pong_timeout"];
        ytr "AltActive" "RelayBackoff" "alt_stream_error" EmptyString "fallback_to_relay" EmptyString []
            (Mapping [("backoff_level", "Min(backoff_level + 1, max_backoff_level)"); ("b_active_path", q
            "'relay'"); ("b_dispatcher_path", q "'relay'"); ("monitor_target", q "'none'"); ("alt_signal", q
            "'pending'"); ("ping_failures", "0")]) ["stop_monitor"; "stop_alt_stream_reader";
            "stop_alt_dg_reader"; "close_alt_path"; "reset_alt_ready"; "start_backoff_timer"];
        ytr "AltDegraded" "RelayBackoff" "alt_stream_error" EmptyString "fallback_to_relay" EmptyString []
            (Mapping [("backoff_level", "Min(backoff_level + 1, max_backoff_level)"); ("b_active_path", q
            "'relay'"); ("b_dispatcher_path", q "'relay'"); ("monitor_target", q "'none'"); ("alt_signal", q
            "'pending'"); ("ping_failures", "0")]) ["stop_monitor"; "stop_alt_stream_reader";
            "stop_alt_dg_reader"; "close_alt_path"; "reset_alt_ready"; "start_backoff_timer"];
        ytr "AltDegraded" "AltActive" "recv path_pong" EmptyString "reset_failures" EmptyString [] (Mapping
            [("ping_failures", "0")]) ["cancel_pong_timeout"];
        ytr "AltDegraded" "AltDegraded" "ping_timeout" "under_max_failures" EmptyString EmptyString [] (Mapping
            [("ping_failures", "ping_failures + 1")]) [];
        ytr "AltDegraded" "RelayBackoff" "ping_timeout" "at_max_failures" "fallback_to_relay" EmptyString []
            (Mapping [("backoff_level", "Min(backoff_level + 1, max_backoff_level)"); ("b_active_path", q
            "'relay'"); ("b_dispatcher_path", q "'relay'"); ("monitor_target", q "'none'"); ("alt_signal", q
            "'pending'"); ("ping_failures", "0")]) ["stop_monitor"; "stop_alt_stream_reader";
            "stop_alt_dg_reader"; "close_alt_path"; "reset_alt_ready"; "start_backoff_timer"];
        ytr "RelayBackoff" "CandidatesAdvertised" "backoff_expired" EmptyString EmptyString "strong" [ysend
            "client" "candidates" [("challenge", "local_pair_check_challenge"); ("set", "local_candidates")]]
            Absent ["send_candidates"];
        ytr "RelayBackoff" "CandidatesAdvertised" "candidates_changed" EmptyString EmptyString EmptyString
            [ysend "client" "candidates" [("challenge", "local_pair_check_challenge"); ("set",
            "local_candidates")]] (Mapping [("backoff_level", "0")]) ["send_candidates"];
        ytr "RelayConnected" "CandidatesAdvertised" "candidates_refresh_tick" "local_candidates_available"
            EmptyString EmptyString [ysend "client" "candidates" [("challenge", "local_pair_check_challenge");
            ("set", "local_candidates")]] Absent ["send_candidates"];
        ytr "CandidatesAdvertised" "RelayConnected" "app_force_fallback" EmptyString EmptyString EmptyString []
            (Mapping [("alt_signal", q "'pending'")]) ["reset_alt_ready"];
        ytr "AltActive" "RelayBackoff" "app_force_fallback" EmptyString "fallback_to_relay" EmptyString []
            (Mapping [("backoff_level", "Min(backoff_level + 1, max_backoff_level)"); ("b_active_path", q
            "'relay'"); ("b_dispatcher_path", q "'relay'"); ("monitor_target", q "'none'"); ("alt_signal", q
            "'pending'"); ("ping_failures", "0")]) ["stop_monitor"; "cancel_pong_timeout";
            "stop_alt_stream_reader"; "stop_alt_dg_reader"; "close_alt_path"; "reset_alt_ready";
            "start_backoff_timer"];
        ytr "AltDegraded" "RelayBackoff" "app_force_fallback" EmptyString "fallback_to_relay" EmptyString []
            (Mapping [("backoff_level", "Min(backoff_level + 1, max_backoff_level)"); ("b_active_path", q
            "'relay'"); ("b_dispatcher_path", q "'relay'"); ("monitor_target", q "'none'"); ("alt_signal", q
            "'pending'"); ("ping_failures", "0")]) ["stop_monitor"; "cancel_pong_timeout";
            "stop_alt_stream_reader"; "stop_alt_dg_reader"; "close_alt_path"; "reset_alt_ready";
            "start_backoff_timer"];
        ytr "RelayConnected" "Paired" "disconnect" EmptyString EmptyString EmptyString [] Absent []];
      yaMachines := Absent; yaRoutes := [] |});
    ("client", Ok {| yaInitial := "Idle";
      yaStates := Mapping [
        ("Connected", Ok {| ynChildren := ["RelayConnected"; "PairDialing"; "PairChecking"; "AltDataPath";
            "RelayFallback"];
        ynTransitions := [
          ytr EmptyString EmptyString "app_send" EmptyString EmptyString EmptyString [] Absent
              ["write_active_stream"];
          ytr EmptyString EmptyString "relay_stream_data" EmptyString EmptyString EmptyString [] Absent
              ["deliver_recv"];
          ytr EmptyString EmptyString "relay_stream_error" EmptyString EmptyString EmptyString [] Absent
              ["deliver_recv_error"];
          ytr EmptyString EmptyString "app_send_datagram" EmptyString EmptyString EmptyString [] Absent
              ["send_active_datagram"];
          ytr EmptyString EmptyString "relay_datagram" EmptyString EmptyString EmptyString [] Absent
              ["deliver_recv_datagram"]] |});
        ("AltDataPath", Ok {| ynChildren := ["AltActive"];
        ynTransitions := [
          ytr EmptyString EmptyString "alt_stream_data" EmptyString EmptyString EmptyString [] Absent
              ["deliver_recv"];
          ytr EmptyString EmptyString "alt_datagram" EmptyString EmptyString EmptyString [] Absent
              ["deliver_recv_datagram"]] |})];
      yaTransitions := [
        ytr "Idle" "ObtainBackchannelSecret" "backchannel_received" EmptyString EmptyString EmptyString []
            Absent [];
        ytr "ObtainBackchannelSecret" "ConnectRelay" "secret_parsed" EmptyString EmptyString EmptyString []
            Absent [];
        ytr "ConnectRelay" "GenKeyPair" "relay_connected" EmptyString EmptyString EmptyString [] Absent [];
        ytr "GenKeyPair" "WaitAck" "key_pair_generated" EmptyString "send_pair_hello" EmptyString [ysend
            "backend" "pair_hello" [("pubkey", q "'client_pub'"); ("token", "current_token")]] Absent [];
        ytr "WaitAck" "E2EReady" "recv pair_hello_ack" EmptyString "derive_secret" EmptyString [] (Mapping
            [("received_backend_pub", "recv_msg.pubkey"); ("client_shared_key", q
            "DeriveKey('client_pub', recv_msg.pubkey)")]) [];
        ytr "E2EReady" "ShowCode" "recv pair_confirm" EmptyString EmptyString EmptyString [] (Mapping
            [("client_code", q "DeriveCode(received_backend_pub, 'client_pub')")]) [];
        ytr "ShowCode" "WaitPairComplete" "code_displayed" EmptyString EmptyString EmptyString [] Absent [];
        ytr "WaitPairComplete" "Paired" "recv pair_complete" EmptyString "store_secret" EmptyString [] Absent
            [];
        ytr "Paired" "Reconnect" "app_launch" EmptyString EmptyString EmptyString [] Absent [];
        ytr "Reconnect" "SendAuth" "relay_connected" EmptyString EmptyString EmptyString [ysend "backend"
            "auth_request" [("device_id", q "'device_1'"); ("key", "client_shared_key"); ("nonce", q
            "'nonce_1'"); ("secret", "device_secret")]] Absent [];
        ytr "SendAuth" "SessionActive" "recv auth_ok" EmptyString EmptyString EmptyString [] Absent [];
        ytr "SessionActive" "RelayConnected" "session_established" EmptyString EmptyString EmptyString [] Absent
            [];
        ytr "RelayConnected" "PairDialing" "recv candidates" "alt_enabled" "dial_candidate" EmptyString []
            Absent ["dial_candidate"];
        ytr "RelayConnected" "RelayConnected" "recv candidates" "alt_disabled" EmptyString EmptyString [] Absent
            [];
        ytr "PairDialing" "PairChecking" "dial_ok" EmptyString EmptyString EmptyString [ysend "backend"
            "pair_check" [("challenge", "received_pair_check_challenge"); ("instance_id", "instance_id")]]
            Absent ["send_pair_check"];
        ytr "PairDialing" "RelayConnected" "dial_failed" EmptyString EmptyString EmptyString [] Absent [];
        ytr "PairChecking" "AltActive" "recv pair_check_ack" EmptyString "activate_lan" EmptyString [] (Mapping
            [("c_active_path", q "'alt'"); ("c_dispatcher_path", q "'alt'"); ("alt_signal", q "'ready'")])
            ["start_alt_stream_reader"; "start_alt_dg_reader"; "signal_alt_ready"; "set_crypto_datagram"];
        ytr "PairChecking" "RelayConnected" "verify_timeout" EmptyString EmptyString EmptyString [] (Mapping
            [("c_dispatcher_path", q "'relay'")]) [];
        ytr "AltActive" "AltActive" "recv path_ping" EmptyString EmptyString EmptyString [ysend "backend"
            "path_pong" []] Absent ["send_path_pong"];
        ytr "AltActive" "RelayFallback" "alt_error" EmptyString "fallback_to_relay" EmptyString [] (Mapping
            [("c_active_path", q "'relay'"); ("c_dispatcher_path", q "'relay'"); ("alt_signal", q "'pending'")])
            ["stop_alt_stream_reader"; "stop_alt_dg_reader"; "close_alt_path"; "reset_alt_ready"];
        ytr "AltActive" "RelayFallback" "alt_stream_error" EmptyString "fallback_to_relay" EmptyString []
            (Mapping [("c_active_path", q "'relay'"); ("c_dispatcher_path", q "'relay'"); ("alt_signal", q
            "'pending'")]) ["stop_alt_stream_reader"; "stop_alt_dg_reader"; "close_alt_path";
            "reset_alt_ready"];
        ytr "RelayFallback" "RelayConnected" "relay_ok" EmptyString EmptyString EmptyString [] Absent [];
        ytr "AltActive" "PairDialing" "recv candidates" "alt_enabled" "dial_candidate" EmptyString [] Absent
            ["stop_alt_stream_reader"; "stop_alt_dg_reader"; "close_alt_path"; "dial_candidate"];
        ytr "PairDialing" "RelayConnected" "app_force_fallback" EmptyString EmptyString EmptyString [] Absent
            [];
        ytr "PairChecking" "RelayConnected" "app_force_fallback" EmptyString EmptyString EmptyString [] (Mapping
            [("c_dispatcher_path", q "'relay'")]) ["stop_alt_stream_reader"; "stop_alt_dg_reader";
            "close_alt_path"];
        ytr "AltActive" "RelayConnected" "app_force_fallback" EmptyString "fallback_to_relay" EmptyString []
            (Mapping [("c_active_path", q "'relay'"); ("c_dispatcher_path", q "'relay'"); ("alt_signal", q
            "'pending'")]) ["stop_alt_stream_reader"; "stop_alt_dg_reader"; "close_alt_path";
            "reset_alt_ready"];
        ytr "RelayConnected" "Paired" "disconnect" EmptyString EmptyString EmptyString [] Absent []];
      yaMachines := Absent; yaRoutes := [] |});
    ("relay", Ok {| yaInitial := "Idle";
      yaStates := Absent;
      yaTransitions := [
        ytr "Idle" "BackendRegistered" "backend_register" EmptyString EmptyString EmptyString [] Absent [];
        ytr "BackendRegistered" "Bridged" "client_connect" EmptyString "bridge_streams" EmptyString [] (Mapping
            [("relay_bridge", q "'active'")]) [];
        ytr "Bridged" "BackendRegistered" "client_disconnect" EmptyString "unbridge" EmptyString [] (Mapping
            [("relay_bridge", q "'idle'")]) [];
        ytr "BackendRegistered" "Idle" "backend_disconnect" EmptyString EmptyString EmptyString [] Absent []];
      yaMachines := Absent; yaRoutes := [] |})].

Definition sessionDoc : yamlProtocol :=
  {| yName := "Session";
     yMessages := Mapping [
       ("pair_hello", Ok (ymsg "client" "backend" "ECDH pubkey + pairing token"));
       ("pair_hello_ack", Ok (ymsg "backend" "client" "ECDH pubkey"));
       ("pair_confirm", Ok (ymsg "backend" "client" "signal to compute and display code"));
       ("pair_complete", Ok (ymsg "backend" "client" "encrypted device secret"));
       ("auth_request", Ok (ymsg "client" "backend" "encrypted auth with nonce"));
       ("auth_ok", Ok (ymsg "backend" "client" "session established"));
       ("candidates", Ok (ymsg "backend" "client"
           "set of local candidates (host, srflx, ...) + a per-candidate pair_check challenge (sent via relay)"));
       ("pair_check", Ok (ymsg "client" "backend"
           "challenge echo + instance ID + pair_id under test (sent on the candidate-pair pipe)"));
       ("pair_check_ack", Ok (ymsg "backend" "client"
           "pair_check accepted; this candidate-pair is nominated as the active path (sent on the candidate-pair pipe)"));
       ("path_ping", Ok (ymsg "backend" "client" "health check on active direct path"));
       ("path_pong", Ok (ymsg "client" "backend" "health check response"))];
     yEvents := Mapping [
       ("app_send", "application wants to send a message");
       ("app_recv", "application wants to receive a message");
       ("app_send_datagram", "application wants to send a datagram");
       ("app_recv_datagram", "application wants to receive a datagram");
       ("app_close", "application wants to close the connection");
       ("app_force_fallback", "application requests immediate fallback to relay");
       ("relay_stream_data", "data received on relay stream");
       ("relay_stream_error", "error reading relay stream");
       ("relay_datagram", "datagram received on relay");
       ("alt_stream_data", "data received on alt-pair stream");
       ("alt_stream_error", "error reading alt-pair stream");
       ("alt_datagram", "datagram received on alt-pair");
       ("dial_ok", "candidate dial succeeded (client has connection resources)");
       ("dial_failed", "candidate dial failed");
       ("pair_check_ok", "pair-check challenge verified (backend has connection resources)");
       ("ping_timeout", "health ping timed out (no pong)");
       ("ping_tick", "health ping timer fired");
       ("backoff_expired", "backoff timer expired");
       ("candidates_timeout", "candidate-pair check timed out with no verification")];
     yCommands := Mapping [
       ("write_active_stream", "write data to the currently active path stream");
       ("send_active_datagram", "send datagram on the currently active path");
       ("send_path_ping", "send health ping on direct path");
       ("send_path_pong", "send health pong on direct path");
       ("send_candidates", "send candidate set via relay control channel");
       ("send_pair_check", "send pair-check challenge on candidate connection");
       ("send_pair_check_ack", "send pair-check ack on candidate connection");
       ("dial_candidate", "initiate connection to candidate address");
       ("deliver_recv", "deliver received data to blocked Recv() caller");
       ("deliver_recv_error", "deliver error to blocked Recv() caller");
       ("deliver_recv_datagram", "deliver received datagram to blocked RecvDatagram() caller");
       ("start_alt_stream_reader", "start goroutine reading from alt-pair stream");
       ("stop_alt_stream_reader", "stop alt-pair stream reader goroutine");
       ("start_alt_dg_reader", "start goroutine reading from alt-pair datagrams");
       ("stop_alt_dg_reader", "stop alt-pair datagram reader goroutine");
       ("start_monitor", "start health ping timer for direct path");
       ("stop_monitor", "stop health ping timer");
       ("start_pong_timeout", "start timer expecting pong reply");
       ("cancel_pong_timeout", "cancel pong reply timer (pong received)");
       ("start_backoff_timer", "start exponential backoff timer");
       ("close_alt_path", "close the alt-pair resources");
       ("signal_alt_ready", "close the AltReady channel (alt-pair active)");
       ("reset_alt_ready", "create a new AltReady channel (alt-pair inactive)");
       ("set_crypto_datagram", "switch crypto channels to datagram mode")];
     yActors := sessionDoc_actors;
     yStructs := Mapping [
       ("ECDHState", Mapping [
         ("backend_pub", Ok (yvar (q "''") "string" "backend ECDH public key"));
         ("client_pub", Ok (yvar (q "''") "string" "pubkey received from client"));
         ("shared_key", Ok (yvar (q "''") "string" "ECDH-derived shared key"));
         ("code", Ok (yvar (q "''") "string" "confirmation code derived from pubkeys"))]);
       ("TokenState", Mapping [
         ("current", Ok (yvar (q "''") "string" "pairing token currently in play"));
         ("active", Ok (yvar "{}" "set<string>" "set of valid (non-revoked) tokens"));
         ("used", Ok (yvar "{}" "set<string>" "set of revoked tokens"))]);
       ("BackendPathState", Mapping [
         ("active_path", Ok (yvar (q "'relay'") "string" "which path carries traffic"));
         ("dispatcher_path", Ok (yvar (q "'relay'") "string" "datagram dispatcher binding"));
         ("monitor_target", Ok (yvar (q "'none'") "string" "health monitor target"));
         ("alt_signal", Ok (yvar (q "'pending'") "string" "AltReady notification state"))]);
       ("ClientPathState", Mapping [
         ("active_path", Ok (yvar (q "'relay'") "string" "which path carries traffic"));
         ("dispatcher_path", Ok (yvar (q "'relay'") "string" "datagram dispatcher binding"))]);
       ("Candidate", Mapping [
         ("kind", Ok (yvar (q "'host'") "string" "candidate kind discriminator: cand_host / cand_srflx / ..."));
         ("addr", Ok (yvar (q "''") "string" "transport address (host:port) the peer should dial"));
         ("priority", Ok (yvar "0" "int"
             "pair-priority used during nomination (higher wins; ICE-style numbering recommended)"));
         ("cand_id", Ok (yvar (q "''") "string"
             "stable per-session identifier; pair IDs are <<local_cand_id, remote_cand_id>>"))])];
     yVars := Mapping [
       ("current_token", Ok (yvar (q "'none'") "string" "pairing token currently in play"));
       ("active_tokens", Ok (yvar "{}" "set<string>" "set of valid (non-revoked) tokens"));
       ("used_tokens", Ok (yvar "{}" "set<string>" "set of revoked tokens"));
       ("backend_ecdh_pub", Ok (yvar (q "'none'") "string" "backend ECDH public key"));
       ("received_client_pub", Ok (yvar (q "'none'") "string" "pubkey backend received in pair_hello"));
       ("received_backend_pub", Ok (yvar (q "'none'") "string" "pubkey client received in pair_hello_ack"));
       ("backend_shared_key", Ok (yvar (q "<<'none'>>") "string" "ECDH key derived by backend"));
       ("client_shared_key", Ok (yvar (q "<<'none'>>") "string" "ECDH key derived by client"));
       ("backend_code", Ok (yvar (q "<<'none'>>") "string" "code computed by backend"));
       ("client_code", Ok (yvar (q "<<'none'>>") "string" "code computed by client"));
       ("received_code", Ok (yvar (q "<<'none'>>") "string" "code entered via CLI"));
       ("cli_entered_code", Ok (yvar (q "<<'none'>>") "string" "staging for CLI code input"));
       ("code_attempts", Ok (yvar "0" "int" "failed code submission attempts"));
       ("device_secret", Ok (yvar (q "'none'") "string" "persistent device secret"));
       ("paired_devices", Ok (yvar "{}" "set<string>" "device IDs that completed pairing"));
       ("received_device_id", Ok (yvar (q "'none'") "string" "device_id from auth_request"));
       ("auth_nonces_used", Ok (yvar "{}" "set<string>" "set of consumed auth nonces"));
       ("received_auth_nonce", Ok (yvar (q "'none'") "string" "nonce from auth_request"));
       ("secret_published", Ok (yvar "FALSE" "bool" "whether token has been published via backchannel"));
       ("recv_msg", Ok (yvar (q "[type |-> 'none']") "string" "last received message (staging)"));
       ("adversary_keys", Ok (yvar "{}" "set<string>" "encryption keys the adversary knows"));
       ("adv_ecdh_pub", Ok (yvar (q "'adv_pub'") "string" "adversary's ECDH public key"));
       ("adv_saved_client_pub", Ok (yvar (q "'none'") "string" "real client pubkey saved during MitM"));
       ("adv_saved_server_pub", Ok (yvar (q "'none'") "string" "real backend pubkey saved during MitM"));
       ("local_pair_check_challenge", Ok (yvar (q "'none'") "string"
           "32-byte random challenge for pair_check exchange"));
       ("received_pair_check_challenge", Ok (yvar (q "'none'") "string"
           "challenge most recently received in pair_check"));
       ("instance_id", Ok (yvar (q "'none'") "string" "relay instance ID"));
       ("ping_failures", Ok (yvar "0" "int" "consecutive failed pings"));
       ("max_ping_failures", Ok (yvar "3" "int" "threshold before fallback"));
       ("backoff_level", Ok (yvar "0" "int" "exponential backoff level"));
       ("max_backoff_level", Ok (yvar "5" "int" "backoff cap"));
       ("local_listen_addr", Ok (yvar (q "'none'") "string" "local listening address (host candidate)"));
       ("local_candidates", Ok (yvar "{}" "set<string>"
           "candidate IDs this peer gathered locally and advertised via candidates message"));
       ("remote_candidates", Ok (yvar "{}" "set<string>"
           "candidate IDs this peer received in the peer's candidates message"));
       ("pair_check_acks", Ok (yvar "{}" "set<string>"
           "pair IDs for which a pair_check_ack has been observed (nomination universe)"));
       ("active_pair_id", Ok (yvar (q "'none'") "string" (q
           "pair ID currently nominated as the active alt path; 'none' when on relay")));
       ("b_active_path", Ok (yvar (q "'relay'") "string" "backend active path"));
       ("c_active_path", Ok (yvar (q "'relay'") "string" "client active path"));
       ("b_dispatcher_path", Ok (yvar (q "'relay'") "string" "backend datagram dispatcher binding"));
       ("c_dispatcher_path", Ok (yvar (q "'relay'") "string" "client datagram dispatcher binding"));
       ("monitor_target", Ok (yvar (q "'none'") "string" "health monitor target"));
       ("alt_signal", Ok (yvar (q "'pending'") "string" "AltReady notification state"));
       ("relay_bridge", Ok (yvar (q "'idle'") "string" "relay bridge state"))];
     yGuards := Mapping [
       ("token_valid", "recv_msg.token \in active_tokens");
       ("token_invalid", "recv_msg.token \notin active_tokens");
       ("code_correct", "received_code = backend_code");
       ("code_wrong", "received_code /= backend_code");
       ("device_known", "received_device_id \in paired_devices");
       ("device_unknown", "received_device_id \notin paired_devices");
       ("nonce_fresh", "received_auth_nonce \notin auth_nonces_used");
       ("challenge_valid", "received_pair_check_challenge = local_pair_check_challenge");
       ("challenge_invalid", "received_pair_check_challenge /= local_pair_check_challenge");
       ("alt_enabled", "TRUE");
       ("alt_disabled", "FALSE");
       ("local_candidates_available", q "local_listen_addr /= 'none'");
       ("under_max_failures", "ping_failures + 1 < max_ping_failures");
       ("at_max_failures", "ping_failures + 1 >= max_ping_failures")];
     yOperators := Mapping [
       ("KeyRank", Ok (yop "k" (q
           "CASE k = 'adv_pub' -> 0 [] k = 'client_pub' -> 1 [] k = 'backend_pub' -> 2 [] OTHER -> 3")
           "deterministic ordering for ECDH"));
       ("DeriveKey", Ok (yop "a, b" (q
           "IF KeyRank(a) <= KeyRank(b) THEN <<'ecdh', a, b>> ELSE <<'ecdh', b, a>>") "symbolic ECDH"));
       ("DeriveCode", Ok (yop "a, b" (q
           "IF KeyRank(a) <= KeyRank(b) THEN <<'code', a, b>> ELSE <<'code', b, a>>")
           "confirmation code from pubkeys"));
       ("Min", Ok (yop "a, b" "IF a < b THEN a ELSE b" "minimum of two values"));
       ("ValidPairingRecord", Ok (yop "r" (q "r.peer_instance_id /= 'none' /\ r.peer_eph_pub /= 'none'")
           "Interface contract with PairingCeremony.tla: a PairingRecord is well-formed iff it carries a non-default peer instance ID and ephemeral pubkey. SessionMachine treats this as an axiom over its initial state — the session begins with a record that PairingCeremony.tla's PairingProducesValidRecord postcondition has already established."))];
     yPhases := Mapping [
       ("Pairing", PhaseRich (Ok {| rpStates := ["Idle"; "GenerateToken"; "RegisterRelay"; "WaitingForClient";
           "DeriveSecret"; "SendAck"; "WaitingForCode"; "ValidateCode"; "StorePaired"; "Paired"; "AuthCheck";
           "SessionActive"; "ObtainBackchannelSecret"; "ConnectRelay"; "GenKeyPair"; "WaitAck"; "E2EReady";
           "ShowCode"; "WaitPairComplete"; "Reconnect"; "SendAuth"];
      rpVars := ["current_token"; "active_tokens"; "used_tokens"; "backend_ecdh_pub"; "received_client_pub";
          "received_backend_pub"; "backend_shared_key"; "client_shared_key"; "backend_code"; "client_code";
          "received_code"; "cli_entered_code"; "code_attempts"; "device_secret"; "paired_devices";
          "received_device_id"; "auth_nonces_used"; "received_auth_nonce"; "secret_published"; "recv_msg";
          "adversary_keys"; "adv_ecdh_pub"; "adv_saved_client_pub"; "adv_saved_server_pub"]; rpAdversary := true
          |}));
       ("Transport", PhaseRich (Ok {| rpStates := ["RelayConnected"; "CandidatesAdvertised"; "AltActive";
           "AltDegraded"; "RelayBackoff"; "PairDialing"; "PairChecking"; "RelayFallback"];
      rpVars := ["local_pair_check_challenge"; "received_pair_check_challenge"; "instance_id"; "ping_failures";
          "max_ping_failures"; "backoff_level"; "max_backoff_level"; "local_listen_addr"; "local_candidates";
          "remote_candidates"; "pair_check_acks"; "active_pair_id"; "b_active_path"; "c_active_path";
          "b_dispatcher_path"; "c_dispatcher_path"; "monitor_target"; "alt_signal"]; rpAdversary := false |}))];
     yWireConsts := [
       wconst "dg_conn_whole" (WInt 0) "byte" "conn-level single-frame datagram" "datagram_framing";
       wconst "dg_ping" (WInt 16) "byte" "health ping on direct path" "datagram_framing";
       wconst "dg_pong" (WInt 17) "byte" "health pong on direct path" "datagram_framing";
       wconst "dg_conn_fragment" (WInt 64) "byte" "conn-level multi-frame datagram" "datagram_framing";
       wconst "dg_chan_whole" (WInt 128) "byte" "channel single-frame datagram" "datagram_framing";
       wconst "dg_chan_fragment" (WInt 192) "byte" "channel multi-frame datagram" "datagram_framing";
       wconst "frag_header_size" (WInt 8) "int" "fragment header: msgID(4) + fragIdx(2) + totalFrags(2)"
           "datagram_framing";
       wconst "chan_id_size" (WInt 2) "int" "channel ID prefix size in bytes" "datagram_framing";
       wconst "max_datagram_payload" (WInt 1200) "int" "max payload per QUIC datagram (bytes)"
           "datagram_limits";
       wconst "fragment_timeout_ms" (WInt 5000) "duration_ms" "fragment reassembly timeout" "datagram_limits";
       wconst "frame_app" (WInt 0) "byte" "application data" "message_framing";
       wconst "frame_candidates" (WInt 1) "byte" "candidate set advertisement (relay control channel)"
           "message_framing";
       wconst "frame_cutover" (WInt 2) "byte" "transport cutover marker" "message_framing";
       wconst "frame_pair_check" (WInt 3) "byte"
           "candidate-pair connectivity-check challenge (on candidate pipe)" "message_framing";
       wconst "frame_pair_check_ack" (WInt 4) "byte"
           "candidate-pair connectivity-check ack / implicit nomination (on candidate pipe)" "message_framing";
       wconst "cand_host" (WString "host") "string"
           "host candidate (local interface address; what LAN-direct uses)" "candidates";
       wconst "cand_srflx" (WString "srflx") "string"
           "server-reflexive candidate (STUN-derived public address; Phase 1 STUN target)" "candidates";
       wconst "max_message_size" (WInt 1048576) "int" "max stream message size (1 MiB)" "message_framing";
       wconst "length_prefix_size" (WInt 4) "int" "big-endian length prefix size" "message_framing";
       wconst "ping_interval_ms" (WInt 5000) "duration_ms" "health ping interval" "health";
       wconst "pong_timeout_ms" (WInt 4000) "duration_ms" "pong reply timeout" "health";
       wconst "max_ping_failures" (WInt 3) "int" "consecutive failures before fallback" "health";
       wconst "max_backoff_level" (WInt 5) "int" "exponential backoff cap" "health";
       wconst "stream_channel_opener_suffix" (WString ":o2a") "string"
           "HKDF info suffix for opener→acceptor stream key" "channel_keys";
       wconst "stream_channel_accept_suffix" (WString ":a2o") "string"
           "HKDF info suffix for acceptor→opener stream key" "channel_keys";
       wconst "dg_channel_send_suffix" (WString ":dg:send") "string" "HKDF info suffix for datagram send key"
           "channel_keys";
       wconst "dg_channel_recv_suffix" (WString ":dg:recv") "string" "HKDF info suffix for datagram recv key"
           "channel_keys";
       wconst "channel_id_hash_multiplier" (WInt 31) "int" "hash multiplier for channel name → uint16 ID"
           "channel_keys"];
     yConstants := [
       yconst "Challenges" "set<string>" ["c1"; "c2"]
           "possible challenge values (verifies protocol works for any challenge)"];
     yAdvGuard :=
         "backend_state \notin {backend_RelayConnected, backend_CandidatesAdvertised, backend_AltActive, backend_AltDegraded, backend_RelayBackoff}";
     yAdversary := [
       yadv "QR_shoulder_surf" "observe QR code content" (joinLines [q "await current_token /= 'none';"; q
           "adversary_knowledge := adversary_knowledge \union {[type |-> 'qr_token', token |-> current_token]};";
           EmptyString]);
       yadv "MitM_pair_hello" "intercept pair_hello and substitute adversary pubkey" (joinLines
           ["await Len(chan_client_backend) > 0 /\ Head(chan_client_backend).type = MSG_pair_hello;";
           "adv_saved_client_pub := Head(chan_client_backend).pubkey;";
           "chan_client_backend := <<[type |-> MSG_pair_hello, token |-> Head(chan_client_backend).token, pubkey |-> adv_ecdh_pub]>> \o Tail(chan_client_backend);";
           EmptyString]);
       yadv "MitM_pair_hello_ack" "intercept pair_hello_ack and substitute adversary pubkey" (joinLines
           ["await Len(chan_backend_client) > 0 /\ Head(chan_backend_client).type = MSG_pair_hello_ack;";
           "adv_saved_server_pub := Head(chan_backend_client).pubkey;";
           "adversary_keys := adversary_keys \union {DeriveKey(adv_ecdh_pub, adv_saved_server_pub), DeriveKey(adv_ecdh_pub, adv_saved_client_pub)};";
           "chan_backend_client := <<[type |-> MSG_pair_hello_ack, pubkey |-> adv_ecdh_pub]>> \o Tail(chan_backend_client);";
           EmptyString]);
       yadv "MitM_reencrypt_secret" "decrypt pair_complete with MitM key" (joinLines
           ["await Len(chan_backend_client) > 0 /\ Head(chan_backend_client).type = MSG_pair_complete /\ Head(chan_backend_client).key \in adversary_keys;";
           "with msg = Head(chan_backend_client) do"; q
           "  adversary_knowledge := adversary_knowledge \union {[type |-> 'plaintext_secret', secret |-> msg.secret]};";
           "  chan_backend_client := <<[type |-> MSG_pair_complete, key |-> DeriveKey(adv_ecdh_pub, adv_saved_client_pub), secret |-> msg.secret]>> \o Tail(chan_backend_client);";
           "end with;"; EmptyString]);
       yadv "concurrent_pair" "race a forged pair_hello using shoulder-surfed token" (joinLines [q
           "await \E m \in adversary_knowledge : m = [type |-> 'qr_token', token |-> current_token];";
           "await Len(chan_client_backend) < 3;";
           "chan_client_backend := Append(chan_client_backend, [type |-> MSG_pair_hello, token |-> current_token, pubkey |-> adv_ecdh_pub]);";
           EmptyString]);
       yadv "token_bruteforce" "send pair_hello with fabricated token" (joinLines
           ["await Len(chan_client_backend) < 3;"; q
           "chan_client_backend := Append(chan_client_backend, [type |-> MSG_pair_hello, token |-> 'fake_token', pubkey |-> adv_ecdh_pub]);";
           EmptyString]);
       yadv "code_guess" "submit fabricated confirmation code" (joinLines
           ["await backend_state = backend_WaitingForCode;"; q "cli_entered_code := <<'guess', '000000'>>;";
           EmptyString]);
       yadv "session_replay" "replay captured auth_request with stale nonce" (joinLines
           ["await Len(chan_client_backend) < 3;";
           "await \E m \in adversary_knowledge : m.type = MSG_auth_request;";
           "with msg \in {m \in adversary_knowledge : m.type = MSG_auth_request} do";
           "  chan_client_backend := Append(chan_client_backend, msg);"; "end with;"; EmptyString])];
     yProperties := [
       yprop "NoTokenReuse" "invariant" "used_tokens \intersect active_tokens = {}" EmptyString EmptyString
           "A revoked pairing token is never accepted again";
       yprop "MitMDetectedByCodeMismatch" "invariant" (q
           "(backend_shared_key \in adversary_keys /\ backend_code /= <<'none'>> /\ client_code /= <<'none'>>) => backend_code /= client_code")
           EmptyString EmptyString "MitM produces mismatched codes";
       yprop "MitMPrevented" "invariant"
           "backend_shared_key \in adversary_keys => backend_state \notin {backend_StorePaired, backend_Paired, backend_AuthCheck, backend_SessionActive}"
           EmptyString EmptyString "Compromised key prevents pairing completion";
       yprop "AuthRequiresCompletedPairing" "invariant"
           "backend_state = backend_SessionActive => received_device_id \in paired_devices" EmptyString
           EmptyString "Session requires completed pairing";
       yprop "NoNonceReuse" "invariant"
           "backend_state = backend_SessionActive => received_auth_nonce \notin (auth_nonces_used \ {received_auth_nonce})"
           EmptyString EmptyString "Each auth nonce accepted at most once";
       yprop "DeviceSecretSecrecy" "invariant" (q
           "\A m \in adversary_knowledge : 'type' \in DOMAIN m => m.type /= 'plaintext_secret'") EmptyString
           EmptyString "Adversary never learns device secret";
       yprop "PathConsistency" "invariant" (q
           "b_active_path \in {'relay', 'alt'} /\ c_active_path \in {'relay', 'alt'}") EmptyString EmptyString
           "Paths are always valid";
       yprop "BackoffBounded" "invariant" "backoff_level <= max_backoff_level" EmptyString EmptyString
           "Backoff never exceeds cap";
       yprop "BackoffResetsOnSuccess" "invariant" "backend_state = backend_AltActive => backoff_level = 0"
           EmptyString EmptyString "alt-pair success resets backoff";
       yprop "DispatcherAlwaysBound" "invariant" (q
           "b_dispatcher_path \in {'relay', 'alt'} /\ c_dispatcher_path \in {'relay', 'alt'}") EmptyString
           EmptyString "Dispatchers always bound to valid path";
       yprop "BackendDispatcherMatchesActive" "invariant" (q
           "backend_state = backend_AltActive => b_dispatcher_path = 'alt'") EmptyString EmptyString
           "Backend dispatcher on alt-pair when alt-pair active";
       yprop "ClientDispatcherMatchesActive" "invariant" (q
           "client_state = client_AltActive => c_dispatcher_path = 'alt'") EmptyString EmptyString
           "Client dispatcher on alt-pair when alt-pair active";
       yprop "MonitorOnlyWhenAlt" "invariant" (q
           "monitor_target = 'alt' => backend_state \in {backend_AltActive, backend_AltDegraded}") EmptyString
           EmptyString "Monitor only pings when alt-pair is active or degraded";
       yprop "FallbackLeadsToReadvertise" "leads_to" EmptyString "backend_state = backend_RelayBackoff"
           "backend_state = backend_CandidatesAdvertised"
           "After fallback, backend eventually re-advertises candidates";
       yprop "DegradedLeadsToResolutionOrFallback" "leads_to" EmptyString "backend_state = backend_AltDegraded"
           "backend_state \in {backend_AltActive, backend_RelayBackoff}"
           "Degraded state eventually resolves (recovery or fallback)"];
     yChannelBound := 3;
     yOneShot := false |}.

(** ** The table ([SessionProtocol()], session_gen.go) *)

Definition SessionProtocol_backend : Actor :=
  {| Name := "backend"; Initial := "Idle";
     Transitions := [
       gtr "Idle" "GenerateToken" (Internal "cli_init_pair") EmptyString "generate_token" [] [("current_token",
           q "'tok_1'"); ("active_tokens", q "active_tokens \union {'tok_1'}")];
       gtr "GenerateToken" "RegisterRelay" (Internal "token_created") EmptyString "register_relay" [] [];
       gtr "RegisterRelay" "WaitingForClient" (Internal "relay_registered") EmptyString EmptyString []
           [("secret_published", "TRUE")];
       gtr "WaitingForClient" "DeriveSecret" (Recv "pair_hello") "token_valid" "derive_secret" []
           [("received_client_pub", "recv_msg.pubkey"); ("backend_ecdh_pub", q "'backend_pub'");
           ("backend_shared_key", q "DeriveKey('backend_pub', recv_msg.pubkey)"); ("backend_code", q
           "DeriveCode('backend_pub', recv_msg.pubkey)")];
       gtr "WaitingForClient" "Idle" (Recv "pair_hello") "token_invalid" EmptyString [] [];
       gtr "DeriveSecret" "SendAck" (Internal "ecdh_complete") EmptyString EmptyString [gsend "client"
           "pair_hello_ack" [("pubkey", "backend_ecdh_pub")]] [];
       gtr "SendAck" "WaitingForCode" (Internal "signal_code_display") EmptyString EmptyString [gsend "client"
           "pair_confirm" []] [];
       gtr "WaitingForCode" "ValidateCode" (Internal "cli_code_entered") EmptyString EmptyString []
           [("received_code", "cli_entered_code")];
       gtr "ValidateCode" "StorePaired" (Internal "check_code") "code_correct" EmptyString [] [];
       gtr "ValidateCode" "Idle" (Internal "check_code") "code_wrong" EmptyString [] [("code_attempts",
           "code_attempts + 1")];
       gtr "StorePaired" "Paired" (Internal "finalise") EmptyString "store_device" [gsend "client"
           "pair_complete" [("key", "backend_shared_key"); ("secret", q "'dev_secret_1'")]] [("device_secret", q
           "'dev_secret_1'"); ("paired_devices", q "paired_devices \union {'device_1'}"); ("active_tokens",
           "active_tokens \ {current_token}"); ("used_tokens", "used_tokens \union {current_token}")];
       gtr "Paired" "AuthCheck" (Recv "auth_request") EmptyString EmptyString [] [("received_device_id",
           "recv_msg.device_id"); ("received_auth_nonce", "recv_msg.nonce")];
       gtr "AuthCheck" "SessionActive" (Internal "verify") "device_known" "verify_device" [gsend "client"
           "auth_ok" []] [("auth_nonces_used", "auth_nonces_used \union {received_auth_nonce}")];
       gtr "AuthCheck" "Idle" (Internal "verify") "device_unknown" EmptyString [] [];
       gtr "SessionActive" "RelayConnected" (Internal "session_established") EmptyString EmptyString [] [];
       gtr "RelayConnected" "CandidatesAdvertised" (Internal "candidates_gathered") EmptyString EmptyString
           [gsend "client" "candidates" [("challenge", "local_pair_check_challenge"); ("set",
           "local_candidates")]] [];
       gtr "CandidatesAdvertised" "AltActive" (Recv "pair_check") "challenge_valid" "activate_lan" [gsend
           "client" "pair_check_ack" []] [("ping_failures", "0"); ("backoff_level", "0"); ("b_active_path", q
           "'alt'"); ("b_dispatcher_path", q "'alt'"); ("monitor_target", q "'alt'"); ("alt_signal", q
           "'ready'")];
       gtr "CandidatesAdvertised" "RelayConnected" (Recv "pair_check") "challenge_invalid" EmptyString [] [];
       gtr "CandidatesAdvertised" "RelayBackoff" (Internal "candidates_timeout") EmptyString EmptyString []
           [("backoff_level", "Min(backoff_level + 1, max_backoff_level)"); ("alt_signal", q "'pending'")];
       gtr "AltActive" "AltActive" (Internal "ping_tick") EmptyString EmptyString [gsend "client" "path_ping"
           []] [];
       gtr "AltActive" "AltDegraded" (Internal "ping_timeout") EmptyString EmptyString [] [("ping_failures",
           "1")];
       gtr "AltDegraded" "AltDegraded" (Internal "ping_tick") EmptyString EmptyString [gsend "client"
           "path_ping" []] [];
       gtr "AltActive" "RelayBackoff" (Internal "alt_stream_error") EmptyString "fallback_to_relay" []
           [("backoff_level", "Min(backoff_level + 1, max_backoff_level)"); ("b_active_path", q "'relay'");
           ("b_dispatcher_path", q "'relay'"); ("monitor_target", q "'none'"); ("alt_signal", q "'pending'");
           ("ping_failures", "0")];
       gtr "AltDegraded" "RelayBackoff" (Internal "alt_stream_error") EmptyString "fallback_to_relay" []
           [("backoff_level", "Min(backoff_level + 1, max_backoff_level)"); ("b_active_path", q "'relay'");
           ("b_dispatcher_path", q "'relay'"); ("monitor_target", q "'none'"); ("alt_signal", q "'pending'");
           ("ping_failures", "0")];
       gtr "AltDegraded" "AltActive" (Recv "path_pong") EmptyString "reset_failures" [] [("ping_failures",
           "0")];
       gtr "AltDegraded" "AltDegraded" (Internal "ping_timeout") "under_max_failures" EmptyString []
           [("ping_failures", "ping_failures + 1")];
       gtr "AltDegraded" "RelayBackoff" (Internal "ping_timeout") "at_max_failures" "fallback_to_relay" []
           [("backoff_level", "Min(backoff_level + 1, max_backoff_level)"); ("b_active_path", q "'relay'");
           ("b_dispatcher_path", q "'relay'"); ("monitor_target", q "'none'"); ("alt_signal", q "'pending'");
           ("ping_failures", "0")];
       gtr "RelayBackoff" "CandidatesAdvertised" (Internal "backoff_expired") EmptyString EmptyString [gsend
           "client" "candidates" [("challenge", "local_pair_check_challenge"); ("set", "local_candidates")]] [];
       gtr "RelayBackoff" "CandidatesAdvertised" (Internal "candidates_changed") EmptyString EmptyString [gsend
           "client" "candidates" [("challenge", "local_pair_check_challenge"); ("set", "local_candidates")]]
           [("backoff_level", "0")];
       gtr "RelayConnected" "CandidatesAdvertised" (Internal "candidates_refresh_tick")
           "local_candidates_available" EmptyString [gsend "client" "candidates" [("challenge",
           "local_pair_check_challenge"); ("set", "local_candidates")]] [];
       gtr "CandidatesAdvertised" "RelayConnected" (Internal "app_force_fallback") EmptyString EmptyString []
           [("alt_signal", q "'pending'")];
       gtr "AltActive" "RelayBackoff" (Internal "app_force_fallback") EmptyString "fallback_to_relay" []
           [("backoff_level", "Min(backoff_level + 1, max_backoff_level)"); ("b_active_path", q "'relay'");
           ("b_dispatcher_path", q "'relay'"); ("monitor_target", q "'none'"); ("alt_signal", q "'pending'");
           ("ping_failures", "0")];
       gtr "AltDegraded" "RelayBackoff" (Internal "app_force_fallback") EmptyString "fallback_to_relay" []
           [("backoff_level", "Min(backoff_level + 1, max_backoff_level)"); ("b_active_path", q "'relay'");
           ("b_dispatcher_path", q "'relay'"); ("monitor_target", q "'none'"); ("alt_signal", q "'pending'");
           ("ping_failures", "0")];
       gtr "RelayConnected" "Paired" (Internal "disconnect") EmptyString EmptyString [] [];
       gtr "RelayConnected" "RelayConnected" (Internal "app_send") EmptyString EmptyString [] [];
       gtr "CandidatesAdvertised" "CandidatesAdvertised" (Internal "app_send") EmptyString EmptyString [] [];
       gtr "AltActive" "AltActive" (Internal "app_send") EmptyString EmptyString [] [];
       gtr "AltDegraded" "AltDegraded" (Internal "app_send") EmptyString EmptyString [] [];
       gtr "RelayBackoff" "RelayBackoff" (Internal "app_send") EmptyString EmptyString [] [];
       gtr "RelayConnected" "RelayConnected" (Internal "relay_stream_data") EmptyString EmptyString [] [];
       gtr "CandidatesAdvertised" "CandidatesAdvertised" (Internal "relay_stream_data") EmptyString EmptyString
           [] [];
       gtr "AltActive" "AltActive" (Internal "relay_stream_data") EmptyString EmptyString [] [];
       gtr "AltDegraded" "AltDegraded" (Internal "relay_stream_data") EmptyString EmptyString [] [];
       gtr "RelayBackoff" "RelayBackoff" (Internal "relay_stream_data") EmptyString EmptyString [] [];
       gtr "RelayConnected" "RelayConnected" (Internal "relay_stream_error") EmptyString EmptyString [] [];
       gtr "CandidatesAdvertised" "CandidatesAdvertised" (Internal "relay_stream_error") EmptyString EmptyString
           [] [];
       gtr "AltActive" "AltActive" (Internal "relay_stream_error") EmptyString EmptyString [] [];
       gtr "AltDegraded" "AltDegraded" (Internal "relay_stream_error") EmptyString EmptyString [] [];
       gtr "RelayBackoff" "RelayBackoff" (Internal "relay_stream_error") EmptyString EmptyString [] [];
       gtr "RelayConnected" "RelayConnected" (Internal "app_send_datagram") EmptyString EmptyString [] [];
       gtr "CandidatesAdvertised" "CandidatesAdvertised" (Internal "app_send_datagram") EmptyString EmptyString
           [] [];
       gtr "AltActive" "AltActive" (Internal "app_send_datagram") EmptyString EmptyString [] [];
       gtr "AltDegraded" "AltDegraded" (Internal "app_send_datagram") EmptyString EmptyString [] [];
       gtr "RelayBackoff" "RelayBackoff" (Internal "app_send_datagram") EmptyString EmptyString [] [];
       gtr "RelayConnected" "RelayConnected" (Internal "relay_datagram") EmptyString EmptyString [] [];
       gtr "CandidatesAdvertised" "CandidatesAdvertised" (Internal "relay_datagram") EmptyString EmptyString []
           [];
       gtr "AltActive" "AltActive" (Internal "relay_datagram") EmptyString EmptyString [] [];
       gtr "AltDegraded" "AltDegraded" (Internal "relay_datagram") EmptyString EmptyString [] [];
       gtr "RelayBackoff" "RelayBackoff" (Internal "relay_datagram") EmptyString EmptyString [] [];
       gtr "AltActive" "AltActive" (Internal "alt_stream_data") EmptyString EmptyString [] [];
       gtr "AltDegraded" "AltDegraded" (Internal "alt_stream_data") EmptyString EmptyString [] [];
       gtr "AltActive" "AltActive" (Internal "alt_datagram") EmptyString EmptyString [] [];
       gtr "AltDegraded" "AltDegraded" (Internal "alt_datagram") EmptyString EmptyString [] []];
     StateIndex := []; Roots := []; Machines := []; Routes := [] |}.

Definition SessionProtocol_client : Actor :=
  {| Name := "client"; Initial := "Idle";
     Transitions := [
       gtr "Idle" "ObtainBackchannelSecret" (Internal "backchannel_received") EmptyString EmptyString [] [];
       gtr "ObtainBackchannelSecret" "ConnectRelay" (Internal "secret_parsed") EmptyString EmptyString [] [];
       gtr "ConnectRelay" "GenKeyPair" (Internal "relay_connected") EmptyString EmptyString [] [];
       gtr "GenKeyPair" "WaitAck" (Internal "key_pair_generated") EmptyString "send_pair_hello" [gsend "backend"
           "pair_hello" [("pubkey", q "'client_pub'"); ("token", "current_token")]] [];
       gtr "WaitAck" "E2EReady" (Recv "pair_hello_ack") EmptyString "derive_secret" [] [("received_backend_pub",
           "recv_msg.pubkey"); ("client_shared_key", q "DeriveKey('client_pub', recv_msg.pubkey)")];
       gtr "E2EReady" "ShowCode" (Recv "pair_confirm") EmptyString EmptyString [] [("client_code", q
           "DeriveCode(received_backend_pub, 'client_pub')")];
       gtr "ShowCode" "WaitPairComplete" (Internal "code_displayed") EmptyString EmptyString [] [];
       gtr "WaitPairComplete" "Paired" (Recv "pair_complete") EmptyString "store_secret" [] [];
       gtr "Paired" "Reconnect" (Internal "app_launch") EmptyString EmptyString [] [];
       gtr "Reconnect" "SendAuth" (Internal "relay_connected") EmptyString EmptyString [gsend "backend"
           "auth_request" [("device_id", q "'device_1'"); ("key", "client_shared_key"); ("nonce", q
           "'nonce_1'"); ("secret", "device_secret")]] [];
       gtr "SendAuth" "SessionActive" (Recv "auth_ok") EmptyString EmptyString [] [];
       gtr "SessionActive" "RelayConnected" (Internal "session_established") EmptyString EmptyString [] [];
       gtr "RelayConnected" "PairDialing" (Recv "candidates") "alt_enabled" "dial_candidate" [] [];
       gtr "RelayConnected" "RelayConnected" (Recv "candidates") "alt_disabled" EmptyString [] [];
       gtr "PairDialing" "PairChecking" (Internal "dial_ok") EmptyString EmptyString [gsend "backend"
           "pair_check" [("challenge", "received_pair_check_challenge"); ("instance_id", "instance_id")]] [];
       gtr "PairDialing" "RelayConnected" (Internal "dial_failed") EmptyString EmptyString [] [];
       gtr "PairChecking" "AltActive" (Recv "pair_check_ack") EmptyString "activate_lan" [] [("c_active_path", q
           "'alt'"); ("c_dispatcher_path", q "'alt'"); ("alt_signal", q "'ready'")];
       gtr "PairChecking" "RelayConnected" (Internal "verify_timeout") EmptyString EmptyString []
           [("c_dispatcher_path", q "'relay'")];
       gtr "AltActive" "AltActive" (Recv "path_ping") EmptyString EmptyString [gsend "backend" "path_pong" []]
           [];
       gtr "AltActive" "RelayFallback" (Internal "alt_error") EmptyString "fallback_to_relay" []
           [("c_active_path", q "'relay'"); ("c_dispatcher_path", q "'relay'"); ("alt_signal", q "'pending'")];
       gtr "AltActive" "RelayFallback" (Internal "alt_stream_error") EmptyString "fallback_to_relay" []
           [("c_active_path", q "'relay'"); ("c_dispatcher_path", q "'relay'"); ("alt_signal", q "'pending'")];
       gtr "RelayFallback" "RelayConnected" (Internal "relay_ok") EmptyString EmptyString [] [];
       gtr "AltActive" "PairDialing" (Recv "candidates") "alt_enabled" "dial_candidate" [] [];
       gtr "PairDialing" "RelayConnected" (Internal "app_force_fallback") EmptyString EmptyString [] [];
       gtr "PairChecking" "RelayConnected" (Internal "app_force_fallback") EmptyString EmptyString []
           [("c_dispatcher_path", q "'relay'")];
       gtr "AltActive" "RelayConnected" (Internal "app_force_fallback") EmptyString "fallback_to_relay" []
           [("c_active_path", q "'relay'"); ("c_dispatcher_path", q "'relay'"); ("alt_signal", q "'pending'")];
       gtr "RelayConnected" "Paired" (Internal "disconnect") EmptyString EmptyString [] [];
       gtr "RelayConnected" "RelayConnected" (Internal "app_send") EmptyString EmptyString [] [];
       gtr "PairDialing" "PairDialing" (Internal "app_send") EmptyString EmptyString [] [];
       gtr "PairChecking" "PairChecking" (Internal "app_send") EmptyString EmptyString [] [];
       gtr "AltActive" "AltActive" (Internal "app_send") EmptyString EmptyString [] [];
       gtr "RelayFallback" "RelayFallback" (Internal "app_send") EmptyString EmptyString [] [];
       gtr "RelayConnected" "RelayConnected" (Internal "relay_stream_data") EmptyString EmptyString [] [];
       gtr "PairDialing" "PairDialing" (Internal "relay_stream_data") EmptyString EmptyString [] [];
       gtr "PairChecking" "PairChecking" (Internal "relay_stream_data") EmptyString EmptyString [] [];
       gtr "AltActive" "AltActive" (Internal "relay_stream_data") EmptyString EmptyString [] [];
       gtr "RelayFallback" "RelayFallback" (Internal "relay_stream_data") EmptyString EmptyString [] [];
       gtr "RelayConnected" "RelayConnected" (Internal "relay_stream_error") EmptyString EmptyString [] [];
       gtr "PairDialing" "PairDialing" (Internal "relay_stream_error") EmptyString EmptyString [] [];
       gtr "PairChecking" "PairChecking" (Internal "relay_stream_error") EmptyString EmptyString [] [];
       gtr "AltActive" "AltActive" (Internal "relay_stream_error") EmptyString EmptyString [] [];
       gtr "RelayFallback" "RelayFallback" (Internal "relay_stream_error") EmptyString EmptyString [] [];
       gtr "RelayConnected" "RelayConnected" (Internal "app_send_datagram") EmptyString EmptyString [] [];
       gtr "PairDialing" "PairDialing" (Internal "app_send_datagram") EmptyString EmptyString [] [];
       gtr "PairChecking" "PairChecking" (Internal "app_send_datagram") EmptyString EmptyString [] [];
       gtr "AltActive" "AltActive" (Internal "app_send_datagram") EmptyString EmptyString [] [];
       gtr "RelayFallback" "RelayFallback" (Internal "app_send_datagram") EmptyString EmptyString [] [];
       gtr "RelayConnected" "RelayConnected" (Internal "relay_datagram") EmptyString EmptyString [] [];
       gtr "PairDialing" "PairDialing" (Internal "relay_datagram") EmptyString EmptyString [] [];
       gtr "PairChecking" "PairChecking" (Internal "relay_datagram") EmptyString EmptyString [] [];
       gtr "AltActive" "AltActive" (Internal "relay_datagram") EmptyString EmptyString [] [];
       gtr "RelayFallback" "RelayFallback" (Internal "relay_datagram") EmptyString EmptyString [] [];
       gtr "AltActive" "AltActive" (Internal "alt_stream_data") EmptyString EmptyString [] [];
       gtr "AltActive" "AltActive" (Internal "alt_datagram") EmptyString EmptyString [] []];
     StateIndex := []; Roots := []; Machines := []; Routes := [] |}.

Definition SessionProtocol_relay : Actor :=
  {| Name := "relay"; Initial := "Idle";
     Transitions := [
       gtr "Idle" "BackendRegistered" (Internal "backend_register") EmptyString EmptyString [] [];
       gtr "BackendRegistered" "Bridged" (Internal "client_connect") EmptyString "bridge_streams" []
           [("relay_bridge", q "'active'")];
       gtr "Bridged" "BackendRegistered" (Internal "client_disconnect") EmptyString "unbridge" []
           [("relay_bridge", q "'idle'")];
       gtr "BackendRegistered" "Idle" (Internal "backend_disconnect") EmptyString EmptyString [] []];
     StateIndex := []; Roots := []; Machines := []; Routes := [] |}.

Definition SessionProtocol : Protocol :=
  {| pName := "Session";
     Actors := [SessionProtocol_backend; SessionProtocol_client; SessionProtocol_relay];
     Messages := [
       gmsg "pair_hello" "client" "backend" "ECDH pubkey + pairing token";
       gmsg "pair_hello_ack" "backend" "client" "ECDH pubkey";
       gmsg "pair_confirm" "backend" "client" "signal to compute and display code";
       gmsg "pair_complete" "backend" "client" "encrypted device secret";
       gmsg "auth_request" "client" "backend" "encrypted auth with nonce";
       gmsg "auth_ok" "backend" "client" "session established";
       gmsg "candidates" "backend" "client"
           "set of local candidates (host, srflx, ...) + a per-candidate pair_check challenge (sent via relay)";
       gmsg "pair_check" "client" "backend"
           "challenge echo + instance ID + pair_id under test (sent on the candidate-pair pipe)";
       gmsg "pair_check_ack" "backend" "client"
           "pair_check accepted; this candidate-pair is nominated as the active path (sent on the candidate-pair pipe)";
       gmsg "path_ping" "backend" "client" "health check on active direct path";
       gmsg "path_pong" "client" "backend" "health check response"];
     Events := []; Commands := []; Structs := [];
     Vars := [
       gvar "current_token" (q "'none'") "pairing token currently in play";
       gvar "active_tokens" "{}" "set of valid (non-revoked) tokens";
       gvar "used_tokens" "{}" "set of revoked tokens";
       gvar "backend_ecdh_pub" (q "'none'") "backend ECDH public key";
       gvar "received_client_pub" (q "'none'") "pubkey backend received in pair_hello";
       gvar "received_backend_pub" (q "'none'") "pubkey client received in pair_hello_ack";
       gvar "backend_shared_key" (q "<<'none'>>") "ECDH key derived by backend";
       gvar "client_shared_key" (q "<<'none'>>") "ECDH key derived by client";
       gvar "backend_code" (q "<<'none'>>") "code computed by backend";
       gvar "client_code" (q "<<'none'>>") "code computed by client";
       gvar "received_code" (q "<<'none'>>") "code entered via CLI";
       gvar "cli_entered_code" (q "<<'none'>>") "staging for CLI code input";
       gvar "code_attempts" "0" "failed code submission attempts";
       gvar "device_secret" (q "'none'") "persistent device secret";
       gvar "paired_devices" "{}" "device IDs that completed pairing";
       gvar "received_device_id" (q "'none'") "device_id from auth_request";
       gvar "auth_nonces_used" "{}" "set of consumed auth nonces";
       gvar "received_auth_nonce" (q "'none'") "nonce from auth_request";
       gvar "secret_published" "FALSE" "whether token has been published via backchannel";
       gvar "recv_msg" (q "[type |-> 'none']") "last received message (staging)";
       gvar "adversary_keys" "{}" "encryption keys the adversary knows";
       gvar "adv_ecdh_pub" (q "'adv_pub'") "adversary's ECDH public key";
       gvar "adv_saved_client_pub" (q "'none'") "real client pubkey saved during MitM";
       gvar "adv_saved_server_pub" (q "'none'") "real backend pubkey saved during MitM";
       gvar "local_pair_check_challenge" (q "'none'") "32-byte random challenge for pair_check exchange";
       gvar "received_pair_check_challenge" (q "'none'") "challenge most recently received in pair_check";
       gvar "instance_id" (q "'none'") "relay instance ID";
       gvar "ping_failures" "0" "consecutive failed pings";
       gvar "max_ping_failures" "3" "threshold before fallback";
       gvar "backoff_level" "0" "exponential backoff level";
       gvar "max_backoff_level" "5" "backoff cap";
       gvar "local_listen_addr" (q "'none'") "local listening address (host candidate)";
       gvar "local_candidates" "{}"
           "candidate IDs this peer gathered locally and advertised via candidates message";
       gvar "remote_candidates" "{}" "candidate IDs this peer received in the peer's candidates message";
       gvar "pair_check_acks" "{}"
           "pair IDs for which a pair_check_ack has been observed (nomination universe)";
       gvar "active_pair_id" (q "'none'") (q
           "pair ID currently nominated as the active alt path; 'none' when on relay");
       gvar "b_active_path" (q "'relay'") "backend active path";
       gvar "c_active_path" (q "'relay'") "client active path";
       gvar "b_dispatcher_path" (q "'relay'") "backend datagram dispatcher binding";
       gvar "c_dispatcher_path" (q "'relay'") "client datagram dispatcher binding";
       gvar "monitor_target" (q "'none'") "health monitor target";
       gvar "alt_signal" (q "'pending'") "AltReady notification state";
       gvar "relay_bridge" (q "'idle'") "relay bridge state"];
     Guards := [
       gguard "token_valid" "recv_msg.token \in active_tokens";
       gguard "token_invalid" "recv_msg.token \notin active_tokens";
       gguard "code_correct" "received_code = backend_code";
       gguard "code_wrong" "received_code /= backend_code";
       gguard "device_known" "received_device_id \in paired_devices";
       gguard "device_unknown" "received_device_id \notin paired_devices";
       gguard "nonce_fresh" "received_auth_nonce \notin auth_nonces_used";
       gguard "challenge_valid" "received_pair_check_challenge = local_pair_check_challenge";
       gguard "challenge_invalid" "received_pair_check_challenge /= local_pair_check_challenge";
       gguard "alt_enabled" "TRUE";
       gguard "alt_disabled" "FALSE";
       gguard "local_candidates_available" (q "local_listen_addr /= 'none'");
       gguard "under_max_failures" "ping_failures + 1 < max_ping_failures";
       gguard "at_max_failures" "ping_failures + 1 >= max_ping_failures"];
     Operators := [
       gop "KeyRank" "k" (q
           "CASE k = 'adv_pub' -> 0 [] k = 'client_pub' -> 1 [] k = 'backend_pub' -> 2 [] OTHER -> 3")
           "deterministic ordering for ECDH";
       gop "DeriveKey" "a, b" (q "IF KeyRank(a) <= KeyRank(b) THEN <<'ecdh', a, b>> ELSE <<'ecdh', b, a>>")
           "symbolic ECDH";
       gop "DeriveCode" "a, b" (q "IF KeyRank(a) <= KeyRank(b) THEN <<'code', a, b>> ELSE <<'code', b, a>>")
           "confirmation code from pubkeys";
       gop "Min" "a, b" "IF a < b THEN a ELSE b" "minimum of two values";
       gop "ValidPairingRecord" "r" (q "r.peer_instance_id /= 'none' /\ r.peer_eph_pub /= 'none'")
           "Interface contract with PairingCeremony.tla: a PairingRecord is well-formed iff it carries a non-default peer instance ID and ephemeral pubkey. SessionMachine treats this as an axiom over its initial state — the session begins with a record that PairingCeremony.tla's PairingProducesValidRecord postcondition has already established."];
     AdvActions := [
       gadv "QR_shoulder_surf" "observe QR code content" (joinLines [q "      await current_token /= 'none';"; q
           "      adversary_knowledge := adversary_knowledge \union {[type |-> 'qr_token', token |-> current_token]};"]);
       gadv "MitM_pair_hello" "intercept pair_hello and substitute adversary pubkey" (joinLines
           ["      await Len(chan_client_backend) > 0 /\ Head(chan_client_backend).type = MSG_pair_hello;";
           "      adv_saved_client_pub := Head(chan_client_backend).pubkey;";
           "      chan_client_backend := <<[type |-> MSG_pair_hello, token |-> Head(chan_client_backend).token, pubkey |-> adv_ecdh_pub]>> \o Tail(chan_client_backend);"]);
       gadv "MitM_pair_hello_ack" "intercept pair_hello_ack and substitute adversary pubkey" (joinLines
           ["      await Len(chan_backend_client) > 0 /\ Head(chan_backend_client).type = MSG_pair_hello_ack;";
           "      adv_saved_server_pub := Head(chan_backend_client).pubkey;";
           "      adversary_keys := adversary_keys \union {DeriveKey(adv_ecdh_pub, adv_saved_server_pub), DeriveKey(adv_ecdh_pub, adv_saved_client_pub)};";
           "      chan_backend_client := <<[type |-> MSG_pair_hello_ack, pubkey |-> adv_ecdh_pub]>> \o Tail(chan_backend_client);"]);
       gadv "MitM_reencrypt_secret" "decrypt pair_complete with MitM key" (joinLines
           ["      await Len(chan_backend_client) > 0 /\ Head(chan_backend_client).type = MSG_pair_complete /\ Head(chan_backend_client).key \in adversary_keys;";
           "      with msg = Head(chan_backend_client) do"; q
           "        adversary_knowledge := adversary_knowledge \union {[type |-> 'plaintext_secret', secret |-> msg.secret]};";
           "        chan_backend_client := <<[type |-> MSG_pair_complete, key |-> DeriveKey(adv_ecdh_pub, adv_saved_client_pub), secret |-> msg.secret]>> \o Tail(chan_backend_client);";
           "      end with;"]);
       gadv "concurrent_pair" "race a forged pair_hello using shoulder-surfed token" (joinLines [q
           "      await \E m \in adversary_knowledge : m = [type |-> 'qr_token', token |-> current_token];";
           "      await Len(chan_client_backend) < 3;";
           "      chan_client_backend := Append(chan_client_backend, [type |-> MSG_pair_hello, token |-> current_token, pubkey |-> adv_ecdh_pub]);"]);
       gadv "token_bruteforce" "send pair_hello with fabricated token" (joinLines
           ["      await Len(chan_client_backend) < 3;"; q
           "      chan_client_backend := Append(chan_client_backend, [type |-> MSG_pair_hello, token |-> 'fake_token', pubkey |-> adv_ecdh_pub]);"]);
       gadv "code_guess" "submit fabricated confirmation code" (joinLines
           ["      await backend_state = backend_WaitingForCode;"; q
           "      cli_entered_code := <<'guess', '000000'>>;"]);
       gadv "session_replay" "replay captured auth_request with stale nonce" (joinLines
           ["      await Len(chan_client_backend) < 3;";
           "      await \E m \in adversary_knowledge : m.type = MSG_auth_request;";
           "      with msg \in {m \in adversary_knowledge : m.type = MSG_auth_request} do";
           "        chan_client_backend := Append(chan_client_backend, msg);"; "      end with;"])];
     AdvGuard := EmptyString; Phases := []; WireConsts := []; Constants := [];
     Properties := [
       gprop "NoTokenReuse" Invariant "used_tokens \intersect active_tokens = {}"
           "A revoked pairing token is never accepted again";
       gprop "MitMDetectedByCodeMismatch" Invariant (q
           "(backend_shared_key \in adversary_keys /\ backend_code /= <<'none'>> /\ client_code /= <<'none'>>) => backend_code /= client_code")
           "MitM produces mismatched codes";
       gprop "MitMPrevented" Invariant
           "backend_shared_key \in adversary_keys => backend_state \notin {backend_StorePaired, backend_Paired, backend_AuthCheck, backend_SessionActive}"
           "Compromised key prevents pairing completion";
       gprop "AuthRequiresCompletedPairing" Invariant
           "backend_state = backend_SessionActive => received_device_id \in paired_devices"
           "Session requires completed pairing";
       gprop "NoNonceReuse" Invariant
           "backend_state = backend_SessionActive => received_auth_nonce \notin (auth_nonces_used \ {received_auth_nonce})"
           "Each auth nonce accepted at most once";
       gprop "DeviceSecretSecrecy" Invariant (q
           "\A m \in adversary_knowledge : 'type' \in DOMAIN m => m.type /= 'plaintext_secret'")
           "Adversary never learns device secret";
       gprop "PathConsistency" Invariant (q
           "b_active_path \in {'relay', 'alt'} /\ c_active_path \in {'relay', 'alt'}") "Paths are always valid";
       gprop "BackoffBounded" Invariant "backoff_level <= max_backoff_level" "Backoff never exceeds cap";
       gprop "BackoffResetsOnSuccess" Invariant "backend_state = backend_AltActive => backoff_level = 0"
           "alt-pair success resets backoff";
       gprop "DispatcherAlwaysBound" Invariant (q
           "b_dispatcher_path \in {'relay', 'alt'} /\ c_dispatcher_path \in {'relay', 'alt'}")
           "Dispatchers always bound to valid path";
       gprop "BackendDispatcherMatchesActive" Invariant (q
           "backend_state = backend_AltActive => b_dispatcher_path = 'alt'")
           "Backend dispatcher on alt-pair when alt-pair active";
       gprop "ClientDispatcherMatchesActive" Invariant (q
           "client_state = client_AltActive => c_dispatcher_path = 'alt'")
           "Client dispatcher on alt-pair when alt-pair active";
       gprop "MonitorOnlyWhenAlt" Invariant (q
           "monitor_target = 'alt' => backend_state \in {backend_AltActive, backend_AltDegraded}")
           "Monitor only pings when alt-pair is active or degraded";
       gprop "FallbackLeadsToReadvertise" Invariant EmptyString
           "After fallback, backend eventually re-advertises candidates";
       gprop "DegradedLeadsToResolutionOrFallback" Invariant EmptyString
           "Degraded state eventually resolves (recovery or fallback)"];
     ChannelBound := 3;
     OneShot := false |}.

(** ** The constants *)

Definition SessionProtocol_backend_states : list GoConst :=
  [
    ("SessionProtocolBackendIdle", "Idle");
    ("SessionProtocolBackendGenerateToken", "GenerateToken");
    ("SessionProtocolBackendRegisterRelay", "RegisterRelay");
    ("SessionProtocolBackendWaitingForClient", "WaitingForClient");
    ("SessionProtocolBackendDeriveSecret", "DeriveSecret");
    ("SessionProtocolBackendSendAck", "SendAck");
    ("SessionProtocolBackendWaitingForCode", "WaitingForCode");
    ("SessionProtocolBackendValidateCode", "ValidateCode");
    ("SessionProtocolBackendStorePaired", "StorePaired");
    ("SessionProtocolBackendPaired", "Paired");
    ("SessionProtocolBackendAuthCheck", "AuthCheck");
    ("SessionProtocolBackendSessionActive", "SessionActive");
    ("SessionProtocolBackendRelayConnected", "RelayConnected");
    ("SessionProtocolBackendCandidatesAdvertised", "CandidatesAdvertised");
    ("SessionProtocolBackendAltActive", "AltActive");
    ("SessionProtocolBackendRelayBackoff", "RelayBackoff");
    ("SessionProtocolBackendAltDegraded", "AltDegraded")].
Definition SessionProtocol_client_states : list GoConst :=
  [
    ("SessionProtocolClientIdle", "Idle");
    ("SessionProtocolClientObtainBackchannelSecret", "ObtainBackchannelSecret");
    ("SessionProtocolClientConnectRelay", "ConnectRelay");
    ("SessionProtocolClientGenKeyPair", "GenKeyPair");
    ("SessionProtocolClientWaitAck", "WaitAck");
    ("SessionProtocolClientE2EReady", "E2EReady");
    ("SessionProtocolClientShowCode", "ShowCode");
    ("SessionProtocolClientWaitPairComplete", "WaitPairComplete");
    ("SessionProtocolClientPaired", "Paired");
    ("SessionProtocolClientReconnect", "Reconnect");
    ("SessionProtocolClientSendAuth", "SendAuth");
    ("SessionProtocolClientSessionActive", "SessionActive");
    ("SessionProtocolClientRelayConnected", "RelayConnected");
    ("SessionProtocolClientPairDialing", "PairDialing");
    ("SessionProtocolClientPairChecking", "PairChecking");
    ("SessionProtocolClientAltActive", "AltActive");
    ("SessionProtocolClientRelayFallback", "RelayFallback")].
Definition SessionProtocol_relay_states : list GoConst :=
  [
    ("SessionProtocolRelayIdle", "Idle");
    ("SessionProtocolRelayBackendRegistered", "BackendRegistered");
    ("SessionProtocolRelayBridged", "Bridged")].
Definition SessionProtocol_message_types : list GoConst :=
  [
    ("SessionProtocolMsgPairHello", "pair_hello");
    ("SessionProtocolMsgPairHelloAck", "pair_hello_ack");
    ("SessionProtocolMsgPairConfirm", "pair_confirm");
    ("SessionProtocolMsgPairComplete", "pair_complete");
    ("SessionProtocolMsgAuthRequest", "auth_request");
    ("SessionProtocolMsgAuthOk", "auth_ok");
    ("SessionProtocolMsgCandidates", "candidates");
    ("SessionProtocolMsgPairCheck", "pair_check");
    ("SessionProtocolMsgPairCheckAck", "pair_check_ack");
    ("SessionProtocolMsgPathPing", "path_ping");
    ("SessionProtocolMsgPathPong", "path_pong")].
Definition SessionProtocol_guards : list GoConst :=
  [
    ("SessionProtocolGuardTokenValid", "token_valid");
    ("SessionProtocolGuardTokenInvalid", "token_invalid");
    ("SessionProtocolGuardCodeCorrect", "code_correct");
    ("SessionProtocolGuardCodeWrong", "code_wrong");
    ("SessionProtocolGuardDeviceKnown", "device_known");
    ("SessionProtocolGuardDeviceUnknown", "device_unknown");
    ("SessionProtocolGuardNonceFresh", "nonce_fresh");
    ("SessionProtocolGuardChallengeValid", "challenge_valid");
    ("SessionProtocolGuardChallengeInvalid", "challenge_invalid");
    ("SessionProtocolGuardAltEnabled", "alt_enabled");
    ("SessionProtocolGuardAltDisabled", "alt_disabled");
    ("SessionProtocolGuardLocalCandidatesAvailable", "local_candidates_available");
    ("SessionProtocolGuardUnderMaxFailures", "under_max_failures");
    ("SessionProtocolGuardAtMaxFailures", "at_max_failures")].
Definition SessionProtocol_actions : list GoConst :=
  [
    ("SessionProtocolActionActivateLan", "activate_lan");
    ("SessionProtocolActionBridgeStreams", "bridge_streams");
    ("SessionProtocolActionDeriveSecret", "derive_secret");
    ("SessionProtocolActionDialCandidate", "dial_candidate");
    ("SessionProtocolActionFallbackToRelay", "fallback_to_relay");
    ("SessionProtocolActionGenerateToken", "generate_token");
    ("SessionProtocolActionRegisterRelay", "register_relay");
    ("SessionProtocolActionResetFailures", "reset_failures");
    ("SessionProtocolActionSendPairHello", "send_pair_hello");
    ("SessionProtocolActionStoreDevice", "store_device");
    ("SessionProtocolActionStoreSecret", "store_secret");
    ("SessionProtocolActionUnbridge", "unbridge");
    ("SessionProtocolActionVerifyDevice", "verify_device")].
Definition SessionProtocol_events : list GoConst :=
  [
    ("SessionProtocolEventAltDatagram", "alt_datagram");
    ("SessionProtocolEventAltError", "alt_error");
    ("SessionProtocolEventAltStreamData", "alt_stream_data");
    ("SessionProtocolEventAltStreamError", "alt_stream_error");
    ("SessionProtocolEventAppClose", "app_close");
    ("SessionProtocolEventAppForceFallback", "app_force_fallback");
    ("SessionProtocolEventAppLaunch", "app_launch");
    ("SessionProtocolEventAppRecv", "app_recv");
    ("SessionProtocolEventAppRecvDatagram", "app_recv_datagram");
    ("SessionProtocolEventAppSend", "app_send");
    ("SessionProtocolEventAppSendDatagram", "app_send_datagram");
    ("SessionProtocolEventBackchannelReceived", "backchannel_received");
    ("SessionProtocolEventBackendDisconnect", "backend_disconnect");
    ("SessionProtocolEventBackendRegister", "backend_register");
    ("SessionProtocolEventBackoffExpired", "backoff_expired");
    ("SessionProtocolEventCandidatesChanged", "candidates_changed");
    ("SessionProtocolEventCandidatesGathered", "candidates_gathered");
    ("SessionProtocolEventCandidatesRefreshTick", "candidates_refresh_tick");
    ("SessionProtocolEventCandidatesTimeout", "candidates_timeout");
    ("SessionProtocolEventCheckCode", "check_code");
    ("SessionProtocolEventCliCodeEntered", "cli_code_entered");
    ("SessionProtocolEventCliInitPair", "cli_init_pair");
    ("SessionProtocolEventClientConnect", "client_connect");
    ("SessionProtocolEventClientDisconnect", "client_disconnect");
    ("SessionProtocolEventCodeDisplayed", "code_displayed");
    ("SessionProtocolEventDialFailed", "dial_failed");
    ("SessionProtocolEventDialOk", "dial_ok");
    ("SessionProtocolEventDisconnect", "disconnect");
    ("SessionProtocolEventEcdhComplete", "ecdh_complete");
    ("SessionProtocolEventFinalise", "finalise");
    ("SessionProtocolEventKeyPairGenerated", "key_pair_generated");
    ("SessionProtocolEventPairCheckOk", "pair_check_ok");
    ("SessionProtocolEventPingTick", "ping_tick");
    ("SessionProtocolEventPingTimeout", "ping_timeout");
    ("SessionProtocolEventRecvAuthOk", "recv_auth_ok");
    ("SessionProtocolEventRecvAuthRequest", "recv_auth_request");
    ("SessionProtocolEventRecvCandidates", "recv_candidates");
    ("SessionProtocolEventRecvPairCheck", "recv_pair_check");
    ("SessionProtocolEventRecvPairCheckAck", "recv_pair_check_ack");
    ("SessionProtocolEventRecvPairComplete", "recv_pair_complete");
    ("SessionProtocolEventRecvPairConfirm", "recv_pair_confirm");
    ("SessionProtocolEventRecvPairHello", "recv_pair_hello");
    ("SessionProtocolEventRecvPairHelloAck", "recv_pair_hello_ack");
    ("SessionProtocolEventRecvPathPing", "recv_path_ping");
    ("SessionProtocolEventRecvPathPong", "recv_path_pong");
    ("SessionProtocolEventRelayConnected", "relay_connected");
    ("SessionProtocolEventRelayDatagram", "relay_datagram");
    ("SessionProtocolEventRelayOk", "relay_ok");
    ("SessionProtocolEventRelayRegistered", "relay_registered");
    ("SessionProtocolEventRelayStreamData", "relay_stream_data");
    ("SessionProtocolEventRelayStreamError", "relay_stream_error");
    ("SessionProtocolEventSecretParsed", "secret_parsed");
    ("SessionProtocolEventSessionEstablished", "session_established");
    ("SessionProtocolEventSignalCodeDisplay", "signal_code_display");
    ("SessionProtocolEventTokenCreated", "token_created");
    ("SessionProtocolEventVerify", "verify");
    ("SessionProtocolEventVerifyTimeout", "verify_timeout")].
Definition SessionProtocol_commands : list GoConst :=
  [
    ("SessionProtocolCmdWriteActiveStream", "write_active_stream");
    ("SessionProtocolCmdSendActiveDatagram", "send_active_datagram");
    ("SessionProtocolCmdSendPathPing", "send_path_ping");
    ("SessionProtocolCmdSendPathPong", "send_path_pong");
    ("SessionProtocolCmdSendCandidates", "send_candidates");
    ("SessionProtocolCmdSendPairCheck", "send_pair_check");
    ("SessionProtocolCmdSendPairCheckAck", "send_pair_check_ack");
    ("SessionProtocolCmdDialCandidate", "dial_candidate");
    ("SessionProtocolCmdDeliverRecv", "deliver_recv");
    ("SessionProtocolCmdDeliverRecvError", "deliver_recv_error");
    ("SessionProtocolCmdDeliverRecvDatagram", "deliver_recv_datagram");
    ("SessionProtocolCmdStartAltStreamReader", "start_alt_stream_reader");
    ("SessionProtocolCmdStopAltStreamReader", "stop_alt_stream_reader");
    ("SessionProtocolCmdStartAltDgReader", "start_alt_dg_reader");
    ("SessionProtocolCmdStopAltDgReader", "stop_alt_dg_reader");
    ("SessionProtocolCmdStartMonitor", "start_monitor");
    ("SessionProtocolCmdStopMonitor", "stop_monitor");
    ("SessionProtocolCmdStartPongTimeout", "start_pong_timeout");
    ("SessionProtocolCmdCancelPongTimeout", "cancel_pong_timeout");
    ("SessionProtocolCmdStartBackoffTimer", "start_backoff_timer");
    ("SessionProtocolCmdCloseAltPath", "close_alt_path");
    ("SessionProtocolCmdSignalAltReady", "signal_alt_ready");
    ("SessionProtocolCmdResetAltReady", "reset_alt_ready");
    ("SessionProtocolCmdSetCryptoDatagram", "set_crypto_datagram")].

Definition SessionProtocol_consts : list GoConst :=
  SessionProtocol_backend_states ++ SessionProtocol_client_states ++ SessionProtocol_relay_states ++
      SessionProtocol_message_types ++ SessionProtocol_guards ++ SessionProtocol_actions ++
      SessionProtocol_events ++ SessionProtocol_commands.

(** ** Wire constants and structs *)

Definition SessionProtocol_wire_constants : list GoWireConst :=
  [
    ("DgConnWhole", "byte", VInt 0);
    ("DgPing", "byte", VInt 16);
    ("DgPong", "byte", VInt 17);
    ("DgConnFragment", "byte", VInt 64);
    ("DgChanWhole", "byte", VInt 128);
    ("DgChanFragment", "byte", VInt 192);
    ("FragHeaderSize", EmptyString, VInt 8);
    ("ChanIdSize", EmptyString, VInt 2);
    ("MaxDatagramPayload", EmptyString, VInt 1200);
    ("FragmentTimeoutMs", EmptyString, VInt 5000);
    ("FrameApp", "byte", VInt 0);
    ("FrameCandidates", "byte", VInt 1);
    ("FrameCutover", "byte", VInt 2);
    ("FramePairCheck", "byte", VInt 3);
    ("FramePairCheckAck", "byte", VInt 4);
    ("CandHost", EmptyString, VStr "host");
    ("CandSrflx", EmptyString, VStr "srflx");
    ("MaxMessageSize", EmptyString, VInt 1048576);
    ("LengthPrefixSize", EmptyString, VInt 4);
    ("PingIntervalMs", EmptyString, VInt 5000);
    ("PongTimeoutMs", EmptyString, VInt 4000);
    ("MaxPingFailures", EmptyString, VInt 3);
    ("MaxBackoffLevel", EmptyString, VInt 5);
    ("StreamChannelOpenerSuffix", EmptyString, VStr ":o2a");
    ("StreamChannelAcceptSuffix", EmptyString, VStr ":a2o");
    ("DgChannelSendSuffix", EmptyString, VStr ":dg:send");
    ("DgChannelRecvSuffix", EmptyString, VStr ":dg:recv");
    ("ChannelIdHashMultiplier", EmptyString, VInt 31)].
Definition SessionProtocol_structs : list (string * list (string * string)) :=
  [
    ("ECDHState", [("BackendPub", "string"); ("ClientPub", "string"); ("SharedKey", "string"); ("Code",
        "string")]);
    ("TokenState", [("Current", "string"); ("Active", "frozen.Set[string]"); ("Used", "frozen.Set[string]")]);
    ("BackendPathState", [("ActivePath", "string"); ("DispatcherPath", "string"); ("MonitorTarget", "string");
        ("AltSignal", "string")]);
    ("ClientPathState", [("ActivePath", "string"); ("DispatcherPath", "string")]);
    ("Candidate", [("Kind", "string"); ("Addr", "string"); ("Priority", "int"); ("CandId", "string")])].

(** ** The machines *)

Module SessionProtocolBackendMachine.

Record SessionProtocolBackendMachine := {
  CurrentToken : string;
  ActiveTokens : gset string;
  UsedTokens : gset string;
  BackendEcdhPub : string;
  ReceivedClientPub : string;
  BackendSharedKey : string;
  BackendCode : string;
  ReceivedCode : string;
  CodeAttempts : Z;
  DeviceSecret : string;
  PairedDevices : gset string;
  ReceivedDeviceId : string;
  AuthNoncesUsed : gset string;
  ReceivedAuthNonce : string;
  SecretPublished : bool;
  PingFailures : Z;
  BackoffLevel : Z;
  BActivePath : string;
  BDispatcherPath : string;
  MonitorTarget : string;
  AltSignal : string
}.

Definition set_CurrentToken (x : string) (m : SessionProtocolBackendMachine) : SessionProtocolBackendMachine :=
  {| CurrentToken := x; ActiveTokens := ActiveTokens m; UsedTokens := UsedTokens m; BackendEcdhPub :=
      BackendEcdhPub m; ReceivedClientPub := ReceivedClientPub m; BackendSharedKey := BackendSharedKey m;
      BackendCode := BackendCode m; ReceivedCode := ReceivedCode m; CodeAttempts := CodeAttempts m; DeviceSecret
      := DeviceSecret m; PairedDevices := PairedDevices m; ReceivedDeviceId := ReceivedDeviceId m;
      AuthNoncesUsed := AuthNoncesUsed m; ReceivedAuthNonce := ReceivedAuthNonce m; SecretPublished :=
      SecretPublished m; PingFailures := PingFailures m; BackoffLevel := BackoffLevel m; BActivePath :=
      BActivePath m; BDispatcherPath := BDispatcherPath m; MonitorTarget := MonitorTarget m; AltSignal :=
      AltSignal m |}.
Definition set_ActiveTokens (x : gset string) (m : SessionProtocolBackendMachine) :
    SessionProtocolBackendMachine :=
  {| CurrentToken := CurrentToken m; ActiveTokens := x; UsedTokens := UsedTokens m; BackendEcdhPub :=
      BackendEcdhPub m; ReceivedClientPub := ReceivedClientPub m; BackendSharedKey := BackendSharedKey m;
      BackendCode := BackendCode m; ReceivedCode := ReceivedCode m; CodeAttempts := CodeAttempts m; DeviceSecret
      := DeviceSecret m; PairedDevices := PairedDevices m; ReceivedDeviceId := ReceivedDeviceId m;
      AuthNoncesUsed := AuthNoncesUsed m; ReceivedAuthNonce := ReceivedAuthNonce m; SecretPublished :=
      SecretPublished m; PingFailures := PingFailures m; BackoffLevel := BackoffLevel m; BActivePath :=
      BActivePath m; BDispatcherPath := BDispatcherPath m; MonitorTarget := MonitorTarget m; AltSignal :=
      AltSignal m |}.
Definition set_UsedTokens (x : gset string) (m : SessionProtocolBackendMachine) : SessionProtocolBackendMachine
    :=
  {| CurrentToken := CurrentToken m; ActiveTokens := ActiveTokens m; UsedTokens := x; BackendEcdhPub :=
      BackendEcdhPub m; ReceivedClientPub := ReceivedClientPub m; BackendSharedKey := BackendSharedKey m;
      BackendCode := BackendCode m; ReceivedCode := ReceivedCode m; CodeAttempts := CodeAttempts m; DeviceSecret
      := DeviceSecret m; PairedDevices := PairedDevices m; ReceivedDeviceId := ReceivedDeviceId m;
      AuthNoncesUsed := AuthNoncesUsed m; ReceivedAuthNonce := ReceivedAuthNonce m; SecretPublished :=
      SecretPublished m; PingFailures := PingFailures m; BackoffLevel := BackoffLevel m; BActivePath :=
      BActivePath m; BDispatcherPath := BDispatcherPath m; MonitorTarget := MonitorTarget m; AltSignal :=
      AltSignal m |}.
Definition set_BackendEcdhPub (x : string) (m : SessionProtocolBackendMachine) : SessionProtocolBackendMachine
    :=
  {| CurrentToken := CurrentToken m; ActiveTokens := ActiveTokens m; UsedTokens := UsedTokens m; BackendEcdhPub
      := x; ReceivedClientPub := ReceivedClientPub m; BackendSharedKey := BackendSharedKey m; BackendCode :=
      BackendCode m; ReceivedCode := ReceivedCode m; CodeAttempts := CodeAttempts m; DeviceSecret :=
      DeviceSecret m; PairedDevices := PairedDevices m; ReceivedDeviceId := ReceivedDeviceId m; AuthNoncesUsed
      := AuthNoncesUsed m; ReceivedAuthNonce := ReceivedAuthNonce m; SecretPublished := SecretPublished m;
      PingFailures := PingFailures m; BackoffLevel := BackoffLevel m; BActivePath := BActivePath m;
      BDispatcherPath := BDispatcherPath m; MonitorTarget := MonitorTarget m; AltSignal := AltSignal m |}.
Definition set_ReceivedClientPub (x : string) (m : SessionProtocolBackendMachine) :
    SessionProtocolBackendMachine :=
  {| CurrentToken := CurrentToken m; ActiveTokens := ActiveTokens m; UsedTokens := UsedTokens m; BackendEcdhPub
      := BackendEcdhPub m; ReceivedClientPub := x; BackendSharedKey := BackendSharedKey m; BackendCode :=
      BackendCode m; ReceivedCode := ReceivedCode m; CodeAttempts := CodeAttempts m; DeviceSecret :=
      DeviceSecret m; PairedDevices := PairedDevices m; ReceivedDeviceId := ReceivedDeviceId m; AuthNoncesUsed
      := AuthNoncesUsed m; ReceivedAuthNonce := ReceivedAuthNonce m; SecretPublished := SecretPublished m;
      PingFailures := PingFailures m; BackoffLevel := BackoffLevel m; BActivePath := BActivePath m;
      BDispatcherPath := BDispatcherPath m; MonitorTarget := MonitorTarget m; AltSignal := AltSignal m |}.
Definition set_BackendSharedKey (x : string) (m : SessionProtocolBackendMachine) : SessionProtocolBackendMachine
    :=
  {| CurrentToken := CurrentToken m; ActiveTokens := ActiveTokens m; UsedTokens := UsedTokens m; BackendEcdhPub
      := BackendEcdhPub m; ReceivedClientPub := ReceivedClientPub m; BackendSharedKey := x; BackendCode :=
      BackendCode m; ReceivedCode := ReceivedCode m; CodeAttempts := CodeAttempts m; DeviceSecret :=
      DeviceSecret m; PairedDevices := PairedDevices m; ReceivedDeviceId := ReceivedDeviceId m; AuthNoncesUsed
      := AuthNoncesUsed m; ReceivedAuthNonce := ReceivedAuthNonce m; SecretPublished := SecretPublished m;
      PingFailures := PingFailures m; BackoffLevel := BackoffLevel m; BActivePath := BActivePath m;
      BDispatcherPath := BDispatcherPath m; MonitorTarget := MonitorTarget m; AltSignal := AltSignal m |}.
Definition set_BackendCode (x : string) (m : SessionProtocolBackendMachine) : SessionProtocolBackendMachine :=
  {| CurrentToken := CurrentToken m; ActiveTokens := ActiveTokens m; UsedTokens := UsedTokens m; BackendEcdhPub
      := BackendEcdhPub m; ReceivedClientPub := ReceivedClientPub m; BackendSharedKey := BackendSharedKey m;
      BackendCode := x; ReceivedCode := ReceivedCode m; CodeAttempts := CodeAttempts m; DeviceSecret :=
      DeviceSecret m; PairedDevices := PairedDevices m; ReceivedDeviceId := ReceivedDeviceId m; AuthNoncesUsed
      := AuthNoncesUsed m; ReceivedAuthNonce := ReceivedAuthNonce m; SecretPublished := SecretPublished m;
      PingFailures := PingFailures m; BackoffLevel := BackoffLevel m; BActivePath := BActivePath m;
      BDispatcherPath := BDispatcherPath m; MonitorTarget := MonitorTarget m; AltSignal := AltSignal m |}.
Definition set_ReceivedCode (x : string) (m : SessionProtocolBackendMachine) : SessionProtocolBackendMachine :=
  {| CurrentToken := CurrentToken m; ActiveTokens := ActiveTokens m; UsedTokens := UsedTokens m; BackendEcdhPub
      := BackendEcdhPub m; ReceivedClientPub := ReceivedClientPub m; BackendSharedKey := BackendSharedKey m;
      BackendCode := BackendCode m; ReceivedCode := x; CodeAttempts := CodeAttempts m; DeviceSecret :=
      DeviceSecret m; PairedDevices := PairedDevices m; ReceivedDeviceId := ReceivedDeviceId m; AuthNoncesUsed
      := AuthNoncesUsed m; ReceivedAuthNonce := ReceivedAuthNonce m; SecretPublished := SecretPublished m;
      PingFailures := PingFailures m; BackoffLevel := BackoffLevel m; BActivePath := BActivePath m;
      BDispatcherPath := BDispatcherPath m; MonitorTarget := MonitorTarget m; AltSignal := AltSignal m |}.
Definition set_CodeAttempts (x : Z) (m : SessionProtocolBackendMachine) : SessionProtocolBackendMachine :=
  {| CurrentToken := CurrentToken m; ActiveTokens := ActiveTokens m; UsedTokens := UsedTokens m; BackendEcdhPub
      := BackendEcdhPub m; ReceivedClientPub := ReceivedClientPub m; BackendSharedKey := BackendSharedKey m;
      BackendCode := BackendCode m; ReceivedCode := ReceivedCode m; CodeAttempts := x; DeviceSecret :=
      DeviceSecret m; PairedDevices := PairedDevices m; ReceivedDeviceId := ReceivedDeviceId m; AuthNoncesUsed
      := AuthNoncesUsed m; ReceivedAuthNonce := ReceivedAuthNonce m; SecretPublished := SecretPublished m;
      PingFailures := PingFailures m; BackoffLevel := BackoffLevel m; BActivePath := BActivePath m;
      BDispatcherPath := BDispatcherPath m; MonitorTarget := MonitorTarget m; AltSignal := AltSignal m |}.
Definition set_DeviceSecret (x : string) (m : SessionProtocolBackendMachine) : SessionProtocolBackendMachine :=
  {| CurrentToken := CurrentToken m; ActiveTokens := ActiveTokens m; UsedTokens := UsedTokens m; BackendEcdhPub
      := BackendEcdhPub m; ReceivedClientPub := ReceivedClientPub m; BackendSharedKey := BackendSharedKey m;
      BackendCode := BackendCode m; ReceivedCode := ReceivedCode m; CodeAttempts := CodeAttempts m; DeviceSecret
      := x; PairedDevices := PairedDevices m; ReceivedDeviceId := ReceivedDeviceId m; AuthNoncesUsed :=
      AuthNoncesUsed m; ReceivedAuthNonce := ReceivedAuthNonce m; SecretPublished := SecretPublished m;
      PingFailures := PingFailures m; BackoffLevel := BackoffLevel m; BActivePath := BActivePath m;
      BDispatcherPath := BDispatcherPath m; MonitorTarget := MonitorTarget m; AltSignal := AltSignal m |}.
Definition set_PairedDevices (x : gset string) (m : SessionProtocolBackendMachine) :
    SessionProtocolBackendMachine :=
  {| CurrentToken := CurrentToken m; ActiveTokens := ActiveTokens m; UsedTokens := UsedTokens m; BackendEcdhPub
      := BackendEcdhPub m; ReceivedClientPub := ReceivedClientPub m; BackendSharedKey := BackendSharedKey m;
      BackendCode := BackendCode m; ReceivedCode := ReceivedCode m; CodeAttempts := CodeAttempts m; DeviceSecret
      := DeviceSecret m; PairedDevices := x; ReceivedDeviceId := ReceivedDeviceId m; AuthNoncesUsed :=
      AuthNoncesUsed m; ReceivedAuthNonce := ReceivedAuthNonce m; SecretPublished := SecretPublished m;
      PingFailures := PingFailures m; BackoffLevel := BackoffLevel m; BActivePath := BActivePath m;
      BDispatcherPath := BDispatcherPath m; MonitorTarget := MonitorTarget m; AltSignal := AltSignal m |}.
Definition set_ReceivedDeviceId (x : string) (m : SessionProtocolBackendMachine) : SessionProtocolBackendMachine
    :=
  {| CurrentToken := CurrentToken m; ActiveTokens := ActiveTokens m; UsedTokens := UsedTokens m; BackendEcdhPub
      := BackendEcdhPub m; ReceivedClientPub := ReceivedClientPub m; BackendSharedKey := BackendSharedKey m;
      BackendCode := BackendCode m; ReceivedCode := ReceivedCode m; CodeAttempts := CodeAttempts m; DeviceSecret
      := DeviceSecret m; PairedDevices := PairedDevices m; ReceivedDeviceId := x; AuthNoncesUsed :=
      AuthNoncesUsed m; ReceivedAuthNonce := ReceivedAuthNonce m; SecretPublished := SecretPublished m;
      PingFailures := PingFailures m; BackoffLevel := BackoffLevel m; BActivePath := BActivePath m;
      BDispatcherPath := BDispatcherPath m; MonitorTarget := MonitorTarget m; AltSignal := AltSignal m |}.
Definition set_AuthNoncesUsed (x : gset string) (m : SessionProtocolBackendMachine) :
    SessionProtocolBackendMachine :=
  {| CurrentToken := CurrentToken m; ActiveTokens := ActiveTokens m; UsedTokens := UsedTokens m; BackendEcdhPub
      := BackendEcdhPub m; ReceivedClientPub := ReceivedClientPub m; BackendSharedKey := BackendSharedKey m;
      BackendCode := BackendCode m; ReceivedCode := ReceivedCode m; CodeAttempts := CodeAttempts m; DeviceSecret
      := DeviceSecret m; PairedDevices := PairedDevices m; ReceivedDeviceId := ReceivedDeviceId m;
      AuthNoncesUsed := x; ReceivedAuthNonce := ReceivedAuthNonce m; SecretPublished := SecretPublished m;
      PingFailures := PingFailures m; BackoffLevel := BackoffLevel m; BActivePath := BActivePath m;
      BDispatcherPath := BDispatcherPath m; MonitorTarget := MonitorTarget m; AltSignal := AltSignal m |}.
Definition set_ReceivedAuthNonce (x : string) (m : SessionProtocolBackendMachine) :
    SessionProtocolBackendMachine :=
  {| CurrentToken := CurrentToken m; ActiveTokens := ActiveTokens m; UsedTokens := UsedTokens m; BackendEcdhPub
      := BackendEcdhPub m; ReceivedClientPub := ReceivedClientPub m; BackendSharedKey := BackendSharedKey m;
      BackendCode := BackendCode m; ReceivedCode := ReceivedCode m; CodeAttempts := CodeAttempts m; DeviceSecret
      := DeviceSecret m; PairedDevices := PairedDevices m; ReceivedDeviceId := ReceivedDeviceId m;
      AuthNoncesUsed := AuthNoncesUsed m; ReceivedAuthNonce := x; SecretPublished := SecretPublished m;
      PingFailures := PingFailures m; BackoffLevel := BackoffLevel m; BActivePath := BActivePath m;
      BDispatcherPath := BDispatcherPath m; MonitorTarget := MonitorTarget m; AltSignal := AltSignal m |}.
Definition set_SecretPublished (x : bool) (m : SessionProtocolBackendMachine) : SessionProtocolBackendMachine :=
  {| CurrentToken := CurrentToken m; ActiveTokens := ActiveTokens m; UsedTokens := UsedTokens m; BackendEcdhPub
      := BackendEcdhPub m; ReceivedClientPub := ReceivedClientPub m; BackendSharedKey := BackendSharedKey m;
      BackendCode := BackendCode m; ReceivedCode := ReceivedCode m; CodeAttempts := CodeAttempts m; DeviceSecret
      := DeviceSecret m; PairedDevices := PairedDevices m; ReceivedDeviceId := ReceivedDeviceId m;
      AuthNoncesUsed := AuthNoncesUsed m; ReceivedAuthNonce := ReceivedAuthNonce m; SecretPublished := x;
      PingFailures := PingFailures m; BackoffLevel := BackoffLevel m; BActivePath := BActivePath m;
      BDispatcherPath := BDispatcherPath m; MonitorTarget := MonitorTarget m; AltSignal := AltSignal m |}.
Definition set_PingFailures (x : Z) (m : SessionProtocolBackendMachine) : SessionProtocolBackendMachine :=
  {| CurrentToken := CurrentToken m; ActiveTokens := ActiveTokens m; UsedTokens := UsedTokens m; BackendEcdhPub
      := BackendEcdhPub m; ReceivedClientPub := ReceivedClientPub m; BackendSharedKey := BackendSharedKey m;
      BackendCode := BackendCode m; ReceivedCode := ReceivedCode m; CodeAttempts := CodeAttempts m; DeviceSecret
      := DeviceSecret m; PairedDevices := PairedDevices m; ReceivedDeviceId := ReceivedDeviceId m;
      AuthNoncesUsed := AuthNoncesUsed m; ReceivedAuthNonce := ReceivedAuthNonce m; SecretPublished :=
      SecretPublished m; PingFailures := x; BackoffLevel := BackoffLevel m; BActivePath := BActivePath m;
      BDispatcherPath := BDispatcherPath m; MonitorTarget := MonitorTarget m; AltSignal := AltSignal m |}.
Definition set_BackoffLevel (x : Z) (m : SessionProtocolBackendMachine) : SessionProtocolBackendMachine :=
  {| CurrentToken := CurrentToken m; ActiveTokens := ActiveTokens m; UsedTokens := UsedTokens m; BackendEcdhPub
      := BackendEcdhPub m; ReceivedClientPub := ReceivedClientPub m; BackendSharedKey := BackendSharedKey m;
      BackendCode := BackendCode m; ReceivedCode := ReceivedCode m; CodeAttempts := CodeAttempts m; DeviceSecret
      := DeviceSecret m; PairedDevices := PairedDevices m; ReceivedDeviceId := ReceivedDeviceId m;
      AuthNoncesUsed := AuthNoncesUsed m; ReceivedAuthNonce := ReceivedAuthNonce m; SecretPublished :=
      SecretPublished m; PingFailures := PingFailures m; BackoffLevel := x; BActivePath := BActivePath m;
      BDispatcherPath := BDispatcherPath m; MonitorTarget := MonitorTarget m; AltSignal := AltSignal m |}.
Definition set_BActivePath (x : string) (m : SessionProtocolBackendMachine) : SessionProtocolBackendMachine :=
  {| CurrentToken := CurrentToken m; ActiveTokens := ActiveTokens m; UsedTokens := UsedTokens m; BackendEcdhPub
      := BackendEcdhPub m; ReceivedClientPub := ReceivedClientPub m; BackendSharedKey := BackendSharedKey m;
      BackendCode := BackendCode m; ReceivedCode := ReceivedCode m; CodeAttempts := CodeAttempts m; DeviceSecret
      := DeviceSecret m; PairedDevices := PairedDevices m; ReceivedDeviceId := ReceivedDeviceId m;
      AuthNoncesUsed := AuthNoncesUsed m; ReceivedAuthNonce := ReceivedAuthNonce m; SecretPublished :=
      SecretPublished m; PingFailures := PingFailures m; BackoffLevel := BackoffLevel m; BActivePath := x;
      BDispatcherPath := BDispatcherPath m; MonitorTarget := MonitorTarget m; AltSignal := AltSignal m |}.
Definition set_BDispatcherPath (x : string) (m : SessionProtocolBackendMachine) : SessionProtocolBackendMachine
    :=
  {| CurrentToken := CurrentToken m; ActiveTokens := ActiveTokens m; UsedTokens := UsedTokens m; BackendEcdhPub
      := BackendEcdhPub m; ReceivedClientPub := ReceivedClientPub m; BackendSharedKey := BackendSharedKey m;
      BackendCode := BackendCode m; ReceivedCode := ReceivedCode m; CodeAttempts := CodeAttempts m; DeviceSecret
      := DeviceSecret m; PairedDevices := PairedDevices m; ReceivedDeviceId := ReceivedDeviceId m;
      AuthNoncesUsed := AuthNoncesUsed m; ReceivedAuthNonce := ReceivedAuthNonce m; SecretPublished :=
      SecretPublished m; PingFailures := PingFailures m; BackoffLevel := BackoffLevel m; BActivePath :=
      BActivePath m; BDispatcherPath := x; MonitorTarget := MonitorTarget m; AltSignal := AltSignal m |}.
Definition set_MonitorTarget (x : string) (m : SessionProtocolBackendMachine) : SessionProtocolBackendMachine :=
  {| CurrentToken := CurrentToken m; ActiveTokens := ActiveTokens m; UsedTokens := UsedTokens m; BackendEcdhPub
      := BackendEcdhPub m; ReceivedClientPub := ReceivedClientPub m; BackendSharedKey := BackendSharedKey m;
      BackendCode := BackendCode m; ReceivedCode := ReceivedCode m; CodeAttempts := CodeAttempts m; DeviceSecret
      := DeviceSecret m; PairedDevices := PairedDevices m; ReceivedDeviceId := ReceivedDeviceId m;
      AuthNoncesUsed := AuthNoncesUsed m; ReceivedAuthNonce := ReceivedAuthNonce m; SecretPublished :=
      SecretPublished m; PingFailures := PingFailures m; BackoffLevel := BackoffLevel m; BActivePath :=
      BActivePath m; BDispatcherPath := BDispatcherPath m; MonitorTarget := x; AltSignal := AltSignal m |}.
Definition set_AltSignal (x : string) (m : SessionProtocolBackendMachine) : SessionProtocolBackendMachine :=
  {| CurrentToken := CurrentToken m; ActiveTokens := ActiveTokens m; UsedTokens := UsedTokens m; BackendEcdhPub
      := BackendEcdhPub m; ReceivedClientPub := ReceivedClientPub m; BackendSharedKey := BackendSharedKey m;
      BackendCode := BackendCode m; ReceivedCode := ReceivedCode m; CodeAttempts := CodeAttempts m; DeviceSecret
      := DeviceSecret m; PairedDevices := PairedDevices m; ReceivedDeviceId := ReceivedDeviceId m;
      AuthNoncesUsed := AuthNoncesUsed m; ReceivedAuthNonce := ReceivedAuthNonce m; SecretPublished :=
      SecretPublished m; PingFailures := PingFailures m; BackoffLevel := BackoffLevel m; BActivePath :=
      BActivePath m; BDispatcherPath := BDispatcherPath m; MonitorTarget := MonitorTarget m; AltSignal := x |}.

Definition fields : list (string * fieldOps SessionProtocolBackendMachine) :=
  [("CurrentToken", FString CurrentToken set_CurrentToken);
   ("ActiveTokens", FSet ActiveTokens set_ActiveTokens);
   ("UsedTokens", FSet UsedTokens set_UsedTokens);
   ("BackendEcdhPub", FString BackendEcdhPub set_BackendEcdhPub);
   ("ReceivedClientPub", FString ReceivedClientPub set_ReceivedClientPub);
   ("BackendSharedKey", FString BackendSharedKey set_BackendSharedKey);
   ("BackendCode", FString BackendCode set_BackendCode);
   ("ReceivedCode", FString ReceivedCode set_ReceivedCode);
   ("CodeAttempts", FInt CodeAttempts set_CodeAttempts);
   ("DeviceSecret", FString DeviceSecret set_DeviceSecret);
   ("PairedDevices", FSet PairedDevices set_PairedDevices);
   ("ReceivedDeviceId", FString ReceivedDeviceId set_ReceivedDeviceId);
   ("AuthNoncesUsed", FSet AuthNoncesUsed set_AuthNoncesUsed);
   ("ReceivedAuthNonce", FString ReceivedAuthNonce set_ReceivedAuthNonce);
   ("SecretPublished", FBool SecretPublished set_SecretPublished);
   ("PingFailures", FInt PingFailures set_PingFailures);
   ("BackoffLevel", FInt BackoffLevel set_BackoffLevel);
   ("BActivePath", FString BActivePath set_BActivePath);
   ("BDispatcherPath", FString BDispatcherPath set_BDispatcherPath);
   ("MonitorTarget", FString MonitorTarget set_MonitorTarget);
   ("AltSignal", FString AltSignal set_AltSignal)].
#[export] Instance vars : GoVars SessionProtocolBackendMachine := goFields fields.
Definition zero : SessionProtocolBackendMachine := {| CurrentToken := EmptyString; ActiveTokens := ∅; UsedTokens
    := ∅; BackendEcdhPub := EmptyString; ReceivedClientPub := EmptyString; BackendSharedKey := EmptyString;
    BackendCode := EmptyString; ReceivedCode := EmptyString; CodeAttempts := 0%Z; DeviceSecret := EmptyString;
    PairedDevices := ∅; ReceivedDeviceId := EmptyString; AuthNoncesUsed := ∅; ReceivedAuthNonce := EmptyString;
    SecretPublished := false; PingFailures := 0%Z; BackoffLevel := 0%Z; BActivePath := EmptyString;
    BDispatcherPath := EmptyString; MonitorTarget := EmptyString; AltSignal := EmptyString |}.

(** [NewSessionProtocolBackendMachine]: the initial state and variables. *)
Definition NewSessionProtocolBackendMachine : State * SessionProtocolBackendMachine :=
  ("Idle", {| CurrentToken := "none"; ActiveTokens := ∅; UsedTokens := ∅; BackendEcdhPub := "none";
      ReceivedClientPub := "none"; BackendSharedKey := EmptyString; BackendCode := EmptyString; ReceivedCode :=
      EmptyString; CodeAttempts := 0%Z; DeviceSecret := "none"; PairedDevices := ∅; ReceivedDeviceId := "none";
      AuthNoncesUsed := ∅; ReceivedAuthNonce := "none"; SecretPublished := false; PingFailures := 0%Z;
      BackoffLevel := 0%Z; BActivePath := "relay"; BDispatcherPath := "relay"; MonitorTarget := "none";
      AltSignal := "pending" |}).

Definition SessionProtocolBackendMachine_HandleMessage_cases : list (Case bool) := [
  case_ "WaitingForClient" "pair_hello" (Some "token_valid")
    [Act "derive_secret"; Set_ "BackendEcdhPub" (VStr "backend_pub"); Changed "backend_ecdh_pub"; Goto
        "DeriveSecret"] true;
  case_ "WaitingForClient" "pair_hello" (Some "token_invalid")
    [Goto "Idle"] true;
  case_ "Paired" "auth_request" None
    [Goto "AuthCheck"] true;
  case_ "CandidatesAdvertised" "pair_check" (Some "challenge_valid")
    [Act "activate_lan"; Set_ "PingFailures" (VInt 0); Changed "ping_failures"; Set_ "BackoffLevel" (VInt 0);
        Changed "backoff_level"; Set_ "BActivePath" (VStr "alt"); Changed "b_active_path"; Set_
        "BDispatcherPath" (VStr "alt"); Changed "b_dispatcher_path"; Set_ "MonitorTarget" (VStr "alt"); Changed
        "monitor_target"; Set_ "AltSignal" (VStr "ready"); Changed "alt_signal"; Goto "AltActive"] true;
  case_ "CandidatesAdvertised" "pair_check" (Some "challenge_invalid")
    [Goto "RelayConnected"] true;
  case_ "AltDegraded" "path_pong" None
    [Act "reset_failures"; Set_ "PingFailures" (VInt 0); Changed "ping_failures"; Goto "AltActive"] true].
Definition SessionProtocolBackendMachine_HandleMessage {H} : Callbacks SessionProtocolBackendMachine H -> string
    -> World SessionProtocolBackendMachine H -> World SessionProtocolBackendMachine H * bool * option error :=
  switch false SessionProtocolBackendMachine_HandleMessage_cases.

Definition SessionProtocolBackendMachine_Step_cases1 : list (Case bool) := [
  case_ "Idle" "cli_init_pair" None
    [Act "generate_token"; Set_ "CurrentToken" (VStr "tok_1"); Changed "current_token"; Goto "GenerateToken"]
        true;
  case_ "GenerateToken" "token_created" None
    [Act "register_relay"; Goto "RegisterRelay"] true;
  case_ "RegisterRelay" "relay_registered" None
    [Set_ "SecretPublished" (VBool true); Changed "secret_published"; Goto "WaitingForClient"] true;
  case_ "DeriveSecret" "ecdh_complete" None
    [Goto "SendAck"] true;
  case_ "SendAck" "signal_code_display" None
    [Goto "WaitingForCode"] true;
  case_ "WaitingForCode" "cli_code_entered" None
    [Goto "ValidateCode"] true;
  case_ "ValidateCode" "check_code" (Some "code_correct")
    [Goto "StorePaired"] true;
  case_ "ValidateCode" "check_code" (Some "code_wrong")
    [Incr "CodeAttempts" 1; Changed "code_attempts"; Goto "Idle"] true;
  case_ "StorePaired" "finalise" None
    [Act "store_device"; Set_ "DeviceSecret" (VStr "dev_secret_1"); Changed "device_secret"; Goto "Paired"]
        true;
  case_ "AuthCheck" "verify" (Some "device_known")
    [Act "verify_device"; Goto "SessionActive"] true;
  case_ "AuthCheck" "verify" (Some "device_unknown")
    [Goto "Idle"] true;
  case_ "SessionActive" "session_established" None
    [Goto "RelayConnected"] true;
  case_ "RelayConnected" "candidates_gathered" None
    [Goto "CandidatesAdvertised"] true;
  case_ "CandidatesAdvertised" "candidates_timeout" None
    [Set_ "AltSignal" (VStr "pending"); Changed "alt_signal"; Goto "RelayBackoff"] true;
  case_ "AltActive" "ping_tick" None
    [Goto "AltActive"] true;
  case_ "AltActive" "ping_timeout" None
    [Set_ "PingFailures" (VInt 1); Changed "ping_failures"; Goto "AltDegraded"] true;
  case_ "AltDegraded" "ping_tick" None
    [Goto "AltDegraded"] true;
  case_ "AltActive" "alt_stream_error" None
    [Act "fallback_to_relay"; Set_ "BActivePath" (VStr "relay"); Changed "b_active_path"; Set_ "BDispatcherPath"
        (VStr "relay"); Changed "b_dispatcher_path"; Set_ "MonitorTarget" (VStr "none"); Changed
        "monitor_target"; Set_ "AltSignal" (VStr "pending"); Changed "alt_signal"; Set_ "PingFailures" (VInt 0);
        Changed "ping_failures"; Goto "RelayBackoff"] true].
Definition SessionProtocolBackendMachine_Step_cases2 : list (Case bool) := [
  case_ "AltDegraded" "alt_stream_error" None
    [Act "fallback_to_relay"; Set_ "BActivePath" (VStr "relay"); Changed "b_active_path"; Set_ "BDispatcherPath"
        (VStr "relay"); Changed "b_dispatcher_path"; Set_ "MonitorTarget" (VStr "none"); Changed
        "monitor_target"; Set_ "AltSignal" (VStr "pending"); Changed "alt_signal"; Set_ "PingFailures" (VInt 0);
        Changed "ping_failures"; Goto "RelayBackoff"] true;
  case_ "AltDegraded" "ping_timeout" (Some "under_max_failures")
    [Incr "PingFailures" 1; Changed "ping_failures"; Goto "AltDegraded"] true;
  case_ "AltDegraded" "ping_timeout" (Some "at_max_failures")
    [Act "fallback_to_relay"; Set_ "BActivePath" (VStr "relay"); Changed "b_active_path"; Set_ "BDispatcherPath"
        (VStr "relay"); Changed "b_dispatcher_path"; Set_ "MonitorTarget" (VStr "none"); Changed
        "monitor_target"; Set_ "AltSignal" (VStr "pending"); Changed "alt_signal"; Set_ "PingFailures" (VInt 0);
        Changed "ping_failures"; Goto "RelayBackoff"] true;
  case_ "RelayBackoff" "backoff_expired" None
    [Goto "CandidatesAdvertised"] true;
  case_ "RelayBackoff" "candidates_changed" None
    [Set_ "BackoffLevel" (VInt 0); Changed "backoff_level"; Goto "CandidatesAdvertised"] true;
  case_ "RelayConnected" "candidates_refresh_tick" (Some "local_candidates_available")
    [Goto "CandidatesAdvertised"] true;
  case_ "CandidatesAdvertised" "app_force_fallback" None
    [Set_ "AltSignal" (VStr "pending"); Changed "alt_signal"; Goto "RelayConnected"] true;
  case_ "AltActive" "app_force_fallback" None
    [Act "fallback_to_relay"; Set_ "BActivePath" (VStr "relay"); Changed "b_active_path"; Set_ "BDispatcherPath"
        (VStr "relay"); Changed "b_dispatcher_path"; Set_ "MonitorTarget" (VStr "none"); Changed
        "monitor_target"; Set_ "AltSignal" (VStr "pending"); Changed "alt_signal"; Set_ "PingFailures" (VInt 0);
        Changed "ping_failures"; Goto "RelayBackoff"] true].
Definition SessionProtocolBackendMachine_Step_cases3 : list (Case bool) := [
  case_ "AltDegraded" "app_force_fallback" None
    [Act "fallback_to_relay"; Set_ "BActivePath" (VStr "relay"); Changed "b_active_path"; Set_ "BDispatcherPath"
        (VStr "relay"); Changed "b_dispatcher_path"; Set_ "MonitorTarget" (VStr "none"); Changed
        "monitor_target"; Set_ "AltSignal" (VStr "pending"); Changed "alt_signal"; Set_ "PingFailures" (VInt 0);
        Changed "ping_failures"; Goto "RelayBackoff"] true;
  case_ "RelayConnected" "disconnect" None
    [Goto "Paired"] true;
  case_ "RelayConnected" "app_send" None
    [Goto "RelayConnected"] true;
  case_ "CandidatesAdvertised" "app_send" None
    [Goto "CandidatesAdvertised"] true;
  case_ "AltActive" "app_send" None
    [Goto "AltActive"] true;
  case_ "AltDegraded" "app_send" None
    [Goto "AltDegraded"] true;
  case_ "RelayBackoff" "app_send" None
    [Goto "RelayBackoff"] true;
  case_ "RelayConnected" "relay_stream_data" None
    [Goto "RelayConnected"] true;
  case_ "CandidatesAdvertised" "relay_stream_data" None
    [Goto "CandidatesAdvertised"] true;
  case_ "AltActive" "relay_stream_data" None
    [Goto "AltActive"] true;
  case_ "AltDegraded" "relay_stream_data" None
    [Goto "AltDegraded"] true;
  case_ "RelayBackoff" "relay_stream_data" None
    [Goto "RelayBackoff"] true;
  case_ "RelayConnected" "relay_stream_error" None
    [Goto "RelayConnected"] true;
  case_ "CandidatesAdvertised" "relay_stream_error" None
    [Goto "CandidatesAdvertised"] true;
  case_ "AltActive" "relay_stream_error" None
    [Goto "AltActive"] true;
  case_ "AltDegraded" "relay_stream_error" None
    [Goto "AltDegraded"] true;
  case_ "RelayBackoff" "relay_stream_error" None
    [Goto "RelayBackoff"] true;
  case_ "RelayConnected" "app_send_datagram" None
    [Goto "RelayConnected"] true;
  case_ "CandidatesAdvertised" "app_send_datagram" None
    [Goto "CandidatesAdvertised"] true;
  case_ "AltActive" "app_send_datagram" None
    [Goto "AltActive"] true;
  case_ "AltDegraded" "app_send_datagram" None
    [Goto "AltDegraded"] true;
  case_ "RelayBackoff" "app_send_datagram" None
    [Goto "RelayBackoff"] true;
  case_ "RelayConnected" "relay_datagram" None
    [Goto "RelayConnected"] true;
  case_ "CandidatesAdvertised" "relay_datagram" None
    [Goto "CandidatesAdvertised"] true;
  case_ "AltActive" "relay_datagram" None
    [Goto "AltActive"] true;
  case_ "AltDegraded" "relay_datagram" None
    [Goto "AltDegraded"] true;
  case_ "RelayBackoff" "relay_datagram" None
    [Goto "RelayBackoff"] true;
  case_ "AltActive" "alt_stream_data" None
    [Goto "AltActive"] true;
  case_ "AltDegraded" "alt_stream_data" None
    [Goto "AltDegraded"] true;
  case_ "AltActive" "alt_datagram" None
    [Goto "AltActive"] true;
  case_ "AltDegraded" "alt_datagram" None
    [Goto "AltDegraded"] true].
Definition SessionProtocolBackendMachine_Step_cases : list (Case bool) :=
  SessionProtocolBackendMachine_Step_cases1 ++ SessionProtocolBackendMachine_Step_cases2 ++
      SessionProtocolBackendMachine_Step_cases3.
Definition SessionProtocolBackendMachine_Step {H} : Callbacks SessionProtocolBackendMachine H -> string -> World
    SessionProtocolBackendMachine H -> World SessionProtocolBackendMachine H * bool * option error :=
  switch false SessionProtocolBackendMachine_Step_cases.

Definition SessionProtocolBackendMachine_HandleEvent_cases1 : list (Case (list CmdID)) := [
  case_ "Idle" "cli_init_pair" None
    [Act "generate_token"; Set_ "CurrentToken" (VStr "tok_1"); Changed "current_token"; Goto "GenerateToken"]
        [];
  case_ "GenerateToken" "token_created" None
    [Act "register_relay"; Goto "RegisterRelay"] [];
  case_ "RegisterRelay" "relay_registered" None
    [Set_ "SecretPublished" (VBool true); Changed "secret_published"; Goto "WaitingForClient"] [];
  case_ "WaitingForClient" "recv_pair_hello" (Some "token_valid")
    [Act "derive_secret"; Set_ "BackendEcdhPub" (VStr "backend_pub"); Changed "backend_ecdh_pub"; Goto
        "DeriveSecret"] [];
  case_ "WaitingForClient" "recv_pair_hello" (Some "token_invalid")
    [Goto "Idle"] [];
  case_ "DeriveSecret" "ecdh_complete" None
    [Goto "SendAck"] [];
  case_ "SendAck" "signal_code_display" None
    [Goto "WaitingForCode"] [];
  case_ "WaitingForCode" "cli_code_entered" None
    [Goto "ValidateCode"] [];
  case_ "ValidateCode" "check_code" (Some "code_correct")
    [Goto "StorePaired"] [];
  case_ "ValidateCode" "check_code" (Some "code_wrong")
    [Incr "CodeAttempts" 1; Changed "code_attempts"; Goto "Idle"] [];
  case_ "StorePaired" "finalise" None
    [Act "store_device"; Set_ "DeviceSecret" (VStr "dev_secret_1"); Changed "device_secret"; Goto "Paired"] [];
  case_ "Paired" "recv_auth_request" None
    [Goto "AuthCheck"] [];
  case_ "AuthCheck" "verify" (Some "device_known")
    [Act "verify_device"; Goto "SessionActive"] [];
  case_ "AuthCheck" "verify" (Some "device_unknown")
    [Goto "Idle"] [];
  case_ "SessionActive" "session_established" None
    [Goto "RelayConnected"] [];
  case_ "RelayConnected" "candidates_gathered" None
    [Goto "CandidatesAdvertised"] ["send_candidates"];
  case_ "CandidatesAdvertised" "recv_pair_check" (Some "challenge_valid")
    [Act "activate_lan"; Set_ "PingFailures" (VInt 0); Changed "ping_failures"; Set_ "BackoffLevel" (VInt 0);
        Changed "backoff_level"; Set_ "BActivePath" (VStr "alt"); Changed "b_active_path"; Set_
        "BDispatcherPath" (VStr "alt"); Changed "b_dispatcher_path"; Set_ "MonitorTarget" (VStr "alt"); Changed
        "monitor_target"; Set_ "AltSignal" (VStr "ready"); Changed "alt_signal"; Goto "AltActive"]
        ["send_pair_check_ack"; "start_alt_stream_reader"; "start_alt_dg_reader"; "start_monitor";
        "signal_alt_ready"; "set_crypto_datagram"];
  case_ "CandidatesAdvertised" "recv_pair_check" (Some "challenge_invalid")
    [Goto "RelayConnected"] []].
Definition SessionProtocolBackendMachine_HandleEvent_cases2 : list (Case (list CmdID)) := [
  case_ "CandidatesAdvertised" "candidates_timeout" None
    [Set_ "AltSignal" (VStr "pending"); Changed "alt_signal"; Goto "RelayBackoff"] ["reset_alt_ready";
        "start_backoff_timer"];
  case_ "AltActive" "ping_tick" None
    [Goto "AltActive"] ["send_path_ping"; "start_pong_timeout"];
  case_ "AltActive" "ping_timeout" None
    [Set_ "PingFailures" (VInt 1); Changed "ping_failures"; Goto "AltDegraded"] [];
  case_ "AltDegraded" "ping_tick" None
    [Goto "AltDegraded"] ["send_path_ping"; "start_pong_timeout"];
  case_ "AltActive" "alt_stream_error" None
    [Act "fallback_to_relay"; Set_ "BActivePath" (VStr "relay"); Changed "b_active_path"; Set_ "BDispatcherPath"
        (VStr "relay"); Changed "b_dispatcher_path"; Set_ "MonitorTarget" (VStr "none"); Changed
        "monitor_target"; Set_ "AltSignal" (VStr "pending"); Changed "alt_signal"; Set_ "PingFailures" (VInt 0);
        Changed "ping_failures"; Goto "RelayBackoff"] ["stop_monitor"; "stop_alt_stream_reader";
        "stop_alt_dg_reader"; "close_alt_path"; "reset_alt_ready"; "start_backoff_timer"];
  case_ "AltDegraded" "alt_stream_error" None
    [Act "fallback_to_relay"; Set_ "BActivePath" (VStr "relay"); Changed "b_active_path"; Set_ "BDispatcherPath"
        (VStr "relay"); Changed "b_dispatcher_path"; Set_ "MonitorTarget" (VStr "none"); Changed
        "monitor_target"; Set_ "AltSignal" (VStr "pending"); Changed "alt_signal"; Set_ "PingFailures" (VInt 0);
        Changed "ping_failures"; Goto "RelayBackoff"] ["stop_monitor"; "stop_alt_stream_reader";
        "stop_alt_dg_reader"; "close_alt_path"; "reset_alt_ready"; "start_backoff_timer"];
  case_ "AltDegraded" "recv_path_pong" None
    [Act "reset_failures"; Set_ "PingFailures" (VInt 0); Changed "ping_failures"; Goto "AltActive"]
        ["cancel_pong_timeout"];
  case_ "AltDegraded" "ping_timeout" (Some "under_max_failures")
    [Incr "PingFailures" 1; Changed "ping_failures"; Goto "AltDegraded"] [];
  case_ "AltDegraded" "ping_timeout" (Some "at_max_failures")
    [Act "fallback_to_relay"; Set_ "BActivePath" (VStr "relay"); Changed "b_active_path"; Set_ "BDispatcherPath"
        (VStr "relay"); Changed "b_dispatcher_path"; Set_ "MonitorTarget" (VStr "none"); Changed
        "monitor_target"; Set_ "AltSignal" (VStr "pending"); Changed "alt_signal"; Set_ "PingFailures" (VInt 0);
        Changed "ping_failures"; Goto "RelayBackoff"] ["stop_monitor"; "stop_alt_stream_reader";
        "stop_alt_dg_reader"; "close_alt_path"; "reset_alt_ready"; "start_backoff_timer"];
  case_ "RelayBackoff" "backoff_expired" None
    [Goto "CandidatesAdvertised"] ["send_candidates"];
  case_ "RelayBackoff" "candidates_changed" None
    [Set_ "BackoffLevel" (VInt 0); Changed "backoff_level"; Goto "CandidatesAdvertised"] ["send_candidates"];
  case_ "RelayConnected" "candidates_refresh_tick" (Some "local_candidates_available")
    [Goto "CandidatesAdvertised"] ["send_candidates"]].
Definition SessionProtocolBackendMachine_HandleEvent_cases3 : list (Case (list CmdID)) := [
  case_ "CandidatesAdvertised" "app_force_fallback" None
    [Set_ "AltSignal" (VStr "pending"); Changed "alt_signal"; Goto "RelayConnected"] ["reset_alt_ready"];
  case_ "AltActive" "app_force_fallback" None
    [Act "fallback_to_relay"; Set_ "BActivePath" (VStr "relay"); Changed "b_active_path"; Set_ "BDispatcherPath"
        (VStr "relay"); Changed "b_dispatcher_path"; Set_ "MonitorTarget" (VStr "none"); Changed
        "monitor_target"; Set_ "AltSignal" (VStr "pending"); Changed "alt_signal"; Set_ "PingFailures" (VInt 0);
        Changed "ping_failures"; Goto "RelayBackoff"] ["stop_monitor"; "cancel_pong_timeout";
        "stop_alt_stream_reader"; "stop_alt_dg_reader"; "close_alt_path"; "reset_alt_ready";
        "start_backoff_timer"];
  case_ "AltDegraded" "app_force_fallback" None
    [Act "fallback_to_relay"; Set_ "BActivePath" (VStr "relay"); Changed "b_active_path"; Set_ "BDispatcherPath"
        (VStr "relay"); Changed "b_dispatcher_path"; Set_ "MonitorTarget" (VStr "none"); Changed
        "monitor_target"; Set_ "AltSignal" (VStr "pending"); Changed "alt_signal"; Set_ "PingFailures" (VInt 0);
        Changed "ping_failures"; Goto "RelayBackoff"] ["stop_monitor"; "cancel_pong_timeout";
        "stop_alt_stream_reader"; "stop_alt_dg_reader"; "close_alt_path"; "reset_alt_ready";
        "start_backoff_timer"];
  case_ "RelayConnected" "disconnect" None
    [Goto "Paired"] [];
  case_ "RelayConnected" "app_send" None
    [Goto "RelayConnected"] ["write_active_stream"];
  case_ "CandidatesAdvertised" "app_send" None
    [Goto "CandidatesAdvertised"] ["write_active_stream"];
  case_ "AltActive" "app_send" None
    [Goto "AltActive"] ["write_active_stream"];
  case_ "AltDegraded" "app_send" None
    [Goto "AltDegraded"] ["write_active_stream"];
  case_ "RelayBackoff" "app_send" None
    [Goto "RelayBackoff"] ["write_active_stream"];
  case_ "RelayConnected" "relay_stream_data" None
    [Goto "RelayConnected"] ["deliver_recv"];
  case_ "CandidatesAdvertised" "relay_stream_data" None
    [Goto "CandidatesAdvertised"] ["deliver_recv"];
  case_ "AltActive" "relay_stream_data" None
    [Goto "AltActive"] ["deliver_recv"];
  case_ "AltDegraded" "relay_stream_data" None
    [Goto "AltDegraded"] ["deliver_recv"];
  case_ "RelayBackoff" "relay_stream_data" None
    [Goto "RelayBackoff"] ["deliver_recv"];
  case_ "RelayConnected" "relay_stream_error" None
    [Goto "RelayConnected"] ["deliver_recv_error"];
  case_ "CandidatesAdvertised" "relay_stream_error" None
    [Goto "CandidatesAdvertised"] ["deliver_recv_error"];
  case_ "AltActive" "relay_stream_error" None
    [Goto "AltActive"] ["deliver_recv_error"];
  case_ "AltDegraded" "relay_stream_error" None
    [Goto "AltDegraded"] ["deliver_recv_error"];
  case_ "RelayBackoff" "relay_stream_error" None
    [Goto "RelayBackoff"] ["deliver_recv_error"];
  case_ "RelayConnected" "app_send_datagram" None
    [Goto "RelayConnected"] ["send_active_datagram"];
  case_ "CandidatesAdvertised" "app_send_datagram" None
    [Goto "CandidatesAdvertised"] ["send_active_datagram"];
  case_ "AltActive" "app_send_datagram" None
    [Goto "AltActive"] ["send_active_datagram"];
  case_ "AltDegraded" "app_send_datagram" None
    [Goto "AltDegraded"] ["send_active_datagram"];
  case_ "RelayBackoff" "app_send_datagram" None
    [Goto "RelayBackoff"] ["send_active_datagram"];
  case_ "RelayConnected" "relay_datagram" None
    [Goto "RelayConnected"] ["deliver_recv_datagram"];
  case_ "CandidatesAdvertised" "relay_datagram" None
    [Goto "CandidatesAdvertised"] ["deliver_recv_datagram"];
  case_ "AltActive" "relay_datagram" None
    [Goto "AltActive"] ["deliver_recv_datagram"];
  case_ "AltDegraded" "relay_datagram" None
    [Goto "AltDegraded"] ["deliver_recv_datagram"]].
Definition SessionProtocolBackendMachine_HandleEvent_cases4 : list (Case (list CmdID)) := [
  case_ "RelayBackoff" "relay_datagram" None
    [Goto "RelayBackoff"] ["deliver_recv_datagram"];
  case_ "AltActive" "alt_stream_data" None
    [Goto "AltActive"] ["deliver_recv"];
  case_ "AltDegraded" "alt_stream_data" None
    [Goto "AltDegraded"] ["deliver_recv"];
  case_ "AltActive" "alt_datagram" None
    [Goto "AltActive"] ["deliver_recv_datagram"];
  case_ "AltDegraded" "alt_datagram" None
    [Goto "AltDegraded"] ["deliver_recv_datagram"]].
Definition SessionProtocolBackendMachine_HandleEvent_cases : list (Case (list CmdID)) :=
  SessionProtocolBackendMachine_HandleEvent_cases1 ++ SessionProtocolBackendMachine_HandleEvent_cases2 ++
      SessionProtocolBackendMachine_HandleEvent_cases3 ++ SessionProtocolBackendMachine_HandleEvent_cases4.
Definition SessionProtocolBackendMachine_HandleEvent {H} : Callbacks SessionProtocolBackendMachine H -> string
    -> World SessionProtocolBackendMachine H -> World SessionProtocolBackendMachine H * list CmdID * option
    error :=
  switch [] SessionProtocolBackendMachine_HandleEvent_cases.

End SessionProtocolBackendMachine.

Module SessionProtocolClientMachine.

Record SessionProtocolClientMachine := {
  ReceivedBackendPub : string;
  ClientSharedKey : string;
  ClientCode : string;
  CActivePath : string;
  CDispatcherPath : string;
  AltSignal : string
}.

Definition set_ReceivedBackendPub (x : string) (m : SessionProtocolClientMachine) : SessionProtocolClientMachine
    :=
  {| ReceivedBackendPub := x; ClientSharedKey := ClientSharedKey m; ClientCode := ClientCode m; CActivePath :=
      CActivePath m; CDispatcherPath := CDispatcherPath m; AltSignal := AltSignal m |}.
Definition set_ClientSharedKey (x : string) (m : SessionProtocolClientMachine) : SessionProtocolClientMachine :=
  {| ReceivedBackendPub := ReceivedBackendPub m; ClientSharedKey := x; ClientCode := ClientCode m; CActivePath
      := CActivePath m; CDispatcherPath := CDispatcherPath m; AltSignal := AltSignal m |}.
Definition set_ClientCode (x : string) (m : SessionProtocolClientMachine) : SessionProtocolClientMachine :=
  {| ReceivedBackendPub := ReceivedBackendPub m; ClientSharedKey := ClientSharedKey m; ClientCode := x;
      CActivePath := CActivePath m; CDispatcherPath := CDispatcherPath m; AltSignal := AltSignal m |}.
Definition set_CActivePath (x : string) (m : SessionProtocolClientMachine) : SessionProtocolClientMachine :=
  {| ReceivedBackendPub := ReceivedBackendPub m; ClientSharedKey := ClientSharedKey m; ClientCode := ClientCode
      m; CActivePath := x; CDispatcherPath := CDispatcherPath m; AltSignal := AltSignal m |}.
Definition set_CDispatcherPath (x : string) (m : SessionProtocolClientMachine) : SessionProtocolClientMachine :=
  {| ReceivedBackendPub := ReceivedBackendPub m; ClientSharedKey := ClientSharedKey m; ClientCode := ClientCode
      m; CActivePath := CActivePath m; CDispatcherPath := x; AltSignal := AltSignal m |}.
Definition set_AltSignal (x : string) (m : SessionProtocolClientMachine) : SessionProtocolClientMachine :=
  {| ReceivedBackendPub := ReceivedBackendPub m; ClientSharedKey := ClientSharedKey m; ClientCode := ClientCode
      m; CActivePath := CActivePath m; CDispatcherPath := CDispatcherPath m; AltSignal := x |}.

Definition fields : list (string * fieldOps SessionProtocolClientMachine) :=
  [("ReceivedBackendPub", FString ReceivedBackendPub set_ReceivedBackendPub);
   ("ClientSharedKey", FString ClientSharedKey set_ClientSharedKey);
   ("ClientCode", FString ClientCode set_ClientCode);
   ("CActivePath", FString CActivePath set_CActivePath);
   ("CDispatcherPath", FString CDispatcherPath set_CDispatcherPath);
   ("AltSignal", FString AltSignal set_AltSignal)].
#[export] Instance vars : GoVars SessionProtocolClientMachine := goFields fields.
Definition zero : SessionProtocolClientMachine := {| ReceivedBackendPub := EmptyString; ClientSharedKey :=
    EmptyString; ClientCode := EmptyString; CActivePath := EmptyString; CDispatcherPath := EmptyString;
    AltSignal := EmptyString |}.

(** [NewSessionProtocolClientMachine]: the initial state and variables. *)
Definition NewSessionProtocolClientMachine : State * SessionProtocolClientMachine :=
  ("Idle", {| ReceivedBackendPub := "none"; ClientSharedKey := EmptyString; ClientCode := EmptyString;
      CActivePath := "relay"; CDispatcherPath := "relay"; AltSignal := "pending" |}).

Definition SessionProtocolClientMachine_HandleMessage_cases : list (Case bool) := [
  case_ "WaitAck" "pair_hello_ack" None
    [Act "derive_secret"; Goto "E2EReady"] true;
  case_ "E2EReady" "pair_confirm" None
    [Goto "ShowCode"] true;
  case_ "WaitPairComplete" "pair_complete" None
    [Act "store_secret"; Goto "Paired"] true;
  case_ "SendAuth" "auth_ok" None
    [Goto "SessionActive"] true;
  case_ "RelayConnected" "candidates" (Some "alt_enabled")
    [Act "dial_candidate"; Goto "PairDialing"] true;
  case_ "RelayConnected" "candidates" (Some "alt_disabled")
    [Goto "RelayConnected"] true;
  case_ "PairChecking" "pair_check_ack" None
    [Act "activate_lan"; Set_ "CActivePath" (VStr "alt"); Changed "c_active_path"; Set_ "CDispatcherPath" (VStr
        "alt"); Changed "c_dispatcher_path"; Set_ "AltSignal" (VStr "ready"); Changed "alt_signal"; Goto
        "AltActive"] true;
  case_ "AltActive" "path_ping" None
    [Goto "AltActive"] true;
  case_ "AltActive" "candidates" (Some "alt_enabled")
    [Act "dial_candidate"; Goto "PairDialing"] true].
Definition SessionProtocolClientMachine_HandleMessage {H} : Callbacks SessionProtocolClientMachine H -> string
    -> World SessionProtocolClientMachine H -> World SessionProtocolClientMachine H * bool * option error :=
  switch false SessionProtocolClientMachine_HandleMessage_cases.

Definition SessionProtocolClientMachine_Step_cases1 : list (Case bool) := [
  case_ "Idle" "backchannel_received" None
    [Goto "ObtainBackchannelSecret"] true;
  case_ "ObtainBackchannelSecret" "secret_parsed" None
    [Goto "ConnectRelay"] true;
  case_ "ConnectRelay" "relay_connected" None
    [Goto "GenKeyPair"] true;
  case_ "GenKeyPair" "key_pair_generated" None
    [Act "send_pair_hello"; Goto "WaitAck"] true;
  case_ "ShowCode" "code_displayed" None
    [Goto "WaitPairComplete"] true;
  case_ "Paired" "app_launch" None
    [Goto "Reconnect"] true;
  case_ "Reconnect" "relay_connected" None
    [Goto "SendAuth"] true;
  case_ "SessionActive" "session_established" None
    [Goto "RelayConnected"] true;
  case_ "PairDialing" "dial_ok" None
    [Goto "PairChecking"] true;
  case_ "PairDialing" "dial_failed" None
    [Goto "RelayConnected"] true;
  case_ "PairChecking" "verify_timeout" None
    [Set_ "CDispatcherPath" (VStr "relay"); Changed "c_dispatcher_path"; Goto "RelayConnected"] true;
  case_ "AltActive" "alt_error" None
    [Act "fallback_to_relay"; Set_ "CActivePath" (VStr "relay"); Changed "c_active_path"; Set_ "CDispatcherPath"
        (VStr "relay"); Changed "c_dispatcher_path"; Set_ "AltSignal" (VStr "pending"); Changed "alt_signal";
        Goto "RelayFallback"] true;
  case_ "AltActive" "alt_stream_error" None
    [Act "fallback_to_relay"; Set_ "CActivePath" (VStr "relay"); Changed "c_active_path"; Set_ "CDispatcherPath"
        (VStr "relay"); Changed "c_dispatcher_path"; Set_ "AltSignal" (VStr "pending"); Changed "alt_signal";
        Goto "RelayFallback"] true;
  case_ "RelayFallback" "relay_ok" None
    [Goto "RelayConnected"] true;
  case_ "PairDialing" "app_force_fallback" None
    [Goto "RelayConnected"] true;
  case_ "PairChecking" "app_force_fallback" None
    [Set_ "CDispatcherPath" (VStr "relay"); Changed "c_dispatcher_path"; Goto "RelayConnected"] true;
  case_ "AltActive" "app_force_fallback" None
    [Act "fallback_to_relay"; Set_ "CActivePath" (VStr "relay"); Changed "c_active_path"; Set_ "CDispatcherPath"
        (VStr "relay"); Changed "c_dispatcher_path"; Set_ "AltSignal" (VStr "pending"); Changed "alt_signal";
        Goto "RelayConnected"] true;
  case_ "RelayConnected" "disconnect" None
    [Goto "Paired"] true;
  case_ "RelayConnected" "app_send" None
    [Goto "RelayConnected"] true;
  case_ "PairDialing" "app_send" None
    [Goto "PairDialing"] true;
  case_ "PairChecking" "app_send" None
    [Goto "PairChecking"] true;
  case_ "AltActive" "app_send" None
    [Goto "AltActive"] true;
  case_ "RelayFallback" "app_send" None
    [Goto "RelayFallback"] true;
  case_ "RelayConnected" "relay_stream_data" None
    [Goto "RelayConnected"] true;
  case_ "PairDialing" "relay_stream_data" None
    [Goto "PairDialing"] true].
Definition SessionProtocolClientMachine_Step_cases2 : list (Case bool) := [
  case_ "PairChecking" "relay_stream_data" None
    [Goto "PairChecking"] true;
  case_ "AltActive" "relay_stream_data" None
    [Goto "AltActive"] true;
  case_ "RelayFallback" "relay_stream_data" None
    [Goto "RelayFallback"] true;
  case_ "RelayConnected" "relay_stream_error" None
    [Goto "RelayConnected"] true;
  case_ "PairDialing" "relay_stream_error" None
    [Goto "PairDialing"] true;
  case_ "PairChecking" "relay_stream_error" None
    [Goto "PairChecking"] true;
  case_ "AltActive" "relay_stream_error" None
    [Goto "AltActive"] true;
  case_ "RelayFallback" "relay_stream_error" None
    [Goto "RelayFallback"] true;
  case_ "RelayConnected" "app_send_datagram" None
    [Goto "RelayConnected"] true;
  case_ "PairDialing" "app_send_datagram" None
    [Goto "PairDialing"] true;
  case_ "PairChecking" "app_send_datagram" None
    [Goto "PairChecking"] true;
  case_ "AltActive" "app_send_datagram" None
    [Goto "AltActive"] true;
  case_ "RelayFallback" "app_send_datagram" None
    [Goto "RelayFallback"] true;
  case_ "RelayConnected" "relay_datagram" None
    [Goto "RelayConnected"] true;
  case_ "PairDialing" "relay_datagram" None
    [Goto "PairDialing"] true;
  case_ "PairChecking" "relay_datagram" None
    [Goto "PairChecking"] true;
  case_ "AltActive" "relay_datagram" None
    [Goto "AltActive"] true;
  case_ "RelayFallback" "relay_datagram" None
    [Goto "RelayFallback"] true;
  case_ "AltActive" "alt_stream_data" None
    [Goto "AltActive"] true;
  case_ "AltActive" "alt_datagram" None
    [Goto "AltActive"] true].
Definition SessionProtocolClientMachine_Step_cases : list (Case bool) :=
  SessionProtocolClientMachine_Step_cases1 ++ SessionProtocolClientMachine_Step_cases2.
Definition SessionProtocolClientMachine_Step {H} : Callbacks SessionProtocolClientMachine H -> string -> World
    SessionProtocolClientMachine H -> World SessionProtocolClientMachine H * bool * option error :=
  switch false SessionProtocolClientMachine_Step_cases.

Definition SessionProtocolClientMachine_HandleEvent_cases1 : list (Case (list CmdID)) := [
  case_ "Idle" "backchannel_received" None
    [Goto "ObtainBackchannelSecret"] [];
  case_ "ObtainBackchannelSecret" "secret_parsed" None
    [Goto "ConnectRelay"] [];
  case_ "ConnectRelay" "relay_connected" None
    [Goto "GenKeyPair"] [];
  case_ "GenKeyPair" "key_pair_generated" None
    [Act "send_pair_hello"; Goto "WaitAck"] [];
  case_ "WaitAck" "recv_pair_hello_ack" None
    [Act "derive_secret"; Goto "E2EReady"] [];
  case_ "E2EReady" "recv_pair_confirm" None
    [Goto "ShowCode"] [];
  case_ "ShowCode" "code_displayed" None
    [Goto "WaitPairComplete"] [];
  case_ "WaitPairComplete" "recv_pair_complete" None
    [Act "store_secret"; Goto "Paired"] [];
  case_ "Paired" "app_launch" None
    [Goto "Reconnect"] [];
  case_ "Reconnect" "relay_connected" None
    [Goto "SendAuth"] [];
  case_ "SendAuth" "recv_auth_ok" None
    [Goto "SessionActive"] [];
  case_ "SessionActive" "session_established" None
    [Goto "RelayConnected"] [];
  case_ "RelayConnected" "recv_candidates" (Some "alt_enabled")
    [Act "dial_candidate"; Goto "PairDialing"] ["dial_candidate"];
  case_ "RelayConnected" "recv_candidates" (Some "alt_disabled")
    [Goto "RelayConnected"] [];
  case_ "PairDialing" "dial_ok" None
    [Goto "PairChecking"] ["send_pair_check"];
  case_ "PairDialing" "dial_failed" None
    [Goto "RelayConnected"] [];
  case_ "PairChecking" "recv_pair_check_ack" None
    [Act "activate_lan"; Set_ "CActivePath" (VStr "alt"); Changed "c_active_path"; Set_ "CDispatcherPath" (VStr
        "alt"); Changed "c_dispatcher_path"; Set_ "AltSignal" (VStr "ready"); Changed "alt_signal"; Goto
        "AltActive"] ["start_alt_stream_reader"; "start_alt_dg_reader"; "signal_alt_ready";
        "set_crypto_datagram"];
  case_ "PairChecking" "verify_timeout" None
    [Set_ "CDispatcherPath" (VStr "relay"); Changed "c_dispatcher_path"; Goto "RelayConnected"] [];
  case_ "AltActive" "recv_path_ping" None
    [Goto "AltActive"] ["send_path_pong"];
  case_ "AltActive" "alt_error" None
    [Act "fallback_to_relay"; Set_ "CActivePath" (VStr "relay"); Changed "c_active_path"; Set_ "CDispatcherPath"
        (VStr "relay"); Changed "c_dispatcher_path"; Set_ "AltSignal" (VStr "pending"); Changed "alt_signal";
        Goto "RelayFallback"] ["stop_alt_stream_reader"; "stop_alt_dg_reader"; "close_alt_path";
        "reset_alt_ready"]].
Definition SessionProtocolClientMachine_HandleEvent_cases2 : list (Case (list CmdID)) := [
  case_ "AltActive" "alt_stream_error" None
    [Act "fallback_to_relay"; Set_ "CActivePath" (VStr "relay"); Changed "c_active_path"; Set_ "CDispatcherPath"
        (VStr "relay"); Changed "c_dispatcher_path"; Set_ "AltSignal" (VStr "pending"); Changed "alt_signal";
        Goto "RelayFallback"] ["stop_alt_stream_reader"; "stop_alt_dg_reader"; "close_alt_path";
        "reset_alt_ready"];
  case_ "RelayFallback" "relay_ok" None
    [Goto "RelayConnected"] [];
  case_ "AltActive" "recv_candidates" (Some "alt_enabled")
    [Act "dial_candidate"; Goto "PairDialing"] ["stop_alt_stream_reader"; "stop_alt_dg_reader";
        "close_alt_path"; "dial_candidate"];
  case_ "PairDialing" "app_force_fallback" None
    [Goto "RelayConnected"] [];
  case_ "PairChecking" "app_force_fallback" None
    [Set_ "CDispatcherPath" (VStr "relay"); Changed "c_dispatcher_path"; Goto "RelayConnected"]
        ["stop_alt_stream_reader"; "stop_alt_dg_reader"; "close_alt_path"];
  case_ "AltActive" "app_force_fallback" None
    [Act "fallback_to_relay"; Set_ "CActivePath" (VStr "relay"); Changed "c_active_path"; Set_ "CDispatcherPath"
        (VStr "relay"); Changed "c_dispatcher_path"; Set_ "AltSignal" (VStr "pending"); Changed "alt_signal";
        Goto "RelayConnected"] ["stop_alt_stream_reader"; "stop_alt_dg_reader"; "close_alt_path";
        "reset_alt_ready"];
  case_ "RelayConnected" "disconnect" None
    [Goto "Paired"] [];
  case_ "RelayConnected" "app_send" None
    [Goto "RelayConnected"] ["write_active_stream"];
  case_ "PairDialing" "app_send" None
    [Goto "PairDialing"] ["write_active_stream"];
  case_ "PairChecking" "app_send" None
    [Goto "PairChecking"] ["write_active_stream"];
  case_ "AltActive" "app_send" None
    [Goto "AltActive"] ["write_active_stream"];
  case_ "RelayFallback" "app_send" None
    [Goto "RelayFallback"] ["write_active_stream"];
  case_ "RelayConnected" "relay_stream_data" None
    [Goto "RelayConnected"] ["deliver_recv"];
  case_ "PairDialing" "relay_stream_data" None
    [Goto "PairDialing"] ["deliver_recv"];
  case_ "PairChecking" "relay_stream_data" None
    [Goto "PairChecking"] ["deliver_recv"];
  case_ "AltActive" "relay_stream_data" None
    [Goto "AltActive"] ["deliver_recv"];
  case_ "RelayFallback" "relay_stream_data" None
    [Goto "RelayFallback"] ["deliver_recv"];
  case_ "RelayConnected" "relay_stream_error" None
    [Goto "RelayConnected"] ["deliver_recv_error"];
  case_ "PairDialing" "relay_stream_error" None
    [Goto "PairDialing"] ["deliver_recv_error"];
  case_ "PairChecking" "relay_stream_error" None
    [Goto "PairChecking"] ["deliver_recv_error"];
  case_ "AltActive" "relay_stream_error" None
    [Goto "AltActive"] ["deliver_recv_error"];
  case_ "RelayFallback" "relay_stream_error" None
    [Goto "RelayFallback"] ["deliver_recv_error"];
  case_ "RelayConnected" "app_send_datagram" None
    [Goto "RelayConnected"] ["send_active_datagram"];
  case_ "PairDialing" "app_send_datagram" None
    [Goto "PairDialing"] ["send_active_datagram"];
  case_ "PairChecking" "app_send_datagram" None
    [Goto "PairChecking"] ["send_active_datagram"];
  case_ "AltActive" "app_send_datagram" None
    [Goto "AltActive"] ["send_active_datagram"];
  case_ "RelayFallback" "app_send_datagram" None
    [Goto "RelayFallback"] ["send_active_datagram"];
  case_ "RelayConnected" "relay_datagram" None
    [Goto "RelayConnected"] ["deliver_recv_datagram"];
  case_ "PairDialing" "relay_datagram" None
    [Goto "PairDialing"] ["deliver_recv_datagram"];
  case_ "PairChecking" "relay_datagram" None
    [Goto "PairChecking"] ["deliver_recv_datagram"];
  case_ "AltActive" "relay_datagram" None
    [Goto "AltActive"] ["deliver_recv_datagram"];
  case_ "RelayFallback" "relay_datagram" None
    [Goto "RelayFallback"] ["deliver_recv_datagram"]].
Definition SessionProtocolClientMachine_HandleEvent_cases3 : list (Case (list CmdID)) := [
  case_ "AltActive" "alt_stream_data" None
    [Goto "AltActive"] ["deliver_recv"];
  case_ "AltActive" "alt_datagram" None
    [Goto "AltActive"] ["deliver_recv_datagram"]].
Definition SessionProtocolClientMachine_HandleEvent_cases : list (Case (list CmdID)) :=
  SessionProtocolClientMachine_HandleEvent_cases1 ++ SessionProtocolClientMachine_HandleEvent_cases2 ++
      SessionProtocolClientMachine_HandleEvent_cases3.
Definition SessionProtocolClientMachine_HandleEvent {H} : Callbacks SessionProtocolClientMachine H -> string ->
    World SessionProtocolClientMachine H -> World SessionProtocolClientMachine H * list CmdID * option error :=
  switch [] SessionProtocolClientMachine_HandleEvent_cases.

End SessionProtocolClientMachine.

Module SessionProtocolRelayMachine.

Record SessionProtocolRelayMachine := {
  RelayBridge : string
}.

Definition set_RelayBridge (x : string) (m : SessionProtocolRelayMachine) : SessionProtocolRelayMachine :=
  {| RelayBridge := x |}.

Definition fields : list (string * fieldOps SessionProtocolRelayMachine) :=
  [("RelayBridge", FString RelayBridge set_RelayBridge)].
#[export] Instance vars : GoVars SessionProtocolRelayMachine := goFields fields.
Definition zero : SessionProtocolRelayMachine := {| RelayBridge := EmptyString |}.

(** [NewSessionProtocolRelayMachine]: the initial state and variables. *)
Definition NewSessionProtocolRelayMachine : State * SessionProtocolRelayMachine :=
  ("Idle", {| RelayBridge := "idle" |}).

Definition SessionProtocolRelayMachine_HandleMessage_cases : list (Case bool) := [].
Definition SessionProtocolRelayMachine_HandleMessage {H} : Callbacks SessionProtocolRelayMachine H -> string ->
    World SessionProtocolRelayMachine H -> World SessionProtocolRelayMachine H * bool * option error :=
  switch false SessionProtocolRelayMachine_HandleMessage_cases.

Definition SessionProtocolRelayMachine_Step_cases : list (Case bool) := [
  case_ "Idle" "backend_register" None
    [Goto "BackendRegistered"] true;
  case_ "BackendRegistered" "client_connect" None
    [Act "bridge_streams"; Set_ "RelayBridge" (VStr "active"); Changed "relay_bridge"; Goto "Bridged"] true;
  case_ "Bridged" "client_disconnect" None
    [Act "unbridge"; Set_ "RelayBridge" (VStr "idle"); Changed "relay_bridge"; Goto "BackendRegistered"] true;
  case_ "BackendRegistered" "backend_disconnect" None
    [Goto "Idle"] true].
Definition SessionProtocolRelayMachine_Step {H} : Callbacks SessionProtocolRelayMachine H -> string -> World
    SessionProtocolRelayMachine H -> World SessionProtocolRelayMachine H * bool * option error :=
  switch false SessionProtocolRelayMachine_Step_cases.

Definition SessionProtocolRelayMachine_HandleEvent_cases : list (Case (list CmdID)) := [
  case_ "Idle" "backend_register" None
    [Goto "BackendRegistered"] [];
  case_ "BackendRegistered" "client_connect" None
    [Act "bridge_streams"; Set_ "RelayBridge" (VStr "active"); Changed "relay_bridge"; Goto "Bridged"] [];
  case_ "Bridged" "client_disconnect" None
    [Act "unbridge"; Set_ "RelayBridge" (VStr "idle"); Changed "relay_bridge"; Goto "BackendRegistered"] [];
  case_ "BackendRegistered" "backend_disconnect" None
    [Goto "Idle"] []].
Definition SessionProtocolRelayMachine_HandleEvent {H} : Callbacks SessionProtocolRelayMachine H -> string ->
    World SessionProtocolRelayMachine H -> World SessionProtocolRelayMachine H * list CmdID * option error :=
  switch [] SessionProtocolRelayMachine_HandleEvent_cases.

End SessionProtocolRelayMachine.

