(* ===== verification/Exports.v ===== *)
(** * Exports: what the generators write for the committed protocols (cmd/protogen/main.go, formal/)

    Which TLA+ modules the command writes for a protocol, whether TLA+ accepts
    them, and what the checked pairing model leaves out; the machines of the
    other SDKs for the three protocols, and where they differ. *)

From Stdlib Require Import ZArith Lia Strings.String.
From stdpp Require Import base gmap strings list fin_maps.
From S2P Require Import Prelude Machine GoGen Yaml Tla Sdk CGen PlantUml PathSwitchGen PairingGen SessionGen.

(** ** What the command writes *)

(** The module of the whole protocol, but for [Session]. *)
Definition wholeModule (p : Protocol) : list (string * result tlaModule) :=
  if bool_decide (pName p = "Session") then [] else [(pName p, ExportTLA p)].

(** The modules of its phases. *)
Definition phaseModules (p : Protocol) : list (string * result tlaModule) :=
  flat_map (fun ph =>
    if bool_decide (pName p = "Session") && bool_decide (phaseName ph = "Pairing") then []
    else [(if bool_decide (pName p = "Session") && bool_decide (phaseName ph = "Transport") then "SessionMachine"
           else pName p +:+ "_" +:+ ReplaceAll (phaseName ph) " " "_",
           ExportTLAPhase p (phaseName ph))]) (Phases p).

Definition writtenModules (p : Protocol) : list (string * result tlaModule) := wholeModule p ++ phaseModules p.

(** ** When TLA+ accepts a module *)

Definition primedVars (body : list conjunct) : list string :=
  flat_map (fun c => match c with CPrime v _ => [v] | _ => [] end) body.

(** Names declared once, each action priming declared names, none of them
    twice, in a file of the module's name. *)
Definition wellFormed (file : string) (md : tlaModule) : bool :=
  bool_decide (tlaName md = file)
  && distinct (map fst (tlaDefs md) ++ map fst (tlaActions md) ++ tlaVariables md ++ tlaConstants md)
  && forallb (fun act => distinct (primedVars act.2)
                         && forallb (fun v => bool_decide (v ∈ tlaVariables md ++ tlaConstants md)) (primedVars act.2))
       (tlaActions md).

Definition accepted (e : string * result tlaModule) : bool :=
  match e.2 with Ok md => wellFormed e.1 md | Err _ => false end.

(** What an action primes that the module does not declare. *)
Definition undeclared (md : tlaModule) : list (string * string) :=
  flat_map (fun act => map (fun v => (act.1, v))
    (List.filter (fun v => negb (bool_decide (v ∈ tlaVariables md ++ tlaConstants md))) (primedVars act.2))) (tlaActions md).

(** ** The committed protocols *)

Definition parsedDoc (doc : yamlProtocol) (table : Protocol) : Protocol :=
  match ParseYAML (Ok doc) with Ok p => p | Err _ => table end.
Definition pairingProtocol : Protocol := parsedDoc pairingDoc PairingCeremonyProtocol.
Definition sessionProtocol : Protocol := parsedDoc sessionDoc SessionProtocol.
Definition pathSwitchProtocol : Protocol := parsedDoc pathswitchDoc PathSwitch.

Definition modulesOf (p : Protocol) : list tlaModule :=
  flat_map (fun e => match e.2 with Ok md => [md] | Err _ => [] end) (writtenModules p).

(** A protocol as if its document had no adversary. *)
Definition withoutAdversary (p : Protocol) : Protocol :=
  {| pName := pName p; Actors := Actors p; Messages := Messages p; Events := Events p; Commands := Commands p;
     Structs := Structs p; Vars := Vars p; Guards := Guards p; Operators := Operators p; AdvActions := [];
     AdvGuard := EmptyString; Phases := Phases p; WireConsts := WireConsts p; Constants := Constants p;
     Properties := Properties p; ChannelBound := ChannelBound p; OneShot := OneShot p |}.

Lemma constants_stay {V} {tla : TLA V} md (s0 s : tstate (V := V)) k :
  rtc (Next md) s0 s -> k ∈ tlaConstants md -> s k = s0 k.
Proof.
  intros Hrun Hk. revert s Hrun. apply (rtc_ind_r (fun s => s k = s0 k)); [done |].
  intros s s' _ [Hc _] IH. by rewrite Hc.
Qed.

Lemma ExportTLA_ok p : ExportTLA p = Ok (exportModule p None).
Proof. reflexivity. Qed.

Lemma export_ignores_adversary p name : ExportTLAPhase (withoutAdversary p) name = ExportTLAPhase p name.
Proof. reflexivity. Qed.

(** ** Theorems *)

(** The modules written for the pairing and session protocols are ones
    TLA+ accepts, in files of their names, and both protocols satisfy what
    soundness of the export asks.  The one for path switching is not: the
    relay's action for [relay_resume] primes a variable that is declared
    nowhere, since no actor receives [relay_resumed]. *)
Theorem written_modules_parse :
  map fst (writtenModules pairingProtocol) = ["PairingCeremony"] /\
  map fst (writtenModules sessionProtocol) = ["SessionMachine"] /\
  forallb accepted (writtenModules pairingProtocol ++ writtenModules sessionProtocol) = true /\
  exportable pairingProtocol = true /\ exportable sessionProtocol = true /\
  (exists md, writtenModules pathSwitchProtocol = [("PathSwitch", Ok md)] /\
     wellFormed "PathSwitch" md = false /\
     undeclared md = [("relay_Bridged_to_Bridged_on_relay_resume", "received_relay_resumed")]).
Proof.
  split_and!; [by_vm .. |].
  exists (exportModule pathSwitchProtocol None). split_and!; by_vm.
Qed.

(** The checked pairing model has no adversary.  The document gives the
    adversary three actions, each of which adds to [adversary_keys]; the
    module is the one of a document without them, [adversary_keys] is one of
    its constants, and along every run of the module it keeps the value the
    configuration gives it, so that with [{}] the invariants that assume
    [adv_eph_pub \in adversary_keys] say nothing. *)
Theorem pairing_model_has_no_adversary {V} {tla : TLA V} :
  map advName (AdvActions pairingProtocol) = ["MitM_hello"; "MitM_welcome"; "MitM_reveal"] /\
  Forall (fun adv => Contains (advCode adv) "adversary_keys := adversary_keys \union {adv_eph_pub}" = true)
    (AdvActions pairingProtocol) /\
  (exists md, ExportTLA pairingProtocol = Ok md /\ ExportTLA (withoutAdversary pairingProtocol) = Ok md /\
     "adversary_keys" ∈ tlaConstants md /\
     existsb (fun q => bool_decide (q.1 = "MitMDetectedByCodeMismatch")
                       && match q.2 with PInvariant e => HasPrefix e "(adv_eph_pub \in adversary_keys /\ " | _ => false end)
       (tlaProperties md) = true /\
     forall s0 s : tstate (V := V), Init md s0 -> rtc (Next md) s0 s -> s "adversary_keys" = s0 "adversary_keys").
Proof.
  assert (Hc : "adversary_keys" ∈ tlaConstants (exportModule pairingProtocol None))
    by (eapply bool_decide_eq_true; by_vm).
  split_and!; [by_vm | |].
  - apply Forall_forall. intros adv Hadv. apply list_elem_of_In in Hadv.
    assert (Hall : forallb (fun adv => Contains (advCode adv) "adversary_keys := adversary_keys \union {adv_eph_pub}")
      (AdvActions pairingProtocol) = true) by by_vm.
    rewrite forallb_forall in Hall. auto.
  - exists (exportModule pairingProtocol None). split_and!; [apply ExportTLA_ok | | exact Hc | by_vm |].
    { exact (eq_trans (export_ignores_adversary pairingProtocol EmptyString) (ExportTLA_ok pairingProtocol)). }
    intros s0 s _ Hrun. by eapply constants_stay.
Qed.

(** The properties the session document states about pairing are in no
    written module of the three protocols. *)
Theorem session_security_properties_unchecked :
  let names := ["NoTokenReuse"; "AuthRequiresCompletedPairing"; "NoNonceReuse"; "DeviceSecretSecrecy"] in
  Forall (fun n => n ∈ map (fun q => sanitiseTLA (propName q)) (Properties sessionProtocol)) names /\
  Forall (fun md => Forall (fun n => n ∉ map fst (tlaProperties md)) names)
    (modulesOf pairingProtocol ++ modulesOf sessionProtocol ++ modulesOf pathSwitchProtocol).
Proof.
  cbv zeta. split; eapply bool_decide_eq_true; by_vm.
Qed.

(** ** The diagrams *)

(** docs/transport.puml and docs/relay.puml, which the command writes whatever
    the protocol. *)
Definition transportDiagram (p : Protocol) : (nat -> MsgSend -> list string) -> diagram :=
  ExportPlantUMLActors p "Transport" ["backend"; "client"].
Definition relayDiagram (p : Protocol) : (nat -> MsgSend -> list string) -> diagram :=
  ExportPlantUMLActors p "Relay" ["relay"].

(** The committed files, by their titles. *)
Definition committedPuml (name title : string) : string :=
  linesText EmptyString
    ["@startuml " +:+ name; "!theme plain"; "skinparam backgroundColor white"; "skinparam state {";
     "  BackgroundColor #f8f8f8"; "  BorderColor #888"; "}"; EmptyString; "title " +:+ title; EmptyString;
     "' === Cross-actor interactions ==="; EmptyString; EmptyString; "@enduml"].

(** The transitions of an actor that a diagram of its protocol leaves out. *)
Definition notDrawn (p : Protocol) (a : Actor) : list (State * State) :=
  map (fun t => (From t, To t)) (List.filter (outsidePhases p) (FlattenedTransitions a)).

(** The committed transport and relay diagrams are empty.  The files do not
    depend on the protocol, so the last run of the command wins: what is
    committed was written for the pairing ceremony, which has no actor of
    those names, over the diagrams of the session protocol.  Those show the
    backend and the client whole, but not the relay's moves between
    [BackendRegistered] and [Bridged], states in no phase. *)
Theorem committed_diagrams_are_empty (range : nat -> MsgSend -> list string) :
  printDiagram (transportDiagram pairingProtocol range) = committedPuml "transport" "PairingCeremony — Transport" /\
  printDiagram (relayDiagram pairingProtocol range) = committedPuml "relay" "PairingCeremony — Relay" /\
  dgActors (transportDiagram pairingProtocol range) = [] /\ dgActors (relayDiagram pairingProtocol range) = [] /\
  map abName (dgActors (transportDiagram sessionProtocol range)) = ["backend"; "client"] /\
  map abName (dgActors (relayDiagram sessionProtocol range)) = ["relay"] /\
  map (fun a => (Name a, notDrawn sessionProtocol a)) (Actors sessionProtocol)
  = [("backend", []); ("client", []);
     ("relay", [("BackendRegistered", "Bridged"); ("Bridged", "BackendRegistered")])].
Proof. split_and!; by_vm. Qed.

(** ** The machines of the other SDKs *)

(** Every actor of a protocol has code that compiles in the four languages. *)
Definition everywhere (p : Protocol) : bool :=
  forallb (fun a => forallb (fun T => sdkCompiles T p a) [swift; kotlin; typescript] && cCompiles p a
                    && match cHandleMessageCases p a, cStepCases p a with Some _, Some _ => true | _, _ => false end)
    (Actors p).

Definition sdkActor (p : Protocol) (name : string) (fallback : Actor) : Actor :=
  default fallback (find (fun a => bool_decide (Name a = name)) (Actors p)).
(** [handleEvent] of the session backend in a language. *)
Definition sdkBackend (T : Target) : option (list (Case (list CmdID))) :=
  let a := sdkActor sessionProtocol "backend" SessionProtocol_backend in
  handleEventCases T (enumsOf T sessionProtocol a) (fieldsOf T sessionProtocol (FlattenedTransitions a)) (FlattenedTransitions a).

Module SBM := SessionProtocolBackendMachine.
#[local] Existing Instance SBM.vars.
Definition goBackend : list (Case (list CmdID)) := SBM.SessionProtocolBackendMachine_HandleEvent_cases.

(** The wire constants in each language: the values in the order of the document. *)
Definition wireValues (f : WireConstant -> list (string * goValue)) (p : Protocol) : list goValue :=
  map snd (flat_map f (WireConsts p)).

(** The guards as the document defines them, with the wire constant
    [max_ping_failures]; no actions. *)
Definition pingGuards {H} : Callbacks SBM.SessionProtocolBackendMachine H :=
  {| cbGuards := {["under_max_failures" := fun w => (SBM.PingFailures (wVars w) + 1 <? 3)%Z;
                   "at_max_failures" := fun w => (3 <=? SBM.PingFailures (wVars w) + 1)%Z]};
     cbActions := ∅; cbOnChange := None |}.
Definition pingTimeout {H} (cases : list (Case (list CmdID))) (w : World SBM.SessionProtocolBackendMachine H) :=
  (switch [] cases pingGuards "ping_timeout" w).1.1.

Lemma sdkBackend_cases T : T ∈ [swift; kotlin; typescript] -> sdkBackend T = Some (map stripCase goBackend).
Proof. rewrite !elem_of_cons. intros [->|[->|[->|?%elem_of_nil]]]; [by_vm | by_vm | by_vm | done]. Qed.

(** The committed protocols in the other SDKs: the code of every actor
    compiles in Swift, Kotlin, TypeScript and C, and their wire constants
    have distinct names and the values of the Go constants, in order, Kotlin
    reading its bytes as signed. *)
Theorem committed_machines_in_every_sdk :
  forallb everywhere [pairingProtocol; sessionProtocol; pathSwitchProtocol] = true /\
  (forall f, f ∈ [swiftWireConst; tsWireConst; cWireConst] ->
     wireValues f sessionProtocol = map snd (goWireConsts sessionProtocol) /\
     NoDup (map fst (flat_map f (WireConsts sessionProtocol)))) /\
  map snd (flat_map kotlinWireConst (WireConsts sessionProtocol))
  = map (fun c => match c.1.2, c.2 with "byte", VInt z => VInt (toByte z) | _, v => v end) (goWireConsts sessionProtocol).
Proof.
  split_and!; [by_vm | | by_vm]. intros f Hf. rewrite !elem_of_cons in Hf.
  destruct Hf as [->|[->|[->|?%elem_of_nil]]]; [| | | done]; (split; [by_vm | eapply bool_decide_eq_true; by_vm]).
Qed.

(** A backend of another SDK never gives up a dead direct path.  The
    count of failed pings is an increment on a transition without an action:
    the Go and C machines perform it, and with the document's guards the
    third timeout in a row moves the backend to [RelayBackoff]; in Swift,
    Kotlin and TypeScript the increment is a comment, so however many pings
    time out the backend stays in [AltDegraded] with one failure counted. *)
Theorem sdk_backend_never_falls_back {H} (T : Target) (cases : list (Case (list CmdID)))
    (v : SBM.SessionProtocolBackendMachine) (host : H) (n : nat) :
  T ∈ [swift; kotlin; typescript] -> sdkBackend T = Some cases ->
  let w := {| wState := "AltActive"; wVars := v; wHost := host |} in
  wState (Nat.iter 3 (pingTimeout goBackend) w) = "RelayBackoff" /\
  wState (Nat.iter (S n) (pingTimeout cases) w) = "AltDegraded" /\
  SBM.PingFailures (wVars (Nat.iter (S n) (pingTimeout cases) w)) = 1%Z.
Proof.
  intros HT Hc w. rewrite (sdkBackend_cases T HT) in Hc. injection Hc as <-.
  set (w1 := {| wState := "AltDegraded"; wVars := SBM.set_PingFailures 1 v; wHost := host |}).
  assert (Hrun : Nat.iter (S n) (pingTimeout (map stripCase goBackend)) w = w1).
  { induction n as [|k IH]; [vm_compute; reflexivity |].
    change (pingTimeout (map stripCase goBackend) (Nat.iter (S k) (pingTimeout (map stripCase goBackend)) w) = w1).
    rewrite IH. vm_compute. reflexivity. }
  split; [vm_compute; reflexivity |]. exact (conj (f_equal wState Hrun) (f_equal (fun w => SBM.PingFailures (wVars w)) Hrun)).
Qed.

Lemma sdk_backend_never_falls_back_witness :
  wState (Nat.iter 3 (pingTimeout goBackend) {| wState := "AltActive"; wVars := SBM.zero; wHost := tt |}) = "RelayBackoff" /\
  wState (Nat.iter 100 (pingTimeout (map stripCase goBackend)) {| wState := "AltActive"; wVars := SBM.zero; wHost := tt |})
    = "AltDegraded".
Proof.
  destruct (sdk_backend_never_falls_back typescript (map stripCase goBackend) SBM.zero tt 99) as (Hgo & Hsdk & _);
    [right; right; left | by_vm | split; [exact Hgo | exact Hsdk]].
Defined.
