(* ===== verification/Generated.v ===== *)
(** * Generated: the committed state machines (session_gen.go, pairing/pairingceremony_gen.go,
      protocol/pathswitch_gen.go)

    What the generated machines of the three protocols do: they are the output
    of the generator for the committed documents, their path variables follow
    their states, a state past a check is reached only through that check, and
    the ceremonies take all their steps in order. *)

From Stdlib Require Import ZArith Lia Strings.String.
From stdpp Require Import base gmap strings list fin_maps.
From S2P Require Import Prelude Machine GoGen Yaml PathSwitchGen PairingGen SessionGen.

(** ** Calls and runs *)

(** A call of the host: [HandleMessage] or [Step]. *)
Inductive input :=
  | MsgIn (msg : MsgType)
  | EventIn (ev : EventID).

#[export] Instance input_eq_dec : EqDecision input.
Proof. solve_decision. Defined.

Section Runs.
Context {V H : Type} `{!GoVars V} (hm st : list (Case bool)) (cb : Callbacks V H).

Definition call (w : World V H) (i : input) : World V H :=
  match i with
  | MsgIn msg => (switch false hm cb msg w).1.1
  | EventIn ev => (switch false st cb ev w).1.1
  end.

Definition run (w : World V H) (inputs : list input) : World V H := foldl call w inputs.

(** The state a case body ends in: its only assignment to [State] is its last
    statement. *)
Fixpoint target (body : list stmt) : option State :=
  match body with
  | [] => None
  | [Goto s] => Some s
  | Goto _ :: _ => None
  | _ :: body => target body
  end.

(** What the body does to the variables, the host's callbacks aside. *)
Fixpoint effect (body : list stmt) (v : V) : V :=
  match body with
  | [] => v
  | Set_ field x :: body => effect body (assign field x v)
  | Incr field n :: body => effect body (increment field n v)
  | _ :: body => effect body v
  end.

(** The host's callbacks leave [State] and the variables seen by [proj] alone. *)
Context {A : Type} (proj : V -> A).

Definition quiet : Prop :=
  (forall i f w, cbActions cb !! i = Some f ->
     wState (f w).1 = wState w /\ proj (wVars (f w).1) = proj (wVars w)) /\
  (forall f v w, cbOnChange cb = Some f ->
     wState (f v w) = wState w /\ proj (wVars (f v w)) = proj (wVars w)).

(** The assignments of the body to the variables seen depend on those only. *)
Definition local (s : stmt) : Prop :=
  match s with
  | Set_ field x => forall v v', proj v = proj v' -> proj (assign field x v) = proj (assign field x v')
  | Incr field n => forall v v', proj v = proj v' -> proj (increment field n v) = proj (increment field n v')
  | _ => True
  end.

Lemma effect_local body v v' : Forall local body -> proj v = proj v' -> proj (effect body v) = proj (effect body v').
Proof.
  intros Hl. revert v v'. induction Hl as [|s body Hs Hb IH]; intros v v' Hv; [done |].
  destruct s; cbn [effect]; auto.
Qed.

(** Only an action fails, and a generated body calls its action first. *)
Definition actionFirst (body : list stmt) : Prop :=
  match body with
  | Act _ :: rest => Forall pureStmt rest
  | _ => Forall pureStmt body
  end.

Lemma exec_pure_effect body w s :
  quiet -> Forall local body -> Forall pureStmt body -> target body = Some s ->
  exists w', exec cb body w = (w', None) /\ wState w' = s /\ proj (wVars w') = proj (effect body (wVars w)).
Proof.
  intros [_ Hq] Hl. revert w. induction Hl as [|x body Hx Hb IH]; intros w Hp Ht; [done |].
  apply Forall_cons in Hp as [Hx' Hp]. destruct x as [i|field x|field n|v|s']; cbn [exec effect]; [done | | | |].
  - by apply (IH (withVars w (assign field x))).
  - by apply (IH (withVars w (increment field n))).
  - destruct (cbOnChange cb) as [f|] eqn:Hc; [| by apply IH].
    destruct (Hq f v w eq_refl) as [_ Hpr]. destruct (IH (f v w) Hp Ht) as (w' & He & Hs & Hv).
    exists w'. split_and!; [done | done |]. rewrite Hv. by apply effect_local.
  - cbn [target] in Ht. destruct body as [|y body]; [| done]. injection Ht as <-. eexists. split; [done |]. by split.
Qed.

Lemma exec_effect body w s :
  quiet -> Forall local body -> actionFirst body -> target body = Some s ->
  match exec cb body w with
  | (w', None) => wState w' = s /\ proj (wVars w') = proj (effect body (wVars w))
  | (w', Some _) => wState w' = wState w /\ proj (wVars w') = proj (wVars w)
  end.
Proof.
  intros Hq Hl Ha Ht.
  assert (Hpure : forall body w, Forall local body -> Forall pureStmt body -> target body = Some s ->
    match exec cb body w with
    | (w', None) => wState w' = s /\ proj (wVars w') = proj (effect body (wVars w))
    | (w', Some _) => wState w' = wState w /\ proj (wVars w') = proj (wVars w)
    end).
  { intros b w0 Hlb Hpb Htb. by destruct (exec_pure_effect b w0 s Hq Hlb Hpb Htb) as (w' & -> & Hs & Hv). }
  destruct body as [|x body]; [done |]. destruct x as [i|field x|field n|v|s']; try (by apply Hpure).
  cbn [exec effect]. apply Forall_cons in Hl as [_ Hl].
  assert (Htb : target body = Some s) by (by destruct body).
  destruct (cbActions cb !! i) as [f|] eqn:Hf; [| by apply Hpure].
  destruct (proj1 Hq i f w Hf) as [Hs Hv]. destruct (f w) as [w1 [e|]]; [done |]. simpl in Hs, Hv.
  specialize (Hpure body w1 Hl Ha Htb). destruct (exec cb body w1) as [w' [e|]].
  - by rewrite <-Hs, <-Hv.
  - destruct Hpure as [Hs' Hv']. split; [done |]. rewrite Hv'. by apply effect_local.
Qed.

Record wfCase (c : Case bool) : Prop := {
  wf_local : Forall local (cBody _ c);
  wf_action : actionFirst (cBody _ c);
  wf_target : is_Some (target (cBody _ c))
}.

(** The case of the method [i] calls, with the trigger it matches. *)
Definition caseFor (i : input) (c : Case bool) : Prop :=
  match i with
  | MsgIn msg => c ∈ hm /\ cOn _ c = msg
  | EventIn ev => c ∈ st /\ cOn _ c = ev
  end.

Lemma switch_selected {R} (zero : R) (cases : list (Case R)) on w :
  (switch zero cases cb on w).1.1 = w \/
  exists c, c ∈ cases /\ selects cb on w c = true /\ (switch zero cases cb on w).1.1 = (exec cb (cBody _ c) w).1.
Proof.
  induction cases as [|c cases IH]; [by left |]. cbn [switch]. destruct (selects cb on w c) eqn:Hs.
  - right. exists c. split_and!; [left | done |]. by destruct (exec cb (cBody _ c) w) as [w' [e|]].
  - destruct IH as [IH|(d & Hd & Hrest)]; [by left | right]. exists d. split; [by right | done].
Qed.

(** What a call does, the callbacks being quiet: nothing the invariants see,
    or one case of the table whose guard held. *)
Lemma call_spec w i : quiet -> (forall c, caseFor i c -> wfCase c) ->
  (wState (call w i) = wState w /\ proj (wVars (call w i)) = proj (wVars w)) \/
  exists c s, caseFor i c /\ cState _ c = wState w /\ guardHolds cb (cGuard _ c) w = true /\
    target (cBody _ c) = Some s /\ wState (call w i) = s /\
    proj (wVars (call w i)) = proj (effect (cBody _ c) (wVars w)).
Proof.
  intros Hq Hwf.
  assert (Hsel : call w i = w \/ exists c, caseFor i c /\ cState _ c = wState w /\
    guardHolds cb (cGuard _ c) w = true /\ call w i = (exec cb (cBody _ c) w).1).
  { destruct i as [key|key]; cbn [call caseFor];
      [destruct (switch_selected false hm key w) as [Hsw|(c & Hc & Hs & He)]
      |destruct (switch_selected false st key w) as [Hsw|(c & Hc & Hs & He)]];
      [by left | right | by left | right]; exists c; unfold selects in Hs; bool_hyps; by split_and!. }
  destruct Hsel as [->|(c & Hc & Hst & Hg & ->)]; [by left |].
  destruct (Hwf c Hc) as [Hl Ha [s Ht]]. pose proof (exec_effect (cBody _ c) w s Hq Hl Ha Ht) as He.
  destruct (exec cb (cBody _ c) w) as [w' [e|]]; simpl; [by left |]. destruct He as [Hs Hv].
  right. exists c, s. by split_and!.
Qed.

(** *** Invariants of state and variables *)

Lemma run_invariant (I : State -> A -> Prop) inputs w :
  quiet -> (forall c, c ∈ hm ++ st -> wfCase c) ->
  (forall c s v, c ∈ hm ++ st -> target (cBody _ c) = Some s -> I (cState _ c) (proj v) ->
     I s (proj (effect (cBody _ c) v))) ->
  I (wState w) (proj (wVars w)) -> I (wState (run w inputs)) (proj (wVars (run w inputs))).
Proof.
  intros Hq Hwf Hpres. revert w. induction inputs as [|i inputs IH]; intros w HI; [done |].
  apply (IH (call w i)).
  assert (Hin : forall c, caseFor i c -> c ∈ hm ++ st).
  { intros c Hc. apply elem_of_app. destruct i; destruct Hc; auto. }
  destruct (call_spec w i Hq (fun c Hc => Hwf c (Hin c Hc))) as [[-> ->]|(c & s & Hc & Hst & _ & Ht & -> & ->)]; [done |].
  apply Hpres; [by apply Hin | done |]. by rewrite Hst.
Qed.

(** *** Inputs a state needs *)

Lemma run_needs (needs : State -> list input) inputs w :
  quiet -> (forall c, c ∈ hm ++ st -> wfCase c) ->
  (forall c s i, caseFor i c -> target (cBody _ c) = Some s ->
     needs s `sublist_of` needs (cState _ c) ++ [i]) ->
  forall past, needs (wState w) `sublist_of` past -> needs (wState (run w inputs)) `sublist_of` past ++ inputs.
Proof.
  intros Hq Hwf Hn. revert w. induction inputs as [|i inputs IH]; intros w past Hp; [by rewrite app_nil_r |].
  rewrite cons_middle, (assoc_L (++)). apply (IH (call w i)).
  assert (Hin : forall c, caseFor i c -> c ∈ hm ++ st).
  { intros c Hc. apply elem_of_app. destruct i; destruct Hc; auto. }
  destruct (call_spec w i Hq (fun c Hc => Hwf c (Hin c Hc))) as [[-> _]|(c & s & Hc & Hst & _ & Ht & -> & _)].
  - by apply sublist_inserts_r.
  - etrans; [by eapply Hn |]. rewrite Hst. by apply sublist_app.
Qed.

(** *** States behind a guard *)

(** Without the guard [g] ever holding, the states of [inside] are not left. *)
Lemma run_gated (inside : list State) (g : GuardID) inputs w :
  quiet -> (forall c, c ∈ hm ++ st -> wfCase c) ->
  (forall w, guardHolds cb (Some g) w = false) ->
  (forall c s, c ∈ hm ++ st -> target (cBody _ c) = Some s -> cState _ c ∈ inside ->
     cGuard _ c <> Some g -> s ∈ inside) ->
  wState w ∈ inside -> wState (run w inputs) ∈ inside.
Proof.
  intros Hq Hwf Hg Hin. revert w. induction inputs as [|i inputs IH]; intros w Hw; [done |].
  apply (IH (call w i)).
  assert (Hc' : forall c, caseFor i c -> c ∈ hm ++ st).
  { intros c Hc. apply elem_of_app. destruct i; destruct Hc; auto. }
  destruct (call_spec w i Hq (fun c Hc => Hwf c (Hc' c Hc))) as [[-> _]|(c & s & Hc & Hst & Hgd & Ht & -> & _)]; [done |].
  eapply Hin; [by apply Hc' | done | by rewrite Hst |]. intros Heq. rewrite Heq, Hg in Hgd. done.
Qed.
End Runs.

(** ** Checking a machine's cases *)

Definition isAct (s : stmt) : bool := match s with Act _ => true | _ => false end.

Definition wfBody (body : list stmt) : bool :=
  forallb (fun s => negb (isAct s)) (match body with Act _ :: rest => rest | _ => body end) &&
  match target body with Some _ => true | None => false end.

(** Every body is well formed, and the invariants that follow only see [State]. *)
Definition wfCases (cases : list (Case bool)) : bool := forallb (fun c => wfBody (cBody _ c)) cases.

Definition noVars {V} (v : V) : unit := tt.

Lemma wfBody_spec (body : list stmt) : wfBody body = true -> actionFirst body /\ is_Some (target body).
Proof.
  unfold wfBody. intros Hw. bool_hyps. split; [| destruct (target body); eauto; done].
  assert (Hp : forall l, forallb (fun s : stmt => negb (isAct s)) l = true -> Forall pureStmt l).
  { intros l Hl. rewrite forallb_forall in Hl. apply Forall_forall. intros s Hs%list_elem_of_In.
    apply Hl in Hs. by destruct s. }
  destruct body as [|[] body]; by apply Hp.
Qed.

Lemma wfCases_spec {V} `{!GoVars V} (hm st : list (Case bool)) :
  wfCases (hm ++ st) = true -> forall c, c ∈ hm ++ st -> wfCase (noVars (V := V)) c.
Proof.
  unfold wfCases. rewrite forallb_forall. intros Hw c Hc%list_elem_of_In. apply Hw in Hc.
  apply wfBody_spec in Hc as [? ?]. split; [| done | done]. apply Forall_forall. by intros [] _.
Qed.

(** Boolean forms of the two conditions on states. *)
Definition gatedCase (inside : list State) (g : GuardID) (c : Case bool) : bool :=
  match target (cBody _ c) with
  | Some s => negb (bool_decide (cState _ c ∈ inside)) || bool_decide (cGuard _ c = Some g) || bool_decide (s ∈ inside)
  | None => false
  end.

Lemma gatedCase_spec inside g (cases : list (Case bool)) c s :
  forallb (gatedCase inside g) cases = true -> c ∈ cases -> target (cBody _ c) = Some s ->
  cState _ c ∈ inside -> cGuard _ c <> Some g -> s ∈ inside.
Proof.
  rewrite forallb_forall. intros Hf Hc%list_elem_of_In Ht Hin Hg. apply Hf in Hc. unfold gatedCase in Hc.
  rewrite Ht, (bool_decide_true _ Hin), (bool_decide_false _ Hg) in Hc. by apply bool_decide_eq_true in Hc.
Qed.

Fixpoint subseq (l k : list input) : bool :=
  match l, k with
  | [], _ => true
  | x :: l', y :: k' => if bool_decide (x = y) then subseq l' k' else subseq l k'
  | _ :: _, [] => false
  end.

Lemma subseq_sound l k : subseq l k = true -> l `sublist_of` k.
Proof.
  revert l. induction k as [|y k IH]; intros [|x l]; cbn [subseq]; try done; [by intros; apply sublist_nil_l |].
  case_bool_decide as He; [subst; intros; by apply sublist_skip, IH | intros; by apply sublist_cons, IH].
Qed.

Definition needsCase (mk : string -> input) (needs : State -> list input) (c : Case bool) : bool :=
  match target (cBody _ c) with
  | Some s => subseq (needs s) (needs (cState _ c) ++ [mk (cOn _ c)])
  | None => false
  end.

Lemma needsCase_spec needs (hm st : list (Case bool)) c s i :
  forallb (needsCase MsgIn needs) hm = true -> forallb (needsCase EventIn needs) st = true ->
  caseFor hm st i c -> target (cBody _ c) = Some s -> needs s `sublist_of` needs (cState _ c) ++ [i].
Proof.
  rewrite !forallb_forall. intros Hm Hs Hc Ht. destruct i as [key|key]; destruct Hc as [Hc%list_elem_of_In <-];
    [apply Hm in Hc | apply Hs in Hc]; unfold needsCase in Hc; rewrite Ht in Hc; by apply subseq_sound.
Qed.

(** What a state needs, from a table. *)
Definition needsTable (table : list (State * list input)) (s : State) : list input :=
  default [] (snd <$> find (fun e => bool_decide (e.1 = s)) table).

(** The callbacks leave the state alone. *)
Definition keepsState {V H} (cb : Callbacks V H) : Prop := quiet cb noVars.

Lemma run_gated_check {V H} `{!GoVars V} (hm st : list (Case bool)) (cb : Callbacks V H) inside g inputs w :
  wfCases (hm ++ st) = true -> forallb (gatedCase inside g) (hm ++ st) = true -> keepsState cb ->
  (forall w, guardHolds cb (Some g) w = false) -> wState w ∈ inside -> wState (run hm st cb w inputs) ∈ inside.
Proof.
  intros Hwf Hg Hq Hno Hw. eapply (run_gated hm st cb noVars); try done; [by apply wfCases_spec |].
  intros c s Hc Ht Hin Hgd. by eapply gatedCase_spec.
Qed.

Lemma run_needs_check {V H} `{!GoVars V} (hm st : list (Case bool)) (cb : Callbacks V H) table inputs w :
  wfCases (hm ++ st) = true -> forallb (needsCase MsgIn (needsTable table)) hm = true ->
  forallb (needsCase EventIn (needsTable table)) st = true -> keepsState cb ->
  needsTable table (wState w) = [] -> needsTable table (wState (run hm st cb w inputs)) `sublist_of` inputs.
Proof.
  intros Hwf Hm Hs Hq Hw. apply (run_needs hm st cb noVars (needsTable table) inputs w) with (past := []);
    [done | by apply wfCases_spec | | by rewrite Hw].
  intros c s i Hc Ht. by eapply needsCase_spec.
Qed.

(** ** The machines of the three protocols *)

Module PB := PathSwitchGen.PathSwitchBackendMachine.
Module PC := PathSwitchGen.PathSwitchClientMachine.
Module PR := PathSwitchGen.PathSwitchRelayMachine.
Module CA := PairingGen.PairingCeremonyProtocolAcceptorMachine.
Module CI := PairingGen.PairingCeremonyProtocolInitiatorMachine.
Module SB := SessionGen.SessionProtocolBackendMachine.
Module SC := SessionGen.SessionProtocolClientMachine.
Module SR := SessionGen.SessionProtocolRelayMachine.

#[export] Existing Instances PB.vars PC.vars PR.vars CA.vars CI.vars SB.vars SC.vars SR.vars.

(** A machine as its constructor returns it, with a host. *)
Definition start {V H} (new : State * V) (h : H) : World V H :=
  {| wState := new.1; wVars := new.2; wHost := h |}.

(** Runs of the machines, message receipts and internal events in any order. *)
Definition pathBackendRun {H} (cb : Callbacks _ H) (h : H) :=
  run PB.PathSwitchBackendMachine_HandleMessage_cases PB.PathSwitchBackendMachine_Step_cases cb
    (start PB.NewPathSwitchBackendMachine h).
Definition pathClientRun {H} (cb : Callbacks _ H) (h : H) :=
  run PC.PathSwitchClientMachine_HandleMessage_cases PC.PathSwitchClientMachine_Step_cases cb
    (start PC.NewPathSwitchClientMachine h).
Definition acceptorRun {H} (cb : Callbacks _ H) (h : H) :=
  run CA.PairingCeremonyProtocolAcceptorMachine_HandleMessage_cases
    CA.PairingCeremonyProtocolAcceptorMachine_Step_cases cb (start CA.NewPairingCeremonyProtocolAcceptorMachine h).
Definition initiatorRun {H} (cb : Callbacks _ H) (h : H) :=
  run CI.PairingCeremonyProtocolInitiatorMachine_HandleMessage_cases
    CI.PairingCeremonyProtocolInitiatorMachine_Step_cases cb (start CI.NewPairingCeremonyProtocolInitiatorMachine h).
Definition sessionBackendRun {H} (cb : Callbacks _ H) (h : H) :=
  run SB.SessionProtocolBackendMachine_HandleMessage_cases SB.SessionProtocolBackendMachine_Step_cases cb
    (start SB.NewSessionProtocolBackendMachine h).
Definition sessionClientRun {H} (cb : Callbacks _ H) (h : H) :=
  run SC.SessionProtocolClientMachine_HandleMessage_cases SC.SessionProtocolClientMachine_Step_cases cb
    (start SC.NewSessionProtocolClientMachine h).

(** *** Path variables *)

Definition pathVars (v : PB.PathSwitchBackendMachine) :=
  (PB.ActivePath v, PB.DispatcherPath v, PB.MonitorTarget v, PB.LanSignal v).
Definition altVars (v : SB.SessionProtocolBackendMachine) :=
  (SB.BActivePath v, SB.BDispatcherPath v, SB.MonitorTarget v, SB.AltSignal v).
Definition clientAltVars (v : SC.SessionProtocolClientMachine) :=
  (SC.CActivePath v, SC.CDispatcherPath v, SC.AltSignal v).

(** On the direct path in [direct] states, on the relay in all others. *)
Definition followsState (direct : list State) (path : string) (s : State) (v : string * string * string * string) : Prop :=
  v = if existsb (String.eqb s) direct then (path, path, path, "ready") else ("relay", "relay", "none", "pending").

(** The client's variables on the alternative path and right after a fallback;
    the dispatcher reads one of the two paths in any state. *)
Definition clientFollowsState (s : State) (v : string * string * string) : Prop :=
  (s = "AltActive" -> v = ("alt", "alt", "ready")) /\
  (s = "RelayFallback" -> v = ("relay", "relay", "pending")) /\
  (v.1.2 = "relay" \/ v.1.2 = "alt").

(** The assignments of every case written out see the projected variables only. *)
Ltac local_assignment :=
  cbn [local]; intros [] [] Hv; cbv -[goInt Z.add] in Hv |- *; congruence.
Ltac local_cases :=
  lazymatch goal with
  | |- Forall _ [] => apply Forall_nil_2
  | |- Forall _ (_ :: _) =>
      apply Forall_cons_2;
      [split; [cbn [cBody case_]; repeat (apply Forall_cons_2; [first [exact I | local_assignment] |]); apply Forall_nil_2
              |cbn; repeat constructor
              |eexists; reflexivity]
      |local_cases]
  end.

Lemma path_backend_wf :
  Forall (wfCase pathVars) (PB.PathSwitchBackendMachine_HandleMessage_cases ++ PB.PathSwitchBackendMachine_Step_cases).
Proof. apply Forall_app_2; cbv delta [PB.PathSwitchBackendMachine_HandleMessage_cases PB.PathSwitchBackendMachine_Step_cases]; local_cases. Qed.

Lemma session_backend_wf :
  Forall (wfCase altVars) (SB.SessionProtocolBackendMachine_HandleMessage_cases ++ SB.SessionProtocolBackendMachine_Step_cases).
Proof.
  unfold SB.SessionProtocolBackendMachine_Step_cases. repeat apply Forall_app_2;
    cbv delta [SB.SessionProtocolBackendMachine_HandleMessage_cases SB.SessionProtocolBackendMachine_Step_cases1
               SB.SessionProtocolBackendMachine_Step_cases2 SB.SessionProtocolBackendMachine_Step_cases3];
    local_cases.
Qed.

Lemma session_client_wf :
  Forall (wfCase clientAltVars) (SC.SessionProtocolClientMachine_HandleMessage_cases ++ SC.SessionProtocolClientMachine_Step_cases).
Proof.
  unfold SC.SessionProtocolClientMachine_Step_cases. repeat apply Forall_app_2;
    cbv delta [SC.SessionProtocolClientMachine_HandleMessage_cases SC.SessionProtocolClientMachine_Step_cases1
               SC.SessionProtocolClientMachine_Step_cases2];
    local_cases.
Qed.

(** A case keeps an invariant of the state and the variables seen. *)
Definition preserving {V A} `{!GoVars V} (proj : V -> A) (I : State -> A -> Prop) (c : Case bool) : Prop :=
  forall s v, target (cBody _ c) = Some s -> I (cState _ c) (proj v) -> I s (proj (effect (cBody _ c) v)).

Ltac preserving_cases :=
  lazymatch goal with
  | |- Forall _ [] => apply Forall_nil_2
  | |- Forall _ (_ :: _) =>
      apply Forall_cons_2;
      [intros s [] [= <-]; cbv -[goInt Z.add not iff]; intuition (congruence || eauto)
      |preserving_cases]
  end.

Lemma path_backend_preserving :
  Forall (preserving pathVars (followsState ["LANActive"; "LANDegraded"] "lan"))
    (PB.PathSwitchBackendMachine_HandleMessage_cases ++ PB.PathSwitchBackendMachine_Step_cases).
Proof.
  apply Forall_app_2;
    cbv delta [PB.PathSwitchBackendMachine_HandleMessage_cases PB.PathSwitchBackendMachine_Step_cases];
    preserving_cases.
Qed.

Lemma session_backend_preserving :
  Forall (preserving altVars (followsState ["AltActive"; "AltDegraded"] "alt"))
    (SB.SessionProtocolBackendMachine_HandleMessage_cases ++ SB.SessionProtocolBackendMachine_Step_cases).
Proof.
  unfold SB.SessionProtocolBackendMachine_Step_cases. repeat apply Forall_app_2;
    cbv delta [SB.SessionProtocolBackendMachine_HandleMessage_cases SB.SessionProtocolBackendMachine_Step_cases1
               SB.SessionProtocolBackendMachine_Step_cases2 SB.SessionProtocolBackendMachine_Step_cases3];
    preserving_cases.
Qed.

Lemma session_client_preserving :
  Forall (preserving clientAltVars clientFollowsState)
    (SC.SessionProtocolClientMachine_HandleMessage_cases ++ SC.SessionProtocolClientMachine_Step_cases).
Proof.
  unfold SC.SessionProtocolClientMachine_Step_cases. repeat apply Forall_app_2;
    cbv delta [SC.SessionProtocolClientMachine_HandleMessage_cases SC.SessionProtocolClientMachine_Step_cases1
               SC.SessionProtocolClientMachine_Step_cases2];
    preserving_cases.
Qed.

Lemma run_invariant_check {V H A} `{!GoVars V} (proj : V -> A) (I : State -> A -> Prop) hm st (cb : Callbacks V H) inputs w :
  Forall (wfCase proj) (hm ++ st) -> Forall (preserving proj I) (hm ++ st) -> quiet cb proj ->
  I (wState w) (proj (wVars w)) -> I (wState (run hm st cb w inputs)) (proj (wVars (run hm st cb w inputs))).
Proof.
  rewrite !Forall_forall. intros Hwf Hp Hq HI. apply run_invariant; auto.
  intros c s v Hc Ht. by apply (Hp c Hc).
Qed.

(** *** Ceremonies step by step *)

(** The inputs along a path of states, as what each state on it needs. *)
Fixpoint ladder (past : list input) (steps : list (input * State)) : list (State * list input) :=
  match steps with
  | [] => []
  | (i, s) :: steps => (s, past ++ [i]) :: ladder (past ++ [i]) steps
  end.

Definition acceptorSteps : list (input * State) :=
  [(EventIn "pair_begin", "GeneratingEphemeral"); (EventIn "ephemeral_ready", "RegisteringRelay");
   (EventIn "relay_registered", "WaitingForHello"); (MsgIn "hello", "WaitingForReveal");
   (MsgIn "reveal", "DerivingCode"); (EventIn "code_ready", "AwaitingUserConfirm");
   (EventIn "user_confirm", "AwaitingPeerConfirm"); (MsgIn "confirm_to_acceptor", "Paired")].

Definition initiatorSteps : list (input * State) :=
  [(EventIn "token_received", "DecodingToken"); (EventIn "token_decoded", "GeneratingEphemeral");
   (EventIn "ephemeral_ready", "ConnectingRelay"); (EventIn "relay_connected", "AwaitingWelcome");
   (MsgIn "welcome", "Revealing"); (EventIn "reveal_sent", "DerivingCode");
   (EventIn "code_ready", "AwaitingUserConfirm"); (EventIn "user_confirm", "AwaitingPeerConfirm");
   (MsgIn "confirm_to_initiator", "Paired")].

Definition backendSteps : list (input * State) :=
  [(EventIn "cli_init_pair", "GenerateToken"); (EventIn "token_created", "RegisterRelay");
   (EventIn "relay_registered", "WaitingForClient"); (MsgIn "pair_hello", "DeriveSecret");
   (EventIn "ecdh_complete", "SendAck"); (EventIn "signal_code_display", "WaitingForCode");
   (EventIn "cli_code_entered", "ValidateCode"); (EventIn "check_code", "StorePaired");
   (EventIn "finalise", "Paired"); (MsgIn "auth_request", "AuthCheck"); (EventIn "verify", "SessionActive");
   (EventIn "session_established", "RelayConnected")].

Definition clientSteps : list (input * State) :=
  [(EventIn "backchannel_received", "ObtainBackchannelSecret"); (EventIn "secret_parsed", "ConnectRelay");
   (EventIn "relay_connected", "GenKeyPair"); (EventIn "key_pair_generated", "WaitAck");
   (MsgIn "pair_hello_ack", "E2EReady"); (MsgIn "pair_confirm", "ShowCode");
   (EventIn "code_displayed", "WaitPairComplete"); (MsgIn "pair_complete", "Paired");
   (EventIn "app_launch", "Reconnect"); (EventIn "relay_connected", "SendAuth"); (MsgIn "auth_ok", "SessionActive");
   (EventIn "session_established", "RelayConnected")].

(** The states of an established session need all the steps; the
    alternative path also needs its check. *)
Definition establishedNeeds (steps : list (input * State)) (relayed checked : list State) (check : input)
    : list (State * list input) :=
  ladder [] steps ++ map (fun s => (s, map fst steps)) relayed
  ++ map (fun s => (s, map fst steps ++ [check])) checked.

Definition backendNeeds :=
  establishedNeeds backendSteps ["CandidatesAdvertised"; "RelayBackoff"] ["AltActive"; "AltDegraded"] (MsgIn "pair_check").
Definition clientNeeds :=
  establishedNeeds clientSteps ["PairDialing"; "PairChecking"; "RelayFallback"] ["AltActive"] (MsgIn "pair_check_ack").

(** ** Properties *)

(** C19. A ceremony takes all its steps, in order.  Whatever messages and events
    the host delivers, and whatever its callbacks do short of assigning
    [State]: an acceptor or initiator that is [Paired] was given the token or
    key steps, the hello or welcome, the reveal, the code, the local user's
    confirmation and the peer's, in this order; a session backend or client
    past authentication was given every pairing and authentication step in
    order, and one on the alternative path the path check too. *)
Theorem ceremonies_take_all_steps {H : Type} (h : H) :
  (forall cb inputs, keepsState cb -> wState (acceptorRun cb h inputs) = "Paired" ->
     map fst acceptorSteps `sublist_of` inputs) /\
  (forall cb inputs, keepsState cb -> wState (initiatorRun cb h inputs) = "Paired" ->
     map fst initiatorSteps `sublist_of` inputs) /\
  (forall cb inputs, keepsState cb ->
     needsTable backendNeeds (wState (sessionBackendRun cb h inputs)) `sublist_of` inputs) /\
  (forall cb inputs, keepsState cb ->
     needsTable clientNeeds (wState (sessionClientRun cb h inputs)) `sublist_of` inputs).
Proof.
  split_and!; intros cb inputs Hq.
  - intros Hp. change (map fst acceptorSteps) with (needsTable (ladder [] acceptorSteps) "Paired").
    rewrite <-Hp. apply run_needs_check; done || (vm_compute; reflexivity).
  - intros Hp. change (map fst initiatorSteps) with (needsTable (ladder [] initiatorSteps) "Paired").
    rewrite <-Hp. apply run_needs_check; done || (vm_compute; reflexivity).
  - apply run_needs_check; done || (vm_compute; reflexivity).
  - apply run_needs_check; done || (vm_compute; reflexivity).
Qed.

Definition beforeHello : list State := ["Idle"; "GenerateToken"; "RegisterRelay"; "WaitingForClient"].
Definition beforeCode : list State := beforeHello ++ ["DeriveSecret"; "SendAck"; "WaitingForCode"; "ValidateCode"].
Definition beforeAuth : list State := beforeCode ++ ["StorePaired"; "Paired"; "AuthCheck"].
Definition onRelay : list State :=
  beforeAuth ++ ["SessionActive"; "RelayConnected"; "CandidatesAdvertised"; "RelayBackoff"].

(** The guards of the session backend gate what follows them.  Whatever is
    delivered: if the token check never holds, no hello is accepted; if the
    code check never holds, nothing is paired or stored; if the device check
    never holds, no session is authenticated; if the challenge check never
    holds, the alternative path is never used. *)
Theorem session_backend_gates {H : Type} (h : H) (cb : Callbacks _ H) (inputs : list input) :
  keepsState cb ->
  ((forall w, guardHolds cb (Some "token_valid") w = false) -> wState (sessionBackendRun cb h inputs) ∈ beforeHello) /\
  ((forall w, guardHolds cb (Some "code_correct") w = false) -> wState (sessionBackendRun cb h inputs) ∈ beforeCode) /\
  ((forall w, guardHolds cb (Some "device_known") w = false) -> wState (sessionBackendRun cb h inputs) ∈ beforeAuth) /\
  ((forall w, guardHolds cb (Some "challenge_valid") w = false) -> wState (sessionBackendRun cb h inputs) ∈ onRelay).
Proof.
  intros Hq. split_and!; intros Hg;
    (eapply run_gated_check; [| | done | exact Hg |]; [vm_compute; reflexivity | vm_compute; reflexivity |]);
    (eapply bool_decide_eq_true; vm_compute; reflexivity).
Qed.

(** The path variables follow the state.  In every run whose callbacks
    leave them alone, the path-switching backend and the session backend use
    the direct path, its dispatcher, its monitor and a ready signal exactly in
    their direct-path states and the relay everywhere else; the session
    client uses the alternative path when it is active, the relay right after
    a fallback, and always dispatches from one of the two. *)
Theorem path_variables_follow_state {H : Type} (h : H) (inputs : list input) :
  (forall cb, quiet cb pathVars ->
     let w := pathBackendRun cb h inputs in
     followsState ["LANActive"; "LANDegraded"] "lan" (wState w) (pathVars (wVars w))) /\
  (forall cb, quiet cb altVars ->
     let w := sessionBackendRun cb h inputs in
     followsState ["AltActive"; "AltDegraded"] "alt" (wState w) (altVars (wVars w))) /\
  (forall cb, quiet cb clientAltVars ->
     let w := sessionClientRun cb h inputs in clientFollowsState (wState w) (clientAltVars (wVars w))).
Proof.
  split_and!; intros cb Hq w.
  - by apply (run_invariant_check pathVars (followsState _ _)); [apply path_backend_wf | apply path_backend_preserving | |].
  - by apply (run_invariant_check altVars (followsState _ _)); [apply session_backend_wf | apply session_backend_preserving | |].
  - apply (run_invariant_check clientAltVars clientFollowsState);
      [apply session_client_wf | apply session_client_preserving | done |].
    split_and!; try done. by left.
Qed.

(** *** Single steps *)

(** The entry points of the backends, as a host calls them. *)
Definition backendMessage {H} (cb : Callbacks _ H) := SB.SessionProtocolBackendMachine_HandleMessage cb.
Definition backendStep {H} (cb : Callbacks _ H) := SB.SessionProtocolBackendMachine_Step cb.
Definition pathBackendStep {H} (cb : Callbacks _ H) := PB.PathSwitchBackendMachine_Step cb.

Definition triggered {R} (s : State) (on : string) (c : Case R) : bool :=
  bool_decide (s = cState _ c) && bool_decide (on = cOn _ c).

(** Only the cases of the current state and trigger matter. *)
Lemma switch_filter {V H R} `{!GoVars V} (zero : R) (cases : list (Case R)) (cb : Callbacks V H) on w :
  switch zero cases cb on w = switch zero (List.filter (triggered (wState w) on) cases) cb on w.
Proof.
  induction cases as [|c cases IH]; [done |]. cbn [switch List.filter]. unfold triggered at 1, selects at 1.
  destruct (bool_decide (wState w = cState _ c) && bool_decide (on = cOn _ c)) eqn:Ht; [| done].
  cbn [switch]. unfold selects. rewrite Ht. by rewrite IH.
Qed.

Lemma switch_only {V H R} `{!GoVars V} (zero : R) (cases : list (Case R)) (cb : Callbacks V H) on s w c :
  wState w = s -> List.filter (triggered s on) cases = [c] -> cGuard _ c = None ->
  switch zero cases cb on w =
  match exec cb (cBody _ c) w with
  | (w', None) => (w', cRet _ c, None)
  | (w', Some err) => (w', zero, Some err)
  end.
Proof.
  intros Hs Hf Hg. rewrite switch_filter, Hs, Hf. cbn [switch].
  assert (Hc : triggered s on c = true).
  { apply (proj2 (A := In c cases)). rewrite <-filter_In, Hf. by left. }
  unfold selects. unfold triggered in Hc. by rewrite Hs, Hc, Hg.
Qed.

(** The call of a method where the one case [c] is triggered. *)
Ltac by_only_case c Hs := eapply (switch_only _ _ _ _ _ _ c); [exact Hs | by_vm | reflexivity].

(** The protocol a document parses to and the actor of a name, with a table
    and an actor to fall back on, so that goals name them by short terms. *)
Definition parsed (doc : yamlProtocol) (table : Protocol) : Protocol :=
  match ParseYAML (Ok doc) with Ok p => p | Err _ => table end.
Definition actorNamed (p : Protocol) (actor : string) (fallback : Actor) : Actor :=
  default fallback (find (fun a => bool_decide (Name a = actor)) (Actors p)).

(** The document parses to the valid protocol [p], for which [ExportGo] writes
    this table and these constants, wire constants and structs; no constant
    is declared twice. *)
Definition exports (doc : yamlProtocol) (cPrefix : string) (table : Protocol) (consts : list GoConst)
    (wires : list GoWireConst) (structs : list (string * list (string * string))) (p : Protocol) : Prop :=
  ParseYAML (Ok doc) = Ok p /\ Validate p = None /\ goTable p = table /\ goConsts cPrefix p = consts /\
  NoDup consts.*1 /\ goWireConsts p = wires /\ goStructs p = structs.

Ltac by_generation actor :=
  lazymatch goal with
  | |- generates ?p _ ?name _ _ _ _ _ _ => exists (actorNamed p name actor); split; [by_vm |]; split; [by_vm |]; cbv zeta; split_and!; by_vm
  end.
Ltac by_parsing doc table actor :=
  exists (parsed doc table); split;
  [split_and!; first [by_vm | eapply bool_decide_eq_true; by_vm] | split_and!; by_generation actor].

(** C20. The committed code is what the generator writes for the committed
    documents: protocol/pathswitch.yaml, pairing.yaml and session.yaml parse and
    validate, and the tables, the constants, the wire constants, the plain
    structs, the machines' fields and constructors and all cases of all methods
    of the eight machines are the generator's output for them; no identifier
    of a protocol is declared twice. *)
Theorem committed_code_is_generated :
  (exists p, exports pathswitchDoc "PathSwitch" PathSwitch PathSwitch_consts PathSwitch_wire_constants PathSwitch_structs p /\
     generates p "PathSwitch" "backend" PB.fields PB.zero PB.NewPathSwitchBackendMachine
       PB.PathSwitchBackendMachine_HandleMessage_cases PB.PathSwitchBackendMachine_Step_cases
       PB.PathSwitchBackendMachine_HandleEvent_cases /\
     generates p "PathSwitch" "client" PC.fields PC.zero PC.NewPathSwitchClientMachine
       PC.PathSwitchClientMachine_HandleMessage_cases PC.PathSwitchClientMachine_Step_cases
       PC.PathSwitchClientMachine_HandleEvent_cases /\
     generates p "PathSwitch" "relay" PR.fields PR.zero PR.NewPathSwitchRelayMachine
       PR.PathSwitchRelayMachine_HandleMessage_cases PR.PathSwitchRelayMachine_Step_cases
       PR.PathSwitchRelayMachine_HandleEvent_cases) /\
  (exists p, exports pairingDoc "PairingCeremonyProtocol" PairingCeremonyProtocol PairingCeremonyProtocol_consts PairingCeremonyProtocol_wire_constants PairingCeremonyProtocol_structs p /\
     generates p "PairingCeremonyProtocol" "acceptor" CA.fields CA.zero CA.NewPairingCeremonyProtocolAcceptorMachine
       CA.PairingCeremonyProtocolAcceptorMachine_HandleMessage_cases
       CA.PairingCeremonyProtocolAcceptorMachine_Step_cases
       CA.PairingCeremonyProtocolAcceptorMachine_HandleEvent_cases /\
     generates p "PairingCeremonyProtocol" "initiator" CI.fields CI.zero CI.NewPairingCeremonyProtocolInitiatorMachine
       CI.PairingCeremonyProtocolInitiatorMachine_HandleMessage_cases
       CI.PairingCeremonyProtocolInitiatorMachine_Step_cases
       CI.PairingCeremonyProtocolInitiatorMachine_HandleEvent_cases) /\
  (exists p, exports sessionDoc "SessionProtocol" SessionProtocol SessionProtocol_consts SessionProtocol_wire_constants SessionProtocol_structs p /\
     generates p "SessionProtocol" "backend" SB.fields SB.zero SB.NewSessionProtocolBackendMachine
       SB.SessionProtocolBackendMachine_HandleMessage_cases SB.SessionProtocolBackendMachine_Step_cases
       SB.SessionProtocolBackendMachine_HandleEvent_cases /\
     generates p "SessionProtocol" "client" SC.fields SC.zero SC.NewSessionProtocolClientMachine
       SC.SessionProtocolClientMachine_HandleMessage_cases SC.SessionProtocolClientMachine_Step_cases
       SC.SessionProtocolClientMachine_HandleEvent_cases /\
     generates p "SessionProtocol" "relay" SR.fields SR.zero SR.NewSessionProtocolRelayMachine
       SR.SessionProtocolRelayMachine_HandleMessage_cases SR.SessionProtocolRelayMachine_Step_cases
       SR.SessionProtocolRelayMachine_HandleEvent_cases).
Proof.
  split; [| split].
  - by_parsing pathswitchDoc PathSwitch PathSwitch_backend.
  - by_parsing pairingDoc PairingCeremonyProtocol PairingCeremonyProtocol_acceptor.
  - by_parsing sessionDoc SessionProtocol SessionProtocol_backend.
Qed.

(** Updates that the generator leaves to the action are lost when the
    transition has none.  Whatever callbacks are installed, the session
    backend takes the authentication request without recording its device id
    and nonce, takes the code entered at the CLI without recording it, and
    leaves the backoff level as it was when candidates (or, in the
    path-switching protocol, an offer) time out. *)
Theorem updates_without_action_are_lost {H : Type} :
  (forall cb (w : World _ H), wState w = "Paired" ->
     backendMessage cb "auth_request" w = (withState w "AuthCheck", true, None)) /\
  (forall cb (w : World _ H), wState w = "WaitingForCode" ->
     backendStep cb "cli_code_entered" w = (withState w "ValidateCode", true, None)) /\
  (forall cb (w : World _ H), wState w = "CandidatesAdvertised" -> cbOnChange cb = None ->
     let w' := (backendStep cb "candidates_timeout" w).1.1 in
     wState w' = "RelayBackoff" /\ SB.BackoffLevel (wVars w') = SB.BackoffLevel (wVars w)) /\
  (forall cb (w : World _ H), wState w = "LANOffered" ->
     pathBackendStep cb "offer_timeout" w = (withState w "RelayBackoff", true, None)).
Proof.
  split_and!; intros cb w Hs.
  - etrans; [by_only_case (case_ "Paired" "auth_request" None
      [Goto "AuthCheck"] true) Hs | done].
  - etrans; [by_only_case (case_ "WaitingForCode" "cli_code_entered" None
      [Goto "ValidateCode"] true) Hs | done].
  - intros Hc w'.
    assert (He : backendStep cb "candidates_timeout" w =
      (withState (withVars w (SB.set_AltSignal "pending")) "RelayBackoff", true, None)).
    { etrans; [by_only_case (case_ "CandidatesAdvertised" "candidates_timeout" None
        [Set_ "AltSignal" (VStr "pending"); Changed "alt_signal"; Goto "RelayBackoff"] true) Hs |].
      cbn [exec cBody case_]. by rewrite Hc. }
    unfold w'. by rewrite He.
  - etrans; [by_only_case (case_ "LANOffered" "offer_timeout" None
      [Goto "RelayBackoff"] true) Hs | done].
Qed.

(** Placeholders of the model overwrite what the host stored: after the
    action [store_device] the session backend's [DeviceSecret] is set to the
    document's literal, after [generate_token] its [CurrentToken], whatever
    the actions assigned (without an [OnChange] observer that puts it back). *)
Theorem placeholders_overwrite_secrets {H : Type} (cb : Callbacks _ H) :
  cbOnChange cb = None ->
  (forall w w' ok, wState w = "StorePaired" ->
     backendStep cb "finalise" w = (w', ok, None) ->
     SB.DeviceSecret (wVars w') = "dev_secret_1") /\
  (forall w w' ok, wState w = "Idle" ->
     backendStep cb "cli_init_pair" w = (w', ok, None) ->
     SB.CurrentToken (wVars w') = "tok_1").
Proof.
  intros Hc. split; intros w w' ok Hs Hw.
  - assert (He := eq_trans (eq_sym Hw) ltac:(by_only_case (case_ "StorePaired" "finalise" None
      [Act "store_device"; Set_ "DeviceSecret" (VStr "dev_secret_1"); Changed "device_secret"; Goto "Paired"] true) Hs)).
    cbn [exec cBody case_] in He. rewrite Hc in He. clear Hw.
    destruct (cbActions cb !! "store_device") as [f|]; [destruct (f w) as [w1 [e|]] |]; by simplify_eq.
  - assert (He := eq_trans (eq_sym Hw) ltac:(by_only_case (case_ "Idle" "cli_init_pair" None
      [Act "generate_token"; Set_ "CurrentToken" (VStr "tok_1"); Changed "current_token"; Goto "GenerateToken"] true) Hs)).
    cbn [exec cBody case_] in He. rewrite Hc in He. clear Hw.
    destruct (cbActions cb !! "generate_token") as [f|]; [destruct (f w) as [w1 [e|]] |]; by simplify_eq.
Qed.

(** *** Hosts whose guards hold and whose actions do nothing *)

Definition willing {V} (guardNames : list GuardID) (actionNames : list ActionID) : Callbacks V unit :=
  {| cbGuards := list_to_map (map (fun g => (g, fun _ => true)) guardNames);
     cbActions := list_to_map (map (fun a => (a, fun w => (w, None))) actionNames);
     cbOnChange := None |}.

Lemma list_to_map_const {A} (names : list string) (x y : A) i :
  (list_to_map (map (fun n => (n, x)) names) : gmap string A) !! i = Some y -> y = x.
Proof.
  intros Hy%elem_of_list_to_map_2. apply list_elem_of_fmap in Hy as (? & [= -> ->] & _). done.
Qed.

Lemma willing_quiet {V A} (proj : V -> A) guardNames actionNames : quiet (willing guardNames actionNames) proj.
Proof. split; [| done]. intros i f w Hf. by apply list_to_map_const in Hf as ->. Qed.

(** The client's steps to the direct path, and a new offer whose dial fails. *)
Definition failedRedial (offer dialed confirm failed : input) : list input := [offer; dialed; confirm; offer; failed].

(** A client that was on the direct path and fails to dial a newer offer
    is back in [RelayConnected] with its path variables still naming the
    direct path as active, dispatched and ready: the failure transition, in
    both protocols, resets none of them. *)
Theorem failed_redial_keeps_stale_path :
  (exists cb inputs, quiet cb clientAltVars /\
     let w := sessionClientRun cb tt inputs in
     wState w = "RelayConnected" /\ clientAltVars (wVars w) = ("alt", "alt", "ready")) /\
  (exists cb inputs, quiet cb (fun v => (PC.ActivePath v, PC.DispatcherPath v)) /\
     let w := pathClientRun cb tt inputs in
     wState w = "RelayConnected" /\ (PC.ActivePath (wVars w), PC.DispatcherPath (wVars w)) = ("lan", "lan")).
Proof.
  split.
  - exists (willing ["alt_enabled"] []),
      (map fst clientSteps ++ failedRedial (MsgIn "candidates") (EventIn "dial_ok") (MsgIn "pair_check_ack")
         (EventIn "dial_failed")).
    split; [apply willing_quiet | split; by_vm].
  - exists (willing ["lan_enabled"] []),
      (failedRedial (MsgIn "lan_offer") (EventIn "lan_dial_ok") (MsgIn "lan_confirm") (EventIn "lan_dial_failed")).
    split; [apply willing_quiet | split; by_vm].
Qed.

(** ** Witnesses *)

Lemma session_backend_gates_witness :
  wState (sessionBackendRun (willing [] []) tt (map fst backendSteps)) ∈ beforeHello.
Proof.
  apply (session_backend_gates tt (willing [] []) (map fst backendSteps)); [apply willing_quiet | done].
Defined.

Lemma ceremonies_take_all_steps_witness :
  wState (acceptorRun (willing [] []) tt (map fst acceptorSteps)) = "Paired" /\
  map fst acceptorSteps `sublist_of` map fst acceptorSteps.
Proof.
  assert (Hp : wState (acceptorRun (willing [] []) tt (map fst acceptorSteps)) = "Paired") by by_vm.
  split; [exact Hp |].
  apply (proj1 (ceremonies_take_all_steps tt) (willing [] []) (map fst acceptorSteps)); [apply willing_quiet | exact Hp].
Defined.

Lemma path_variables_follow_state_witness :
  let w := pathBackendRun (willing ["challenge_valid"] []) tt
             [EventIn "lan_server_ready"; MsgIn "lan_verify"] in
  wState w = "LANActive" /\ pathVars (wVars w) = ("lan", "lan", "lan", "ready").
Proof.
  intros w. assert (Hs : wState w = "LANActive") by by_vm. split; [exact Hs |].
  pose proof (proj1 (path_variables_follow_state tt [EventIn "lan_server_ready"; MsgIn "lan_verify"])
    (willing ["challenge_valid"] []) (willing_quiet _ _ _)) as Hf.
  cbv zeta in Hf. change (pathBackendRun _ _ _) with w in Hf. rewrite Hs in Hf. exact Hf.
Defined.

Lemma updates_without_action_are_lost_witness :
  let w := start ("Paired", SB.zero) tt in
  backendMessage (willing [] []) "auth_request" w = (withState w "AuthCheck", true, None).
Proof. intros w. by apply (proj1 updates_without_action_are_lost (willing [] []) w). Defined.

Lemma placeholders_overwrite_secrets_witness :
  let w := start ("StorePaired", SB.set_DeviceSecret "s3cret" SB.zero) tt in
  SB.DeviceSecret (wVars (backendStep (willing [] []) "finalise" w).1.1) = "dev_secret_1".
Proof.
  intros w. eapply (proj1 (placeholders_overwrite_secrets (willing [] []) eq_refl) w _ true); [reflexivity |].
  vm_compute. reflexivity.
Defined.

(** The executor and the generated machine of the path-switching client, with
    all their guards and actions registered. *)
Definition switchProtocol : Protocol := parsed pathswitchDoc PathSwitch.
Definition switchClient : Actor := actorNamed switchProtocol "client" PathSwitch_client.
Definition switchHost : Callbacks PC.PathSwitchClientMachine unit :=
  willing ["lan_enabled"; "lan_disabled"] ["dial_lan"; "activate_lan"; "fallback_to_relay"].
Definition switchExecutor : Machine (World PC.PathSwitchClientMachine unit) :=
  let ix := foldl indexTransition (∅, ∅) (FlattenedTransitions switchClient) in
  {| actor := switchClient; state := initialState switchClient; guards := cbGuards switchHost;
     actions := cbActions switchHost; recvIndex := ix.1; internalIndex := ix.2 |}.
Definition switchWorld : World PC.PathSwitchClientMachine unit := start PC.NewPathSwitchClientMachine tt.

Lemma switch_compiles : compiles switchProtocol switchClient "PathSwitch".
Proof.
  split; [by_vm | | by_vm | eapply bool_decide_eq_true; by_vm |].
  - apply (list_elem_of_lookup_2 _ 1). by_vm.
  - intros s Hs. assert (Hall : forallb (fun s => bool_decide (goCamel s = s)) (collectStates switchClient) = true) by by_vm.
    rewrite forallb_forall in Hall. apply list_elem_of_In, Hall, bool_decide_eq_true in Hs. done.
Qed.

Definition registered (t : Transition) : bool :=
  (bool_decide (Guard t = EmptyString) || match cbGuards switchHost !! Guard t with Some _ => true | None => false end) &&
  (bool_decide (Do t = EmptyString) || match cbActions switchHost !! Do t with Some _ => true | None => false end).

Lemma switch_mirrors : mirrors switchProtocol switchClient switchHost switchExecutor switchWorld.
Proof.
  split; [| by_vm | done | done].
  split; [| split; [done |]]; [apply (list_elem_of_lookup_2 _ 1); by_vm |]. unfold switchExecutor.
  cbn [recvIndex internalIndex]. by destruct (foldl _ _ _).
Qed.

Lemma switch_registered : allRegistered switchClient switchExecutor.
Proof.
  assert (Hr : forall t, t ∈ FlattenedTransitions switchClient -> registered t = true).
  { intros t Ht%list_elem_of_In. revert t Ht. apply forallb_forall. by_vm. }
  intros t Ht%Hr. unfold registered in Ht. bool_hyps. change (guards switchExecutor) with (cbGuards switchHost).
  change (actions switchExecutor) with (cbActions switchHost). split.
  - destruct (bool_decide_reflect (Guard t = EmptyString)); [by left | right]. destruct (cbGuards _ !! _); eauto; done.
  - destruct (bool_decide_reflect (Do t = EmptyString)); [by left | right]. destruct (cbActions _ !! _); eauto; done.
Qed.


Lemma event_entry_point_agrees_witness :
  sameEffect (PC.PathSwitchClientMachine_HandleEvent switchHost "recv_lan_offer" switchWorld)
    (PC.PathSwitchClientMachine_HandleMessage switchHost "lan_offer" switchWorld).
Proof.
  eapply (event_entry_point_agrees switchProtocol switchClient "PathSwitch"
    PC.PathSwitchClientMachine_HandleMessage_cases PC.PathSwitchClientMachine_Step_cases
    PC.PathSwitchClientMachine_HandleEvent_cases switchHost switchWorld "lan_offer");
    [exact switch_compiles | | by_vm | by_vm | by_vm |].
  - intros t c Ht%list_elem_of_In Hc. exfalso.
    assert (Hall : forallb (fun t => match Emits t with [] => true | _ => false end) (FlattenedTransitions switchClient) = true) by by_vm.
    rewrite forallb_forall in Hall. apply Hall in Ht. destruct (Emits t); [by apply not_elem_of_nil in Hc | done].
  - intros t Ht%list_elem_of_In Hk Hd.
    assert (Hall : forallb (fun t => negb (bool_decide (Desc (On t) = "recv_lan_offer"))) (FlattenedTransitions switchClient) = true) by by_vm.
    rewrite forallb_forall in Hall. apply Hall in Ht. change ("recv_" +:+ "lan_offer") with "recv_lan_offer" in Hd.
    by rewrite Hd in Ht.
Defined.
