(* ===== verification/Lan.v ===== *)
(** * Lan: direct LAN connections (lan.go, lan_upgrade.go)

    Two parts.  [LANServer] keeps one pending challenge per client; the
    goroutines of incoming connections run [handleConn] concurrently with
    [RegisterPending] and [UnregisterPending].  [Carrier] is the part of a
    [Session] that swaps its transport for the verified LAN connection, run
    concurrently with [Close].  Every section under a lock is one step.

    A connection's verify message is an input of the model: the outcome of
    reading and unmarshalling it, [Err] when either fails. *)

From Stdlib Require Import ZArith Lia Strings.Byte Strings.String.
From stdpp Require Import base gmap sets strings list fin_maps.
From S2P Require Import Prelude Channel.

(** ** Pending challenges *)

Module LANServer.

Record lanVerify := {
  Challenge : bytes;
  InstanceID : string
}.

(** A [*pendingLAN]: its address and its challenge (a private copy). *)
Record pendingLAN := {
  paddr : nat;
  challenge : bytes
}.

Definition challengeEqual (a b : bytes) : bool :=
  if negb (len a =? len b)%Z then false else ConstantTimeCompare a b.

(** [handleConn] of one connection: waiting for its verify message; holding
    the looked-up entry; about to confirm; ended by closing with a reason;
    or handed to the entry's callback. *)
Inductive conn :=
  | HWait
  | HLookup (verify : lanVerify)
  | HCheck (verify : lanVerify) (pending : option pendingLAN)
  | HConfirm (verify : lanVerify) (pending : pendingLAN)
  | HClosed (reason : string)
  | HVerified (verify : lanVerify) (pending : pendingLAN).

(** The server: its table by client id, the next entry's address, the
    connections; and, for the specification, every entry registered with the
    id it was registered for. *)
Record server := {
  conns : gmap string pendingLAN;
  nextAddr : nat;
  handlers : gmap nat conn;
  registered : list (string * pendingLAN)
}.

Definition NewLANServer : server :=
  {| conns := ∅; nextAddr := 0; handlers := ∅; registered := [] |}.

Definition RegisterPending (s : server) (id : string) (ch : bytes) : server :=
  if bool_decide (id = EmptyString) then s else
  let p := {| paddr := nextAddr s; challenge := ch |} in
  {| conns := <[id := p]> (conns s); nextAddr := S (nextAddr s); handlers := handlers s;
     registered := (id, p) :: registered s |}.

Definition UnregisterPending (s : server) (id : string) : server :=
  {| conns := delete id (conns s); nextAddr := nextAddr s; handlers := handlers s;
     registered := registered s |}.

Definition set_handler (s : server) (c : nat) (h : conn) : server :=
  {| conns := conns s; nextAddr := nextAddr s; handlers := <[c := h]> (handlers s);
     registered := registered s |}.

(** The locked section: look the entry up and, if present, take it. *)
Definition takePending (s : server) (id : string) : server * option pendingLAN :=
  match conns s !! id with
  | Some p => ({| conns := delete id (conns s); nextAddr := nextAddr s; handlers := handlers s;
                  registered := registered s |}, Some p)
  | None => (s, None)
  end.

Inductive input :=
  | NoStream
  | ReadFailed
  | BadVerify
  | Verify (v : lanVerify)
  | Go
  | WriteFailed.

(** One step of [handleConn] for connection [c]. *)
Definition handleConn (s : server) (c : nat) (h : conn) (i : input) : option server :=
  match h, i with
  | HWait, NoStream => Some (set_handler s c (HClosed "no stream"))
  | HWait, ReadFailed => Some (set_handler s c (HClosed "read verify failed"))
  | HWait, BadVerify => Some (set_handler s c (HClosed "bad verify"))
  | HWait, Verify v => Some (set_handler s c (HLookup v))
  | HLookup v, Go =>
      let '(s, pending) := takePending s (InstanceID v) in Some (set_handler s c (HCheck v pending))
  | HCheck v None, Go => Some (set_handler s c (HClosed "unknown instance"))
  | HCheck v (Some p), Go =>
      Some (set_handler s c (if negb (challengeEqual (challenge p) (Challenge v))
                             then HClosed "bad challenge" else HConfirm v p))
  | HConfirm v p, WriteFailed => Some (set_handler s c (HClosed "write confirm failed"))
  | HConfirm v p, Go => Some (set_handler s c (HVerified v p))
  | _, _ => None
  end.

Inductive event :=
  | Register (id : string) (ch : bytes)
  | Unregister (id : string)
  | Accept (c : nat)
  | Handle (c : nat) (i : input).

Definition step (s : server) (e : event) : option server :=
  match e with
  | Register id ch => Some (RegisterPending s id ch)
  | Unregister id => Some (UnregisterPending s id)
  | Accept c => match handlers s !! c with
                | Some _ => None
                | None => Some (set_handler s c HWait)
                end
  | Handle c i => match handlers s !! c with
                  | Some h => handleConn s c h i
                  | None => None
                  end
  end.

Fixpoint run (s : server) (es : list event) : option server :=
  match es with
  | [] => Some s
  | e :: es => match step s e with Some s => run s es | None => None end
  end.

(** The entry a connection has taken. *)
Definition holds (h : conn) : option pendingLAN :=
  match h with
  | HCheck _ (Some p) | HConfirm _ p | HVerified _ p => Some p
  | _ => None
  end.

Definition accepted (v : lanVerify) (p : pendingLAN) : Prop := Challenge v = challenge p.

Record inv (s : server) : Prop := {
  i_table id p : conns s !! id = Some p -> (id, p) ∈ registered s;
  i_addr id p : (id, p) ∈ registered s -> (paddr p < nextAddr s)%nat;
  i_unique id1 id2 p1 p2 : (id1, p1) ∈ registered s -> (id2, p2) ∈ registered s ->
    paddr p1 = paddr p2 -> id1 = id2 /\ p1 = p2;
  i_taken c h p : handlers s !! c = Some h -> holds h = Some p ->
    (exists id, (id, p) ∈ registered s) /\ (forall id, conns s !! id <> Some p);
  i_id c h : handlers s !! c = Some h ->
    match h with
    | HCheck v (Some p) => (InstanceID v, p) ∈ registered s
    | HConfirm v p | HVerified v p => (InstanceID v, p) ∈ registered s /\ accepted v p
    | _ => True
    end;
  i_once c1 c2 h1 h2 p : handlers s !! c1 = Some h1 -> handlers s !! c2 = Some h2 ->
    holds h1 = Some p -> holds h2 = Some p -> c1 = c2
}.

Lemma challengeEqual_eq a b : challengeEqual a b = true -> a = b.
Proof.
  unfold challengeEqual, ConstantTimeCompare. destruct (negb _); [done |]. intros. by bool_hyps.
Qed.

(** A handler moves on, holding what it held or nothing. *)
Lemma inv_handler s c h h' :
  inv s -> handlers s !! c = Some h \/ (handlers s !! c = None /\ holds h' = None) ->
  (forall p, holds h' = Some p -> holds h = Some p) ->
  match h' with
  | HCheck v (Some p) => (InstanceID v, p) ∈ registered s
  | HConfirm v p | HVerified v p => (InstanceID v, p) ∈ registered s /\ accepted v p
  | _ => True
  end ->
  inv (set_handler s c h').
Proof.
  intros [] Hc Hh Hid.
  assert (Hlk : forall c0 h0 p, handlers (set_handler s c h') !! c0 = Some h0 -> holds h0 = Some p ->
    exists h1, handlers s !! c0 = Some h1 /\ holds h1 = Some p).
  { intros c0 h0 p. cbn. destruct (decide (c0 = c)) as [->|].
    - rewrite lookup_insert_eq. intros [= <-] Hp. destruct Hc as [Hc|[_ Hn]]; [eauto | congruence].
    - rewrite lookup_insert_ne by done. eauto. }
  split; auto.
  - intros c0 h0 p H0 Hp. destruct (Hlk _ _ _ H0 Hp) as (h1 & H1 & Hp1). eauto.
  - intros c0 h0. cbn. destruct (decide (c0 = c)) as [->|].
    + rewrite lookup_insert_eq. by intros [= <-].
    + rewrite lookup_insert_ne by done. apply i_id0.
  - intros c1 c2 h1 h2 p H1 H2 Hp1 Hp2.
    destruct (Hlk _ _ _ H1 Hp1) as (? & ? & ?), (Hlk _ _ _ H2 Hp2) as (? & ? & ?). eauto.
Qed.

Lemma inv_delete s id : inv s -> inv (UnregisterPending s id).
Proof.
  intros []. split; cbn; auto.
  - intros i p. rewrite lookup_delete_Some. intros [_ ?]. eauto.
  - intros c h p Hc Hp. destruct (i_taken0 c h p Hc Hp) as [? Hno]. split; [done |].
    intros i. rewrite lookup_delete_Some. intros [_ ?]. by eapply Hno.
Qed.

Lemma inv_take s c v s1 pending :
  inv s -> handlers s !! c = Some (HLookup v) -> takePending s (InstanceID v) = (s1, pending) ->
  inv (set_handler s1 c (HCheck v pending)).
Proof.
  intros Hinv Hc Ht. unfold takePending in Ht. destruct (conns s !! InstanceID v) as [p|] eqn:Hp.
  2:{ injection Ht as <- <-. by apply (inv_handler _ _ (HLookup v)); auto. }
  injection Ht as <- <-. pose proof (i_table _ Hinv _ _ Hp) as Hreg.
  pose proof (inv_delete s (InstanceID v) Hinv) as []. unfold UnregisterPending in *. cbn in *.
  assert (Hno : forall id, delete (InstanceID v) (conns s) !! id <> Some p).
  { intros id. rewrite lookup_delete_Some. intros [Hne Hl].
    destruct (i_unique _ Hinv _ _ _ _ Hreg (i_table _ Hinv _ _ Hl) eq_refl). congruence. }
  assert (Hfree : forall c0 h0, handlers s !! c0 = Some h0 -> holds h0 <> Some p).
  { intros c0 h0 H0 Hh. destruct (i_taken _ Hinv _ _ _ H0 Hh) as [_ Hn]. by eapply Hn. }
  split; cbn; auto.
  - intros c0 h0 q. destruct (decide (c0 = c)) as [->|].
    + rewrite lookup_insert_eq. intros [= <-] [= <-]. eauto.
    + rewrite lookup_insert_ne by done. eauto.
  - intros c0 h0. destruct (decide (c0 = c)) as [->|].
    + rewrite lookup_insert_eq. by intros [= <-].
    + rewrite lookup_insert_ne by done. apply i_id0.
  - intros c1 c2 h1 h2 q. destruct (decide (c1 = c)) as [->|], (decide (c2 = c)) as [->|];
      rewrite ?lookup_insert_eq, ?lookup_insert_ne by done; try done; eauto.
    + intros [= <-] H2 [= <-] Hq. by destruct (Hfree _ _ H2).
    + intros H1 [= <-] Hq [= <-]. by destruct (Hfree _ _ H1).
Qed.

Lemma inv_register s id ch : inv s -> inv (RegisterPending s id ch).
Proof.
  intros []. unfold RegisterPending. case_bool_decide; [by split |].
  set (p := {| paddr := nextAddr s; challenge := ch |}).
  assert (Hnew : forall i q, (i, q) ∈ registered s -> paddr q <> paddr p).
  { intros i q Hq. apply i_addr0 in Hq. simpl. lia. }
  split; cbn.
  - intros i q. destruct (decide (i = id)) as [->|].
    + rewrite lookup_insert_eq. intros [= <-]. left.
    + rewrite lookup_insert_ne by done. intros Hq. right. eauto.
  - intros i q [[= -> ->]|Hq]%elem_of_cons; [simpl; lia |]. apply i_addr0 in Hq. lia.
  - intros i1 i2 p1 p2 [[= -> ->]|H1]%elem_of_cons [[= -> ->]|H2]%elem_of_cons He; eauto.
    + by destruct (Hnew _ _ H2).
    + by destruct (Hnew _ _ H1).
  - intros c h q Hc Hq. destruct (i_taken0 _ _ _ Hc Hq) as [[i Hi] Hno]. split; [exists i; by right |].
    intros j. destruct (decide (j = id)) as [->|]; [| rewrite lookup_insert_ne by done; auto].
    rewrite lookup_insert_eq. intros [= He]. apply (Hnew _ _ Hi). by rewrite <-He.
  - intros c h Hc. pose proof (i_id0 _ _ Hc) as Hi. destruct h as [| |v [q|]|v q| |v q]; try done.
    + by right.
    + destruct Hi. split; [by right | done].
    + destruct Hi. split; [by right | done].
  - auto.
Qed.

Lemma server_step_inv s e s' : inv s -> step s e = Some s' -> inv s'.
Proof.
  intros Hinv Hs. destruct e as [id ch|id|c|c i]; cbn [step] in Hs.
  - injection Hs as <-. by apply inv_register.
  - injection Hs as <-. by apply inv_delete.
  - destruct (handlers s !! c) eqn:Hc; [done |]. injection Hs as <-.
    by apply (inv_handler _ _ HWait); auto.
  - destruct (handlers s !! c) as [h|] eqn:Hc; [| done].
    destruct h as [|v|v [p|]|v p|r|v p], i; try done; cbn [handleConn] in Hs;
      try (injection Hs as <-; by eapply inv_handler; eauto).
    + destruct (takePending s (InstanceID v)) as [s1 pending] eqn:Ht. injection Hs as <-.
      by eapply inv_take.
    + injection Hs as <-. destruct (challengeEqual (challenge p) (Challenge v)) eqn:Hch; cbn [negb].
      * eapply inv_handler; eauto. split; [apply (i_id _ Hinv _ _ Hc) |].
        symmetry. by apply challengeEqual_eq.
      * by eapply inv_handler; eauto.
    + injection Hs as <-. eapply inv_handler; eauto. apply (i_id _ Hinv _ _ Hc).
Qed.

Lemma server_run_inv es : forall s s', inv s -> run s es = Some s' -> inv s'.
Proof.
  induction es as [|e es IH]; intros s s' Hinv; simpl; [by intros [= <-] |].
  destruct (step s e) as [s1|] eqn:Hs; [| done]. eauto using server_step_inv.
Qed.

Lemma init_inv : inv NewLANServer.
Proof.
  split; cbn; try done.
  - by intros id p ?%elem_of_nil.
  - by intros id1 id2 p1 p2 ?%elem_of_nil.
Qed.
End LANServer.

(** LAN verification is sound and single-use: however connections,
    registrations and timeouts interleave, a connection reaches the upgrade
    callback of a pending entry only if it named the client the entry was
    registered for and presented exactly its challenge, and no entry is ever
    used by two connections (not even by one that failed the check). *)
Theorem lan_verification_sound (es : list LANServer.event) (s : LANServer.server) (c : nat)
    (v : LANServer.lanVerify) (p : LANServer.pendingLAN) :
  LANServer.run LANServer.NewLANServer es = Some s ->
  LANServer.handlers s !! c = Some (LANServer.HVerified v p) ->
  (LANServer.InstanceID v, p) ∈ LANServer.registered s /\
  LANServer.Challenge v = LANServer.challenge p /\
  forall c' h', LANServer.handlers s !! c' = Some h' -> LANServer.holds h' = Some p -> c' = c.
Proof.
  intros Hrun Hc. pose proof (LANServer.server_run_inv _ _ _ LANServer.init_inv Hrun) as Hinv.
  destruct (LANServer.i_id _ Hinv _ _ Hc) as [Hr Ha]. split_and!; [done | done |].
  intros c' h' Hc' Hh. by eapply (LANServer.i_once _ Hinv c' c).
Qed.

Definition lan_run : list LANServer.event :=
  let v := {| LANServer.Challenge := [x01]; LANServer.InstanceID := "phone" |} in
  [LANServer.Register "phone" [x01]; LANServer.Accept 5; LANServer.Handle 5 (LANServer.Verify v);
   LANServer.Handle 5 LANServer.Go; LANServer.Handle 5 LANServer.Go; LANServer.Handle 5 LANServer.Go].

Definition lan_after : LANServer.server :=
  match LANServer.run LANServer.NewLANServer lan_run with Some s => s | None => LANServer.NewLANServer end.

Lemma lan_verification_sound_witness :
  LANServer.run LANServer.NewLANServer lan_run = Some lan_after /\
  ("phone"%string, {| LANServer.paddr := 0; LANServer.challenge := [x01] |}) ∈ LANServer.registered lan_after.
Proof.
  split; [reflexivity |].
  apply (lan_verification_sound lan_run lan_after 5
           {| LANServer.Challenge := [x01]; LANServer.InstanceID := "phone" |}
           {| LANServer.paddr := 0; LANServer.challenge := [x01] |}); reflexivity.
Defined.

(** ** The session's carrier *)

Module Carrier.

(** A goroutine: entering [swapTransport]; after its locked section, with the
    old carrier; closing a transport (at once, or after the grace period);
    entering [Close]; before its locked section; returned. *)
Inductive thread :=
  | SwapStart (tr : nat)
  | SwapLocked (old : option nat)
  | Closing (tr : nat)
  | CloseStart
  | CloseLocked
  | Returned.

(** Transports are pointers.  [opened] lists those given to the session or to
    [swapTransport], [closed] those closed.  [lanReady] is the channel, if
    made, and whether it is closed; [readyOnce] the [sync.Once] guarding it. *)
Record carrier := {
  transport : option nat;
  onLAN : bool;
  ownsTransport : bool;
  closeDone : bool;
  lanReady : option bool;
  readyOnce : bool;
  threads : gmap nat thread;
  opened : list nat;
  closed : list nat
}.

(** A session that owns its relay transport [tr0]. *)
Definition newCarrier (tr0 : nat) (lan : bool) : carrier :=
  {| transport := Some tr0; onLAN := false; ownsTransport := true; closeDone := false;
     lanReady := if lan then Some false else None; readyOnce := false; threads := ∅;
     opened := [tr0]; closed := [] |}.

Definition set_thread (c : carrier) (t : nat) (th : thread) : carrier :=
  {| transport := transport c; onLAN := onLAN c; ownsTransport := ownsTransport c;
     closeDone := closeDone c; lanReady := lanReady c; readyOnce := readyOnce c;
     threads := <[t := th]> (threads c); opened := opened c; closed := closed c |}.
Definition set_carrier (c : carrier) (tr : option nat) (lan owns : bool) : carrier :=
  {| transport := tr; onLAN := lan; ownsTransport := owns; closeDone := closeDone c;
     lanReady := lanReady c; readyOnce := readyOnce c; threads := threads c; opened := opened c;
     closed := closed c |}.
Definition add_opened (c : carrier) (tr : nat) : carrier :=
  {| transport := transport c; onLAN := onLAN c; ownsTransport := ownsTransport c;
     closeDone := closeDone c; lanReady := lanReady c; readyOnce := readyOnce c;
     threads := threads c; opened := tr :: opened c; closed := closed c |}.
Definition add_closed (c : carrier) (tr : nat) : carrier :=
  {| transport := transport c; onLAN := onLAN c; ownsTransport := ownsTransport c;
     closeDone := closeDone c; lanReady := lanReady c; readyOnce := readyOnce c;
     threads := threads c; opened := opened c; closed := tr :: closed c |}.
Definition set_closeDone (c : carrier) : carrier :=
  {| transport := transport c; onLAN := onLAN c; ownsTransport := ownsTransport c;
     closeDone := true; lanReady := lanReady c; readyOnce := readyOnce c;
     threads := threads c; opened := opened c; closed := closed c |}.

(** [signalLANReady]: close the channel, once. *)
Definition signalLANReady (c : carrier) : carrier :=
  if readyOnce c then c else
  {| transport := transport c; onLAN := onLAN c; ownsTransport := ownsTransport c;
     closeDone := closeDone c;
     lanReady := match lanReady c with Some _ => Some true | None => None end; readyOnce := true;
     threads := threads c; opened := opened c; closed := closed c |}.

(** The locked section of [swapTransport]. *)
Definition swapTransport (c : carrier) (tr : nat) : carrier * thread :=
  if onLAN c then (c, Closing tr)
  else (set_carrier c (Some tr) true true, SwapLocked (transport c)).

(** The locked section of [Close]: take the transport; close it if owned. *)
Definition closeLocked (c : carrier) : carrier * option nat :=
  (set_carrier c None (onLAN c) (ownsTransport c), if ownsTransport c then transport c else None).

Definition UsingLAN (c : carrier) : bool := onLAN c.

(** [LANReady] gives a closed channel: the peer need not wait. *)
Definition LANReadyClosed (c : carrier) : bool :=
  match lanReady c with None => true | Some b => b end.

Definition carrierThread (c : carrier) (t : nat) (th : thread) : option carrier :=
  match th with
  | SwapStart tr => let '(c, th) := swapTransport c tr in Some (set_thread c t th)
  | SwapLocked old =>
      let c := signalLANReady c in
      Some (set_thread c t (match old with Some tr => Closing tr | None => Returned end))
  | Closing tr => Some (set_thread (add_closed c tr) t Returned)
  | CloseStart =>
      if closeDone c then Some (set_thread c t Returned)
      else Some (set_thread (set_closeDone c) t CloseLocked)
  | CloseLocked =>
      let '(c, tr) := closeLocked c in
      let c := match tr with Some tr => add_closed c tr | None => c end in
      Some (set_thread (signalLANReady c) t Returned)
  | Returned => None
  end.

(** The environment verifies LAN connections (each a new transport) and calls [Close]. *)
Inductive event :=
  | Swap (t tr : nat)
  | CallClose (t : nat)
  | Run (t : nat).

Definition step (c : carrier) (e : event) : option carrier :=
  match e with
  | Swap t tr =>
      match threads c !! t with
      | Some _ => None
      | None => if bool_decide (tr ∈ opened c) then None
                else Some (set_thread (add_opened c tr) t (SwapStart tr))
      end
  | CallClose t =>
      match threads c !! t with
      | Some _ => None
      | None => Some (set_thread c t CloseStart)
      end
  | Run t => match threads c !! t with Some th => carrierThread c t th | None => None end
  end.

Fixpoint run (c : carrier) (es : list event) : option carrier :=
  match es with
  | [] => Some c
  | e :: es => match step c e with Some c => run c es | None => None end
  end.

(** Who is responsible for a transport: it is current, a goroutine holds
    it, or it has been closed. *)
Definition keeps (th : thread) (tr : nat) : Prop :=
  th = SwapStart tr \/ th = SwapLocked (Some tr) \/ th = Closing tr.
Definition accounted (c : carrier) (tr : nat) : Prop :=
  transport c = Some tr \/ (exists t th, threads c !! t = Some th /\ keeps th tr) \/ tr ∈ closed c.

Definition ok (c : carrier) : Prop :=
  ownsTransport c = true /\ forall tr, tr ∈ opened c -> accounted c tr.

Lemma accounted_thread c c' t th th' tr :
  threads c !! t = Some th -> threads c' = threads c ->
  accounted c tr ->
  (transport c = Some tr -> transport c' = Some tr \/ keeps th' tr \/ tr ∈ closed c') ->
  (keeps th tr -> transport c' = Some tr \/ keeps th' tr \/ tr ∈ closed c') ->
  (tr ∈ closed c -> tr ∈ closed c') ->
  accounted (set_thread c' t th') tr.
Proof.
  intros Ht Hth Ha Hcur Hkeep Hcl.
  assert (Hres : transport c' = Some tr \/ keeps th' tr \/ tr ∈ closed c' -> accounted (set_thread c' t th') tr).
  { intros [?|[?|?]]; [by left | right; left | by right; right].
    exists t, th'. split; [apply lookup_insert_eq | done]. }
  destruct Ha as [?|[(t0 & th0 & H0 & Hk)|?]]; [auto | | right; right; auto].
  destruct (decide (t0 = t)) as [->|Hne].
  - apply Hres, Hkeep. congruence.
  - right; left. exists t0, th0. cbn. rewrite lookup_insert_ne, Hth by done. done.
Qed.

Lemma signal_fields c : let c' := signalLANReady c in
  transport c' = transport c /\ onLAN c' = onLAN c /\ ownsTransport c' = ownsTransport c /\
  threads c' = threads c /\ opened c' = opened c /\ closed c' = closed c.
Proof. cbn zeta. unfold signalLANReady. by destruct (readyOnce c). Qed.

Lemma carrierThread_ok c t th c' : ok c -> threads c !! t = Some th -> carrierThread c t th = Some c' -> ok c'.
Proof.
  intros [Ho Hacc] Ht Hr. destruct th as [tr|old|tr| | |]; cbn [carrierThread] in Hr; try done.
  - unfold swapTransport in Hr. destruct (onLAN c); injection Hr as <-; (split; [done |]);
      intros x Hx; eapply (accounted_thread c); eauto; unfold keeps; cbn.
    + intros [[= ->]|[?|?]]; [auto | done | done].
    + intros Hcur. right; left. right; left. by rewrite Hcur.
    + intros [[= ->]|[?|?]]; [by left | done | done].
  - destruct (signal_fields c) as (H1 & H2 & H3 & H4 & H5 & H6). injection Hr as <-. split.
    { cbn. by rewrite H3. }
    intros x Hx. cbn in Hx. rewrite H5 in Hx. eapply (accounted_thread c); eauto; rewrite ?H1, ?H6; auto.
    intros [?|[[= ->]|?]]; [done | right; left; by right; right | done].
  - injection Hr as <-. split; [done |]. intros x Hx. eapply (accounted_thread c); eauto; cbn; auto.
    + intros [?|[?|[= ->]]]; [done | done | right; right; left].
    + intros ?. by right.
  - destruct (closeDone c); injection Hr as <-; (split; [done |]); intros x Hx;
      eapply (accounted_thread c); eauto; (intros [?|[?|?]]; done).
  - unfold closeLocked in Hr. rewrite Ho in Hr. cbn [Carrier.transport] in Hr.
    set (c1 := match transport c with Some tr => _ | None => _ end) in Hr.
    destruct (signal_fields c1) as (H1 & H2 & H3 & H4 & H5 & H6). injection Hr as <-.
    assert (Hf : ownsTransport c1 = true /\ threads c1 = threads c /\ opened c1 = opened c /\
                 (forall x, x ∈ closed c -> x ∈ closed c1) /\
                 (forall x, transport c = Some x -> x ∈ closed c1)).
    { unfold c1. destruct (transport c) as [tr|]; cbn; split_and!; try done.
      - intros x Hx. by right.
      - intros x [= ->]. left. }
    destruct Hf as (Hf1 & Hf2 & Hf3 & Hf4 & Hf5). split; [cbn; by rewrite H3 |].
    intros x Hx. cbn in Hx. rewrite H5, Hf3 in Hx.
    eapply (accounted_thread c); eauto; rewrite ?H4, ?H6; auto. intros [?|[?|?]]; done.
Qed.

Lemma carrier_spawn_ok c c0 t th :
  ok c -> threads c !! t = None -> threads c0 = threads c -> transport c0 = transport c ->
  closed c0 = closed c -> ownsTransport c0 = ownsTransport c ->
  (forall tr, tr ∈ opened c0 -> tr ∈ opened c \/ keeps th tr) -> ok (set_thread c0 t th).
Proof.
  intros [Ho Hacc] Ht Hth Htr Hcl How Hop. split; [cbn; congruence |]. intros tr Hin.
  destruct (Hop tr Hin) as [Hold|Hk].
  - destruct (Hacc tr Hold) as [?|[(t0 & th0 & H0 & Hk)|?]].
    + left. cbn. congruence.
    + right; left. exists t0, th0. cbn. rewrite lookup_insert_ne, Hth by congruence. done.
    + right; right. cbn. by rewrite Hcl.
  - right; left. exists t, th. split; [apply lookup_insert_eq | done].
Qed.

Lemma carrier_step_ok c e c' : ok c -> step c e = Some c' -> ok c'.
Proof.
  intros Hok Hs. destruct e as [t tr|t|t]; cbn [step] in Hs.
  - destruct (threads c !! t) eqn:Ht; [done |]. case_bool_decide; [done |]. injection Hs as <-.
    eapply (carrier_spawn_ok c); eauto. intros x [->|Hx]%elem_of_cons; [right; by left | by left].
  - destruct (threads c !! t) eqn:Ht; [done |]. injection Hs as <-. eapply (carrier_spawn_ok c); eauto.
  - destruct (threads c !! t) eqn:Ht; [| done]. eauto using carrierThread_ok.
Qed.

Lemma carrier_run_ok es : forall c c', ok c -> run c es = Some c' -> ok c'.
Proof.
  induction es as [|e es IH]; intros c c' Hok; simpl; [by intros [= <-] |].
  destruct (step c e) as [c1|] eqn:Hs; [| done]. eauto using carrier_step_ok.
Qed.
End Carrier.

(** C35. Carrier accounting: under every interleaving of LAN upgrades and
    [Close], each transport given to the session is its current carrier, has
    been closed, or is held by a goroutine about to install or close it; a
    second upgrade never strands its connection. *)
Theorem carriers_accounted (tr0 : nat) (lan : bool) (es : list Carrier.event) (c : Carrier.carrier) :
  Carrier.run (Carrier.newCarrier tr0 lan) es = Some c ->
  forall tr, tr ∈ Carrier.opened c -> Carrier.accounted c tr.
Proof.
  intros Hrun. apply (Carrier.carrier_run_ok es (Carrier.newCarrier tr0 lan)) in Hrun as [_ Hacc]; [done |].
  split; [done |]. intros tr Htr. apply list_elem_of_singleton in Htr as ->. by left.
Qed.

Lemma carriers_accounted_witness :
  exists c, Carrier.run (Carrier.newCarrier 1 true)
              [Carrier.Swap 10 2; Carrier.Run 10; Carrier.Run 10; Carrier.Run 10] = Some c /\
    Carrier.transport c = Some 2%nat /\ (forall tr, tr ∈ Carrier.opened c -> Carrier.accounted c tr).
Proof.
  eexists. split; [reflexivity |]. split; [reflexivity |].
  apply (carriers_accounted 1 true [Carrier.Swap 10 2; Carrier.Run 10; Carrier.Run 10; Carrier.Run 10]).
  reflexivity.
Defined.

(** A verified LAN connection arrives after [Close]; [Close] is called again. *)
Definition late_upgrade : list Carrier.event :=
  [Carrier.CallClose 1; Carrier.Run 1; Carrier.Run 1; Carrier.Swap 2 8; Carrier.Run 2; Carrier.Run 2;
   Carrier.CallClose 3; Carrier.Run 3].

Definition carrier_after (es : list Carrier.event) : Carrier.carrier :=
  match Carrier.run (Carrier.newCarrier 7 true) es with Some c => c | None => Carrier.newCarrier 7 true end.

Lemma late_upgrade_threads :
  Carrier.threads (carrier_after late_upgrade) =
    <[1%nat := Carrier.Returned]> (<[2%nat := Carrier.Returned]> {[3%nat := Carrier.Returned]}).
Proof. vm_compute. reflexivity. Qed.

(** An upgrade that completes after [Close] is never closed:
    [swapTransport] does not look at whether the session is closed, and
    [Close] does nothing the second time, so a run exists after which the
    session is closed, all goroutines have returned, a further [Close] has
    run too, and the LAN connection is still open. *)
Theorem upgrade_after_close_leaks :
  exists es c, Carrier.run (Carrier.newCarrier 7 true) es = Some c /\
    Carrier.closeDone c = true /\ (forall t th, Carrier.threads c !! t = Some th -> th = Carrier.Returned) /\
    Carrier.transport c = Some 8%nat /\ 8%nat ∈ Carrier.opened c /\ 8%nat ∉ Carrier.closed c.
Proof.
  exists late_upgrade, (carrier_after late_upgrade). split_and!; try (vm_compute; reflexivity).
  - intros t th. rewrite late_upgrade_threads, !lookup_insert_Some, lookup_singleton_Some. naive_solver.
  - by apply (bool_decide_unpack _).
  - by apply (bool_decide_unpack _).
Qed.
