(* ===== verification/LanOffer.v ===== *)
(** * LanOffer: moving a session to the LAN (lan_upgrade.go, lan.go)

    The exchange between [offerLAN] on the backend, the [LANServer] of [Lan],
    and [handleLANOffer] with [dialLAN] on the client.  Each goroutine is a
    record with a program counter; a step runs it to its next blocking call,
    lock or channel operation, the environment supplying outcomes.  A control
    stream carries the one message its backend sent ([Stream]'s theorems);
    anybody else on the LAN may connect and write any verify message.  The
    carriers the two ends install are the inputs of [Lan.Carrier]. *)

From Stdlib Require Import ZArith Lia Strings.Byte Strings.String.
From stdpp Require Import base gmap sets strings pretty list fin_maps.
From S2P Require Import Prelude Text Lan.

(** ** Wire types *)

Record lanOffer := {
  Addr : string;
  Challenge : bytes;
  CertHash : bytes
}.

Definition utf8_offer (offer : lanOffer) : bool := utf8_string (Addr offer).
Definition utf8_verify (v : LANServer.lanVerify) : bool := utf8_string (LANServer.InstanceID v).

(** ** The server's address and certificate *)

(** The address a listener is bound to. *)
Record UDPAddr := {
  IP : string;
  IsUnspecified : bool;
  Port : Z
}.

(** What [NewLANServer] builds around its listener. *)
Record lanServer := {
  nextProtos : list string;
  ls_addr : string;
  ls_certHash : option bytes
}.

(** [NewLANServer]: [selfSigned] is what [generateSelfSigned] returns,
    [ListenAddr] the bound address, [LanIP] the host's own address.  A TLS
    configuration is its certificate chains. *)
Definition NewLANServer (Sum256 : bytes -> bytes) (selfSigned : result bytes)
    (ListenAddr : string -> list (list bytes) -> result UDPAddr) (LanIP : string)
    (addr : string) (tlsConfig : option (list (list bytes))) : result lanServer :=
  let addr := if bool_decide (addr = EmptyString) then ":0" else addr in
  let! chains := match tlsConfig with
                 | None => let! cert := rwrap "generate LAN cert: %w" [] selfSigned in Ok [[cert]]
                 | Some chains => Ok chains
                 end in
  let! listenAddr := rwrap "LAN listen: %w" [] (ListenAddr addr chains) in
  let host := if IsUnspecified listenAddr then LanIP else IP listenAddr in
  Ok {| nextProtos := ["pigeon-lan"];
        ls_addr := (host +:+ ":" +:+ pretty (Port listenAddr))%string;
        ls_certHash := match chains with
                       | (leaf :: _) :: _ => Some (Sum256 leaf)
                       | _ => None
                       end |}.

Lemma NewLANServer_addr Sum256 selfSigned ListenAddr LanIP addr tlsConfig ls :
  NewLANServer Sum256 selfSigned ListenAddr LanIP addr tlsConfig = Ok ls -> ls_addr ls <> EmptyString.
Proof.
  unfold NewLANServer. intros Hl. destruct (match tlsConfig with None => _ | Some _ => _ end) as [chains|]; [| done].
  cbn in Hl. destruct (ListenAddr _ chains) as [a|]; [| done]. cbn in Hl. injection Hl as <-. cbn.
  by destruct (if IsUnspecified a then LanIP else IP a).
Qed.

(** ** The goroutines *)

(** Where [offerLAN] stands: before reading the random challenge, registering
    it, opening the control stream, sending the offer, waiting for the
    verified connection, in its deferred [UnregisterPending], returned. *)
Inductive offerPC := PStart | PRegister | POpen | PSend | PWait | PUnregister | PReturned.

(** One call of [offerLAN]: the session's peer, its challenge, the address of
    its pending entry, and the connection given to [swapTransport]. *)
Record offerCall := {
  peerID : string;
  challenge : bytes;
  entry : option nat;
  opc : offerPC;
  upgraded : option nat
}.

(** Where [handleLANOffer] stands: receiving the offer; in [dialLAN] dialling,
    opening the stream, writing the verify message, reading the answer;
    returned. *)
Inductive clientPC := CRecv | CDial | COpen | CWrite | CRead | CReturned.

(** One call of [handleLANOffer], on a session whose other end is the backend
    session of call [backend]. *)
Record clientCall := {
  backend : nat;
  localID : string;
  offered : option lanOffer;
  dialled : option nat;
  cpc : clientPC;
  swapped : bool
}.

(** The server, both kinds of calls, the offers sent, the [verified] channel
    of each pending entry, and of each connection: the verify message written
    to it, the server's answer, whether its callback has run, whether its
    client closed it. *)
Record exchange := {
  server : LANServer.server;
  offers : gmap nat offerCall;
  clients : gmap nat clientCall;
  payloads : gmap nat bytes;
  verified : gmap nat nat;
  wrote : gmap nat bytes;
  replied : gmap nat bytes;
  notified : gset nat;
  shut : gset nat
}.

Definition noExchange : exchange :=
  {| server := LANServer.NewLANServer; offers := ∅; clients := ∅; payloads := ∅; verified := ∅; wrote := ∅;
     replied := ∅; notified := ∅; shut := ∅ |}.

Definition set_server (x : exchange) (s : LANServer.server) : exchange :=
  {| server := s; offers := offers x; clients := clients x; payloads := payloads x; verified := verified x;
     wrote := wrote x; replied := replied x; notified := notified x; shut := shut x |}.
Definition set_offer (x : exchange) (o : nat) (call : offerCall) : exchange :=
  {| server := server x; offers := <[o := call]> (offers x); clients := clients x; payloads := payloads x;
     verified := verified x; wrote := wrote x; replied := replied x; notified := notified x; shut := shut x |}.
Definition set_client (x : exchange) (k : nat) (call : clientCall) : exchange :=
  {| server := server x; offers := offers x; clients := <[k := call]> (clients x); payloads := payloads x;
     verified := verified x; wrote := wrote x; replied := replied x; notified := notified x; shut := shut x |}.
Definition add_payload (x : exchange) (o : nat) (bs : bytes) : exchange :=
  {| server := server x; offers := offers x; clients := clients x; payloads := <[o := bs]> (payloads x);
     verified := verified x; wrote := wrote x; replied := replied x; notified := notified x; shut := shut x |}.
Definition set_verified (x : exchange) (chans : gmap nat nat) : exchange :=
  {| server := server x; offers := offers x; clients := clients x; payloads := payloads x;
     verified := chans; wrote := wrote x; replied := replied x; notified := notified x; shut := shut x |}.
Definition add_wrote (x : exchange) (c : nat) (bs : bytes) : exchange :=
  {| server := server x; offers := offers x; clients := clients x; payloads := payloads x;
     verified := verified x; wrote := <[c := bs]> (wrote x); replied := replied x; notified := notified x;
     shut := shut x |}.
Definition add_replied (x : exchange) (c : nat) (bs : bytes) : exchange :=
  {| server := server x; offers := offers x; clients := clients x; payloads := payloads x;
     verified := verified x; wrote := wrote x; replied := <[c := bs]> (replied x); notified := notified x;
     shut := shut x |}.
Definition add_notified (x : exchange) (c : nat) : exchange :=
  {| server := server x; offers := offers x; clients := clients x; payloads := payloads x;
     verified := verified x; wrote := wrote x; replied := replied x; notified := {[c]} ∪ notified x;
     shut := shut x |}.
Definition add_shut (x : exchange) (c : nat) : exchange :=
  {| server := server x; offers := offers x; clients := clients x; payloads := payloads x;
     verified := verified x; wrote := wrote x; replied := replied x; notified := notified x;
     shut := {[c]} ∪ shut x |}.

Definition okBytes : bytes := str_bytes "ok".

Section Exchange.
Context {offerJSON : JSON lanOffer} {verifyJSON : JSON LANServer.lanVerify}.
(** [LANServer.Addr] and [CertHash]. *)
Context (addr : string) (certHash : bytes).

(** *** The backend *)

Inductive offerInput :=
  | RandFails
  | RandReads (ch : bytes)
  | Proceed
  | Fails
  | TimesOut.

Definition at_offer (call : offerCall) (pc : offerPC) : offerCall :=
  {| peerID := peerID call; challenge := challenge call; entry := entry call; opc := pc; upgraded := upgraded call |}.

(** [offerLAN] entered: without a LAN server or a peer id it returns. *)
Definition newOffer (lan : bool) (peer : string) : offerCall :=
  {| peerID := peer; challenge := []; entry := None;
     opc := if negb lan || bool_decide (peer = EmptyString) then PReturned else PStart; upgraded := None |}.

Definition offerLAN (x : exchange) (o : nat) (call : offerCall) (i : offerInput) : option exchange :=
  match opc call, i with
  | PStart, RandFails => Some (set_offer x o (at_offer call PReturned))
  | PStart, RandReads ch =>
      if bool_decide (length ch = 32%nat) then
        Some (set_offer x o {| peerID := peerID call; challenge := ch; entry := None; opc := PRegister; upgraded := None |})
      else None
  | PRegister, Proceed =>
      let s := server x in
      Some (set_offer (set_server x (LANServer.RegisterPending s (peerID call) (challenge call))) o
              {| peerID := peerID call; challenge := challenge call; entry := Some (LANServer.nextAddr s);
                 opc := POpen; upgraded := None |})
  | POpen, Fails => Some (set_offer x o (at_offer call PUnregister))
  | POpen, Proceed => Some (set_offer x o (at_offer call PSend))
  | PSend, Fails => Some (set_offer x o (at_offer call PUnregister))
  | PSend, Proceed =>
      match Marshal {| Addr := addr; Challenge := challenge call; CertHash := certHash |} with
      | Err _ => Some (set_offer x o (at_offer call PUnregister))
      | Ok payload => Some (add_payload (set_offer x o (at_offer call PWait)) o payload)
      end
  | PWait, Proceed =>
      match entry call with
      | Some e =>
          match verified x !! e with
          | Some c =>
              Some (set_offer (set_verified x (delete e (verified x))) o
                      {| peerID := peerID call; challenge := challenge call; entry := entry call;
                         opc := PUnregister; upgraded := Some c |})
          | None => None
          end
      | None => None
      end
  | PWait, TimesOut => Some (set_offer x o (at_offer call PUnregister))
  | PUnregister, Proceed =>
      Some (set_offer (set_server x (LANServer.UnregisterPending (server x) (peerID call))) o
              (at_offer call PReturned))
  | _, _ => None
  end.

(** The callback of the entry: a non-blocking send on its channel of capacity one. *)
Definition onVerify (x : exchange) (c : nat) (p : LANServer.pendingLAN) : exchange :=
  match verified x !! LANServer.paddr p with
  | Some _ => x
  | None => set_verified x (<[LANServer.paddr p := c]> (verified x))
  end.

(** *** The client *)

Inductive clientInput :=
  | Arrives
  | Dials (c : nat)
  | Goes
  | Breaks.

Definition at_client (call : clientCall) (pc : clientPC) : clientCall :=
  {| backend := backend call; localID := localID call; offered := offered call; dialled := dialled call;
     cpc := pc; swapped := swapped call |}.

Definition newClient (o : nat) (me : string) : clientCall :=
  {| backend := o; localID := me; offered := None; dialled := None; cpc := CRecv; swapped := false |}.

(** The checks of [handleLANOffer] on the message received. *)
Definition readOffer (raw : bytes) : option lanOffer :=
  match Unmarshal raw with
  | Err _ => None
  | Ok offer => if bool_decide (Addr offer = EmptyString) || bool_decide (Challenge offer = []) then None else Some offer
  end.

(** [dialLAN] gives up after connecting: the connection is closed first. *)
Definition dialFails (x : exchange) (k : nat) (call : clientCall) : exchange :=
  match dialled call with
  | Some c => set_client (add_shut x c) k (at_client call CReturned)
  | None => set_client x k (at_client call CReturned)
  end.

(** [handleLANOffer], with [dialLAN] inlined. *)
Definition handleLANOffer (x : exchange) (k : nat) (call : clientCall) (i : clientInput) : option exchange :=
  match cpc call, i with
  | CRecv, Breaks => Some (set_client x k (at_client call CReturned))
  | CRecv, Arrives =>
      match payloads x !! backend call with
      | None => None
      | Some raw =>
          match readOffer raw with
          | None => Some (set_client x k (at_client call CReturned))
          | Some offer =>
              Some (set_client x k {| backend := backend call; localID := localID call; offered := Some offer;
                                      dialled := None; cpc := CDial; swapped := false |})
          end
      end
  | CDial, Breaks => Some (set_client x k (at_client call CReturned))
  | CDial, Dials c =>
      match LANServer.handlers (server x) !! c, offered call with
      | None, Some offer =>
          if bool_decide (Addr offer = addr) then
            Some (set_client (set_server x (LANServer.set_handler (server x) c LANServer.HWait)) k
                    {| backend := backend call; localID := localID call; offered := offered call;
                       dialled := Some c; cpc := COpen; swapped := false |})
          else None
      | _, _ => None
      end
  | COpen, Breaks => Some (dialFails x k call)
  | COpen, Goes => Some (set_client x k (at_client call CWrite))
  | CWrite, Breaks => Some (dialFails x k call)
  | CWrite, Goes =>
      match offered call, dialled call with
      | Some offer, Some c =>
          match Marshal {| LANServer.Challenge := Challenge offer; LANServer.InstanceID := localID call |} with
          | Err _ => Some (dialFails x k call)
          | Ok data => Some (add_wrote (set_client x k (at_client call CRead)) c data)
          end
      | _, _ => None
      end
  | CRead, Breaks => Some (dialFails x k call)
  | CRead, Goes =>
      match dialled call with
      | Some c =>
          match replied x !! c with
          | Some resp =>
              if bool_decide (resp = okBytes) then
                Some (set_client x k {| backend := backend call; localID := localID call; offered := offered call;
                                        dialled := dialled call; cpc := CReturned; swapped := true |})
              else Some (dialFails x k call)
          | None => None
          end
      | None => None
      end
  | _, _ => None
  end.

(** *** The server *)

(** A failing call of [handleConn], a message read, a step under way; the
    confirmation written to the connection; the callback. *)
Inductive serverInput :=
  | SFail (i : LANServer.input)
  | SRead
  | SGo
  | SCallback.

Definition failing (i : LANServer.input) : bool :=
  match i with LANServer.NoStream | LANServer.ReadFailed | LANServer.WriteFailed => true | _ => false end.

Definition serverStep (x : exchange) (c : nat) (i : serverInput) : option exchange :=
  match LANServer.handlers (server x) !! c with
  | None => None
  | Some h =>
      match i with
      | SFail f => if failing f then set_server x <$> LANServer.handleConn (server x) c h f else None
      | SRead =>
          match wrote x !! c with
          | None => None
          | Some data =>
              set_server x <$>
                LANServer.handleConn (server x) c h
                  (match Unmarshal data with Ok v => LANServer.Verify v | Err _ => LANServer.BadVerify end)
          end
      | SGo =>
          match LANServer.handleConn (server x) c h LANServer.Go with
          | None => None
          | Some s =>
              let x := set_server x s in
              Some (match h with LANServer.HConfirm _ _ => add_replied x c okBytes | _ => x end)
          end
      | SCallback =>
          match h with
          | LANServer.HVerified _ p =>
              if bool_decide (c ∈ notified x) then None else Some (onVerify (add_notified x c) c p)
          | _ => None
          end
      end
  end.

(** *** Runs *)

(** Calls begin; goroutines step; strangers connect and write what they like. *)
Inductive event :=
  | Offer (o : nat) (lan : bool) (peer : string)
  | OfferStep (o : nat) (i : offerInput)
  | Client (k o : nat) (me : string)
  | ClientStep (k : nat) (i : clientInput)
  | Server (c : nat) (i : serverInput)
  | Stranger (c : nat) (data : bytes).

Definition step (x : exchange) (e : event) : option exchange :=
  match e with
  | Offer o lan peer =>
      match offers x !! o with Some _ => None | None => Some (set_offer x o (newOffer lan peer)) end
  | OfferStep o i => match offers x !! o with Some call => offerLAN x o call i | None => None end
  | Client k o me =>
      match clients x !! k with Some _ => None | None => Some (set_client x k (newClient o me)) end
  | ClientStep k i => match clients x !! k with Some call => handleLANOffer x k call i | None => None end
  | Server c i => serverStep x c i
  | Stranger c data =>
      match LANServer.handlers (server x) !! c with
      | Some _ => None
      | None => Some (add_wrote (set_server x (LANServer.set_handler (server x) c LANServer.HWait)) c data)
      end
  end.

Fixpoint run (x : exchange) (es : list event) : option exchange :=
  match es with
  | [] => Some x
  | e :: es => match step x e with Some x => run x es | None => None end
  end.

(** ** Invariants *)

(** *** The backend's calls and the server's entries *)

(** Entries and calls correspond one to one; a payload is the offer of a call
    that has registered its challenge. *)
Record backendInv (x : exchange) : Prop := {
  b_server : LANServer.inv (server x);
  b_registered id p : (id, p) ∈ LANServer.registered (server x) ->
    exists o call, offers x !! o = Some call /\ entry call = Some (LANServer.paddr p) /\
      challenge call = LANServer.challenge p /\ peerID call = id;
  b_entry o call e : offers x !! o = Some call -> entry call = Some e ->
    exists p, LANServer.paddr p = e /\ (peerID call, p) ∈ LANServer.registered (server x);
  b_distinct o1 o2 call1 call2 e : offers x !! o1 = Some call1 -> offers x !! o2 = Some call2 ->
    entry call1 = Some e -> entry call2 = Some e -> o1 = o2;
  b_peer o call : offers x !! o = Some call -> opc call <> PReturned -> peerID call <> EmptyString;
  b_fresh o call : offers x !! o = Some call -> opc call = PStart \/ opc call = PRegister -> entry call = None;
  b_payload o bs : payloads x !! o = Some bs ->
    exists call, offers x !! o = Some call /\ is_Some (entry call) /\
      Marshal {| Addr := addr; Challenge := challenge call; CertHash := certHash |} = Ok bs
}.

(** The parts of the state [backendInv] reads. *)
Lemma backendInv_ext x x' :
  backendInv x -> LANServer.inv (server x') ->
  LANServer.registered (server x') = LANServer.registered (server x) -> offers x' = offers x ->
  payloads x' = payloads x -> backendInv x'.
Proof. intros [] Hs Hr Ho Hp. split; rewrite ?Hr, ?Ho, ?Hp; auto. Qed.

(** A call moves on, its entry and challenge unchanged. *)
Lemma backendInv_call x o call call' :
  backendInv x -> offers x !! o = Some call -> peerID call' = peerID call -> challenge call' = challenge call ->
  entry call' = entry call -> opc call <> PReturned -> opc call' <> PStart -> opc call' <> PRegister ->
  backendInv (set_offer x o call').
Proof.
  intros [] Ho Hp Hc He Hpc Hs Hr. split; cbn; auto.
  - intros id p (o1 & call1 & H1 & ?)%b_registered0. destruct (decide (o1 = o)) as [->|].
    + exists o, call'. rewrite lookup_insert_eq. naive_solver congruence.
    + exists o1, call1. by rewrite lookup_insert_ne.
  - intros o1 call1 e [[-> <-]|[? H1]]%lookup_insert_Some; [rewrite He, Hp |]; eauto.
  - intros o1 o2 call1 call2 e [[-> <-]|[? H1]]%lookup_insert_Some [[-> <-]|[? H2]]%lookup_insert_Some;
      rewrite ?He; eauto.
  - intros o1 call1 [[-> <-]|[? H1]]%lookup_insert_Some; [rewrite Hp; eauto | eauto].
  - intros o1 call1 [[-> <-]|[? H1]]%lookup_insert_Some; [tauto | eauto].
  - intros o1 bs (call1 & H1 & ?)%b_payload0. destruct (decide (o1 = o)) as [->|].
    + exists call'. rewrite lookup_insert_eq. naive_solver congruence.
    + exists call1. by rewrite lookup_insert_ne.
Qed.

(** A call without an entry begins, returns or draws its challenge. *)
Lemma backendInv_fresh x o call' :
  backendInv x -> (forall call, offers x !! o = Some call -> entry call = None) -> entry call' = None ->
  (opc call' <> PReturned -> peerID call' <> EmptyString) -> backendInv (set_offer x o call').
Proof.
  intros [] Ho He Hp. split; cbn; auto.
  - intros id p (o1 & call1 & H1 & H2 & ?)%b_registered0. destruct (decide (o1 = o)) as [->|].
    + apply Ho in H1. congruence.
    + exists o1, call1. by rewrite lookup_insert_ne.
  - intros o1 call1 e [[-> <-]|[? H1]]%lookup_insert_Some; [congruence | eauto].
  - intros o1 o2 call1 call2 e [[-> <-]|[? H1]]%lookup_insert_Some [[-> <-]|[? H2]]%lookup_insert_Some;
      rewrite ?He; eauto; congruence.
  - intros o1 call1 [[-> <-]|[? H1]]%lookup_insert_Some; eauto.
  - intros o1 call1 [[-> <-]|[? H1]]%lookup_insert_Some; eauto.
  - intros o1 bs (call1 & H1 & [e H2] & ?)%b_payload0. destruct (decide (o1 = o)) as [->|].
    + apply Ho in H1. congruence.
    + exists call1. rewrite lookup_insert_ne by done. eauto.
Qed.

Lemma backendInv_register x o call :
  backendInv x -> offers x !! o = Some call -> opc call = PRegister ->
  backendInv (set_offer (set_server x (LANServer.RegisterPending (server x) (peerID call) (challenge call))) o
    {| peerID := peerID call; challenge := challenge call; entry := Some (LANServer.nextAddr (server x));
       opc := POpen; upgraded := None |}).
Proof.
  intros [] Ho Hpc.
  assert (Hne : peerID call <> EmptyString) by (eapply b_peer0; eauto; congruence).
  assert (Hnone : entry call = None) by eauto.
  pose proof (LANServer.inv_register _ (peerID call) (challenge call) b_server0) as Hinv.
  assert (Hlt : forall id p, (id, p) ∈ LANServer.registered (server x) -> LANServer.paddr p <> LANServer.nextAddr (server x)).
  { intros id p Hp. pose proof (LANServer.i_addr _ b_server0 _ _ Hp). lia. }
  unfold LANServer.RegisterPending in *. rewrite bool_decide_false in * by done.
  split; cbn; auto.
  - intros id p [[= -> ->]|Hp]%elem_of_cons.
    + exists o, {| peerID := peerID call; challenge := challenge call; entry := Some (LANServer.nextAddr (server x));
                   opc := POpen; upgraded := None |}. by rewrite lookup_insert_eq.
    + apply b_registered0 in Hp as (o1 & call1 & H1 & ?). destruct (decide (o1 = o)) as [->|].
      * naive_solver congruence.
      * exists o1, call1. by rewrite lookup_insert_ne.
  - intros o1 call1 e [[-> <-]|[? H1]]%lookup_insert_Some; cbn.
    + intros [= <-]. eexists. split; [| left]. done.
    + intros He. destruct (b_entry0 _ _ _ H1 He) as (p & Hp & Hin). exists p. split; [done |]. by right.
  - intros o1 o2 call1 call2 e [[-> <-]|[? H1]]%lookup_insert_Some [[-> <-]|[? H2]]%lookup_insert_Some; cbn; try done.
    + intros [= <-] He. destruct (b_entry0 _ _ _ H2 He) as (p & Hp & Hin). by destruct (Hlt _ _ Hin).
    + intros He [= <-]. destruct (b_entry0 _ _ _ H1 He) as (p & Hp & Hin). by destruct (Hlt _ _ Hin).
    + eauto.
  - intros o1 call1 [[-> <-]|[? H1]]%lookup_insert_Some; [done | eauto].
  - intros o1 call1 [[-> <-]|[? H1]]%lookup_insert_Some; cbn; [naive_solver | eauto].
  - intros o1 bs (call1 & H1 & [e H2] & ?)%b_payload0. destruct (decide (o1 = o)) as [->|]; [congruence |].
    exists call1. rewrite lookup_insert_ne by done. eauto.
Qed.
Lemma backendInv_send x o call bs :
  backendInv x -> offers x !! o = Some call -> opc call = PSend ->
  Marshal {| Addr := addr; Challenge := challenge call; CertHash := certHash |} = Ok bs -> is_Some (entry call) ->
  backendInv (add_payload (set_offer x o (at_offer call PWait)) o bs).
Proof.
  intros Hinv Ho Hpc Hm He. destruct (backendInv_call x o call (at_offer call PWait) Hinv Ho) as []; try done; [by rewrite Hpc |].
  split; cbn; try done. intros o1 bs1 [[-> <-]|[? H1]]%lookup_insert_Some; [| eauto].
  exists (at_offer call PWait). cbn. rewrite lookup_insert_eq. done.
Qed.

Lemma handleConn_registered s c h i s' :
  LANServer.handleConn s c h i = Some s' -> LANServer.registered s' = LANServer.registered s.
Proof.
  destruct h as [|v|v [p|]|v p|r|v p], i; cbn [LANServer.handleConn]; try done; try (by intros [= <-]).
  unfold LANServer.takePending. by destruct (LANServer.conns s !! LANServer.InstanceID v); intros [= <-].
Qed.

(** A call that has registered has an entry. *)
Definition hasEntry (x : exchange) : Prop :=
  forall o call, offers x !! o = Some call ->
    opc call = POpen \/ opc call = PSend \/ opc call = PWait -> is_Some (entry call).

Lemma hasEntry_step x e x' : hasEntry x -> step x e = Some x' -> hasEntry x'.
Proof.
  assert (Hset : forall y o call', hasEntry y ->
    (opc call' = POpen \/ opc call' = PSend \/ opc call' = PWait -> is_Some (entry call')) -> hasEntry (set_offer y o call')).
  { intros y o call' Hy Hc o1 call1. cbn. intros [[-> <-]|[? H1]]%lookup_insert_Some; eauto. }
  intros Hx. destruct e as [o lan peer|o i|k o me|k i|c i|c data]; cbn [step].
  - destruct (offers x !! o); [done |]. intros [= <-]. apply Hset; [done |]. unfold newOffer. cbn.
    destruct (negb lan || _); naive_solver.
  - destruct (offers x !! o) as [call|] eqn:Ho; [| done]. pose proof (Hx o call Ho) as Hc.
    unfold offerLAN. destruct (opc call) eqn:Hpc, i; try done; try (intros [= <-]; apply Hset; [done |]; cbn; naive_solver).
    + case_bool_decide; [| done]. intros [= <-]. apply Hset; [done |]. cbn. naive_solver.
    + destruct (Marshal _); intros [= <-]; [| apply Hset; [done | cbn; naive_solver]].
      intros o1 call1. cbn. intros Hl. apply (Hset x o (at_offer call PWait)) in Hl; [done | done | cbn; naive_solver].
    + destruct (entry call); [| done]. destruct (verified x !! n); [| done]. intros [= <-].
      apply Hset; [done | cbn; naive_solver].
  - destruct (clients x !! k); [done |]. by intros [= <-].
  - destruct (clients x !! k) as [call|]; [| done]. unfold handleLANOffer, dialFails.
    destruct (cpc call), i; try done; repeat case_match; intros; simplify_eq; done.
  - unfold serverStep, onVerify. destruct (LANServer.handlers _ !! _); [| done].
    destruct i; repeat case_match; intros Hs; try apply fmap_Some in Hs as (? & _ & ->); simplify_eq; done.
  - destruct (LANServer.handlers _ !! _); [done |]. by intros [= <-].
Qed.
Lemma server_handle_inv s c h i s' :
  LANServer.inv s -> LANServer.handlers s !! c = Some h -> LANServer.handleConn s c h i = Some s' -> LANServer.inv s'.
Proof.
  intros Hinv Hc Hh. apply (LANServer.server_step_inv s (LANServer.Handle c i)); [done |]. cbn. by rewrite Hc.
Qed.

Lemma server_new_inv s c :
  LANServer.inv s -> LANServer.handlers s !! c = None -> LANServer.inv (LANServer.set_handler s c LANServer.HWait).
Proof. intros Hinv Hc. apply (LANServer.inv_handler s c LANServer.HWait); auto. Qed.

Lemma backendInv_offer x o call i x' :
  backendInv x -> hasEntry x -> offers x !! o = Some call -> offerLAN x o call i = Some x' -> backendInv x'.
Proof.
  intros Hinv He Ho. pose proof (b_peer x Hinv o call Ho) as Hpeer. pose proof (b_fresh x Hinv o call Ho) as Hfr.
  unfold offerLAN. destruct (opc call) eqn:Hpc, i; try done.
  - intros [= <-]. apply backendInv_fresh; cbn; auto; naive_solver congruence.
  - case_bool_decide; [| done]. intros [= <-]. apply backendInv_fresh; cbn; auto; naive_solver congruence.
  - intros [= <-]. by apply backendInv_register.
  - intros [= <-]. by apply (backendInv_call x o call); auto; rewrite ?Hpc.
  - intros [= <-]. by apply (backendInv_call x o call); auto; rewrite ?Hpc.
  - destruct (Marshal _) as [bs|e] eqn:Hm; intros [= <-].
    + apply backendInv_send; auto. apply (He o call Ho). rewrite Hpc. auto.
    + by apply (backendInv_call x o call); auto; rewrite ?Hpc.
  - intros [= <-]. by apply (backendInv_call x o call); auto; rewrite ?Hpc.
  - destruct (entry call) as [e|] eqn:Hen; [| done]. destruct (verified x !! e) as [c|]; [| done]. intros [= <-].
    apply (backendInv_call _ o call); auto; rewrite ?Hpc; try done.
    apply (backendInv_ext x); auto; apply Hinv.
  - intros [= <-]. by apply (backendInv_call x o call); auto; rewrite ?Hpc.
  - intros [= <-]. apply (backendInv_call _ o call); auto; rewrite ?Hpc; try done.
    apply (backendInv_ext x); auto. apply LANServer.inv_delete, Hinv.
Qed.

Lemma backendInv_step x e x' : backendInv x -> hasEntry x -> step x e = Some x' -> backendInv x'.
Proof.
  intros Hinv He. pose proof (b_server x Hinv) as Hs.
  destruct e as [o lan peer|o i|k o me|k i|c i|c data]; cbn [step].
  - destruct (offers x !! o) eqn:Ho; [done |]. intros [= <-]. apply backendInv_fresh; auto; [congruence |].
    unfold newOffer. cbn. destruct lan; cbn; [| done]. by case_bool_decide.
  - destruct (offers x !! o) as [call|] eqn:Ho; [| done]. by apply backendInv_offer.
  - destruct (clients x !! k); [done |]. intros [= <-]. by apply (backendInv_ext x).
  - destruct (clients x !! k) as [call|]; [| done]. unfold handleLANOffer, dialFails.
    destruct (cpc call), i; try done; repeat case_match; intros; simplify_eq; apply (backendInv_ext x); auto;
      by apply server_new_inv.
  - unfold serverStep, onVerify. destruct (LANServer.handlers _ !! _) as [h|] eqn:Hc; [| done].
    destruct i as [f| | |]; repeat case_match; intros Hr; try apply fmap_Some in Hr as (s & Hh & ->); simplify_eq;
      apply (backendInv_ext x); cbn; auto; eauto using handleConn_registered, server_handle_inv.
  - destruct (LANServer.handlers _ !! _) eqn:Hc; [done |]. intros [= <-]. apply (backendInv_ext x); auto.
    by apply server_new_inv.
Qed.

(** *** Connections *)

Definition verifyOf (h : LANServer.conn) : option LANServer.lanVerify :=
  match h with
  | LANServer.HLookup v | LANServer.HCheck v _ | LANServer.HConfirm v _ | LANServer.HVerified v _ => Some v
  | LANServer.HWait | LANServer.HClosed _ => None
  end.

(** Connection [c] was verified for the entry at address [e]. *)
Definition verifiedFor (x : exchange) (c e : nat) : Prop :=
  exists v p, LANServer.handlers (server x) !! c = Some (LANServer.HVerified v p) /\ LANServer.paddr p = e.

Record connInv (x : exchange) : Prop := {
  c_wrote c h v : LANServer.handlers (server x) !! c = Some h -> verifyOf h = Some v ->
    exists data, wrote x !! c = Some data /\ Unmarshal data = Ok v;
  c_replied c r : replied x !! c = Some r -> r = okBytes /\ exists e, verifiedFor x c e;
  c_channel e c : verified x !! e = Some c -> verifiedFor x c e;
  c_upgraded o call c : offers x !! o = Some call -> upgraded call = Some c ->
    exists e, entry call = Some e /\ verifiedFor x c e
}.

(** The parts [connInv] reads; verified connections stay so. *)
Lemma connInv_ext x x' :
  connInv x ->
  (forall c e, verifiedFor x c e -> verifiedFor x' c e) ->
  (forall c h v, LANServer.handlers (server x') !! c = Some h -> verifyOf h = Some v ->
     exists data, wrote x' !! c = Some data /\ Unmarshal data = Ok v) ->
  (forall c r, replied x' !! c = Some r -> replied x !! c = Some r) ->
  (forall e c, verified x' !! e = Some c -> verified x !! e = Some c) ->
  (forall o call c, offers x' !! o = Some call -> upgraded call = Some c ->
     exists e, entry call = Some e /\ (verifiedFor x' c e \/ verified x !! e = Some c \/
       exists call0, offers x !! o = Some call0 /\ upgraded call0 = Some c /\ entry call0 = Some e)) ->
  connInv x'.
Proof.
  intros [] Hv Hw Hr Hc Hu. split; auto.
  - intros c r Hcr. destruct (c_replied0 c r (Hr c r Hcr)) as (-> & e & He). eauto.
  - intros o call c Ho Hup. destruct (Hu o call c Ho Hup) as (e & He & [Hf|[Hch|(call0 & Ho0 & Hup0 & He0)]]); eauto.
    destruct (c_upgraded0 o call0 c Ho0 Hup0) as (e' & He' & Hf). exists e'. split; [congruence | auto].
Qed.

(** What one step of [handleConn] does to the connections. *)
Lemma handleConn_handlers s c h i s' :
  LANServer.handleConn s c h i = Some s' ->
  exists h', LANServer.handlers s' = <[c := h']> (LANServer.handlers s) /\
    (forall v p, h <> LANServer.HVerified v p) /\
    (forall v, verifyOf h' = Some v -> verifyOf h = Some v \/ i = LANServer.Verify v) /\
    (forall v p, h' = LANServer.HVerified v p -> h = LANServer.HConfirm v p).
Proof.
  destruct h as [|v|v [p|]|v p|r|v p], i; cbn [LANServer.handleConn]; try done;
    try (intros [= <-]; eexists; split; [reflexivity |]; cbn; split_and!; [done | naive_solver | done]).
  - unfold LANServer.takePending. destruct (LANServer.conns s !! LANServer.InstanceID v); intros [= <-];
      (eexists; split; [reflexivity |]; cbn; naive_solver).
  - intros [= <-]. eexists. split; [reflexivity |]. destruct (negb _); cbn; naive_solver.
  - intros [= <-]. eexists. split; [reflexivity |]. cbn. naive_solver.
Qed.

(** What persists from one state to a later one. *)
Record grows (x x' : exchange) : Prop := {
  g_offers o call : offers x !! o = Some call -> is_Some (entry call) ->
    exists call', offers x' !! o = Some call' /\ entry call' = entry call /\ challenge call' = challenge call /\
      peerID call' = peerID call;
  g_handlers c : is_Some (LANServer.handlers (server x) !! c) -> is_Some (LANServer.handlers (server x') !! c);
  g_replied c : is_Some (replied x !! c) -> is_Some (replied x' !! c);
  g_shut c : c ∈ shut x -> c ∈ shut x'
}.

Lemma grows_keep x x' :
  offers x' = offers x -> (forall c, is_Some (LANServer.handlers (server x) !! c) -> is_Some (LANServer.handlers (server x') !! c)) ->
  (forall c, is_Some (replied x !! c) -> is_Some (replied x' !! c)) -> (forall c, c ∈ shut x -> c ∈ shut x') -> grows x x'.
Proof. intros Ho. split; auto. rewrite Ho. eauto. Qed.

Lemma grows_offer x o call i x' :
  backendInv x -> offers x !! o = Some call -> offerLAN x o call i = Some x' -> grows x x'.
Proof.
  intros Hinv Ho. pose proof (b_fresh x Hinv o call Ho) as Hfr. unfold offerLAN.
  assert (Hk : forall x1 call1, offers x1 = <[o := call1]> (offers x) ->
    entry call = None \/ (entry call1 = entry call /\ challenge call1 = challenge call /\ peerID call1 = peerID call) ->
    (forall c, is_Some (LANServer.handlers (server x) !! c) -> is_Some (LANServer.handlers (server x1) !! c)) ->
    replied x1 = replied x -> shut x1 = shut x -> grows x x1).
  { intros x1 call1 Hx1 Hcall Hh Hr Hs. split; rewrite ?Hr, ?Hs; auto. intros o1 call0 H0 [e He]. rewrite Hx1.
    destruct (decide (o1 = o)) as [->|]; [| rewrite lookup_insert_ne by done; eauto].
    rewrite lookup_insert_eq. destruct Hcall as [Hn|Hcall]; [congruence |]. exists call1. naive_solver congruence. }
  destruct (opc call) eqn:Hpc, i; try done; repeat case_match; intros; simplify_eq;
    (eapply Hk; [reflexivity | cbn; auto | cbn; auto | done | done]).
  intros c. unfold LANServer.RegisterPending. by case_bool_decide.
Qed.

Lemma step_grows x e x' : backendInv x -> step x e = Some x' -> grows x x'.
Proof.
  intros Hinv. destruct e as [o lan peer|o i|k o me|k i|c i|c data]; cbn [step].
  - destruct (offers x !! o) eqn:Ho; [done |]. intros [= <-]. split; cbn; auto. intros o1 call1 H1 _.
    rewrite lookup_insert_ne by congruence. eauto.
  - destruct (offers x !! o) as [call|] eqn:Ho; [| done]. by apply grows_offer.
  - destruct (clients x !! k); [done |]. intros [= <-]. by apply grows_keep.
  - destruct (clients x !! k) as [call|]; [| done]. unfold handleLANOffer, dialFails.
    destruct (cpc call), i; try done; repeat case_match; intros; simplify_eq; apply grows_keep; cbn; auto; try set_solver.
    intros c1 Hc1. destruct (decide (c1 = c)) as [->|]; [by rewrite lookup_insert_eq | by rewrite lookup_insert_ne].
  - unfold serverStep, onVerify. destruct (LANServer.handlers _ !! _) as [h|] eqn:Hc; [| done].
    assert (Hh : forall s i, LANServer.handleConn (server x) c h i = Some s ->
      forall c1, is_Some (LANServer.handlers (server x) !! c1) -> is_Some (LANServer.handlers s !! c1)).
    { intros s j (h' & -> & _)%handleConn_handlers c1 ?. destruct (decide (c1 = c)) as [->|];
        [by rewrite lookup_insert_eq | by rewrite lookup_insert_ne]. }
    destruct i as [f| | |]; repeat case_match; intros Hr; try apply fmap_Some in Hr as (s & Hs & ->); simplify_eq;
      apply grows_keep; cbn; eauto.
    intros c1 ?. destruct (decide (c1 = c)) as [->|]; [by rewrite lookup_insert_eq | by rewrite lookup_insert_ne].
  - destruct (LANServer.handlers _ !! _) eqn:Hc; [done |]. intros [= <-]. apply grows_keep; cbn; auto.
    intros c1 ?. destruct (decide (c1 = c)) as [->|]; [by rewrite lookup_insert_eq | by rewrite lookup_insert_ne].
Qed.

(** *** The client's calls *)

Record callInv (x : exchange) (call : clientCall) : Prop := {
  k_offered offer : offered call = Some offer ->
    exists ocall bs, offers x !! backend call = Some ocall /\ is_Some (entry ocall) /\
      Marshal {| Addr := addr; Challenge := challenge ocall; CertHash := certHash |} = Ok bs /\ readOffer bs = Some offer;
  k_dialled c : dialled call = Some c -> is_Some (LANServer.handlers (server x) !! c) /\ is_Some (offered call);
  k_wrote c data offer : dialled call = Some c -> offered call = Some offer -> wrote x !! c = Some data ->
    Marshal {| LANServer.Challenge := Challenge offer; LANServer.InstanceID := localID call |} = Ok data;
  k_early : cpc call = CRecv \/ cpc call = CDial -> dialled call = None;
  k_running : cpc call <> CReturned -> swapped call = false;
  k_unwritten c : cpc call = COpen \/ cpc call = CWrite -> dialled call = Some c -> wrote x !! c = None;
  k_swapped : swapped call = true -> exists c, dialled call = Some c /\ is_Some (replied x !! c);
  k_failed c : cpc call = CReturned -> swapped call = false -> dialled call = Some c -> c ∈ shut x
}.

Record clientInv (x : exchange) : Prop := {
  k_calls k call : clients x !! k = Some call -> callInv x call;
  k_distinct k1 k2 call1 call2 c : clients x !! k1 = Some call1 -> clients x !! k2 = Some call2 ->
    dialled call1 = Some c -> dialled call2 = Some c -> k1 = k2;
  k_unused c : LANServer.handlers (server x) !! c = None -> wrote x !! c = None
}.

Lemma callInv_grows x x' call :
  callInv x call -> grows x x' ->
  (forall c, dialled call = Some c -> wrote x' !! c = wrote x !! c) -> callInv x' call.
Proof.
  intros [] [] Hw. split; auto.
  - intros offer (ocall & bs & Ho & He & Hm & Hr)%k_offered0.
    destruct (g_offers0 _ _ Ho He) as (ocall' & Ho' & He' & Hch & _). exists ocall', bs. rewrite He', Hch. done.
  - intros c [? ?]%k_dialled0. auto.
  - intros c data offer Hc. rewrite (Hw c Hc). eauto.
  - intros c Hpc Hc. rewrite (Hw c Hc). eauto.
  - intros (c & Hc & Hr)%k_swapped0. eauto.
Qed.

Lemma clientInv_grows x x' :
  clientInv x -> grows x x' -> clients x' = clients x ->
  (forall c, is_Some (LANServer.handlers (server x) !! c) -> wrote x' !! c = wrote x !! c) ->
  (forall c, LANServer.handlers (server x') !! c = None -> wrote x' !! c = None) -> clientInv x'.
Proof.
  intros [] Hg Hk Hw Hu. split; rewrite ?Hk; auto. intros k call Hc%k_calls0.
  eapply callInv_grows; eauto. intros c Hd. apply Hw. by apply (k_dialled _ _ Hc).
Qed.

(** One call moves on; the rest of the state has grown. *)
Lemma clientInv_call x x' k call call' :
  clientInv x -> clients x !! k = Some call \/ (clients x !! k = None /\ dialled call' = None) -> grows x x' ->
  clients x' = <[k := call']> (clients x) -> callInv x' call' ->
  (forall c k' call1, k' <> k -> clients x !! k' = Some call1 -> dialled call1 = Some c ->
     wrote x' !! c = wrote x !! c /\ dialled call' <> Some c) ->
  (forall c, LANServer.handlers (server x') !! c = None -> wrote x' !! c = None) -> clientInv x'.
Proof.
  intros [] Hk Hg Hc' Hinv Hother Hu. split; rewrite ?Hc'; auto.
  - intros k1 call1 [[-> <-]|[? H1]]%lookup_insert_Some; [done |]. eapply callInv_grows; eauto.
    intros c Hd. by apply (Hother c k1 call1).
  - intros k1 k2 call1 call2 c [[-> <-]|[? H1]]%lookup_insert_Some [[-> <-]|[? H2]]%lookup_insert_Some Hd1 Hd2; [done | | | eauto].
    + by destruct (Hother c k2 call2) as [_ Hn].
    + by destruct (Hother c k1 call1) as [_ Hn].
Qed.

(** A call moves on with what it has. *)
Lemma callInv_move x call pc :
  callInv x call -> (pc = CRecv \/ pc = CDial -> dialled call = None) -> (pc <> CReturned -> swapped call = false) ->
  (forall c, pc = COpen \/ pc = CWrite -> dialled call = Some c -> wrote x !! c = None) ->
  (forall c, pc = CReturned -> swapped call = false -> dialled call = Some c -> c ∈ shut x) ->
  callInv x (at_client call pc).
Proof. intros []. split; auto. Qed.

Lemma callInv_return x call : callInv x call -> dialled call = None -> callInv x (at_client call CReturned).
Proof. intros Hc Hd. apply callInv_move; rewrite ?Hd; done. Qed.

Lemma clientInv_client x k call i x' :
  backendInv x -> clientInv x -> clients x !! k = Some call -> handleLANOffer x k call i = Some x' -> clientInv x'.
Proof.
  intros Hb Hinv Hk Hs.
  assert (Hg : grows x x') by (apply (step_grows x (ClientStep k i)); [done | cbn; by rewrite Hk]).
  pose proof (k_calls x Hinv k call Hk) as Hcall. pose proof (k_unused x Hinv) as Hun.
  assert (Hsame : forall call', clients x' = <[k := call']> (clients x) -> callInv x' call' ->
    wrote x' = wrote x -> dialled call' = dialled call -> server x' = server x -> clientInv x').
  { intros call' Hc' Hi Hw Hd Hh. eapply (clientInv_call x x' k call call'); eauto; rewrite ?Hw, ?Hh; auto.
    intros c k' call1 Hne H1 Hd1. split; [done |]. rewrite Hd. intros Hd2. apply Hne. by eapply (k_distinct x Hinv). }
  assert (Hkeep : wrote x' = wrote x -> callInv x' call) by (intros Hw; eapply callInv_grows; eauto; by rewrite Hw).
  pose proof (k_early _ _ Hcall) as Hearly. pose proof (k_running _ _ Hcall) as Hrun.
  pose proof (k_unwritten _ _ Hcall) as Hunw.
  assert (Hfail : x' = dialFails x k call -> cpc call <> CReturned -> clientInv x').
  { intros -> Hpc. unfold dialFails in *. specialize (Hrun Hpc). destruct (dialled call) as [c|] eqn:Hd.
    - apply (Hsame (at_client call CReturned)); auto. apply callInv_move; auto; try (by intros [?|?]).
      + by intros c1 [?|?].
      + rewrite Hd. intros c1 _ _ [= ->]. cbn. set_solver.
    - apply (Hsame (at_client call CReturned)); auto. apply callInv_move; auto; rewrite ?Hd; done. }
  unfold handleLANOffer in Hs. destruct (cpc call) eqn:Hpc, i; try done.
  - destruct (payloads x !! backend call) as [raw|] eqn:Hp; [| done].
    destruct (readOffer raw) as [offer|] eqn:Hr; injection Hs as <-.
    + eapply Hsame; [reflexivity | | done | by rewrite Hearly by auto | done].
      split; cbn; try done; try (by intros [?|?]). intros offer1 [= <-].
      destruct (b_payload x Hb _ _ Hp) as (ocall & Ho & He & Hm). eauto 6.
    + apply (Hsame (at_client call CReturned)); auto. apply callInv_return; auto.
  - injection Hs as <-. apply (Hsame (at_client call CReturned)); auto. apply callInv_return; auto.
  - destruct (LANServer.handlers (server x) !! c) as [h|] eqn:Hh; [done |].
    destruct (offered call) as [offer|] eqn:Ho; [| done]. case_bool_decide; [| done]. injection Hs as <-.
    assert (Hnew : forall k' call1, clients x !! k' = Some call1 -> dialled call1 <> Some c).
    { intros k' call1 H1 Hd. destruct (k_dialled _ _ (k_calls x Hinv k' call1 H1) c Hd) as [[? ?] _]. congruence. }
    eapply (clientInv_call x _ k call); [done | by left | exact Hg | reflexivity | | |].
    + assert (Hc' : callInv (set_server x (LANServer.set_handler (server x) c LANServer.HWait)) call).
      { eapply callInv_grows; [exact Hcall | | done]. apply grows_keep; cbn; auto. intros c1 ?.
        destruct (decide (c1 = c)) as [->|]; [by rewrite lookup_insert_eq | by rewrite lookup_insert_ne]. }
      destruct Hc'. split; cbn; auto; try done; try (by intros [?|?]).
      * intros offer1 [= <-]. auto.
      * intros c1 [= <-]. rewrite lookup_insert_eq. eauto.
      * intros c1 data offer1 [= <-]. rewrite Hun by done. done.
      * intros c1 _ [= <-]. auto.
    + intros c1 k' call1 _ H1 Hd1. split; [done |]. cbn. intros [= ->]. by apply (Hnew k' call1).
    + cbn. intros c1. rewrite lookup_insert_None. intros [? _]. auto.
  - injection Hs as <-. apply (Hsame (at_client call CReturned)); auto. apply callInv_return; auto.
  - injection Hs as <-. apply (Hsame (at_client call CWrite)); auto.
    apply callInv_move; auto; try done. by intros [?|?].
  - injection Hs as <-. by apply Hfail.
  - destruct (offered call) as [offer|] eqn:Ho; [| done]. destruct (dialled call) as [c|] eqn:Hd; [| done].
    destruct (Marshal _) as [data|e] eqn:Hm; injection Hs as <-; [| by apply Hfail].
    eapply (clientInv_call x _ k call); [done | by left | exact Hg | reflexivity | | |].
    + destruct Hcall. split; cbn; try done; try (by intros [?|?]); try (by intros ? [?|?]); try (by intros; congruence).
      * rewrite Hd, Ho. intros c1 data1 offer1 [= <-] [= <-]. rewrite lookup_insert_eq. by intros [= <-].
      * intros _. apply Hrun. congruence.
    + intros c1 k' call1 Hne H1 Hd1. cbn. rewrite Hd.
      assert (c1 <> c) by (intros ->; apply Hne; by eapply (k_distinct x Hinv)).
      rewrite lookup_insert_ne by done. split; congruence.
    + cbn. intros c1 Hc1. destruct (k_dialled _ _ Hcall c Hd) as [[? ?] _].
      rewrite lookup_insert_ne by congruence. auto.
  - injection Hs as <-. by apply Hfail.
  - destruct (dialled call) as [c|] eqn:Hd; [| done]. destruct (replied x !! c) as [resp|] eqn:Hr; [| done].
    case_bool_decide; injection Hs as <-; [| by apply Hfail].
    eapply Hsame; [reflexivity | | done | done | done].
    specialize (Hkeep eq_refl). destruct Hkeep.
    split; cbn; auto; try done; try (by intros [?|?]); try (by intros ? [?|?]); rewrite <-?Hd; eauto.
  - injection Hs as <-. by apply Hfail.
Qed.

(** [offerLAN] leaves connections and clients alone. *)
Lemma offerLAN_frame x o call i x' :
  offerLAN x o call i = Some x' ->
  clients x' = clients x /\ wrote x' = wrote x /\ replied x' = replied x /\
  LANServer.handlers (server x') = LANServer.handlers (server x).
Proof.
  unfold offerLAN. destruct (opc call), i; try done; repeat case_match; intros; simplify_eq; split_and!; try done.
  cbn. unfold LANServer.RegisterPending. by case_bool_decide.
Qed.

Lemma clientInv_step x e x' : backendInv x -> clientInv x -> step x e = Some x' -> clientInv x'.
Proof.
  intros Hb Hinv Hs. pose proof (step_grows x e x' Hb Hs) as Hg. pose proof (k_unused x Hinv) as Hun.
  destruct e as [o lan peer|o i|k o me|k i|c i|c data]; cbn [step] in Hs.
  - destruct (offers x !! o); [done |]. injection Hs as <-. by apply (clientInv_grows x).
  - destruct (offers x !! o) as [call|]; [| done]. destruct (offerLAN_frame _ _ _ _ _ Hs) as (Hk & Hw & _ & Hh).
    apply (clientInv_grows x); rewrite ?Hw, ?Hh; auto.
  - destruct (clients x !! k) eqn:Hk; [done |]. injection Hs as <-.
    eapply (clientInv_call x _ k (newClient o me) (newClient o me)); [done | by right | exact Hg | reflexivity | | done | done].
    split; cbn; try done; try (by intros [?|?]).
  - destruct (clients x !! k) as [call|] eqn:Hk; [| done]. by eapply clientInv_client.
  - unfold serverStep, onVerify in Hs. destruct (LANServer.handlers _ !! _) as [h|] eqn:Hc; [| done].
    assert (Hh : forall s i c1, LANServer.handleConn (server x) c h i = Some s -> LANServer.handlers s !! c1 = None ->
      wrote x !! c1 = None).
    { intros s j c1 (h' & -> & _)%handleConn_handlers. rewrite lookup_insert_None. intros [? _]. auto. }
    revert Hs. destruct i as [f| | |]; repeat case_match; intros Hr; try apply fmap_Some in Hr as (s & Hs & ->); simplify_eq;
      apply (clientInv_grows x); cbn; eauto.
  - destruct (LANServer.handlers _ !! _) eqn:Hc; [done |]. injection Hs as <-. apply (clientInv_grows x); cbn; auto.
    + intros c1 [h Hh]. rewrite lookup_insert_ne by congruence. done.
    + intros c1. rewrite lookup_insert_None. intros [? Hne]. rewrite lookup_insert_ne by done. auto.
Qed.

(** *** Connections, step by step *)

Lemma verifiedFor_handlers x x' c h' :
  LANServer.handlers (server x') = <[c := h']> (LANServer.handlers (server x)) ->
  (forall v p, LANServer.handlers (server x) !! c <> Some (LANServer.HVerified v p)) ->
  forall c1 e, verifiedFor x c1 e -> verifiedFor x' c1 e.
Proof.
  intros Hh Hc c1 e (v & p & H1 & He). exists v, p. split; [| done]. rewrite Hh, lookup_insert_ne; [done |].
  intros ->. by apply (Hc v p).
Qed.

(** A connection is opened or its handler moves on; nothing else is read. *)
Lemma connInv_handler x x' c h' :
  connInv x -> LANServer.handlers (server x') = <[c := h']> (LANServer.handlers (server x)) ->
  (forall v p, LANServer.handlers (server x) !! c <> Some (LANServer.HVerified v p)) ->
  (forall v, verifyOf h' = Some v -> exists data, wrote x' !! c = Some data /\ Unmarshal data = Ok v) ->
  (forall c1, c1 <> c -> is_Some (LANServer.handlers (server x) !! c1) -> wrote x' !! c1 = wrote x !! c1) ->
  (forall c1 r, replied x' !! c1 = Some r -> replied x !! c1 = Some r) -> verified x' = verified x -> offers x' = offers x ->
  connInv x'.
Proof.
  intros Hinv Hh Hc Hv Hw Hr Hvd Ho. pose proof (verifiedFor_handlers x x' c h' Hh Hc) as Hver.
  eapply (connInv_ext x); eauto.
  - intros c1 h1 v. rewrite Hh. intros [[-> <-]|[? H1]]%lookup_insert_Some; [auto |].
    rewrite Hw by eauto. by eapply (c_wrote x Hinv).
  - by rewrite Hvd.
  - rewrite Ho. intros o call c1 H1 Hu. destruct (c_upgraded x Hinv o call c1 H1 Hu) as (e & He & Hf). eauto.
Qed.

Lemma connInv_same x x' :
  connInv x -> LANServer.handlers (server x') = LANServer.handlers (server x) ->
  (forall c, is_Some (LANServer.handlers (server x) !! c) -> wrote x !! c = None \/ wrote x' !! c = wrote x !! c) ->
  replied x' = replied x -> (forall e c, verified x' !! e = Some c -> verified x !! e = Some c) ->
  (forall o call c, offers x' !! o = Some call -> upgraded call = Some c ->
     exists e, entry call = Some e /\ (verified x !! e = Some c \/
       exists call0, offers x !! o = Some call0 /\ upgraded call0 = Some c /\ entry call0 = Some e)) ->
  connInv x'.
Proof.
  intros Hinv Hh Hw Hr Hvd Ho. apply (connInv_ext x); auto.
  - intros c e (v & p & H1 & He). exists v, p. by rewrite Hh.
  - intros c h v. rewrite Hh. intros H1 Hv. destruct (c_wrote x Hinv c h v H1 Hv) as (data & Hd & Hm).
    exists data. destruct (Hw c) as [Hn|Hn]; [eauto | congruence |]. by rewrite Hn.
  - by rewrite Hr.
  - intros o call c H1 Hu. destruct (Ho o call c H1 Hu) as (e & He & Hor). eauto.
Qed.

Lemma connInv_offer x o call i x' :
  connInv x -> offers x !! o = Some call -> offerLAN x o call i = Some x' -> connInv x'.
Proof.
  intros Hinv Ho Hs. destruct (offerLAN_frame _ _ _ _ _ Hs) as (_ & Hw & Hr & Hh).
  assert (Hold : forall o1 call1 c, offers x !! o1 = Some call1 -> upgraded call1 = Some c ->
    exists e, entry call1 = Some e /\ (verified x !! e = Some c \/
      exists call0, offers x !! o1 = Some call0 /\ upgraded call0 = Some c /\ entry call0 = Some e)).
  { intros o1 call1 c H1 Hu. destruct (c_upgraded x Hinv o1 call1 c H1 Hu) as (e & He & _).
    exists e. split; [done |]. right. by exists call1. }
  apply (connInv_same x); rewrite ?Hw, ?Hr; auto.
  - clear Hold Hw Hr Hh. revert Hs. unfold offerLAN. destruct (opc call), i; try done; repeat case_match; intros; simplify_eq; try done.
    match goal with Hd : verified _ !! _ = Some _ |- _ => cbn in Hd; rewrite lookup_delete_Some in Hd; naive_solver end.
  - intros o1 call1 c H1 Hu. revert Hs. unfold offerLAN.
    destruct (opc call), i; try done; repeat case_match; intros; simplify_eq; revert H1; cbn;
      intros [[-> <-]|[? H1]]%lookup_insert_Some; try done; try (by eapply Hold); try (by apply (Hold o1 call)).
    cbn in Hu. injection Hu as <-. cbn. eauto.
Qed.

Lemma connInv_client x k call i x' :
  clientInv x -> connInv x -> clients x !! k = Some call -> handleLANOffer x k call i = Some x' -> connInv x'.
Proof.
  intros Hk Hinv Hc Hs. pose proof (k_calls x Hk k call Hc) as Hcall. pose proof (k_unwritten _ _ Hcall) as Hunw.
  assert (Hquiet : LANServer.handlers (server x') = LANServer.handlers (server x) -> wrote x' = wrote x ->
    replied x' = replied x -> verified x' = verified x -> offers x' = offers x -> connInv x').
  { intros Hh Hw Hr Hv Ho. apply (connInv_same x); rewrite ?Hh, ?Hw, ?Hr, ?Hv, ?Ho; auto.
    intros o call0 c H0 Hu. destruct (c_upgraded x Hinv o call0 c H0 Hu) as (e & He & _).
    exists e. split; [done |]. right. by exists call0. }
  unfold handleLANOffer, dialFails in Hs.
  destruct (cpc call) eqn:Hpc, i; try done; revert Hs; repeat case_match; intros; simplify_eq; try (by apply Hquiet).
  - eapply (connInv_handler x); [done | reflexivity | | done | done | done | done | done]. congruence.
  - apply (connInv_same x); cbn; auto.
    + intros c1 [h Hh]. destruct (decide (c1 = n)) as [->|]; [left | right; by rewrite lookup_insert_ne].
      apply Hunw; auto.
    + intros o call0 c H0' Hu. destruct (c_upgraded x Hinv o call0 c H0' Hu) as (e & He & _).
      exists e. split; [done |]. right. by exists call0.
Qed.

Lemma connInv_server x c i x' : connInv x -> serverStep x c i = Some x' -> connInv x'.
Proof.
  intros Hinv Hs. unfold serverStep in Hs.
  destruct (LANServer.handlers (server x) !! c) as [h|] eqn:Hc; [| done].
  assert (Hmove : forall s j, LANServer.handleConn (server x) c h j = Some s ->
    (forall v, j = LANServer.Verify v -> exists data, wrote x !! c = Some data /\ Unmarshal data = Ok v) ->
    connInv (set_server x s)).
  { intros s j (h' & Hh & Hne & Hv & _)%handleConn_handlers Hj.
    eapply (connInv_handler x); [done | exact Hh | | | done | done | done | done].
    - intros v p Hp. apply (Hne v p). congruence.
    - intros v [Hold|Hnew]%Hv; [by eapply (c_wrote x Hinv) | auto]. }
  destruct i as [f| | |].
  - destruct (failing f) eqn:Hf; [| done]. apply fmap_Some in Hs as (s & Hs & ->).
    apply (Hmove s f Hs). intros v ->. done.
  - destruct (wrote x !! c) as [data|] eqn:Hw; [| done]. apply fmap_Some in Hs as (s & Hs & ->).
    apply (Hmove s _ Hs). intros v Hv. exists data. split; [done |]. by destruct (Unmarshal data); simplify_eq.
  - destruct (LANServer.handleConn (server x) c h LANServer.Go) as [s|] eqn:Hh; [| done]. injection Hs as <-.
    pose proof (Hmove s _ Hh ltac:(done)) as Hm. destruct h as [| | |v p| |]; try exact Hm.
    destruct Hm. split; auto. intros c1 r. cbn. intros [[-> <-]|[? H1]]%lookup_insert_Some; [| by apply c_replied0].
    split; [done |]. exists (LANServer.paddr p), v, p. split; [| done]. cbn in Hh. injection Hh as <-. cbn. apply lookup_insert_eq.
  - destruct h as [| | | | |v p]; try done. case_bool_decide; [done |]. injection Hs as <-. unfold onVerify.
    cbn. destruct (verified x !! LANServer.paddr p) eqn:Hv; [by destruct Hinv; split |].
    destruct Hinv. split; auto. cbn. intros e c1 [[<- <-]|[? H1]]%lookup_insert_Some; [| by apply c_channel0].
    exists v, p. done.
Qed.

Lemma connInv_step x e x' : clientInv x -> connInv x -> step x e = Some x' -> connInv x'.
Proof.
  intros Hk Hinv Hs.
  assert (Hold : forall y o1 call1 c, offers y = offers x -> offers y !! o1 = Some call1 -> upgraded call1 = Some c ->
    exists e, entry call1 = Some e /\ (verified x !! e = Some c \/
      exists call0, offers x !! o1 = Some call0 /\ upgraded call0 = Some c /\ entry call0 = Some e)).
  { intros y o1 call1 c -> H1 Hu. destruct (c_upgraded x Hinv o1 call1 c H1 Hu) as (e0 & He & _).
    exists e0. split; [done |]. right. by exists call1. }
  destruct e as [o lan peer|o i|k o me|k i|c i|c data]; cbn [step] in Hs.
  - destruct (offers x !! o); [done |]. injection Hs as <-. apply (connInv_same x); cbn; auto.
    intros o1 call1 c [[-> <-]|[? H1]]%lookup_insert_Some; [done | by apply (Hold x)].
  - destruct (offers x !! o) as [call|] eqn:Ho; [| done]. by eapply connInv_offer.
  - destruct (clients x !! k); [done |]. injection Hs as <-. apply (connInv_same x); cbn; auto.
    intros o1 call1 c H1. by apply (Hold x).
  - destruct (clients x !! k) as [call|] eqn:Hc; [| done]. by eapply connInv_client.
  - by eapply connInv_server.
  - destruct (LANServer.handlers (server x) !! c) eqn:Hc; [done |]. injection Hs as <-.
    eapply (connInv_handler x); [done | reflexivity | | done | | done | done | done]; [congruence |].
    intros c1 Hne _. cbn. by rewrite lookup_insert_ne.
Qed.

Definition inv (x : exchange) : Prop := backendInv x /\ hasEntry x /\ clientInv x /\ connInv x.

Lemma inv_init : inv noExchange.
Proof.
  split_and!; [split | | split | split]; cbn; try done; try (intros *; rewrite lookup_empty; done).
  - apply LANServer.init_inv.
  - by intros id p ?%elem_of_nil.
Qed.

Lemma exchange_run_inv es : forall x x', inv x -> run x es = Some x' -> inv x'.
Proof.
  induction es as [|e es IH]; intros x x' (Hb & He & Hk & Hc); cbn [run]; [by intros [= <-] |].
  destruct (step x e) as [x1|] eqn:Hs; [| done]. apply IH. split_and!;
    eauto using backendInv_step, hasEntry_step, clientInv_step, connInv_step.
Qed.

(** *** Who is at the other end *)

(** A verified connection named the peer of the call whose entry it used and
    presented that call's challenge. *)
Lemma verified_call x c v p :
  inv x -> LANServer.handlers (server x) !! c = Some (LANServer.HVerified v p) ->
  exists o ocall, offers x !! o = Some ocall /\ entry ocall = Some (LANServer.paddr p) /\
    LANServer.Challenge v = challenge ocall /\ LANServer.InstanceID v = peerID ocall.
Proof.
  intros (Hb & _) Hc. destruct (LANServer.i_id _ (b_server x Hb) _ _ Hc) as [Hr Ha].
  destruct (b_registered x Hb _ _ Hr) as (o & ocall & Ho & He & Hch & Hp). exists o, ocall.
  unfold LANServer.accepted in Ha. rewrite Ha, Hch, Hp. done.
Qed.

(** The connection a backend installs was verified for its own entry. *)
Lemma upgraded_call x o ocall c :
  inv x -> offers x !! o = Some ocall -> upgraded ocall = Some c ->
  exists v p, LANServer.handlers (server x) !! c = Some (LANServer.HVerified v p) /\
    entry ocall = Some (LANServer.paddr p) /\ LANServer.Challenge v = challenge ocall /\
    LANServer.InstanceID v = peerID ocall.
Proof.
  intros Hinv Ho Hu. pose proof Hinv as (Hb & _ & _ & Hc).
  destruct (c_upgraded x Hc o ocall c Ho Hu) as (e & He & v & p & Hv & Hp).
  destruct (verified_call x c v p Hinv Hv) as (o' & ocall' & Ho' & He' & Hch & Hid).
  assert (o' = o) as -> by (eapply (b_distinct x Hb); eauto; congruence).
  assert (ocall' = ocall) as -> by congruence. exists v, p. by split_and!.
Qed.

Context `{!JSONLaws lanOffer utf8_offer} `{!JSONLaws LANServer.lanVerify utf8_verify}.

(** The client takes up every offer of a server [NewLANServer] made. *)
Lemma offer_is_read bs ch Sum256 selfSigned ListenAddr LanIP listen tlsConfig ls :
  NewLANServer Sum256 selfSigned ListenAddr LanIP listen tlsConfig = Ok ls -> addr = ls_addr ls ->
  utf8_string addr = true -> length ch = 32%nat ->
  Marshal {| Addr := addr; Challenge := ch; CertHash := certHash |} = Ok bs ->
  readOffer bs = Some {| Addr := addr; Challenge := ch; CertHash := certHash |}.
Proof.
  intros Hnew Haddr Hutf Hlen Hm. apply NewLANServer_addr in Hnew. rewrite <-Haddr in Hnew.
  destruct (json_roundtrip (valid := utf8_offer) {| Addr := addr; Challenge := ch; CertHash := certHash |} Hutf) as (bs' & H1 & H2).
  assert (bs' = bs) as -> by congruence. unfold readOffer. rewrite H2. cbn.
  rewrite bool_decide_false by done. cbn. rewrite bool_decide_false; [done |]. by intros ->.
Qed.

(** What a client presents on its connection: its id and its backend's challenge. *)
Lemma dialled_verify x k call c h v :
  inv x -> utf8_string addr = true -> utf8_string (localID call) = true ->
  clients x !! k = Some call -> dialled call = Some c ->
  LANServer.handlers (server x) !! c = Some h -> verifyOf h = Some v ->
  LANServer.InstanceID v = localID call /\
  exists ocall, offers x !! backend call = Some ocall /\ is_Some (entry ocall) /\ LANServer.Challenge v = challenge ocall.
Proof.
  intros (Hb & _ & Hk & Hc) Haddr Hid Hcl Hd Hh Hv. pose proof (k_calls x Hk k call Hcl) as Hcall.
  destruct (k_dialled _ _ Hcall c Hd) as [_ [offer Ho]].
  destruct (k_offered _ _ Hcall offer Ho) as (ocall & bs & Hoc & He & Hm & Hr).
  destruct (c_wrote x Hc c h v Hh Hv) as (data & Hw & Hu).
  pose proof (k_wrote _ _ Hcall c data offer Hd Ho Hw) as Hm'.
  destruct (json_roundtrip (valid := utf8_verify)
    {| LANServer.Challenge := Challenge offer; LANServer.InstanceID := localID call |} Hid) as (data' & H1 & H2).
  destruct (json_roundtrip (valid := utf8_offer)
    {| Addr := addr; Challenge := challenge ocall; CertHash := certHash |} Haddr) as (bs' & H3 & H4).
  assert (data' = data) as -> by congruence. assert (bs' = bs) as -> by congruence.
  rewrite H2 in Hu. injection Hu as <-. split; [done |]. exists ocall. split_and!; [done | done |].
  unfold readOffer in Hr. rewrite H4 in Hr. cbn in *. destruct (_ || _); [done |]. by injection Hr as <-.
Qed.

(** C12. A LAN upgrade joins the two ends of one session.  However backend
    calls, clients, the LAN server and strangers interleave, with challenges
    that do not repeat: a client that moves to a connection was confirmed on
    it with the challenge of its own backend's call, which waits for this
    client and, if it moves at all, moves to the same connection; a backend
    that moves to a connection was presented its own challenge there in its
    peer's name, by its own client if a client dialled it; and a client that
    gives up after dialling has closed its connection. *)
Theorem lan_upgrade_agrees (es : list event) (x : exchange) :
  run noExchange es = Some x -> utf8_string addr = true ->
  (forall k call, clients x !! k = Some call -> utf8_string (localID call) = true) ->
  (forall o1 o2 call1 call2, offers x !! o1 = Some call1 -> offers x !! o2 = Some call2 ->
     is_Some (entry call1) -> is_Some (entry call2) -> challenge call1 = challenge call2 -> o1 = o2) ->
  (forall k call c, clients x !! k = Some call -> swapped call = true -> dialled call = Some c ->
     exists ocall v p, offers x !! backend call = Some ocall /\ peerID ocall = localID call /\
       LANServer.handlers (server x) !! c = Some (LANServer.HVerified v p) /\ entry ocall = Some (LANServer.paddr p) /\
       forall c', upgraded ocall = Some c' -> c' = c) /\
  (forall o ocall c, offers x !! o = Some ocall -> upgraded ocall = Some c ->
     (exists v p, LANServer.handlers (server x) !! c = Some (LANServer.HVerified v p) /\
        LANServer.InstanceID v = peerID ocall /\ LANServer.Challenge v = challenge ocall) /\
     forall k call, clients x !! k = Some call -> dialled call = Some c -> backend call = o /\ localID call = peerID ocall) /\
  (forall k call c, clients x !! k = Some call -> cpc call = CReturned -> swapped call = false ->
     dialled call = Some c -> c ∈ shut x).
Proof.
  intros Hrun Haddr Hids Hfresh. pose proof (exchange_run_inv es _ _ inv_init Hrun) as Hinv.
  pose proof Hinv as (Hb & _ & Hk & Hc). split_and!.
  - intros k call c Hcl Hsw Hd. destruct (k_swapped _ _ (k_calls x Hk k call Hcl) Hsw) as (c0 & Hd0 & [r Hr]).
    assert (c0 = c) as -> by congruence. destruct (c_replied x Hc c r Hr) as (_ & e & v & p & Hv & _).
    destruct (dialled_verify x k call c _ v Hinv Haddr (Hids k call Hcl) Hcl Hd Hv eq_refl) as (Hid & ocall & Ho & He & Hch).
    destruct (verified_call x c v p Hinv Hv) as (o' & ocall' & Ho' & He' & Hch' & Hid').
    assert (o' = backend call) as -> by (eapply Hfresh; eauto; congruence).
    assert (ocall' = ocall) as -> by congruence. exists ocall, v, p. split_and!; try congruence.
    intros c' Hu. destruct (upgraded_call x _ ocall c' Hinv Ho Hu) as (v1 & p1 & Hv1 & He1 & _).
    eapply (LANServer.i_once _ (b_server x Hb) c' c _ _ p); eauto. cbn. f_equal.
    destruct (LANServer.i_id _ (b_server x Hb) _ _ Hv1) as [Hr1 _].
    destruct (LANServer.i_id _ (b_server x Hb) _ _ Hv) as [Hr2 _].
    eapply (LANServer.i_unique _ (b_server x Hb)); [exact Hr1 | exact Hr2 | congruence].
  - intros o ocall c Ho Hu. destruct (upgraded_call x o ocall c Hinv Ho Hu) as (v & p & Hv & He & Hch & Hid).
    split; [eauto |]. intros k call Hcl Hd.
    destruct (dialled_verify x k call c _ v Hinv Haddr (Hids k call Hcl) Hcl Hd Hv eq_refl) as (Hid' & ocall' & Ho' & He' & Hch').
    split; [| congruence]. eapply Hfresh; eauto. congruence.
  - intros k call c Hcl. apply (k_failed _ _ (k_calls x Hk k call Hcl)).
Qed.
End Exchange.

(** ** Concrete runs *)

Definition offerCodec : JSON lanOffer := {|
  Marshal o := Ok (mark (str_bytes (Addr o)) ++ mark (Challenge o) ++ mark (CertHash o));
  Unmarshal bs :=
    let '(a, bs) := unmark bs in let '(c, bs) := unmark bs in let '(h, _) := unmark bs in
    Ok {| Addr := bytes_str a; Challenge := c; CertHash := h |}
|}.
Definition verifyCodec : JSON LANServer.lanVerify := {|
  Marshal v := Ok (mark (LANServer.Challenge v) ++ mark (str_bytes (LANServer.InstanceID v)));
  Unmarshal bs :=
    let '(c, bs) := unmark bs in let '(i, _) := unmark bs in
    Ok {| LANServer.Challenge := c; LANServer.InstanceID := bytes_str i |}
|}.

Lemma offerCodec_laws : JSONLaws lanOffer utf8_offer (J := offerCodec).
Proof.
  constructor. intros [a c h] _. eexists. split; [reflexivity |]. cbn [Unmarshal offerCodec Addr Challenge CertHash].
  rewrite !unmark_mark. rewrite <-(app_nil_r (mark h)), unmark_mark, bytes_str_bytes. done.
Qed.

Lemma verifyCodec_laws : JSONLaws LANServer.lanVerify utf8_verify (J := verifyCodec).
Proof.
  constructor. intros [c i] _. eexists. split; [reflexivity |]. cbn [Unmarshal verifyCodec LANServer.Challenge LANServer.InstanceID].
  rewrite unmark_mark. rewrite <-(app_nil_r (mark (str_bytes i))), unmark_mark, bytes_str_bytes. done.
Qed.

Definition lanAddr : string := "192.168.1.7:4433".
Definition exchangeRun : list event -> option exchange :=
  run (offerJSON := offerCodec) (verifyJSON := verifyCodec) lanAddr [] noExchange.
Definition exchangeAfter (es : list event) : exchange := default noExchange (exchangeRun es).

(** A backend of the client "phone" offers with a challenge. *)
Definition offering (o : nat) (b : byte) : list event :=
  [Offer o true "phone"; OfferStep o (RandReads (replicate 32 b)); OfferStep o Proceed; OfferStep o Proceed; OfferStep o Proceed].
(** Its client dials connection [c] and writes its verify message; the server reads it. *)
Definition dialling (k o c : nat) : list event :=
  [Client k o "phone"; ClientStep k Arrives; ClientStep k (Dials c); ClientStep k Goes; ClientStep k Goes; Server c SRead].
Definition confirming (k c : nat) : list event := [Server c SGo; Server c SGo; Server c SGo; ClientStep k Goes].

Definition upgradeRun : list event :=
  offering 0 x07 ++ dialling 0 0 5 ++ confirming 0 5 ++ [Server 5 SCallback; OfferStep 0 Proceed; OfferStep 0 Proceed].

Definition swappedClient (o c : nat) (b : byte) : clientCall :=
  {| backend := o; localID := "phone";
     offered := Some {| Addr := lanAddr; Challenge := replicate 32 b; CertHash := [] |};
     dialled := Some c; cpc := CReturned; swapped := true |}.
Definition finishedOffer (b : byte) (e : nat) (c : option nat) : offerCall :=
  {| peerID := "phone"; challenge := replicate 32 b; entry := Some e; opc := PReturned; upgraded := c |}.

(** Maps with the one key a run uses. *)
Lemma upgradeRun_after :
  exchangeRun upgradeRun = Some (exchangeAfter upgradeRun) /\
  clients (exchangeAfter upgradeRun) = {[0%nat := swappedClient 0 5 x07]} /\
  offers (exchangeAfter upgradeRun) = {[0%nat := finishedOffer x07 0 (Some 5%nat)]}.
Proof. split_and!; vm_compute; reflexivity. Qed.

Lemma lan_upgrade_agrees_witness :
  exists ocall v p, offers (exchangeAfter upgradeRun) !! 0%nat = Some ocall /\ peerID ocall = "phone"%string /\
    LANServer.handlers (server (exchangeAfter upgradeRun)) !! 5%nat = Some (LANServer.HVerified v p) /\
    entry ocall = Some (LANServer.paddr p) /\ forall c', upgraded ocall = Some c' -> c' = 5%nat.
Proof.
  destruct upgradeRun_after as (Hrun & Hk & Ho).
  eapply (lan_upgrade_agrees (offerJSON := offerCodec) (verifyJSON := verifyCodec) (JSONLaws0 := offerCodec_laws)
    (JSONLaws1 := verifyCodec_laws) lanAddr [] upgradeRun (exchangeAfter upgradeRun))
    with (k := 0%nat) (call := swappedClient 0 5 x07) (c := 5%nat); [exact Hrun | reflexivity | | | | reflexivity | reflexivity].
  - rewrite Hk. intros k call [<- <-]%lookup_singleton_Some. reflexivity.
  - rewrite Ho. intros o1 o2 call1 call2 [<- _]%lookup_singleton_Some [<- _]%lookup_singleton_Some. done.
  - rewrite Hk. apply lookup_singleton_eq.
Defined.

(** The answer reaches the client as the backend's wait ends: the callback
    fills a channel nobody reads any more. *)
Definition splitRun : list event :=
  offering 0 x07 ++ dialling 0 0 5 ++ confirming 0 5 ++ [OfferStep 0 TimesOut; OfferStep 0 Proceed; Server 5 SCallback].

(** An upgrade can split a session: the server confirms a connection and
    the client moves to it, but the backend's wait has just timed out; the
    backend stays on the relay for good, the client has left it, and the
    confirmed connection stays open in a channel nobody reads. *)
Theorem late_upgrade_splits_session :
  exists es x call ocall c e, exchangeRun es = Some x /\
    clients x !! 0%nat = Some call /\ swapped call = true /\ dialled call = Some c /\
    offers x !! backend call = Some ocall /\ opc ocall = PReturned /\ upgraded ocall = None /\
    (exists v p, LANServer.handlers (server x) !! c = Some (LANServer.HVerified v p)) /\
    verified x !! e = Some c /\ entry ocall = Some e /\ c ∉ shut x /\ c ∈ notified x.
Proof.
  exists splitRun, (exchangeAfter splitRun), (swappedClient 0 5 x07), (finishedOffer x07 0 None), 5%nat, 0%nat.
  split_and!; try (vm_compute; reflexivity).
  - eexists _, _. vm_compute. reflexivity.
  - eapply bool_decide_unpack. vm_compute. exact I.
Qed.

(** Two sessions of one client: the first call's deferred
    [UnregisterPending] runs after the second call has registered. *)
Definition displacedRun : list event :=
  [Offer 0 true "phone"; OfferStep 0 (RandReads (replicate 32 x01)); OfferStep 0 Proceed] ++ offering 1 x02 ++
  [OfferStep 0 Fails; OfferStep 0 Proceed] ++ dialling 1 1 6 ++ [Server 6 SGo; Server 6 SGo].

(** The deferred unregistration of an older call removes the entry of the
    newer one, because it goes by the client's id: the newer call is still
    waiting, its client presents the right challenge, and is refused. *)
Theorem unregister_displaces_newer_offer :
  exists es x ocall, exchangeRun es = Some x /\ offers x !! 1%nat = Some ocall /\ opc ocall = PWait /\
    (exists call offer, clients x !! 1%nat = Some call /\ backend call = 1%nat /\ localID call = peerID ocall /\
       offered call = Some offer /\ Challenge offer = challenge ocall /\ dialled call = Some 6%nat) /\
    LANServer.handlers (server x) !! 6%nat = Some (LANServer.HClosed "unknown instance").
Proof.
  exists displacedRun, (exchangeAfter displacedRun),
    {| peerID := "phone"; challenge := replicate 32 x02; entry := Some 1%nat; opc := PWait; upgraded := None |}.
  split_and!; try (vm_compute; reflexivity).
  eexists _, _. split_and!; vm_compute; reflexivity.
Qed.
