(* ===== verification/Backchannel.v ===== *)
(** * Backchannel: the local CLI-to-daemon pairing socket (backchannel/)

    [AppName] and [SocketPath] (path.go), the JSON frames (wire.go), the
    dispatch loop that feeds a CLI's messages to the pairing executor
    (dispatch.go, session.go), and the daemon's socket: [Listen],
    [clearStaleSocket], [Close] as sequences of system calls on a file system
    shared by all daemons of a host, and [Accept] (server.go, umask_unix.go).

    [json.Marshal] and [json.Unmarshal] of a [Message] are the operations of
    the class [JSON] of [Text]: the dispatch theorems hold for every codec, the
    round trip for one that reads back what it writes.  Failures of system calls are
    inputs of the operations that make them. *)

From Stdlib Require Import ZArith Lia Strings.Byte Strings.String Strings.Ascii.
From stdpp Require Import base gmap sets strings list fin_maps.
From S2P Require Import Prelude Binary Text Wire.

Open Scope Z_scope.

(** ** Application names and socket paths (path.go) *)

Definition allowedRune (r : Z) : bool :=
  (0x61 <=? r) && (r <=? 0x7A) || (0x30 <=? r) && (r <=? 0x39) ||
  (r =? 0x2E) || (r =? 0x5F) || (r =? 0x2D).

Definition validateAppName (appName : string) : option error :=
  if bool_decide (appName = EmptyString) then Some (ENew "backchannel: AppName is required") else
  match find (fun r => negb (allowedRune r)) (runes (length (str_bytes appName)) (str_bytes appName)) with
  | Some r =>
      Some (EFmt "backchannel: AppName %q contains disallowed character %q (allow a-z 0-9 . _ -)"
                 [AStr appName; AInt r])
  | None =>
      if String.prefix "." appName
      then Some (EFmt "backchannel: AppName %q must not start with ." [AStr appName]) else None
  end.

(** *** [path/filepath] on Unix *)

(** Split at every '/'. *)
Fixpoint split_slash (s : bytes) : list bytes :=
  match s with
  | [] => [[]]
  | b :: s =>
      if bool_decide (b = x2f) then [] :: split_slash s
      else match split_slash s with
           | c :: cs => (b :: c) :: cs
           | [] => [[b]]
           end
  end.

Fixpoint join_slash (cs : list bytes) : bytes :=
  match cs with
  | [] => []
  | [c] => c
  | c :: cs => c ++ x2f :: join_slash cs
  end.

(** One component onto the cleaned ones (last first): "" and "." vanish,
    ".." removes the component before it, and at the root vanishes. *)
Definition clean_step (rooted : bool) (acc : list bytes) (c : bytes) : list bytes :=
  if bool_decide (c = []) || bool_decide (c = str_bytes ".") then acc
  else if bool_decide (c = str_bytes "..") then
    match acc with
    | [] => if rooted then [] else [c]
    | p :: acc' => if bool_decide (p = str_bytes "..") then c :: acc else acc'
    end
  else c :: acc.

Definition rooted (s : bytes) : bool :=
  match s with b :: _ => bool_decide (b = x2f) | [] => false end.

Definition components (s : bytes) : list bytes :=
  rev (fold_left (clean_step (rooted s)) (split_slash s) []).

(** [filepath.Clean] *)
Definition Clean (s : bytes) : bytes :=
  let body := join_slash (components s) in
  if rooted s then x2f :: body else if bool_decide (body = []) then str_bytes "." else body.

(** [filepath.Join]: the non-empty elements joined, then cleaned. *)
Definition Join (elems : list bytes) : bytes :=
  match filter (fun e => e <> []) elems with
  | [] => []
  | es => Clean (join_slash es)
  end.

(** [filepath.Dir]: what precedes the last '/', that '/' included, cleaned. *)
Definition Dir (s : bytes) : bytes :=
  Clean (match split_slash s with
         | [] | [_] => []
         | cs => join_slash (removelast cs) ++ [x2f]
         end).

(** What the code reads from the host. *)
Record Host := {
  GOOS : string;
  UserHomeDir : result bytes;
  Getenv_XDG_RUNTIME_DIR : bytes;
  TempDir : bytes;
  Getuid : Z
}.

(** Decimal digits of a non-negative integer, [fmt.Sprintf("%d")]. *)
Fixpoint digits (fuel : nat) (z : Z) : bytes :=
  match fuel with
  | O => []
  | S fuel => (if z <? 10 then [] else digits fuel (z / 10)) ++ [z2b (0x30 + z mod 10)]
  end.

Definition itoa (z : Z) : bytes :=
  if z <? 0 then x2d :: digits 20 (- z) else digits 20 z.

Definition socketDir (h : Host) : result bytes :=
  if bool_decide (GOOS h = "darwin"%string) then
    let! home := rwrap "backchannel: locate $HOME: %w" [] (UserHomeDir h) in
    Ok (Join [home; str_bytes "Library"; str_bytes "Application Support"; str_bytes "pigeon"])
  else if bool_decide (GOOS h = "linux"%string) then
    if bool_decide (Getenv_XDG_RUNTIME_DIR h <> [])
    then Ok (Join [Getenv_XDG_RUNTIME_DIR h; str_bytes "pigeon"])
    else Ok (Join [TempDir h; str_bytes "pigeon-" ++ itoa (Getuid h)])
  else Err (EFmt "backchannel: GOOS %q not supported (Windows tracked separately)" [AStr (GOOS h)]).

Definition SocketPath (h : Host) (appName : string) : result bytes :=
  match validateAppName appName with
  | Some err => Err err
  | None => let! dir := socketDir h in Ok (Join [dir; str_bytes appName ++ str_bytes ".sock"])
  end.

(** *** Lemmas: cleaned paths *)

Definition dot : bytes := str_bytes ".".
Definition dotdot : bytes := str_bytes "..".

(** A component that [Clean] keeps as it is. *)
Definition plain (c : bytes) : Prop := c <> [] /\ c <> dot /\ c <> dotdot /\ x2f ∉ c.

(** What [Clean] leaves: some ".." (none after a root), then plain components. *)
Definition normal (r : bool) (cs : list bytes) : Prop :=
  exists n ps, cs = replicate n dotdot ++ ps /\ Forall plain ps /\ (r = true -> n = 0%nat).

Lemma split_slash_ne s : split_slash s <> [].
Proof. destruct s; simpl; [done |]. case_bool_decide; [done |]. by destruct (split_slash s). Qed.

Lemma split_slash_app x y : split_slash (x ++ x2f :: y) = split_slash x ++ split_slash y.
Proof.
  induction x as [|b x IH]; simpl; [done |]. case_bool_decide; [by rewrite IH |].
  rewrite IH. pose proof (split_slash_ne x). by destruct (split_slash x).
Qed.

Lemma split_slash_plain c : x2f ∉ c -> split_slash c = [c].
Proof.
  induction c as [|b c IH]; intros Hc; [done |]. apply not_elem_of_cons in Hc as [Hb Hc]. simpl.
  rewrite bool_decide_eq_false_2 by done. by rewrite IH.
Qed.

Lemma split_slash_no_slash s : Forall (fun c => x2f ∉ c) (split_slash s).
Proof.
  induction s as [|b s IH]; simpl; [repeat constructor; apply not_elem_of_nil |].
  case_bool_decide as Hb; [constructor; [apply not_elem_of_nil | done] |].
  pose proof (split_slash_ne s). destruct (split_slash s) as [|c cs]; [done |].
  apply Forall_cons in IH as [Hc Hcs]. constructor; [by apply not_elem_of_cons | done].
Qed.

Lemma split_join cs : cs <> [] -> Forall (fun c => x2f ∉ c) cs -> split_slash (join_slash cs) = cs.
Proof.
  induction cs as [|c cs IH]; [done |]. intros _ [Hc Hcs]%Forall_cons.
  destruct cs as [|c' cs]; [by apply split_slash_plain |].
  change (join_slash (c :: c' :: cs)) with (c ++ x2f :: join_slash (c' :: cs)).
  by rewrite split_slash_app, split_slash_plain, IH.
Qed.

Lemma clean_step_plain r acc c : plain c -> clean_step r acc c = c :: acc.
Proof.
  intros (H1 & H2 & H3 & _). unfold clean_step, dot, dotdot in *.
  by rewrite !bool_decide_eq_false_2.
Qed.

Lemma clean_fold_plain r ps acc : Forall plain ps -> fold_left (clean_step r) ps acc = rev ps ++ acc.
Proof.
  intros Hps. revert acc. induction Hps as [|c ps Hc _ IH]; intros acc; simpl; [done |].
  by rewrite clean_step_plain, IH, <-app_assoc.
Qed.

Lemma clean_fold_dotdot n : fold_left (clean_step false) (replicate n dotdot) [] = replicate n dotdot.
Proof.
  cut (forall m, fold_left (clean_step false) (replicate n dotdot) (replicate m dotdot) =
                 replicate (m + n) dotdot). { intros H. apply (H 0%nat). }
  induction n as [|n IH]; intros m; simpl; [by rewrite Nat.add_0_r |].
  assert (clean_step false (replicate m dotdot) dotdot = replicate (S m) dotdot) as ->.
  { by destruct m. }
  rewrite IH. f_equal. lia.
Qed.

Lemma rev_replicate' {A} n (x : A) : rev (replicate n x) = replicate n x.
Proof. rewrite rev_alt. apply reverse_replicate. Qed.

Lemma normal_fold r cs : normal r cs -> fold_left (clean_step r) cs [] = rev cs.
Proof.
  intros (n & ps & -> & Hps & Hr). rewrite fold_left_app, rev_app_distr, clean_fold_plain by done.
  f_equal. rewrite rev_replicate'. destruct r; [by rewrite Hr | apply clean_fold_dotdot].
Qed.

Lemma clean_step_normal r acc c :
  normal r (rev acc) -> x2f ∉ c -> normal r (rev (clean_step r acc c)).
Proof.
  intros (n & ps & Hacc & Hps & Hr) Hc. unfold clean_step.
  destruct (bool_decide (c = [])) eqn:E1; [by exists n, ps |].
  destruct (bool_decide (c = str_bytes ".")) eqn:E2; [by exists n, ps |]. simpl.
  destruct (bool_decide (c = str_bytes "..")) eqn:E3; bool_hyps.
  - subst c. destruct (decide (ps = [])) as [-> | Hne].
    + rewrite app_nil_r in Hacc. apply (f_equal (rev (A := bytes))) in Hacc.
      rewrite rev_involutive, rev_replicate' in Hacc. subst acc. destruct n as [|n]; simpl.
      * destruct r; [by exists 0%nat, [] | by exists 1%nat, []].
      * destruct r; [specialize (Hr eq_refl); done |].
        exists (S (S n)), []. rewrite app_nil_r. split_and!; [| done | done].
        change (rev (replicate (S (S n)) dotdot) = replicate (S (S n)) dotdot). apply rev_replicate'.
    + destruct (exists_last Hne) as (ps' & p & ->). rewrite Forall_app, Forall_singleton in Hps.
      destruct Hps as [Hps' (_ & _ & Hp & _)]. rewrite app_assoc in Hacc.
      apply (f_equal (rev (A := bytes))) in Hacc. rewrite rev_involutive, rev_unit in Hacc. subst acc.
      rewrite bool_decide_eq_false_2 by done. exists n, ps'. by rewrite rev_involutive.
  - exists n, (ps ++ [c]). simpl. rewrite Hacc, <-app_assoc. split_and!; [done | | done].
    apply Forall_app. split; [done |]. apply Forall_singleton. by split_and!.
Qed.

Lemma components_normal s : normal (rooted s) (components s).
Proof.
  unfold components. generalize (rooted s) as r. intros r.
  pose proof (split_slash_no_slash s) as Hs. revert Hs. generalize (split_slash s) as cs.
  cut (forall cs acc, Forall (fun c => x2f ∉ c) cs -> normal r (rev acc) ->
         normal r (rev (fold_left (clean_step r) cs acc))).
  { intros H cs Hcs. apply H; [done |]. by exists 0%nat, []. }
  induction cs as [|c cs IH]; intros acc Hcs Hacc; simpl; [done |].
  apply Forall_cons in Hcs as [Hc Hcs]. apply IH; [done |]. by apply clean_step_normal.
Qed.

Lemma normal_no_slash r cs : normal r cs -> Forall (fun c => (x2f ∉ c) /\ c <> []) cs.
Proof.
  intros (n & ps & -> & Hps & _). apply Forall_app. split.
  - apply Forall_replicate. split; [| done]. by apply (bool_decide_unpack _).
  - eapply Forall_impl; [exact Hps |]. intros c (? & _ & _ & ?). done.
Qed.

Lemma join_slash_nil cs : Forall (fun c => (x2f ∉ c) /\ c <> []) cs -> join_slash cs = [] -> cs = [].
Proof.
  destruct cs as [|c cs]; [done |]. intros [[_ Hc] _]%Forall_cons. destruct cs; [done |].
  intros H. apply app_nil in H as [? ?]. done.
Qed.

Lemma rooted_join cs : Forall (fun c => (x2f ∉ c) /\ c <> []) cs -> rooted (join_slash cs) = false.
Proof.
  destruct cs as [|c cs]; [done |]. intros [[Hs Hc] _]%Forall_cons.
  destruct c as [|b c]; [done |]. apply not_elem_of_cons in Hs as [Hb _].
  destruct cs; simpl; by apply bool_decide_eq_false_2.
Qed.

Lemma rooted_Clean s : rooted (Clean s) = rooted s.
Proof.
  unfold Clean. pose proof (normal_no_slash _ _ (components_normal s)) as Hn.
  destruct (rooted s) eqn:Hr; [by apply bool_decide_eq_true_2 |].
  case_bool_decide; [done |]. by apply rooted_join.
Qed.

(** [Clean] is idempotent, on the components. *)
Lemma components_Clean s : components (Clean s) = components s.
Proof.
  unfold components at 1. rewrite rooted_Clean.
  pose proof (components_normal s) as Hn. pose proof (normal_no_slash _ _ Hn) as Hs.
  assert (Forall (fun c => x2f ∉ c) (components s)) as Hs' by (eapply Forall_impl; [exact Hs | by intros ? [? ?]]).
  assert (fold_left (clean_step (rooted s)) (split_slash (join_slash (components s))) [] =
          rev (components s)) as Hfold.
  { destruct (decide (components s = [])) as [-> | Hne]; [done |].
    rewrite split_join by done. by apply normal_fold. }
  unfold Clean. destruct (rooted s) eqn:Hr.
  - cbn [split_slash]. rewrite bool_decide_eq_true_2 by done. cbn [fold_left].
    change (clean_step true [] []) with (@nil bytes). by rewrite Hfold, rev_involutive.
  - case_bool_decide as Hb; [| by rewrite Hfold, rev_involutive].
    apply join_slash_nil in Hb; [| done]. by rewrite Hb.
Qed.

Lemma components_snoc x c : x <> [] -> plain c -> components (x ++ x2f :: c) = components x ++ [c].
Proof.
  intros Hx Hc. unfold components. rewrite split_slash_app, fold_left_app.
  assert (rooted (x ++ x2f :: c) = rooted x) as -> by (by destruct x).
  rewrite (split_slash_plain c) by apply Hc. simpl. by rewrite clean_step_plain.
Qed.

Lemma join_snoc cs c : cs <> [] -> join_slash (cs ++ [c]) = join_slash cs ++ x2f :: c.
Proof.
  induction cs as [|d cs IH]; [done |]. intros _. destruct cs as [|e cs]; [done |].
  change (join_slash ((d :: e :: cs) ++ [c])) with (d ++ x2f :: join_slash ((e :: cs) ++ [c])).
  rewrite IH by done. change (join_slash (d :: e :: cs)) with (d ++ x2f :: join_slash (e :: cs)).
  by rewrite <-app_assoc.
Qed.

(** *** Lemmas: application names *)

Definition allowedByte (b : byte) : bool := allowedRune (b2z b).

Lemma allowedRune_ascii r : allowedRune r = true -> 0 <= r < 0x80.
Proof. unfold allowedRune. intros H. lia. Qed.

Lemma runes_allowed n : forall s, (length s <= n)%nat ->
  find (fun r => negb (allowedRune r)) (runes n s) = None <-> Forall (fun b => allowedByte b = true) s.
Proof.
  induction n as [|n IH]; intros s Hn; destruct s as [|b s]; simpl in Hn; try lia; try done.
  cbn [runes]. destruct (Z.ltb_spec (b2z b) 0x80) as [Hb|Hb].
  - rewrite decodeRune_ascii by done. cbn [find drop]. rewrite Forall_cons. fold (allowedByte b).
    destruct (allowedByte b) eqn:Ha; cbn [negb].
    + rewrite drop_0, IH by lia. naive_solver.
    + split; [done | by intros [? _]].
  - pose proof (decodeRune_high b s Hb) as Hr. destruct (decodeRune (b :: s)) as [r w]. cbn [fst find] in *.
    destruct (allowedRune r) eqn:Ha; [apply allowedRune_ascii in Ha; lia |]. cbn [negb].
    split; [done |]. rewrite Forall_cons. intros [Ha' _].
    unfold allowedByte in Ha'. apply allowedRune_ascii in Ha'. lia.
Qed.

Lemma validateAppName_spec app :
  validateAppName app = None <->
  app <> EmptyString /\ Forall (fun b => allowedByte b = true) (str_bytes app) /\
  String.prefix "." app = false.
Proof.
  unfold validateAppName. case_bool_decide as He; [naive_solver |].
  rewrite <-(runes_allowed (length (str_bytes app))) by done.
  destruct (find _ _); [naive_solver |]. destruct (String.prefix "." app); naive_solver.
Qed.

Lemma allowed_no_slash bs : Forall (fun b => allowedByte b = true) bs -> x2f ∉ bs.
Proof. intros H Hin. rewrite Forall_forall in H. by apply H in Hin. Qed.

Lemma app_name_plain app : validateAppName app = None -> plain (str_bytes app ++ str_bytes ".sock").
Proof.
  intros (He & Ha & _)%validateAppName_spec. unfold plain, dot, dotdot. split_and!.
  - intros [_ H]%app_nil. done.
  - intros H%(f_equal length). rewrite length_app in H. simpl in H. lia.
  - intros H%(f_equal length). rewrite length_app in H. simpl in H. lia.
  - apply not_elem_of_app. split; [by apply allowed_no_slash |]. by apply (bool_decide_unpack _).
Qed.

(** A directory [Join] made of at least one component, the last one plain. *)
Definition pigeonDir (d : bytes) : Prop :=
  Clean d = d /\ d <> [] /\ components d <> [].

Lemma Clean_idem s : Clean (Clean s) = Clean s.
Proof. unfold Clean at 1. rewrite components_Clean, rooted_Clean. unfold Clean. done. Qed.

Lemma Clean_ne s : Clean s <> [].
Proof. unfold Clean. destruct (rooted s); [done |]. by case_bool_decide. Qed.

Lemma Clean_snoc x c : x <> [] -> plain c -> components x <> [] -> Clean (x ++ x2f :: c) = Clean x ++ x2f :: c.
Proof.
  intros Hx Hc Hne. unfold Clean. rewrite components_snoc, join_snoc by done.
  assert (rooted (x ++ x2f :: c) = rooted x) as -> by (by destruct x).
  destruct (rooted x); [done |]. rewrite !bool_decide_eq_false_2; [done | | ].
  - intros Hj. apply join_slash_nil in Hj; [done |]. apply (normal_no_slash (rooted x)), components_normal.
  - by intros [_ ?]%app_nil.
Qed.

Lemma Join_pigeonDir es c : plain c -> pigeonDir (Join (es ++ [c])).
Proof.
  intros Hc. unfold Join. rewrite filter_app.
  assert (filter (fun e => e <> []) [c] = [c]) as ->.
  { rewrite filter_cons_True; [done | apply Hc]. }
  assert (forall fs, components (join_slash (fs ++ [c])) <> []) as Hcs.
  { intros fs. destruct (decide (join_slash fs = [] /\ True)) as [[Hj _]|Hj].
    - destruct fs as [|f fs]; [| destruct fs as [|g fs]].
      + simpl. change c with ([] ++ c). unfold components. simpl. rewrite split_slash_plain by apply Hc.
        simpl. by rewrite clean_step_plain.
      + simpl in *. subst f. simpl. unfold components. simpl.
        rewrite split_slash_plain by apply Hc. simpl.
        change (clean_step true [] []) with (@nil bytes). by rewrite clean_step_plain.
      + simpl in Hj. by apply app_nil in Hj as [_ ?].
    - destruct (decide (fs = [])) as [-> | Hfs]; [by destruct Hj |].
      rewrite join_snoc, components_snoc by naive_solver.
      intros [_ ?]%app_nil. done. }
  destruct (filter (fun e => e <> []) es ++ [c]) as [|f fs] eqn:E.
  { by apply app_nil in E as [_ ?]. }
  rewrite <-E. split_and!; [apply Clean_idem | apply Clean_ne | rewrite components_Clean; apply Hcs].
Qed.

Lemma Join_pair d c : pigeonDir d -> plain c -> Join [d; c] = d ++ x2f :: c.
Proof.
  intros (Hd & Hne & Hcs) Hc. unfold Join.
  rewrite filter_cons_True, filter_cons_True by (done || apply Hc). simpl.
  rewrite Clean_snoc by done. by rewrite Hd.
Qed.

Lemma Dir_snoc d c : pigeonDir d -> x2f ∉ c -> Dir (d ++ x2f :: c) = d.
Proof.
  intros (Hd & Hne & Hcs) Hc. unfold Dir. rewrite split_slash_app, (split_slash_plain c) by done.
  pose proof (split_slash_ne d) as Hs.
  assert (join_slash (split_slash d) = d) as Hj.
  { clear. induction d as [|b d IH]; [done |]. simpl. pose proof (split_slash_ne d).
    case_bool_decide; subst; destruct (split_slash d) as [|f fs] eqn:E; try done; simpl.
    - by rewrite <-IH.
    - rewrite <-IH. by destruct fs. }
  destruct (split_slash d ++ [c]) as [|f fs] eqn:E; [by apply app_nil in E as [_ ?] |].
  destruct fs as [|g fs].
  { destruct (split_slash d) as [|? [|? ?]]; simplify_list_eq. }
  rewrite <-E, removelast_last, Hj.
  transitivity (Clean d); [| done].
  unfold Clean, components. rewrite split_slash_app, fold_left_app. simpl.
  assert (rooted (d ++ [x2f]) = rooted d) as -> by (by destruct d). done.
Qed.

Lemma digits_ascii fuel z : 0 <= z -> x2f ∉ digits fuel z.
Proof.
  revert z. induction fuel as [|fuel IH]; intros z Hz; simpl; [apply not_elem_of_nil |].
  apply not_elem_of_app. split.
  - destruct (z <? 10); [apply not_elem_of_nil |]. apply IH. by apply Z.div_pos.
  - intros Hin%list_elem_of_singleton. apply (f_equal b2z) in Hin.
    pose proof (Z.mod_pos_bound z 10 ltac:(lia)). rewrite b2z_small in Hin by lia.
    change (b2z x2f) with 0x2F in Hin. lia.
Qed.

Lemma pigeon_uid_plain uid : plain (str_bytes "pigeon-" ++ itoa uid).
Proof.
  split_and!; try done. apply not_elem_of_app. split; [by apply (bool_decide_unpack _) |].
  unfold itoa. destruct (Z.ltb_spec uid 0); [| by apply digits_ascii].
  apply not_elem_of_cons. split; [done |]. apply digits_ascii. lia.
Qed.

(** A socket path stays in its directory: [SocketPath] succeeds only for
    a non-empty name over [a-z0-9._-] that does not start with a dot, and the
    path is then the host's pigeon directory, a '/' and the name with ".sock":
    whatever the name, the socket's directory is that directory (no
    traversal), and different applications have different sockets. *)
Theorem socket_path_contained (h : Host) (app : string) (p : bytes) :
  SocketPath h app = Ok p ->
  exists dir, socketDir h = Ok dir /\
    p = dir ++ x2f :: str_bytes app ++ str_bytes ".sock" /\ Dir p = dir /\
    Forall (fun b => allowedByte b = true) (str_bytes app) /\ String.prefix "." app = false /\
    (forall app', SocketPath h app' = Ok p -> app' = app).
Proof.
  assert (forall a q, SocketPath h a = Ok q -> exists dir, socketDir h = Ok dir /\ pigeonDir dir /\
            q = dir ++ x2f :: str_bytes a ++ str_bytes ".sock" /\ validateAppName a = None) as Hspec.
  { intros a q. unfold SocketPath. destruct (validateAppName a) eqn:Hv; [done |].
    intros (dir & Hdir & Hq)%rbind_ok_inv. injection Hq as <-. exists dir.
    assert (pigeonDir dir) as Hd.
    { revert Hdir. unfold socketDir. repeat case_bool_decide; intros Hdir; try done.
      - apply rbind_ok_inv in Hdir as (home & _ & Hj). injection Hj as <-.
        apply (Join_pigeonDir [home; str_bytes "Library"; str_bytes "Application Support"]).
        split_and!; try done. by apply (bool_decide_unpack _).
      - injection Hdir as <-. apply (Join_pigeonDir [Getenv_XDG_RUNTIME_DIR h]).
        split_and!; try done. by apply (bool_decide_unpack _).
      - injection Hdir as <-. apply (Join_pigeonDir [TempDir h]). apply pigeon_uid_plain. }
    split_and!; [done | done | | done]. apply Join_pair; [done | by apply app_name_plain]. }
  intros Hp. destruct (Hspec _ _ Hp) as (dir & Hdir & Hd & -> & Hv). exists dir.
  pose proof (app_name_plain _ Hv) as (_ & _ & _ & Hs).
  apply validateAppName_spec in Hv as (_ & Ha & Hdot). split_and!; try done.
  - by apply Dir_snoc.
  - intros app' (dir' & Hdir' & _ & Heq & _)%Hspec. rewrite Hdir in Hdir'. injection Hdir' as <-.
    apply app_inv_head in Heq. injection Heq as Heq. apply app_inv_tail in Heq.
    symmetry. by apply str_bytes_inj.
Qed.

Lemma socket_path_contained_witness :
  let h := {| GOOS := "linux"; UserHomeDir := Err (ENew "no home"); TempDir := str_bytes "/tmp";
              Getenv_XDG_RUNTIME_DIR := str_bytes "/run/user/../user/7/"; Getuid := 7 |} in
  SocketPath h "my.app" = Ok (str_bytes "/run/user/7/pigeon/my.app.sock") /\
  SocketPath h "../etc" = Err (EFmt "backchannel: AppName %q contains disallowed character %q (allow a-z 0-9 . _ -)"
                                    [AStr "../etc"; AInt 0x2F]) /\
  Dir (str_bytes "/run/user/7/pigeon/my.app.sock") = str_bytes "/run/user/7/pigeon".
Proof.
  intros h. split; [vm_compute; reflexivity |]. split; [vm_compute; reflexivity |].
  destruct (socket_path_contained h "my.app" (str_bytes "/run/user/7/pigeon/my.app.sock"))
    as (dir & Hdir & _ & Hd & _); [vm_compute; reflexivity |].
  rewrite Hd. revert Hdir. vm_compute. congruence.
Defined.

(** ** Frames (wire.go) *)

Abbreviation MsgType := string.
Definition MsgPairBegin : MsgType := "pair_begin".
Definition MsgTokenResponse : MsgType := "token_response".
Definition MsgWaitingForCode : MsgType := "waiting_for_code".
Definition MsgCodeSubmit : MsgType := "code_submit".
Definition MsgPairStatus : MsgType := "pair_status".

Record Message := {
  MType : MsgType;
  MInstanceID : string;
  MToken : string;
  MCode : string;
  MStatus : string
}.

#[export] Instance Message_eq_dec : EqDecision Message.
Proof. solve_decision. Defined.

(** The strings of the message are valid UTF-8. *)
Definition utf8_message (m : Message) : bool :=
  utf8_string (MType m) && utf8_string (MInstanceID m) && utf8_string (MToken m) &&
  utf8_string (MCode m) && utf8_string (MStatus m).

Definition MaxFrameSize : Z := 64 * 1024.
Definition ErrOversize : error := ENew "backchannel: frame exceeds MaxFrameSize".
Definition ErrEmptyType : error := ENew "backchannel: message has empty Type".

(** [writeFrame]: one [Write] of header and payload. *)
Definition writeFrame {W} `{Writer W} `{JSON Message} (w : W) (msg : Message) : W * option error :=
  if bool_decide (MType msg = EmptyString) then (w, Some ErrEmptyType) else
  match Marshal msg with
  | Err err => (w, Some (EWrap "backchannel marshal: %w" [] err))
  | Ok payload =>
      if MaxFrameSize <? len payload
      then (w, Some (EWrap "%w: %d > %d" [AInt (len payload); AInt MaxFrameSize] ErrOversize))
      else
        let hdr := be_put 4 (u32 (len payload)) in
        match Write w (hdr ++ payload) with
        | (w, Some err) => (w, Some (EWrap "backchannel write: %w" [] err))
        | (w, None) => (w, None)
        end
  end.

Definition readFrame {R} `{Reader R} `{JSON Message} (r : R) : R * result Message :=
  match ReadFull r 4 with
  | (r, Err err) => (r, Err err)
  | (r, Ok hdr) =>
      let length := be_get hdr in
      if MaxFrameSize <? length
      then (r, Err (EWrap "%w: %d > %d" [AInt length; AInt MaxFrameSize] ErrOversize))
      else
        match ReadFull r (Z.to_nat length) with
        | (r, Err err) => (r, Err (EWrap "backchannel read payload: %w" [] err))
        | (r, Ok buf) =>
            match Unmarshal buf with
            | Err err => (r, Err (EWrap "backchannel decode: %w" [] err))
            | Ok msg => if bool_decide (MType msg = EmptyString) then (r, Err ErrEmptyType) else (r, Ok msg)
            end
        end
  end.

(** ** Sessions and dispatch (session.go, dispatch.go) *)

(** What a call sees of its context and connection besides the bytes:
    whether the context has a deadline, what setting it returned, and
    [ctx.Err()] after a failure. *)
Record CallEnv := {
  ctxHasDeadline : bool;
  setDeadlineErr : option error;
  ctxErrAfter : option error
}.

Definition applyDeadline (e : CallEnv) : option error :=
  match setDeadlineErr e with
  | Some err => Some (EWrap (if ctxHasDeadline e then "backchannel deadline: %w"
                             else "backchannel deadline reset: %w") [] err)
  | None => None
  end.

Definition Send {W} `{Writer W} `{JSON Message} (e : CallEnv) (conn : W) (msg : Message) : W * option error :=
  match applyDeadline e with
  | Some err => (conn, Some err)
  | None =>
      match writeFrame conn msg with
      | (conn, Some err) => (conn, Some (default err (ctxErrAfter e)))
      | (conn, None) => (conn, None)
      end
  end.

Definition Recv {R} `{Reader R} `{JSON Message} (e : CallEnv) (conn : R) : R * result Message :=
  match applyDeadline e with
  | Some err => (conn, Err err)
  | None =>
      match readFrame conn with
      | (conn, Err err) => (conn, Err (default err (ctxErrAfter e)))
      | (conn, Ok msg) => (conn, Ok msg)
      end
  end.

Definition EventCliInitPair : string := "cli_init_pair".
Definition EventCliCodeEntered : string := "cli_code_entered".
Definition EventTokenCreated : string := "token_created".
Definition EventSignalCodeDisplay : string := "signal_code_display".

Definition EventForMessage (t : MsgType) : option string :=
  if bool_decide (t = MsgPairBegin) then Some EventCliInitPair
  else if bool_decide (t = MsgCodeSubmit) then Some EventCliCodeEntered
  else None.

Definition MessageForEvent (name : string) : option MsgType :=
  if bool_decide (name = EventTokenCreated) then Some MsgTokenResponse
  else if bool_decide (name = EventSignalCodeDisplay) then Some MsgWaitingForCode
  else None.

Definition unknownType (t : MsgType) : error :=
  EFmt "backchannel: unknown message type %q from CLI" [AStr t].
Definition dispatchErr (name : string) (e : error) : error :=
  EWrap "backchannel dispatch %s: %w" [AStr name] e.

(** An [EventSink] acts on the executor's state [X]. *)
Definition EventSink (X : Type) := X -> string -> Message -> X * option error.

(** The loop of [ServeSession]; iteration [i] sees [ctxErr i] as [ctx.Err()]
    at its head and [env i] in [Recv].  [None]: out of fuel. *)
Fixpoint serveLoop {R X} `{Reader R} `{JSON Message} (fuel : nat) (ctxErr : nat -> option error)
    (env : nat -> CallEnv) (sink : EventSink X) (i : nat) (conn : R) (x : X) : option (R * X * error) :=
  match fuel with
  | O => None
  | S fuel =>
      match ctxErr i with
      | Some err => Some (conn, x, err)
      | None =>
          match Recv (env i) conn with
          | (conn, Err err) => Some (conn, x, err)
          | (conn, Ok msg) =>
              match EventForMessage (MType msg) with
              | None => Some (conn, x, unknownType (MType msg))
              | Some name =>
                  match sink x name msg with
                  | (x, Some err) => Some (conn, x, dispatchErr name err)
                  | (x, None) => serveLoop fuel ctxErr env sink (S i) conn x
                  end
              end
          end
      end
  end.

(** [ServeSession]: a nil session or sink is refused. *)
Definition ServeSession {R X} `{Reader R} `{JSON Message} (fuel : nat) (ctxErr : nat -> option error)
    (env : nat -> CallEnv) (sess : option R) (sink : option (EventSink X)) (x : X) : option (option R * X * error) :=
  match sess, sink with
  | None, _ => Some (None, x, ENew "backchannel.ServeSession: sess is nil")
  | Some conn, None => Some (Some conn, x, ENew "backchannel.ServeSession: sink is nil")
  | Some conn, Some sink =>
      match serveLoop fuel ctxErr env sink 0 conn x with
      | Some (conn, x, err) => Some (Some conn, x, err)
      | None => None
      end
  end.

(** *** Lemmas: frames over a byte stream *)

Lemma readFrame_shrinks `{JSON Message} (r r' : bytes) m : readFrame r = (r', Ok m) -> (length r' < length r)%nat.
Proof.
  unfold readFrame. cbn [ReadFull pipe_reader]. destruct (Nat.ltb_spec (length r) 4); [done |].
  destruct (MaxFrameSize <? _); [done |].
  destruct (Nat.ltb_spec (length (drop 4 r)) (Z.to_nat (be_get (take 4 r)))); [done |].
  destruct (Unmarshal _); [| done]. case_bool_decide; [done |].
  intros [= <- _]. rewrite !length_drop. lia.
Qed.

Lemma writeFrame_pipe `{JSON Message} (w : bytes) m bs :
  MType m <> EmptyString -> Marshal m = Ok bs -> len bs <= MaxFrameSize ->
  writeFrame w m = (w ++ frame bs, None).
Proof.
  intros Ht Hm Hl. unfold writeFrame. rewrite bool_decide_eq_false_2 by done. rewrite Hm.
  rewrite (proj2 (Z.ltb_ge _ _)) by done. unfold MaxFrameSize in Hl. pose proof (len_nonneg bs).
  by rewrite u32_small by lia.
Qed.

Lemma readFrame_pipe `{JSON Message} m bs rest :
  MType m <> EmptyString -> Unmarshal bs = Ok m -> len bs <= MaxFrameSize ->
  readFrame (frame bs ++ rest) = (rest, Ok m).
Proof.
  intros Ht Hm Hl. unfold readFrame, frame. rewrite <-app_assoc. pose proof (len_nonneg bs).
  rewrite <-(length_be_put 4 (len bs)) at 1. rewrite ReadFull_pipe_app.
  unfold MaxFrameSize in *. rewrite be_get_put by (simpl; lia).
  rewrite (proj2 (Z.ltb_ge _ _)) by done. unfold len. rewrite Nat2Z.id, ReadFull_pipe_app, Hm.
  by rewrite bool_decide_eq_false_2.
Qed.

(** Reading [n] frames one after the other. *)
Fixpoint readFrames {R} `{Reader R} `{JSON Message} (n : nat) (r : R) : R * result (list Message) :=
  match n with
  | O => (r, Ok [])
  | S n =>
      match readFrame r with
      | (r, Err e) => (r, Err e)
      | (r, Ok m) =>
          match readFrames n r with
          | (r, Err e) => (r, Err e)
          | (r, Ok ms) => (r, Ok (m :: ms))
          end
      end
  end.

(** A sink that also records its calls. *)
Definition recording {X} (sink : EventSink X) : EventSink (X * list (string * Message)) :=
  fun '(x, log) name msg => let '(x, err) := sink x name msg in ((x, log ++ [(name, msg)]), err).

(** The executor's state after it has accepted every event of [log], if it does. *)
Fixpoint accepts {X} (sink : EventSink X) (x : X) (log : list (string * Message)) : option X :=
  match log with
  | [] => Some x
  | (name, msg) :: log => match sink x name msg with (x, None) => accepts sink x log | (_, Some _) => None end
  end.

(** Why the loop returned [err] in its iteration [i], the executor, which
    was at [x], having accepted all of [log] and being at [x'], with [rest] unread. *)
Definition interrupted `{JSON Message} (ctxErr : nat -> option error) (env : nat -> CallEnv) (rest : bytes)
    (i : nat) (err : error) : Prop :=
  ctxErr i = Some err \/
  ctxErr i = None /\ applyDeadline (env i) = Some err \/
  ctxErr i = None /\ applyDeadline (env i) = None /\
    (exists rest' e, readFrame rest = (rest', Err e) /\ err = default e (ctxErrAfter (env i))) \/
  ctxErr i = None /\ applyDeadline (env i) = None /\
    (exists rest' m, readFrame rest = (rest', Ok m) /\ EventForMessage (MType m) = None /\ err = unknownType (MType m)).

(** The executor, at [x], accepted all events of [log] but the last, and refused that one with the error returned. *)
Definition refused {X} (sink : EventSink X) (x : X) (log : list (string * Message)) (x' : X) (err : error) : Prop :=
  exists log0 name msg x0 e, log = log0 ++ [(name, msg)] /\ accepts sink x log0 = Some x0 /\
    sink x0 name msg = (x', Some e) /\ err = dispatchErr name e.

Definition stopped `{JSON Message} {X} (sink : EventSink X) (ctxErr : nat -> option error) (env : nat -> CallEnv)
    (x : X) (rest : bytes) (i : nat) (log : list (string * Message)) (x' : X) (err : error) : Prop :=
  (forall j, (i <= j < i + length log)%nat -> ctxErr j = None /\ applyDeadline (env j) = None) /\
  (accepts sink x log = Some x' /\ interrupted ctxErr env rest (i + length log) err \/ refused sink x log x' err).

Lemma stopped_now `{JSON Message} {X} (sink : EventSink X) ctxErr env x rest i err :
  interrupted ctxErr env rest i err -> stopped sink ctxErr env x rest i [] x err.
Proof. intros Hi. split; [cbn; intros; lia |]. left. split; [done |]. cbn [length]. by rewrite Nat.add_0_r. Qed.

Lemma stopped_later `{JSON Message} {X} (sink : EventSink X) ctxErr env x name msg x1 rest i log x' err :
  ctxErr i = None -> applyDeadline (env i) = None -> sink x name msg = (x1, None) ->
  stopped sink ctxErr env x1 rest (S i) log x' err -> stopped sink ctxErr env x rest i ((name, msg) :: log) x' err.
Proof.
  intros Hc Hd Hs [Hj Hst]. split.
  - cbn [length]. intros j Hr. destruct (decide (j = i)) as [-> | ?]; [done |]. apply Hj. lia.
  - destruct Hst as [[Ha Hi] | (log0 & n & m & x0 & e & -> & Ha & Hr & ->)]; [left | right].
    + cbn [accepts length]. rewrite Hs, Nat.add_succ_r. done.
    + exists ((name, msg) :: log0), n, m, x0, e. cbn [accepts]. by rewrite Hs.
Qed.

Lemma serveLoop_spec `{JSON Message} {X} (sink : EventSink X) ctxErr env fuel : forall i (conn : bytes) x log0,
  (length conn < fuel)%nat ->
  exists conn' x' log err rest,
    serveLoop fuel ctxErr env (recording sink) i conn (x, log0) = Some (conn', (x', log0 ++ log), err) /\
    Forall (fun e => EventForMessage (MType e.2) = Some e.1) log /\
    readFrames (length log) conn = (rest, Ok (map snd log)) /\
    stopped sink ctxErr env x rest i log x' err.
Proof.
  induction fuel as [|fuel IH]; intros i conn x log0 Hf; [lia |]. cbn [serveLoop].
  assert (forall (conn' : bytes) err, interrupted ctxErr env conn i err -> exists c' x' (log : list (string * Message)) err' rest,
    Some (conn', (x, log0), err) = Some (c', (x', log0 ++ log), err') /\
    Forall (fun e => EventForMessage (MType e.2) = Some e.1) log /\
    readFrames (length log) conn = (rest, Ok (map snd log)) /\ stopped sink ctxErr env x rest i log x' err') as Hnow.
  { intros conn' err Hi. exists conn', x, (@nil (string * Message)), err, conn. rewrite app_nil_r. split_and!; try done. by apply stopped_now. }
  unfold interrupted in Hnow. destruct (ctxErr i) as [err|] eqn:Hctx; [apply Hnow; by left |].
  unfold Recv. destruct (applyDeadline (env i)) as [err|] eqn:Hdl; [apply Hnow; right; by left |].
  destruct (readFrame conn) as [r [m|e]] eqn:Hr; [| apply Hnow; do 2 right; left; eauto 6].
  destruct (EventForMessage (MType m)) as [name|] eqn:Hev; [| apply Hnow; do 3 right; eauto 8].
  unfold recording at 1. destruct (sink x name m) as [x1 [err|]] eqn:Hs.
  - exists r, x1, [(name, m)], (dispatchErr name err), r. split_and!; [done | by repeat constructor | by simpl; rewrite Hr |].
    split; [| right; by exists [], name, m, x, err]. cbn. intros j Hj. by assert (j = i) as -> by lia.
  - destruct (IH (S i) r x1 (log0 ++ [(name, m)])) as (conn' & x' & log & err & rest & Hl & Hall & Hrd & Hst).
    { apply readFrame_shrinks in Hr. lia. }
    exists conn', x', ((name, m) :: log), err, rest. rewrite <-app_assoc in Hl.
    split_and!; [done | by constructor | by simpl; rewrite Hr, Hrd | by eapply stopped_later].
Qed.

(** C39. Dispatch to the executor: [ServeSession] terminates on every finite
    byte stream, whatever the CLI, the context and the executor do; it hands
    the executor exactly the messages of the leading frames, in order, each
    under the event name of its type, so only [cli_init_pair] and
    [cli_code_entered] events ever reach it.  Either the executor accepted every
    one of them and the loop returns because the context is cancelled,
    the deadline could not be set, the next read failed or brought a message
    type a CLI must not send; or the executor accepted all but the last,
    refused that one, and the loop returns exactly that refusal. *)
Theorem serve_session_dispatch `{JSON Message} {X} (sink : EventSink X) (ctxErr : nat -> option error)
    (env : nat -> CallEnv) (conn : bytes) (x : X) :
  exists conn' x' log err rest,
    ServeSession (S (length conn)) ctxErr env (Some conn) (Some (recording sink)) (x, []) =
      Some (Some conn', (x', log), err) /\
    (forall name msg, (name, msg) ∈ log ->
       (name = EventCliInitPair /\ MType msg = MsgPairBegin) \/
       (name = EventCliCodeEntered /\ MType msg = MsgCodeSubmit)) /\
    readFrames (length log) conn = (rest, Ok (map snd log)) /\
    stopped sink ctxErr env x rest 0 log x' err.
Proof.
  destruct (serveLoop_spec sink ctxErr env (S (length conn)) 0 conn x [])
    as (conn' & x' & log & err & rest & Hl & Hall & Hrd & Hst); [lia |].
  exists conn', x', log, err, rest. unfold ServeSession. rewrite Hl. split_and!; [done | | done | done].
  intros name msg Hin. rewrite Forall_forall in Hall. apply Hall in Hin. revert Hin. cbn [fst snd].
  unfold EventForMessage. repeat case_bool_decide; intros [= <-]; tauto.
Qed.

(** A CLI message: of a type the daemon accepts, valid UTF-8, within the frame limit. *)
Definition cliMessage `{JSON Message} (m : Message) : Prop :=
  is_Some (EventForMessage (MType m)) /\ utf8_message m = true /\
  (forall bs, Marshal m = Ok bs -> len bs <= MaxFrameSize).

Definition quietEnv : CallEnv := {| ctxHasDeadline := false; setDeadlineErr := None; ctxErrAfter := None |}.

(** Sending messages one after the other. *)
Fixpoint sendAll {W} `{Writer W} `{JSON Message} (conn : W) (ms : list Message) : W * option error :=
  match ms with
  | [] => (conn, None)
  | m :: ms => match Send quietEnv conn m with
               | (conn, Some err) => (conn, Some err)
               | (conn, None) => sendAll conn ms
               end
  end.

Lemma cliMessage_frame `{JL : JSONLaws Message utf8_message} m : cliMessage m ->
  exists bs, (forall w : bytes, writeFrame w m = (w ++ frame bs, None)) /\
             (forall rest, readFrame (frame bs ++ rest) = (rest, Ok m)).
Proof.
  intros ([name Hev] & Hu & Hl). destruct (json_roundtrip m Hu) as (bs & Hm & Hum).
  assert (MType m <> EmptyString) as Ht by (intros He; unfold EventForMessage in Hev; by rewrite He in Hev).
  exists bs. split; intros; [apply writeFrame_pipe | apply readFrame_pipe]; auto.
Qed.

Lemma sendAll_frames `{JL : JSONLaws Message utf8_message} ms : Forall cliMessage ms ->
  exists bs, (forall w : bytes, sendAll w ms = (w ++ bs, None)) /\ (length ms <= length bs)%nat /\
    forall rest, readFrames (length ms) (bs ++ rest) = (rest, Ok ms).
Proof.
  induction 1 as [|m ms Hm _ (bs & Hw & Hlen & Hr)].
  { exists []. split_and!; [intros w; by rewrite app_nil_r | done | done]. }
  destruct (cliMessage_frame m Hm) as (b & Hw1 & Hr1). exists (frame b ++ bs). split_and!.
  - intros w. cbn [sendAll]. unfold Send. change (applyDeadline quietEnv) with (@None error).
    cbv beta iota. rewrite Hw1. cbv beta iota. rewrite Hw. by rewrite app_assoc.
  - unfold frame. rewrite !length_app, length_be_put. simpl. lia.
  - intros rest. cbn [length readFrames]. by rewrite <-app_assoc, Hr1, Hr.
Qed.

Lemma serveLoop_all `{JL : JSONLaws Message utf8_message} {X} (sink : EventSink X) ms : forall fuel i x (conn : bytes),
  Forall cliMessage ms -> readFrames (length ms) conn = ([], Ok ms) -> (length ms < fuel)%nat ->
  (forall x n m, (sink x n m).2 = None) ->
  serveLoop fuel (fun _ => None) (fun _ => quietEnv) sink i conn x =
    Some ([], fold_left (fun x m => (sink x (default EmptyString (EventForMessage (MType m))) m).1) ms x, EOF).
Proof.
  induction ms as [|m ms IH]; intros fuel i x conn Hms Hr Hf Hs; (destruct fuel as [|fuel]; [simpl in Hf; lia |]).
  { simpl in Hr. injection Hr as ->. done. }
  apply Forall_cons in Hms as [([name Hev] & _ & _) Hms]. cbn [length readFrames] in Hr.
  destruct (readFrame conn) as [r [m'|e]] eqn:Hrd; [| done].
  destruct (readFrames (length ms) r) as [r' [ms'|e']] eqn:Hrs; [| done]. injection Hr as -> -> ->.
  cbn [serveLoop fold_left]. unfold Recv. change (applyDeadline quietEnv) with (@None error).
  rewrite Hrd, Hev. change (default EmptyString (Some name)) with name.
  pose proof (Hs x name m) as Hn. destruct (sink x name m) as [x1 e1]. cbn [snd] in Hn. subst e1.
  apply IH; [done | done | simpl in Hf; lia | done].
Qed.

(** The CLI's messages reach the executor: what a CLI sends with [Send],
    one message after the other, before closing, [ServeSession] hands to an
    accepting executor exactly once each, in order and unchanged, and then
    returns the end of the stream. *)
Theorem cli_messages_reach_executor `{JL : JSONLaws Message utf8_message} {X} (sink : EventSink X) (ms : list Message) (x : X) :
  Forall cliMessage ms -> (forall x n m, (sink x n m).2 = None) ->
  exists conn, sendAll (W := bytes) [] ms = (conn, None) /\
    ServeSession (S (length conn)) (fun _ => None) (fun _ => quietEnv) (Some conn) (Some sink) x =
      Some (Some [],
            fold_left (fun x m => (sink x (default EmptyString (EventForMessage (MType m))) m).1) ms x, EOF).
Proof.
  intros Hms Hs. destruct (sendAll_frames ms Hms) as (conn & Hw & Hlen & Hr). exists conn.
  rewrite Hw. split; [done |]. specialize (Hr []). rewrite app_nil_r in Hr.
  unfold ServeSession. erewrite serveLoop_all by (eauto; lia). done.
Qed.

(** A codec for the witness: the fields one after the other, marked. *)
Definition markString (s : string) : bytes := mark (str_bytes s).
Definition markCodec : JSON Message := {|
  Marshal m := Ok (markString (MType m) ++ markString (MInstanceID m) ++ markString (MToken m) ++
                   markString (MCode m) ++ markString (MStatus m));
  Unmarshal bs :=
    let '(t, bs) := unmark bs in let '(i, bs) := unmark bs in let '(k, bs) := unmark bs in
    let '(c, bs) := unmark bs in let '(st, bs) := unmark bs in
    Ok {| MType := bytes_str t; MInstanceID := bytes_str i; MToken := bytes_str k;
          MCode := bytes_str c; MStatus := bytes_str st |}
|}.

Lemma markCodec_laws : JSONLaws Message utf8_message (J := markCodec).
Proof.
  constructor. intros m _. eexists. split; [reflexivity |]. cbn [Unmarshal markCodec]. unfold markString.
  rewrite !unmark_mark. rewrite <-(app_nil_r (mark (str_bytes (MStatus m)))), unmark_mark, !bytes_str_bytes.
  by destruct m.
Qed.

Definition beginMsg : Message :=
  {| MType := MsgPairBegin; MInstanceID := ""; MToken := ""; MCode := ""; MStatus := "" |}.
Definition codeMsg : Message :=
  {| MType := MsgCodeSubmit; MInstanceID := ""; MToken := ""; MCode := "123456"; MStatus := "" |}.

Lemma cli_messages_reach_executor_witness :
  exists conn, sendAll (W := bytes) (H0 := markCodec) [] [beginMsg; codeMsg] = (conn, None) /\
    ServeSession (H0 := markCodec) (S (length conn)) (fun _ => None) (fun _ => quietEnv) (Some conn)
      (Some (fun log n m => (log ++ [(n, MCode m)], None))) [] =
      Some (Some [], [(EventCliInitPair, ""%string); (EventCliCodeEntered, "123456"%string)], EOF).
Proof.
  apply (@cli_messages_reach_executor markCodec markCodec_laws (list (string * string))
           (fun log n m => (log ++ [(n, MCode m)], None)) [beginMsg; codeMsg] []).
  - repeat constructor; try (eexists; reflexivity); try (intros bs [= <-]; vm_compute; congruence).
  - done.
Defined.
