(* ===== verification/Daemon.v ===== *)
(** * Daemon: the backchannel's listening socket (backchannel/server.go)

    [Listen], [clearStaleSocket] and [Server.Close] as sequences of system
    calls on the file system of the host, [Accept] with the goroutine that
    watches its context, and [withUmask] (umask_unix.go).  Every system call
    is one step, so calls of several daemons interleave; run without
    interference they are the functions [Listen] and [Close].

    The file system keeps, per path, a socket inode (the listener that created
    it, its mode) or another kind of file; a listener serves connections until
    it is closed or its process dies, and its inode stays behind when the
    process dies.  Failures the file system itself does not explain are inputs
    ([faults]). *)

From Stdlib Require Import ZArith Lia Strings.Byte Strings.String.
From stdpp Require Import base gmap sets strings list fin_maps.
From S2P Require Import Prelude Binary Wire Backchannel.

Open Scope Z_scope.

(** ** The host *)

(** File modes, in octal in the source. *)
Definition o700 : Z := 7 * 64.
Definition o600 : Z := 6 * 64.
Definition o777 : Z := 7 * 64 + 7 * 8 + 7.
Definition o077 : Z := 7 * 8 + 7.

Inductive inode :=
  | IRegular
  | ISocket (l : nat) (mode : Z).

(** [live]: listeners accepting connections.  [servers]: the servers
    [Listen] returned, by listener, with their path; [closedSrv]: those whose
    [closed] flag is set. *)
Record world := {
  nodes : gmap string inode;
  dirs : gmap string Z;
  umask : Z;
  live : gset nat;
  nextL : nat;
  servers : gmap nat string;
  closedSrv : gset nat
}.

Definition set_nodes (w : world) (n : gmap string inode) : world :=
  {| nodes := n; dirs := dirs w; umask := umask w; live := live w; nextL := nextL w;
     servers := servers w; closedSrv := closedSrv w |}.
Definition set_dirs (w : world) (d : gmap string Z) : world :=
  {| nodes := nodes w; dirs := d; umask := umask w; live := live w; nextL := nextL w;
     servers := servers w; closedSrv := closedSrv w |}.
Definition set_umask (w : world) (m : Z) : world :=
  {| nodes := nodes w; dirs := dirs w; umask := m; live := live w; nextL := nextL w;
     servers := servers w; closedSrv := closedSrv w |}.
Definition set_live (w : world) (s : gset nat) : world :=
  {| nodes := nodes w; dirs := dirs w; umask := umask w; live := s; nextL := nextL w;
     servers := servers w; closedSrv := closedSrv w |}.
Definition set_servers (w : world) (s : gmap nat string) : world :=
  {| nodes := nodes w; dirs := dirs w; umask := umask w; live := live w; nextL := nextL w;
     servers := s; closedSrv := closedSrv w |}.
Definition set_closedSrv (w : world) (s : gset nat) : world :=
  {| nodes := nodes w; dirs := dirs w; umask := umask w; live := live w; nextL := nextL w;
     servers := servers w; closedSrv := s |}.
Definition new_listener (w : world) : world :=
  {| nodes := nodes w; dirs := dirs w; umask := umask w; live := {[nextL w]} ∪ live w;
     nextL := S (nextL w); servers := servers w; closedSrv := closedSrv w |}.

(** System calls that fail for reasons of their own. *)
Record faults := {
  fMkdir : option error;
  fChmodDir : option error;
  fStat : option error;
  fDial : option error;
  fRemove : option error;
  fBind : option error;
  fChmodSock : option error;
  fClose : option error
}.

Definition noFaults : faults :=
  {| fMkdir := None; fChmodDir := None; fStat := None; fDial := None; fRemove := None;
     fBind := None; fChmodSock := None; fClose := None |}.

Definition DirOf (path : string) : string := bytes_str (Dir (str_bytes path)).

(** [os.MkdirAll(dir, 0700)], [net.ListenUnix] and [UnixListener.Close],
    which unlinks the listener's path whatever is there, and [os.Remove]. *)
Definition mkdirAll (w : world) (dir : string) : world :=
  match dirs w !! dir with
  | Some _ => w
  | None => set_dirs w (<[dir := Z.land o700 (Z.lnot (umask w))]> (dirs w))
  end.

Definition listenUnix (f : faults) (path : string) (w : world) : world * result nat :=
  match fBind f, nodes w !! path with
  | Some err, _ => (w, Err err)
  | None, Some _ => (w, Err (ENew "bind: address already in use"))
  | None, None =>
      let l := nextL w in
      let mode := Z.land o777 (Z.lnot (umask w)) in
      (set_nodes (new_listener w) (<[path := ISocket l mode]> (nodes w)), Ok l)
  end.

Definition remove (w : world) (path : string) : world := set_nodes w (delete path (nodes w)).

Definition closeListener (w : world) (path : string) (l : nat) : world :=
  set_live (remove w path) (live w ∖ {[l]}).

Definition withUmask {A} (w : world) (mask : Z) (fn : world -> world * A) : world * A :=
  let prev := umask w in
  let '(w, r) := fn (set_umask w mask) in
  (set_umask w prev, r).

(** ** [Listen] and [clearStaleSocket] *)

Record ListenArgs := {
  AppName : string;
  ArgPath : string
}.

Record Server := {
  path : string;
  listener : nat
}.

(** The path a call uses: the host's socket path, or the given one with the
    application name still checked.  [nil] arguments are refused.  [Dial]
    computes its path the same way. *)
Definition resolvePath (caller : string) (h : Host) (args : option ListenArgs) : result string :=
  match args with
  | None => Err (ENew (caller ++ ": args is nil"))
  | Some args =>
      if bool_decide (ArgPath args = EmptyString) then
        let! p := SocketPath h (AppName args) in Ok (bytes_str p)
      else match validateAppName (AppName args) with
           | Some err => Err err
           | None => Ok (ArgPath args)
           end
  end.

Inductive listenPhase :=
  | LMkdir
  | LChmodDir
  | LStat
  | LProbe
  | LUnlink
  | LBind
  | LChmod (l : nat)
  | LCleanClose (l : nat) (err : error)
  | LCleanRemove (err : error)
  | LDone (r : result Server).

(** [clearStaleSocket]'s three calls: stat, probe by dialling, unlink. *)
Definition clearStaleSocket (f : faults) (p : string) (w : world) (ph : listenPhase) : world * listenPhase :=
  match ph with
  | LStat =>
      match fStat f, nodes w !! p with
      | Some err, _ => (w, LDone (Err (EWrap "backchannel: stat %q: %w" [AStr p] err)))
      | None, None => (w, LBind)
      | None, Some IRegular =>
          (w, LDone (Err (EFmt "backchannel: path %q exists and is not a socket" [AStr p])))
      | None, Some (ISocket _ _) => (w, LProbe)
      end
  | LProbe =>
      match fDial f, nodes w !! p with
      | Some err, _ => (w, LDone (Err (EWrap "backchannel: probe stale socket %q: %w" [AStr p] err)))
      | None, Some (ISocket l _) =>
          if bool_decide (l ∈ live w)
          then (w, LDone (Err (EFmt "backchannel: another daemon is already listening on %q" [AStr p])))
          else (w, LUnlink)
      | None, Some IRegular | None, None => (w, LUnlink)
      end
  | _ =>
      match fRemove f with
      | Some err => (w, LDone (Err (EWrap "backchannel: unlink stale socket %q: %w" [AStr p] err)))
      | None => (remove w p, LBind)
      end
  end.

Definition listenStep (f : faults) (p : string) (w : world) (ph : listenPhase) : world * listenPhase :=
  match ph with
  | LMkdir =>
      match fMkdir f with
      | Some err => (w, LDone (Err (EWrap "backchannel: create socket dir %q: %w" [AStr (DirOf p)] err)))
      | None => (mkdirAll w (DirOf p), LChmodDir)
      end
  | LChmodDir =>
      match fChmodDir f with
      | Some err => (w, LDone (Err (EWrap "backchannel: chmod socket dir %q: %w" [AStr (DirOf p)] err)))
      | None => (set_dirs w (<[DirOf p := o700]> (dirs w)), LStat)
      end
  | LStat | LProbe | LUnlink => clearStaleSocket f p w ph
  | LBind =>
      match withUmask w o077 (listenUnix f p) with
      | (w, Err err) => (w, LDone (Err (EWrap "backchannel: listen %q: %w" [AStr p] err)))
      | (w, Ok l) => (w, LChmod l)
      end
  | LChmod l =>
      match fChmodSock f, nodes w !! p with
      | Some err, _ => (w, LCleanClose l err)
      | None, None => (w, LCleanClose l (ENew "no such file or directory"))
      | None, Some nd =>
          let nd := match nd with ISocket l' _ => ISocket l' o600 | IRegular => IRegular end in
          (set_servers (set_nodes w (<[p := nd]> (nodes w))) (<[l := p]> (servers w)),
           LDone (Ok {| path := p; listener := l |}))
      end
  | LCleanClose l err => (closeListener w p l, LCleanRemove err)
  | LCleanRemove err => (remove w p, LDone (Err (EWrap "backchannel: chmod socket %q: %w" [AStr p] err)))
  | LDone r => (w, LDone r)
  end.

(** A call run to its end without interference. *)
Fixpoint listenRun (n : nat) (f : faults) (p : string) (w : world) (ph : listenPhase) : option (world * result Server) :=
  match ph, n with
  | LDone r, _ => Some (w, r)
  | _, O => None
  | _, S n => let '(w, ph) := listenStep f p w ph in listenRun n f p w ph
  end.

Definition Listen (h : Host) (f : faults) (args : option ListenArgs) (w : world) : option (world * result Server) :=
  match resolvePath "backchannel.Listen" h args with
  | Err err => Some (w, Err err)
  | Ok p => listenRun 9 f p w LMkdir
  end.

(** ** [Server.Close] *)

Inductive closePhase :=
  | CLock
  | CListener
  | CRemove (err : option error)
  | CDone (err : option error).

Definition closeStep (f : faults) (s : Server) (w : world) (ph : closePhase) : world * closePhase :=
  match ph with
  | CLock =>
      if bool_decide (listener s ∈ closedSrv w) then (w, CDone None)
      else (set_closedSrv w ({[listener s]} ∪ closedSrv w), CListener)
  | CListener => (closeListener w (path s) (listener s), CRemove (fClose f))
  | CRemove err =>
      match fRemove f, err with
      | Some rmErr, None => (w, CDone (Some (EWrap "backchannel: remove socket %q: %w" [AStr (path s)] rmErr)))
      | Some _, Some err => (w, CDone (Some err))
      | None, _ => (remove w (path s), CDone err)
      end
  | CDone err => (w, CDone err)
  end.

Fixpoint closeRun (n : nat) (f : faults) (s : Server) (w : world) (ph : closePhase) : option (world * option error) :=
  match ph, n with
  | CDone err, _ => Some (w, err)
  | _, O => None
  | _, S n => let '(w, ph) := closeStep f s w ph in closeRun n f s w ph
  end.

Definition Close (f : faults) (s : Server) (w : world) : option (world * option error) := closeRun 3 f s w CLock.

(** ** Daemons one call at a time *)

(** A history of complete calls, and of processes dying: a dead process
    makes no further call. *)
Inductive op :=
  | OListen (f : faults) (p : string)
  | OClose (f : faults) (l : nat)
  | OCrash (l : nat).

Record host := {
  hw : world;
  crashed : gset nat
}.

Definition runOp (s : host) (o : op) : option host :=
  match o with
  | OListen f p =>
      match listenRun 9 f p (hw s) LMkdir with
      | Some (w, _) => Some {| hw := w; crashed := crashed s |}
      | None => None
      end
  | OClose f l =>
      match servers (hw s) !! l with
      | Some p =>
          if bool_decide (l ∈ crashed s) then None else
          match Close f {| path := p; listener := l |} (hw s) with
          | Some (w, _) => Some {| hw := w; crashed := crashed s |}
          | None => None
          end
      | None => None
      end
  | OCrash l => Some {| hw := set_live (hw s) (live (hw s) ∖ {[l]}); crashed := {[l]} ∪ crashed s |}
  end.

Fixpoint runOps (s : host) (os : list op) : option host :=
  match os with
  | [] => Some s
  | o :: os => match runOp s o with Some s => runOps s os | None => None end
  end.

(** A host on which no daemon has run. *)
Definition idle (w : world) : Prop :=
  live w = ∅ /\ servers w = ∅ /\ closedSrv w = ∅ /\ (forall p l m, nodes w !! p = Some (ISocket l m) -> (l < nextL w)%nat).

Section Sequential.
Context (C : gset nat).

(** Every live daemon, the one being set up apart, is reached at its path,
    and its socket is private; every server is live, closed, or of one of the
    dead processes [C]. *)
Record ownedBut (x : option nat) (w : world) : Prop := {
  ow_live l : l ∈ live w -> x <> Some l ->
    exists p, servers w !! l = Some p /\ nodes w !! p = Some (ISocket l o600);
  ow_closed l : l ∈ closedSrv w -> l ∉ live w;
  ow_fresh l : l ∈ live w \/ l ∈ closedSrv w -> (l < nextL w)%nat;
  ow_servers l p : servers w !! l = Some p ->
    (l < nextL w)%nat /\ (l ∈ live w \/ l ∈ closedSrv w \/ l ∈ C)
}.
Abbreviation owned := (ownedBut None).

(** [l] has just been bound at [p]. *)
Definition bound (p : string) (l : nat) (w : world) : Prop :=
  ownedBut (Some l) w /\ l ∈ live w /\ servers w !! l = None /\ exists m, nodes w !! p = Some (ISocket l m).

Definition listenInv (p : string) (w : world) (ph : listenPhase) : Prop :=
  match ph with
  | LUnlink => owned w /\ forall l m, nodes w !! p = Some (ISocket l m) -> l ∉ live w
  | LChmod l | LCleanClose l _ => bound p l w
  | LCleanRemove _ => owned w /\ nodes w !! p = None
  | _ => owned w
  end.

(** Changes of the host that keep the daemons' sockets. *)
Lemma owned_set_dirs x w d : ownedBut x w -> ownedBut x (set_dirs w d).
Proof. by intros []. Qed.

Lemma owned_remove x w p :
  ownedBut x w -> (forall l m, nodes w !! p = Some (ISocket l m) -> l ∈ live w -> x = Some l) ->
  ownedBut x (remove w p).
Proof.
  intros [Hl Hc Hf Hs] Hp. split; [| done ..]. intros l Hlive Hx. cbn in *.
  destruct (Hl l Hlive Hx) as (q & Hq & Hn). exists q. split; [done |].
  apply lookup_delete_Some. split; [| done]. intros <-. by eapply Hp in Hn.
Qed.

(** Closing a listener that is no server's, or whose server is closed. *)
Lemma owned_close x w p l : (x = None \/ x = Some l) -> ownedBut x w ->
  (servers w !! l = None \/ l ∈ closedSrv w) ->
  (forall l' m, nodes w !! p = Some (ISocket l' m) -> l' ∈ live w -> l' = l) ->
  ownedBut None (closeListener w p l).
Proof.
  intros Hx [Hl Hc Hf Hs] Hsrv Hp. split; cbn.
  - intros l' [Hlive Hne]%elem_of_difference _. rewrite not_elem_of_singleton in Hne.
    destruct (Hl l' Hlive) as (q & Hq & Hn); [by destruct Hx as [-> | ->]; congruence |].
    exists q. split; [done |]. apply lookup_delete_Some. split; [| done]. intros <-. by eapply Hne, Hp.
  - intros l' Hl' [Hl'' _]%elem_of_difference. by apply Hc in Hl'.
  - intros l' [[Hl' _]%elem_of_difference | Hl']; apply Hf; [by left | by right].
  - intros l' q Hq. destruct (Hs _ _ Hq) as [Hlt Hor]. split; [done |].
    destruct (decide (l' = l)) as [-> | Hne].
    + destruct Hsrv as [Hn | ?]; [by rewrite Hn in Hq | auto].
    + destruct Hor as [? | ?]; [left | by right]. apply elem_of_difference. by rewrite elem_of_singleton.
Qed.

Lemma owned_bind w p m d : owned w -> nodes w !! p = None ->
  bound p (nextL w) (set_umask (set_nodes (new_listener (set_umask w d)) (<[p := ISocket (nextL w) m]> (nodes w))) (umask w)).
Proof.
  intros [Hl Hc Hf Hsv] Hn. unfold bound. cbn. split_and!.
  - split; cbn.
    + intros l [->%elem_of_singleton | Hlive]%elem_of_union Hx; [done |].
      destruct (Hl l Hlive) as (q & Hq & Hnq); [done |]. exists q. split; [done |].
      apply lookup_insert_Some. right. split; [congruence | done].
    + intros l Hcl [->%elem_of_singleton | Hlive]%elem_of_union; [| by eapply Hc].
      pose proof (Hf _ (or_intror Hcl)). lia.
    + intros l [[->%elem_of_singleton | ?]%elem_of_union | ?]; [lia | |]; apply Nat.lt_lt_succ_r, Hf; auto.
    + intros l q [Hlt Hor]%Hsv. split; [lia |]. destruct Hor as [? | ?]; [left | by right].
      by apply elem_of_union_r.
  - apply elem_of_union_l, elem_of_singleton. done.
  - destruct (servers w !! nextL w) as [q|] eqn:E; [| done]. apply Hsv in E as [? _]. lia.
  - exists m. apply lookup_insert_eq.
Qed.

Lemma owned_serve w p l : bound p l w -> owned (set_servers (set_nodes w (<[p := ISocket l o600]> (nodes w))) (<[l := p]> (servers w))).
Proof.
  intros ([Hlv Hc Hf Hsv] & Hl & Hnone & m & Hn). split; cbn.
  - intros l' Hl' _. destruct (decide (l' = l)) as [-> | Hne].
    { exists p. split; [apply lookup_insert_eq | by rewrite lookup_insert_eq]. }
    destruct (Hlv l' Hl') as (q & Hq & Hnq); [congruence |]. exists q. split.
    + by rewrite lookup_insert_ne.
    + rewrite lookup_insert_ne; [done | congruence].
  - done.
  - done.
  - intros l' q [[<- <-] | [_ Hq]]%lookup_insert_Some; [split; [apply Hf |]; by left | eauto].
Qed.

Lemma listenStep_inv f p w ph w' ph' :
  listenInv p w ph -> listenStep f p w ph = (w', ph') -> listenInv p w' ph'.
Proof.
  intros Hinv Hs. destruct ph; cbn [listenStep listenInv] in *.
  - destruct (fMkdir f); injection Hs as <- <-; [done |]. unfold mkdirAll.
    destruct (dirs w !! _); [done | by apply owned_set_dirs].
  - destruct (fChmodDir f); injection Hs as <- <-; [done | by apply owned_set_dirs].
  - cbn in Hs. destruct (fStat f), (nodes w !! p) as [[]|]; by injection Hs as <- <-.
  - cbn in Hs. destruct (fDial f); [by injection Hs as <- <- |].
    destruct (nodes w !! p) as [[|l m]|] eqn:Hn; [| case_bool_decide |]; injection Hs as <- <-;
      try done; (split; [done |]; intros ? ?; rewrite Hn; congruence).
  - cbn in Hs. destruct Hinv as [Ho Hp]. destruct (fRemove f); injection Hs as <- <-; [done |].
    apply owned_remove; [done |]. intros l m Hn Hl. by apply Hp in Hn.
  - unfold withUmask, listenUnix in Hs. cbn in Hs.
    destruct (fBind f), (nodes w !! p) eqn:Hn; cbn in Hs; injection Hs as <- <-; cbn;
      try (by destruct Hinv). by apply owned_bind.
  - destruct (fChmodSock f); [by injection Hs as <- <- |]. pose proof Hinv as (_ & _ & _ & m & Hn).
    rewrite Hn in Hs. injection Hs as <- <-. by apply owned_serve.
  - injection Hs as <- <-. destruct Hinv as (Ho & Hl & Hnone & m & Hn). split.
    + eapply owned_close; [by right | done | by left |]. intros l' m' Hn' _. congruence.
    + cbn. apply lookup_delete_eq.
  - injection Hs as <- <-. destruct Hinv as [Ho Hn]. apply owned_remove; [done |]. congruence.
  - by injection Hs as <- <-.
Qed.

Lemma listenRun_inv n f p : forall w ph w' r,
  listenInv p w ph -> listenRun n f p w ph = Some (w', r) -> owned w'.
Proof.
  induction n as [|n IH]; intros w ph w' r Hinv Hr.
  - destruct ph; try done. by injection Hr as <- <-.
  - destruct (listenStep f p w ph) as [w1 ph1] eqn:Hs. pose proof (listenStep_inv _ _ _ _ _ _ Hinv Hs).
    destruct ph; cbn [listenRun] in Hr; rewrite ?Hs in Hr; try (by eapply IH). by injection Hr as <- <-.
Qed.

Lemma Close_owned f s w w' err :
  owned w -> servers w !! listener s = Some (path s) -> (listener s ∉ C) ->
  Close f s w = Some (w', err) -> owned w'.
Proof.
  intros Ho Hs HC. unfold Close. cbn [closeRun closeStep].
  case_bool_decide as Hc; [by intros [= <- <-] |]. cbn [closeRun closeStep].
  destruct (ow_servers _ _ Ho _ _ Hs) as [_ [Hl | [? | ?]]]; [| done | done].
  assert (owned (closeListener (set_closedSrv w ({[listener s]} ∪ closedSrv w)) (path s) (listener s))) as Ho'.
  { destruct (ow_live _ _ Ho _ Hl) as (q & Hq & Hn); [done |]. rewrite Hs in Hq. injection Hq as <-.
    destruct Ho as [Hlv Hcl Hf Hsv]. split; cbn.
    - intros l [Hlive Hne]%elem_of_difference _. rewrite not_elem_of_singleton in Hne.
      destruct (Hlv l Hlive) as (q & Hq & Hnq); [done |]. exists q. split; [done |].
      rewrite lookup_delete_ne; [done | congruence].
    - intros l [->%elem_of_singleton | Hlc]%elem_of_union [Hlv' Hne]%elem_of_difference;
        [by apply Hne, elem_of_singleton | by apply Hcl in Hlc].
    - intros l [[? _]%elem_of_difference | [->%elem_of_singleton | ?]%elem_of_union]; apply Hf; auto.
    - intros l q [Hlt Hor]%Hsv. split; [done |]. rewrite elem_of_difference, elem_of_union, elem_of_singleton.
      destruct (decide (l = listener s)); [auto |]. tauto. }
  destruct (fRemove f), (fClose f); intros [= <- _]; try done;
    (apply owned_remove; [done |]; cbn; intros l m; by rewrite lookup_delete_eq).
Qed.

End Sequential.

(** At most nine system calls: a call always ends. *)
Definition rank (ph : listenPhase) : nat :=
  match ph with
  | LMkdir => 9 | LChmodDir => 8 | LStat => 7 | LProbe => 6 | LUnlink => 5 | LBind => 4
  | LChmod _ => 3 | LCleanClose _ _ => 2 | LCleanRemove _ => 1 | LDone _ => 0
  end.

Lemma listenStep_rank f p w ph : (0 < rank ph)%nat -> (rank (listenStep f p w ph).2 < rank ph)%nat.
Proof.
  destruct ph; cbn [rank listenStep clearStaleSocket]; intros H; try lia;
    unfold withUmask, listenUnix; cbn; repeat case_match; simplify_eq; cbn; lia.
Qed.

Lemma listenRun_total n f p : forall w ph, (rank ph <= n)%nat -> is_Some (listenRun n f p w ph).
Proof.
  induction n as [|n IH]; intros w ph Hn.
  - destruct ph; simpl in Hn; try lia. by eexists.
  - pose proof (listenStep_rank f p w ph) as Hr. destruct (listenStep f p w ph) as [w1 ph1] eqn:Hs.
    destruct ph; cbn [listenRun]; rewrite ?Hs; [.. | by eexists]; apply IH; cbn [rank snd] in *; lia.
Qed.

Lemma Close_total f s w : is_Some (Close f s w).
Proof.
  unfold Close. cbn [closeRun closeStep]. case_bool_decide; [by eexists |]. cbn.
  destruct (fRemove f), (fClose f); by eexists.
Qed.

Lemma runOp_owned s o s' : ownedBut (crashed s) None (hw s) -> runOp s o = Some s' ->
  ownedBut (crashed s') None (hw s').
Proof.
  intros Ho. destruct o as [f p | f l | l]; cbn [runOp].
  - destruct (listenRun 9 f p (hw s) LMkdir) as [[w r]|] eqn:Hr; [| done]. intros [= <-].
    exact (listenRun_inv (crashed s) 9 f p (hw s) LMkdir w r Ho Hr).
  - destruct (servers (hw s) !! l) as [p|] eqn:Hs; [| done]. case_bool_decide as Hc; [done |].
    destruct (Close _ _ _) as [[w r]|] eqn:Hr; [| done]. intros [= <-].
    exact (Close_owned (crashed s) f {| path := p; listener := l |} (hw s) w r Ho Hs Hc Hr).
  - intros [= <-]. destruct Ho as [Hlv Hcl Hf Hsv]. split; cbn.
    + intros l' [Hl' Hne]%elem_of_difference Hx. by apply Hlv.
    + intros l' Hl' [Hl'' _]%elem_of_difference. by eapply Hcl.
    + intros l' [[? _]%elem_of_difference | ?]; apply Hf; auto.
    + intros l' q [Hlt Hor]%Hsv. split; [done |]. rewrite elem_of_difference, elem_of_union, elem_of_singleton.
      destruct (decide (l' = l)); [auto |]. tauto.
Qed.

Lemma runOps_owned os : forall s s', ownedBut (crashed s) None (hw s) -> runOps s os = Some s' ->
  ownedBut (crashed s') None (hw s').
Proof.
  induction os as [|o os IH]; intros s s' Ho; cbn [runOps]; [by intros [= <-] |].
  destruct (runOp s o) as [s1|] eqn:Hs; [| done]. apply IH. exact (runOp_owned s o s1 Ho Hs).
Qed.

Lemma idle_owned w C : idle w -> ownedBut C None w.
Proof.
  intros (Hl & Hs & Hc & _). split; rewrite ?Hl, ?Hs, ?Hc.
  - intros l ?%not_elem_of_empty. done.
  - intros l ?%not_elem_of_empty. done.
  - intros l [?%not_elem_of_empty | ?%not_elem_of_empty]; done.
  - intros l p. by rewrite lookup_empty.
Qed.

(** C37. One daemon per socket: however many daemons listen on, close or crash
    on whatever paths, with system calls failing anywhere, as long as their
    calls do not overlap: a daemon that is listening is reached at its own
    path (nobody unlinked or replaced its socket), the socket is accessible
    to its user only, and no other live daemon has the same path. *)
Theorem listening_daemon_keeps_socket (w : world) (os : list op) (s : host) (l : nat) :
  idle w -> runOps {| hw := w; crashed := ∅ |} os = Some s -> l ∈ live (hw s) ->
  exists p, servers (hw s) !! l = Some p /\ nodes (hw s) !! p = Some (ISocket l o600) /\
    forall l', l' ∈ live (hw s) -> servers (hw s) !! l' = Some p -> l' = l.
Proof.
  intros Hi Hrun Hl. apply runOps_owned in Hrun as [Hlv _ _ _]; [| by apply idle_owned].
  destruct (Hlv l Hl) as (p & Hp & Hn); [done |]. exists p. split_and!; [done | done |].
  intros l' Hl' Hp'. destruct (Hlv l' Hl') as (p' & Hp'' & Hn'); [done |]. congruence.
Qed.

Definition emptyHost : world :=
  {| nodes := {["/run/x.sock"%string := ISocket 0 o600]}; dirs := ∅; umask := 18; live := ∅; nextL := 1;
     servers := ∅; closedSrv := ∅ |}.

(** A stale socket is replaced; the daemon crashes; another takes over; a third is refused. *)
Definition restarts : list op :=
  [OListen noFaults "/run/x.sock"; OCrash 1; OListen noFaults "/run/x.sock"; OListen noFaults "/run/x.sock"].

Lemma listening_daemon_keeps_socket_witness :
  exists s, runOps {| hw := emptyHost; crashed := ∅ |} restarts = Some s /\
    exists p, servers (hw s) !! 2%nat = Some p /\ nodes (hw s) !! p = Some (ISocket 2 o600) /\
      forall l', l' ∈ live (hw s) -> servers (hw s) !! l' = Some p -> l' = 2%nat.
Proof.
  destruct (runOps {| hw := emptyHost; crashed := ∅ |} restarts) as [s|] eqn:Hr; [| by vm_compute in Hr].
  exists s. split; [done |].
  apply (listening_daemon_keeps_socket emptyHost restarts s 2).
  - split_and!; [done | done | done |]. intros p l m. cbn. rewrite lookup_singleton_Some.
    intros [_ [= <- _]]. lia.
  - exact Hr.
  - apply (bool_decide_unpack _). cut (bool_decide (2%nat ∈ live (hw s)) = true); [by intros -> |].
    vm_compute in Hr. injection Hr as <-. vm_compute. reflexivity.
Defined.

(** ** [Listen] on each state of the path *)

Definition serving (w : world) (p : string) (w' : world) : Prop :=
  nodes w' = <[p := ISocket (nextL w) o600]> (nodes w) /\ live w' = {[nextL w]} ∪ live w /\
  servers w' = <[nextL w := p]> (servers w).

Lemma listenRun_step n f p w ph w1 ph1 :
  rank ph <> 0%nat -> listenStep f p w ph = (w1, ph1) -> listenRun (S n) f p w ph = listenRun n f p w1 ph1.
Proof. intros Hr Hs. destruct ph; cbn [listenRun]; by rewrite ?Hs. Qed.

Lemma listenRun_done n f p w r : listenRun n f p w (LDone r) = Some (w, r).
Proof. by destruct n. Qed.

(** The last two calls, on a free path. *)
Lemma listenRun_bind n p w : nodes w !! p = None ->
  exists w', listenRun (3 + n) noFaults p w LBind = Some (w', Ok {| path := p; listener := nextL w |}) /\
    serving w p w' /\ umask w' = umask w /\ dirs w' = dirs w.
Proof.
  intros Hp. erewrite (listenRun_step (2 + n)); [| done |]; [| unfold listenStep, withUmask, listenUnix; cbn; rewrite Hp; reflexivity].
  erewrite (listenRun_step (1 + n)); [| done |]; [| cbn; rewrite lookup_insert_eq; reflexivity].
  rewrite listenRun_done. eexists. split; [reflexivity |]. split; [| done].
  unfold serving. cbn. by rewrite insert_insert_eq.
Qed.

(** [Listen] on every state of its path, when no system call fails of
    its own: it always returns; with nothing at the path, or the socket of a
    dead daemon, it serves there with a socket of mode 0600; with a live
    daemon's socket it refuses and names the daemon, and with a file that is
    not a socket it refuses, leaving the path as it was in both cases; the
    directory is made private and the process's umask is what it was. *)
Theorem listen_outcomes (w : world) (p : string) :
  exists w' r, listenRun 9 noFaults p w LMkdir = Some (w', r) /\
    dirs w' !! DirOf p = Some o700 /\ umask w' = umask w /\
    match nodes w !! p with
    | None => r = Ok {| path := p; listener := nextL w |} /\ serving w p w'
    | Some IRegular =>
        r = Err (EFmt "backchannel: path %q exists and is not a socket" [AStr p]) /\
        nodes w' = nodes w /\ live w' = live w
    | Some (ISocket l _) =>
        if bool_decide (l ∈ live w)
        then r = Err (EFmt "backchannel: another daemon is already listening on %q" [AStr p]) /\
             nodes w' = nodes w /\ live w' = live w
        else r = Ok {| path := p; listener := nextL w |} /\ serving w p w'
    end.
Proof.
  set (w1 := set_dirs (mkdirAll w (DirOf p)) (<[DirOf p := o700]> (dirs (mkdirAll w (DirOf p))))).
  assert (nodes w1 = nodes w /\ live w1 = live w /\ servers w1 = servers w /\ nextL w1 = nextL w /\
          umask w1 = umask w /\ dirs w1 !! DirOf p = Some o700) as (Hn & Hl & Hs & Hx & Hu & Hd).
  { unfold w1, mkdirAll. destruct (dirs w !! DirOf p); cbn; by rewrite lookup_insert_eq. }
  rewrite (listenRun_step 8 _ _ _ LMkdir (mkdirAll w (DirOf p)) LChmodDir) by done.
  rewrite (listenRun_step 7 _ _ _ LChmodDir w1 LStat) by done. clearbody w1.
  rewrite <-Hn, <-Hl, <-Hu. destruct (nodes w1 !! p) as [[|l m]|] eqn:Hp.
  - erewrite (listenRun_step 6) by (cbn; rewrite ?Hp; done). rewrite listenRun_done. eauto 10.
  - rewrite (listenRun_step 6 _ _ _ LStat w1 LProbe) by (cbn; rewrite ?Hp; done). case_bool_decide as Hlv.
    + erewrite (listenRun_step 5) by (cbn; rewrite ?Hp, ?bool_decide_eq_true_2 by done; done).
      rewrite listenRun_done. eauto 10.
    + rewrite (listenRun_step 5 _ _ _ LProbe w1 LUnlink)
        by (cbn; rewrite ?Hp, ?bool_decide_eq_false_2 by done; done).
      rewrite (listenRun_step 4 _ _ _ LUnlink (remove w1 p) LBind) by done.
      destruct (listenRun_bind 1 p (remove w1 p)) as (w' & Hr & Hw & Hu' & Hd'); [apply lookup_delete_eq |].
      exists w', (Ok {| path := p; listener := nextL w |}). cbn [Nat.add] in Hr. rewrite Hr. cbn [nextL remove set_nodes].
      rewrite Hx. destruct Hw as (H1 & H2 & H3). cbn in H1, H2, H3, Hd'. unfold serving.
      rewrite H1, H2, H3, Hu', Hd', insert_delete_eq, Hx, Hs, <-Hn, <-Hl. done.
  - rewrite (listenRun_step 6 _ _ _ LStat w1 LBind) by (cbn; rewrite ?Hp; done).
    destruct (listenRun_bind 3 p w1) as (w' & Hr & Hw & Hu' & Hd'); [done |].
    exists w', (Ok {| path := p; listener := nextL w |}). cbn [Nat.add] in Hr. rewrite Hr, Hx.
    destruct Hw as (H1 & H2 & H3). unfold serving. rewrite H1, H2, H3, Hu', Hd', Hx, Hs, <-Hn, <-Hl. done.
Qed.

(** ** Overlapping calls *)

Inductive thread :=
  | TListen (p : string) (ph : listenPhase)
  | TClose (s : Server) (ph : closePhase).

(** One system call of thread [t]. *)
Definition stepThread (w : world) (ths : list thread) (t : nat) : world * list thread :=
  match ths !! t with
  | Some (TListen p ph) => let '(w, ph) := listenStep noFaults p w ph in (w, <[t := TListen p ph]> ths)
  | Some (TClose s ph) => let '(w, ph) := closeStep noFaults s w ph in (w, <[t := TClose s ph]> ths)
  | None => (w, ths)
  end.

Fixpoint schedule (w : world) (ths : list thread) (ts : list nat) : world * list thread :=
  match ts with
  | [] => (w, ths)
  | t :: ts => let '(w, ths) := stepThread w ths t in schedule w ths ts
  end.

(** Overlapping [Listen] calls break the exclusivity: two daemons
    started over the same stale socket can both return a server for its
    path, both listening, with the first one's socket unlinked by the second
    (which probed it before the first had bound), so that no CLI reaches the
    first daemon; and when the first daemon then closes, it unlinks the
    second's socket, which is left listening at no path. *)
Theorem racing_listens_displace :
  let p := "/run/x.sock"%string in
  let srv l := {| path := p; listener := l |} in
  let '(w, ths) := schedule emptyHost [TListen p LMkdir; TListen p LMkdir]
                     [0; 0; 0; 0; 1; 1; 1; 1; 1; 1; 1; 0; 0; 0]%nat in
  ths = [TListen p (LDone (Ok (srv 2%nat))); TListen p (LDone (Ok (srv 1%nat)))] /\
  live w = {[1%nat; 2%nat]} /\ nodes w !! p = Some (ISocket 2 o600) /\
  (let '(w, ths) := schedule w [TClose (srv 1%nat) CLock] [0; 0; 0]%nat in
   ths = [TClose (srv 1%nat) (CDone None)] /\ live w = {[2%nat]} /\ nodes w !! p = None).
Proof. vm_compute. split_and!; reflexivity. Qed.

(** ** [Accept] *)

(** A call in [AcceptUnix]: whether its context is done, and whether its
    watching goroutine still waits.  A watcher outlives the call: it ends
    when the call has returned, or pokes the deadline if its context is done. *)
Record acceptCall := {
  ctxDone : bool;
  watching : bool
}.

(** The listener: whether its deadline is in the past, the connections in
    its queue; whether [Close] was called; the call in progress and the
    watchers of returned calls, each with whether its context is done. *)
Record acceptor := {
  deadlinePast : bool;
  backlog : list nat;
  srvClosed : bool;
  call : option acceptCall;
  lateWatchers : list bool
}.

Inductive acceptEvent :=
  | CallAccept
  | CliConnects (c : nat)
  | CtxDone
  | WatcherPokes
  | AcceptReturns
  | LateWatcher (i : nat)
  | CloseServer.

Definition ErrCanceled : error := ENew "context canceled".
Definition ErrTimeout : error := ENew "i/o timeout".
Definition ErrClosed : error := ENew "use of closed network connection".

(** [AcceptUnix]: a closed listener or a past deadline fails; otherwise the
    next connection, if one is queued. *)
Definition AcceptUnix (a : acceptor) : option (result nat) :=
  if srvClosed a then Some (Err ErrClosed)
  else if deadlinePast a then Some (Err ErrTimeout)
  else match backlog a with c :: _ => Some (Ok c) | [] => None end.

(** One step; the result of a call that returns. *)
Definition acceptStep (a : acceptor) (e : acceptEvent) : option (acceptor * option (result nat)) :=
  match e, call a with
  | CallAccept, None =>
      Some ({| deadlinePast := deadlinePast a; backlog := backlog a; srvClosed := srvClosed a;
               call := Some {| ctxDone := false; watching := true |}; lateWatchers := lateWatchers a |}, None)
  | CliConnects c, _ =>
      Some ({| deadlinePast := deadlinePast a; backlog := backlog a ++ [c]; srvClosed := srvClosed a;
               call := call a; lateWatchers := lateWatchers a |}, None)
  | CtxDone, Some k =>
      Some ({| deadlinePast := deadlinePast a; backlog := backlog a; srvClosed := srvClosed a;
               call := Some {| ctxDone := true; watching := watching k |}; lateWatchers := lateWatchers a |}, None)
  | WatcherPokes, Some k =>
      if ctxDone k && watching k then
        Some ({| deadlinePast := true; backlog := backlog a; srvClosed := srvClosed a;
                 call := Some {| ctxDone := true; watching := false |}; lateWatchers := lateWatchers a |}, None)
      else None
  | AcceptReturns, Some k =>
      let late := if watching k then [ctxDone k] else [] in
      match AcceptUnix a with
      | None => None
      | Some (Err err) =>
          Some ({| deadlinePast := deadlinePast a; backlog := backlog a; srvClosed := srvClosed a;
                   call := None; lateWatchers := lateWatchers a ++ late |},
                Some (Err (if ctxDone k then ErrCanceled else if srvClosed a then ErrClosed
                           else EWrap "backchannel accept: %w" [] err)))
      | Some (Ok c) =>
          Some ({| deadlinePast := false; backlog := tail (backlog a); srvClosed := srvClosed a;
                   call := None; lateWatchers := lateWatchers a ++ late |}, Some (Ok c))
      end
  | LateWatcher i, _ =>
      match lateWatchers a !! i with
      | Some true =>
          Some ({| deadlinePast := true; backlog := backlog a; srvClosed := srvClosed a; call := call a;
                   lateWatchers := delete i (lateWatchers a) |}, None)
      | Some false =>
          Some ({| deadlinePast := deadlinePast a; backlog := backlog a; srvClosed := srvClosed a; call := call a;
                   lateWatchers := delete i (lateWatchers a) |}, None)
      | None => None
      end
  | CloseServer, _ =>
      Some ({| deadlinePast := deadlinePast a; backlog := backlog a; srvClosed := true; call := call a;
               lateWatchers := lateWatchers a |}, None)
  | _, _ => None
  end.

Fixpoint acceptRun (a : acceptor) (es : list acceptEvent) : option (acceptor * list (result nat)) :=
  match es with
  | [] => Some (a, [])
  | e :: es =>
      match acceptStep a e with
      | None => None
      | Some (a, r) =>
          match acceptRun a es with
          | None => None
          | Some (a, rs) => Some (a, match r with Some r => r :: rs | None => rs end)
          end
      end
  end.

Definition newAcceptor : acceptor :=
  {| deadlinePast := false; backlog := []; srvClosed := false; call := None; lateWatchers := [] |}.

(** The connections of a run, and whether a context ended or the server closed. *)
Definition connected (es : list acceptEvent) : list nat :=
  flat_map (fun e => match e with CliConnects c => [c] | _ => [] end) es.
Definition undisturbed (es : list acceptEvent) : bool :=
  forallb (fun e => match e with CtxDone | CloseServer => false | _ => true end) es.

Definition quiet (a : acceptor) : Prop :=
  deadlinePast a = false /\ srvClosed a = false /\ (forall k, call a = Some k -> ctxDone k = false) /\
  Forall (fun b => b = false) (lateWatchers a).

Lemma acceptStep_quiet a e a' r : quiet a -> undisturbed [e] = true -> acceptStep a e = Some (a', r) ->
  quiet a' /\ map Ok (backlog a ++ connected [e]) =
              match r with Some r => [r] | None => [] end ++ map Ok (backlog a').
Proof.
  intros (Hd & Hc & Hk & Hw) He Hs. destruct e; try done; cbn [acceptStep connected flat_map] in *.
  - destruct (call a); [done |]. injection Hs as <- <-. rewrite !app_nil_r. unfold quiet. cbn.
    split_and!; try done. by intros k [= <-].
  - injection Hs as <- <-. by unfold quiet.
  - destruct (call a) as [k|]; [| done]. by rewrite (Hk k) in Hs.
  - destruct (call a) as [k|] eqn:Hcall; [| done]. unfold AcceptUnix in Hs. rewrite Hc, Hd in Hs.
    destruct (backlog a) as [|c l]; [done |]. injection Hs as <- <-. rewrite !app_nil_r. unfold quiet. cbn.
    split_and!; try done. apply Forall_app. split; [done |].
    destruct (watching k); [| done]. rewrite (Hk k) by done. by repeat constructor.
  - destruct (lateWatchers a !! i) as [[]|] eqn:Hi; [| | done].
    + rewrite Forall_forall in Hw. apply list_elem_of_lookup_2, Hw in Hi. done.
    + injection Hs as <- <-. rewrite !app_nil_r. unfold quiet. cbn. split_and!; try done.
      by apply Forall_delete.
Qed.

Lemma acceptRun_quiet es : forall a a' rs, quiet a -> undisturbed es = true ->
  acceptRun a es = Some (a', rs) -> map Ok (backlog a ++ connected es) = rs ++ map Ok (backlog a').
Proof.
  induction es as [|e es IH]; intros a a' rs Hq He Hr; cbn [acceptRun] in Hr.
  { injection Hr as <- <-. by rewrite app_nil_r. }
  destruct (acceptStep a e) as [[a1 r]|] eqn:Hs; [| done].
  destruct (acceptRun a1 es) as [[a2 rs1]|] eqn:Hr1; [| done]. injection Hr as <- <-.
  cbn [undisturbed forallb] in He. apply andb_prop in He as [He Hes].
  destruct (acceptStep_quiet a e a1 r) as [Hq1 Hm]; [done | by cbn; rewrite He | done |].
  specialize (IH a1 a2 rs1 Hq1 Hes Hr1).
  change (connected (e :: es)) with (connected ([e] ++ es)).
  assert (connected ([e] ++ es) = connected [e] ++ connected es) as -> by apply flat_map_app.
  rewrite app_assoc, map_app, Hm, <-app_assoc, <-map_app, IH. by destruct r.
Qed.

(** [Accept] hands out the CLI connections exactly once each and in
    order, as long as no context is cancelled and the server is not closed.
    A cancelled [Accept], though, leaves the listener's deadline in the past:
    every later [Accept], its context alive and CLIs waiting, fails with a
    timeout until one succeeds, and none can. *)
Theorem accept_in_order_until_cancelled :
  (forall es a rs, undisturbed es = true -> acceptRun newAcceptor es = Some (a, rs) ->
     map Ok (connected es) = rs ++ map Ok (backlog a)) /\
  (forall c n, acceptRun newAcceptor
      ([CallAccept; CtxDone; WatcherPokes; AcceptReturns; CliConnects c] ++
       concat (replicate n [CallAccept; AcceptReturns])) =
     Some ({| deadlinePast := true; backlog := [c]; srvClosed := false; call := None;
              lateWatchers := replicate n false |},
           Err ErrCanceled :: replicate n (Err (EWrap "backchannel accept: %w" [] ErrTimeout)))).
Proof.
  split.
  - intros es a rs He Hr. apply (acceptRun_quiet es newAcceptor); [| done | done].
    unfold quiet. cbn. split_and!; try done.
  - intros c n. cbn -[replicate concat].
    cut (forall ws, acceptRun {| deadlinePast := true; backlog := [c]; srvClosed := false; call := None;
                      lateWatchers := ws |} (concat (replicate n [CallAccept; AcceptReturns])) =
              Some ({| deadlinePast := true; backlog := [c]; srvClosed := false; call := None;
                       lateWatchers := ws ++ replicate n false |},
                    replicate n (Err (EWrap "backchannel accept: %w" [] ErrTimeout)))).
    { intros Hn. by rewrite Hn. }
    induction n as [|n IH]; intros ws; [by rewrite app_nil_r |].
    cbn -[replicate] in *. cbn [replicate concat app acceptRun acceptStep call AcceptUnix srvClosed deadlinePast].
    cbn. rewrite IH, <-app_assoc. done.
Qed.
