(* ===== verification/Dial.v ===== *)
(** * Dial: connections to the relay and the L2 handshake (transport.go,
    cgo_transport.go, and [Connect], [activate], [validateDatagrams] of api.go)

    The dial functions of the three roles (register, listen, connect) over raw
    QUIC and WebTransport, the handle table through which libpigeon uses Go
    streams, and [Connect] and [Listener.activate], which build a [Session]
    on a dialled connection.

    The state is what the process holds: open connections, stream handles and
    cwire references.  Inputs of the calls are what the network, the host and
    libpigeon return; a stream is any type with the [Writer] and [Reader]
    operations of [Wire].  libpigeon's key derivation is a parameter. *)

From Stdlib Require Import ZArith Lia Strings.Byte Strings.String.
From stdpp Require Import base gmap sets strings list fin_maps.
From S2P Require Import Prelude Binary Wire Channel.

Open Scope Z_scope.

(** ** What the process holds *)

(** Connections, stream handles (with the connection whose primary stream
    the handle stands for) and [GoTransportRef]s, all by address. *)
Record res := {
  openConns : gset nat;
  handles : gmap nat nat;
  refs : gset nat;
  next : nat
}.

Definition newConn (r : res) : res * nat :=
  ({| openConns := {[next r]} ∪ openConns r; handles := handles r; refs := refs r; next := S (next r) |}, next r).
Definition closeConn (r : res) (c : nat) : res :=
  {| openConns := openConns r ∖ {[c]}; handles := handles r; refs := refs r; next := next r |}.
Definition registerStream (r : res) (c : nat) : res * nat :=
  ({| openConns := openConns r; handles := <[next r := c]> (handles r); refs := refs r; next := S (next r) |}, next r).
Definition lookupStream (r : res) (p : nat) : option nat := handles r !! p.
Definition removeStream (r : res) (p : nat) : res * option nat :=
  ({| openConns := openConns r; handles := delete p (handles r); refs := refs r; next := next r |}, handles r !! p).
Definition newRef (r : res) : res * nat :=
  ({| openConns := openConns r; handles := handles r; refs := {[next r]} ∪ refs r; next := S (next r) |}, next r).
Definition closeRef (r : res) (k : nat) : res :=
  {| openConns := openConns r; handles := handles r; refs := refs r ∖ {[k]}; next := next r |}.

Definition release (r : res) (handle ref : nat) : res := closeRef (removeStream r handle).1 ref.

(** ** Relay dials *)

Record Config := {
  cToken : string;
  cInstanceID : string;
  cWebTransport : bool;
  cQUICPort : string
}.

(** What one dial meets: the parsed relay URL (host and port), the QUIC or
    WebTransport dial, and the opening of the primary stream. *)
Record DialEnv (W : Type) := {
  eURL : result (string * string);
  eDial : option error;
  eOpen : result W
}.
Arguments eURL {W}.
Arguments eDial {W}.
Arguments eOpen {W}.

(** A dialled transport: its connection, the primary stream, the instance id. *)
Record transport (W : Type) := {
  tconn : nat;
  primary : W;
  instanceID : string
}.
Arguments tconn {W}.
Arguments primary {W}.
Arguments instanceID {W}.
Arguments Build_transport {W}.

Definition quicAddr {W} (e : DialEnv W) (c : Config) : result string :=
  match eURL e with
  | Err err => Err (EWrap "parse relay URL: %w" [] err)
  | Ok (host, uport) =>
      let port := cQUICPort c in
      let port := if bool_decide (port = EmptyString) then uport else port in
      let port := if bool_decide (port = EmptyString) then "4433"%string else port in
      Ok (host ++ ":" ++ port)%string
  end.

Section Dial.
Context {W : Type} `{Writer W} `{Reader W}.

Definition dialRelayQUIC (e : DialEnv W) (c : Config) (r : res) : res * result (nat * W) :=
  match quicAddr e c with
  | Err err => (r, Err err)
  | Ok addr =>
      match eDial e with
      | Some err => (r, Err (EWrap "quic dial: %w" [] err))
      | None =>
          let '(r, conn) := newConn r in
          match eOpen e with
          | Err err => (closeConn r conn, Err (EWrap "open stream: %w" [] err))
          | Ok stream => (r, Ok (conn, stream))
          end
      end
  end.

Definition dialRelayWebTransport (e : DialEnv W) (r : res) : res * result (nat * W) :=
  match eDial e with
  | Some err => (r, Err err)
  | None =>
      let '(r, session) := newConn r in
      match eOpen e with
      | Err err => (closeConn r session, Err (EWrap "open stream: %w" [] err))
      | Ok stream => (r, Ok (session, stream))
      end
  end.

(** The greeting exchange every role runs on its primary stream: write the
    greeting, read one message; a failure closes the connection. *)
Definition greet (role readWhat : string) (greeting : bytes) (r : res) (conn : nat) (stream : W)
    : res * result (W * bytes) :=
  match writeMessage stream greeting with
  | (_, Some err) => (closeConn r conn, Err (EWrap (role ++ ": handshake: %w") [] err))
  | (stream, None) =>
      match readMessage stream with
      | (_, Err err) => (closeConn r conn, Err (EWrap (role ++ ": " ++ readWhat ++ ": %w") [] err))
      | (stream, Ok reply) => (r, Ok (stream, reply))
      end
  end.

(** The wrapped error of the relay dial: [connect] names the instance. *)
Definition dialWith (webTransport : bool) (e : DialEnv W) (c : Config) (r : res) : res * result (nat * W) :=
  if webTransport then dialRelayWebTransport e r else dialRelayQUIC e c r.

Definition dialRegister (e : DialEnv W) (c : Config) (r : res) : res * result (transport W) :=
  match dialWith (cWebTransport c) e c r with
  | (r, Err err) => (r, Err (EWrap "register: %w" [] err))
  | (r, Ok (conn, stream)) =>
      match greet "register" "read ID" (EncodeRelayGreetingRegister (cToken c) (cInstanceID c)) r conn stream with
      | (r, Err err) => (r, Err err)
      | (r, Ok (stream, idBytes)) =>
          (r, Ok {| tconn := conn; primary := stream; instanceID := bytes_str idBytes |})
      end
  end.

Definition dialListen (e : DialEnv W) (iid : string) (c : Config) (r : res) : res * result (transport W) :=
  match dialWith (cWebTransport c) e c r with
  | (r, Err err) => (r, Err (EWrap "listen: %w" [] err))
  | (r, Ok (conn, stream)) =>
      match greet "listen" "read ack" (EncodeRelayGreetingListen (cToken c) iid) r conn stream with
      | (r, Err err) => (r, Err err)
      | (r, Ok (stream, _)) => (r, Ok {| tconn := conn; primary := stream; instanceID := iid |})
      end
  end.

Definition dialInitiator (e : DialEnv W) (iid : string) (c : Config) (r : res) : res * result (transport W) :=
  match dialWith (cWebTransport c) e c r with
  | (r, Err err) => (r, Err (EWrap "connect to %s: %w" [AStr iid] err))
  | (r, Ok (conn, stream)) =>
      match greet "connect" "read ack" (EncodeRelayGreetingConnect iid) r conn stream with
      | (r, Err err) => (r, Err err)
      | (r, Ok (stream, _)) => (r, Ok {| tconn := conn; primary := stream; instanceID := iid |})
      end
  end.

End Dial.

(** ** Datagram declarations *)

(** [validateDatagrams] visits the map in the order [entries]. *)
Fixpoint validateDatagrams_loop (seen : gmap Z string) (entries : list (string * Z)) : option error :=
  match entries with
  | [] => None
  | (name, id) :: rest =>
      if id =? 0 then Some (EFmt "datagram channel %q: id 0 is reserved" [AStr name]) else
      match seen !! id with
      | Some other =>
          Some (EFmt "datagram channel id %d used by both %q and %q" [AInt id; AStr other; AStr name])
      | None => validateDatagrams_loop (<[id := name]> seen) rest
      end
  end.
Definition validateDatagrams (entries : list (string * Z)) : option error := validateDatagrams_loop ∅ entries.

(** The two tables [newSession] builds: ids by name, and the name of the
    [Datagram] of each id. *)
Definition newDatagrams (entries : list (string * Z)) : gmap string Z * gmap Z string :=
  fold_left (fun '(cfg, dgs) '(name, id) => (<[name := id]> cfg, <[id := name]> dgs)) entries (∅, ∅).

(** ** Sessions *)

Section Session.
Context {W : Type} `{Writer W} `{Reader W}.
(** Session material derived from a pairing record, the role and the nonce
    ([cwire.DeriveSessionMaterial] after [pairingRecordToCwire]). *)
Context {Material : Type} (DeriveSessionMaterial : PairingRecord -> bool -> bytes -> result Material).

Record Session := {
  s_transport : transport W;
  s_ownsTransport : bool;
  s_material : option Material;
  s_peerID : string;
  s_localID : string;
  s_route : string;
  s_isBackend : bool;
  s_cwireRef : option nat;
  s_cwirePrimary : option nat;
  s_preferLAN : bool;
  s_lanReady : bool;
  s_offersLAN : bool;
  s_discover : bool;
  s_streams : list string;
  s_dgConfig : gmap string Z;
  s_datagrams : gmap Z string
}.

(** [Session.Close], for what the session holds. *)
Definition sessionClose (s : Session) (r : res) : res :=
  let r := match s_cwirePrimary s with Some p => (removeStream r p).1 | None => r end in
  let r := match s_cwireRef s with Some k => closeRef r k | None => r end in
  if s_ownsTransport s then closeConn r (tconn (s_transport s)) else r.

Record ConnectArgs := {
  ca_InstanceID : string;
  ca_Route : string;
  ca_Record : option PairingRecord;
  ca_Identity : option string;
  ca_Relay : string;
  ca_Token : string;
  ca_Datagrams : list (string * Z);
  ca_Streams : list string;
  ca_PreferLAN : bool
}.

(** What [Connect] meets: the dial, and libpigeon's client activation of a
    device for a route over the primary stream. *)
Record ConnectEnv := {
  ce_dial : DialEnv W;
  ce_activation : string -> string -> W -> W * result bytes
}.

Definition Connect (e : ConnectEnv) (args : option ConnectArgs) (r : res) : res * result Session :=
  match args with
  | None => (r, Err (ENew "pigeon.Connect: args is nil"))
  | Some args =>
  if bool_decide (ca_InstanceID args = EmptyString)
  then (r, Err (ENew "pigeon.Connect: InstanceID is required")) else
  if bool_decide (ca_Relay args = EmptyString)
  then (r, Err (ENew "pigeon.Connect: Relay is required")) else
  let pairingMode := bool_decide (ca_Record args = None) in
  if negb pairingMode && bool_decide (ca_Identity args = None)
  then (r, Err (ENew "pigeon.Connect: Identity is required in activation mode (Record supplied)")) else
  match validateDatagrams (ca_Datagrams args) with
  | Some err => (r, Err (EWrap "pigeon.Connect: %w" [] err))
  | None =>
  let cfg := {| cToken := ca_Token args; cInstanceID := EmptyString; cWebTransport := false;
                cQUICPort := EmptyString |} in
  match dialInitiator (ce_dial e) (ca_InstanceID args) cfg r with
  | (r, Err err) => (r, Err (EWrap "relay connect: %w" [] err))
  | (r, Ok tr) =>
  match (if pairingMode then writeMessage (primary tr) [] else (primary tr, None)) with
  | (_, Some err) => (closeConn r (tconn tr), Err (EWrap "relay connect: ready: %w" [] err))
  | (stream, None) =>
  let tr := {| tconn := tconn tr; primary := stream; instanceID := instanceID tr |} in
  let '(cfgs, dgs) := newDatagrams (ca_Datagrams args) in
  let session tr mat ref handle :=
    {| s_transport := tr; s_ownsTransport := true; s_material := mat; s_peerID := ca_InstanceID args;
       s_localID := if ca_PreferLAN args && negb pairingMode then default EmptyString (ca_Identity args) else EmptyString;
       s_route := ca_Route args; s_isBackend := false; s_cwireRef := ref; s_cwirePrimary := handle;
       s_preferLAN := ca_PreferLAN args && negb pairingMode && bool_decide (ca_Identity args <> None);
       s_lanReady := ca_PreferLAN args && negb pairingMode && bool_decide (ca_Identity args <> None);
       s_offersLAN := false; s_discover := false; s_streams := ca_Streams args; s_dgConfig := cfgs; s_datagrams := dgs |} in
  match ca_Record args with
  | None => (r, Ok (session tr None None None))
  | Some record =>
      let '(r, ref) := newRef r in
      let '(r, handle) := registerStream r (tconn tr) in
      match ce_activation e (default EmptyString (ca_Identity args)) (ca_Route args) stream with
      | (_, Err err) => (closeConn (release r handle ref) (tconn tr), Err (EWrap "client activation: %w" [] err))
      | (stream, Ok sessionNonce) =>
          let tr := {| tconn := tconn tr; primary := stream; instanceID := instanceID tr |} in
          match DeriveSessionMaterial record false sessionNonce with
          | Err err =>
              (closeConn (release r handle ref) (tconn tr), Err (EWrap "derive session material: %w" [] err))
          | Ok mat => (r, Ok (session tr (Some mat) (Some ref) (Some handle)))
          end
      end
  end end end end end.

(** [ra_Identity] is the instance id of the identity, if one is given;
    [ra_Discover] and [ra_LAN] whether the hook and the server are set. *)
Record RegisterArgs := {
  ra_Identity : option string;
  ra_Pairing : option (string -> result (option PairingRecord));
  ra_Discover : bool;
  ra_Relay : string;
  ra_Token : string;
  ra_Datagrams : list (string * Z);
  ra_Streams : list string;
  ra_LAN : bool
}.

(** [Register] up to the start of the workers: the control connection, the
    configuration of the later listen dials and the assigned instance id. *)
Definition Register (e : DialEnv W) (args : option RegisterArgs) (r : res)
    : res * result (transport W * Config * string) :=
  match args with
  | None => (r, Err (ENew "pigeon.Register: args is nil"))
  | Some args =>
  if bool_decide (ra_Relay args = EmptyString)
  then (r, Err (ENew "pigeon.Register: Relay is required")) else
  let pairingMode := match ra_Pairing args with None => true | Some _ => false end in
  if negb pairingMode && bool_decide (ra_Identity args = None)
  then (r, Err (ENew "pigeon.Register: Identity is required in activation mode (Pairing supplied)")) else
  match validateDatagrams (ra_Datagrams args) with
  | Some err => (r, Err (EWrap "pigeon.Register: %w" [] err))
  | None =>
      let cfg id := {| cToken := ra_Token args; cInstanceID := id; cWebTransport := false;
                       cQUICPort := EmptyString |} in
      let requested := if pairingMode then EmptyString else default EmptyString (ra_Identity args) in
      match dialRegister e (cfg requested) r with
      | (r, Err err) => (r, Err (EWrap "relay register: %w" [] err))
      | (r, Ok control) => (r, Ok (control, cfg (instanceID control), instanceID control))
      end
  end end.

(** What libpigeon's backend activation does, given the [Pairing] hook, over the
    primary stream: the device ids it resolves, in order, and what it
    returns. *)
Record ActivationResult := {
  Accepted : bool;
  DeviceID : string;
  Nonce : bytes;
  ARoute : string
}.
Record ActivateEnv := {
  ae_activation : (string -> result (option PairingRecord)) -> W -> W * list string * result ActivationResult
}.

(** The record [ResolveFn] captured: that of the last device id it resolved. *)
Definition captured (pairing : string -> result (option PairingRecord)) (ids : list string) : option PairingRecord :=
  fold_left (fun rec id => match pairing id with Ok (Some r) => Some r | _ => rec end) ids None.

Definition activate (e : ActivateEnv) (args : RegisterArgs) (tr : transport W) (r : res) : res * result Session :=
  let '(cfgs, dgs) := newDatagrams (ra_Datagrams args) in
  match ra_Pairing args with
  | None =>
      match readMessage (primary tr) with
      | (_, Err err) => (r, Err (EWrap "await client: %w" [] err))
      | (stream, Ok _) =>
          (r, Ok {| s_transport := {| tconn := tconn tr; primary := stream; instanceID := instanceID tr |};
                    s_ownsTransport := true; s_material := None; s_peerID := EmptyString;
                    s_localID := EmptyString; s_route := EmptyString; s_isBackend := true;
                    s_cwireRef := None; s_cwirePrimary := None; s_preferLAN := false; s_lanReady := false;
                    s_offersLAN := false; s_discover := false; s_streams := ra_Streams args; s_dgConfig := cfgs; s_datagrams := dgs |})
      end
  | Some pairing =>
      let '(r, ref) := newRef r in
      let '(r, handle) := registerStream r (tconn tr) in
      let '(stream, resolved, result) := ae_activation e pairing (primary tr) in
      let rec := captured pairing resolved in
      match result with
      | Err err => (release r handle ref, Err (EWrap "activation: %w" [] err))
      | Ok result =>
          if negb (Accepted result)
          then (release r handle ref, Err (EFmt "activation rejected device %q" [AStr (DeviceID result)])) else
          match rec with
          | None => (release r handle ref, Err (ENew "activation succeeded but no record captured"))
          | Some rec =>
              match DeriveSessionMaterial rec true (Nonce result) with
              | Err err => (release r handle ref, Err (EWrap "derive session material: %w" [] err))
              | Ok mat =>
                  (r, Ok {| s_transport := {| tconn := tconn tr; primary := stream; instanceID := instanceID tr |};
                            s_ownsTransport := true; s_material := Some mat;
                            s_peerID := DeviceID result; s_localID := EmptyString; s_route := ARoute result;
                            s_isBackend := true; s_cwireRef := Some ref; s_cwirePrimary := Some handle;
                            s_preferLAN := false; s_lanReady := ra_LAN args; s_offersLAN := ra_LAN args;
                            s_discover := ra_Discover args;
                            s_streams := ra_Streams args; s_dgConfig := cfgs; s_datagrams := dgs |})
              end
          end
      end
  end.

(** *** Lemmas: what a call leaves behind *)

(** Addresses in use are below the next one. *)
Record wf (r : res) : Prop := {
  wf_conns c : c ∈ openConns r -> (c < next r)%nat;
  wf_handles p : is_Some (handles r !! p) -> (p < next r)%nat;
  wf_refs k : k ∈ refs r -> (k < next r)%nat
}.

Definition held (r r' : res) : Prop :=
  openConns r' = openConns r /\ handles r' = handles r /\ refs r' = refs r.

Definition heldConn (c : nat) (r r' : res) : Prop :=
  openConns r' = {[c]} ∪ openConns r /\ handles r' = handles r /\ refs r' = refs r /\
  (c < next r')%nat /\ (next r <= next r')%nat /\ (c ∉ openConns r) /\ wf r'.

Lemma union_difference_new (x : nat) (X : gset nat) : x ∉ X -> ({[x]} ∪ X) ∖ {[x]} = X.
Proof.
  intros Hx. apply leibniz_equiv. intros y. rewrite elem_of_difference, elem_of_union, elem_of_singleton.
  destruct (decide (y = x)) as [-> |]; tauto.
Qed.

Lemma wf_new r x : wf r -> (next r <= x)%nat -> x ∉ openConns r /\ handles r !! x = None /\ x ∉ refs r.
Proof.
  intros [Hc Hh Hr] Hx. split_and!.
  - intros ?%Hc. lia.
  - destruct (handles r !! x) eqn:E; [| done]. apply (mk_is_Some (handles r !! x)) in E.
    apply Hh in E. lia.
  - intros ?%Hr. lia.
Qed.

Lemma wf_newConn r : wf r -> wf (newConn r).1.
Proof.
  intros [Hc Hh Hr]. split; cbn.
  - intros c [->%elem_of_singleton | ?%Hc]%elem_of_union; lia.
  - intros p ?%Hh. lia.
  - intros k ?%Hr. lia.
Qed.

Lemma dialWith_held b (e : DialEnv W) c r r' o : wf r -> dialWith b e c r = (r', o) ->
  match o with Err _ => held r r' | Ok (conn, _) => heldConn conn r r' end.
Proof.
  intros Hw. pose proof (wf_new r (next r) Hw ltac:(lia)) as (Hn & _). pose proof (wf_newConn r Hw) as Hw1.
  unfold dialWith, dialRelayWebTransport, dialRelayQUIC, heldConn, held, newConn, closeConn in *.
  intros Hd. repeat case_match; simplify_eq; cbn in *; rewrite ?union_difference_new by done;
    split_and!; try done; lia.
Qed.

Lemma greet_held role what g r conn (stream : W) r' o : greet role what g r conn stream = (r', o) ->
  match o with Err _ => r' = closeConn r conn | Ok _ => r' = r end.
Proof. unfold greet. intros Hg. repeat case_match; by simplify_eq. Qed.

Lemma held_refl r : held r r.
Proof. done. Qed.

Lemma closeConn_held c r r1 r' : heldConn c r r1 -> held r1 r' -> held r (closeConn r' c).
Proof.
  intros (H1 & H2 & H3 & _ & _ & Hc & _) (H1' & H2' & H3'). unfold held, closeConn. cbn.
  rewrite H1', H2', H3', H1, H2, H3. by rewrite union_difference_new.
Qed.

Lemma dialRegister_held (e : DialEnv W) c r r' o : wf r -> dialRegister e c r = (r', o) ->
  match o with Err _ => held r r' | Ok tr => heldConn (tconn tr) r r' end.
Proof.
  intros Hw. unfold dialRegister. destruct (dialWith _ e c r) as [r1 [[conn stream]|err]] eqn:Hd;
    apply dialWith_held in Hd; [| done | by intros [= <- <-] | done].
  destruct (greet _ _ _ _ _ _) as [r2 [[stream2 rep]|err2]] eqn:Hg; apply greet_held in Hg; subst r2;
    intros [= <- <-]; [done | by eapply closeConn_held].
Qed.

Lemma Register_held (e : DialEnv W) args r r' o : wf r -> Register e args r = (r', o) ->
  match o with
  | Err _ => held r r'
  | Ok (control, cfg, iid) => heldConn (tconn control) r r' /\ instanceID control = iid /\ cInstanceID cfg = iid
  end.
Proof.
  intros Hw. unfold Register. destruct args as [args|]; [| by intros [= <- <-]].
  destruct (bool_decide _); [by intros [= <- <-] |]. destruct (negb _ && _); [by intros [= <- <-] |].
  destruct (validateDatagrams _); [by intros [= <- <-] |].
  destruct (dialRegister _ _ r) as [r1 [tr|err]] eqn:Hd; apply dialRegister_held in Hd; try done;
    by intros [= <- <-].
Qed.

Lemma dialInitiator_held (e : DialEnv W) iid c r r' o : wf r -> dialInitiator e iid c r = (r', o) ->
  match o with Err _ => held r r' | Ok tr => heldConn (tconn tr) r r' end.
Proof.
  intros Hw. unfold dialInitiator. destruct (dialWith _ e c r) as [r1 [[conn stream]|err]] eqn:Hd;
    apply dialWith_held in Hd; [| done | by intros [= <- <-] | done].
  destruct (greet _ _ _ _ _ _) as [r2 [[stream2 rep]|err2]] eqn:Hg; apply greet_held in Hg; subst r2;
    intros [= <- <-]; [done | by eapply closeConn_held].
Qed.

(** A reference and a handle taken and released. *)
Lemma register_release r c : wf r ->
  held r (release (registerStream (newRef r).1 c).1 (S (next r)) (next r)).
Proof.
  intros Hw. pose proof (wf_new r (next r) Hw ltac:(lia)) as (_ & _ & Hr).
  pose proof (wf_new r (S (next r)) Hw ltac:(lia)) as (_ & Hh & _).
  unfold held, release, closeRef, removeStream. cbn.
  by rewrite union_difference_new, delete_insert_id.
Qed.

(** What [Connect] does after its argument checks. *)
Lemma Connect_held e args r r' o : wf r -> Connect e args r = (r', o) ->
  match o with
  | Err _ => held r r'
  | Ok s => held r (sessionClose s r') /\ s_ownsTransport s = true /\ tconn (s_transport s) ∈ openConns r'
  end.
Proof.
  intros Hw. unfold Connect. destruct args as [args|]; [| by intros [= <- <-]].
  destruct (bool_decide _); [by intros [= <- <-] |]. destruct (bool_decide _); [by intros [= <- <-] |].
  destruct (negb _ && _); [by intros [= <- <-] |].
  destruct (validateDatagrams _); [by intros [= <- <-] |].
  destruct (dialInitiator _ _ _ r) as [r1 [tr|err]] eqn:Hd; apply dialInitiator_held in Hd;
    [| done | by intros [= <- <-] | done].
  destruct (if bool_decide _ then _ else _) as [stream [err|]];
    [intros [= <- <-]; by eapply closeConn_held, held_refl |].
  destruct (newDatagrams _) as [cfgs dgs]. pose proof Hd as (Ho & _ & _ & _ & _ & _ & Hw1).
  assert (tconn tr ∈ openConns r1) as Hin by (rewrite Ho; by apply elem_of_union_l, elem_of_singleton).
  destruct (ca_Record args) as [record|].
  - cbn [newRef registerStream]. pose proof (register_release r1 (tconn tr) Hw1) as Hrel. cbn in Hrel.
    destruct (ce_activation e _ _ _) as [stream' [nonce|err]]; [| intros [= <- <-]; by eapply closeConn_held].
    destruct (DeriveSessionMaterial _ _ _); intros [= <- <-]; [| by eapply closeConn_held].
    split_and!; [| done | done]. by eapply closeConn_held.
  - intros [= <- <-]. split_and!; [| done | done]. by eapply closeConn_held, held_refl.
Qed.

Lemma activate_held e args (tr : transport W) r r' o : wf r -> activate e args tr r = (r', o) ->
  match o with
  | Err _ => held r r'
  | Ok s => held (closeConn r (tconn tr)) (sessionClose s r') /\ tconn (s_transport s) = tconn tr
  end.
Proof.
  intros Hw. unfold activate. destruct (newDatagrams _) as [cfgs dgs].
  destruct (ra_Pairing args) as [pairing|].
  - cbn [newRef registerStream]. pose proof (register_release r (tconn tr) Hw) as Hrel. cbn in Hrel.
    destruct (ae_activation e pairing (primary tr)) as [[stream resolved] [result|err]]; [| by intros [= <- <-]].
    destruct (Accepted result); [| by intros [= <- <-]]. cbn [negb].
    destruct (captured pairing _) as [rec|]; [| by intros [= <- <-]].
    destruct (DeriveSessionMaterial _ _ _); intros [= <- <-]; [| done].
    split; [| done]. destruct Hrel as (H1 & H2 & H3). unfold held. cbn in *. by rewrite H2, H3.
  - destruct (readMessage (primary tr)) as [stream [m|err]]; intros [= <- <-]; [| done].
    by split.
Qed.

End Session.

(** *** Lemmas: datagram declarations *)

Lemma validateDatagrams_loop_spec entries : forall seen,
  validateDatagrams_loop seen entries = None <->
  Forall (fun e => e.2 <> 0) entries /\ NoDup (map snd entries) /\
  (forall id, id ∈ map snd entries -> seen !! id = None).
Proof.
  induction entries as [|[name id] entries IH]; intros seen; cbn [validateDatagrams_loop map].
  { split; [| done]. intros _. split_and!; [constructor | constructor |]. intros id ?%not_elem_of_nil. done. }
  rewrite Forall_cons, NoDup_cons. cbn [snd]. destruct (Z.eqb_spec id 0) as [-> | Hid]; [naive_solver |].
  destruct (seen !! id) as [other|] eqn:Hs.
  - split; [done |]. intros (_ & _ & Hn). rewrite (Hn id) in Hs; [done | by apply list_elem_of_here].
  - rewrite IH. split.
    + intros (Hz & Hnd & Hn). split_and!; try done.
      * intros Hin%Hn. by rewrite lookup_insert_eq in Hin.
      * intros id' [-> | Hin]%elem_of_cons; [done |]. apply Hn in Hin.
        by apply lookup_insert_None in Hin as [? _].
    + intros ((_ & Hz) & (Hni & Hnd) & Hn). split_and!; try done. intros id' Hin.
      apply lookup_insert_None. split; [apply Hn; by apply list_elem_of_further | by intros <-].
Qed.

(** Names and ids of a validated map are in one-to-one correspondence. *)
Lemma newDatagrams_inverse entries : NoDup (map fst entries) -> validateDatagrams entries = None ->
  forall name id, (newDatagrams entries).1 !! name = Some id <-> (newDatagrams entries).2 !! id = Some name.
Proof.
  unfold validateDatagrams. rewrite validateDatagrams_loop_spec. intros Hn (_ & Hi & _).
  cut (forall es (cfg : gmap string Z) (dgs : gmap Z string), NoDup (map fst es) -> NoDup (map snd es) ->
         (forall n i, (n, i) ∈ es -> cfg !! n = None /\ dgs !! i = None) ->
         (forall n i, cfg !! n = Some i <-> dgs !! i = Some n) ->
         let '(cfg', dgs') := fold_left (fun '(cfg, dgs) '(name, id) => (<[name := id]> cfg, <[id := name]> dgs))
                                es (cfg, dgs) in
         forall (n : string) (i : Z), cfg' !! n = Some i <-> dgs' !! i = Some n).
  { intros H. specialize (H entries ∅ ∅ Hn Hi). unfold newDatagrams. destruct (fold_left _ _ _).
    apply H; [done |]. intros n i. by rewrite !lookup_empty. }
  induction es as [|[n0 i0] es IH]; intros cfg dgs Hn1 Hi1 Hfree Heq; cbn [fold_left]; [done |].
  cbn [map] in Hn1, Hi1. apply NoDup_cons in Hn1 as [Hn0 Hn1]. apply NoDup_cons in Hi1 as [Hi0 Hi1].
  destruct (Hfree n0 i0) as [Hc0 Hd0]; [by apply list_elem_of_here |].
  apply IH; [done | done | |].
  - intros n i Hin. destruct (Hfree n i) as [Hc Hd]; [by apply list_elem_of_further |].
    rewrite !lookup_insert_None. split; split; try done; intros <-.
    + apply Hn0. apply (list_elem_of_fmap_2 fst) in Hin. done.
    + apply Hi0. apply (list_elem_of_fmap_2 snd) in Hin. done.
  - intros n i. rewrite !lookup_insert_Some. rewrite Heq.
    destruct (decide (n0 = n)) as [-> | Hne], (decide (i0 = i)) as [-> | Hni]; try tauto.
    + split; [intros [[_ ?] | [? _]]; done |]. intros [[? ?] | [_ Hx]]; [done |]. apply Heq in Hx. congruence.
    + split; [| intros [[_ ?] | [? _]]; done]. intros [[? ?] | [_ Hx]]; [done |]. congruence.
Qed.

Lemma captured_some pairing ids rec : captured pairing ids = Some rec ->
  exists id, id ∈ ids /\ pairing id = Ok (Some rec).
Proof.
  unfold captured.
  cut (forall ids acc, fold_left (fun rec id => match pairing id with Ok (Some r) => Some r | _ => rec end) ids acc = Some rec ->
         acc = Some rec \/ exists id, id ∈ ids /\ pairing id = Ok (Some rec)).
  { intros H Hf. apply H in Hf as [? | ?]; done. }
  clear ids. induction ids as [|id ids IH]; intros acc; cbn [fold_left]; [by left |].
  intros [Hacc | (id' & Hin & Hp)]%IH; [| right; exists id'; split; [by apply list_elem_of_further | done]].
  destruct (pairing id) as [[rec'|]|] eqn:Hp; [| by left ..]. injection Hacc as ->.
  right. exists id. split; [by apply list_elem_of_here | done].
Qed.

(** ** Theorems *)

(** A two-way stream: what was written, what is left to read. *)
Record duplex := {
  out : bytes;
  inp : bytes
}.
#[export] Instance duplex_writer : Writer duplex := {
  Write s data := ({| out := out s ++ data; inp := inp s |}, None)
}.
#[export] Instance duplex_reader : Reader duplex := {
  ReadFull s n :=
    let '(rest, r) := ReadFull (R := bytes) (inp s) n in ({| out := out s; inp := rest |}, r)
}.

Lemma writeMessage_duplex s data : len data <= MaxMessageSize ->
  writeMessage s data = ({| out := out s ++ frame data; inp := inp s |}, None).
Proof.
  intros Hd. unfold writeMessage, MaxMessageSize in *. pose proof (len_nonneg data).
  rewrite (proj2 (Z.ltb_ge _ _)) by lia. rewrite u32_small by lia.
  cbn [Write duplex_writer out inp]. unfold frame. by rewrite app_assoc.
Qed.

Lemma readMessage_duplex o data rest : len data <= MaxMessageSize ->
  readMessage {| out := o; inp := frame data ++ rest |} = ({| out := o; inp := rest |}, Ok data).
Proof.
  intros Hd. pose proof (readMessage_frame data rest Hd) as Hr. unfold readMessage in *.
  cbn [ReadFull duplex_reader inp out]. destruct (ReadFull (R := bytes) (frame data ++ rest) 4) as [r1 [h|]];
    [| done]. destruct (MaxMessageSize <? be_get h); [done |].
  cbn [ReadFull duplex_reader inp out]. destruct (ReadFull (R := bytes) r1 _) as [r2 x].
  by injection Hr as -> ->.
Qed.

(** The dial of a role: what each calls with the token and instance id of [g]. *)
Definition dialRole (e : DialEnv duplex) (wt : bool) (port : string) (g : RelayGreetingDecoded) (r : res)
    : res * result (transport duplex) :=
  let cfg := {| cToken := Token g; cInstanceID := InstanceId g; cWebTransport := wt; cQUICPort := port |} in
  match Variant g with
  | RelayGreetingRegister => dialRegister e cfg r
  | RelayGreetingListen => dialListen e (InstanceId g) cfg r
  | RelayGreetingConnect => dialInitiator e (InstanceId g) cfg r
  end.

(** The relay reads what a dial sends: over QUIC and over WebTransport,
    each of the three dials writes exactly one message on its primary stream,
    which the relay decodes as that role with the caller's token and instance
    id; the dial leaves the stream just after the relay's reply, takes the
    instance id the relay assigned when registering and the requested one
    otherwise, and holds exactly the one new connection. *)
Theorem relay_reads_dialled_greeting (e : DialEnv duplex) (wt : bool) (port host uport : string)
    (g : RelayGreetingDecoded) (reply rest : bytes) (r : res) :
  wf r -> greeting_valid g ->
  len (EncodeRelayGreeting g) <= MaxMessageSize -> len reply <= MaxMessageSize ->
  eURL e = Ok (host, uport) -> eDial e = None -> eOpen e = Ok {| out := []; inp := frame reply ++ rest |} ->
  exists r' tr, dialRole e wt port g r = (r', Ok tr) /\ heldConn (tconn tr) r r' /\
    (exists b, readMessage (R := bytes) (out (primary tr)) = ([], Ok b) /\ DecodeRelayGreeting b = Ok g) /\
    inp (primary tr) = rest /\
    instanceID tr = (if decide (Variant g = RelayGreetingRegister) then bytes_str reply else InstanceId g).
Proof.
  intros Hw Hg Hl Hrep Hu Hd Ho.
  assert (forall role what, greet role what (EncodeRelayGreeting g) (newConn r).1 (newConn r).2
            {| out := []; inp := frame reply ++ rest |} =
          ((newConn r).1, Ok ({| out := frame (EncodeRelayGreeting g); inp := rest |}, reply))) as Hgreet.
  { intros role what. unfold greet. rewrite writeMessage_duplex by done. cbn [out inp app].
    by rewrite readMessage_duplex. }
  assert (forall c, dialWith wt e c r = ((newConn r).1, Ok ((newConn r).2, {| out := []; inp := frame reply ++ rest |}))) as Hdial.
  { intros c. unfold dialWith, dialRelayWebTransport, dialRelayQUIC, quicAddr. rewrite Hu, Hd, Ho. by destruct wt. }
  pose proof (dialWith_held wt e {| cToken := ""; cInstanceID := ""; cWebTransport := wt; cQUICPort := "" |} r
                _ _ Hw (Hdial _)) as Hheld.
  assert (readMessage (R := bytes) (frame (EncodeRelayGreeting g)) = ([], Ok (EncodeRelayGreeting g))) as Hrd.
  { rewrite <-(app_nil_r (frame _)). by apply readMessage_frame. }
  destruct g as [v i t]. unfold dialRole, EncodeRelayGreeting in *. cbn [Variant InstanceId Token] in *.
  destruct v; unfold dialRegister, dialListen, dialInitiator; cbn [cWebTransport]; rewrite Hdial;
    cbn [cToken cInstanceID]; rewrite Hgreet; eexists _, _; (split; [reflexivity |]); cbn [tconn primary out inp instanceID];
    (split; [exact Hheld |]); (split; [eexists; split; [exact Hrd |] | by split]);
    exact (greeting_roundtrip _ Hg).
Qed.

Lemma relay_reads_dialled_greeting_witness :
  let e := {| eURL := Ok ("relay.example"%string, ""%string); eDial := None;
              eOpen := Ok {| out := []; inp := frame (str_bytes "i-7") ++ [] |} |} in
  let r0 := {| openConns := ∅; handles := ∅; refs := ∅; next := 0 |} in
  exists r' tr, dialRole e true ""
      {| Variant := RelayGreetingRegister; InstanceId := ""; Token := "tok" |} r0 = (r', Ok tr) /\
    instanceID tr = "i-7"%string.
Proof.
  intros e r0. destruct (relay_reads_dialled_greeting e true "" "relay.example" ""
    {| Variant := RelayGreetingRegister; InstanceId := ""; Token := "tok" |} (str_bytes "i-7") [] r0)
    as (r' & tr & Hr & _ & _ & _ & Hi).
  - split; cbn; [by intros ? ?%not_elem_of_empty | intros p [x Hx]; by rewrite lookup_empty in Hx |
                 by intros ? ?%not_elem_of_empty].
  - split; [apply (bool_decide_unpack _); vm_compute; exact I | done].
  - vm_compute. congruence.
  - vm_compute. congruence.
  - reflexivity.
  - reflexivity.
  - reflexivity.
  - exists r', tr. split; [exact Hr | exact Hi].
Defined.

(** C28. No failed connection attempt leaves anything behind: whatever fails
    (arguments, dial, greeting, arrival marker, activation, key derivation),
    [Connect] returns with exactly the connections, stream handles and cwire
    references the process held before; a returned session owns an open
    connection, and closing it releases everything [Connect] took.  The same
    holds of [Register] and its control connection, and of the handles and
    references of the backend's [activate]. *)
Theorem failed_handshake_leaves_nothing {W} `{Writer W} `{Reader W} {M} (derive : PairingRecord -> bool -> bytes -> result M)
    (r : res) : wf r ->
  (forall e args r' o, Connect derive e args r = (r', o) ->
     match o with
     | Err _ => held r r'
     | Ok s => held r (sessionClose s r') /\ s_ownsTransport s = true /\ tconn (s_transport s) ∈ openConns r'
     end) /\
  (forall (e : DialEnv W) args r' o, Register e args r = (r', o) ->
     match o with
     | Err _ => held r r'
     | Ok (control, cfg, iid) => held r (closeConn r' (tconn control)) /\ cInstanceID cfg = instanceID control
     end) /\
  (forall e args (tr : transport W) r' o, activate derive e args tr r = (r', o) ->
     match o with
     | Err _ => held r r'
     | Ok s => held (closeConn r (tconn tr)) (sessionClose s r') /\ tconn (s_transport s) = tconn tr
     end).
Proof.
  intros Hw. split_and!.
  - intros. by eapply Connect_held.
  - intros e args r' o Hr. apply Register_held in Hr; [| done]. destruct o as [[[control cfg] iid]|]; [| done].
    destruct Hr as (Hr & -> & ->). split; [by eapply closeConn_held, held_refl | done].
  - intros. by eapply activate_held.
Qed.

Definition noRes : res := {| openConns := ∅; handles := ∅; refs := ∅; next := 0 |}.
Definition someRecord : PairingRecord :=
  {| PeerInstanceID := "b"; RelayURL := ""; LocalPrivateKey := []; LocalPublicKey := []; PeerPublicKey := [] |}.
Definition someArgs : ConnectArgs :=
  {| ca_InstanceID := "b"; ca_Route := ""; ca_Record := Some someRecord; ca_Identity := Some "me"%string;
     ca_Relay := "https://r"; ca_Token := ""; ca_Datagrams := [("a"%string, 1); ("b"%string, 2)];
     ca_Streams := []; ca_PreferLAN := true |}.
Definition someDial : DialEnv duplex :=
  {| eURL := Ok ("r"%string, ""%string); eDial := None; eOpen := Ok {| out := []; inp := frame (str_bytes "ok") |} |}.

Lemma noRes_wf : wf noRes.
Proof.
  split; cbn; [by intros ? ?%not_elem_of_empty | intros p [x Hx]; by rewrite lookup_empty in Hx |
               by intros ? ?%not_elem_of_empty].
Qed.

(** A client whose activation is refused, and one that succeeds. *)
Lemma failed_handshake_leaves_nothing_witness :
  let derive (_ : PairingRecord) (_ : bool) (n : bytes) := Ok n in
  let refused := {| ce_dial := someDial; ce_activation := fun _ _ w => (w, Err (ENew "no")) |} in
  let accepted := {| ce_dial := someDial; ce_activation := fun _ _ w => (w, Ok [x07]) |} in
  is_ok (Connect derive refused (Some someArgs) noRes).2 = false /\
  held noRes (Connect derive refused (Some someArgs) noRes).1 /\
  is_ok (Connect derive accepted (Some someArgs) noRes).2 = true.
Proof.
  intros derive refused accepted. split; [vm_compute; reflexivity |]. split; [| vm_compute; reflexivity].
  destruct (failed_handshake_leaves_nothing derive noRes noRes_wf) as [Hc _].
  specialize (Hc refused (Some someArgs)).
  destruct (Connect derive refused (Some someArgs) noRes) as [r' o] eqn:E. specialize (Hc r' o eq_refl).
  destruct o as [s|err]; [| exact Hc]. apply (f_equal snd) in E. vm_compute in E. discriminate E.
Defined.

(** The keys of a session come from the pairing: a client session carries
    the material derived from the caller's own pairing record for
    the client role and the nonce of an activation of its own device id, and a
    backend session that of the record the backend's [Pairing] hook returned
    for the session's peer, for the backend role and
    the handshake's nonce (libpigeon resolving no other device than the one
    it accepts).  Without a record or hook (pairing mode) there are no keys;
    a device the hook does not resolve gets no session. *)
Theorem session_keys_from_pairing {W} `{Writer W} `{Reader W} {M} (derive : PairingRecord -> bool -> bytes -> result M) :
  (forall e args r r' s, Connect derive e (Some args) r = (r', Ok s) ->
     match ca_Record args with
     | Some rec => exists device w nonce m, ca_Identity args = Some device /\
         (ce_activation e device (ca_Route args) w).2 = Ok nonce /\ derive rec false nonce = Ok m /\ s_material s = Some m
     | None => s_material s = None
     end) /\
  (forall e args (tr : transport W) r r' s, activate derive e args tr r = (r', Ok s) ->
     match ra_Pairing args with
     | Some pairing => exists w ids res, ae_activation e pairing (primary tr) = (w, ids, Ok res) /\ s_peerID s = DeviceID res /\
         ((forall id, id ∈ ids -> id = DeviceID res) ->
          exists rec m, pairing (s_peerID s) = Ok (Some rec) /\ derive rec true (Nonce res) = Ok m /\ s_material s = Some m)
     | None => s_material s = None
     end).
Proof.
  split.
  - intros e args r r' s. unfold Connect.
    destruct (bool_decide _); [done |]. destruct (bool_decide _); [done |].
    destruct (ca_Record args) as [record|].
    + destruct (ca_Identity args) as [device|];
        [| by rewrite (bool_decide_eq_false_2 (Some record = None)), (bool_decide_eq_true_2 (None = None)) by done].
      destruct (negb _ && _); [done |]. destruct (validateDatagrams _); [done |].
      destruct (dialInitiator _ _ _ r) as [r1 [tr|err]]; [| done].
      destruct (if bool_decide _ then _ else _) as [stream [err|]]; [done |].
      destruct (newDatagrams _) as [cfgs dgs].
      cbn [newRef registerStream default from_option id]. destruct (ce_activation e device (ca_Route args) stream) as [w [nonce|err]] eqn:Ha; [| done].
      destruct (derive record false nonce) as [m|] eqn:Hd; [| done]. intros [= <- <-].
      exists device, stream, nonce, m. by rewrite Ha.
    + destruct (negb _ && _); [done |]. destruct (validateDatagrams _); [done |].
      destruct (dialInitiator _ _ _ r) as [r1 [tr|err]]; [| done].
      destruct (if bool_decide _ then _ else _) as [stream [err|]]; [done |].
      destruct (newDatagrams _) as [cfgs dgs]. by intros [= <- <-].
  - intros e args tr r r' s. unfold activate. destruct (newDatagrams _) as [cfgs dgs].
    destruct (ra_Pairing args) as [pairing|].
    + cbn [newRef registerStream]. destruct (ae_activation e pairing (primary tr)) as [[w ids] [res|err]]; [| done].
      destruct (Accepted res); [| done]. cbn [negb].
      destruct (captured pairing ids) as [rec|] eqn:Hc; [| done].
      destruct (derive rec true (Nonce res)) as [m|] eqn:Hd; [| done]. intros [= <- <-]. cbn [s_peerID s_material].
      exists w, ids, res. split_and!; [done | done |]. intros Hids. apply captured_some in Hc as (id & Hin & Hp).
      rewrite (Hids id Hin) in Hp. by exists rec, m.
    + destruct (readMessage (primary tr)) as [stream [m|err]]; [| done]. by intros [= <- <-].
Qed.
