(* ===== verification/Listener.v ===== *)
(** * Listener: the backend's pool of parked listen connections (api.go)

    [acceptWorker] goroutines dial listen connections, park them at the
    relay, run the handshake when a client arrives and hand the session to
    [Accept]; [Close] runs concurrently.  Each section under the listener's
    lock, each channel operation and each call that can block is one step;
    what dials and handshakes return is the environment's choice.

    A session is named by its transport: in this model both are the same
    number, and a session's context is a child of the listener's. *)

From Stdlib Require Import ZArith Lia Strings.String.
From stdpp Require Import base gmap sets strings list fin_maps.
From S2P Require Import Prelude.

Open Scope Z_scope.

Definition listenPoolSize : nat := 4.
Definition acceptedCap : nat := 8.

(** One [acceptWorker]: at the loop head; in [dialListen]; in the back-off
    after a failed dial; about to track, in [activate]; after a failure
    about to untrack, to close, to report; after a success about to untrack,
    to deliver; closing the session; returned. *)
Inductive worker :=
  | WHead
  | WDial
  | WBackoff
  | WTrack (tr : nat)
  | WActivate (tr : nat)
  | WFailUntrack (tr : nat) (err : error)
  | WFailClose (tr : nat) (err : error)
  | WReport (err : error)
  | WUntrack (tr : nat)
  | WDeliver (tr : nat)
  | WDiscard (tr : nat)
  | WExit.

(** [Close]: not called; before each of its steps; returned. *)
Inductive closer :=
  | KIdle
  | KCancel
  | KControl
  | KParked
  | KDone.

Record pool := {
  ctxDone : bool;
  controlOpen : bool;
  parked : option (gset nat);
  accepted : list (result nat);
  workers : gmap nat worker;
  closing : closer;
  dialled : gset nat;
  closed : gset nat;
  returned : list nat;
  sessClosed : gset nat
}.

Definition set_worker (p : pool) (w : nat) (ph : worker) : pool :=
  {| ctxDone := ctxDone p; controlOpen := controlOpen p; parked := parked p; accepted := accepted p;
     workers := <[w := ph]> (workers p); closing := closing p; dialled := dialled p; closed := closed p;
     returned := returned p; sessClosed := sessClosed p |}.
Definition set_parked (p : pool) (k : option (gset nat)) : pool :=
  {| ctxDone := ctxDone p; controlOpen := controlOpen p; parked := k; accepted := accepted p;
     workers := workers p; closing := closing p; dialled := dialled p; closed := closed p;
     returned := returned p; sessClosed := sessClosed p |}.
Definition set_accepted (p : pool) (q : list (result nat)) : pool :=
  {| ctxDone := ctxDone p; controlOpen := controlOpen p; parked := parked p; accepted := q;
     workers := workers p; closing := closing p; dialled := dialled p; closed := closed p;
     returned := returned p; sessClosed := sessClosed p |}.
Definition add_dialled (p : pool) (tr : nat) : pool :=
  {| ctxDone := ctxDone p; controlOpen := controlOpen p; parked := parked p; accepted := accepted p;
     workers := workers p; closing := closing p; dialled := {[tr]} ∪ dialled p; closed := closed p;
     returned := returned p; sessClosed := sessClosed p |}.
Definition add_closed (p : pool) (trs : gset nat) : pool :=
  {| ctxDone := ctxDone p; controlOpen := controlOpen p; parked := parked p; accepted := accepted p;
     workers := workers p; closing := closing p; dialled := dialled p; closed := trs ∪ closed p;
     returned := returned p; sessClosed := sessClosed p |}.
Definition add_returned (p : pool) (tr : nat) : pool :=
  {| ctxDone := ctxDone p; controlOpen := controlOpen p; parked := parked p; accepted := accepted p;
     workers := workers p; closing := closing p; dialled := dialled p; closed := closed p;
     returned := returned p ++ [tr]; sessClosed := sessClosed p |}.
Definition set_closing (p : pool) (k : closer) (done control : bool) : pool :=
  {| ctxDone := done; controlOpen := control; parked := parked p; accepted := accepted p;
     workers := workers p; closing := k; dialled := dialled p; closed := closed p;
     returned := returned p; sessClosed := sessClosed p |}.

(** [Session.Close] of a session of this listener: its context and transport. *)
Definition closeSession (p : pool) (tr : nat) : pool :=
  {| ctxDone := ctxDone p; controlOpen := controlOpen p; parked := parked p; accepted := accepted p;
     workers := workers p; closing := closing p; dialled := dialled p; closed := {[tr]} ∪ closed p;
     returned := returned p; sessClosed := {[tr]} ∪ sessClosed p |}.

(** [s.ctx] is done: the session was closed, or the listener's context, its
    parent, is done. *)
Definition sessionCtxDone (p : pool) (tr : nat) : bool := ctxDone p || bool_decide (tr ∈ sessClosed p).

(** ** Operations *)

Definition trackListen (p : pool) (tr : nat) : pool :=
  match parked p with
  | Some k => set_parked p (Some ({[tr]} ∪ k))
  | None => p
  end.

Definition untrackListen (p : pool) (tr : nat) : pool :=
  match parked p with
  | Some k => set_parked p (Some (k ∖ {[tr]}))
  | None => p
  end.

(** What a worker's step meets: nothing in particular; a dial's or a
    handshake's outcome; which case of a [select] is taken. *)
Inductive input :=
  | Go
  | DialOk (tr : nat)
  | DialErr
  | ActivateOk
  | ActivateErr (err : error)
  | Timer
  | Sent
  | Done.

(** One step of [acceptWorker]. *)
Definition acceptWorker (p : pool) (w : nat) (ph : worker) (i : input) : option pool :=
  match ph, i with
  | WHead, Go => Some (set_worker p w (if ctxDone p then WExit else WDial))
  | WDial, DialOk tr =>
      if bool_decide (tr ∈ dialled p) then None else Some (set_worker (add_dialled p tr) w (WTrack tr))
  | WDial, DialErr => Some (set_worker p w (if ctxDone p then WExit else WBackoff))
  | WBackoff, Timer => Some (set_worker p w WHead)
  | WBackoff, Done => if ctxDone p then Some (set_worker p w WExit) else None
  | WTrack tr, Go => Some (set_worker (trackListen p tr) w (WActivate tr))
  | WActivate tr, ActivateOk => Some (set_worker p w (WUntrack tr))
  | WActivate tr, ActivateErr err => Some (set_worker p w (WFailUntrack tr err))
  | WFailUntrack tr err, Go => Some (set_worker (untrackListen p tr) w (WFailClose tr err))
  | WFailClose tr err, Go =>
      Some (set_worker (add_closed p {[tr]}) w (if ctxDone p then WExit else WReport err))
  | WReport err, Sent =>
      if bool_decide (length (accepted p) < acceptedCap)%nat
      then Some (set_worker (set_accepted p (accepted p ++ [Err err])) w WHead) else None
  | WReport err, Done => if ctxDone p then Some (set_worker p w WExit) else None
  | WUntrack tr, Go => Some (set_worker (untrackListen p tr) w (WDeliver tr))
  | WDeliver tr, Sent =>
      if bool_decide (length (accepted p) < acceptedCap)%nat
      then Some (set_worker (set_accepted p (accepted p ++ [Ok tr])) w WHead) else None
  | WDeliver tr, Done => if ctxDone p then Some (set_worker p w (WDiscard tr)) else None
  | WDiscard tr, Go => Some (set_worker (closeSession p tr) w WExit)
  | _, _ => None
  end.

(** One step of [Close]; the cancelled context ends the contexts of all the
    listener's sessions. *)
Definition closeStep (p : pool) : option pool :=
  match closing p with
  | KIdle | KDone => None
  | KCancel => Some (set_closing p KControl true (controlOpen p))
  | KControl => Some (set_closing p KParked (ctxDone p) false)
  | KParked =>
      let trs := match parked p with Some k => k | None => ∅ end in
      Some (set_closing (set_parked (add_closed p trs) None) KDone (ctxDone p) (controlOpen p))
  end.

(** [Accept] takes a queued result if there is one; the other two cases of
    its [select], a done context, change nothing. *)
Definition Accept (p : pool) : option (pool * result nat) :=
  match accepted p with
  | Ok tr :: q => Some (add_returned (set_accepted p q) tr, Ok tr)
  | Err err :: q => Some (set_accepted p q, Err err)
  | [] => None
  end.

Inductive event :=
  | Worker (w : nat) (i : input)
  | CallAccept
  | CallClose
  | CloseStep
  | UserCloses (tr : nat).

Definition step (p : pool) (e : event) : option pool :=
  match e with
  | Worker w i => match workers p !! w with Some ph => acceptWorker p w ph i | None => None end
  | CallAccept => match Accept p with Some (p, _) => Some p | None => None end
  | CallClose => match closing p with
                 | KIdle => Some (set_closing p KCancel (ctxDone p) (controlOpen p))
                 | _ => Some p
                 end
  | CloseStep => closeStep p
  | UserCloses tr => if bool_decide (tr ∈ returned p) then Some (closeSession p tr) else None
  end.

Fixpoint run (p : pool) (es : list event) : option pool :=
  match es with
  | [] => Some p
  | e :: es => match step p e with Some p => run p es | None => None end
  end.

(** [Register] after its control connection: the pool's workers start. *)
Definition newListener : pool :=
  {| ctxDone := false; controlOpen := true; parked := Some ∅; accepted := [];
     workers := list_to_map (map (fun w => (w, WHead)) (seq 0 listenPoolSize)); closing := KIdle;
     dialled := ∅; closed := ∅; returned := []; sessClosed := ∅ |}.

(** ** Where each connection is *)

Definition holds (ph : worker) : option nat :=
  match ph with
  | WTrack tr | WActivate tr | WFailUntrack tr _ | WFailClose tr _ | WUntrack tr | WDeliver tr | WDiscard tr => Some tr
  | _ => None
  end.

Definition heldBy (p : pool) (w tr : nat) : Prop :=
  exists ph, workers p !! w = Some ph /\ holds ph = Some tr.

Definition queued (q : list (result nat)) : list nat :=
  omap (fun r => match r with Ok tr => Some tr | Err _ => None end) q.

Arguments queued : simpl never.

Record inv (p : pool) : Prop := {
  iv_held w tr : heldBy p w tr ->
    tr ∈ dialled p /\ (tr ∉ queued (accepted p) ++ returned p) /\ forall w', heldBy p w' tr -> w' = w;
  iv_once : NoDup (queued (accepted p) ++ returned p);
  iv_dialled tr : tr ∈ queued (accepted p) ++ returned p -> tr ∈ dialled p;
  iv_all tr : tr ∈ dialled p ->
    (exists w, heldBy p w tr) \/ tr ∈ queued (accepted p) ++ returned p \/ tr ∈ closed p;
  iv_cap : (length (accepted p) <= acceptedCap)%nat
}.

Lemma heldBy_set p w ph w' tr : heldBy (set_worker p w ph) w' tr <->
  (w' = w /\ holds ph = Some tr) \/ (w' <> w /\ heldBy p w' tr).
Proof.
  unfold heldBy. cbn. split.
  - intros (x & Hx & Hh). apply lookup_insert_Some in Hx as [[-> ->] | [? ?]]; [by left | right; eauto].
  - intros [[-> Hh] | [Hne (x & Hx & Hh)]].
    + exists ph. by rewrite lookup_insert_eq.
    + exists x. by rewrite lookup_insert_ne by done.
Qed.

(** A step that changes none of the places. *)
Lemma inv_same p p' w ph ph' :
  inv p -> workers p !! w = Some ph -> holds ph' = holds ph ->
  workers p' = workers p -> queued (accepted p') = queued (accepted p) -> returned p' = returned p ->
  dialled p' = dialled p -> closed p ⊆ closed p' -> (length (accepted p') <= acceptedCap)%nat ->
  inv (set_worker p' w ph').
Proof.
  intros [Hh Ho Hd Ha Hc] Hw Hholds Ews Eq Er Ed Ec Hcap.
  assert (forall v tr, heldBy (set_worker p' w ph') v tr <-> heldBy p v tr) as Hiff.
  { intros v tr. rewrite heldBy_set, Hholds. unfold heldBy. rewrite Ews. split.
    - intros [[-> ?] | [_ ?]]; eauto.
    - intros (x & Hx & Hxh). destruct (decide (v = w)) as [-> |]; [left | right; eauto].
      split; [done |]. rewrite Hw in Hx. by injection Hx as ->. }
  split; cbn; rewrite ?Eq, ?Er, ?Ed; try done.
  - intros v tr Hv%Hiff. destruct (Hh v tr Hv) as (? & ? & Hu). split_and!; try done.
    intros v' ?%Hiff. by apply Hu.
  - intros tr Htr%Ha. destruct Htr as [[v ?%Hiff] | [? | ?]]; [eauto | auto | auto].
Qed.

(** A worker that lets go of [tr], closing it or queueing it. *)
Lemma inv_drop p p' w ph ph' tr :
  inv p -> workers p !! w = Some ph -> holds ph = Some tr -> holds ph' = None ->
  workers p' = workers p -> dialled p' = dialled p -> returned p' = returned p -> closed p ⊆ closed p' ->
  (length (accepted p') <= acceptedCap)%nat ->
  (accepted p' = accepted p /\ tr ∈ closed p' \/ accepted p' = accepted p ++ [Ok tr]) ->
  inv (set_worker p' w ph').
Proof.
  intros [Hh Ho Hd Ha Hc] Hw Hholds Hnone Ews Ed Er Ec Hcap Hq.
  assert (heldBy p w tr) as Hwt by (by exists ph).
  destruct (Hh w tr Hwt) as (Htd & Htq & Hu).
  assert (forall v x, heldBy (set_worker p' w ph') v x <-> heldBy p v x /\ x <> tr) as Hiff.
  { intros v x. rewrite heldBy_set, Hnone. unfold heldBy at 1. rewrite Ews. fold (heldBy p v x). split.
    - intros [[_ ?] | [Hne Hv]]; [done |]. split; [done |]. intros ->. by apply Hne, Hu.
    - intros [Hv Hx]. right. split; [| done]. intros ->. destruct Hv as (y & Hy & Hyh). congruence. }
  assert (forall x, x ∈ queued (accepted p') ++ returned p' ->
            x ∈ queued (accepted p) ++ returned p \/ (x = tr /\ accepted p' = accepted p ++ [Ok tr])) as Hsub.
  { intros x. rewrite Er. destruct Hq as [[-> _] | ->]; [by left |]. unfold queued.
    rewrite omap_app. cbn. rewrite !elem_of_app, list_elem_of_singleton. tauto. }
  split; cbn.
  - intros v x [Hv Hx]%Hiff. destruct (Hh v x Hv) as (Hxd & Hxq & Hxu). rewrite Ed. split_and!; [done | |].
    + intros [? | [-> _]]%Hsub; done.
    + intros v' [? _]%Hiff. by apply Hxu.
  - rewrite Er. destruct Hq as [[-> _] | ->]; [done |]. unfold queued. rewrite omap_app. cbn.
    rewrite <-app_assoc, NoDup_app. cbn. rewrite NoDup_app in Ho. destruct Ho as (H1 & H2 & H3).
    split_and!; [done | |].
    + intros x Hx [-> | Hx']%elem_of_cons; [| by eapply H2]. apply Htq, elem_of_app. by left.
    + apply NoDup_cons. split; [| done]. intros ?. apply Htq, elem_of_app. by right.
  - intros x [? | [-> _]]%Hsub; rewrite Ed; auto.
  - intros x. rewrite Ed. intros Hx. destruct (decide (x = tr)) as [-> | Hne].
    + right. destruct Hq as [[_ ?] | ->]; [by right |]. left. unfold queued. rewrite omap_app. cbn.
      rewrite !elem_of_app, list_elem_of_singleton. auto.
    + destruct (Ha x Hx) as [[v Hv] | [Hv | Hv]].
      * left. exists v. by apply Hiff.
      * right. left. rewrite Er. destruct Hq as [[-> _] | ->]; [done |]. unfold queued. rewrite omap_app.
        rewrite !elem_of_app in *. tauto.
      * right. right. by apply Ec.
  - done.
Qed.

Lemma track_fields p tr : workers (trackListen p tr) = workers p /\ accepted (trackListen p tr) = accepted p /\
  returned (trackListen p tr) = returned p /\ dialled (trackListen p tr) = dialled p /\
  closed (trackListen p tr) = closed p.
Proof. unfold trackListen. by destruct (parked p). Qed.

Lemma untrack_fields p tr : workers (untrackListen p tr) = workers p /\ accepted (untrackListen p tr) = accepted p /\
  returned (untrackListen p tr) = returned p /\ dialled (untrackListen p tr) = dialled p /\
  closed (untrackListen p tr) = closed p.
Proof. unfold untrackListen. by destruct (parked p). Qed.

(** A worker that has just dialled [tr]. *)
Lemma inv_dialled p w ph tr : inv p -> workers p !! w = Some ph -> holds ph = None -> tr ∉ dialled p ->
  inv (set_worker (add_dialled p tr) w (WTrack tr)).
Proof.
  intros [Hh Ho Hd Ha Hc] Hw Hnone Hnew.
  assert (forall v x, heldBy (set_worker (add_dialled p tr) w (WTrack tr)) v x <->
            (v = w /\ x = tr) \/ heldBy p v x) as Hiff.
  { intros v x. rewrite heldBy_set. cbn. split.
    - intros [[-> [= ->]] | [_ ?]]; auto.
    - intros [[-> ->] | Hv]; [by left |]. right. split; [| done]. intros ->.
      destruct Hv as (y & Hy & Hyh). congruence. }
  split; cbn.
  - intros v x [[-> ->] | Hv]%Hiff.
    + split_and!; [by apply elem_of_union_l, elem_of_singleton | by intros ?%Hd |].
      intros v' [[-> _] | Hv']%Hiff; [done |]. by apply Hh in Hv' as [? _].
    + destruct (Hh v x Hv) as (Hx & Hq & Hu). split_and!; [by apply elem_of_union_r | done |].
      intros v' [[_ ->] | Hv']%Hiff; [done | by apply Hu].
  - done.
  - intros x Hx%Hd. by apply elem_of_union_r.
  - intros x [->%elem_of_singleton | Hx]%elem_of_union.
    + left. exists w. apply Hiff. by left.
    + destruct (Ha x Hx) as [[v Hv] | [? | ?]]; [left; exists v; apply Hiff; by right | auto | auto].
  - done.
Qed.

Lemma queued_err q err : queued (q ++ [Err err]) = queued q.
Proof. unfold queued. rewrite omap_app. cbn. by rewrite app_nil_r. Qed.

Lemma acceptWorker_inv p w ph i p' :
  inv p -> workers p !! w = Some ph -> acceptWorker p w ph i = Some p' -> inv p'.
Proof.
  intros Hinv Hw Hs. pose proof (iv_cap p Hinv) as Hcap.
  destruct ph; destruct i; cbn [acceptWorker] in Hs; try done; repeat case_bool_decide; try done;
    try (destruct (ctxDone p); [| try done]); simplify_eq;
    try (by apply inv_dialled with (ph := WDial));
    try (eapply (inv_same p p); by eauto);
    try (destruct (track_fields p tr) as (E1 & E2 & E3 & E4 & E5);
         eapply (inv_same p); cbn; rewrite ?E1, ?E2, ?E3, ?E4, ?E5; by eauto);
    try (destruct (untrack_fields p tr) as (E1 & E2 & E3 & E4 & E5);
         eapply (inv_same p); cbn; rewrite ?E1, ?E2, ?E3, ?E4, ?E5; by eauto).
  all: try (eapply (inv_drop p); cbn; eauto; [by apply union_subseteq_r | by left; split; [| apply elem_of_union_l, elem_of_singleton]]).
  all: first
    [ eapply (inv_same p); cbn; eauto; [by apply queued_err | rewrite length_app; cbn; lia]
    | eapply (inv_drop p); cbn; eauto; rewrite length_app; cbn; lia ].
Qed.

Lemma inv_frame p p' : inv p -> workers p' = workers p -> accepted p' = accepted p ->
  returned p' = returned p -> dialled p' = dialled p -> closed p ⊆ closed p' -> inv p'.
Proof.
  intros [Hh Ho Hd Ha Hc] Ew Eq Er Ed Ec. unfold heldBy in *.
  split; unfold heldBy; rewrite ?Ew, ?Eq, ?Er, ?Ed; try done.
  intros tr Htr%Ha. destruct Htr as [? | [? | ?]]; auto.
Qed.

Lemma Accept_inv p p' r : inv p -> Accept p = Some (p', r) -> inv p'.
Proof.
  intros [Hh Ho Hd Ha Hc]. unfold Accept. destruct (accepted p) as [|[tr|err] q] eqn:Hq; [done | |];
    intros [= <- <-].
  - assert (forall x, x ∈ queued q ++ returned p ++ [tr] <-> x ∈ queued (Ok tr :: q) ++ returned p) as Hiff.
    { intros x. unfold queued. cbn. rewrite !elem_of_app, !elem_of_cons, ?elem_of_app, elem_of_nil. tauto. }
    split; cbn; unfold heldBy in *; cbn in *.
    + intros w x Hw. destruct (Hh w x Hw) as (? & ? & ?). split_and!; [done | by rewrite Hiff | done].
    + rewrite app_assoc. apply NoDup_app. unfold queued in Ho. cbn in Ho.
      apply NoDup_cons in Ho as [Hni Hnd]. split_and!; [done | | apply NoDup_singleton].
      intros x Hx ->%list_elem_of_singleton. done.
    + intros x ?%Hiff. by apply Hd.
    + intros x Hx. rewrite Hiff. by apply Ha.
    + cbn in Hc. lia.
  - split; cbn; unfold heldBy in *; cbn in *; unfold queued in *; cbn in *; try done. lia.
Qed.

Lemma pool_step_inv p e p' : inv p -> step p e = Some p' -> inv p'.
Proof.
  intros Hinv Hs. destruct e; cbn [step] in Hs.
  - destruct (workers p !! w) as [ph|] eqn:Hw; [| done]. by eapply acceptWorker_inv.
  - destruct (Accept p) as [[p1 r]|] eqn:Ha; [| done]. injection Hs as <-. by eapply Accept_inv.
  - destruct (closing p); injection Hs as <-; try done. by apply (inv_frame p).
  - unfold closeStep in Hs. destruct (closing p); try done; injection Hs as <-; apply (inv_frame p); try done.
    cbn. by apply union_subseteq_r.
  - case_bool_decide; [| done]. injection Hs as <-. apply (inv_frame p); try done. cbn. by apply union_subseteq_r.
Qed.

Lemma pool_run_inv es : forall p p', inv p -> run p es = Some p' -> inv p'.
Proof.
  induction es as [|e es IH]; intros p p' Hinv; cbn [run]; [by intros [= <-] |].
  destruct (step p e) as [p1|] eqn:Hs; [| done]. eauto using pool_step_inv.
Qed.

Lemma newListener_inv : inv newListener.
Proof.
  assert (forall w tr, heldBy newListener w tr -> False) as Hno.
  { intros w tr (ph & Hph & Hh). cbn [workers newListener] in Hph.
    apply elem_of_list_to_map_2 in Hph. apply list_elem_of_fmap in Hph as (w' & [= _ ->] & _). done. }
  split.
  - intros w tr Hw. by destruct (Hno w tr).
  - constructor.
  - cbn. intros tr Htr. by apply not_elem_of_nil in Htr.
  - cbn. intros tr Htr. by apply not_elem_of_empty in Htr.
  - cbn. unfold acceptedCap. lia.
Qed.

(** ** Theorems *)

(** C29. Accounting of the listen pool: under every interleaving of the
    workers, [Accept] calls, [Close] and the users' own closes, every
    connection the pool dialled is held by exactly one worker, or is the
    session of exactly one queued result, or has been returned by [Accept],
    or has been closed; no session is queued or returned twice; and at most
    eight results are queued. *)
Theorem listener_accounts_connections (es : list event) (p : pool) :
  run newListener es = Some p ->
  (forall tr, tr ∈ dialled p ->
     (exists w, heldBy p w tr) \/ tr ∈ queued (accepted p) ++ returned p \/ tr ∈ closed p) /\
  (forall w tr, heldBy p w tr ->
     (tr ∉ queued (accepted p) ++ returned p) /\ forall w', heldBy p w' tr -> w' = w) /\
  NoDup (queued (accepted p) ++ returned p) /\ (length (accepted p) <= acceptedCap)%nat.
Proof.
  intros Hrun. destruct (pool_run_inv es _ _ newListener_inv Hrun) as [Hh Ho Hd Ha Hc].
  split_and!; [done | | done | done]. intros w tr Hw. by destruct (Hh w tr Hw) as (_ & ? & ?).
Qed.

(** A client served and accepted, a second one served and queued. *)
Definition serveClient (w tr : nat) : list event :=
  [Worker w Go; Worker w (DialOk tr); Worker w Go; Worker w ActivateOk; Worker w Go; Worker w Sent].

Definition after (es : list event) : pool :=
  match run newListener es with Some p => p | None => newListener end.

Lemma listener_accounts_connections_witness :
  run newListener (serveClient 0 10 ++ [CallAccept] ++ serveClient 1 11) =
    Some (after (serveClient 0 10 ++ [CallAccept] ++ serveClient 1 11)) /\
  returned (after (serveClient 0 10 ++ [CallAccept] ++ serveClient 1 11)) = [10%nat] /\
  NoDup (queued (accepted (after (serveClient 0 10 ++ [CallAccept] ++ serveClient 1 11))) ++
         returned (after (serveClient 0 10 ++ [CallAccept] ++ serveClient 1 11))).
Proof.
  split; [vm_compute; reflexivity |]. split; [vm_compute; reflexivity |].
  apply (listener_accounts_connections (serveClient 0 10 ++ [CallAccept] ++ serveClient 1 11)).
  vm_compute. reflexivity.
Defined.

(** [Close], then the workers notice their context. *)
Definition closeAll : list event :=
  [CallClose; CloseStep; CloseStep; CloseStep] ++
  flat_map (fun w => [Worker w Go]) (seq 0 listenPoolSize).

(** Closing a listener reaches its sessions: after one client was
    accepted and another was served but not yet accepted, [Close] returns and
    all workers exit, and then the accepted session, which nobody closed and
    whose connection is open, has its context cancelled (it is derived from
    the listener's), while the queued session's connection stays open though
    no goroutine holds it. *)
Theorem listener_close_reaches_sessions :
  let p := after (serveClient 0 10 ++ [CallAccept] ++ serveClient 1 11 ++ closeAll) in
  closing p = KDone /\ (forall w ph, workers p !! w = Some ph -> ph = WExit) /\
  returned p = [10%nat] /\ sessClosed p = ∅ /\ closed p = ∅ /\ sessionCtxDone p 10 = true /\
  accepted p = [Ok 11%nat].
Proof.
  intros p. assert (workers p = list_to_map (map (fun w => (w, WExit)) (seq 0 listenPoolSize))) as Hw
    by (vm_compute; reflexivity).
  split_and!; try (vm_compute; reflexivity). intros w ph. rewrite Hw.
  intros Hph%elem_of_list_to_map_2. apply list_elem_of_fmap in Hph as (w' & [= _ ->] & _). done.
Qed.
