(* ===== verification/Pairing.v ===== *)
(** * Pairing: the pairing ceremony (pairing/pairing.go, pairing/cgo_pair.go)

    The rendezvous token, the single-stream transport libpigeon drives, and
    the [Ceremony] object: the goroutine that runs the ceremony
    ([runAcceptor] or [runInitiator]) and any number of callers of [Code],
    [Confirm] and [Close], interleaved.  Every section under the ceremony's
    lock and every channel operation is one step.

    The message exchange itself runs in libpigeon and is an input: it asks for
    confirmation at most once, with the confirmation code, and then fails or,
    if confirmation was given, returns a record. *)

From Stdlib Require Import ZArith Lia Strings.Byte Strings.String.
From stdpp Require Import base gmap sets strings list fin_maps.
From S2P Require Import Prelude Binary Text Wire Channel.

Open Scope Z_scope.

(** ** The rendezvous token *)

Record tokenPayload := {
  Relay : string;
  SessionID : string;
  AcceptorEphPub : bytes;
  AcceptorIdPub : bytes;
  AcceptorInstance : string
}.

Definition utf8_payload (p : tokenPayload) : bool :=
  utf8_string (Relay p) && utf8_string (SessionID p) && utf8_string (AcceptorInstance p).

(** The token [Accept] displays. *)
Definition rendezvousToken `{JSON tokenPayload} (payload : tokenPayload) : result bytes :=
  let! raw := rwrap "marshal token: %w" [] (Marshal payload) in Ok (b64Encode raw).

Record InitiateArgs := {
  Rendezvous : bytes;
  HasIdentity : bool
}.

(** [Initiate] up to its connection: the checks and the parsed token. *)
Definition parseRendezvous `{JSON tokenPayload} (args : option InitiateArgs) : result tokenPayload :=
  match args with
  | None => Err (ENew "pairing.Initiate: args is nil")
  | Some args =>
      if bool_decide (Rendezvous args = []) then Err (ENew "pairing.Initiate: Rendezvous token is required")
      else if negb (HasIdentity args) then Err (ENew "pairing.Initiate: Identity is required")
      else
        let! raw := rwrap "decode token: %w" [] (b64Decode (Rendezvous args)) in
        rwrap "parse token: %w" [] (Unmarshal raw)
  end.

(** ** The single-stream transport (cgo_pair.go) *)

Definition stream (served : bool) : bool * result unit :=
  (true, if served then Err (ENew "pairing: stream already served") else Ok tt).

Definition SendOnStream {W} `{Writer W} (rwc : W) (msg : bytes) : W * option error :=
  match Write rwc (be_put 4 (u32 (len msg))) with
  | (rwc, Some err) => (rwc, Some err)
  | (rwc, None) => Write rwc msg
  end.

Definition RecvOnStream {R} `{Reader R} (rwc : R) : R * result bytes :=
  match ReadFull rwc 4 with
  | (rwc, Err err) => (rwc, Err err)
  | (rwc, Ok hdr) => ReadFull rwc (Z.to_nat (be_get hdr))
  end.

(** ** The ceremony *)

Inductive role :=
  | Acceptor
  | Initiator.

(** The record libpigeon returns. *)
Record cwireRecord := {
  cw_PeerInstanceID : string;
  cw_LocalPrivKey : bytes;
  cw_LocalPubKey : bytes;
  cw_PeerPubKey : bytes
}.

Definition pairingRecord (relayURL : string) (rec : cwireRecord) : PairingRecord :=
  {| PeerInstanceID := cw_PeerInstanceID rec; RelayURL := relayURL; LocalPrivateKey := cw_LocalPrivKey rec;
     LocalPublicKey := cw_LocalPubKey rec; PeerPublicKey := cw_PeerPubKey rec |}.

(** The ceremony's goroutine: in [listener.Accept]; about to store the
    session; in [AcceptStream] or [OpenStream]; in libpigeon, before it asks
    for confirmation; in its callback, about to signal the code; in
    [waitConfirm]; in libpigeon again; closing or draining the stream; in
    [deliverResult], before and after it signals the code; returned. *)
Inductive driver :=
  | DAccept
  | DSetSess (s : nat)
  | DOpen
  | DRun
  | DConfirm (code : string)
  | DWait
  | DRan (ok : bool)
  | DFin (r : result PairingRecord)
  | DDeliver (r : result PairingRecord)
  | DSend (r : result PairingRecord)
  | DDone.

Inductive caller :=
  | CodeWait
  | CodeDone (r : result string)
  | ConfirmStart
  | ConfirmWait
  | ConfirmDone (r : result PairingRecord)
  | CloseStart
  | CloseCancel (s : option nat)
  | CloseSess (s : option nat)
  | CloseListener
  | CloseDone.

(** [code] holds what [codeReady] was closed with; [result] is the buffered
    channel.  [asked] is the code libpigeon asked to confirm, [taken] whether a
    [Confirm] call has taken the result from the channel. *)
Record Ceremony := {
  side : role;
  relayURL : string;
  ctxDone : bool;
  closed : bool;
  sess : option nat;
  listenerOpen : bool;
  code : option (result string);
  confirmed : bool;
  resultCh : option (result PairingRecord);
  drv : driver;
  callers : gmap nat caller;
  openSess : gset nat;
  asked : option string;
  taken : bool
}.

Definition set_drv (c : Ceremony) (d : driver) : Ceremony :=
  {| side := side c; relayURL := relayURL c; ctxDone := ctxDone c; closed := closed c; sess := sess c;
     listenerOpen := listenerOpen c; code := code c; confirmed := confirmed c; resultCh := resultCh c;
     drv := d; callers := callers c; openSess := openSess c; asked := asked c; taken := taken c |}.
Definition set_caller (c : Ceremony) (t : nat) (k : caller) : Ceremony :=
  {| side := side c; relayURL := relayURL c; ctxDone := ctxDone c; closed := closed c; sess := sess c;
     listenerOpen := listenerOpen c; code := code c; confirmed := confirmed c; resultCh := resultCh c;
     drv := drv c; callers := <[t := k]> (callers c); openSess := openSess c; asked := asked c; taken := taken c |}.
Definition set_ctxDone (c : Ceremony) : Ceremony :=
  {| side := side c; relayURL := relayURL c; ctxDone := true; closed := closed c; sess := sess c;
     listenerOpen := listenerOpen c; code := code c; confirmed := confirmed c; resultCh := resultCh c;
     drv := drv c; callers := callers c; openSess := openSess c; asked := asked c; taken := taken c |}.
Definition set_closed (c : Ceremony) : Ceremony :=
  {| side := side c; relayURL := relayURL c; ctxDone := ctxDone c; closed := true; sess := sess c;
     listenerOpen := listenerOpen c; code := code c; confirmed := confirmed c; resultCh := resultCh c;
     drv := drv c; callers := callers c; openSess := openSess c; asked := asked c; taken := taken c |}.
Definition set_sess (c : Ceremony) (s : nat) : Ceremony :=
  {| side := side c; relayURL := relayURL c; ctxDone := ctxDone c; closed := closed c; sess := Some s;
     listenerOpen := listenerOpen c; code := code c; confirmed := confirmed c; resultCh := resultCh c;
     drv := drv c; callers := callers c; openSess := openSess c; asked := asked c; taken := taken c |}.
Definition set_openSess (c : Ceremony) (o : gset nat) : Ceremony :=
  {| side := side c; relayURL := relayURL c; ctxDone := ctxDone c; closed := closed c; sess := sess c;
     listenerOpen := listenerOpen c; code := code c; confirmed := confirmed c; resultCh := resultCh c;
     drv := drv c; callers := callers c; openSess := o; asked := asked c; taken := taken c |}.
Definition close_listener (c : Ceremony) : Ceremony :=
  {| side := side c; relayURL := relayURL c; ctxDone := ctxDone c; closed := closed c; sess := sess c;
     listenerOpen := false; code := code c; confirmed := confirmed c; resultCh := resultCh c;
     drv := drv c; callers := callers c; openSess := openSess c; asked := asked c; taken := taken c |}.
Definition set_confirmed (c : Ceremony) : Ceremony :=
  {| side := side c; relayURL := relayURL c; ctxDone := ctxDone c; closed := closed c; sess := sess c;
     listenerOpen := listenerOpen c; code := code c; confirmed := true; resultCh := resultCh c;
     drv := drv c; callers := callers c; openSess := openSess c; asked := asked c; taken := taken c |}.
Definition set_result (c : Ceremony) (r : result PairingRecord) : Ceremony :=
  {| side := side c; relayURL := relayURL c; ctxDone := ctxDone c; closed := closed c; sess := sess c;
     listenerOpen := listenerOpen c; code := code c; confirmed := confirmed c; resultCh := Some r;
     drv := drv c; callers := callers c; openSess := openSess c; asked := asked c; taken := taken c |}.
Definition set_asked (c : Ceremony) (s : string) : Ceremony :=
  {| side := side c; relayURL := relayURL c; ctxDone := ctxDone c; closed := closed c; sess := sess c;
     listenerOpen := listenerOpen c; code := code c; confirmed := confirmed c; resultCh := resultCh c;
     drv := drv c; callers := callers c; openSess := openSess c; asked := Some s; taken := taken c |}.

(** Receiving from the result channel. *)
Definition take_result (c : Ceremony) : Ceremony :=
  {| side := side c; relayURL := relayURL c; ctxDone := ctxDone c; closed := closed c; sess := sess c;
     listenerOpen := listenerOpen c; code := code c; confirmed := confirmed c; resultCh := None;
     drv := drv c; callers := callers c; openSess := openSess c; asked := asked c; taken := true |}.

(** [signalCode]: the first signal counts. *)
Definition signalCode (c : Ceremony) (r : result string) : Ceremony :=
  match code c with
  | Some _ => c
  | None =>
      {| side := side c; relayURL := relayURL c; ctxDone := ctxDone c; closed := closed c; sess := sess c;
         listenerOpen := listenerOpen c; code := Some r; confirmed := confirmed c; resultCh := resultCh c;
         drv := drv c; callers := callers c; openSess := openSess c; asked := asked c; taken := taken c |}
  end.

(** [newCeremony]: the acceptor has a listener and no session yet, the
    initiator its session. *)
Definition newCeremony (r : role) (relay : string) (s : nat) : Ceremony :=
  {| side := r; relayURL := relay; ctxDone := false; closed := false;
     sess := match r with Acceptor => None | Initiator => Some s end;
     listenerOpen := match r with Acceptor => true | Initiator => false end;
     code := None; confirmed := false; resultCh := None;
     drv := match r with Acceptor => DAccept | Initiator => DOpen end;
     callers := ∅; openSess := match r with Acceptor => ∅ | Initiator => {[s]} end; asked := None; taken := false |}.

(** *** The goroutine *)

Inductive input :=
  | Go
  | AcceptOk (s : nat)
  | CallFails (err : error)
  | OpenOk
  | NotPairing
  | AsksConfirm (code : string)
  | LibFails (err : error)
  | LibReturns (rec : cwireRecord)
  | Drained.

Definition roleName (r : role) : string := match r with Acceptor => "acceptor" | Initiator => "initiator" end.

(** What follows libpigeon's return: the initiator closes its stream first,
    the acceptor drains it after a success. *)
Definition afterLib (c : Ceremony) (r : result PairingRecord) : Ceremony :=
  match side c, r with
  | Acceptor, Err _ => set_drv c (DDeliver r)
  | _, _ => set_drv c (DFin r)
  end.

(** [waitConfirm]: confirmation wins over a done context; neither: it blocks. *)
Definition waitConfirm (c : Ceremony) : option bool :=
  if confirmed c then Some true else if ctxDone c then Some false else None.

(** [deliverResult]: the non-blocking send. *)
Definition deliverResult (c : Ceremony) (r : result PairingRecord) : Ceremony :=
  match resultCh c with None => set_result c r | Some _ => c end.

(** One step of [runAcceptor] or [runInitiator]. *)
Definition runDriver (c : Ceremony) (i : input) : option Ceremony :=
  match drv c, i with
  | DAccept, AcceptOk s => Some (set_drv (set_openSess c ({[s]} ∪ openSess c)) (DSetSess s))
  | DAccept, CallFails err => Some (set_drv c (DDeliver (Err (EWrap "accept ceremony client: %w" [] err))))
  | DSetSess s, Go => Some (set_drv (set_sess c s) DOpen)
  | DOpen, OpenOk => Some (set_drv c DRun)
  | DOpen, CallFails err =>
      let fmt := match side c with Acceptor => "accept ceremony stream: %w" | Initiator => "open ceremony stream: %w" end%string in
      Some (set_drv c (DDeliver (Err (EWrap fmt [] err))))
  | DOpen, NotPairing => Some (set_drv c (DDeliver (Err (ENew (roleName (side c) ++ ": stream not in pairing mode")))))
  | DRun, AsksConfirm s => Some (set_drv (set_asked c s) (DConfirm s))
  | DConfirm s, Go => Some (set_drv (signalCode c (Ok s)) DWait)
  | DWait, Go => match waitConfirm c with Some b => Some (set_drv c (DRan b)) | None => None end
  | DRun, LibFails err | DRan _, LibFails err => Some (afterLib c (Err (EWrap (roleName (side c) ++ ": %w") [] err)))
  | DRan true, LibReturns rec => Some (afterLib c (Ok (pairingRecord (relayURL c) rec)))
  | DFin r, Go =>
      match side c with
      | Initiator => Some (set_drv c (DDeliver r))
      | Acceptor => if ctxDone c then Some (set_drv c (DDeliver r)) else None
      end
  | DFin r, Drained => match side c with Acceptor => Some (set_drv c (DDeliver r)) | Initiator => None end
  | DDeliver r, Go =>
      let c := match r with Err err => signalCode c (Err err) | Ok _ => c end in Some (set_drv c (DSend r))
  | DSend r, Go => Some (set_drv (deliverResult c r) DDone)
  | _, _ => None
  end.

(** *** [Code], [Confirm] and [Close] *)

Definition ErrCtx : error := ENew "context canceled".

(** One step of a call; [ctx]: the caller's own context is done. *)
Definition runCaller (c : Ceremony) (t : nat) (k : caller) (ctx : bool) : option Ceremony :=
  match k with
  | CodeWait =>
      if ctx then Some (set_caller c t (CodeDone (Err ErrCtx)))
      else match code c with Some r => Some (set_caller c t (CodeDone r)) | None => None end
  | ConfirmStart =>
      if closed c then Some (set_caller c t (ConfirmDone (Err (ENew "ceremony closed"))))
      else Some (set_caller (set_confirmed c) t ConfirmWait)
  | ConfirmWait =>
      if ctx then Some (set_caller c t (ConfirmDone (Err ErrCtx)))
      else match resultCh c with
           | Some r => Some (set_caller (take_result c) t (ConfirmDone r))
           | None => None
           end
  | CloseStart =>
      if closed c then Some (set_caller c t CloseDone)
      else Some (set_caller (set_closed c) t (CloseCancel (sess c)))
  | CloseCancel s => Some (set_caller (set_ctxDone c) t (CloseSess s))
  | CloseSess s =>
      let c := match s with Some s => set_openSess c (openSess c ∖ {[s]}) | None => c end in
      Some (set_caller c t CloseListener)
  | CloseListener => Some (set_caller (close_listener c) t CloseDone)
  | CodeDone _ | ConfirmDone _ | CloseDone => None
  end.

Inductive event :=
  | Driver (i : input)
  | Call (t : nat) (k : caller)
  | Run (t : nat) (ctx : bool)
  | ParentDone.

(** Calls start at [CodeWait], [ConfirmStart] or [CloseStart]. *)
Definition isCall (k : caller) : bool :=
  match k with CodeWait | ConfirmStart | CloseStart => true | _ => false end.

Definition step (c : Ceremony) (e : event) : option Ceremony :=
  match e with
  | Driver i => runDriver c i
  | Call t k => match callers c !! t with
                | None => if isCall k then Some (set_caller c t k) else None
                | Some _ => None
                end
  | Run t ctx => match callers c !! t with Some k => runCaller c t k ctx | None => None end
  | ParentDone => Some (set_ctxDone c)
  end.

Fixpoint run (c : Ceremony) (es : list event) : option Ceremony :=
  match es with
  | [] => Some c
  | e :: es => match step c e with Some c => run c es | None => None end
  end.

(** ** Invariant *)

(** The result the goroutine carries. *)
Definition carried (d : driver) : option (result PairingRecord) :=
  match d with DFin r | DDeliver r | DSend r => Some r | _ => None end.

(** The code has been signalled. *)
Definition hasCode (d : driver) : bool :=
  match d with DWait | DRan _ | DFin (Ok _) | DDeliver (Ok _) | DSend _ | DDone => true | _ => false end.

Definition early (d : driver) : bool :=
  match d with DAccept | DSetSess _ | DOpen | DRun => true | _ => false end.

Record inv (c : Ceremony) : Prop := {
  iv_code s : code c = Some (Ok s) -> asked c = Some s;
  iv_asking s : drv c = DConfirm s -> asked c = Some s /\ code c = None;
  iv_early : early (drv c) = true -> asked c = None /\ code c = None;
  iv_hasCode : hasCode (drv c) = true -> is_Some (code c);
  iv_ran : drv c = DRan true -> confirmed c = true;
  iv_carried rec : carried (drv c) = Some (Ok rec) -> confirmed c = true;
  iv_result r : resultCh c = Some r -> drv c = DDone /\ (is_ok r = true -> confirmed c = true);
  iv_codeDone t s : callers c !! t = Some (CodeDone (Ok s)) -> code c = Some (Ok s);
  iv_confirmDone t rec : callers c !! t = Some (ConfirmDone (Ok rec)) ->
    confirmed c = true /\ drv c = DDone /\ resultCh c = None /\
    forall t' rec', callers c !! t' = Some (ConfirmDone (Ok rec')) -> t' = t;
  iv_done : drv c = DDone -> is_Some (resultCh c) \/ taken c = true
}.

(** A step of the goroutine that leaves the callers and the confirmation:
    before it is done no caller has a record. *)
Lemma inv_driver c c' : inv c -> drv c <> DDone -> callers c' = callers c -> confirmed c' = confirmed c ->
  (code c' = code c \/ code c = None) ->
  (forall s, code c' = Some (Ok s) -> asked c' = Some s) ->
  (forall s, drv c' = DConfirm s -> asked c' = Some s /\ code c' = None) ->
  (early (drv c') = true -> asked c' = None /\ code c' = None) ->
  (hasCode (drv c') = true -> is_Some (code c')) ->
  (drv c' = DRan true -> confirmed c' = true) ->
  (forall rec, carried (drv c') = Some (Ok rec) -> confirmed c' = true) ->
  (forall r, resultCh c' = Some r -> drv c' = DDone /\ (is_ok r = true -> confirmed c' = true)) ->
  (drv c' = DDone -> is_Some (resultCh c')) -> inv c'.
Proof.
  intros Hinv Hd Ec Ef Hcode H1 H2 H3 H4 H5 H6 H7 H8. split; try done; try (by intros ?%H8; left).
  - intros t s Ht. rewrite Ec in Ht. apply (iv_codeDone c Hinv) in Ht. destruct Hcode as [-> | Hn]; [done |].
    rewrite Hn in Ht. done.
  - intros t rec Ht. rewrite Ec in Ht. by destruct (iv_confirmDone c Hinv _ _ Ht) as (_ & ? & _).
Qed.

Lemma inv_no_result c : inv c -> drv c <> DDone -> resultCh c = None.
Proof. intros Hinv Hd. destruct (resultCh c) as [r|] eqn:Hr; [| done]. by apply (iv_result c Hinv) in Hr as [? _]. Qed.

Lemma runDriver_inv c i c' : inv c -> runDriver c i = Some c' -> inv c'.
Proof.
  intros Hinv Hs. pose proof (iv_code c Hinv) as Hcode. pose proof (iv_asking c Hinv) as Hask.
  pose proof (iv_early c Hinv) as Hearly. pose proof (iv_hasCode c Hinv) as Hhas.
  pose proof (iv_ran c Hinv) as Hran. pose proof (iv_carried c Hinv) as Hcar.
  pose proof (inv_no_result c Hinv) as Hnores.
  unfold runDriver in Hs. destruct (drv c) eqn:Hd; destruct i; try done;
    try (destruct (Hearly eq_refl) as [Ha Hc0]); try (specialize (Hnores ltac:(done)));
    unfold afterLib, waitConfirm, deliverResult, signalCode in Hs;
    repeat (case_match; try done); simplify_eq; (apply (inv_driver c); [done | by rewrite Hd | ..]); cbn;
    rewrite ?Ha, ?Hc0, ?Hnores; try done; eauto.
  all: try (intros; simplify_eq; by eauto).
  - intros s [= <-]. by apply Hask.
  - intros r0 [= <-]. split; [done |]. destruct r; [| done]. intros _. by eapply Hcar.
Qed.

Lemma inv_caller c c' t k k' : inv c -> callers c !! t = Some k -> callers c' = <[t := k']> (callers c) ->
  code c' = code c -> asked c' = asked c -> drv c' = drv c -> (confirmed c = true -> confirmed c' = true) ->
  (resultCh c' = resultCh c /\ taken c' = taken c \/ resultCh c' = None /\ taken c' = true) ->
  (forall s, k' = CodeDone (Ok s) -> code c = Some (Ok s)) ->
  (forall rec, k = ConfirmDone (Ok rec) -> False) ->
  (forall rec, k' = ConfirmDone (Ok rec) -> resultCh c = Some (Ok rec) /\ resultCh c' = None) -> inv c'.
Proof.
  intros Hinv Hk Ecl Eco Ea Ed Hf Hr Hcd Hk0 Hk1. split; rewrite ?Eco, ?Ea, ?Ed.
  - apply (iv_code c Hinv).
  - apply (iv_asking c Hinv).
  - apply (iv_early c Hinv).
  - apply (iv_hasCode c Hinv).
  - intros H. by apply Hf, (iv_ran c Hinv).
  - intros rec H. by eapply Hf, (iv_carried c Hinv).
  - intros r Hr'. destruct Hr as [[Hr _] | [Hr _]]; [| congruence]. rewrite Hr in Hr'.
    destruct (iv_result c Hinv _ Hr') as [? Hok]. split; [done | by intros ?%Hok%Hf].
  - intros t' s. rewrite Ecl. intros [[<- ->] | [_ Ht']]%lookup_insert_Some; [by apply Hcd |].
    by apply (iv_codeDone c Hinv) in Ht'.
  - intros t' rec. rewrite Ecl. intros [[<- ->] | [Hne Ht']]%lookup_insert_Some.
    + destruct (Hk1 rec eq_refl) as [Hres Hnone]. destruct (iv_result c Hinv _ Hres) as [Hdone Hok].
      split_and!; [by apply Hf, Hok | done | done |].
      intros t' rec' [[<- _] | [_ Ht']]%lookup_insert_Some; [done |].
      destruct (iv_confirmDone c Hinv _ _ Ht') as (_ & _ & Hn & _). congruence.
    + destruct (iv_confirmDone c Hinv _ _ Ht') as (Hcf & Hdone & Hn & Hu). split_and!; [by apply Hf | done | |].
      * destruct Hr as [[-> _] | [-> _]]; done.
      * intros t2 rec2 [[<- ->] | [_ Ht2]]%lookup_insert_Some; [| by eapply Hu].
        destruct (Hk1 rec2 eq_refl) as [Hres _]. congruence.
  - intros Hdone. destruct Hr as [[-> ->] | [_ ->]]; [by apply (iv_done c Hinv) | by right].
Qed.

Lemma runCaller_inv c t k ctx c' : inv c -> callers c !! t = Some k -> runCaller c t k ctx = Some c' -> inv c'.
Proof.
  intros Hinv Hk Hs.
  destruct k; cbn [runCaller] in Hs; try done; repeat (case_match; try done); simplify_eq;
    eapply (inv_caller c); cbn; eauto; try done; try congruence; try (by left); try (by right).
  all: try (intros; simplify_eq; by split).
Qed.

Lemma ceremony_step_inv c e c' : inv c -> step c e = Some c' -> inv c'.
Proof.
  intros Hinv Hs. destruct e; cbn [step] in Hs.
  - by eapply runDriver_inv.
  - destruct (callers c !! t) eqn:Ht; [done |]. destruct (isCall k) eqn:Hk; [| done]. simplify_eq.
    assert (forall t' x, callers (set_caller c t k) !! t' = Some x -> isCall x = false -> callers c !! t' = Some x) as Hold.
    { cbn. intros t' x [[<- <-] | [_ ?]]%lookup_insert_Some; [congruence | done]. }
    split; cbn; try apply Hinv.
    + intros t' s Ht'. apply (iv_codeDone c Hinv t'). by apply Hold.
    + intros t' rec Ht'. apply Hold in Ht'; [| done]. destruct (iv_confirmDone c Hinv _ _ Ht') as (? & ? & ? & Hu).
      split_and!; try done. intros t2 rec2 Ht2. apply Hold in Ht2; [| done]. by eapply Hu.
  - destruct (callers c !! t) eqn:Ht; [| done]. by eapply runCaller_inv.
  - simplify_eq. by destruct Hinv; split.
Qed.

Lemma ceremony_run_inv es : forall c c', inv c -> run c es = Some c' -> inv c'.
Proof.
  induction es as [|e es IH]; intros c c' Hinv; cbn [run]; [by intros [= <-] |].
  destruct (step c e) as [c1|] eqn:Hs; [| done]. eauto using ceremony_step_inv.
Qed.

Lemma newCeremony_inv r relay s : inv (newCeremony r relay s).
Proof. destruct r; split; cbn; try done. all: intros *; by rewrite lookup_empty. Qed.

(** Where records, codes and confirmations come from, in terms of the events
    so far.  The user confirmed: a [Confirm] call made before took the lock
    while the ceremony was not closed. *)
Definition userConfirmed (c0 : Ceremony) (es : list event) : Prop :=
  exists t ctx pre post c, es = pre ++ Run t ctx :: post /\ run c0 pre = Some c /\
    Call t ConfirmStart ∈ pre /\ callers c !! t = Some ConfirmStart /\ closed c = false.

(** libpigeon returned the record, after the user confirmed. *)
Definition fromLib (c0 : Ceremony) (es : list event) (rec : PairingRecord) : Prop :=
  exists cw pre post, es = pre ++ Driver (LibReturns cw) :: post /\ rec = pairingRecord (relayURL c0) cw /\
    userConfirmed c0 pre.

Record prov (c0 : Ceremony) (es : list event) (c : Ceremony) : Prop := {
  pv_relay : relayURL c = relayURL c0;
  pv_carried rec : carried (drv c) = Some (Ok rec) -> fromLib c0 es rec;
  pv_result rec : resultCh c = Some (Ok rec) -> fromLib c0 es rec;
  pv_done t rec : callers c !! t = Some (ConfirmDone (Ok rec)) -> fromLib c0 es rec;
  pv_start t : callers c !! t = Some ConfirmStart -> Call t ConfirmStart ∈ es;
  pv_confirmed : confirmed c = true -> userConfirmed c0 es;
  pv_asked s : asked c = Some s -> Driver (AsksConfirm s) ∈ es
}.

Lemma prov_more c0 es e c : prov c0 es c -> prov c0 (es ++ [e]) c.
Proof.
  assert (forall x, x ∈ es -> x ∈ es ++ [e]) as Hm by (intros; apply elem_of_app; by left).
  assert (forall rec, fromLib c0 es rec -> fromLib c0 (es ++ [e]) rec) as Hl.
  { intros rec (cw & pre & post & -> & ? & ?). exists cw, pre, (post ++ [e]). by rewrite <-app_assoc. }
  intros []. split; eauto. intros Hc. destruct (pv_confirmed0 Hc) as (t & ctx & pre & post & c1 & -> & ?).
  exists t, ctx, pre, (post ++ [e]), c1. by rewrite <-app_assoc.
Qed.

Lemma prov_step c0 es c e c' : run c0 es = Some c -> inv c -> prov c0 es c -> step c e = Some c' -> prov c0 (es ++ [e]) c'.
Proof.
  intros Hrun Hinv Hp Hs.
  assert (forall rec cw, e = Driver (LibReturns cw) -> drv c = DRan true -> rec = pairingRecord (relayURL c) cw ->
            fromLib c0 (es ++ [e]) rec) as Hlib.
  { intros rec cw -> Hd ->. exists cw, es, []. split_and!; [done | by rewrite (pv_relay _ _ _ Hp) |].
    by apply (pv_confirmed _ _ _ Hp), (iv_ran c Hinv). }
  assert (forall t ctx, e = Run t ctx -> callers c !! t = Some ConfirmStart -> closed c = false ->
            userConfirmed c0 (es ++ [e])) as Hconf.
  { intros t ctx -> Ht Hc. exists t, ctx, es, [], c. split_and!; try done. by apply (pv_start _ _ _ Hp). }
  apply (prov_more _ _ e) in Hp. assert (e ∈ es ++ [e]) as He by (apply elem_of_app; right; apply list_elem_of_here).
  revert Hp He Hlib Hconf. generalize (es ++ [e]) as M. intros M [Hr Hc Hres Hd Hst Hcf Ha] He Hlib Hconf.
  destruct e; cbn [step] in Hs.
  - unfold runDriver, afterLib, waitConfirm, deliverResult, signalCode in Hs.
    destruct (drv c) eqn:Hdrv; destruct i; try done; repeat (case_match; try done); simplify_eq;
      split; cbn; try done; try (intros; simplify_eq; by eauto).
  - destruct (callers c !! t) eqn:Ht; [done |]. destruct (isCall k) eqn:Hk; [| done]. simplify_eq.
    split; cbn; try done.
    + intros t' rec [[<- ->] | [_ ?]]%lookup_insert_Some; [done | eauto].
    + intros t' [[<- ->] | [_ ?]]%lookup_insert_Some; [done | eauto].
  - destruct (callers c !! t) as [k|] eqn:Ht; [| done].
    assert (forall t' x k', <[t := k']> (callers c) !! t' = Some x -> x = k' \/ callers c !! t' = Some x) as Hold.
    { intros t' x k' [[_ ?] | [_ ?]]%lookup_insert_Some; auto. }
    destruct k; cbn [runCaller] in Hs; try done; repeat (case_match; try done); simplify_eq;
      split; cbn; try done; intros; repeat match goal with
      | H : <[_ := _]> _ !! _ = Some _ |- _ => apply Hold in H as [? | ?] end; simplify_eq; eauto.
  - simplify_eq. by split.
Qed.

Lemma ceremony_run_app es1 es2 c : run c (es1 ++ es2) = match run c es1 with Some c => run c es2 | None => None end.
Proof. revert c. induction es1 as [|e es1 IH]; intros c; cbn [run app]; [done |]. by destruct (step c e). Qed.

Lemma prov_run c0 es : inv c0 -> prov c0 [] c0 -> forall c, run c0 es = Some c -> prov c0 es c.
Proof.
  intros Hinv Hp. induction es as [|e es IH] using rev_ind; intros c'; [by intros [= <-] |].
  rewrite ceremony_run_app. destruct (run c0 es) as [c|] eqn:Hr; [| done]. cbn [run].
  destruct (step c e) as [c1|] eqn:Hs; [| done]. intros [= <-].
  eapply prov_step; eauto using ceremony_run_inv.
Qed.

Lemma newCeremony_prov r relay s : prov (newCeremony r relay s) [] (newCeremony r relay s).
Proof. destruct r; split; cbn; try done; intros *; by rewrite ?lookup_empty. Qed.

(** A ceremony closed without confirmation stays unconfirmed. *)
Lemma closed_unconfirmed es : forall c c', closed c = true -> confirmed c = false -> run c es = Some c' ->
  closed c' = true /\ confirmed c' = false.
Proof.
  induction es as [|e es IH]; intros c c' Hc Hn; cbn [run]; [by intros [= <-] |].
  destruct (step c e) as [c1|] eqn:Hs; [| done]. apply IH.
  all: destruct e; cbn [step] in Hs; unfold runDriver, runCaller, afterLib, deliverResult, signalCode in Hs;
    repeat (case_match; try done); by simplify_eq.
Qed.

(** ** Theorems *)

(** C15. No pairing without the user: whatever the peer, the network and the
    callers do, libpigeon's callback answers yes only once a [Confirm] call
    has taken the lock of a ceremony that was not closed; when a [Confirm] call
    returns a pairing record, libpigeon returned that record, with the
    ceremony's relay, after such a confirmation, and no other call returns
    a record; a ceremony closed before any [Confirm] took the lock never
    gives one; and a code that [Code] returns is the one libpigeon asked to
    confirm. *)
Theorem pairing_record_needs_confirmation (r : role) (relay : string) (s : nat) (es : list event) (c : Ceremony) :
  run (newCeremony r relay s) es = Some c ->
  (drv c = DRan true -> userConfirmed (newCeremony r relay s) es) /\
  (forall t rec, callers c !! t = Some (ConfirmDone (Ok rec)) ->
     (exists cw pre post, es = pre ++ Driver (LibReturns cw) :: post /\ rec = pairingRecord relay cw /\
        userConfirmed (newCeremony r relay s) pre) /\
     (forall t' rec', callers c !! t' = Some (ConfirmDone (Ok rec')) -> t' = t)) /\
  (closed c = true -> confirmed c = false -> forall es' c' t rec, run c es' = Some c' ->
     callers c' !! t <> Some (ConfirmDone (Ok rec))) /\
  (forall t code, callers c !! t = Some (CodeDone (Ok code)) -> Driver (AsksConfirm code) ∈ es).
Proof.
  intros Hrun. pose proof (ceremony_run_inv es _ _ (newCeremony_inv r relay s) Hrun) as Hinv.
  pose proof (prov_run _ es (newCeremony_inv r relay s) (newCeremony_prov r relay s) _ Hrun) as [_ _ _ Hd _ Hcf Ha].
  split_and!.
  - intros Hr. by apply Hcf, (iv_ran c Hinv).
  - intros t rec Ht. destruct (iv_confirmDone c Hinv _ _ Ht) as (_ & _ & _ & Hu). split; [| done].
    destruct (Hd _ _ Ht) as (cw & pre & post & -> & -> & Hu'). exists cw, pre, post. by split_and!.
  - intros Hc Hn es' c' t rec Hr Ht. destruct (closed_unconfirmed es' c c' Hc Hn Hr) as [_ Hn'].
    destruct (iv_confirmDone c' (ceremony_run_inv es' _ _ Hinv Hr) _ _ Ht) as [? _]. congruence.
  - intros t code Ht. by apply Ha, (iv_code c Hinv), (iv_codeDone c Hinv t).
Qed.

Definition someCw : cwireRecord :=
  {| cw_PeerInstanceID := "peer"; cw_LocalPrivKey := [x01]; cw_LocalPubKey := [x02]; cw_PeerPubKey := [x03] |}.

(** An initiator's ceremony confirmed by its user. *)
Definition goodRun : list event :=
  [Driver OpenOk; Call 1 CodeWait; Driver (AsksConfirm "123456"); Driver Go; Run 1 false; Call 2 ConfirmStart;
   Run 2 false; Driver Go; Driver (LibReturns someCw); Driver Go; Driver Go; Driver Go; Run 2 false].

Definition after (es : list event) : Ceremony :=
  match run (newCeremony Initiator "https://r" 5) es with Some c => c | None => newCeremony Initiator "" 0 end.

Lemma pairing_record_needs_confirmation_witness :
  run (newCeremony Initiator "https://r" 5) goodRun = Some (after goodRun) /\
  callers (after goodRun) = <[1%nat := CodeDone (Ok "123456"%string)]>
                              {[2%nat := ConfirmDone (Ok (pairingRecord "https://r" someCw))]} /\
  (exists cw pre post, goodRun = pre ++ Driver (LibReturns cw) :: post /\
     pairingRecord "https://r" someCw = pairingRecord "https://r" cw /\
     userConfirmed (newCeremony Initiator "https://r" 5) pre).
Proof.
  assert (callers (after goodRun) = <[1%nat := CodeDone (Ok "123456"%string)]>
            {[2%nat := ConfirmDone (Ok (pairingRecord "https://r" someCw))]}) as Hc by (vm_compute; reflexivity).
  split; [vm_compute; reflexivity |]. split; [exact Hc |].
  destruct (pairing_record_needs_confirmation Initiator "https://r" 5 goodRun (after goodRun)) as (_ & H1 & _);
    [vm_compute; reflexivity |].
  apply (H1 2%nat (pairingRecord "https://r" someCw)). rewrite Hc. reflexivity.
Defined.

(** ** How the goroutine ends *)

(** The session under the ceremony's stream is closed. *)
Definition sessClosed (c : Ceremony) : bool :=
  match sess c with Some s => bool_decide (s ∉ openSess c) | None => false end.

(** The inputs the goroutine gets without the peer.  [listener.Accept] and
    [AcceptStream] give up when the context is done; [OpenStream] and
    libpigeon's reads and writes of the stream ([io.ReadFull] has no context)
    fail when the session is closed; libpigeon gives up when the callback
    answered no. *)
Definition ownInput (c : Ceremony) (i : input) : bool :=
  match drv c, i with
  | _, Go => true
  | DAccept, CallFails _ => ctxDone c
  | DOpen, CallFails _ => sessClosed c || match side c with Acceptor => ctxDone c | Initiator => false end
  | DRan false, LibFails _ => true
  | DRun, LibFails _ | DRan true, LibFails _ => sessClosed c
  | _, _ => false
  end.

Fixpoint ownRun (c : Ceremony) (ins : list input) : option Ceremony :=
  match ins with
  | [] => Some c
  | i :: ins => if ownInput c i then match runDriver c i with Some c => ownRun c ins | None => None end else None
  end.

Lemma ownRun_run ins : forall c c', ownRun c ins = Some c' -> run c (map Driver ins) = Some c'.
Proof.
  induction ins as [|i ins IH]; intros c c'; cbn [ownRun run map step]; [done |].
  destruct (ownInput c i); [| done]. destruct (runDriver c i); [apply IH | done].
Qed.

(** Past libpigeon. *)
Definition past (d : driver) : bool :=
  match d with DRan false | DFin _ | DDeliver _ | DSend _ | DDone => true | _ => false end.

(** Nothing of the peer's is waited for any more. *)
Definition released (c : Ceremony) : bool := ctxDone c && (sessClosed c || past (drv c)).

(** The steps the goroutine has left at most. *)
Definition stepsLeft (d : driver) : nat :=
  match d with
  | DAccept => 10 | DSetSess _ => 9 | DOpen => 8 | DRun => 7 | DConfirm _ => 6 | DWait => 5 | DRan _ => 4
  | DFin _ => 3 | DDeliver _ => 2 | DSend _ => 1 | DDone => 0
  end%nat.

Definition isDriver (e : event) : bool := match e with Driver _ => true | _ => false end.

Definition driverSteps (es : list event) : nat := length (List.filter isDriver es).

(** Steps of the goroutine that end it once it is released. *)
Definition unwind (c : Ceremony) : list input :=
  let lib := match side c with Acceptor => [LibFails ErrCtx; Go; Go] | Initiator => [LibFails ErrCtx; Go; Go; Go] end in
  match drv c with
  | DAccept | DOpen => [CallFails ErrCtx; Go; Go]
  | DSetSess _ => [Go; CallFails ErrCtx; Go; Go]
  | DRun | DRan _ => lib
  | DConfirm _ => [Go; Go] ++ lib
  | DWait => Go :: lib
  | DFin _ => [Go; Go; Go]
  | DDeliver _ => [Go; Go]
  | DSend _ => [Go]
  | DDone => []
  end.

(** The session is stored once, and a [Close] holds the one it read. *)
Definition noSess (d : driver) : bool := match d with DAccept | DSetSess _ => true | _ => false end.

Record sinv (c : Ceremony) : Prop := {
  sv_none : noSess (drv c) = true -> sess c = None;
  sv_cancel t s : callers c !! t = Some (CloseCancel (Some s)) -> sess c = Some s;
  sv_close t s : callers c !! t = Some (CloseSess (Some s)) -> ctxDone c = true /\ sess c = Some s
}.

Lemma newCeremony_sinv r relay s : sinv (newCeremony r relay s).
Proof. destruct r; split; cbn; try done. all: intros *; by rewrite lookup_empty. Qed.

Lemma sinv_step c e c' : sinv c -> step c e = Some c' -> sinv c'.
Proof.
  intros [Hn Hk Hc] Hs. destruct e; cbn [step] in Hs.
  - unfold runDriver, afterLib, deliverResult, signalCode in Hs.
    destruct (drv c) eqn:Hd; try (specialize (Hn eq_refl)); destruct i; try done;
      repeat (case_match; try done); simplify_eq; split; cbn; try done.
    all: intros t s' Ht; first [apply Hk in Ht | apply Hc in Ht as [? Ht]]; first [congruence | split; congruence].
  - destruct (callers c !! t); [done |]. destruct (isCall k) eqn:Hk'; [| done]. simplify_eq. split; cbn; [done | |].
    all: intros t' s' [[<- ->] | [_ ?]]%lookup_insert_Some; [done | eauto].
  - destruct (callers c !! t) as [k|] eqn:Ht; [| done].
    destruct k; cbn [runCaller] in Hs; repeat (case_match; try done); simplify_eq; split; cbn; try done.
    all: intros t' s' [[<- Hx] | [_ ?]]%lookup_insert_Some; simplify_eq; eauto.
    all: by edestruct Hc.
  - simplify_eq. split; cbn; try done. intros t s' ?. split; [done | by eapply Hc].
Qed.

Lemma sinv_run es : forall c c', sinv c -> run c es = Some c' -> sinv c'.
Proof.
  induction es as [|e es IH]; intros c c' Hinv; cbn [run]; [by intros [= <-] |].
  destruct (step c e) as [c1|] eqn:Hs; [| done]. eauto using sinv_step.
Qed.

Lemma released_iff c : released c = true <->
  ctxDone c = true /\ ((exists s, sess c = Some s /\ s ∉ openSess c) \/ past (drv c) = true).
Proof.
  unfold released, sessClosed. rewrite andb_true_iff, orb_true_iff. destruct (sess c) as [s|].
  - rewrite bool_decide_eq_true. naive_solver.
  - naive_solver.
Qed.

Lemma released_step c e c' : sinv c -> released c = true -> step c e = Some c' -> released c' = true.
Proof.
  intros [Hn _ _]. rewrite !released_iff. intros [Hctx Ho] Hs. destruct e; cbn [step] in Hs.
  - unfold runDriver, afterLib, deliverResult, signalCode in Hs.
    destruct (drv c) eqn:Hd; try (specialize (Hn eq_refl)); destruct i; try done;
      repeat (case_match; try done); simplify_eq; cbn in *; split; try done; destruct Ho as [(s' & ? & ?) | ?];
      try done; try congruence; eauto.
  - repeat (case_match; try done). by simplify_eq.
  - destruct (callers c !! t) as [k|]; [| done].
    destruct k; cbn [runCaller] in Hs; repeat (case_match; try done); simplify_eq; cbn; (split; [done |]);
      destruct Ho as [(s' & ? & ?) | ?]; try (by right); left; exists s'; (split; [done | set_solver]).
  - by simplify_eq.
Qed.

Lemma released_run es : forall c c', sinv c -> released c = true -> run c es = Some c' -> released c' = true.
Proof.
  induction es as [|e es IH]; intros c c' Hinv Hr; cbn [run]; [by intros [= <-] |].
  destruct (step c e) as [c1|] eqn:Hs; [| done]. eauto using sinv_step, released_step.
Qed.

Lemma steps_left c e c' : step c e = Some c' ->
  ((if isDriver e then 1 else 0) + stepsLeft (drv c') <= stepsLeft (drv c))%nat.
Proof.
  intros Hs. destruct e; cbn [step] in Hs; unfold runDriver, runCaller, afterLib, deliverResult, signalCode in Hs;
    repeat (case_match; try done); simplify_eq; cbn; lia.
Qed.

Lemma steps_bounded es : forall c c', run c es = Some c' -> (driverSteps es + stepsLeft (drv c') <= stepsLeft (drv c))%nat.
Proof.
  induction es as [|e es IH]; intros c c'; cbn [run]; [by intros [= <-] |].
  destruct (step c e) as [c1|] eqn:Hs; [| done]. intros Hr%IH. apply steps_left in Hs.
  unfold driverSteps in *. cbn [List.filter]. destruct (isDriver e); cbn [length] in *; lia.
Qed.

Lemma unwind_ends c : sinv c -> released c = true ->
  exists c', ownRun c (unwind c) = Some c' /\ drv c' = DDone /\ (length (unwind c) <= stepsLeft (drv c))%nat.
Proof.
  intros [Hn _ _]. unfold released. destruct c as [sd rl cd cl ss lo co cf rc dr ca os ak tk].
  cbn [ctxDone drv] in *. destruct cd; [| done]. cbn [andb]. intros Ho. unfold unwind. cbn [drv side].
  destruct dr as [|n| | |cod| |[]|r|r|r|]; cbn [sess past] in *; try (specialize (Hn eq_refl); subst ss); try done;
    try (rewrite orb_false_r in Ho); destruct sd; try destruct r; destruct co, cf, rc;
    eexists; split_and!; try (repeat (progress (cbn -[bool_decide] in *; unfold sessClosed in *; rewrite ?Ho)); reflexivity);
    cbn; lia.
Qed.

Definition isRun (t : nat) (e : event) : bool := match e with Run t' _ => bool_decide (t' = t) | _ => false end.

(** A step that is not a call's own leaves it where it is. *)
Lemma step_other c e c' t k : callers c !! t = Some k -> isRun t e = false -> step c e = Some c' ->
  callers c' !! t = Some k.
Proof.
  intros Ht Hne Hs. destruct e; cbn [step] in Hs.
  - unfold runDriver, afterLib, deliverResult, signalCode in Hs. repeat (case_match; try done); by simplify_eq.
  - repeat (case_match; try done). simplify_eq. cbn. rewrite lookup_insert_ne; [done | congruence].
  - cbn in Hne. apply bool_decide_eq_false in Hne.
    destruct (callers c !! t0) as [k0|]; [| done].
    destruct k0; cbn [runCaller] in Hs; repeat (case_match; try done); simplify_eq; cbn; by rewrite lookup_insert_ne.
  - by simplify_eq.
Qed.

(** A [Close] that read the session releases the goroutine when it has closed it. *)
Lemma close_releases es : forall c c' t s k, sinv c -> callers c !! t = Some (CloseCancel (Some s)) \/
    callers c !! t = Some (CloseSess (Some s)) \/ released c = true ->
  run c es = Some c' -> callers c' !! t = Some k -> k = CloseListener \/ k = CloseDone -> released c' = true.
Proof.
  induction es as [|e es IH]; intros c c' t s k Hinv Ht; cbn [run].
  - intros [= <-] Hk Hd. destruct Ht as [Ht | [Ht | ?]]; [| | done]; rewrite Ht in Hk; destruct Hd; congruence.
  - destruct (step c e) as [c1|] eqn:Hs; [| done]. apply (IH _ _ _ s); [by eapply sinv_step |].
    destruct Ht as [Ht | [Ht | ?]]; [| | right; right; by eapply released_step].
    all: destruct (isRun t e) eqn:Hne; [destruct e; cbn in Hne; try done; apply bool_decide_eq_true in Hne as -> |].
    + cbn [step] in Hs. rewrite Ht in Hs. cbn [runCaller] in Hs. simplify_eq. right. left. cbn. apply lookup_insert_eq.
    + left. by apply (step_other c e).
    + cbn [step] in Hs. rewrite Ht in Hs. cbn [runCaller] in Hs. simplify_eq. right. right.
      destruct (sv_close c Hinv _ _ Ht) as [Hctx Hss]. unfold released, sessClosed. cbn. rewrite Hctx, Hss. cbn.
      rewrite bool_decide_eq_true_2 by set_solver. done.
    + right. left. by apply (step_other c e).
Qed.


(** An initiator waiting for its user, closed. *)
Definition closedRun : list event :=
  [Driver OpenOk; Driver (AsksConfirm "123456"); Driver Go; Call 1 CloseStart; Run 1 false; Run 1 false; Run 1 false].


(** A [Close] that misses the acceptor's session, because it runs before the
    goroutine stores it, can leave the goroutine in libpigeon, waiting for the
    peer, after it has returned. *)
Theorem close_during_accept_leaves_goroutine :
  exists c, run (newCeremony Acceptor "https://r" 0)
    [Driver (AcceptOk 9); Call 1 CloseStart; Run 1 false; Run 1 false; Run 1 false; Run 1 false;
     Driver Go; Driver OpenOk] = Some c /\
    callers c !! 1%nat = Some CloseDone /\ drv c = DRun /\ ctxDone c = true /\
    forall i, ownInput c i = true -> runDriver c i = None.
Proof.
  eexists. split; [vm_compute; reflexivity |]. split_and!; try reflexivity. intros i. by destruct i.
Qed.

(** A [Close] that runs between [listener.Accept] and the store of the
    session misses it: the goroutine ends, a further [Close] does nothing, and
    the session the acceptor accepted stays open. *)
Theorem close_during_accept_leaks_session :
  exists c, run (newCeremony Acceptor "https://r" 0)
    [Driver (AcceptOk 9); Call 1 CloseStart; Run 1 false; Run 1 false; Run 1 false; Run 1 false;
     Driver Go; Driver (CallFails ErrCtx); Driver Go; Driver Go; Call 2 CloseStart; Run 2 false] = Some c /\
    drv c = DDone /\ closed c = true /\ openSess c = {[9%nat]}.
Proof. eexists. split; [vm_compute; reflexivity |]. split_and!; vm_compute; reflexivity. Qed.

(** The rendezvous token carries the acceptor's offer: whatever the
    payload (its strings valid UTF-8), the token [Accept] displays parses back
    in [Initiate] to exactly that payload, relay, session id and keys; and
    the messages libpigeon sends over the ceremony's stream are received with
    their boundaries. *)
Theorem rendezvous_token_roundtrip {J : JSON tokenPayload} {JL : JSONLaws tokenPayload utf8_payload}
    (p : tokenPayload) : utf8_payload p = true -> (forall bs, Marshal p = Ok bs -> bs <> []) ->
  exists tok, rendezvousToken p = Ok tok /\ Forall (fun b => isB64 b = true) tok /\
    parseRendezvous (Some {| Rendezvous := tok; HasIdentity := true |}) = Ok p /\
    (forall (w msg rest : bytes), len msg < 2 ^ 32 ->
       exists w', SendOnStream w msg = (w ++ w', None) /\ RecvOnStream (w' ++ rest) = (rest, Ok msg)).
Proof.
  intros Hu Hne. destruct (json_roundtrip p Hu) as (bs & Hm & Hun). exists (b64Encode bs).
  unfold rendezvousToken, parseRendezvous. rewrite Hm. cbn [rwrap rbind Rendezvous HasIdentity negb].
  split_and!; [done | apply b64Encode_chars | |].
  - rewrite bool_decide_eq_false_2.
    + by rewrite b64_roundtrip; cbn; rewrite Hun.
    + intros He. apply (Hne bs); [done |]. by apply b64Encode_inj.
  - intros w msg rest Hmsg. pose proof (len_nonneg msg). exists (frame msg). unfold SendOnStream, RecvOnStream, frame.
    rewrite u32_small by lia. cbn [Write pipe_writer]. split; [by rewrite app_assoc |].
    rewrite <-app_assoc. rewrite <-(length_be_put 4 (len msg)) at 1. rewrite ReadFull_pipe_app.
    rewrite be_get_put by (simpl; lia). unfold len. rewrite Nat2Z.id. apply ReadFull_pipe_app.
Qed.

(** A codec for the witness. *)
Definition tokenCodec : JSON tokenPayload := {|
  Marshal p := Ok (mark (str_bytes (Relay p)) ++ mark (str_bytes (SessionID p)) ++ mark (AcceptorEphPub p) ++
                   mark (AcceptorIdPub p) ++ mark (str_bytes (AcceptorInstance p)));
  Unmarshal bs :=
    let '(r, bs) := unmark bs in let '(s, bs) := unmark bs in let '(e, bs) := unmark bs in
    let '(i, bs) := unmark bs in let '(n, _) := unmark bs in
    Ok {| Relay := bytes_str r; SessionID := bytes_str s; AcceptorEphPub := e; AcceptorIdPub := i;
          AcceptorInstance := bytes_str n |}
|}.

Lemma tokenCodec_laws : JSONLaws tokenPayload utf8_payload (J := tokenCodec).
Proof.
  constructor. intros [r s e i n] _. eexists. split; [reflexivity |].
  cbn [Unmarshal tokenCodec Relay SessionID AcceptorEphPub AcceptorIdPub AcceptorInstance].
  rewrite !unmark_mark. rewrite <-(app_nil_r (mark (str_bytes n))), unmark_mark, !bytes_str_bytes. done.
Qed.

Definition somePayload : tokenPayload :=
  {| Relay := "https://r"; SessionID := "abc"; AcceptorEphPub := [x01; x02]; AcceptorIdPub := [x03];
     AcceptorInstance := "inst" |}.

Lemma rendezvous_token_roundtrip_witness :
  exists tok, rendezvousToken (H := tokenCodec) somePayload = Ok tok /\
    parseRendezvous (H := tokenCodec) (Some {| Rendezvous := tok; HasIdentity := true |}) = Ok somePayload.
Proof.
  destruct (@rendezvous_token_roundtrip tokenCodec tokenCodec_laws somePayload) as (tok & H1 & _ & H2 & _).
  - reflexivity.
  - intros bs [= <-]. discriminate.
  - exists tok. split; [exact H1 | exact H2].
Defined.
