(* ===== verification/FaultProxy.v ===== *)
(** * FaultProxy: the fault-injecting UDP proxy (faultproxy/faultproxy.go)

    The proxy of the chaos tests: [readLoop] takes packets from clients, a
    goroutine per client takes the replies of the target, and each packet goes
    through [forward], which drops, corrupts, throttles or delays it by the
    current profile; [blackholeLoop] and [Close] run beside them.  One step per
    socket call, critical section, timer or channel operation.  Random draws,
    clock readings and the answers of a [PacketHook] (a closure of the caller,
    taken not to write to the packet) are inputs of the step that meets them.

    A [float64] is a [spec_float] of 53 bits.  The model numbers the packets in
    the order in which the sockets are read; the number stays with the packet
    until it is sent, dropped or given up. *)

From Stdlib Require Import ZArith Lia Strings.Byte Strings.String SpecFloat.
From stdpp Require Import base gmap strings list fin_maps.
From S2P Require Import Prelude GoGen.

Open Scope Z_scope.

(** ** Floats *)

Definition float64 : Type := spec_float.
Definition fzero : float64 := S754_zero false.
Definition f64 (z : Z) : float64 := binary_normalize 53 1024 z 0 false.
Definition fadd : float64 -> float64 -> float64 := SFadd 53 1024.
Definition fsub : float64 -> float64 -> float64 := SFsub 53 1024.
Definition fmul : float64 -> float64 -> float64 := SFmul 53 1024.
Definition fdiv : float64 -> float64 -> float64 := SFdiv 53 1024.

(** [int64(x)] of a finite [x]. *)
Definition ftrunc (x : float64) : Z :=
  match x with
  | S754_finite s m e =>
      let v := if (0 <=? e) then Z.pos m * 2 ^ e else Z.pos m / 2 ^ (- e) in
      if s then - v else v
  | _ => 0
  end.

(** ** Configuration *)

Inductive Action :=
  | Forward
  | Drop.

#[export] Instance Action_eq_dec : EqDecision Action.
Proof. solve_decision. Defined.

(** Durations in nanoseconds; [PacketHook] says whether there is one. *)
Record Profile := {
  Latency : Z;
  Jitter : Z;
  PacketLoss : float64;
  Reorder : float64;
  Corrupt : float64;
  BandwidthBytesPerSec : Z;
  BlackholeDuration : Z;
  BlackholeInterval : Z;
  DropAfter : Z;
  DropWindowStart : Z;
  DropWindowEnd : Z;
  PacketHook : bool
}.

Definition zeroProfile : Profile :=
  {| Latency := 0; Jitter := 0; PacketLoss := fzero; Reorder := fzero; Corrupt := fzero; BandwidthBytesPerSec := 0;
     BlackholeDuration := 0; BlackholeInterval := 0; DropAfter := 0; DropWindowStart := 0; DropWindowEnd := 0;
     PacketHook := false |}.

(** The options. *)
Inductive Option_ :=
  | WithLatency (base jitter : Z)
  | WithPacketLoss (rate : float64)
  | WithReorder (rate : float64)
  | WithCorrupt (rate : float64)
  | WithBandwidth (bytesPerSec : Z)
  | WithBlackhole (duration interval : Z)
  | WithDropAfter (n : Z)
  | WithDropWindow (start end_ : Z)
  | WithPacketHook.

Definition applyOption (p : Profile) (o : Option_) : Profile :=
  let mk lat jit loss reord corr bw bd bi da ws we hook :=
    {| Latency := lat; Jitter := jit; PacketLoss := loss; Reorder := reord; Corrupt := corr; BandwidthBytesPerSec := bw;
       BlackholeDuration := bd; BlackholeInterval := bi; DropAfter := da; DropWindowStart := ws; DropWindowEnd := we;
       PacketHook := hook |} in
  let '(Build_Profile lat jit loss reord corr bw bd bi da ws we hook) := p in
  match o with
  | WithLatency b j => mk b j loss reord corr bw bd bi da ws we hook
  | WithPacketLoss r => mk lat jit r reord corr bw bd bi da ws we hook
  | WithReorder r => mk lat jit loss r corr bw bd bi da ws we hook
  | WithCorrupt r => mk lat jit loss reord r bw bd bi da ws we hook
  | WithBandwidth n => mk lat jit loss reord corr n bd bi da ws we hook
  | WithBlackhole d i => mk lat jit loss reord corr bw d i da ws we hook
  | WithDropAfter n => mk lat jit loss reord corr bw bd bi n ws we hook
  | WithDropWindow s e => mk lat jit loss reord corr bw bd bi da s e hook
  | WithPacketHook => mk lat jit loss reord corr bw bd bi da ws we true
  end.
Definition profileOf (opts : list Option_) : Profile := foldl applyOption zeroProfile opts.

(** ** The throttle *)

Record throttle := {
  rate : float64;
  tokens : float64;
  maxBurst : float64;
  lastTime : Z
}.

Definition newThrottle (bytesPerSec now : Z) : throttle :=
  {| rate := fdiv (f64 bytesPerSec) (f64 1000000000); tokens := f64 bytesPerSec; maxBurst := f64 bytesPerSec; lastTime := now |}.

(** [wait(n)]: the clock says [now], and [woke] after the sleep, if there is
    one; the result also has the time to sleep. *)
Definition wait (t : throttle) (n now woke : Z) : throttle * Z :=
  let filled := fadd (tokens t) (fmul (f64 (now - lastTime t)) (rate t)) in
  let filled := if SFltb (maxBurst t) filled then maxBurst t else filled in
  let left := fsub filled (f64 n) in
  if SFltb left fzero then
    ({| rate := rate t; tokens := fzero; maxBurst := maxBurst t; lastTime := woke |}, ftrunc (fdiv (SFopp left) (rate t)))
  else ({| rate := rate t; tokens := left; maxBurst := maxBurst t; lastTime := now |}, 0).

(** ** Faults *)

(** What [forward] draws for one packet. *)
Record draws := {
  dHook : Action;
  dLoss : float64;
  dCorrupt : float64;
  dIndex : Z;
  dFlip : Z;
  dJitter : Z;
  dReorder : float64;
  dExtra : Z
}.

Inductive verdict :=
  | VDrop
  | VPass (pkt : bytes) (corrupted : bool).

(** [corrupted[idx] ^= byte(rand.IntN(255) + 1)] *)
Definition flipByte (pkt : bytes) (idx flip : Z) : bytes :=
  alter (fun b => z2b (Z.lxor (b2z b) (flip + 1))) (Z.to_nat idx) pkt.

(** The tests of [forward] down to the corruption; [None]: a draw out of the
    range [rand] draws from. *)
Definition applyFaults (prof : Profile) (pktNum : Z) (pkt : bytes) (blackholed : bool) (d : draws) : option verdict :=
  if PacketHook prof && bool_decide (dHook d = Drop) then Some VDrop
  else if (0 <? DropAfter prof) && (DropAfter prof <? pktNum) then Some VDrop
  else if (0 <? DropWindowStart prof) && (DropWindowStart prof <=? pktNum) && (pktNum <? DropWindowEnd prof) then Some VDrop
  else if blackholed then Some VDrop
  else if SFltb fzero (PacketLoss prof) && SFltb (dLoss d) (PacketLoss prof) then Some VDrop
  else if SFltb fzero (Corrupt prof) && SFltb (dCorrupt d) (Corrupt prof) && (0 <? len pkt) then
    if (0 <=? dIndex d) && (dIndex d <? len pkt) && (0 <=? dFlip d) && (dFlip d <? 255)
    then Some (VPass (flipByte pkt (dIndex d) (dFlip d)) true) else None
  else Some (VPass pkt false).

(** [rand.Int64N(n)]: it panics unless [n] is positive. *)
Inductive draw64 :=
  | Panics
  | Draws (z : Z).
Definition Int64N (n draw : Z) : option draw64 :=
  if n <=? 0 then Some Panics else if (0 <=? draw) && (draw <? n) then Some (Draws draw) else None.

(** The delay of a packet and whether it was reordered. *)
Inductive timing :=
  | TPanic
  | TDelay (ns : Z) (reordered : bool).

Definition delayOf (prof : Profile) (d : draws) : option timing :=
  let reorder delay :=
    if SFltb fzero (Reorder prof) && SFltb (dReorder d) (Reorder prof) then
      match Int64N (goInt (3 * Latency prof)) (dExtra d) with
      | Some (Draws extra) => Some (TDelay (goInt (delay + extra)) true)
      | Some Panics => Some TPanic
      | None => None
      end
    else Some (TDelay delay false) in
  if 0 <? Jitter prof then
    match Int64N (goInt (2 * Jitter prof)) (dJitter d) with
    | Some (Draws j) => reorder (goInt (Latency prof + goInt (j - Jitter prof)))
    | Some Panics => Some TPanic
    | None => None
    end
  else reorder (Latency prof).

(** ** The proxy *)

(** Where a packet goes: a client's connection to the target, a client, or
    nowhere ([upstream] is nil). *)
Inductive dest :=
  | ToTarget (u : nat)
  | ToClient (addr : string)
  | Nowhere.

(** A packet in flight: the number under which it was read, its bytes and
    its destination, [Nowhere] until it is looked up. *)
Record packet := {
  pkNum : nat;
  pkData : bytes;
  pkDest : dest
}.

(** A packet on its way: [readLoop] looks its client's upstream up; in
    [forward], before it counts the packet, takes the profile and the
    throttle, applies the faults, waits for the throttle, computes the delay;
    before [send]. *)
Inductive fwd :=
  | FLookup (addr : string)
  | FCount
  | FProfile (pktNum : Z)
  | FFaults (pktNum : Z) (prof : Profile) (thr : option nat)
  | FThrottle (prof : Profile) (thr : option nat)
  | FDelay (prof : Profile)
  | FSend.

(** [readLoop]: reading; with a packet; returned.  The reply goroutine of an
    upstream likewise. *)
Inductive loop :=
  | LRead
  | LFwd (f : fwd) (pk : packet)
  | LDone.

(** [blackholeLoop]: not started; waiting to drop, or to stop dropping; returned. *)
Inductive hole :=
  | HNone
  | HWait
  | HDrop
  | HDone.

(** [Close]: not called; after [close(done)], [conn.Close], closing the
    clients' connections; returned. *)
Inductive closer :=
  | KIdle
  | KConn
  | KClients
  | KWait
  | KReturned.

Record upstream := {
  uClient : string;
  uOpen : bool;
  uLoop : loop
}.

Record Stats := {
  PacketsForwarded : Z;
  PacketsDropped : Z;
  PacketsCorrupted : Z;
  PacketsReordered : Z;
  BytesForwarded : Z
}.

(** How many packets were read, those written to a socket (or nowhere), the
    numbers of those dropped, and those whose timer the end of the proxy
    stopped. *)
Record history := {
  arrivals : nat;
  sent : list packet;
  dropped : list nat;
  givenUp : list packet
}.

Record Proxy := {
  profile : Profile;
  throttlePtr : option nat;
  throttles : list throttle;
  stats : Stats;
  pktCount : Z;
  isDone : bool;
  connOpen : bool;
  clients : gmap string nat;
  upstreams : list upstream;
  blackholed : bool;
  holeLoop : hole;
  reader : loop;
  timers : list packet;
  closing : closer;
  crashed : bool;
  hist : history
}.

Definition with_config (p : Proxy) (prof : Profile) (ptr : option nat) (ths : list throttle) : Proxy :=
  {| profile := prof; throttlePtr := ptr; throttles := ths; stats := stats p; pktCount := pktCount p; isDone := isDone p;
     connOpen := connOpen p; clients := clients p; upstreams := upstreams p; blackholed := blackholed p;
     holeLoop := holeLoop p; reader := reader p; timers := timers p; closing := closing p; crashed := crashed p; hist := hist p |}.
Definition with_counts (p : Proxy) (st : Stats) (n : Z) (h : history) : Proxy :=
  {| profile := profile p; throttlePtr := throttlePtr p; throttles := throttles p; stats := st; pktCount := n; isDone := isDone p;
     connOpen := connOpen p; clients := clients p; upstreams := upstreams p; blackholed := blackholed p;
     holeLoop := holeLoop p; reader := reader p; timers := timers p; closing := closing p; crashed := crashed p; hist := h |}.
Definition with_reader (p : Proxy) (l : loop) : Proxy :=
  {| profile := profile p; throttlePtr := throttlePtr p; throttles := throttles p; stats := stats p; pktCount := pktCount p;
     isDone := isDone p; connOpen := connOpen p; clients := clients p; upstreams := upstreams p; blackholed := blackholed p;
     holeLoop := holeLoop p; reader := l; timers := timers p; closing := closing p; crashed := crashed p; hist := hist p |}.
Definition with_upstreams (p : Proxy) (cs : gmap string nat) (us : list upstream) : Proxy :=
  {| profile := profile p; throttlePtr := throttlePtr p; throttles := throttles p; stats := stats p; pktCount := pktCount p;
     isDone := isDone p; connOpen := connOpen p; clients := cs; upstreams := us; blackholed := blackholed p;
     holeLoop := holeLoop p; reader := reader p; timers := timers p; closing := closing p; crashed := crashed p; hist := hist p |}.
Definition with_hole (p : Proxy) (b : bool) (h : hole) : Proxy :=
  {| profile := profile p; throttlePtr := throttlePtr p; throttles := throttles p; stats := stats p; pktCount := pktCount p;
     isDone := isDone p; connOpen := connOpen p; clients := clients p; upstreams := upstreams p; blackholed := b;
     holeLoop := h; reader := reader p; timers := timers p; closing := closing p; crashed := crashed p; hist := hist p |}.
Definition with_timers (p : Proxy) (ts : list packet) : Proxy :=
  {| profile := profile p; throttlePtr := throttlePtr p; throttles := throttles p; stats := stats p; pktCount := pktCount p;
     isDone := isDone p; connOpen := connOpen p; clients := clients p; upstreams := upstreams p; blackholed := blackholed p;
     holeLoop := holeLoop p; reader := reader p; timers := ts; closing := closing p; crashed := crashed p; hist := hist p |}.
Definition with_closing (p : Proxy) (done conn : bool) (k : closer) : Proxy :=
  {| profile := profile p; throttlePtr := throttlePtr p; throttles := throttles p; stats := stats p; pktCount := pktCount p;
     isDone := done; connOpen := conn; clients := clients p; upstreams := upstreams p; blackholed := blackholed p;
     holeLoop := holeLoop p; reader := reader p; timers := timers p; closing := k; crashed := crashed p; hist := hist p |}.
Definition crash (p : Proxy) : Proxy :=
  {| profile := profile p; throttlePtr := throttlePtr p; throttles := throttles p; stats := stats p; pktCount := pktCount p;
     isDone := isDone p; connOpen := connOpen p; clients := clients p; upstreams := upstreams p; blackholed := blackholed p;
     holeLoop := holeLoop p; reader := reader p; timers := timers p; closing := closing p; crashed := true; hist := hist p |}.

Definition zeroStats : Stats :=
  {| PacketsForwarded := 0; PacketsDropped := 0; PacketsCorrupted := 0; PacketsReordered := 0; BytesForwarded := 0 |}.
Definition noHistory : history := {| arrivals := 0; sent := []; dropped := []; givenUp := [] |}.

(** [New], once the address is resolved and the socket open, at time [now]. *)
Definition New (opts : list Option_) (now : Z) : Proxy :=
  let prof := profileOf opts in
  let throttled := 0 <? BandwidthBytesPerSec prof in
  {| profile := prof; throttlePtr := if throttled then Some 0%nat else None;
     throttles := if throttled then [newThrottle (BandwidthBytesPerSec prof) now] else [];
     stats := zeroStats; pktCount := 0; isDone := false; connOpen := true; clients := ∅; upstreams := []; blackholed := false;
     holeLoop := if (0 <? BlackholeInterval prof) && (0 <? BlackholeDuration prof) then HWait else HNone;
     reader := LRead; timers := []; closing := KIdle; crashed := false; hist := noHistory |}.

(** [UpdateProfile] at time [now], under the lock. *)
Definition UpdateProfile (p : Proxy) (opts : list Option_) (now : Z) : Proxy :=
  let prof := profileOf opts in
  if 0 <? BandwidthBytesPerSec prof
  then with_config p prof (Some (length (throttles p))) (throttles p ++ [newThrottle (BandwidthBytesPerSec prof) now])
  else with_config p prof None (throttles p).

(** ** Counting *)

Definition arrive (p : Proxy) (data : bytes) (d : dest) : Proxy * packet :=
  let h := hist p in
  (with_counts p (stats p) (pktCount p)
     {| arrivals := S (arrivals h); sent := sent h; dropped := dropped h; givenUp := givenUp h |},
   {| pkNum := arrivals h; pkData := data; pkDest := d |}).

Definition countDropped (p : Proxy) (n : nat) : Proxy :=
  let st := stats p in let h := hist p in
  with_counts p
    {| PacketsForwarded := PacketsForwarded st; PacketsDropped := goInt (PacketsDropped st + 1);
       PacketsCorrupted := PacketsCorrupted st; PacketsReordered := PacketsReordered st; BytesForwarded := BytesForwarded st |}
    (pktCount p) {| arrivals := arrivals h; sent := sent h; dropped := dropped h ++ [n]; givenUp := givenUp h |}.
Definition countCorrupted (p : Proxy) : Proxy :=
  let st := stats p in
  with_counts p
    {| PacketsForwarded := PacketsForwarded st; PacketsDropped := PacketsDropped st;
       PacketsCorrupted := goInt (PacketsCorrupted st + 1); PacketsReordered := PacketsReordered st;
       BytesForwarded := BytesForwarded st |} (pktCount p) (hist p).
Definition countReordered (p : Proxy) : Proxy :=
  let st := stats p in
  with_counts p
    {| PacketsForwarded := PacketsForwarded st; PacketsDropped := PacketsDropped st;
       PacketsCorrupted := PacketsCorrupted st; PacketsReordered := goInt (PacketsReordered st + 1);
       BytesForwarded := BytesForwarded st |} (pktCount p) (hist p).

(** The closure [send]: it counts, then writes; errors of the write are
    ignored. *)
Definition send (p : Proxy) (pk : packet) : Proxy :=
  let st := stats p in let h := hist p in
  with_counts p
    {| PacketsForwarded := goInt (PacketsForwarded st + 1); PacketsDropped := PacketsDropped st;
       PacketsCorrupted := PacketsCorrupted st; PacketsReordered := PacketsReordered st;
       BytesForwarded := goInt (BytesForwarded st + len (pkData pk)) |}
    (pktCount p) {| arrivals := arrivals h; sent := sent h ++ [pk]; dropped := dropped h; givenUp := givenUp h |}.

Definition giveUp (p : Proxy) (pk : packet) : Proxy :=
  let h := hist p in
  with_counts p (stats p) (pktCount p)
    {| arrivals := arrivals h; sent := sent h; dropped := dropped h; givenUp := givenUp h ++ [pk] |}.

(** ** Steps *)

(** What a step meets. *)
Inductive input :=
  | INext
  | IPacket (data : bytes) (addr : string)
  | IReadErr
  | IDial (ok : bool)
  | IDraws (d : draws)
  | IClock (now woke : Z)
  | ITimer
  | IDone.

(** One step of [forward]; no state to go on from when it returns. *)
Definition forwardStep (p : Proxy) (f : fwd) (pk : packet) (i : input) : option (Proxy * option (fwd * packet)) :=
  match f, i with
  | FCount, INext =>
      let n := goInt (pktCount p + 1) in Some (with_counts p (stats p) n (hist p), Some (FProfile n, pk))
  | FProfile n, INext => Some (p, Some (FFaults n (profile p) (throttlePtr p), pk))
  | FFaults n prof thr, IDraws d =>
      match applyFaults prof n (pkData pk) (blackholed p) d with
      | None => None
      | Some VDrop => Some (countDropped p (pkNum pk), None)
      | Some (VPass data corrupted) =>
          Some (if corrupted then countCorrupted p else p,
                Some (FThrottle prof thr, {| pkNum := pkNum pk; pkData := data; pkDest := pkDest pk |}))
      end
  | FThrottle prof None, INext => Some (p, Some (FDelay prof, pk))
  | FThrottle prof (Some k), IClock now woke =>
      match throttles p !! k with
      | None => None
      | Some t =>
          let '(t', sleep) := wait t (len (pkData pk)) now woke in
          if now + sleep <=? woke
          then Some (with_config p (profile p) (throttlePtr p) (<[k := t']> (throttles p)), Some (FDelay prof, pk))
          else None
      end
  | FDelay prof, IDraws d =>
      match delayOf prof d with
      | None => None
      | Some TPanic => Some (crash p, Some (FDelay prof, pk))
      | Some (TDelay delay reordered) =>
          let p := if reordered then countReordered p else p in
          if 0 <? delay then Some (with_timers p (timers p ++ [pk]), None) else Some (p, Some (FSend, pk))
      end
  | FSend, INext => Some (send p pk, None)
  | _, _ => None
  end.

(** The loop a call of [forward] is in. *)
Definition resume (r : option (fwd * packet)) : loop :=
  match r with Some (f, pk) => LFwd f pk | None => LRead end.

(** [getOrCreateUpstream]: an upstream of the client there is, a new one with
    its reply goroutine, or none when the dial fails. *)
Definition getOrCreateUpstream (p : Proxy) (addr : string) (i : input) : option (Proxy * dest) :=
  match clients p !! addr, i with
  | Some u, INext => Some (p, ToTarget u)
  | None, IDial true =>
      let u := length (upstreams p) in
      Some (with_upstreams p (<[addr := u]> (clients p))
              (upstreams p ++ [{| uClient := addr; uOpen := true; uLoop := LRead |}]), ToTarget u)
  | None, IDial false => Some (p, Nowhere)
  | _, _ => None
  end.

Definition readLoop (p : Proxy) (i : input) : option Proxy :=
  match reader p, i with
  | LRead, IPacket data addr =>
      if connOpen p then let '(p, pk) := arrive p data Nowhere in Some (with_reader p (LFwd (FLookup addr) pk)) else None
  | LRead, IReadErr => Some (with_reader p (if isDone p then LDone else LRead))
  | LFwd (FLookup addr) pk, i =>
      match getOrCreateUpstream p addr i with
      | None => None
      | Some (p, d) => Some (with_reader p (LFwd FCount {| pkNum := pkNum pk; pkData := pkData pk; pkDest := d |}))
      end
  | LFwd f pk, i =>
      match forwardStep p f pk i with
      | None => None
      | Some (p, r) => Some (with_reader p (resume r))
      end
  | _, _ => None
  end.

Definition set_loop (p : Proxy) (u : nat) (l : loop) : Proxy :=
  with_upstreams p (clients p)
    (alter (fun x => {| uClient := uClient x; uOpen := uOpen x; uLoop := l |}) u (upstreams p)).

(** The goroutine [getOrCreateUpstream] starts. *)
Definition replyLoop (p : Proxy) (u : nat) (i : input) : option Proxy :=
  match upstreams p !! u with
  | None => None
  | Some x =>
      match uLoop x, i with
      | LRead, IPacket data _ =>
          if uOpen x then let '(p, pk) := arrive p data (ToClient (uClient x)) in Some (set_loop p u (LFwd FCount pk)) else None
      | LRead, IReadErr => Some (set_loop p u LDone)
      | LFwd f pk, i =>
          match forwardStep p f pk i with
          | None => None
          | Some (p, r) => Some (set_loop p u (resume r))
          end
      | _, _ => None
      end
  end.

Definition blackholeLoop (p : Proxy) (i : input) : option Proxy :=
  match holeLoop p, i with
  | HWait, ITimer => Some (with_hole p true HDrop)
  | HDrop, ITimer => Some (with_hole p false HWait)
  | HWait, IDone | HDrop, IDone => if isDone p then Some (with_hole p (blackholed p) HDone) else None
  | _, _ => None
  end.

(** The goroutine of the [k]-th packet that waits. *)
Definition delayed (p : Proxy) (k : nat) (i : input) : option Proxy :=
  match timers p !! k, i with
  | Some pk, ITimer => Some (send (with_timers p (delete k (timers p))) pk)
  | Some pk, IDone => if isDone p then Some (giveUp (with_timers p (delete k (timers p))) pk) else None
  | _, _ => None
  end.

Definition closeUpstreams (p : Proxy) : list upstream :=
  imap (fun u x => if bool_decide (clients p !! uClient x = Some u)
                   then {| uClient := uClient x; uOpen := false; uLoop := uLoop x |} else x) (upstreams p).

(** [p.wg.Wait()] returns: the goroutines it counts have. *)
Definition loopDone (l : loop) : bool := match l with LDone => true | _ => false end.
Definition waited (p : Proxy) : bool :=
  loopDone (reader p) && match holeLoop p with HNone | HDone => true | _ => false end
  && forallb (fun x => loopDone (uLoop x)) (upstreams p).

Definition Close (p : Proxy) : option Proxy :=
  match closing p with
  | KIdle => Some (with_closing p true (connOpen p) KConn)
  | KConn => Some (with_closing p (isDone p) false KClients)
  | KClients => Some (with_closing (with_upstreams p (clients p) (closeUpstreams p)) (isDone p) (connOpen p) KWait)
  | KWait => if waited p then Some (with_closing p (isDone p) (connOpen p) KReturned) else None
  | KReturned => Some (crash p)
  end.

Inductive event :=
  | EReader (i : input)
  | EReply (u : nat) (i : input)
  | EHole (i : input)
  | EDelayed (k : nat) (i : input)
  | EUpdate (opts : list Option_) (now : Z)
  | EClose.

Definition step (p : Proxy) (e : event) : option Proxy :=
  if crashed p then None else
  match e with
  | EReader i => readLoop p i
  | EReply u i => replyLoop p u i
  | EHole i => blackholeLoop p i
  | EDelayed k i => delayed p k i
  | EUpdate opts now => Some (UpdateProfile p opts now)
  | EClose => Close p
  end.

Fixpoint run (p : Proxy) (es : list event) : option Proxy :=
  match es with
  | [] => Some p
  | e :: es => match step p e with Some p' => run p' es | None => None end
  end.

(** ** What the sockets show *)

(** Where a packet came from: a client's address, or the connection to the
    target with number [u]. *)
Inductive source :=
  | FromClient (addr : string)
  | FromTarget (u : nat).

(** What a run's events show without the proxy's state: the packets the
    sockets were read for, the client each connection to the target was
    dialled for, the packets whose dial failed, and the packet [readLoop]
    read last. *)
Record trace := {
  tPackets : list (bytes * source);
  tOwners : list string;
  tUndialed : list nat;
  tCurrent : nat * string
}.

Definition noTrace : trace := {| tPackets := []; tOwners := []; tUndialed := []; tCurrent := (0%nat, EmptyString) |}.

Definition observe (T : trace) (e : event) : trace :=
  let '{| tPackets := ps; tOwners := ow; tUndialed := un; tCurrent := cur |} := T in
  match e with
  | EReader (IPacket data addr) =>
      {| tPackets := ps ++ [(data, FromClient addr)]; tOwners := ow; tUndialed := un; tCurrent := (length ps, addr) |}
  | EReply u (IPacket data _) =>
      {| tPackets := ps ++ [(data, FromTarget u)]; tOwners := ow; tUndialed := un; tCurrent := cur |}
  | EReader (IDial true) => {| tPackets := ps; tOwners := ow ++ [cur.2]; tUndialed := un; tCurrent := cur |}
  | EReader (IDial false) => {| tPackets := ps; tOwners := ow; tUndialed := un ++ [cur.1]; tCurrent := cur |}
  | _ => T
  end.
Definition traceOf (es : list event) : trace := foldl observe noTrace es.

(** Where the [n]-th packet belongs: a client's on the connection dialled for
    this client, nowhere if that dial failed; a reply on a connection with
    the client it was dialled for. *)
Definition routed (T : trace) (n : nat) (src : source) (d : dest) : Prop :=
  match src, d with
  | FromClient a, ToTarget u => tOwners T !! u = Some a
  | FromClient _, Nowhere => n ∈ tUndialed T
  | FromTarget u, ToClient a => tOwners T !! u = Some a
  | _, _ => False
  end.

(** The packet a goroutine draws the reordering of, with a draw below the rate of its profile. *)
Definition reorders (l : loop) (i : input) : list nat :=
  match l, i with
  | LFwd (FDelay prof) pk, IDraws d =>
      if SFltb fzero (Reorder prof) && SFltb (dReorder d) (Reorder prof) then [pkNum pk] else []
  | _, _ => []
  end.

(** The goroutine an event belongs to. *)
Definition loopOf (p : Proxy) (e : event) : option (loop * input) :=
  match e with
  | EReader i => Some (reader p, i)
  | EReply u i => match upstreams p !! u with Some x => Some (uLoop x, i) | None => None end
  | _ => None
  end.
Definition drawsReorder (p : Proxy) (e : event) : list nat :=
  match loopOf p e with Some (l, i) => reorders l i | None => [] end.

(** The packets a run reorders; a draw from an empty range panics instead. *)
Fixpoint reorderedBy (p : Proxy) (es : list event) : list nat :=
  match es with
  | [] => []
  | e :: es =>
      match step p e with
      | Some p' => (if crashed p' then [] else drawsReorder p e) ++ reorderedBy p' es
      | None => []
      end
  end.

(** ** Where the packets are *)

Definition held (l : loop) : list (fwd * packet) := match l with LFwd f pk => [(f, pk)] | _ => [] end.
Definition forwarding (p : Proxy) : list (fwd * packet) := held (reader p) ++ flat_map (fun x => held (uLoop x)) (upstreams p).

(** The bytes with one of them changed. *)
Definition oneByteOff (data data' : bytes) : Prop :=
  exists i b b', data !! i = Some b /\ b <> b' /\ data' = <[i := b']> data.
Definition nearly (data data' : bytes) : Prop := data' = data \/ oneByteOff data data'.

(** A packet is what was read, or one byte off after the faults, and goes where it belongs. *)
Definition genuine (T : trace) (pk : packet) : Prop :=
  exists data src, tPackets T !! pkNum pk = Some (data, src) /\ nearly data (pkData pk) /\
    routed T (pkNum pk) src (pkDest pk).
Definition untouched (T : trace) (pk : packet) : Prop :=
  exists src, tPackets T !! pkNum pk = Some (pkData pk, src) /\ routed T (pkNum pk) src (pkDest pk).
Definition flightOK (T : trace) (x : fwd * packet) : Prop :=
  match x.1 with
  | FLookup a => tPackets T !! pkNum x.2 = Some (pkData x.2, FromClient a)
  | FCount | FProfile _ | FFaults _ _ _ => untouched T x.2
  | _ => genuine T x.2
  end.
Definition counted (f : fwd) : bool := match f with FLookup _ | FCount => false | _ => true end.
Definition uncounted (xs : list (fwd * packet)) : list (fwd * packet) := List.filter (fun x => negb (counted x.1)) xs.

Definition sumOf (g : packet -> Z) (pks : list packet) : Z := foldr (fun pk z => g pk + z) 0 pks.
Definition bytesOf (pks : list packet) : Z := sumOf (fun pk => len (pkData pk)) pks.

(** The packets whose bytes are not those that were read. *)
Definition altered (T : trace) (pk : packet) : Z :=
  if bool_decide (fst <$> tPackets T !! pkNum pk = Some (pkData pk)) then 0 else 1.
Definition alteredIn (T : trace) (pks : list packet) : Z := sumOf (altered T) pks.

(** The numbers of the packets that are not on their way. *)
Definition settled (p : Proxy) : list nat :=
  map pkNum (sent (hist p)) ++ dropped (hist p) ++ map pkNum (givenUp (hist p)) ++ map pkNum (timers p).

(** The packets that were not dropped, with [xs] on their way. *)
Definition kept (p : Proxy) (xs : list (fwd * packet)) : list packet :=
  sent (hist p) ++ givenUp (hist p) ++ timers p ++ map snd xs.

(** ** The invariant *)

Lemma goInt_plus a b : goInt (goInt a + b) = goInt (a + b).
Proof.
  unfold goInt. f_equal. replace ((a + 2 ^ 63) mod 2 ^ 64 - 2 ^ 63 + b + 2 ^ 63) with ((a + 2 ^ 63) mod 2 ^ 64 + b) by lia.
  rewrite Zplus_mod_idemp_l. f_equal. lia.
Qed.

Lemma flip_changes b k : 0 <= k < 255 -> z2b (Z.lxor (b2z b) (k + 1)) <> b.
Proof.
  intros Hk He. apply (f_equal b2z) in He. rewrite b2z_z2b in He. pose proof (b2z_range b).
  assert (Hr : 0 <= Z.lxor (b2z b) (k + 1) < 2 ^ 8).
  { split; [apply Z.lxor_nonneg; lia |]. destruct (Z.eq_dec (Z.lxor (b2z b) (k + 1)) 0) as [->|Hne]; [lia |].
    apply Z.log2_lt_pow2; [pose proof (proj2 (Z.lxor_nonneg (b2z b) (k + 1)) ltac:(lia)); lia |].
    eapply Z.le_lt_trans; [apply Z.log2_lxor; lia |].
    pose proof (Z.log2_le_mono (b2z b) 255 ltac:(lia)). pose proof (Z.log2_le_mono (k + 1) 255 ltac:(lia)).
    change (Z.log2 255) with 7 in *. lia. }
  rewrite Z.mod_small in He by (change (2 ^ 8) with 256 in Hr; lia).
  assert (Hz : Z.lxor (b2z b) (Z.lxor (b2z b) (k + 1)) = 0) by (rewrite He; apply Z.lxor_nilpotent).
  rewrite <-Z.lxor_assoc, Z.lxor_nilpotent, Z.lxor_0_l in Hz. lia.
Qed.

Lemma flipByte_off pkt idx k : 0 <= idx < len pkt -> 0 <= k < 255 -> oneByteOff pkt (flipByte pkt idx k).
Proof.
  intros Hi Hk. unfold len in Hi. destruct (lookup_lt_is_Some_2 pkt (Z.to_nat idx)) as [b Hb]; [lia |].
  exists (Z.to_nat idx), b, (z2b (Z.lxor (b2z b) (k + 1))). split_and!; [done | by apply not_eq_sym, flip_changes |].
  unfold flipByte. apply list_eq. intros j. destruct (decide (j = Z.to_nat idx)) as [->|Hj].
  - rewrite list_lookup_alter_eq, Hb, list_lookup_insert_eq by (by eapply lookup_lt_Some). done.
  - by rewrite list_lookup_alter_ne, list_lookup_insert_ne by done.
Qed.

(** A packet that passes the faults is the one that came, or a byte off and counted. *)
Lemma faults_pass prof n pkt holed d data c :
  applyFaults prof n pkt holed d = Some (VPass data c) -> if c then oneByteOff pkt data else data = pkt.
Proof.
  destruct c; unfold applyFaults; repeat case_match; intros [=]; subst; try done.
  rewrite !andb_true_iff, !Z.leb_le, !Z.ltb_lt in *. by apply flipByte_off; lia.
Qed.

Lemma off_differs data data' : oneByteOff data data' -> data' <> data.
Proof.
  intros (i & b & b' & Hi & Hb & ->) He. apply (f_equal (fun l => l !! i)) in He.
  rewrite list_lookup_insert_eq in He by (by eapply lookup_lt_Some). congruence.
Qed.

Lemma sumOf_app g xs ys : sumOf g (xs ++ ys) = sumOf g xs + sumOf g ys.
Proof. induction xs as [|x xs IH]; cbn; [done |]. unfold sumOf in *. cbn. lia. Qed.

#[export] Instance sumOf_perm g : Proper ((≡ₚ) ==> eq) (sumOf g).
Proof. intros xs ys Hp. induction Hp; cbn in *; unfold sumOf in *; cbn; lia. Qed.

(** Packets, connections and failed dials are only ever added. *)
Record extends (T T' : trace) : Prop := {
  e_packets : tPackets T `prefix_of` tPackets T';
  e_owners : tOwners T `prefix_of` tOwners T';
  e_undialed : forall n, n ∈ tUndialed T -> n ∈ tUndialed T'
}.

Lemma routed_later T T' n src d : extends T T' -> routed T n src d -> routed T' n src d.
Proof. intros []. destruct src, d; cbn; try done; auto; intros H; by eapply prefix_lookup_Some. Qed.

Lemma genuine_later T T' pk : extends T T' -> genuine T pk -> genuine T' pk.
Proof.
  intros HT (data & src & H1 & H2 & H3). exists data, src. split_and!; [| done | by eapply routed_later].
  eapply prefix_lookup_Some; [done | apply HT].
Qed.

Lemma flightOK_later T T' x : extends T T' -> flightOK T x -> flightOK T' x.
Proof.
  intros HT. unfold flightOK, untouched. destruct x.1; try (by apply genuine_later).
  1: intros H; eapply prefix_lookup_Some; [done | apply HT].
  all: intros (src & H1 & H2); exists src; split; [eapply prefix_lookup_Some; [done | apply HT] | by eapply routed_later].
Qed.

(** The invariant for a proxy with [xs] on their way. *)
Record accounted (T : trace) (p : Proxy) (xs : list (fwd * packet)) : Prop := {
  a_arrivals : arrivals (hist p) = length (tPackets T);
  a_numbers : settled p ++ map (fun x => pkNum x.2) xs ≡ₚ seq 0 (length (tPackets T));
  a_flight : Forall (flightOK T) xs;
  a_genuine : Forall (genuine T) (sent (hist p) ++ givenUp (hist p) ++ timers p);
  a_forwarded : PacketsForwarded (stats p) = goInt (len (sent (hist p)));
  a_dropped : PacketsDropped (stats p) = goInt (len (dropped (hist p)));
  a_corrupted : PacketsCorrupted (stats p) = goInt (alteredIn T (kept p xs));
  a_bytes : BytesForwarded (stats p) = goInt (bytesOf (sent (hist p)));
  a_count : pktCount p = goInt (len (tPackets T) - len (uncounted xs))
}.

#[export] Instance accounted_perm T p : Proper ((≡ₚ) ==> iff) (accounted T p).
Proof.
  assert (Hone : forall xs ys, xs ≡ₚ ys -> accounted T p xs -> accounted T p ys).
  { intros xs ys Hp [H0 H1 H2 H3 H4 H5 H6 H7 H8]. split; try done.
    - by rewrite <-Hp.
    - by rewrite <-Hp.
    - rewrite H6. unfold alteredIn, kept. by rewrite Hp.
    - rewrite H8. unfold len, uncounted. do 3 f_equal. apply Permutation_length.
      clear -Hp. induction Hp as [| |x y xs|]; cbn; repeat case_match; try done; by (constructor || etrans). }
  intros xs ys Hp. split; apply Hone; [done | by symmetry].
Qed.

(** What the invariant looks at. *)
Lemma accounted_same T p p' xs :
  stats p' = stats p -> pktCount p' = pktCount p -> hist p' = hist p -> timers p' = timers p ->
  accounted T p xs -> accounted T p' xs.
Proof. intros Hs Hc Hh Ht []. split; unfold settled, kept in *; rewrite ?Hs, ?Hc, ?Hh, ?Ht; done. Qed.

Lemma kept_cons T p f pk xs : alteredIn T (kept p ((f, pk) :: xs)) = altered T pk + alteredIn T (kept p xs).
Proof. unfold kept, alteredIn. cbn [map snd]. rewrite <-!Permutation_middle. done. Qed.

Lemma kept_same T p p' xs : hist p' = hist p -> timers p' = timers p -> alteredIn T (kept p' xs) = alteredIn T (kept p xs).
Proof. unfold kept. by intros -> ->. Qed.

(** Every packet that was not dropped was read. *)
Lemma kept_known T p xs : accounted T p xs -> Forall (fun pk => is_Some (tPackets T !! pkNum pk)) (kept p xs).
Proof.
  intros Ha. unfold kept. rewrite !app_assoc, <-(app_assoc (sent _)), Forall_app. split.
  - eapply Forall_impl; [apply (a_genuine _ _ _ Ha) |]. intros pk (? & ? & -> & _). by eexists.
  - apply Forall_map. eapply Forall_impl; [apply (a_flight _ _ _ Ha) |]. intros [f pk]. unfold flightOK, untouched, genuine.
    cbn [fst snd]. destruct f; naive_solver.
Qed.

Lemma alteredIn_later T T' pks : tPackets T `prefix_of` tPackets T' ->
  Forall (fun pk => is_Some (tPackets T !! pkNum pk)) pks -> alteredIn T' pks = alteredIn T pks.
Proof.
  intros Hp. unfold alteredIn, sumOf. induction 1 as [|pk pks [x Hx] _ IH]; cbn; [done |].
  rewrite IH. unfold altered. rewrite Hx, (prefix_lookup_Some _ _ _ _ Hx Hp). done.
Qed.

(** A connection is dialled, or a dial fails. *)
Lemma accounted_later T T' p xs : extends T T' -> tPackets T' = tPackets T -> accounted T p xs -> accounted T' p xs.
Proof.
  intros HT Hp Ha. pose proof (alteredIn_later T T' _ (e_packets _ _ HT) (kept_known _ _ _ Ha)) as Hal.
  destruct Ha. split; rewrite ?Hp, ?Hal; try done.
  - eapply Forall_impl; [done |]. intros x. by apply flightOK_later.
  - eapply Forall_impl; [done |]. intros x. by apply genuine_later.
Qed.

Lemma accounted_arrive T T' p xs data src d p' pk f :
  accounted T p xs -> arrive p data d = (p', pk) ->
  tPackets T' = tPackets T ++ [(data, src)] -> tOwners T' = tOwners T -> tUndialed T' = tUndialed T ->
  counted f = false -> (tPackets T' !! pkNum pk = Some (data, src) -> flightOK T' (f, pk)) -> accounted T' p' ((f, pk) :: xs).
Proof.
  intros Ha [= <- <-] Hp Ho Hu Hf Hok.
  assert (HT : extends T T') by (split; [rewrite Hp; by eexists | by rewrite Ho | by rewrite Hu]).
  pose proof (alteredIn_later T T' _ (e_packets _ _ HT) (kept_known _ _ _ Ha)) as Hal.
  destruct Ha as [H0 H1 H2 H3 H4 H5 H6 H7 H8]. cbn [pkNum] in Hok.
  assert (Hx : tPackets T' !! arrivals (hist p) = Some (data, src)) by (rewrite Hp, H0; by apply list_lookup_middle).
  split; cbn [hist with_counts stats pktCount timers arrivals sent dropped givenUp]; rewrite ?Hp; try done.
  - rewrite length_app, H0. cbn. lia.
  - unfold settled. cbn. rewrite <-Permutation_middle, length_app, seq_app. cbn [length seq]. rewrite <-H1, H0.
    rewrite <-Permutation_cons_append. done.
  - constructor; [by apply Hok |]. eapply Forall_impl; [exact H2 |]. intros x. by apply flightOK_later.
  - eapply Forall_impl; [exact H3 |]. intros x. by apply genuine_later.
  - rewrite H6, kept_cons. f_equal. change (kept _ xs) with (kept p xs). rewrite Hal.
    unfold altered. cbn [pkNum pkData]. rewrite Hx. cbn. by rewrite bool_decide_eq_true_2.
  - rewrite H8. unfold uncounted. cbn. rewrite Hf. cbn. rewrite len_app, !len_cons, len_nil. f_equal. lia.
Qed.

Lemma accounted_send T p pk xs f :
  accounted T p ((f, pk) :: xs) -> genuine T pk -> counted f = true -> accounted T (send p pk) xs.
Proof.
  intros [H0 H1 H2 H3 H4 H5 H6 H7 H8] Hx Hb. apply Forall_cons in H2 as [_ H2]. split; cbn -[alteredIn kept bytesOf]; try done.
  - rewrite <-H1. unfold settled. cbn. rewrite map_app, <-!app_assoc. cbn. rewrite <-!Permutation_middle. done.
  - rewrite <-!app_assoc. cbn. rewrite <-Permutation_middle. by constructor.
  - rewrite H4, goInt_plus, len_app, len_cons, len_nil. done.
  - rewrite H6, kept_cons. f_equal. unfold kept, alteredIn. cbn [send with_counts hist timers sent givenUp].
    rewrite <-app_assoc. cbn [app]. by rewrite <-Permutation_middle.
  - rewrite H7, goInt_plus. f_equal. unfold bytesOf. rewrite sumOf_app. unfold sumOf at 3. cbn. lia.
  - rewrite H8. unfold uncounted. cbn. by rewrite Hb.
Qed.

Lemma accounted_reordered T p xs : accounted T p xs -> accounted T (countReordered p) xs.
Proof. intros []. by split. Qed.

(** The packet moves on, its bytes as they are. *)
Lemma accounted_stage T p f pk f' pk' xs :
  accounted T p ((f, pk) :: xs) -> pkNum pk' = pkNum pk -> pkData pk' = pkData pk -> counted f = counted f' ->
  flightOK T (f', pk') -> accounted T p ((f', pk') :: xs).
Proof.
  intros [H0 H1 H2 H3 H4 H5 H6 H7 H8] Hn Hd Hf Hok. apply Forall_cons in H2 as [_ H2]. split; try done.
  - cbn in *. by rewrite Hn.
  - by constructor.
  - rewrite H6, !kept_cons. unfold altered. by rewrite Hn, Hd.
  - rewrite H8. unfold uncounted. cbn. rewrite Hf. by destruct (counted f').
Qed.

(** A byte of it is changed. *)
Lemma accounted_corrupted T p n prof thr pk prof' thr' data xs :
  accounted T p ((FFaults n prof thr, pk) :: xs) -> oneByteOff (pkData pk) data ->
  accounted T (countCorrupted p)
    ((FThrottle prof' thr', {| pkNum := pkNum pk; pkData := data; pkDest := pkDest pk |}) :: xs).
Proof.
  intros [H0 H1 H2 H3 H4 H5 H6 H7 H8] Hoff. apply Forall_cons in H2 as [(src & Hx & Hr) H2]. cbn [snd] in *.
  split; cbn -[alteredIn kept bytesOf]; try done.
  - constructor; [| done]. exists (pkData pk), src. split_and!; [done | by right | done].
  - rewrite H6, goInt_plus, !kept_cons. f_equal. change (kept (countCorrupted p) xs) with (kept p xs).
    unfold altered. cbn [pkNum pkData]. rewrite Hx. cbn. apply off_differs in Hoff.
    rewrite bool_decide_eq_true_2, bool_decide_eq_false_2; [lia | congruence | done].
Qed.

Lemma accounted_park T p prof pk xs : accounted T p ((FDelay prof, pk) :: xs) -> accounted T (with_timers p (timers p ++ [pk])) xs.
Proof.
  intros [H0 H1 H2 H3 H4 H5 H6 H7 H8]. apply Forall_cons in H2 as [Hx H2]. split; cbn -[alteredIn kept bytesOf]; try done.
  - rewrite <-H1. unfold settled. cbn. rewrite map_app, <-!app_assoc. cbn. done.
  - rewrite !app_assoc, Forall_app, Forall_singleton, <-app_assoc. done.
  - rewrite H6. f_equal. unfold alteredIn, kept. cbn. by rewrite <-!app_assoc.
Qed.

Lemma untouched_genuine T pk : untouched T pk -> genuine T pk.
Proof. intros (src & H1 & H2). exists (pkData pk), src. split_and!; [done | by left | done]. Qed.

Lemma accounted_forward T p f pk i p' r xs :
  accounted T p ((f, pk) :: xs) -> forwardStep p f pk i = Some (p', r) ->
  accounted T p' (match r with Some x => [x] | None => [] end ++ xs).
Proof.
  intros Ha. pose proof Ha as [H0 H1 H2 H3 H4 H5 H6 H7 H8]. apply Forall_cons in H2 as [Hx H2]. unfold flightOK in Hx.
  destruct f as [a| |n|n prof thr|prof thr|prof|], i; cbn [forwardStep fst snd] in *; try done; try (by destruct thr).
  - intros [= <- <-]. split; cbn; try done; [by constructor |].
    rewrite H8. unfold uncounted. cbn. rewrite goInt_plus, len_cons. f_equal. lia.
  - intros [= <- <-]. by eapply accounted_stage.
  - destruct (applyFaults prof n (pkData pk) (blackholed p) d) as [[|data c]|] eqn:Hf; [| | done].
    + intros [= <- <-]. split; cbn -[alteredIn kept bytesOf]; try done.
      * rewrite <-H1. unfold settled. cbn. rewrite <-!app_assoc. cbn. rewrite <-!Permutation_middle. done.
      * by rewrite H5, goInt_plus, len_app, len_cons, len_nil.
      * rewrite H6, kept_cons. f_equal. change (kept (countDropped p (pkNum pk)) xs) with (kept p xs).
        destruct Hx as (src & Hx & _). unfold altered. rewrite Hx. cbn. by rewrite bool_decide_eq_true_2.
    + intros [= <- <-]. cbn [app]. apply faults_pass in Hf. destruct c; [by eapply accounted_corrupted |].
      subst data. eapply accounted_stage; [exact Ha | done .. |]. by apply untouched_genuine.
  - destruct thr; [done |]. intros [= <- <-]. by eapply accounted_stage.
  - destruct thr as [k|]; [| done]. destruct (throttles p !! k) as [t|]; [| done]. destruct (wait _ _ _ _) as [t' sl].
    case_match; [| done]. intros [= <- <-].
    eapply (accounted_same T p); [done .. |]. by eapply accounted_stage.
  - destruct (delayOf prof d) as [[|ns ro]|]; [| | done].
    + intros [= <- <-]. by eapply (accounted_same T p).
    + set (p1 := if ro then countReordered p else p).
      assert (Hp1 : accounted T p1 ((FDelay prof, pk) :: xs)) by (subst p1; destruct ro; [by apply accounted_reordered | done]).
      case_match; intros [= <- <-]; [by eapply accounted_park |]. by eapply accounted_stage.
  - intros [= <- <-]. by eapply accounted_send.
Qed.

(** The packets of the loops but that of an upstream. *)
Definition others (p : Proxy) (u : nat) : list (fwd * packet) :=
  held (reader p) ++ flat_map (fun x => held (uLoop x)) (delete u (upstreams p)).

Lemma forwarding_split p u x : upstreams p !! u = Some x -> forwarding p ≡ₚ held (uLoop x) ++ others p u.
Proof.
  intros Hu. unfold forwarding, others. rewrite (Permutation_app_comm (held (uLoop x))), <-app_assoc. apply Permutation_app_head.
  rewrite <-(take_drop_middle _ _ _ Hu) at 1. rewrite delete_take_drop, !flat_map_app. cbn. rewrite <-app_assoc.
  apply Permutation_app_head, Permutation_app_comm.
Qed.

Lemma forwarding_set_loop p u x l :
  upstreams p !! u = Some x -> forwarding (set_loop p u l) ≡ₚ held l ++ others p u.
Proof.
  intros Hu. rewrite (forwarding_split _ u {| uClient := uClient x; uOpen := uOpen x; uLoop := l |}).
  - cbn. unfold others. cbn. do 3 f_equiv. apply reflexive_eq, list_eq. intros j. destruct (decide (j < u)%nat).
    + rewrite !list_lookup_delete_lt by done. apply list_lookup_alter_ne. lia.
    + rewrite !list_lookup_delete_ge by lia. apply list_lookup_alter_ne. lia.
  - cbn. by rewrite list_lookup_alter_eq, Hu.
Qed.

Lemma resume_held r : held (resume r) = match r with Some x => [x] | None => [] end.
Proof. by destruct r as [[f pk]|]. Qed.

(** The proxy's connections are those the events show: one for each client
    that could be dialled, and the clients' table finds it. *)
Record owned (T : trace) (p : Proxy) : Prop := {
  o_owners : map uClient (upstreams p) = tOwners T;
  o_clients a u : clients p !! a = Some u -> tOwners T !! u = Some a;
  o_known a : a ∈ tOwners T -> is_Some (clients p !! a);
  o_nodup : NoDup (tOwners T);
  o_current a pk : reader p = LFwd (FLookup a) pk -> tCurrent T = (pkNum pk, a)
}.

Definition accounts (T : trace) (p : Proxy) : Prop := accounted T p (forwarding p) /\ owned T p.

(** Only reading and dialling show. *)
Lemma forward_unseen T p f pk i p' r e : forwardStep p f pk i = Some (p', r) -> e = EReader i \/ (exists u, e = EReply u i) ->
  observe T e = T.
Proof. intros Hf [-> | [u ->]]; destruct T, f, i; try done; cbn in Hf; by destruct thr. Qed.

Lemma owned_same T p p' :
  map uClient (upstreams p') = map uClient (upstreams p) -> clients p' = clients p ->
  (forall a pk, reader p' = LFwd (FLookup a) pk -> reader p = LFwd (FLookup a) pk) -> owned T p -> owned T p'.
Proof. intros Hu Hc Hr []. split; rewrite ?Hu, ?Hc; eauto. Qed.

Lemma forward_frame p f pk i p' r : forwardStep p f pk i = Some (p', r) ->
  reader p' = reader p /\ upstreams p' = upstreams p /\ clients p' = clients p /\
  forall a pk', r <> Some (FLookup a, pk').
Proof. unfold forwardStep. repeat case_match; intros [= <- <-]; done. Qed.

Lemma resume_lookup r a pk : (forall a pk', r <> Some (FLookup a, pk')) -> resume r <> LFwd (FLookup a) pk.
Proof. destruct r as [[f pk']|]; cbn; [| done]. intros H [= -> ->]. by eapply H. Qed.

Lemma accounts_reading T p data addr p1 pk : accounts T p -> reader p = LRead -> arrive p data Nowhere = (p1, pk) ->
  accounts (observe T (EReader (IPacket data addr))) (with_reader p1 (LFwd (FLookup addr) pk)).
Proof.
  intros [Ha Ho] Hr Hv. unfold forwarding in Ha. rewrite Hr in Ha. cbn [held app] in Ha.
  assert (Hn : pkNum pk = length (tPackets T)) by (injection Hv as <- <-; apply Ha).
  assert (Hd : pkData pk = data) by (by injection Hv as <- <-). split.
  - eapply (accounted_same _ p1); [done .. |]. cbn [forwarding with_reader reader upstreams held app].
    replace (upstreams p1) with (upstreams p) by (by injection Hv as <- <-).
    eapply accounted_arrive; try done; destruct T; try done. intros H. cbn [flightOK fst snd]. by rewrite Hd.
  - destruct Ho, T. injection Hv as <- <-. split; cbn; try done. intros a pk [= <- <-]. cbn in *. by rewrite Hn.
Qed.

(** The upstream of a client is found, dialled, or cannot be. *)
Lemma lookup_owned T p addr n i p1 d : owned T p -> tCurrent T = (n, addr) -> getOrCreateUpstream p addr i = Some (p1, d) ->
  let T' := observe T (EReader i) in
  extends T T' /\ tPackets T' = tPackets T /\ routed T' n (FromClient addr) d /\
  flat_map (fun x => held (uLoop x)) (upstreams p1) = flat_map (fun x => held (uLoop x)) (upstreams p) /\
  (stats p1, pktCount p1, hist p1, timers p1) = (stats p, pktCount p, hist p, timers p) /\ owned T' (with_reader p1 LRead).
Proof.
  intros [Ho1 Ho2 Ho3 Ho4 Ho5] Hcur Hg. cbv zeta. unfold getOrCreateUpstream in Hg.
  destruct T as [ps ow un cur]. cbn [tPackets tOwners tUndialed tCurrent] in *. subst cur.
  destruct (clients p !! addr) as [u|] eqn:Hc, i as [| | |[]| | | |]; try done; injection Hg as <- <-; cbn.
  - split_and!; try done; by first [apply Ho2 | split].
  - assert (length (upstreams p) = length ow) as Hlen by (rewrite <-Ho1; by rewrite length_map).
    split_and!; try done.
    + split; cbn; [done | by eexists | done].
    + rewrite Hlen. by apply list_lookup_middle.
    + by rewrite flat_map_app, app_nil_r.
    + split; cbn; try done.
      * by rewrite map_app, Ho1.
      * intros a u [[<- <-] | [_ Hu]]%lookup_insert_Some; [rewrite Hlen; by apply list_lookup_middle |].
        apply lookup_app_l_Some. by apply Ho2.
      * intros a [Hin | ->%list_elem_of_singleton]%elem_of_app; [| rewrite lookup_insert_eq; by eexists].
        destruct (decide (a = addr)) as [->|Hne]; [rewrite lookup_insert_eq; by eexists |].
        rewrite lookup_insert_ne by done. by apply Ho3.
      * apply NoDup_app. split_and!; [done | | apply NoDup_singleton].
        intros a Hin ->%list_elem_of_singleton. apply Ho3 in Hin as [? ?]. congruence.
  - split_and!; try done.
    + split; cbn; try done. intros m Hm. apply elem_of_app. by left.
    + apply elem_of_app. right. apply list_elem_of_here.
Qed.

Lemma accounts_lookup T p addr pk i p1 d : accounts T p -> reader p = LFwd (FLookup addr) pk ->
  getOrCreateUpstream p addr i = Some (p1, d) ->
  accounts (observe T (EReader i)) (with_reader p1 (LFwd FCount {| pkNum := pkNum pk; pkData := pkData pk; pkDest := d |})).
Proof.
  intros [Ha Ho] Hr Hg. unfold forwarding in Ha. rewrite Hr in Ha. cbn [held app] in Ha.
  assert (Hx : tPackets T !! pkNum pk = Some (pkData pk, FromClient addr)).
  { pose proof (a_flight _ _ _ Ha) as H. by apply Forall_cons in H as [? _]. }
  destruct (lookup_owned _ _ _ _ _ _ _ Ho (o_current _ _ Ho _ _ Hr) Hg) as (HT & Hp & Hro & Hfw & [= H1 H2 H3 H4] & Ho').
  split; [| by eapply (owned_same _ (with_reader p1 LRead))].
  unfold forwarding in *. cbn [with_reader reader upstreams held app] in *. rewrite Hfw.
  eapply (accounted_same _ p); [done .. |]. eapply accounted_stage; [by eapply accounted_later | done .. |].
  exists (FromClient addr). cbn [snd pkNum pkData pkDest]. by rewrite Hp.
Qed.

Lemma accounts_reader T p i p' : accounts T p -> readLoop p i = Some p' -> accounts (observe T (EReader i)) p'.
Proof.
  unfold readLoop. intros Ha. destruct (reader p) as [|f pk|] eqn:Hr; [| | done].
  - destruct i; try done.
    + destruct (connOpen p); [| done]. destruct (arrive p data Nowhere) as [p1 pk] eqn:Hv. intros [= <-].
      by apply (accounts_reading _ p).
    + intros [= <-]. replace (observe T (EReader IReadErr)) with T by (by destruct T). destruct Ha as [Ha Ho]. split.
      * eapply (accounted_same _ p); [done .. |]. unfold forwarding in *. rewrite Hr in Ha. cbn. by destruct (isDone p).
      * eapply (owned_same _ p); [done | done | | done]. cbn. by destruct (isDone p).
  - assert (Hfw : forall p1 r, forwardStep p f pk i = Some (p1, r) -> accounts (observe T (EReader i)) (with_reader p1 (resume r))).
    { intros p1 r Hf. rewrite (forward_unseen _ _ _ _ _ _ _ _ Hf) by by left. destruct Ha as [Ha Ho].
      destruct (forward_frame _ _ _ _ _ _ Hf) as (Hr1 & Hu1 & Hc1 & Hl). split.
      - unfold forwarding in *. cbn [with_reader reader upstreams]. rewrite resume_held, Hu1.
        eapply (accounted_same _ p1); [done .. |]. eapply accounted_forward; [| exact Hf]. by rewrite Hr in Ha.
      - eapply (owned_same _ p); cbn; [by rewrite Hu1 | done | | done]. intros a pk' H. by apply resume_lookup in H. }
    destruct f as [addr| | | | | |].
    1: { destruct (getOrCreateUpstream p addr i) as [[p1 d]|] eqn:Hg; [| done]. intros [= <-]. by eapply accounts_lookup. }
    all: destruct (forwardStep p _ pk i) as [[p1 r]|]; [| done]; intros [= <-]; by apply Hfw.
Qed.

Lemma set_loop_owned T p u l : owned T p -> owned T (set_loop p u l).
Proof.
  apply owned_same; [| done | done]. cbn. apply list_eq. intros j. rewrite !list_lookup_fmap.
  destruct (decide (j = u)) as [->|Hj]; [| by rewrite list_lookup_alter_ne].
  rewrite list_lookup_alter_eq. by destruct (upstreams p !! u).
Qed.

Lemma accounts_reply T p u i p' : accounts T p -> replyLoop p u i = Some p' -> accounts (observe T (EReply u i)) p'.
Proof.
  unfold replyLoop. intros [Ha Ho]. destruct (upstreams p !! u) as [x|] eqn:Hu; [| done].
  assert (Hown : tOwners T !! u = Some (uClient x)) by (by rewrite <-(o_owners _ _ Ho), list_lookup_fmap, Hu).
  rewrite (forwarding_split p u x Hu) in Ha. destruct (uLoop x) as [|f pk|] eqn:Hl; [| | done].
  - destruct i as [|data a| | | | | |]; try done.
    + destruct (uOpen x); [| done]. destruct (arrive p data _) as [p1 pk] eqn:Hv. intros [= <-]. split.
      * rewrite (forwarding_set_loop _ u x) by (by injection Hv as <- <-). replace (others p1 u) with (others p u) by (by injection Hv as <- <-).
        eapply (accounted_same _ p1); [done .. |].
        eapply accounted_arrive; [exact Ha | exact Hv | by destruct T .. |]. intros Hx. exists (FromTarget u).
        injection Hv as <- <-. by destruct T.
      * apply set_loop_owned. injection Hv as <- <-. destruct T, Ho. by split.
    + intros [= <-]. replace (observe T _) with T by (by destruct T). split; [| by apply set_loop_owned].
      rewrite (forwarding_set_loop _ u x) by done. by eapply accounted_same; [.. | exact Ha].
  - destruct (forwardStep p f pk i) as [[p1 r]|] eqn:Hf; [| done]. intros [= <-].
    rewrite (forward_unseen _ _ _ _ _ _ _ _ Hf) by (right; by eexists).
    destruct (forward_frame _ _ _ _ _ _ Hf) as (Hr1 & Hu1 & Hc1 & _). split.
    + rewrite (forwarding_set_loop _ u x) by (by rewrite Hu1). rewrite resume_held.
      pose proof (accounted_forward _ _ _ _ _ _ _ _ Ha Hf) as H1. unfold others in *. rewrite Hr1, Hu1.
      by eapply accounted_same; [.. | exact H1].
    + apply set_loop_owned. eapply (owned_same _ p); [by rewrite Hu1 | done | by rewrite Hr1 | done].
Qed.

(** A packet leaves the timers. *)
Lemma accounted_unpark T p k pk xs : timers p !! k = Some pk -> accounted T p xs ->
  accounted T (with_timers p (delete k (timers p))) ((FSend, pk) :: xs) /\ genuine T pk.
Proof.
  intros Hk [H0 H1 H2 H3 H4 H5 H6 H7 H8]. pose proof (delete_Permutation _ _ _ Hk) as Hp.
  rewrite Hp, <-!Permutation_middle in H3. apply Forall_cons in H3 as [Hg H3].
  split; [| done]. split; cbn -[alteredIn kept bytesOf]; try done.
  - rewrite <-H1. unfold settled. cbn. rewrite (Permutation_map pkNum Hp), <-!app_assoc.
    do 3 apply Permutation_app_head. symmetry. apply Permutation_middle.
  - by constructor.
  - rewrite H6, kept_cons. f_equal. unfold kept, alteredIn. cbn [with_timers hist timers].
    rewrite Hp at 1. cbn [app]. by rewrite <-!Permutation_middle.
Qed.

Lemma accounts_delayed T p k i p' : accounts T p -> delayed p k i = Some p' -> accounts T p'.
Proof.
  unfold delayed. intros [Ha Ho]. destruct (timers p !! k) as [pk|] eqn:Hk; [| done].
  destruct (accounted_unpark _ _ _ _ _ Hk Ha) as [H1 Hg].
  destruct i; try done; [| destruct (isDone p); [| done]]; intros [= <-]; (split; [| by eapply (owned_same _ p)]).
  - by eapply accounted_send.
  - set (p1 := with_timers p (delete k (timers p))) in *. change (forwarding (giveUp p1 pk)) with (forwarding p).
    destruct H1 as [G0 G1 G2 G3 G4 G5 G6 G7 G8]. apply Forall_cons in G2 as [_ G2]. split; try done.
    + rewrite <-G1. unfold settled. cbn. rewrite map_app, <-!app_assoc. cbn. rewrite <-!Permutation_middle. done.
    + cbn. rewrite <-app_assoc. cbn. rewrite <-!Permutation_middle. by constructor.
    + change (stats (giveUp p1 pk)) with (stats p1). rewrite G6, kept_cons. f_equal. unfold kept, alteredIn.
      cbn [giveUp with_counts hist timers sent givenUp]. rewrite <-app_assoc. cbn [app]. by rewrite <-!Permutation_middle.
Qed.

Lemma close_loops p : map uLoop (closeUpstreams p) = map uLoop (upstreams p) /\
  map uClient (closeUpstreams p) = map uClient (upstreams p).
Proof.
  split; apply list_eq; intros u; unfold closeUpstreams; rewrite !list_lookup_fmap, list_lookup_imap;
    (destruct (upstreams p !! u); [| done]); cbn; by case_bool_decide.
Qed.

Lemma accounts_close T p p' : accounts T p -> Close p = Some p' -> accounts T p'.
Proof.
  unfold accounts, Close. intros [Ha Ho]. destruct (close_loops p) as [Hl Hc].
  destruct (closing p); repeat case_match; try done; intros [= <-];
    try (split; [by eapply (accounted_same _ p) | by eapply (owned_same _ p)]).
  split; [| by eapply (owned_same _ p)].
  eapply (accounted_same _ p); [done .. |]. revert Ha. unfold forwarding. cbn [reader upstreams with_closing with_upstreams].
  rewrite !(flat_map_concat_map (fun x => held (uLoop x))), <-!(map_map uLoop held), Hl. done.
Qed.

Lemma accounts_step T p e p' : accounts T p -> step p e = Some p' -> accounts (observe T e) p'.
Proof.
  unfold step. intros Ha. destruct (crashed p); [done |].
  destruct e as [i|v i|i|k i|opts now|]; try (replace (observe T _) with T by (by destruct T));
    eauto using accounts_reader, accounts_reply, accounts_delayed, accounts_close.
  - unfold blackholeLoop. destruct Ha. repeat case_match; try done; intros [= <-];
      (split; [by eapply (accounted_same _ p) | by eapply (owned_same _ p)]).
  - intros [= <-]. destruct Ha. unfold UpdateProfile.
    case_match; (split; [by eapply (accounted_same _ p) | by eapply (owned_same _ p)]).
Qed.

Lemma accounts_run es : forall T p p', accounts T p -> run p es = Some p' -> accounts (foldl observe T es) p'.
Proof.
  induction es as [|e es IH]; cbn; intros T p p' Ha; [by intros [= <-] |].
  destruct (step p e) as [p1|] eqn:Hs; [| done]. eauto using accounts_step.
Qed.

Lemma accounts_new opts now : accounts noTrace (New opts now).
Proof. split; split; cbn; try done; try apply NoDup_nil_2; intros *; by rewrite ?lookup_empty, ?elem_of_nil. Qed.

(** ** Close and late clients *)

(** The goroutine of upstream [u] runs. *)
Definition replying (p : Proxy) (u : nat) : Prop := exists x, upstreams p !! u = Some x /\ loopDone (uLoop x) = false.

Lemma replying_same p p' u : upstreams p' = upstreams p -> replying p u -> replying p' u.
Proof. unfold replying. by intros ->. Qed.

Lemma resume_runs r : loopDone (resume r) = false.
Proof. by destruct r as [[f pk]|]. Qed.

Lemma replying_set p v l u : replying p u -> (u = v -> loopDone l = false) -> replying (set_loop p v l) u.
Proof.
  intros (x & Hx & Hd) Hl. unfold replying, set_loop. cbn. destruct (decide (u = v)) as [->|Hne].
  - rewrite list_lookup_alter_eq, Hx. cbn. eexists. split; [done |]. by apply Hl.
  - rewrite list_lookup_alter_ne by done. eauto.
Qed.

Lemma replying_reader p i p' u : replying p u -> readLoop p i = Some p' -> replying p' u /\ closing p' = closing p.
Proof.
  unfold readLoop. intros Hr. destruct (reader p) as [|f pk|]; [| | done].
  - destruct i; try done; unfold arrive; repeat case_match; try done; by intros [= <-].
  - assert (forall p1 r, forwardStep p f pk i = Some (p1, r) ->
      replying (with_reader p1 (resume r)) u /\ closing (with_reader p1 (resume r)) = closing p) as Hfw.
    { intros p1 r Hf. destruct (forward_frame _ _ _ _ _ _ Hf) as (_ & Hu1 & _). split; [by eapply replying_same |].
      revert Hf. unfold forwardStep. repeat case_match; by intros [= <- <-]. }
    destruct f as [addr| | | | | |].
    2-7: (destruct (forwardStep p _ pk i) as [[p1 r]|]; [| done]); intros [= <-]; by apply Hfw.
    unfold getOrCreateUpstream. destruct Hr as (x & Hx & Hd).
    destruct (clients p !! addr), i as [| | |[]| | | |]; try done; intros [= <-]; (split; [| done]); exists x; split; try done.
    cbn. by apply lookup_app_l_Some.
Qed.

Lemma replying_reply p v i p' u : replying p u -> (u = v -> i <> IReadErr) -> replyLoop p v i = Some p' ->
  replying p' u /\ closing p' = closing p.
Proof.
  unfold replyLoop. intros Hr Hi. destruct (upstreams p !! v) as [x|] eqn:Hx; [| done].
  destruct (uLoop x) as [|f pk|]; [| | done].
  - destruct i; try done.
    + destruct (uOpen x); [| done]. destruct (arrive _ _ _) as [p1 pk] eqn:Hv. intros [= <-]. injection Hv as <- <-.
      split; [| done]. by apply replying_set.
    + intros [= <-]. split; [| done]. apply replying_set; [done |]. intros ->. by destruct Hi.
  - destruct (forwardStep p f pk i) as [[p1 r]|] eqn:Hf; [| done]. intros [= <-].
    destruct (forward_frame _ _ _ _ _ _ Hf) as (_ & Hu1 & _). split.
    + apply replying_set; [by eapply replying_same | intros _; apply resume_runs].
    + revert Hf. unfold forwardStep. repeat case_match; by intros [= <- <-].
Qed.

Lemma replying_step p e p' u :
  replying p u -> closing p = KWait -> e <> EReply u IReadErr -> step p e = Some p' -> replying p' u /\ closing p' = KWait.
Proof.
  unfold step. intros Hr Hk He. destruct (crashed p); [done |]. rewrite <-Hk. destruct e as [i|v i|i|k i|opts now|].
  - by apply replying_reader.
  - apply replying_reply; [done |]. intros <- ->. done.
  - unfold blackholeLoop. repeat case_match; try done; by intros [= <-].
  - unfold delayed. repeat case_match; try done; by intros [= <-].
  - intros [= <-]. unfold UpdateProfile. by case_match.
  - unfold Close. rewrite Hk. destruct (waited p) eqn:Hw; [| done]. destruct Hr as (x & Hx & Hd).
    apply andb_true_iff in Hw as [_ Hw]. rewrite forallb_forall in Hw.
    rewrite (Hw x) in Hd; [done |]. apply list_elem_of_In. by eapply list_elem_of_lookup_2.
Qed.

(** The blackhole of a proxy that was created without one. *)
Definition noHole (p : Proxy) : Prop := holeLoop p = HNone /\ blackholed p = false.

Lemma forward_hole p f pk i p' r : forwardStep p f pk i = Some (p', r) -> noHole p -> noHole p'.
Proof. unfold forwardStep. repeat case_match; by intros [= <- <-]. Qed.

Lemma noHole_step p e p' : noHole p -> step p e = Some p' -> noHole p'.
Proof.
  unfold step. intros Hn. destruct (crashed p); [done |]. destruct e as [i|v i|i|k i|opts now|].
  - unfold readLoop. destruct (reader p); try done.
    + unfold arrive. repeat case_match; try done; by intros [= <-].
    + destruct f; [unfold getOrCreateUpstream; repeat case_match; try done; intros [= <-]; by simplify_eq | ..].
      all: destruct (forwardStep _ _ _ _) as [[p1 r]|] eqn:Hf; [| done]; intros [= <-]; by eapply forward_hole in Hf.
  - unfold replyLoop. destruct (upstreams p !! v) as [x|]; [| done]. destruct (uLoop x); try done.
    + unfold arrive. destruct i; try done; repeat case_match; try done; by intros [= <-].
    + destruct (forwardStep _ _ _ _) as [[p1 r]|] eqn:Hf; [| done]. intros [= <-]. by eapply forward_hole in Hf.
  - unfold blackholeLoop. destruct Hn as [-> _]. done.
  - unfold delayed. repeat case_match; try done; by intros [= <-].
  - intros [= <-]. unfold UpdateProfile. by case_match.
  - unfold Close. repeat case_match; try done; by intros [= <-].
Qed.

(** ** Reordering *)

Lemma delayOf_reorders prof d ns ro : delayOf prof d = Some (TDelay ns ro) ->
  ro = SFltb fzero (Reorder prof) && SFltb (dReorder d) (Reorder prof).
Proof.
  unfold delayOf. destruct (SFltb fzero (Reorder prof) && _); repeat case_match; by intros [= _ <-].
Qed.

Lemma uncounted_same (p q : Proxy) (n : Z) (l : list nat) : PacketsReordered (stats p) = goInt n ->
  PacketsReordered (stats q) = PacketsReordered (stats p) -> l = [] -> PacketsReordered (stats q) = goInt (n + len l).
Proof. intros Hn -> ->. by rewrite len_nil, Z.add_0_r. Qed.

Lemma reordered_forward p f pk i p' r n : crashed p = false -> forwardStep p f pk i = Some (p', r) ->
  PacketsReordered (stats p) = goInt n ->
  PacketsReordered (stats p') = goInt (n + len (if crashed p' then [] else reorders (LFwd f pk) i)).
Proof.
  intros Hc Hf Hn. destruct f as [a| |m|m prof thr|prof thr|prof|], i; cbn [forwardStep reorders] in *; try done;
    try (by destruct thr).
  - injection Hf as <- <-. by apply (uncounted_same p); [| | repeat case_match].
  - injection Hf as <- <-. by apply (uncounted_same p); [| | repeat case_match].
  - destruct (applyFaults _ _ _ _ _) as [[|data []]|]; try done; injection Hf as <- <-; by apply (uncounted_same p); [| | repeat case_match].
  - destruct thr; try done; injection Hf as <- <-. by apply (uncounted_same p); [| | repeat case_match].
  - repeat case_match; try done; injection Hf as <- <-; by apply (uncounted_same p); [| | repeat case_match].
  - destruct (delayOf prof d) as [[|ns ro]|] eqn:Hd; [| | done].
    + injection Hf as <- <-. cbn. by rewrite len_nil, Z.add_0_r.
    + apply delayOf_reorders in Hd as <-.
      destruct ro, (0 <? ns); injection Hf as <- <-; cbn; rewrite Hc, ?len_cons, len_nil, ?Z.add_0_r; try done;
        by rewrite Hn, goInt_plus.
  - injection Hf as <- <-. by apply (uncounted_same p); [| | repeat case_match].
Qed.

Lemma reordered_step p e p' n : step p e = Some p' -> PacketsReordered (stats p) = goInt n ->
  PacketsReordered (stats p') = goInt (n + len (if crashed p' then [] else drawsReorder p e)).
Proof.
  unfold step. destruct (crashed p) eqn:Hc; [done |]. intros Hs Hn.
  destruct e as [i|u i|i|k i|opts now|]; unfold drawsReorder; cbn [loopOf].
  - unfold readLoop in Hs. destruct (reader p) as [|f pk|] eqn:Hr; [| | done].
    + destruct i; try done; unfold arrive in Hs; repeat case_match; try done; injection Hs as <-; by apply (uncounted_same p); [| | repeat case_match].
    + assert (forall p1 r, forwardStep p f pk i = Some (p1, r) -> p' = with_reader p1 (resume r) ->
        PacketsReordered (stats p') = goInt (n + len (if crashed p' then [] else reorders (LFwd f pk) i))) as Hfw.
      { intros p1 r Hf ->. by apply (reordered_forward p f pk i p1 r). }
      destruct f as [addr| | | | | |]; [unfold getOrCreateUpstream in Hs; destruct (clients p !! addr), i as [| | |[]| | | |];
        try done; injection Hs as <-; by apply (uncounted_same p); [| | repeat case_match] | ..];
        (destruct (forwardStep p _ pk i) as [[p1 r]|]; [| done]); injection Hs as <-; by apply (Hfw p1 r).
  - unfold replyLoop in Hs. destruct (upstreams p !! u) as [x|]; [| done]. destruct (uLoop x) as [|f pk|]; [| | done].
    + destruct i; try done; unfold arrive in Hs; repeat case_match; try done; injection Hs as <-; by apply (uncounted_same p); [| | repeat case_match].
    + destruct (forwardStep p f pk i) as [[p1 r]|] eqn:Hf; [| done]. injection Hs as <-.
      by apply (reordered_forward p f pk i p1 r).
  - unfold blackholeLoop in Hs. repeat case_match; try done; injection Hs as <-; by apply (uncounted_same p); [| | repeat case_match].
  - unfold delayed in Hs. repeat case_match; try done; injection Hs as <-; by apply (uncounted_same p); [| | repeat case_match].
  - injection Hs as <-. unfold UpdateProfile. repeat case_match; by apply (uncounted_same p); [| | repeat case_match].
  - unfold Close in Hs. repeat case_match; try done; injection Hs as <-; by apply (uncounted_same p); [| | repeat case_match].
Qed.

Lemma reordered_run es : forall p p' n, run p es = Some p' -> PacketsReordered (stats p) = goInt n ->
  PacketsReordered (stats p') = goInt (n + len (reorderedBy p es)).
Proof.
  induction es as [|e es IH]; intros p p' n; cbn [run reorderedBy].
  - intros [= <-] ->. by rewrite len_nil, Z.add_0_r.
  - destruct (step p e) as [p1|] eqn:Hs; [| done]. intros Hr Hn. apply (reordered_step _ _ _ _ Hs) in Hn.
    rewrite (IH _ _ _ Hr Hn), len_app. f_equal. lia.
Qed.

(** ** Properties *)

(** C40. Every packet the proxy reads has one fate.  However clients, target,
    timers, profile changes and [Close] interleave, each packet read from a
    socket is sent, dropped, given up at the end, waiting for its timer or on
    its way, in one of these and once.  What is sent has the bytes that were
    read or differs in one, and goes where it belongs: a client's packet on the
    one connection dialled for that client (nowhere if the dial failed), a
    reply on a connection to the client it was dialled for.  The counters
    agree, at 64 bits: forwarded, dropped, bytes, corrupted (the packets whose
    bytes differ from what was read), reordered (those drawn for reordering),
    and the packets seen. *)
Theorem proxy_accounts_packets (opts : list Option_) (now : Z) (es : list event) (p : Proxy) :
  run (New opts now) es = Some p ->
  map pkNum (sent (hist p)) ++ dropped (hist p) ++ map pkNum (givenUp (hist p))
    ++ map pkNum (timers p) ++ map (fun x => pkNum x.2) (forwarding p) ≡ₚ seq 0 (length (tPackets (traceOf es))) /\
  (forall pk, pk ∈ sent (hist p) -> exists data src,
     tPackets (traceOf es) !! pkNum pk = Some (data, src) /\ nearly data (pkData pk) /\
     routed (traceOf es) (pkNum pk) src (pkDest pk)) /\
  NoDup (tOwners (traceOf es)) /\
  PacketsForwarded (stats p) = goInt (len (sent (hist p))) /\
  PacketsDropped (stats p) = goInt (len (dropped (hist p))) /\
  PacketsCorrupted (stats p) = goInt (alteredIn (traceOf es) (kept p (forwarding p))) /\
  PacketsReordered (stats p) = goInt (len (reorderedBy (New opts now) es)) /\
  BytesForwarded (stats p) = goInt (bytesOf (sent (hist p))) /\
  pktCount p = goInt (len (tPackets (traceOf es)) - len (uncounted (forwarding p))).
Proof.
  intros Hr. destruct (accounts_run _ _ _ _ (accounts_new opts now) Hr) as [[H0 H1 H2 H3 H4 H5 H6 H7 H8] Ho].
  split_and!; try done.
  - unfold settled in H1. by rewrite <-!app_assoc in H1.
  - apply Forall_app in H3 as [H3 _]. rewrite Forall_forall in H3. exact H3.
  - apply (o_nodup _ _ Ho).
  - by apply (reordered_run es _ _ 0 Hr).
Qed.

(** A profile with reordering and no latency panics on the first packet it
    reorders: the extra delay is drawn below three times the latency. *)
Theorem reordering_needs_latency (rate : float64) (d : draws) (prof : Profile) :
  (SFltb fzero rate = true -> SFltb (dReorder d) rate = true -> delayOf (profileOf [WithReorder rate]) d = Some TPanic) /\
  (delayOf prof d = Some TPanic ->
   (0 < Jitter prof /\ goInt (2 * Jitter prof) <= 0) \/
   (SFltb fzero (Reorder prof) = true /\ SFltb (dReorder d) (Reorder prof) = true /\ goInt (3 * Latency prof) <= 0)).
Proof.
  split.
  - intros Hr Hd. unfold delayOf. cbn [profileOf foldl applyOption zeroProfile Jitter Latency Reorder]. by rewrite Hr, Hd.
  - unfold delayOf, Int64N. repeat case_match; try done; intros _; rewrite ?andb_true_iff, ?Z.leb_le, ?Z.ltb_lt in *;
      simplify_eq; first [by left | right; naive_solver].
Qed.

(** [Close] can wait for ever.  A packet of a new client that was read
    before [Close] closed the clients' connections gets a connection after it;
    nobody closes that one, so that [Close] does not return until reading from
    it fails. *)
Theorem close_waits_for_late_client :
  (exists es p x, run (New [] 0) es = Some p /\ closing p = KWait /\ reader p = LDone /\ replying p 0 /\
     upstreams p !! 0%nat = Some x /\ uOpen x = true) /\
  forall p u es p', replying p u -> closing p = KWait -> EReply u IReadErr ∉ es -> run p es = Some p' -> closing p' = KWait.
Proof.
  split.
  - set (d := {| dHook := Forward; dLoss := fzero; dCorrupt := fzero; dIndex := 0; dFlip := 0; dJitter := 0;
                 dReorder := fzero; dExtra := 0 |}).
    exists [EReader (IPacket [x01] "c"); EClose; EClose; EClose; EReader (IDial true); EReader INext; EReader INext;
            EReader (IDraws d); EReader INext; EReader (IDraws d); EReader INext; EReader IReadErr].
    eexists _, _. split_and!; [vm_compute; reflexivity | reflexivity | reflexivity | | reflexivity | reflexivity].
    eexists. split; reflexivity.
  - intros p u es. revert p. induction es as [|e es IH]; intros p p' Hr Hk He Hrun; [by injection Hrun as <- |].
    cbn in Hrun. destruct (step p e) as [p1|] eqn:Hs; [| done]. apply not_elem_of_cons in He as [Hne He].
    destruct (replying_step p e p1 u Hr Hk) as [Hr1 Hk1]; [congruence | done |]. by eapply IH.
Qed.

(** [UpdateProfile] changes every fault but the blackhole: a proxy created
    with one goes on dropping packets under a profile without faults, and a
    proxy created without one never drops for it, whatever the profile. *)
Theorem update_leaves_blackhole :
  (exists es p, run (New [WithBlackhole 200 100] 0) es = Some p /\ profile p = zeroProfile /\ dropped (hist p) = [0%nat]) /\
  (forall opts now es p,
     BlackholeInterval (profileOf opts) <= 0 \/ BlackholeDuration (profileOf opts) <= 0 ->
     run (New opts now) es = Some p -> blackholed p = false).
Proof.
  split.
  - set (d := {| dHook := Forward; dLoss := fzero; dCorrupt := fzero; dIndex := 0; dFlip := 0; dJitter := 0;
                 dReorder := fzero; dExtra := 0 |}).
    exists [EUpdate [] 5; EHole ITimer; EReader (IPacket [x01] "c"); EReader (IDial true); EReader INext; EReader INext;
            EReader (IDraws d)].
    eexists. split_and!; [vm_compute; reflexivity | reflexivity | reflexivity].
  - intros opts now es p Hp Hrun. assert (Hn : noHole (New opts now)).
    { split; [| done]. cbn. destruct Hp as [Hp|Hp]; apply Z.ltb_ge in Hp; rewrite Hp; [done | by rewrite andb_false_r]. }
    revert Hn Hrun. generalize (New opts now) as q. clear. induction es as [|e es IH]; cbn; intros q Hn; [intros [= <-]; apply Hn |].
    destruct (step q e) as [q1|] eqn:Hs; [| done]. eauto using noHole_step.
Qed.

(** ** Witness *)

(** A corrupting proxy with a window: two packets of a client and a reply. *)
Definition sampleDraws : draws :=
  {| dHook := Forward; dLoss := fzero; dCorrupt := fzero; dIndex := 1; dFlip := 0; dJitter := 0; dReorder := fzero; dExtra := 0 |}.
Definition sampleOpts : list Option_ := [WithCorrupt (f64 1); WithDropWindow 2 3; WithLatency 10 0].
Definition samplePass : list input := [INext; INext; IDraws sampleDraws; INext; IDraws sampleDraws].
Definition sampleEvents : list event :=
  map EReader ([IPacket [x0a; x0b] "c"; IDial true] ++ samplePass)
  ++ map EReader ([IPacket [x0c] "c"; INext; INext; INext; IDraws sampleDraws])
  ++ map (EReply 0) ([IPacket [x0d; x0e] EmptyString] ++ samplePass) ++ [EDelayed 0 ITimer; EClose; EDelayed 0 IDone].

Definition sampleAfter : Proxy := default (New sampleOpts 0) (run (New sampleOpts 0) sampleEvents).

Lemma sampleAfter_run : run (New sampleOpts 0) sampleEvents = Some sampleAfter.
Proof. vm_compute. reflexivity. Qed.

Lemma proxy_accounts_packets_witness :
  sent (hist sampleAfter) = [{| pkNum := 0; pkData := [x0a; x0a]; pkDest := ToTarget 0 |}] /\
  dropped (hist sampleAfter) = [1%nat] /\ map pkNum (givenUp (hist sampleAfter)) = [2%nat] /\
  map pkDest (givenUp (hist sampleAfter)) = [ToClient "c"] /\ PacketsCorrupted (stats sampleAfter) = 2 /\
  PacketsCorrupted (stats sampleAfter) = goInt (alteredIn (traceOf sampleEvents) (kept sampleAfter (forwarding sampleAfter))).
Proof.
  split_and!; [vm_compute; reflexivity .. |].
  destruct (proxy_accounts_packets sampleOpts 0 sampleEvents sampleAfter sampleAfter_run) as (_ & _ & _ & _ & _ & Hc & _).
  exact Hc.
Defined.
