(* ===== verification/CMachines.v ===== *)
(** * CMachines: the committed C machines as libpigeon and cwire use them

    c/src/session_gen.c and c/src/pairingceremony_gen.c are what the C generator
    writes for the committed documents; [CGen] gives their cases a meaning.  Here
    are the four machines the drivers of libpigeon step, and the Go mirrors of
    the ceremony's enums and machines in cwire/pairing.go. *)

From Stdlib Require Import ZArith Lia Strings.String.
From stdpp Require Import base gmap strings list.
From S2P Require Import Prelude Machine GoGen Yaml Sdk CGen PairingGen SessionGen Exports Generated.

Open Scope Z_scope.

(** ** The machines *)

Definition cActor (p : Protocol) (name : string) : Actor := sdkActor p name SessionProtocol_backend.
Definition messageCases (p : Protocol) (name : string) : list (Case bool) :=
  default [] (cHandleMessageCases p (cActor p name)).
Definition stepCases (p : Protocol) (name : string) : list (Case bool) :=
  default [] (cStepCases p (cActor p name)).

Definition backendMessages : list (Case bool) := Eval vm_compute in messageCases sessionProtocol "backend".
Definition backendSteps : list (Case bool) := Eval vm_compute in stepCases sessionProtocol "backend".
Definition clientMessages : list (Case bool) := Eval vm_compute in messageCases sessionProtocol "client".
Definition clientSteps : list (Case bool) := Eval vm_compute in stepCases sessionProtocol "client".
Definition acceptorMessages : list (Case bool) := Eval vm_compute in messageCases pairingProtocol "acceptor".
Definition acceptorSteps : list (Case bool) := Eval vm_compute in stepCases pairingProtocol "acceptor".
Definition initiatorMessages : list (Case bool) := Eval vm_compute in messageCases pairingProtocol "initiator".
Definition initiatorSteps : list (Case bool) := Eval vm_compute in stepCases pairingProtocol "initiator".

(** They are the generator's. *)
Lemma machine_cases :
  cHandleMessageCases sessionProtocol (cActor sessionProtocol "backend") = Some backendMessages /\
  cStepCases sessionProtocol (cActor sessionProtocol "backend") = Some backendSteps /\
  cHandleMessageCases sessionProtocol (cActor sessionProtocol "client") = Some clientMessages /\
  cStepCases sessionProtocol (cActor sessionProtocol "client") = Some clientSteps /\
  cHandleMessageCases pairingProtocol (cActor pairingProtocol "acceptor") = Some acceptorMessages /\
  cStepCases pairingProtocol (cActor pairingProtocol "acceptor") = Some acceptorSteps /\
  cHandleMessageCases pairingProtocol (cActor pairingProtocol "initiator") = Some initiatorMessages /\
  cStepCases pairingProtocol (cActor pairingProtocol "initiator") = Some initiatorSteps.
Proof. split_and!; by_vm. Qed.

(** A machine after [memset] and [_machine_init]: no callbacks are set. *)
Definition noCallbacks {V H} : CCallbacks V H := {| ccGuards := ∅; ccActions := ∅; ccOnChange := None |}.

(** A machine at a state the driver puts it in. *)
Definition seeded {V} (new : State * V) (s : State) : World V unit := withState (start new tt) s.

(** The call returned [1]: the machine moved. *)
Definition moved {V} (r : option (World V unit * Z)) : option (World V unit) :=
  match r with
  | Some (m, rv) => if rv =? 1 then Some m else None
  | None => None
  end.

(** ** cwire's mirrors *)

(** [AcceptorState] and [InitiatorState]: the states in the order of the Go
    constants, with what [String] says of each number. *)
Definition AcceptorStates : list string :=
  ["Idle"; "GeneratingEphemeral"; "RegisteringRelay"; "WaitingForHello"; "WaitingForReveal"; "DerivingCode";
   "AwaitingUserConfirm"; "AwaitingPeerConfirm"; "Paired"; "Aborted"].
Definition InitiatorStates : list string :=
  ["Idle"; "DecodingToken"; "GeneratingEphemeral"; "ConnectingRelay"; "AwaitingWelcome"; "Revealing"; "DerivingCode";
   "AwaitingUserConfirm"; "AwaitingPeerConfirm"; "Paired"; "Aborted"].
Definition stateString (names : list string) (s : Z) : string :=
  if s <? 0 then "Unknown" else default "Unknown"%string (names !! Z.to_nat s).
Definition AcceptorState_String : Z -> string := stateString AcceptorStates.
Definition InitiatorState_String : Z -> string := stateString InitiatorStates.

(** [CeremonyEvent] and [CeremonyMessage]. *)
Inductive CeremonyEvent :=
  | EvPairBegin | EvEphemeralReady | EvRelayRegistered | EvCodeReady | EvUserConfirm | EvUserCancel | EvCommitFail
  | EvTokenReceived | EvTokenDecoded | EvRelayConnected | EvRevealSent | EvRecvHello | EvRecvReveal
  | EvRecvConfirmToAcceptor | EvRecvWelcome | EvRecvConfirmToInitiator.
Inductive CeremonyMessage :=
  | MsgHello | MsgWelcome | MsgReveal | MsgConfirmToInitiator | MsgConfirmToAcceptor.

#[export] Instance CeremonyEvent_eq_dec : EqDecision CeremonyEvent.
Proof. solve_decision. Defined.
#[export] Instance CeremonyMessage_eq_dec : EqDecision CeremonyMessage.
Proof. solve_decision. Defined.

(** The constants in their order: the numbers [iota] gives them. *)
Definition ceremonyEvents : list CeremonyEvent :=
  [EvPairBegin; EvEphemeralReady; EvRelayRegistered; EvCodeReady; EvUserConfirm; EvUserCancel; EvCommitFail;
   EvTokenReceived; EvTokenDecoded; EvRelayConnected; EvRevealSent; EvRecvHello; EvRecvReveal;
   EvRecvConfirmToAcceptor; EvRecvWelcome; EvRecvConfirmToInitiator].
Definition ceremonyMessages : list CeremonyMessage :=
  [MsgHello; MsgWelcome; MsgReveal; MsgConfirmToInitiator; MsgConfirmToAcceptor].
Definition iota {A} `{EqDecision A} (l : list A) (x : A) : nat :=
  match list_find (eq x) l with Some (i, _) => i | None => 0%nat end.

(** The enumerator of a number in the generated header. *)
Definition eventOf (n : nat) : string := default EmptyString (collectAllEvents pairingProtocol !! n).
Definition messageOf (n : nat) : string := default EmptyString (map msgType (Messages pairingProtocol) !! n).
Definition stateNumber (a : Actor) (s : State) : Z :=
  match list_find (eq s) (collectStates a) with Some (i, _) => Z.of_nat i | None => -1 end.

Definition AcceptorMachine : Type := World CA.PairingCeremonyProtocolAcceptorMachine unit.
Definition InitiatorMachine : Type := World CI.PairingCeremonyProtocolInitiatorMachine unit.

Definition NewAcceptorMachine : AcceptorMachine := start CA.NewPairingCeremonyProtocolAcceptorMachine tt.
Definition NewInitiatorMachine : InitiatorMachine := start CI.NewPairingCeremonyProtocolInitiatorMachine tt.

Definition AcceptorMachine_State (m : AcceptorMachine) : Z := stateNumber (cActor pairingProtocol "acceptor") (wState m).
Definition InitiatorMachine_State (m : InitiatorMachine) : Z := stateNumber (cActor pairingProtocol "initiator") (wState m).

(** A method passes its number to C and fails unless the result is 1. *)
Definition cwireCall {V} `{GoVars V} (cases : list (Case bool)) (key : string) (what : string) (m : World V unit)
    : World V unit * option error :=
  match cCall cases noCallbacks key m with
  | Some (m, 1) => (m, None)
  | Some (m, _) => (m, Some (ENew what))
  | None => (m, Some (ENew what))
  end.
Definition AcceptorMachine_Step (m : AcceptorMachine) (ev : CeremonyEvent) : AcceptorMachine * option error :=
  cwireCall acceptorSteps (eventOf (iota ceremonyEvents ev)) "cwire: acceptor: spec rejected event in current state" m.
Definition AcceptorMachine_HandleMessage (m : AcceptorMachine) (msg : CeremonyMessage) : AcceptorMachine * option error :=
  cwireCall acceptorMessages (messageOf (iota ceremonyMessages msg)) "cwire: acceptor: spec rejected message in current state" m.
Definition InitiatorMachine_Step (m : InitiatorMachine) (ev : CeremonyEvent) : InitiatorMachine * option error :=
  cwireCall initiatorSteps (eventOf (iota ceremonyEvents ev)) "cwire: initiator: spec rejected event in current state" m.
Definition InitiatorMachine_HandleMessage (m : InitiatorMachine) (msg : CeremonyMessage) : InitiatorMachine * option error :=
  cwireCall initiatorMessages (messageOf (iota ceremonyMessages msg)) "cwire: initiator: spec rejected message in current state" m.

(** ** The mirrors name what the machines do *)

Section States.
Context {V : Type} `{!GoVars V} (states : list State).

(** Every state a body assigns is declared. *)
Definition gotosIn (body : list stmt) : bool :=
  forallb (fun s => match s with Goto s => bool_decide (s ∈ states) | _ => true end) body.

Lemma cExec_state body : forall (m m' : World V unit) rv,
  gotosIn body = true -> wState m ∈ states -> cExec noCallbacks body m = Some (m', rv) -> wState m' ∈ states.
Proof.
  induction body as [|s body IH]; intros m m' rv Hg Hm; cbn [cExec]; [by intros [= <- _] |].
  apply andb_prop in Hg as [Hs Hg].
  destruct s as [i|f x|f n|v|s]; try (apply IH; done).
  - destruct (goInt_field f) as [[get upd]|]; [| done]. destruct (fitsInt _); [| done]. by apply IH.
  - apply bool_decide_eq_true in Hs. by apply IH.
Qed.

Lemma cwireCall_state cases key what (m : World V unit) :
  forallb (fun c => gotosIn (cBody _ c)) cases = true -> wState m ∈ states ->
  wState (cwireCall cases key what m).1 ∈ states.
Proof.
  intros Hc Hm. unfold cwireCall.
  destruct (cCall cases noCallbacks key m) as [[m' rv]|] eqn:E; [| done].
  assert (wState m' ∈ states) as Hm'.
  { revert Hc E. induction cases as [|c cases IH]; cbn [cCall]; [by intros _ [= <- _] |].
    intros [Hb Hc]%andb_prop. destruct (selects _ _ _ _); [| by apply IH].
    destruct (cExec noCallbacks (cBody _ c) m) as [[m1 err]|] eqn:Ex; [| done].
    pose proof (cExec_state _ _ _ _ Hb Hm Ex) as H1. destruct (err =? 0); [by intros [= <- _] |].
    destruct (fitsInt _); [by intros [= <- _] | done]. }
  destruct rv as [|[p|p|]|p]; exact Hm'.
Qed.
End States.

(** What a caller does to a machine. *)
Inductive poke :=
  | PStep (ev : CeremonyEvent)
  | PMessage (msg : CeremonyMessage).
Definition pokeAcceptor (m : AcceptorMachine) (p : poke) : AcceptorMachine :=
  match p with PStep ev => (AcceptorMachine_Step m ev).1 | PMessage msg => (AcceptorMachine_HandleMessage m msg).1 end.
Definition pokeInitiator (m : InitiatorMachine) (p : poke) : InitiatorMachine :=
  match p with PStep ev => (InitiatorMachine_Step m ev).1 | PMessage msg => (InitiatorMachine_HandleMessage m msg).1 end.

Lemma acceptor_declared ps : forall m, wState m ∈ AcceptorStates -> wState (foldl pokeAcceptor m ps) ∈ AcceptorStates.
Proof.
  induction ps as [|p ps IH]; intros m Hm; [done |]. cbn [foldl]. apply IH.
  destruct p; [apply (cwireCall_state AcceptorStates acceptorSteps) | apply (cwireCall_state AcceptorStates acceptorMessages)];
    (exact Hm || by_vm).
Qed.
Lemma initiator_declared ps : forall m, wState m ∈ InitiatorStates -> wState (foldl pokeInitiator m ps) ∈ InitiatorStates.
Proof.
  induction ps as [|p ps IH]; intros m Hm; [done |]. cbn [foldl]. apply IH.
  destruct p; [apply (cwireCall_state InitiatorStates initiatorSteps) | apply (cwireCall_state InitiatorStates initiatorMessages)];
    (exact Hm || by_vm).
Qed.

(** Naming a state's number is naming the state. *)
Lemma named_states a names s : collectStates a = names -> s ∈ names -> stateString names (stateNumber a s) = s.
Proof.
  intros Ha Hs. unfold stateString, stateNumber. rewrite Ha.
  destruct (list_find (eq s) names) as [[i x]|] eqn:E.
  - apply list_find_Some in E as (Hl & <- & _). rewrite (proj2 (Z.ltb_ge _ _)) by lia. by rewrite Nat2Z.id, Hl.
  - apply list_find_None in E. rewrite Forall_forall in E. by destruct (E s Hs).
Qed.

(** The Go mirrors of the ceremony are faithful: the event and message constants
    number the enumerators of the generated header that carry their names, and
    whatever events and messages a caller gives the machines, [State().String()]
    is the name the protocol document gives the C machine's state. *)
Theorem cwire_mirrors_faithful :
  map (fun ev => eventOf (iota ceremonyEvents ev)) ceremonyEvents =
    ["pair_begin"; "ephemeral_ready"; "relay_registered"; "code_ready"; "user_confirm"; "user_cancel"; "commit_fail";
     "token_received"; "token_decoded"; "relay_connected"; "reveal_sent"; "recv_hello"; "recv_reveal";
     "recv_confirm_to_acceptor"; "recv_welcome"; "recv_confirm_to_initiator"]%string /\
  map (fun msg => messageOf (iota ceremonyMessages msg)) ceremonyMessages =
    ["hello"; "welcome"; "reveal"; "confirm_to_initiator"; "confirm_to_acceptor"]%string /\
  (forall ps, let m := foldl pokeAcceptor NewAcceptorMachine ps in AcceptorState_String (AcceptorMachine_State m) = wState m) /\
  (forall ps, let m := foldl pokeInitiator NewInitiatorMachine ps in InitiatorState_String (InitiatorMachine_State m) = wState m).
Proof.
  split; [by_vm |]. split; [by_vm |]. split; intros ps m.
  - apply (named_states (cActor pairingProtocol "acceptor") AcceptorStates (wState m)); [by_vm |].
    apply acceptor_declared. by apply list_elem_of_here.
  - apply (named_states (cActor pairingProtocol "initiator") InitiatorStates (wState m)); [by_vm |].
    apply initiator_declared. by apply list_elem_of_here.
Qed.
