(* ===== verification/Driver.v ===== *)
(** * Driver: how libpigeon's protocol drivers run over Go transports (cwire/)

    The C functions behind [RunBackendActivation], [RunClientActivation],
    [RunAcceptor] and [RunInitiator] do their I/O through a table of callbacks
    that cwire fills with exported Go functions.  A C driver is modelled by the
    tree of its callbacks ([driver]); [interp] runs it over any Go transport
    through the exported functions of cwire/gotransport.go.  [GoTransport] is
    the Go interface, with two implementations: the session's
    [goTransportAdapter] (cgo_transport.go) and the ceremony's
    [singleStreamTransport] (pairing/cgo_pair.go).  [Framed] states what the
    drivers need from a transport, [talk] what a driver says when it is given
    the messages of its peer. *)

From Stdlib Require Import ZArith Lia Strings.Byte Strings.String.
From stdpp Require Import base gmap strings list fin_maps.
From S2P Require Import Prelude Binary Wire Channel Pairing Cwire Dial.

Open Scope Z_scope.

(** ** C strings *)

(** The bytes up to the first NUL: what [strlen], [C.GoString] and [%s] see of
    a buffer. *)
Fixpoint cstr (b : bytes) : bytes :=
  match b with
  | [] => []
  | c :: b => if bool_decide (c = x00) then [] else c :: cstr b
  end.

(** [C.CString] of a Go string, and [C.GoString] of a buffer. *)
Definition CString (s : string) : bytes := cstr (str_bytes s).
Definition GoString (b : bytes) : string := bytes_str (cstr b).

Lemma cstr_id b : x00 ∉ b -> cstr b = b.
Proof.
  induction b as [|c b IH]; [done |]. rewrite not_elem_of_cons. intros [Hc Hb]. cbn [cstr].
  by rewrite bool_decide_eq_false_2, IH by done.
Qed.

Lemma cstr_noNul b : x00 ∉ cstr b.
Proof.
  induction b as [|c b IH]; cbn [cstr]; [apply not_elem_of_nil |]. case_bool_decide; [apply not_elem_of_nil |].
  rewrite not_elem_of_cons. by split.
Qed.

Lemma cstr_cstr b : cstr (cstr b) = cstr b.
Proof. apply cstr_id, cstr_noNul. Qed.

Lemma len_cstr b : len (cstr b) <= len b.
Proof.
  unfold len. induction b as [|c b IH]; cbn [cstr]; [lia |]. case_bool_decide; cbn [length] in *; lia.
Qed.

(** ** Pairing records in C *)

(** [pigeon_pairing_record]: the instance id is a buffer of 64 bytes, seen
    here up to its NUL; the relay URL, which no driver sets, is left out. *)
Record pigeon_pairing_record := {
  peer_instance_id : bytes;
  local_private_key : bytes;
  local_public_key : bytes;
  peer_public_key : bytes
}.

Definition recordFromC (rec : pigeon_pairing_record) : cwRecord :=
  {| cwPeerInstanceID := GoString (peer_instance_id rec); cwLocalPrivKey := local_private_key rec;
     cwLocalPubKey := local_public_key rec; cwPeerPubKey := peer_public_key rec |}.

(** A key is copied when it has 32 bytes; otherwise the field stays zero. *)
Definition keyToC (k : bytes) : bytes := if len k =? 32 then k else replicate 32 x00.
Definition recordToC (rec : cwRecord) : pigeon_pairing_record :=
  {| peer_instance_id := cstr (take 63 (str_bytes (cwPeerInstanceID rec)));
     local_private_key := keyToC (cwLocalPrivKey rec); local_public_key := keyToC (cwLocalPubKey rec);
     peer_public_key := keyToC (cwPeerPubKey rec) |}.

(** [PairingResolver]; [None] is a rejection. *)
Definition PairingResolver : Type := string -> option cwRecord.

(** ** Drivers *)

Abbreviation handle := nat (only parsing).

(** A C function by the callbacks it calls: streams are opened or accepted, a
    message is sent (true when the callback returned 0) or received into a buffer
    of [cap] bytes, the user is asked to confirm a code, a device is looked up. *)
Inductive driver (A : Type) : Type :=
  | Ret (a : A)
  | OpenE (k : option handle -> driver A)
  | AcceptE (k : option handle -> driver A)
  | SendE (h : handle) (msg : bytes) (k : bool -> driver A)
  | RecvE (h : handle) (cap : Z) (k : option bytes -> driver A)
  | ConfirmE (code : string) (k : bool -> driver A)
  | ResolveE (id : bytes) (k : option pigeon_pairing_record -> driver A).
Arguments Ret {A} a.
Arguments OpenE {A} k.
Arguments AcceptE {A} k.
Arguments SendE {A} h msg k.
Arguments RecvE {A} h cap k.
Arguments ConfirmE {A} code k.
Arguments ResolveE {A} id k.

(** A driver that fails returns -1, here [None]. *)
Declare Scope driver_scope.
Delimit Scope driver_scope with driver.
Definition orFail {A B} (o : option A) (k : A -> driver (option B)) : driver (option B) :=
  match o with Some a => k a | None => Ret None end.
Notation "'let?' x ':=' o 'in' k" := (orFail o (fun x => k))
  (at level 10, x pattern, o at level 100, k at level 200) : driver_scope.
Notation "'call?' x ':=' c 'in' k" := (c (fun r => orFail r (fun x => k)))
  (at level 10, x pattern, c at level 100, k at level 200) : driver_scope.
Notation "'guard?' b 'in' k" := (if b then k else Ret None)
  (at level 10, b at level 100, k at level 200) : driver_scope.
Notation "'call!' c 'in' k" := (c (fun ok : bool => if ok then k else Ret None))
  (at level 10, c at level 100, k at level 200) : driver_scope.

(** ** Go transports *)

(** [GoTransport] (cwire/gotransport.go). *)
Class GoTransport (T : Type) := {
  gtOpenStream : T -> T * result handle;
  gtAcceptStream : T -> T * result handle;
  gtSendOnStream : T -> handle -> bytes -> T * option error;
  gtRecvOnStream : T -> handle -> T * result bytes;
  gtCloseStream : T -> handle -> T * option error;
  gtSendDatagram : T -> bytes -> T * option error;
  gtRecvDatagram : T -> T * result bytes
}.

(** The exported functions: the [int] they return and what they store behind
    the pointer they are given. *)
Section Exported.
Context {T : Type} `{!GoTransport T}.

Definition toInt (err : option error) : Z := match err with None => 0 | Some _ => -1 end.

Definition cwireGoOpenStream (t : T) : T * Z * option handle :=
  match gtOpenStream t with
  | (t, Err _) => (t, -1, None)
  | (t, Ok h) => (t, 0, Some h)
  end.
Definition cwireGoAcceptStream (t : T) : T * Z * option handle :=
  match gtAcceptStream t with
  | (t, Err _) => (t, -1, None)
  | (t, Ok h) => (t, 0, Some h)
  end.
Definition cwireGoSendOnStream (t : T) (h : handle) (data : bytes) : T * Z :=
  let '(t, err) := gtSendOnStream t h data in (t, toInt err).
Definition cwireGoRecvOnStream (t : T) (h : handle) (buflen : Z) : T * Z * bytes :=
  match gtRecvOnStream t h with
  | (t, Err _) => (t, -1, [])
  | (t, Ok msg) => if buflen <? len msg then (t, -1, []) else (t, 0, msg)
  end.
Definition cwireGoCloseStream (t : T) (h : handle) : T * Z :=
  let '(t, err) := gtCloseStream t h in (t, toInt err).
Definition cwireGoSendDatagram (t : T) (data : bytes) : T * Z :=
  let '(t, err) := gtSendDatagram t data in (t, toInt err).
Definition cwireGoRecvDatagram (t : T) (buflen : Z) : T * Z * bytes :=
  match gtRecvDatagram t with
  | (t, Err _) => (t, -1, [])
  | (t, Ok msg) => if buflen <? len msg then (t, -1, []) else (t, 0, msg)
  end.

Definition cwireGoConfirm (fn : string -> bool) (code : string) : Z := if fn code then 1 else 0.
Definition cwireGoResolve (fn : PairingResolver) (deviceID : bytes) : option pigeon_pairing_record :=
  match fn (GoString deviceID) with
  | None => None
  | Some rec => Some (recordToC rec)
  end.

(** A driver over a transport, with the callbacks of its caller. *)
Fixpoint interp {A} (confirm : string -> bool) (resolve : PairingResolver) (d : driver A) (t : T) : T * A :=
  match d with
  | Ret a => (t, a)
  | OpenE k => let '(t, rv, h) := cwireGoOpenStream t in interp confirm resolve (k (if rv =? 0 then h else None)) t
  | AcceptE k => let '(t, rv, h) := cwireGoAcceptStream t in interp confirm resolve (k (if rv =? 0 then h else None)) t
  | SendE h msg k => let '(t, rv) := cwireGoSendOnStream t h msg in interp confirm resolve (k (rv =? 0)) t
  | RecvE h cap k =>
      let '(t, rv, msg) := cwireGoRecvOnStream t h cap in interp confirm resolve (k (if rv =? 0 then Some msg else None)) t
  | ConfirmE code k => interp confirm resolve (k (cwireGoConfirm confirm code =? 1)) t
  | ResolveE id k => interp confirm resolve (k (cwireGoResolve resolve id)) t
  end.
End Exported.

(** *** [goTransportAdapter] (cgo_transport.go) *)

(** The handle table, what the transport's connection answers when it is asked
    for a stream or a datagram, and what [SendDatagram] and a stream's [Close]
    return. *)
Record goTransportAdapter (W : Type) := {
  adStreams : gmap handle W;
  adNext : handle;
  adOpens : list (result W);
  adAccepts : list (result W);
  adSent : list bytes;
  adSendResults : list (option error);
  adReceived : list (result bytes);
  adClosed : list W;
  adCloseResults : list (option error)
}.
Arguments adStreams {W}.
Arguments adNext {W}.
Arguments adOpens {W}.
Arguments adAccepts {W}.
Arguments adSent {W}.
Arguments adReceived {W}.
Arguments adClosed {W}.
Arguments adSendResults {W}.
Arguments adCloseResults {W}.

Definition ErrClosedPipe : error := ENew "io: read/write on closed pipe".
Definition ErrNoMore : error := ENew "connection closed".

Section Adapter.
Context {W : Type} `{!Writer W, !Reader W}.

Definition with_streams (a : goTransportAdapter W) (m : gmap handle W) : goTransportAdapter W :=
  {| adStreams := m; adNext := adNext a; adOpens := adOpens a; adAccepts := adAccepts a; adSent := adSent a;
     adSendResults := adSendResults a; adReceived := adReceived a; adClosed := adClosed a; adCloseResults := adCloseResults a |}.

(** [registerStream], and [adoptPrimary], which is it. *)
Definition adRegister (a : goTransportAdapter W) (rwc : W) : goTransportAdapter W * handle :=
  ({| adStreams := <[adNext a := rwc]> (adStreams a); adNext := S (adNext a); adOpens := adOpens a;
      adAccepts := adAccepts a; adSent := adSent a; adSendResults := adSendResults a; adReceived := adReceived a;
      adClosed := adClosed a; adCloseResults := adCloseResults a |}, adNext a).
Definition adoptPrimary : goTransportAdapter W -> W -> goTransportAdapter W * handle := adRegister.

Definition with_opens (a : goTransportAdapter W) (l : list (result W)) : goTransportAdapter W :=
  {| adStreams := adStreams a; adNext := adNext a; adOpens := l; adAccepts := adAccepts a; adSent := adSent a;
     adSendResults := adSendResults a; adReceived := adReceived a; adClosed := adClosed a; adCloseResults := adCloseResults a |}.
Definition with_accepts (a : goTransportAdapter W) (l : list (result W)) : goTransportAdapter W :=
  {| adStreams := adStreams a; adNext := adNext a; adOpens := adOpens a; adAccepts := l; adSent := adSent a;
     adSendResults := adSendResults a; adReceived := adReceived a; adClosed := adClosed a; adCloseResults := adCloseResults a |}.

Definition adOpenStream (a : goTransportAdapter W) : goTransportAdapter W * result handle :=
  match adOpens a with
  | Ok rwc :: l => let '(a, h) := adRegister (with_opens a l) rwc in (a, Ok h)
  | Err err :: l => (with_opens a l, Err err)
  | [] => (a, Err ErrNoMore)
  end.
Definition adAcceptStream (a : goTransportAdapter W) : goTransportAdapter W * result handle :=
  match adAccepts a with
  | Ok rwc :: l => let '(a, h) := adRegister (with_accepts a l) rwc in (a, Ok h)
  | Err err :: l => (with_accepts a l, Err err)
  | [] => (a, Err ErrNoMore)
  end.
Definition adSendOnStream (a : goTransportAdapter W) (h : handle) (msg : bytes) : goTransportAdapter W * option error :=
  match adStreams a !! h with
  | None => (a, Some ErrClosedPipe)
  | Some rwc => let '(rwc, err) := writeMessage rwc msg in (with_streams a (<[h := rwc]> (adStreams a)), err)
  end.
Definition adRecvOnStream (a : goTransportAdapter W) (h : handle) : goTransportAdapter W * result bytes :=
  match adStreams a !! h with
  | None => (a, Err ErrClosedPipe)
  | Some rwc => let '(rwc, r) := readMessage rwc in (with_streams a (<[h := rwc]> (adStreams a)), r)
  end.
(** [removeStream] takes the handle out of the table. *)
Definition adCloseStream (a : goTransportAdapter W) (h : handle) : goTransportAdapter W * option error :=
  match adStreams a !! h with
  | None => (a, None)
  | Some rwc =>
      ({| adStreams := delete h (adStreams a); adNext := adNext a; adOpens := adOpens a; adAccepts := adAccepts a;
          adSent := adSent a; adSendResults := adSendResults a; adReceived := adReceived a;
          adClosed := rwc :: adClosed a; adCloseResults := tail (adCloseResults a) |}, default None (head (adCloseResults a)))
  end.
Definition adSendDatagram (a : goTransportAdapter W) (payload : bytes) : goTransportAdapter W * option error :=
  ({| adStreams := adStreams a; adNext := adNext a; adOpens := adOpens a; adAccepts := adAccepts a;
      adSent := adSent a ++ [payload]; adSendResults := tail (adSendResults a); adReceived := adReceived a;
      adClosed := adClosed a; adCloseResults := adCloseResults a |}, default None (head (adSendResults a))).
Definition adRecvDatagram (a : goTransportAdapter W) : goTransportAdapter W * result bytes :=
  match adReceived a with
  | r :: l =>
      ({| adStreams := adStreams a; adNext := adNext a; adOpens := adOpens a; adAccepts := adAccepts a;
          adSent := adSent a; adSendResults := adSendResults a; adReceived := l; adClosed := adClosed a;
          adCloseResults := adCloseResults a |}, r)
  | [] => (a, Err ErrNoMore)
  end.

#[export] Instance adapter_transport : GoTransport (goTransportAdapter W) := {
  gtOpenStream := adOpenStream;
  gtAcceptStream := adAcceptStream;
  gtSendOnStream := adSendOnStream;
  gtRecvOnStream := adRecvOnStream;
  gtCloseStream := adCloseStream;
  gtSendDatagram := adSendDatagram;
  gtRecvDatagram := adRecvDatagram
}.

(** An adapter over one connection whose primary stream it has adopted. *)
Definition newGoTransportAdapter (primary : W) : goTransportAdapter W * handle :=
  adoptPrimary {| adStreams := ∅; adNext := 0%nat; adOpens := []; adAccepts := []; adSent := []; adSendResults := [];
                  adReceived := []; adClosed := []; adCloseResults := [] |} primary.

(** *** [singleStreamTransport] (pairing/cgo_pair.go) *)

(** [ssCloseResult] is what the stream's [Close] returns. *)
Record singleStreamTransport := {
  ssRwc : W;
  ssServed : bool;
  ssClosed : bool;
  ssCloseResult : option error
}.

(** The address of [pairHandleStub]. *)
Definition pairHandleStub : handle := 0%nat.

Definition ssStream (t : singleStreamTransport) : singleStreamTransport * result handle :=
  let '(served, r) := Pairing.stream (ssServed t) in
  ({| ssRwc := ssRwc t; ssServed := served; ssClosed := ssClosed t; ssCloseResult := ssCloseResult t |}, let! _ := r in Ok pairHandleStub).

Definition with_rwc (t : singleStreamTransport) (rwc : W) : singleStreamTransport :=
  {| ssRwc := rwc; ssServed := ssServed t; ssClosed := ssClosed t; ssCloseResult := ssCloseResult t |}.

#[export] Instance single_transport : GoTransport singleStreamTransport := {
  gtOpenStream := ssStream;
  gtAcceptStream := ssStream;
  gtSendOnStream t _ msg := let '(rwc, err) := Pairing.SendOnStream (ssRwc t) msg in (with_rwc t rwc, err);
  gtRecvOnStream t _ := let '(rwc, r) := Pairing.RecvOnStream (ssRwc t) in (with_rwc t rwc, r);
  gtCloseStream t _ := ({| ssRwc := ssRwc t; ssServed := ssServed t; ssClosed := true; ssCloseResult := ssCloseResult t |}, ssCloseResult t);
  gtSendDatagram t _ := (t, Some (ENew "pairing: datagrams not used by ceremony"));
  gtRecvDatagram t := (t, Err (ENew "pairing: datagrams not used by ceremony"))
}.
End Adapter.
Arguments singleStreamTransport : clear implicits.

(** ** What drivers need from a transport *)

(** [at_ t w]: the handle's stream has read up to [inp w] and written [out w].
    Messages go out and come in whole, in frames. *)
Class Framed (T : Type) `{!GoTransport T} (h : handle) (at_ : T -> duplex -> Prop) := {
  framed_send t w msg : at_ t w -> len msg <= MaxMessageSize ->
    exists t', gtSendOnStream t h msg = (t', None) /\ at_ t' {| out := out w ++ frame msg; inp := inp w |};
  framed_recv t w msg rest : at_ t w -> inp w = frame msg ++ rest -> len msg <= MaxMessageSize ->
    exists t', gtRecvOnStream t h = (t', Ok msg) /\ at_ t' {| out := out w; inp := rest |}
}.

Definition adapterAt (h : handle) (a : goTransportAdapter duplex) (w : duplex) : Prop := adStreams a !! h = Some w.
Definition singleAt (t : singleStreamTransport duplex) (w : duplex) : Prop := ssRwc t = w.

#[export] Instance adapter_framed h : Framed (goTransportAdapter duplex) h (adapterAt h).
Proof.
  split.
  - intros t w msg Ht Hl. cbn [gtSendOnStream adapter_transport]. unfold adSendOnStream. rewrite Ht.
    rewrite writeMessage_duplex by done. eexists. split; [done |]. unfold adapterAt. cbn. by rewrite lookup_insert_eq.
  - intros t w msg rest Ht Hi Hl. cbn [gtRecvOnStream adapter_transport]. unfold adRecvOnStream. rewrite Ht.
    destruct w as [o i]. cbn [inp out] in *. subst i. rewrite readMessage_duplex by done. eexists. split; [done |].
    unfold adapterAt. cbn. by rewrite lookup_insert_eq.
Qed.

#[export] Instance single_framed h : Framed (singleStreamTransport duplex) h singleAt.
Proof.
  split.
  - intros t w msg Ht Hl. unfold singleAt in Ht. subst w. cbn [gtSendOnStream single_transport]. unfold Pairing.SendOnStream, frame.
    unfold MaxMessageSize in Hl. pose proof (len_nonneg msg). rewrite u32_small by lia. cbn [Write duplex_writer out inp].
    eexists. split; [done |]. unfold singleAt. cbn. by rewrite <-app_assoc.
  - intros t w msg rest Ht Hi Hl. unfold singleAt in Ht. subst w. cbn [gtRecvOnStream single_transport]. unfold Pairing.RecvOnStream.
    pose proof (readMessage_duplex (out (ssRwc t)) msg rest Hl) as Hr. unfold readMessage in Hr.
    assert (ssRwc t = {| out := out (ssRwc t); inp := frame msg ++ rest |}) as Ht by (rewrite <-Hi; by destruct (ssRwc t)).
    rewrite <-Ht in Hr. destruct (ReadFull (ssRwc t) 4) as [w1 [hdr|err]]; [| done].
    destruct (MaxMessageSize <? be_get hdr); [done |]. rewrite Hr. eexists. unfold singleAt. by split.
Qed.

(** ** Conversations *)

(** What a driver says on the stream [h] when it is given the messages of its
    peer: those it has not read, those it sent, and its result. *)
Fixpoint talk {A} (confirm : string -> bool) (resolve : PairingResolver) (h : handle) (d : driver A) (ins : list bytes)
    : list bytes * list bytes * A :=
  match d with
  | Ret a => (ins, [], a)
  | OpenE k | AcceptE k => talk confirm resolve h (k (Some h)) ins
  | SendE _ msg k => let '(ins, outs, a) := talk confirm resolve h (k true) ins in (ins, msg :: outs, a)
  | RecvE _ cap k =>
      match ins with
      | [] => talk confirm resolve h (k None) []
      | msg :: ins => talk confirm resolve h (k (if cap <? len msg then None else Some msg)) ins
      end
  | ConfirmE code k => talk confirm resolve h (k (confirm code)) ins
  | ResolveE id k => talk confirm resolve h (k (cwireGoResolve resolve id)) ins
  end.

(** A driver that only uses the stream [h], and reads no more than [n] messages. *)
Fixpoint uses {A} (h : handle) (n : nat) (d : driver A) : Prop :=
  match d with
  | Ret _ => True
  | OpenE _ | AcceptE _ => False
  | SendE h' _ k => h' = h /\ forall ok, uses h n (k ok)
  | RecvE h' _ k => h' = h /\ exists n', n = S n' /\ forall r, uses h n' (k r)
  | ConfirmE _ k => forall b, uses h n (k b)
  | ResolveE _ k => forall r, uses h n (k r)
  end.

(** Follow a driver through all its branches. *)
Ltac walk_uses :=
  repeat match goal with
         | |- uses _ _ (Ret _) => exact I
         | |- uses _ _ (orFail ?o _) => destruct o; [cbn [orFail] | exact I]
         | |- uses _ _ (if ?b then _ else _) => destruct b
         | |- uses _ _ (match ?o with Some _ => _ | None => _ end) => destruct o
         | |- uses _ _ (SendE _ _ _) => split; [reflexivity | intros ?]
         | |- uses _ (S ?n) (RecvE _ _ _) => split; [reflexivity | exists n; split; [reflexivity | intros ?]]
         | |- uses _ _ (ConfirmE _ _) => intros ?
         | |- uses _ _ (ResolveE _ _) => intros ?
         | |- uses _ _ (let (_, _) := ?p in _) => destruct p
         | |- context [let '(_, _) := ?p in _] => destruct p
         end.

Definition frames (msgs : list bytes) : bytes := concat (map frame msgs).

(** Over a framed transport a driver has the conversation it has with the
    messages in the frames it reads. *)
Lemma interp_talk {T A} `{GoTransport T} (h : handle) at_ `{!Framed T h at_} confirm resolve (d : driver A) :
  forall n t w ins rest, uses h n d -> (n <= length ins)%nat -> at_ t w -> inp w = frames ins ++ rest ->
  Forall (fun m => len m <= MaxMessageSize) ins ->
  let '(unread, outs, a) := talk confirm resolve h d ins in
  Forall (fun m => len m <= MaxMessageSize) outs ->
  exists t', interp confirm resolve d t = (t', a) /\
    at_ t' {| out := out w ++ frames outs; inp := frames unread ++ rest |}.
Proof.
  induction d as [a|k IH|k IH|h' msg k IH|h' cap k IH|code k IH|id k IH]; intros n t w ins rest Hu Hn Ht Hi Hf;
    cbn [uses] in Hu; cbn [talk interp]; try done.
  - intros _. exists t. split; [done |]. unfold frames at 1. cbn. rewrite app_nil_r, <-Hi. by destruct w.
  - destruct Hu as [-> Hu]. destruct (talk confirm resolve h (k true) ins) as [[unread outs] a] eqn:Etalk.
    intros Ho. apply Forall_cons in Ho as [Hm Ho].
    destruct (framed_send t w msg Ht Hm) as (t1 & Hs & Ht1). unfold cwireGoSendOnStream. rewrite Hs. cbn [toInt Z.eqb].
    specialize (IH true n t1 _ ins rest (Hu true) Hn Ht1 Hi Hf). rewrite Etalk in IH.
    destruct (IH Ho) as (t' & He & Ht'). exists t'. split; [exact He |]. cbn [out] in Ht'.
    unfold frames in *. cbn [map concat]. by rewrite app_assoc.
  - destruct Hu as [-> (n' & -> & Hu)]. destruct ins as [|msg ins]; [cbn in Hn; lia |].
    apply Forall_cons in Hf as [Hm Hf].
    destruct (framed_recv t w msg (frames ins ++ rest) Ht) as (t1 & Hr & Ht1);
      [by rewrite Hi; unfold frames; cbn; rewrite app_assoc | done |].
    unfold cwireGoRecvOnStream. rewrite Hr.
    assert (Hgo : (if cap <? len msg then (t1, -1, []) else (t1, 0, msg)) =
                  (t1, if cap <? len msg then -1 else 0, if cap <? len msg then [] else msg)) by (by destruct (cap <? len msg)).
    rewrite Hgo.
    assert ((if (if cap <? len msg then -1 else 0) =? 0 then Some (if cap <? len msg then [] else msg) else None) =
            (if cap <? len msg then None else Some msg)) as -> by (by destruct (cap <? len msg)).
    exact (IH _ n' t1 _ ins rest (Hu _) ltac:(cbn in Hn; lia) Ht1 eq_refl Hf).
  - assert ((cwireGoConfirm confirm code =? 1) = confirm code) as -> by (unfold cwireGoConfirm; by destruct (confirm code)).
    by apply (IH _ n t w ins rest (Hu _)).
  - by apply (IH _ n t w ins rest (Hu _)).
Qed.

(** ** Every run *)

Inductive event :=
  | EvOpen (h : option handle)
  | EvAccept (h : option handle)
  | EvSend (h : handle) (msg : bytes) (ok : bool)
  | EvRecv (h : handle) (msg : option bytes)
  | EvConfirm (code : string) (yes : bool)
  | EvResolve (id : bytes) (rec : option pigeon_pairing_record).

(** The callbacks a driver made, with the answers it got, and its result. *)
Inductive behaves {A} : driver A -> list event -> A -> Prop :=
  | BRet a : behaves (Ret a) [] a
  | BOpen k h tr a : behaves (k h) tr a -> behaves (OpenE k) (EvOpen h :: tr) a
  | BAccept k h tr a : behaves (k h) tr a -> behaves (AcceptE k) (EvAccept h :: tr) a
  | BSend h msg k ok tr a : behaves (k ok) tr a -> behaves (SendE h msg k) (EvSend h msg ok :: tr) a
  | BRecv h cap k msg tr a : (forall m, msg = Some m -> len m <= cap) ->
      behaves (k msg) tr a -> behaves (RecvE h cap k) (EvRecv h msg :: tr) a
  | BConfirm code k yes tr a : behaves (k yes) tr a -> behaves (ConfirmE code k) (EvConfirm code yes :: tr) a
  | BResolve id k rec tr a : behaves (k rec) tr a -> behaves (ResolveE id k) (EvResolve id rec :: tr) a.

(** What a run looks like from its first callback on. *)
Section Runs.
Context {A : Type} (tr : list event) (a : A).
Lemma behaves_ret x : behaves (Ret x) tr a -> tr = [] /\ x = a.
Proof. by inversion 1. Qed.
Lemma behaves_open k : behaves (OpenE k) tr a -> exists h tr', tr = EvOpen h :: tr' /\ behaves (k h) tr' a.
Proof. inversion 1; eauto. Qed.
Lemma behaves_accept k : behaves (AcceptE k) tr a -> exists h tr', tr = EvAccept h :: tr' /\ behaves (k h) tr' a.
Proof. inversion 1; eauto. Qed.
Lemma behaves_send h msg k : behaves (SendE h msg k) tr a -> exists ok tr', tr = EvSend h msg ok :: tr' /\ behaves (k ok) tr' a.
Proof. inversion 1; eauto. Qed.
Lemma behaves_recv h cap k : behaves (RecvE h cap k) tr a ->
  exists msg tr', tr = EvRecv h msg :: tr' /\ (forall m, msg = Some m -> len m <= cap) /\ behaves (k msg) tr' a.
Proof. inversion 1; eauto. Qed.
Lemma behaves_confirm code k : behaves (ConfirmE code k) tr a -> exists yes tr', tr = EvConfirm code yes :: tr' /\ behaves (k yes) tr' a.
Proof. inversion 1; eauto. Qed.
Lemma behaves_resolve id k : behaves (ResolveE id k) tr a -> exists rec tr', tr = EvResolve id rec :: tr' /\ behaves (k rec) tr' a.
Proof. inversion 1; eauto. Qed.
End Runs.

(** The answers to the caller's questions are those of its callbacks. *)
Definition answers (confirm : string -> bool) (resolve : PairingResolver) (e : event) : Prop :=
  match e with
  | EvConfirm code yes => yes = confirm code
  | EvResolve id rec => rec = cwireGoResolve resolve id
  | _ => True
  end.

(** Every callback of a driver satisfies [Q] after the callbacks before it,
    whatever is answered. *)
Fixpoint guarded {A} (Q : list event -> event -> Prop) (past : list event) (d : driver A) : Prop :=
  let next e (d : Prop) := Q past e /\ d in
  match d with
  | Ret _ => True
  | OpenE k => forall h, next (EvOpen h) (guarded Q (past ++ [EvOpen h]) (k h))
  | AcceptE k => forall h, next (EvAccept h) (guarded Q (past ++ [EvAccept h]) (k h))
  | SendE h msg k => forall ok, next (EvSend h msg ok) (guarded Q (past ++ [EvSend h msg ok]) (k ok))
  | RecvE h cap k => forall msg, next (EvRecv h msg) (guarded Q (past ++ [EvRecv h msg]) (k msg))
  | ConfirmE code k => forall yes, next (EvConfirm code yes) (guarded Q (past ++ [EvConfirm code yes]) (k yes))
  | ResolveE id k => forall rec, next (EvResolve id rec) (guarded Q (past ++ [EvResolve id rec]) (k rec))
  end.

Lemma guarded_behaves {A} (Q : list event -> event -> Prop) (d : driver A) tr a : behaves d tr a ->
  forall past, guarded Q past d -> forall pre e post, tr = pre ++ e :: post -> Q (past ++ pre) e.
Proof.
  induction 1; intros past Hg pre e post Htr; cbn [guarded] in Hg; [by destruct pre |..];
    (destruct pre as [|e' pre]; injection Htr as <- Htr; [rewrite app_nil_r; by apply Hg |];
     rewrite cons_middle, app_assoc; eapply IHbehaves; [apply Hg | exact Htr]).
Qed.

(** The callbacks of a run over a transport. *)
Fixpoint observed {T A} `{GoTransport T} (confirm : string -> bool) (resolve : PairingResolver) (d : driver A) (t : T) : list event :=
  match d with
  | Ret _ => []
  | OpenE k => let '(t, rv, h) := cwireGoOpenStream t in
      let h := if rv =? 0 then h else None in EvOpen h :: observed confirm resolve (k h) t
  | AcceptE k => let '(t, rv, h) := cwireGoAcceptStream t in
      let h := if rv =? 0 then h else None in EvAccept h :: observed confirm resolve (k h) t
  | SendE h msg k => let '(t, rv) := cwireGoSendOnStream t h msg in EvSend h msg (rv =? 0) :: observed confirm resolve (k (rv =? 0)) t
  | RecvE h cap k => let '(t, rv, msg) := cwireGoRecvOnStream t h cap in
      let msg := if rv =? 0 then Some msg else None in EvRecv h msg :: observed confirm resolve (k msg) t
  | ConfirmE code k => EvConfirm code (confirm code) :: observed confirm resolve (k (confirm code)) t
  | ResolveE id k => EvResolve id (cwireGoResolve resolve id) :: observed confirm resolve (k (cwireGoResolve resolve id)) t
  end.

(** Whatever the transport, they are callbacks of the driver. *)
Lemma interp_observed {T A} `{GoTransport T} confirm resolve (d : driver A) : forall t,
  behaves d (observed confirm resolve d t) (interp confirm resolve d t).2 /\ Forall (answers confirm resolve) (observed confirm resolve d t).
Proof.
  induction d as [a|k IH|k IH|h' msg k IH|h' cap k IH|code k IH|id k IH]; intros t; cbn [interp observed].
  - by repeat constructor.
  - destruct (cwireGoOpenStream t) as [[t1 rv] h]. destruct (IH (if rv =? 0 then h else None) t1). by repeat constructor.
  - destruct (cwireGoAcceptStream t) as [[t1 rv] h]. destruct (IH (if rv =? 0 then h else None) t1). by repeat constructor.
  - destruct (cwireGoSendOnStream t h' msg) as [t1 rv]. destruct (IH (rv =? 0) t1). by repeat constructor.
  - destruct (cwireGoRecvOnStream t h' cap) as [[t1 rv] msg] eqn:Hr.
    destruct (IH (if rv =? 0 then Some msg else None) t1). split; [constructor; [| done] | by constructor]. intros m Hm.
    unfold cwireGoRecvOnStream in Hr. destruct (gtRecvOnStream t h') as [t2 [m'|err]]; [| by simplify_eq].
    destruct (Z.ltb_spec cap (len m')); simplify_eq; cbn in Hm; simplify_eq; lia.
  - assert ((cwireGoConfirm confirm code =? 1) = confirm code) as -> by (unfold cwireGoConfirm; by destruct (confirm code)).
    destruct (IH (confirm code) t). by repeat constructor.
  - destruct (IH (cwireGoResolve resolve id) t). by repeat constructor.
Qed.
