(* ===== verification/Activation.v ===== *)
(** * Activation: the authentication of a session (c/src/activation.c, cwire/)

    A client that connects sends its device id, a fresh nonce and a route; the
    backend looks the device up and accepts or rejects it.  The exchange is run by
    libpigeon over the primary stream, both ends stepping the machine of the
    session protocol; here are its messages, the two C drivers and the Go
    wrappers [RunBackendActivation] and [RunClientActivation]. *)

From Stdlib Require Import ZArith Lia Strings.Byte Strings.String.
From stdpp Require Import base gmap strings list fin_maps.
From S2P Require Import Prelude Binary Wire Channel Cwire Machine GoGen CGen SessionGen Generated CMachines Dial Driver.

Open Scope Z_scope.
Open Scope driver_scope.

Definition PIGEON_AUTH_MSG_TAG_AUTH_REQUEST : byte := x01.
Definition PIGEON_AUTH_MSG_TAG_AUTH_OK : byte := x02.
Definition PIGEON_AUTH_OK_ACCEPTED : byte := x01.
Definition PIGEON_AUTH_OK_REJECTED : byte := x00.
Definition PIGEON_AUTH_MAX_DEVICE_ID : Z := 128.
Definition PIGEON_AUTH_MAX_REASON : Z := 256.
Definition PIGEON_AUTH_NONCE_LEN : Z := 16.
Definition PIGEON_AUTH_MAX_ROUTE : Z := 128.
Definition PIGEON_AUTH_MAX_PAYLOAD : Z := 512.

(** ** Varints *)

(** [room] is what is left of the buffer; a [uint64_t] has at most nine
    continuation bytes. *)
Fixpoint auth_uvarint_encode_loop (fuel : nat) (v room : Z) : option bytes :=
  if v <? 0x80 then if room <=? 0 then None else Some [z2b v]
  else
    match fuel with
    | O => None
    | S fuel =>
        if room <=? 0 then None
        else cons (z2b (Z.lor (v mod 256) 0x80)) <$> auth_uvarint_encode_loop fuel (Z.shiftr v 7) (room - 1)
    end.
Definition auth_uvarint_encode (v buf_len : Z) : option bytes := auth_uvarint_encode_loop 9 v buf_len.

(** The value and the number of bytes read. *)
Fixpoint auth_uvarint_decode_loop (buf : bytes) (v shift off : Z) : option (Z * Z) :=
  match buf with
  | [] => None
  | b :: buf =>
      if 64 <=? shift then None else
      let v := Z.lor v (u64 (Z.shiftl (Z.land (b2z b) 0x7F) shift)) in
      if Z.land (b2z b) 0x80 =? 0 then Some (v, off + 1) else auth_uvarint_decode_loop buf v (shift + 7) (off + 1)
  end.
Definition auth_uvarint_decode (buf : bytes) : option (Z * Z) := auth_uvarint_decode_loop buf 0 0 0.

(** ** Messages *)

(** [memcpy] of [n] bytes from [off]. *)
Definition span (b : bytes) (off n : Z) : bytes := take (Z.to_nat n) (drop (Z.to_nat off) b).

(** A buffer of [buf_len] bytes is filled from the front; [None] is -1. *)
Definition append (buf_len : Z) (buf more : bytes) : option bytes :=
  if buf_len <? len buf + len more then None else Some (buf ++ more).

Definition pigeon_encode_auth_request (device_id nonce route : bytes) (buf_len : Z) : option bytes :=
  if buf_len <? 1 then None else
  let buf := [PIGEON_AUTH_MSG_TAG_AUTH_REQUEST] in
  if PIGEON_AUTH_MAX_DEVICE_ID <? len device_id then None else
  n ← auth_uvarint_encode (len device_id) (buf_len - len buf);
  let buf := buf ++ n in
  buf ← append buf_len buf device_id;
  buf ← append buf_len buf (take (Z.to_nat PIGEON_AUTH_NONCE_LEN) nonce);
  if PIGEON_AUTH_MAX_ROUTE <? len route then None else
  n ← auth_uvarint_encode (len route) (buf_len - len buf);
  append buf_len (buf ++ n) route.

Definition pigeon_decode_auth_request (payload : bytes) (out_cap out_route_cap : Z) : option (bytes * bytes * bytes) :=
  match payload with
  | [] => None
  | tag :: _ =>
      if negb (bool_decide (tag = PIGEON_AUTH_MSG_TAG_AUTH_REQUEST)) then None else
      '(id_len, consumed) ← auth_uvarint_decode (drop 1 payload);
      let off := 1 + consumed in
      if PIGEON_AUTH_MAX_DEVICE_ID <? id_len then None else
      if len payload <? off + id_len + PIGEON_AUTH_NONCE_LEN then None else
      if out_cap <? id_len + 1 then None else
      let device_id := span payload off id_len in
      let off := off + id_len in
      let nonce := span payload off PIGEON_AUTH_NONCE_LEN in
      let off := off + PIGEON_AUTH_NONCE_LEN in
      '(route_len, consumed) ← auth_uvarint_decode (slice_from payload off);
      let off := off + consumed in
      if PIGEON_AUTH_MAX_ROUTE <? route_len then None else
      if negb (off + route_len =? len payload) then None else
      if out_route_cap <? route_len + 1 then None else
      Some (device_id, nonce, span payload off route_len)
  end.

Definition pigeon_encode_auth_ok (ok : bool) (reason : bytes) (buf_len : Z) : option bytes :=
  if buf_len <? 2 then None else
  if ok then Some [PIGEON_AUTH_MSG_TAG_AUTH_OK; PIGEON_AUTH_OK_ACCEPTED] else
  let buf := [PIGEON_AUTH_MSG_TAG_AUTH_OK; PIGEON_AUTH_OK_REJECTED] in
  if PIGEON_AUTH_MAX_REASON <? len reason then None else
  n ← auth_uvarint_encode (len reason) (buf_len - len buf);
  append buf_len (buf ++ n) reason.

(** The answer, with the reason of a rejection (the wrappers pass no buffer for
    it). *)
Definition pigeon_decode_auth_ok (payload : bytes) : option (bool * bytes) :=
  match payload with
  | tag :: flag :: rest =>
      if negb (bool_decide (tag = PIGEON_AUTH_MSG_TAG_AUTH_OK)) then None else
      if bool_decide (flag = PIGEON_AUTH_OK_ACCEPTED) then Some (true, [])
      else if bool_decide (flag = PIGEON_AUTH_OK_REJECTED) then
        '(r_len, consumed) ← auth_uvarint_decode rest;
        if PIGEON_AUTH_MAX_REASON <? r_len then None else
        if negb (2 + consumed + r_len =? len payload) then None
        else Some (false, span payload (2 + consumed) r_len)
      else None
  | _ => None
  end.

(** ** Drivers *)

Definition backendMachine : Type := World SB.SessionProtocolBackendMachine unit.
Definition clientMachine : Type := World SC.SessionProtocolClientMachine unit.

(** [backend_device_known] and [backend_device_unknown]. *)
Definition deviceGuards (known : bool) : CCallbacks SB.SessionProtocolBackendMachine unit :=
  {| ccGuards := <["device_known" := fun _ => known]> (<["device_unknown" := fun _ => negb known]> ∅);
     ccActions := ∅; ccOnChange := None |}.

(** [<= 0] fails. *)
Definition handled {V} (r : option (World V unit * Z)) : option (World V unit) :=
  match r with
  | Some (m, rv) => if rv <=? 0 then None else Some m
  | None => None
  end.

(** What the backend's driver returns when it does not fail: 0 or 1, and the
    output buffers. *)
Record backendOut := {
  boRv : Z;
  boDevice : bytes;
  boRecord : option pigeon_pairing_record;
  boNonce : bytes;
  boRoute : bytes
}.

(** [out_device_id_cap] and [out_route_cap] are those of the Go wrapper. *)
Definition pigeon_run_backend_activation (stream : handle) (out_device_id_cap out_route_cap : Z)
    : driver (option backendOut) :=
  RecvE stream PIGEON_AUTH_MAX_PAYLOAD (fun got =>
  let? buf := got in
  let? (id, nonce_buf, route) :=
    pigeon_decode_auth_request buf (PIGEON_AUTH_MAX_DEVICE_ID + 1) (PIGEON_AUTH_MAX_ROUTE + 1) in
  let route_buf := cstr route in
  guard? len route_buf + 1 <=? out_route_cap in
  let device_id := cstr id in
  guard? len device_id + 1 <=? out_device_id_cap in
  let machine := seeded SB.NewSessionProtocolBackendMachine "Paired" in
  ResolveE device_id (fun record =>
  let known := match record with Some _ => true | None => false end in
  let? machine := handled (cCall backendMessages (deviceGuards known) "auth_request" machine) in
  guard? bool_decide (wState machine = "AuthCheck"%string) in
  let? machine := handled (cCall backendSteps (deviceGuards known) "verify" machine) in
  if negb known then
    let out := {| boRv := 1; boDevice := device_id; boRecord := None; boNonce := []; boRoute := route_buf |} in
    match pigeon_encode_auth_ok false (str_bytes "unknown client") PIGEON_AUTH_MAX_PAYLOAD with
    | Some reply => SendE stream reply (fun _ => Ret (Some out))
    | None => Ret (Some out)
    end
  else
    let? reply := pigeon_encode_auth_ok true [] PIGEON_AUTH_MAX_PAYLOAD in
    call! SendE stream reply in
    guard? bool_decide (wState machine = "SessionActive"%string) in
    Ret (Some {| boRv := 0; boDevice := device_id; boRecord := record; boNonce := nonce_buf; boRoute := route_buf |}))).

(** [nonce_buf] is what [pigeon_random_bytes] wrote; the driver returns it. *)
Definition pigeon_run_client_activation (stream : handle) (device_id route nonce_buf : bytes) : driver (option bytes) :=
  let machine := seeded SC.NewSessionProtocolClientMachine "Reconnect" in
  let? machine := handled (cCall clientSteps noCallbacks "relay_connected" machine) in
  guard? bool_decide (wState machine = "SendAuth"%string) in
  let? out := pigeon_encode_auth_request device_id nonce_buf route PIGEON_AUTH_MAX_PAYLOAD in
  call! SendE stream out in
  RecvE stream PIGEON_AUTH_MAX_PAYLOAD (fun got =>
  let? buf := got in
  let? (ok, _) := pigeon_decode_auth_ok buf in
  guard? ok in
  let? machine := handled (cCall clientMessages noCallbacks "auth_ok" machine) in
  guard? bool_decide (wState machine = "SessionActive"%string) in
  Ret (Some nonce_buf)).

(** ** The Go wrappers *)

Section Wrappers.
Context {T : Type} `{!GoTransport T}.

(** A reference to a transport is nil, closed (no box), or usable. *)
Inductive GoTransportRef :=
  | RefNil
  | RefOf (open : bool).
Definition refOpen (r : GoTransportRef) : bool := match r with RefOf true => true | _ => false end.

Definition maxRoute : Z := 128.

Record BackendActivationResult := {
  barDeviceID : string;
  barAccepted : bool;
  barRecord : option cwRecord;
  barNonce : bytes;
  barRoute : string
}.

Record RunBackendActivationArgs := {
  baRef : GoTransportRef;
  baStream : option handle;
  baResolveFn : option PairingResolver;
  baSkipPrimaryHeader : bool
}.

Definition RunBackendActivation (args : option RunBackendActivationArgs) (t : T) : T * result BackendActivationResult :=
  match args with
  | None => (t, Err (ENew "cwire: RunBackendActivation: args is nil"))
  | Some args =>
      if negb (refOpen (baRef args)) then (t, Err (ENew "cwire: RunBackendActivation: nil GoTransportRef")) else
      match baStream args with
      | None => (t, Err (ENew "cwire: RunBackendActivation: nil stream handle"))
      | Some stream =>
          match baResolveFn args with
          | None => (t, Err (ENew "cwire: RunBackendActivation: ResolveFn required"))
          | Some resolve =>
              let '(t, skipped) := if baSkipPrimaryHeader args then gtRecvOnStream t stream else (t, Ok []) in
              match skipped with
              | Err err => (t, Err (EWrap "cwire: RunBackendActivation: read primary header: %w" [] err))
              | Ok _ =>
                  let '(t, out) := interp (fun _ => false) resolve (pigeon_run_backend_activation stream 129 (maxRoute + 1)) t in
                  (t, match out with
                      | None => Err (ENew "cwire: pigeon_run_backend_activation failed")
                      | Some o =>
                          if boRv o =? 0 then
                            Ok {| barDeviceID := GoString (boDevice o); barAccepted := true;
                                  barRecord := recordFromC <$> boRecord o; barNonce := boNonce o;
                                  barRoute := GoString (boRoute o) |}
                          else Ok {| barDeviceID := GoString (boDevice o); barAccepted := false; barRecord := None;
                                     barNonce := []; barRoute := EmptyString |}
                      end)
              end
          end
      end
  end.

Definition RunClientActivation (ref : GoTransportRef) (h : option handle) (deviceID route : string) (nonce : bytes) (t : T)
    : T * result bytes :=
  if negb (refOpen ref) then (t, Err (ENew "cwire: RunClientActivation: nil ref")) else
  match h with
  | None => (t, Err (ENew "cwire: RunClientActivation: nil handle"))
  | Some h =>
      if bool_decide (deviceID = EmptyString) then (t, Err (ENew "cwire: RunClientActivation: empty deviceID")) else
      let '(t, out) := interp (fun _ => false) (fun _ => None)
                         (pigeon_run_client_activation h (CString deviceID) (CString route) nonce) t in
      (t, match out with
          | None => Err (ENew "cwire: pigeon_run_client_activation failed (rejected or wire error)")
          | Some nonce => Ok nonce
          end)
  end.
End Wrappers.

(** ** Lemmas: messages *)

Lemma auth_uvarint_encode_loop_put fuel : forall v room,
  0 <= v < 2 ^ (7 * (Z.of_nat fuel + 1)) -> Z.of_nat fuel + 1 <= room ->
  auth_uvarint_encode_loop fuel v room = Some (put_uvarint_loop fuel v).
Proof.
  induction fuel as [|f IH]; intros v room Hv Hr; cbn [auth_uvarint_encode_loop put_uvarint_loop];
    change 0x80 with 128; destruct (Z.ltb_spec v 128) as [Hs|Hs].
  - by rewrite (proj2 (Z.leb_gt _ _)) by lia.
  - change (2 ^ (7 * (Z.of_nat 0 + 1))) with 128 in Hv. lia.
  - by rewrite (proj2 (Z.leb_gt _ _)) by lia.
  - rewrite (proj2 (Z.leb_gt _ _)) by lia. rewrite IH; [done | | lia].
    rewrite Z.shiftr_div_pow2 by lia. split; [apply Z.div_pos; lia |]. apply Z.div_lt_upper_bound; [lia |].
    rewrite <-Z.pow_add_r by lia. replace (7 + 7 * (Z.of_nat f + 1)) with (7 * (Z.of_nat (S f) + 1)) by lia. lia.
Qed.

Lemma auth_uvarint_encode_put v room : 0 <= v < 2 ^ 64 -> 10 <= room -> auth_uvarint_encode v room = Some (PutUvarint v).
Proof.
  intros Hv Hr. apply auth_uvarint_encode_loop_put; [| lia]. change (7 * (Z.of_nat 9 + 1)) with 70.
  split; [lia |]. apply Z.lt_trans with (2 ^ 64); [lia | reflexivity].
Qed.

Lemma land_low b : b2z b < 128 -> Z.land (b2z b) 0x7F = b2z b /\ Z.land (b2z b) 0x80 = 0.
Proof.
  intros Hb. pose proof (b2z_range b). split.
  - change 0x7F with (Z.ones 7). rewrite Z.land_ones by lia. apply Z.mod_small. lia.
  - assert (Z.land (b2z b) (Z.shiftl 1 7) = 0) as Hz; [| exact Hz].
    apply Z.bits_inj'. intros i Hi. rewrite Z.land_spec, Z.bits_0, Z.shiftl_spec by done.
    destruct (Z.lt_ge_cases i 7); [by rewrite (Z.testbit_neg_r 1 (i - 7)), andb_false_r by lia |].
    rewrite <-(Z.mod_small (b2z b) (2 ^ 7)) by lia. by rewrite Z.mod_pow2_bits_high by lia.
Qed.

Lemma land_high b : 128 <= b2z b -> Z.land (b2z b) 0x80 <> 0.
Proof.
  intros Hb Hz. pose proof (b2z_range b) as Hr.
  assert (Z.testbit (Z.land (b2z b) 0x80) 7 = true) as Ht; [| by rewrite Hz, Z.bits_0 in Ht].
  rewrite Z.land_spec. apply andb_true_intro. split; [| done]. apply Z.testbit_true; [lia |].
  assert (b2z b / 2 ^ 7 = 1) as ->; [| done]. change (2 ^ 7) with 128. Z.div_mod_to_equations. lia.
Qed.

(** Where [binary.Uvarint] reads a value, so does the C decoder. *)
Lemma auth_uvarint_decode_go buf : forall i x v n,
  0 <= i <= 10 -> uvarint_loop buf i x (7 * i) = (v, n) -> 0 < n -> auth_uvarint_decode_loop buf x (7 * i) i = Some (v, n).
Proof.
  induction buf as [|b buf IH]; intros i x v n Hi; cbn [uvarint_loop auth_uvarint_decode_loop]; [intros [= <- <-]; lia |].
  unfold MaxVarintLen64. destruct (Z.eqb_spec i 10); [intros [= <- <-]; lia |].
  intros Hu Hn.
  rewrite (proj2 (Z.leb_gt _ _)) by lia.
  destruct (Z.ltb_spec (b2z b) 128) as [Hb|Hb].
  - destruct (land_low b Hb) as [-> ->]. destruct ((i =? 10 - 1) && (1 <? b2z b)); [injection Hu as <- <-; lia |].
    injection Hu as <- <-. done.
  - rewrite (proj2 (Z.eqb_neq _ _)) by (by apply land_high). replace (7 * i + 7) with (7 * (i + 1)) in * by lia.
    by apply IH; [lia | |].
Qed.

Lemma auth_uvarint_decode_put v rest : 0 <= v < 2 ^ 64 ->
  auth_uvarint_decode (PutUvarint v ++ rest) = Some (v, len (PutUvarint v)).
Proof.
  intros Hv. apply (auth_uvarint_decode_go _ 0 0); [lia | by apply Uvarint_Put |]. pose proof (len_PutUvarint v). lia.
Qed.

Lemma span_app a b c : span (a ++ b ++ c) (len a) (len b) = b.
Proof. unfold span, len. rewrite !Nat2Z.id, drop_app_length, take_app_length. done. Qed.

Lemma slice_from_app (a b : bytes) : slice_from (a ++ b) (len a) = b.
Proof. unfold len. by rewrite Nat2Z.id, drop_app_length. Qed.

Lemma append_fits buf_len buf more : len buf + len more <= buf_len -> append buf_len buf more = Some (buf ++ more).
Proof. intros H. unfold append. by rewrite (proj2 (Z.ltb_ge _ _)) by lia. Qed.

(** Lengths of concatenations. *)
Ltac lens := unfold len in *; cbn [length app] in *; rewrite ?length_app in *; cbn [length app] in *; lia.

(** The bytes of an auth_request. *)
Definition auth_request (device_id nonce route : bytes) : bytes :=
  PIGEON_AUTH_MSG_TAG_AUTH_REQUEST :: PutUvarint (len device_id) ++ device_id ++ nonce ++ PutUvarint (len route) ++ route.

Lemma len_auth_request id nonce route : len id <= 128 -> len nonce = 16 -> len route <= 128 ->
  len (auth_request id nonce route) <= 293.
Proof.
  intros Hi Hn Hr. unfold auth_request. pose proof (len_PutUvarint (len id)) as H1. pose proof (len_PutUvarint (len route)) as H2.
  unfold MaxVarintLen64 in *. lens.
Qed.

Lemma encode_auth_request id nonce route : len id <= 128 -> len nonce = 16 -> len route <= 128 ->
  pigeon_encode_auth_request id nonce route PIGEON_AUTH_MAX_PAYLOAD = Some (auth_request id nonce route).
Proof.
  intros Hi Hn Hr. unfold pigeon_encode_auth_request, PIGEON_AUTH_MAX_PAYLOAD, PIGEON_AUTH_MAX_DEVICE_ID,
    PIGEON_AUTH_MAX_ROUTE, PIGEON_AUTH_NONCE_LEN. change (512 <? 1) with false. cbn iota.
  pose proof (len_nonneg id). pose proof (len_nonneg route).
  rewrite (proj2 (Z.ltb_ge _ _)) by lia. change (len [PIGEON_AUTH_MSG_TAG_AUTH_REQUEST]) with 1.
  rewrite auth_uvarint_encode_put by lia. cbn [mbind option_bind].
  pose proof (len_PutUvarint (len id)) as H1. pose proof (len_PutUvarint (len route)) as H2. unfold MaxVarintLen64 in *.
  assert (take (Z.to_nat 16) nonce = nonce) as -> by (apply take_ge; unfold len in Hn; lia).
  rewrite append_fits by lens.
  cbn [mbind option_bind].
  rewrite append_fits by lens.
  cbn [mbind option_bind]. rewrite (proj2 (Z.ltb_ge _ _)) by lia.
  rewrite auth_uvarint_encode_put by lens.
  cbn [mbind option_bind].
  rewrite append_fits by lens.
  unfold auth_request. f_equal. by rewrite <-!app_assoc.
Qed.

Lemma decode_auth_request id nonce route : len id <= 128 -> len nonce = 16 -> len route <= 128 ->
  pigeon_decode_auth_request (auth_request id nonce route) 129 129 = Some (id, nonce, route).
Proof.
  intros Hi Hn Hr. pose proof (len_nonneg id). pose proof (len_nonneg route).
  unfold pigeon_decode_auth_request, PIGEON_AUTH_MAX_DEVICE_ID, PIGEON_AUTH_MAX_ROUTE, PIGEON_AUTH_NONCE_LEN, auth_request.
  cbn [negb drop]. rewrite bool_decide_eq_true_2 by done. cbn [negb]. rewrite drop_0.
  rewrite auth_uvarint_decode_put by lia. cbn [mbind option_bind].
  pose proof (len_PutUvarint (len id)) as H1. pose proof (len_PutUvarint (len route)) as H2. unfold MaxVarintLen64 in *.
  set (tag := PIGEON_AUTH_MSG_TAG_AUTH_REQUEST). set (u1 := PutUvarint (len id)) in *. set (u2 := PutUvarint (len route)) in *.
  assert (Hlen : len (tag :: u1 ++ id ++ nonce ++ u2 ++ route) = 1 + len u1 + len id + 16 + len u2 + len route).
  { rewrite <-Hn. lens. }
  rewrite Hlen. rewrite !(proj2 (Z.ltb_ge _ _)) by lia.
  assert (Hid : span (tag :: u1 ++ id ++ nonce ++ u2 ++ route) (1 + len u1) (len id) = id).
  { change (tag :: u1 ++ id ++ nonce ++ u2 ++ route) with ((tag :: u1) ++ id ++ nonce ++ u2 ++ route).
    replace (1 + len u1) with (len (tag :: u1)) by lens. apply span_app. }
  assert (Hno : span (tag :: u1 ++ id ++ nonce ++ u2 ++ route) (1 + len u1 + len id) 16 = nonce).
  { rewrite <-Hn. replace (tag :: u1 ++ id ++ nonce ++ u2 ++ route) with ((tag :: u1 ++ id) ++ nonce ++ u2 ++ route)
      by (cbn; by rewrite <-app_assoc).
    replace (1 + len u1 + len id) with (len (tag :: u1 ++ id)) by lens.
    apply span_app. }
  assert (Hpre : len (tag :: u1 ++ id ++ nonce) = 1 + len u1 + len id + 16)
    by (rewrite <-Hn; lens).
  assert (Hfrom : slice_from (tag :: u1 ++ id ++ nonce ++ u2 ++ route) (1 + len u1 + len id + 16) = u2 ++ route).
  { rewrite <-Hpre. replace (tag :: u1 ++ id ++ nonce ++ u2 ++ route) with ((tag :: u1 ++ id ++ nonce) ++ u2 ++ route)
      by (cbn; by rewrite <-!app_assoc). apply slice_from_app. }
  assert (Hd : auth_uvarint_decode (u2 ++ route) = Some (len route, len u2)) by (apply auth_uvarint_decode_put; lia).
  rewrite Hid, Hno, Hfrom, Hd. cbn [mbind option_bind].
  rewrite (proj2 (Z.ltb_ge _ _)) by lia. rewrite (proj2 (Z.eqb_eq _ _)) by lia. cbn [negb].
  rewrite (proj2 (Z.ltb_ge _ _)) by lia. do 2 f_equal.
  replace (tag :: u1 ++ id ++ nonce ++ u2 ++ route) with ((tag :: u1 ++ id ++ nonce ++ u2) ++ route ++ [])
    by (cbn; by rewrite app_nil_r, <-!app_assoc).
  replace (1 + len u1 + len id + 16 + len u2) with (len (tag :: u1 ++ id ++ nonce ++ u2)).
  - apply span_app.
  - rewrite <-Hpre. lens.
Qed.

(** ** Lemmas: the machines *)

Definition reaches {V} (r : option (World V unit)) (s : State) (k : World V unit -> Prop) : Prop :=
  match r with Some m => wState m = s /\ k m | None => False end.

Lemma backend_machine (known : bool) :
  reaches (handled (cCall backendMessages (deviceGuards known) "auth_request"
                      (seeded SB.NewSessionProtocolBackendMachine "Paired"))) "AuthCheck" (fun m =>
  reaches (handled (cCall backendSteps (deviceGuards known) "verify" m)) (if known then "SessionActive" else "Idle") (fun _ => True)).
Proof. destruct known; vm_compute; repeat split. Qed.

Lemma client_machine :
  reaches (handled (cCall clientSteps noCallbacks "relay_connected" (seeded SC.NewSessionProtocolClientMachine "Reconnect")))
    "SendAuth" (fun m =>
  reaches (handled (cCall clientMessages noCallbacks "auth_ok" m)) "SessionActive" (fun _ => True)).
Proof. vm_compute. repeat split. Qed.

(** The backend's answers. *)
Definition auth_reply (known : bool) : bytes :=
  default [] (pigeon_encode_auth_ok known (if known then [] else str_bytes "unknown client") PIGEON_AUTH_MAX_PAYLOAD).

Lemma auth_reply_ok known :
  pigeon_encode_auth_ok known (if known then [] else str_bytes "unknown client") PIGEON_AUTH_MAX_PAYLOAD = Some (auth_reply known) /\
  (exists reason, pigeon_decode_auth_ok (auth_reply known) = Some (known, reason)) /\
  len (auth_reply known) <= PIGEON_AUTH_MAX_PAYLOAD.
Proof.
  destruct known; (split; [by_vm | split; [eexists; vm_compute; reflexivity | vm_compute; discriminate]]).
Qed.

Lemma auth_reply_encoded : pigeon_encode_auth_ok true [] PIGEON_AUTH_MAX_PAYLOAD = Some (auth_reply true) /\
  pigeon_encode_auth_ok false (str_bytes "unknown client") PIGEON_AUTH_MAX_PAYLOAD = Some (auth_reply false).
Proof. split; by_vm. Qed.

(** ** Lemmas: the drivers *)

(** What the backend's driver reports for a request and a looked-up record. *)
Definition backendReport (id nonce route : bytes) (record : option pigeon_pairing_record) : backendOut :=
  match record with
  | Some _ => {| boRv := 0; boDevice := cstr id; boRecord := record; boNonce := nonce; boRoute := cstr route |}
  | None => {| boRv := 1; boDevice := cstr id; boRecord := None; boNonce := []; boRoute := cstr route |}
  end.
Definition isKnown (record : option pigeon_pairing_record) : bool := match record with Some _ => true | None => false end.

(** Step a machine of a driver: the call succeeds in the state expected. *)
Ltac machine H :=
  match type of H with
  | reaches ?r _ _ => destruct r as [?m|]; [| destruct H]; let Hs := fresh "Hs" in destruct H as [Hs H];
      cbn [orFail]; rewrite ?bool_decide_eq_true_2 by exact Hs
  end.

Lemma decoded_lengths payload c1 c2 id nonce route : pigeon_decode_auth_request payload c1 c2 = Some (id, nonce, route) ->
  len id <= PIGEON_AUTH_MAX_DEVICE_ID /\ len route <= PIGEON_AUTH_MAX_ROUTE.
Proof.
  unfold pigeon_decode_auth_request. destruct payload as [|tag p]; [done |]. destruct (negb _); [done |].
  destruct (auth_uvarint_decode (drop 1 (tag :: p))) as [[idl c]|]; [| done]. cbn [mbind option_bind].
  destruct (Z.ltb_spec PIGEON_AUTH_MAX_DEVICE_ID idl); [done |]. destruct (_ <? _); [done |]. destruct (_ <? _); [done |].
  destruct (auth_uvarint_decode _) as [[rl c']|]; [| done]. cbn [mbind option_bind].
  destruct (Z.ltb_spec PIGEON_AUTH_MAX_ROUTE rl); [done |]. destruct (negb _); [done |]. destruct (_ <? _); [done |].
  intros [= <- _ <-]. unfold span, len. rewrite !length_take. unfold PIGEON_AUTH_MAX_DEVICE_ID, PIGEON_AUTH_MAX_ROUTE in *. lia.
Qed.

(** The capacities of the wrapper's buffers always suffice. *)
Lemma fits_cap b : len b <= 128 -> (len (cstr b) + 1 <=? 129) = true.
Proof. intros Hb. pose proof (len_cstr b). apply Z.leb_le. lia. Qed.

Lemma backend_talks (h : handle) confirm resolve payload id nonce route ins :
  pigeon_decode_auth_request payload 129 129 = Some (id, nonce, route) -> len payload <= PIGEON_AUTH_MAX_PAYLOAD ->
  let record := cwireGoResolve resolve (cstr id) in
  talk confirm resolve h (pigeon_run_backend_activation h 129 129) (payload :: ins) =
    (ins, [auth_reply (isKnown record)], Some (backendReport id nonce route record)).
Proof.
  intros Hd Hl record. destruct (decoded_lengths _ _ _ _ _ _ Hd) as [Hi Hr]. unfold pigeon_run_backend_activation.
  cbn [talk]. rewrite (proj2 (Z.ltb_ge _ _)) by done. cbn [orFail].
  change (PIGEON_AUTH_MAX_DEVICE_ID + 1) with 129. change (PIGEON_AUTH_MAX_ROUTE + 1) with 129. rewrite Hd. cbn [orFail].
  rewrite (fits_cap route), (fits_cap id) by done. cbn [talk]. fold record.
  change (match record with Some _ => true | None => false end) with (isKnown record).
  pose proof (backend_machine (isKnown record)) as Hm. machine Hm. machine Hm.
  destruct auth_reply_encoded as [Ht Hf]. destruct record as [rec|]; cbn [isKnown negb backendReport] in *.
  - rewrite Ht. cbn [orFail talk]. by rewrite bool_decide_eq_true_2.
  - by rewrite Hf.
Qed.

Lemma backend_uses h : uses h 1 (pigeon_run_backend_activation h 129 129).
Proof. unfold pigeon_run_backend_activation. walk_uses. Qed.

Lemma client_talks (h : handle) confirm resolve id route nonce ins (known : bool) :
  len id <= 128 -> len route <= 128 -> len nonce = 16 ->
  talk confirm resolve h (pigeon_run_client_activation h id route nonce) (auth_reply known :: ins) =
    (ins, [auth_request id nonce route], if known then Some nonce else None).
Proof.
  intros Hi Hr Hn. unfold pigeon_run_client_activation. pose proof client_machine as Hm. machine Hm.
  rewrite encode_auth_request by done. cbn [orFail talk].
  destruct (auth_reply_ok known) as (_ & (reason & Hd) & Hl). rewrite (proj2 (Z.ltb_ge _ _)) by done. cbn [orFail].
  rewrite Hd. cbn [orFail]. destruct known; [| done]. machine Hm. done.
Qed.

Lemma client_uses h id route nonce : uses h 1 (pigeon_run_client_activation h id route nonce).
Proof. unfold pigeon_run_client_activation. walk_uses. Qed.

(** ** The exchange *)

(** A string C reads whole. *)
Definition noNul (s : string) : Prop := x00 ∉ str_bytes s.
#[export] Instance noNul_dec s : Decision (noNul s).
Proof. unfold noNul. apply _. Defined.

Lemma CString_id s : noNul s -> CString s = str_bytes s.
Proof. apply cstr_id. Qed.

Lemma GoString_cstr s : noNul s -> GoString (cstr (str_bytes s)) = s.
Proof. intros Hs. unfold GoString. rewrite cstr_cstr, cstr_id by done. apply bytes_str_bytes. Qed.

(** What the wrapper reports. *)
Definition activationResult (deviceID route : string) (nonce : bytes) (record : option cwRecord) : BackendActivationResult :=
  match record with
  | Some rec => {| barDeviceID := deviceID; barAccepted := true; barRecord := Some (recordFromC (recordToC rec));
                   barNonce := nonce; barRoute := route |}
  | None => {| barDeviceID := deviceID; barAccepted := false; barRecord := None; barNonce := []; barRoute := EmptyString |}
  end.

Definition activationArgs (h : handle) (resolve : PairingResolver) : option RunBackendActivationArgs :=
  Some {| baRef := RefOf true; baStream := Some h; baResolveFn := Some resolve; baSkipPrimaryHeader := false |}.

Section Exchange.
Context {T T' : Type} `{!GoTransport T, !GoTransport T'} (h h' : handle) (at_ : T -> duplex -> Prop) (at_' : T' -> duplex -> Prop).
Context `{!Framed T h at_, !Framed T' h' at_'}.

Lemma client_side deviceID route nonce (known : bool) t w rest :
  deviceID <> EmptyString -> noNul deviceID -> noNul route -> slen deviceID <= 128 -> slen route <= 128 -> len nonce = 16 ->
  at_ t w -> inp w = frame (auth_reply known) ++ rest ->
  exists t1, RunClientActivation (RefOf true) (Some h) deviceID route nonce t =
      (t1, if known then Ok nonce else Err (ENew "cwire: pigeon_run_client_activation failed (rejected or wire error)")) /\
    at_ t1 {| out := out w ++ frame (auth_request (str_bytes deviceID) nonce (str_bytes route)); inp := rest |}.
Proof.
  intros Hne Hd Hr Hdl Hrl Hn Ht Hi. unfold RunClientActivation. cbn [refOpen negb].
  rewrite bool_decide_eq_false_2 by done. rewrite !CString_id by done.
  pose proof (auth_reply_ok known) as (_ & _ & Hal). unfold PIGEON_AUTH_MAX_PAYLOAD in Hal.
  pose proof (interp_talk h at_ (fun _ => false) (fun _ => None) _ 1 t w [auth_reply known] rest
    (client_uses h (str_bytes deviceID) (str_bytes route) nonce) ltac:(done) Ht) as Hx.
  rewrite client_talks in Hx by done. destruct Hx as (t1 & He & Ht1).
  - unfold frames. cbn. by rewrite app_nil_r.
  - constructor; [unfold MaxMessageSize; lia | constructor].
  - constructor; [| constructor].
    pose proof (len_auth_request (str_bytes deviceID) nonce (str_bytes route) Hdl Hn Hrl). unfold MaxMessageSize. lia.
  - exists t1. rewrite He. split; [by destruct known |]. unfold frames in Ht1. cbn in Ht1. by rewrite app_nil_r in Ht1.
Qed.

Lemma backend_side deviceID route nonce resolve t w rest :
  noNul deviceID -> noNul route -> slen deviceID <= 128 -> slen route <= 128 -> len nonce = 16 ->
  at_' t w -> inp w = frame (auth_request (str_bytes deviceID) nonce (str_bytes route)) ++ rest ->
  exists t1, RunBackendActivation (activationArgs h' resolve) t = (t1, Ok (activationResult deviceID route nonce (resolve deviceID))) /\
    at_' t1 {| out := out w ++ frame (auth_reply (bool_decide (is_Some (resolve deviceID)))); inp := rest |}.
Proof.
  intros Hd Hr Hdl Hrl Hn Ht Hi. unfold RunBackendActivation, activationArgs. cbn [baRef baStream baResolveFn baSkipPrimaryHeader refOpen negb].
  pose proof (len_auth_request (str_bytes deviceID) nonce (str_bytes route) Hdl Hn Hrl) as Hql.
  pose proof (interp_talk h' at_' (fun _ => false) resolve _ 1 t w [auth_request (str_bytes deviceID) nonce (str_bytes route)] rest
    (backend_uses h') ltac:(done) Ht) as Hx.
  rewrite (backend_talks _ _ _ _ _ _ _ _ (decode_auth_request _ _ _ Hdl Hn Hrl)) in Hx by (unfold PIGEON_AUTH_MAX_PAYLOAD; lia).
  assert (Hres : cwireGoResolve resolve (cstr (str_bytes deviceID)) = recordToC <$> resolve deviceID).
  { unfold cwireGoResolve. rewrite GoString_cstr by done. by destruct (resolve deviceID). }
  rewrite Hres in Hx. destruct Hx as (t1 & He & Ht1).
  - unfold frames. cbn. by rewrite app_nil_r.
  - constructor; [unfold MaxMessageSize; lia | constructor].
  - constructor; [| constructor]. destruct (auth_reply_ok (isKnown (recordToC <$> resolve deviceID))) as (_ & _ & Hal).
    unfold PIGEON_AUTH_MAX_PAYLOAD, MaxMessageSize in *. lia.
  - exists t1. change (maxRoute + 1) with 129. rewrite He. unfold frames in Ht1. cbn in Ht1. rewrite app_nil_r in Ht1.
    unfold backendReport, activationResult. destruct (resolve deviceID) as [rec|]; cbn [fmap option_fmap option_map isKnown] in *.
    + cbn [boRv boDevice boRecord boNonce boRoute Z.eqb fmap option_fmap option_map]. rewrite !(GoString_cstr) by done.
      split; [done |]. by rewrite bool_decide_eq_true_2 by (by eexists).
    + cbn [boRv boDevice Z.eqb]. rewrite GoString_cstr by done.
      split; [done |]. by rewrite bool_decide_eq_false_2 by (by intros [? ?]).
Qed.

(** The two ends of an activation agree.  There are a request and a reply
    such that, over any framed transports, the client writes the request
    and, reading the reply, succeeds with its nonce exactly when the backend's
    resolver knows the device; the backend, reading the request, writes
    the reply and reports the client's own device id, nonce and route,
    accepting the same devices. *)
Theorem activation_agrees (deviceID route : string) (nonce : bytes) (resolve : PairingResolver) :
  deviceID <> EmptyString -> noNul deviceID -> noNul route -> slen deviceID <= 128 -> slen route <= 128 -> len nonce = 16 ->
  exists request reply : bytes,
    (forall t w rest, at_ t w -> inp w = frame reply ++ rest ->
       exists t1 r, RunClientActivation (RefOf true) (Some h) deviceID route nonce t = (t1, r) /\
         (resolve deviceID <> None -> r = Ok nonce) /\ (resolve deviceID = None -> is_ok r = false) /\
         at_ t1 {| out := out w ++ frame request; inp := rest |}) /\
    (forall t w rest, at_' t w -> inp w = frame request ++ rest ->
       exists t1, RunBackendActivation (activationArgs h' resolve) t =
           (t1, Ok (activationResult deviceID route nonce (resolve deviceID))) /\
         at_' t1 {| out := out w ++ frame reply; inp := rest |}).
Proof.
  intros Hne Hd Hr Hdl Hrl Hn.
  exists (auth_request (str_bytes deviceID) nonce (str_bytes route)), (auth_reply (bool_decide (is_Some (resolve deviceID)))).
  split; intros t w rest Ht Hi.
  - destruct (client_side deviceID route nonce _ t w rest Hne Hd Hr Hdl Hrl Hn Ht Hi) as (t1 & He & Ht1).
    eexists t1, _. split; [exact He |]. split_and!; [| | done].
    + intros Hk. rewrite bool_decide_eq_true_2 by (by apply not_eq_None_Some). done.
    + intros ->. by rewrite bool_decide_eq_false_2 by (by intros [? ?]).
  - exact (backend_side deviceID route nonce resolve t w rest Hd Hr Hdl Hrl Hn Ht Hi).
Qed.
End Exchange.

(** ** Whoever the peer is *)

Lemma auth_uvarint_decode_nonneg buf : forall v shift off n m,
  0 <= v -> 0 <= off -> auth_uvarint_decode_loop buf v shift off = Some (n, m) -> 0 <= n /\ 0 <= m.
Proof.
  induction buf as [|b buf IH]; intros v shift off n m Hv Ho; cbn [auth_uvarint_decode_loop]; [done |].
  destruct (64 <=? shift); [done |].
  assert (0 <= Z.lor v (u64 (Z.shiftl (Z.land (b2z b) 127) shift))) as Hl.
  { apply Z.lor_nonneg. split; [done |]. unfold u64. apply Z.mod_pos_bound. lia. }
  destruct (Z.land (b2z b) 128 =? 0); [intros [= <- <-]; lia |]. apply IH; [done | lia].
Qed.

Lemma decoded_nonce payload c1 c2 id nonce route : pigeon_decode_auth_request payload c1 c2 = Some (id, nonce, route) ->
  len nonce = PIGEON_AUTH_NONCE_LEN.
Proof.
  unfold pigeon_decode_auth_request. destruct payload as [|tag p]; [done |]. destruct (negb _); [done |].
  destruct (auth_uvarint_decode (drop 1 (tag :: p))) as [[idl c]|] eqn:Hu; [| done]. cbn [mbind option_bind].
  destruct (auth_uvarint_decode_nonneg _ 0 0 0 _ _ (Z.le_refl 0) (Z.le_refl 0) Hu) as [Hidl Hc].
  destruct (_ <? _); [done |]. destruct (Z.ltb_spec (len (tag :: p)) (1 + c + idl + PIGEON_AUTH_NONCE_LEN)) as [|Hl]; [done |].
  destruct (_ <? _); [done |]. destruct (auth_uvarint_decode (slice_from _ _)) as [[rl c']|]; [| done]. cbn [mbind option_bind].
  destruct (_ <? _); [done |]. destruct (negb _); [done |]. destruct (_ <? _); [done |]. intros [= _ <- _].
  unfold span, len in *. rewrite length_take, length_drop. unfold PIGEON_AUTH_NONCE_LEN in *. lia.
Qed.

Lemma backend_behaves h tr o : behaves (pigeon_run_backend_activation h 129 129) tr (Some o) ->
  exists payload id nonce route record ok,
    tr = [EvRecv h (Some payload); EvResolve (cstr id) record; EvSend h (auth_reply (isKnown record)) ok] /\
    pigeon_decode_auth_request payload 129 129 = Some (id, nonce, route) /\
    o = backendReport id nonce route record /\ (isKnown record = true -> ok = true).
Proof.
  unfold pigeon_run_backend_activation. change (PIGEON_AUTH_MAX_DEVICE_ID + 1) with 129. change (PIGEON_AUTH_MAX_ROUTE + 1) with 129.
  intros Hb. apply behaves_recv in Hb as (got & tr1 & -> & _ & Hb).
  destruct got as [payload|]; cbn [orFail] in Hb; [| by apply behaves_ret in Hb as [_ ?]].
  destruct (pigeon_decode_auth_request payload 129 129) as [[[id nonce] route]|] eqn:Hd; cbn [orFail] in Hb;
    [| by apply behaves_ret in Hb as [_ ?]].
  destruct (decoded_lengths _ _ _ _ _ _ Hd) as [Hi Hr]. rewrite (fits_cap route), (fits_cap id) in Hb by done.
  apply behaves_resolve in Hb as (record & tr2 & -> & Hb).
  change (match record with Some _ => true | None => false end) with (isKnown record) in Hb.
  pose proof (backend_machine (isKnown record)) as Hm.
  destruct (handled _) as [m1|]; [| destruct Hm]. destruct Hm as [Hs Hm]. cbn [orFail] in Hb.
  rewrite bool_decide_eq_true_2 in Hb by exact Hs.
  destruct (handled _) as [m2|]; [| destruct Hm]. destruct Hm as [Hs2 _]. cbn [orFail] in Hb.
  destruct auth_reply_encoded as [Ht Hf]. exists payload, id, nonce, route, record.
  destruct record as [rec|]; cbn [isKnown negb backendReport] in *.
  - rewrite Ht in Hb. cbn [orFail] in Hb. apply behaves_send in Hb as (ok & tr3 & -> & Hb). exists ok.
    destruct ok; [| by apply behaves_ret in Hb as [_ ?]]. rewrite bool_decide_eq_true_2 in Hb by exact Hs2.
    apply behaves_ret in Hb as [-> [= <-]]. done.
  - rewrite Hf in Hb. apply behaves_send in Hb as (ok & tr3 & -> & Hb). exists ok.
    apply behaves_ret in Hb as [-> [= <-]]. done.
Qed.

(** Whoever is at the other end, the backend accepts only devices its
    resolver knows: it reads one message, asks the resolver once, for the device
    the message names, and answers once; the device it reports is the one it
    asked about, accepted exactly if the resolver returned a record, and an
    accepted session has the message's 16-byte nonce and got its answer. *)
Lemma backend_run {T} `{GoTransport T} (h : handle) (resolve : PairingResolver) (t t' : T) (res : BackendActivationResult) :
  RunBackendActivation (activationArgs h resolve) t = (t', Ok res) ->
  exists payload id nonce route record ok,
    observed (fun _ => false) resolve (pigeon_run_backend_activation h 129 129) t =
      [EvRecv h (Some payload); EvResolve (cstr id) record; EvSend h (auth_reply (isKnown record)) ok] /\
    pigeon_decode_auth_request payload 129 129 = Some (id, nonce, route) /\ len nonce = PIGEON_AUTH_NONCE_LEN /\
    barDeviceID res = GoString id /\
    match resolve (barDeviceID res) with
    | Some rec => barAccepted res = true /\ barNonce res = nonce /\ barRecord res = Some (recordFromC (recordToC rec)) /\ ok = true
    | None => barAccepted res = false
    end.
Proof.
  unfold RunBackendActivation, activationArgs. cbn [baRef baStream baResolveFn baSkipPrimaryHeader refOpen negb].
  change (maxRoute + 1) with 129.
  destruct (interp_observed (fun _ => false) resolve (pigeon_run_backend_activation h 129 129) t) as [Hb Ha].
  destruct (interp _ _ _ t) as [t1 [o|]]; [| done]. cbn [snd] in Hb. intros [= <- Hres].
  destruct (backend_behaves h _ o Hb) as (payload & id & nonce & route & record & ok & Htr & Hd & -> & Hok). rewrite Htr in *.
  exists payload, id, nonce, route, record, ok. pose proof (decoded_nonce _ _ _ _ _ _ Hd) as Hn.
  apply Forall_cons in Ha as [_ Ha]. apply Forall_cons in Ha as [Ha _]. cbn [answers] in Ha.
  assert (HG : GoString (cstr id) = GoString id) by (unfold GoString; by rewrite cstr_cstr).
  unfold cwireGoResolve in Ha. rewrite HG in Ha.
  destruct (resolve (GoString id)) as [rec|] eqn:Er; subst record; cbn [isKnown backendReport boRv boDevice Z.eqb] in *;
    injection Hres as <-; cbn [barDeviceID barAccepted barNonce barRecord]; rewrite HG, Er; split_and!; try done.
  by apply Hok.
Qed.

(** A device known to the backend, and one that is not. *)
Definition someDevice : cwRecord :=
  {| cwPeerInstanceID := "phone"; cwLocalPrivKey := key1; cwLocalPubKey := key1; cwPeerPubKey := key2 |}.
Definition onlyPhone : PairingResolver := fun id => if bool_decide (id = "phone"%string) then Some someDevice else None.
Definition primaryOf (i : bytes) : goTransportAdapter duplex := (newGoTransportAdapter {| out := []; inp := i |}).1.

Lemma activation_agrees_witness :
  exists request reply,
    (RunBackendActivation (activationArgs 0%nat onlyPhone) (primaryOf (frame request))).2 =
      Ok (activationResult "phone" "svc" (replicate 16 x07) (Some someDevice)) /\
    (RunClientActivation (RefOf true) (Some 0%nat) "phone" "svc" (replicate 16 x07) (primaryOf (frame reply))).2 =
      Ok (replicate 16 x07).
Proof.
  destruct (activation_agrees 0%nat 0%nat (adapterAt 0%nat) (adapterAt 0%nat) "phone" "svc" (replicate 16 x07) onlyPhone)
    as (request & reply & Hc & Hb);
    [done | apply (bool_decide_unpack _); vm_compute; exact I | apply (bool_decide_unpack _); vm_compute; exact I |
     vm_compute; discriminate | vm_compute; discriminate | reflexivity |].
  exists request, reply. split.
  - destruct (Hb (primaryOf (frame request)) {| out := []; inp := frame request |} []) as (t1 & -> & _);
      [reflexivity | cbn; by rewrite app_nil_r | reflexivity].
  - destruct (Hc (primaryOf (frame reply)) {| out := []; inp := frame reply |} []) as (t1 & r & He & Hr & _);
      [reflexivity | cbn; by rewrite app_nil_r |]. rewrite He. apply Hr. discriminate.
Defined.
