(* ===== verification/Ceremony.v ===== *)
(** * Ceremony: the pairing exchange (c/src/pairing.c, cwire/pairing.go)

    The initiator, who has the acceptor's ephemeral key from the rendezvous token,
    sends a commitment to its own; the acceptor answers with its key; the
    initiator reveals, both show a code derived from the two keys, and after both
    users confirmed it each end has a pairing record.  Here are the messages
    (hand-written JSON and base64 in C), the two C drivers over the machines of
    the ceremony's protocol, and the Go wrappers [RunAcceptor] and
    [RunInitiator]. *)

From Stdlib Require Import ZArith Lia Strings.Byte Strings.String.
From stdpp Require Import base gmap strings list fin_maps.
From S2P Require Import Prelude Binary Text Wire Channel Cwire Machine GoGen CGen PairingGen Generated CMachines Dial Driver Activation.

Open Scope Z_scope.
Open Scope driver_scope.

(** ** Base64 *)

Definition b64_table : bytes := str_bytes "ABCDEFGHIJKLMNOPQRSTUVWXYZabcdefghijklmnopqrstuvwxyz0123456789+/".
Definition b64_at (v : Z) : byte := default x00 (b64_table !! Z.to_nat v).
Definition b64_eq : byte := x3d.

(** The four characters of three bytes. *)
Definition b64_group (b0 b1 b2 : Z) : bytes :=
  [b64_at (Z.land (Z.shiftr b0 2) 0x3F);
   b64_at (Z.lor (Z.shiftl (Z.land b0 0x3) 4) (Z.land (Z.shiftr b1 4) 0xF));
   b64_at (Z.lor (Z.shiftl (Z.land b1 0xF) 2) (Z.land (Z.shiftr b2 6) 0x3));
   b64_at (Z.land b2 0x3F)].

(** [out] characters are written; missing bytes count as 0. *)
Fixpoint b64_encode_loop (src : bytes) (out dst_len : Z) : option bytes :=
  match src with
  | [] => Some []
  | b0 :: src' =>
      if dst_len <=? out + 4 then None else
      match src' with
      | b1 :: b2 :: rest => app (b64_group (b2z b0) (b2z b1) (b2z b2)) <$> b64_encode_loop rest (out + 4) dst_len
      | [b1] => Some (b64_group (b2z b0) (b2z b1) 0)
      | [] => Some (b64_group (b2z b0) 0 0)
      end
  end.

(** The last characters overwritten by padding. *)
Definition b64_pad (n : nat) (s : bytes) : bytes := take (length s - n) s ++ replicate n b64_eq.

Definition b64_encode (src : bytes) (dst_len : Z) : option bytes :=
  s ← b64_encode_loop src 0 dst_len;
  let rem := len src mod 3 in
  Some (if rem =? 1 then b64_pad 2 s else if rem =? 2 then b64_pad 1 s else s).

Definition b64_decode_char (c : byte) : Z :=
  let v := b2z c in
  if (65 <=? v) && (v <=? 90) then v - 65
  else if (97 <=? v) && (v <=? 122) then v - 97 + 26
  else if (48 <=? v) && (v <=? 57) then v - 48 + 52
  else if v =? 43 then 62
  else if v =? 47 then 63
  else -1.

(** Up to three bytes of four values; a value that is missing or not a base64
    character is -1. *)
Definition b64_ungroup (v0 v1 v2 v3 out dst_cap : Z) : option bytes :=
  if (v0 <? 0) || (v1 <? 0) then None else
  let bs := [z2b (Z.lor (Z.shiftl v0 2) (Z.shiftr v1 4))]
            ++ (if 0 <=? v2 then [z2b (Z.lor (Z.shiftl v1 4) (Z.shiftr v2 2))] else [])
            ++ (if 0 <=? v3 then [z2b (Z.lor (Z.shiftl v2 6) v3)] else []) in
  if dst_cap <? out + len bs then None else Some bs.

Fixpoint b64_decode_loop (src : bytes) (out dst_cap : Z) : option bytes :=
  let v := b64_decode_char in
  match src with
  | [] => Some []
  | c0 :: c1 :: c2 :: c3 :: rest =>
      bs ← b64_ungroup (v c0) (v c1) (v c2) (v c3) out dst_cap;
      app bs <$> b64_decode_loop rest (out + len bs) dst_cap
  | [c0; c1; c2] => b64_ungroup (v c0) (v c1) (v c2) (-1) out dst_cap
  | [c0; c1] => b64_ungroup (v c0) (v c1) (-1) (-1) out dst_cap
  | [c0] => b64_ungroup (v c0) (-1) (-1) (-1) out dst_cap
  end.

(** Trailing padding stripped. *)
Fixpoint strip_eq (s : bytes) : bytes :=
  match s with
  | [] => []
  | c :: s => match strip_eq s with
              | [] => if bool_decide (c = b64_eq) then [] else [c]
              | s' => c :: s'
              end
  end.

Definition b64_decode (src : bytes) (dst_cap : Z) : option bytes := b64_decode_loop (strip_eq src) 0 dst_cap.

(** A field of 32 bytes: [b64_decode(s, strlen(s), dst, 32) != 32] fails. *)
Definition b64_decode32 (s : bytes) : option bytes :=
  b ← b64_decode (cstr s) 32; if len b =? 32 then Some b else None.

(** ** JSON *)

Definition quote : byte := x22.
Definition isSpace (c : byte) : bool :=
  bool_decide (c = x20) || bool_decide (c = x09) || bool_decide (c = x0a) || bool_decide (c = x0d).
Fixpoint skip_ws (s : bytes) : bytes :=
  match s with
  | c :: s' => if isSpace c then skip_ws s' else s
  | [] => []
  end.

(** The bytes up to the next quote. *)
Fixpoint until_quote (s : bytes) : bytes :=
  match s with
  | [] => []
  | c :: s => if bool_decide (c = quote) then [] else c :: until_quote s
  end.

(** A field: not there, too long for its buffer (which then has as much of it
    as fits), or its value. *)
Inductive jsonField :=
  | JNone
  | JLong (part : bytes)
  | JValue (v : bytes).

(** The value of a key whose closing quote was just read, if one follows. *)
Definition json_value (s : bytes) (out_cap : Z) : option jsonField :=
  match skip_ws s with
  | c :: s =>
      if negb (bool_decide (c = x3a)) then None else
      match skip_ws s with
      | c :: s =>
          if negb (bool_decide (c = quote)) then None else
          let v := until_quote s in
          Some (if out_cap <=? len v then JLong (slice_to v (out_cap - 1)) else JValue v)
      | [] => None
      end
  | [] => None
  end.

Definition is_prefix (p s : bytes) : bool := bool_decide (take (length p) s = p).

(** [json_find_string_field]: the first occurrence of the quoted key that a value
    follows; [search] is the key in its quotes. *)
Fixpoint json_search (json search : bytes) (out_cap : Z) : jsonField :=
  match json with
  | [] => JNone
  | _ :: rest =>
      if is_prefix search json then
        match json_value (drop (length search) json) out_cap with
        | Some f => f
        | None => json_search rest search out_cap
        end
      else json_search rest search out_cap
  end.
Definition json_find_string_field (json : bytes) (key : string) (out_cap : Z) : jsonField :=
  json_search json (quote :: str_bytes key ++ [quote]) out_cap.

(** [< 0] fails. *)
Definition found (f : jsonField) : option bytes := match f with JValue v => Some v | _ => None end.
(** What is in the caller's buffer, zeroed before. *)
Definition buffer (f : jsonField) : bytes := match f with JNone => [] | JLong v | JValue v => v end.

Definition kindIs (buf : bytes) (kind : string) : bool :=
  match found (json_find_string_field buf "kind" 32) with
  | Some v => bool_decide (cstr v = str_bytes kind)
  | None => false
  end.

(** What the format strings of the builders print: an object of string fields. *)
Definition json_member (f : string * bytes) : bytes :=
  quote :: str_bytes f.1 ++ [quote; x3a; quote] ++ f.2 ++ [quote].
Fixpoint json_members (fs : list (string * bytes)) : bytes :=
  match fs with
  | [] => []
  | [f] => json_member f
  | f :: fs => json_member f ++ [x2c] ++ json_members fs
  end.
Definition json_object (fs : list (string * bytes)) : bytes := [x7b] ++ json_members fs ++ [x7d].

(** [snprintf] into a buffer that must also hold the NUL. *)
Definition snprintf (text : bytes) (buf_cap : Z) : option bytes := if buf_cap <=? len text then None else Some text.

Definition build_hello (commit identity_pub instance_id : bytes) (buf_cap : Z) : option bytes :=
  commit_b64 ← b64_encode commit 64;
  id_b64 ← b64_encode identity_pub 64;
  snprintf (json_object [("kind"%string, str_bytes "hello"); ("commit"%string, commit_b64); ("identity_pub"%string, id_b64);
                         ("instance_id"%string, instance_id)]) buf_cap.
Definition build_welcome (eph_pub identity_pub instance_id : bytes) (buf_cap : Z) : option bytes :=
  eph_b64 ← b64_encode eph_pub 64;
  id_b64 ← b64_encode identity_pub 64;
  snprintf (json_object [("kind"%string, str_bytes "welcome"); ("eph_pub"%string, eph_b64); ("identity_pub"%string, id_b64);
                         ("instance_id"%string, instance_id)]) buf_cap.
Definition build_reveal (eph_pub blind : bytes) (buf_cap : Z) : option bytes :=
  eph_b64 ← b64_encode eph_pub 64;
  blind_b64 ← b64_encode blind 64;
  snprintf (json_object [("kind"%string, str_bytes "reveal"); ("eph_pub"%string, eph_b64); ("blind"%string, blind_b64)]) buf_cap.
Definition build_confirm (buf_cap : Z) : option bytes := snprintf (json_object [("kind"%string, str_bytes "confirm")]) buf_cap.

(** ** Drivers *)

Definition PIGEON_MAX_MSG : Z := 1048576.

(** [buf[got < PIGEON_MAX_MSG ? got : PIGEON_MAX_MSG - 1] = '\0'], seen up to
    [got]: only a message that fills the buffer loses its last byte. *)
Definition terminated (buf : bytes) : bytes :=
  if len buf <? PIGEON_MAX_MSG then buf else slice_to buf (PIGEON_MAX_MSG - 1) ++ [x00].

(** A record as the drivers fill it. *)
Definition outRecord (instance priv pub peer : bytes) : pigeon_pairing_record :=
  {| peer_instance_id := take 63 (cstr instance); local_private_key := priv; local_public_key := pub; peer_public_key := peer |}.

Section Drivers.
Context {P : Primitives} {So : Sodium P}.

Definition pigeon_sas_commit (eph_pub blind : bytes) : bytes := sha256 (str_bytes sasCommitTag ++ eph_pub ++ blind).
Definition pigeon_sas_commit_verify (eph_pub blind commit : bytes) : bool :=
  bool_decide (pigeon_sas_commit eph_pub blind = commit).

Definition acceptorStep (ev : string) (m : AcceptorMachine) : option AcceptorMachine :=
  moved (cCall acceptorSteps noCallbacks ev m).
Definition acceptorMessage (msg : string) (m : AcceptorMachine) : option AcceptorMachine :=
  moved (cCall acceptorMessages noCallbacks msg m).
Definition initiatorStep (ev : string) (m : InitiatorMachine) : option InitiatorMachine :=
  moved (cCall initiatorSteps noCallbacks ev m).
Definition initiatorMessage (msg : string) (m : InitiatorMachine) : option InitiatorMachine :=
  moved (cCall initiatorMessages noCallbacks msg m).

(** The record and the code. *)
Definition pairOut : Type := pigeon_pairing_record * string.

(** The last two messages, alike at both ends: send a confirmation, read the
    peer's, and finish. *)
Definition acceptorConfirms (stream : handle) (m : AcceptorMachine) (out : pairOut) : driver (option pairOut) :=
  let? m := acceptorStep "user_confirm" m in
  let? buf := build_confirm PIGEON_MAX_MSG in
  call! SendE stream buf in
  RecvE stream PIGEON_MAX_MSG (fun got =>
  let? buf := got in
  guard? kindIs (terminated buf) "confirm" in
  let? m := acceptorMessage "confirm_to_acceptor" m in
  Ret (Some out)).

(** From the welcome on: the reveal must open the commitment of the hello. *)
Definition acceptorReveals (stream : handle) (local_eph_priv local_eph_pub peer_commit peer_instance : bytes) (m : AcceptorMachine)
    : driver (option pairOut) :=
  RecvE stream PIGEON_MAX_MSG (fun got =>
  let? buf := got in
  let buf := terminated buf in
  guard? kindIs buf "reveal" in
  let? eph_b64 := found (json_find_string_field buf "eph_pub" 64) in
  let? blind_b64 := found (json_find_string_field buf "blind" 64) in
  let? peer_eph_pub := b64_decode32 eph_b64 in
  let? peer_blind := b64_decode32 blind_b64 in
  guard? pigeon_sas_commit_verify peer_eph_pub peer_blind peer_commit in
  let? m := acceptorMessage "reveal" m in
  let? m := acceptorStep "code_ready" m in
  let? code := pigeon_derive_confirmation_code local_eph_pub peer_eph_pub in
  call! ConfirmE code in
  acceptorConfirms stream m (outRecord peer_instance local_eph_priv local_eph_pub peer_eph_pub, code)).

(** On the accepted stream; the identity key of the hello is decoded and not used. *)
Definition acceptorRuns (stream : handle) (local_eph_priv local_eph_pub identity_pub instance_id : bytes) : driver (option pairOut) :=
  let? m := acceptorStep "pair_begin" NewAcceptorMachine in
  let? m := acceptorStep "ephemeral_ready" m in
  let? m := acceptorStep "relay_registered" m in
  RecvE stream PIGEON_MAX_MSG (fun got =>
  let? buf := got in
  let buf := terminated buf in
  guard? kindIs buf "hello" in
  let? commit_b64 := found (json_find_string_field buf "commit" 64) in
  let? peer_commit := b64_decode32 commit_b64 in
  let peer_instance := buffer (json_find_string_field buf "instance_id" 64) in
  let? m := acceptorMessage "hello" m in
  let? buf := build_welcome local_eph_pub identity_pub instance_id PIGEON_MAX_MSG in
  call! SendE stream buf in
  acceptorReveals stream local_eph_priv local_eph_pub peer_commit peer_instance m).

Definition pigeon_pair_acceptor (local_eph_priv local_eph_pub identity_pub instance_id : bytes) : driver (option pairOut) :=
  AcceptE (fun h => let? stream := h in acceptorRuns stream local_eph_priv local_eph_pub identity_pub instance_id).

Definition initiatorConfirms (stream : handle) (m : InitiatorMachine) (out : pairOut) : driver (option pairOut) :=
  let? m := initiatorStep "user_confirm" m in
  let? buf := build_confirm PIGEON_MAX_MSG in
  call! SendE stream buf in
  RecvE stream PIGEON_MAX_MSG (fun got =>
  let? buf := got in
  guard? kindIs (terminated buf) "confirm" in
  let? m := initiatorMessage "confirm_to_initiator" m in
  Ret (Some out)).

(** [blind] is what [pigeon_random_bytes] wrote.  The key of the welcome must be
    the token's. *)
Definition initiatorRuns (stream : handle) (local_eph_priv local_eph_pub identity_pub instance_id acc_eph_pub acc_instance blind : bytes)
    : driver (option pairOut) :=
  let? m := initiatorStep "token_received" NewInitiatorMachine in
  let? m := initiatorStep "token_decoded" m in
  let? m := initiatorStep "ephemeral_ready" m in
  let commit := pigeon_sas_commit local_eph_pub blind in
  let? m := initiatorStep "relay_connected" m in
  let? buf := build_hello commit identity_pub instance_id PIGEON_MAX_MSG in
  call! SendE stream buf in
  RecvE stream PIGEON_MAX_MSG (fun got =>
  let? buf := got in
  let buf := terminated buf in
  guard? kindIs buf "welcome" in
  let? eph_b64 := found (json_find_string_field buf "eph_pub" 64) in
  let? peer_eph_pub := b64_decode32 eph_b64 in
  guard? bool_decide (peer_eph_pub = acc_eph_pub) in
  let peer_instance := cstr (buffer (json_find_string_field buf "instance_id" 64)) in
  let? m := initiatorMessage "welcome" m in
  let? buf := build_reveal local_eph_pub blind PIGEON_MAX_MSG in
  call! SendE stream buf in
  let? m := initiatorStep "reveal_sent" m in
  let? m := initiatorStep "code_ready" m in
  let? code := pigeon_derive_confirmation_code acc_eph_pub local_eph_pub in
  call! ConfirmE code in
  initiatorConfirms stream m
    (outRecord (if bool_decide (peer_instance = []) then acc_instance else peer_instance)
       local_eph_priv local_eph_pub acc_eph_pub, code)).

Definition pigeon_pair_initiator (local_eph_priv local_eph_pub identity_pub instance_id acc_eph_pub acc_instance blind : bytes)
    : driver (option pairOut) :=
  OpenE (fun h =>
  let? stream := h in
  initiatorRuns stream local_eph_priv local_eph_pub identity_pub instance_id acc_eph_pub acc_instance blind).

(** ** The Go wrappers *)

Section Wrappers.
Context {T : Type} `{!GoTransport T}.

Record RunAcceptorArgs := {
  raaRef : GoTransportRef;
  raaLocalEphPriv : bytes;
  raaLocalEphPub : bytes;
  raaIdentityPub : bytes;
  raaInstanceID : string;
  raaConfirmFn : option (string -> bool)
}.

Definition RunAcceptor (args : option RunAcceptorArgs) (t : T) : T * result (cwRecord * string) :=
  match args with
  | None => (t, Err (ENew "cwire: RunAcceptor: args is nil"))
  | Some a =>
      if negb (refOpen (raaRef a)) then (t, Err (ENew "cwire: RunAcceptor: nil ref")) else
      if negb (len (raaLocalEphPriv a) =? 32) || negb (len (raaLocalEphPub a) =? 32) || negb (len (raaIdentityPub a) =? 32)
      then (t, Err (ENew "cwire: RunAcceptor: keys must be 32 bytes")) else
      match raaConfirmFn a with
      | None => (t, Err (ENew "cwire: RunAcceptor: ConfirmFn required"))
      | Some confirm =>
          if bool_decide (raaInstanceID a = EmptyString) then (t, Err (ENew "cwire: RunAcceptor: InstanceID required")) else
          let '(t, out) := interp confirm (fun _ => None)
                             (pigeon_pair_acceptor (raaLocalEphPriv a) (raaLocalEphPub a) (raaIdentityPub a)
                                (CString (raaInstanceID a))) t in
          (t, match out with
              | None => Err (ENew "cwire: pigeon_pair_acceptor failed")
              | Some (rec, code) => Ok (recordFromC rec, code)
              end)
      end
  end.

Record RunInitiatorArgs := {
  riaRef : GoTransportRef;
  riaLocalEphPriv : bytes;
  riaLocalEphPub : bytes;
  riaIdentityPub : bytes;
  riaInstanceID : string;
  riaAccEphPub : bytes;
  riaAccInstance : string;
  riaConfirmFn : option (string -> bool)
}.

Definition RunInitiator (args : option RunInitiatorArgs) (blind : bytes) (t : T) : T * result (cwRecord * string) :=
  match args with
  | None => (t, Err (ENew "cwire: RunInitiator: args is nil"))
  | Some a =>
      if negb (refOpen (riaRef a)) then (t, Err (ENew "cwire: RunInitiator: nil ref")) else
      if negb (len (riaLocalEphPriv a) =? 32) || negb (len (riaLocalEphPub a) =? 32) || negb (len (riaIdentityPub a) =? 32)
         || negb (len (riaAccEphPub a) =? 32)
      then (t, Err (ENew "cwire: RunInitiator: keys must be 32 bytes")) else
      match riaConfirmFn a with
      | None => (t, Err (ENew "cwire: RunInitiator: ConfirmFn required"))
      | Some confirm =>
          if bool_decide (riaInstanceID a = EmptyString) || bool_decide (riaAccInstance a = EmptyString)
          then (t, Err (ENew "cwire: RunInitiator: InstanceIDs required")) else
          let '(t, out) := interp confirm (fun _ => None)
                             (pigeon_pair_initiator (riaLocalEphPriv a) (riaLocalEphPub a) (riaIdentityPub a)
                                (CString (riaInstanceID a)) (riaAccEphPub a) (CString (riaAccInstance a)) blind) t in
          (t, match out with
              | None => Err (ENew "cwire: pigeon_pair_initiator failed")
              | Some (rec, code) => Ok (recordFromC rec, code)
              end)
      end
  end.
End Wrappers.
End Drivers.

(** ** Lemmas: base64 *)

Lemma b64_at_table : forallb (fun i => let c := b64_at (Z.of_nat i) in
    (b64_decode_char c =? Z.of_nat i) && negb (bool_decide (c = b64_eq)) && negb (bool_decide (c = quote))
    && negb (bool_decide (c = x00))) (seq 0 64) = true.
Proof. vm_compute. reflexivity. Qed.

Lemma b64_at_char v : 0 <= v < 64 ->
  b64_decode_char (b64_at v) = v /\ b64_at v <> b64_eq /\ b64_at v <> quote /\ b64_at v <> x00.
Proof.
  intros Hv. pose proof b64_at_table as Ht. rewrite forallb_forall in Ht.
  specialize (Ht (Z.to_nat v)). rewrite in_seq, Z2Nat.id in Ht by lia. specialize (Ht ltac:(lia)). cbn zeta in Ht.
  rewrite !andb_true_iff, !negb_true_iff, !bool_decide_eq_false in Ht. destruct Ht as [[[He%Z.eqb_eq H1] H2] H3]. done.
Qed.

(** The values of a group, as numbers. *)
Lemma b64_fields b0 b1 b2 : 0 <= b0 < 256 -> 0 <= b1 < 256 -> 0 <= b2 < 256 ->
  b64_group b0 b1 b2 = map b64_at [b0 / 4; b0 mod 4 * 16 + b1 / 16; b1 mod 16 * 4 + b2 / 64; b2 mod 64] /\
  Forall (fun v => 0 <= v < 64) [b0 / 4; b0 mod 4 * 16 + b1 / 16; b1 mod 16 * 4 + b2 / 64; b2 mod 64].
Proof.
  intros H0 H1 H2. split; [| repeat constructor; Z.div_mod_to_equations; lia].
  unfold b64_group. change 0x3F with (Z.ones 6). change 0x3 with (Z.ones 2). change 0xF with (Z.ones 4).
  rewrite !Z.land_ones, !Z.shiftr_div_pow2 by lia. cbn [map].
  change (2 ^ 2) with 4. change (2 ^ 4) with 16. change (2 ^ 6) with 64.
  rewrite !lor_field by (Z.div_mod_to_equations; lia). change (2 ^ 4) with 16. change (2 ^ 2) with 4.
  rewrite (Z.mod_small (b0 / 4)), (Z.mod_small (b1 / 16)), (Z.mod_small (b2 / 64)) by (Z.div_mod_to_equations; lia). done.
Qed.

Lemma b64_ungroup_fields b0 b1 b2 out cap : 0 <= b0 < 256 -> 0 <= b1 < 256 -> 0 <= b2 < 256 ->
  let v0 := b0 / 4 in let v1 := b0 mod 4 * 16 + b1 / 16 in let v2 := b1 mod 16 * 4 + b2 / 64 in let v3 := b2 mod 64 in
  (out + 3 <= cap -> b64_ungroup v0 v1 v2 v3 out cap = Some [z2b b0; z2b b1; z2b b2]) /\
  (out + 2 <= cap -> b64_ungroup v0 v1 v2 (-1) out cap = Some [z2b b0; z2b b1]) /\
  (out + 1 <= cap -> b64_ungroup v0 v1 (-1) (-1) out cap = Some [z2b b0]).
Proof.
  intros H0 H1 H2 v0 v1 v2 v3.
  assert (Hv : (0 <= v0 /\ 0 <= v1 < 64) /\ 0 <= v2 < 64 /\ 0 <= v3 < 64) by (unfold v0, v1, v2, v3; Z.div_mod_to_equations; lia).
  destruct Hv as [[Hv0 Hv1] [Hv2 Hv3]]. unfold b64_ungroup.
  rewrite (proj2 (Z.ltb_ge v0 0)), (proj2 (Z.ltb_ge v1 0)) by lia. cbn [orb].
  rewrite (proj2 (Z.leb_le 0 v2)), (proj2 (Z.leb_le 0 v3)) by lia. change (0 <=? -1) with false. cbn [app].
  assert (E0 : z2b (Z.lor (Z.shiftl v0 2) (Z.shiftr v1 4)) = z2b b0).
  { rewrite Z.shiftr_div_pow2, lor_field by (rewrite ?Z.shiftr_div_pow2; unfold v1; Z.div_mod_to_equations; lia).
    f_equal. unfold v0, v1. change (2 ^ 4) with 16. change (2 ^ 2) with 4. Z.div_mod_to_equations. lia. }
  assert (E1 : z2b (Z.lor (Z.shiftl v1 4) (Z.shiftr v2 2)) = z2b b1).
  { rewrite Z.shiftr_div_pow2, lor_field by (rewrite ?Z.shiftr_div_pow2; unfold v2; Z.div_mod_to_equations; lia).
    apply b2z_inj. rewrite !b2z_z2b. unfold v1, v2. change (2 ^ 4) with 16. change (2 ^ 2) with 4. Z.div_mod_to_equations. lia. }
  assert (E2 : z2b (Z.lor (Z.shiftl v2 6) v3) = z2b b2).
  { rewrite lor_field by lia. apply b2z_inj. rewrite !b2z_z2b. unfold v2, v3. change (2 ^ 6) with 64. Z.div_mod_to_equations. lia. }
  rewrite E0, E1, E2. split_and!; intros Hc; by rewrite (proj2 (Z.ltb_ge _ _)) by (unfold len; cbn [length]; lia).
Qed.

Definition b64_ok (c : byte) : Prop := c <> b64_eq /\ c <> quote /\ c <> x00.

(** How many characters padding overwrites. *)
Definition padding (src : bytes) : nat := match (length src mod 3)%nat with 1%nat => 2 | 2%nat => 1 | _ => 0 end.

Lemma padding_step a b c rest : padding (a :: b :: c :: rest) = padding rest.
Proof.
  unfold padding. cbn [length]. replace (S (S (S (length rest)))) with (length rest + 1 * 3)%nat by lia.
  by rewrite Nat.Div0.mod_add.
Qed.

Lemma b64_group_ok b0 b1 b2 : Forall b64_ok (b64_group (b2z b0) (b2z b1) (b2z b2)).
Proof.
  destruct (b64_fields (b2z b0) (b2z b1) (b2z b2)) as [-> Hv]; [apply b2z_range.. |].
  apply Forall_map. eapply Forall_impl; [exact Hv |]. intros v Hr. by destruct (b64_at_char v Hr) as (_ & ?).
Qed.

(** Reading a group back: two characters of one byte, three of two, all four. *)
Lemma b64_read (a b c : byte) o cap (rest : bytes) :
  (o + 1 <= cap -> b64_decode_loop (take 2 (b64_group (b2z a) 0 0)) o cap = Some [a]) /\
  (o + 2 <= cap -> b64_decode_loop (take 3 (b64_group (b2z a) (b2z b) 0)) o cap = Some [a; b]) /\
  (o + 3 <= cap -> b64_decode_loop (b64_group (b2z a) (b2z b) (b2z c) ++ rest) o cap
                   = app [a; b; c] <$> b64_decode_loop rest (o + 3) cap).
Proof.
  assert (Hg : forall x y z, 0 <= x < 256 -> 0 <= y < 256 -> 0 <= z < 256 ->
    map b64_decode_char (b64_group x y z) = [x / 4; x mod 4 * 16 + y / 16; y mod 16 * 4 + z / 64; z mod 64]).
  { intros x y z Hx Hy Hz. destruct (b64_fields x y z Hx Hy Hz) as [-> Hv]. rewrite map_map.
    transitivity (map id [x / 4; x mod 4 * 16 + y / 16; y mod 16 * 4 + z / 64; z mod 64]); [| by rewrite map_id].
    apply map_ext_in. intros v Hin. rewrite Forall_forall in Hv. apply b64_at_char, Hv. by apply list_elem_of_In. }
  pose proof (b2z_range a) as Ra. pose proof (b2z_range b) as Rb. pose proof (b2z_range c) as Rc.
  split_and!; intros Ho; unfold b64_group in *; cbn [take app b64_decode_loop].
  - specialize (Hg (b2z a) 0 0 Ra ltac:(lia) ltac:(lia)). cbn [map] in Hg. injection Hg as -> ->.
    destruct (b64_ungroup_fields (b2z a) 0 0 o cap) as (_ & _ & Hu); [done | lia | lia |]. rewrite Hu by done. by rewrite z2b_b2z.
  - specialize (Hg (b2z a) (b2z b) 0 Ra Rb ltac:(lia)). cbn [map] in Hg. injection Hg as -> -> ->.
    destruct (b64_ungroup_fields (b2z a) (b2z b) 0 o cap) as (_ & Hu & _); [done | done | lia |]. rewrite Hu by done. by rewrite !z2b_b2z.
  - specialize (Hg (b2z a) (b2z b) (b2z c) Ra Rb Rc). cbn [map] in Hg. injection Hg as -> -> -> ->.
    destruct (b64_ungroup_fields (b2z a) (b2z b) (b2z c) o cap Ra Rb Rc) as (Hu & _ & _). rewrite Hu by done.
    cbn [mbind option_bind]. by rewrite !z2b_b2z.
Qed.

(** Encoding a string and reading its unpadded characters back. *)
Lemma b64_encode_loop_ok n : forall src out dst_len, (length src <= n)%nat -> out + 4 * ((len src + 2) / 3) < dst_len ->
  exists s, b64_encode_loop src out dst_len = Some s /\ len s = 4 * ((len src + 2) / 3) /\ Forall b64_ok s /\
    (padding src <= length s)%nat /\
    forall o cap, o + len src <= cap -> b64_decode_loop (take (length s - padding src) s) o cap = Some src.
Proof.
  induction n as [|n IH]; intros src out dst_len Hn Hd; destruct src as [|a [|b [|c rest]]]; cbn [length] in Hn; try lia;
    try (exists []; by split_and!); cbn [b64_encode_loop].
  - change ((len [a] + 2) / 3) with 1 in *. rewrite (proj2 (Z.leb_gt _ _)) by lia.
    eexists. split_and!; [done | done | apply (b64_group_ok a x00 x00) | cbn; lia |].
    intros o cap Ho. by apply (b64_read a a a o cap []).
  - change ((len [a; b] + 2) / 3) with 1 in *. rewrite (proj2 (Z.leb_gt _ _)) by lia.
    eexists. split_and!; [done | done | apply (b64_group_ok a b x00) | cbn; lia |].
    intros o cap Ho. by apply (b64_read a b a o cap []).
  - assert (Hq : (len (a :: b :: c :: rest) + 2) / 3 = 1 + (len rest + 2) / 3).
    { replace (len (a :: b :: c :: rest) + 2) with (1 * 3 + (len rest + 2)) by lens. by rewrite Z.div_add_l by lia. }
    rewrite Hq in *. pose proof (len_nonneg rest). assert (0 <= (len rest + 2) / 3) by (apply Z.div_pos; lia).
    rewrite (proj2 (Z.leb_gt _ _)) by lia.
    destruct (IH rest (out + 4) dst_len) as (s & -> & Hs & Hok & Hpad & Hdec); [lia | lia |].
    set (g := b64_group (b2z a) (b2z b) (b2z c)). assert (length g = 4%nat) as Hg by done.
    exists (g ++ s). rewrite padding_step. split_and!; [done | | | |].
    + rewrite len_app, Hs. change (len g) with 4. lia.
    + apply Forall_app. split; [apply b64_group_ok | done].
    + rewrite length_app. lia.
    + intros o cap Ho. replace (len (a :: b :: c :: rest)) with (3 + len rest) in Ho by lens.
      rewrite length_app, Hg, take_app_ge by lia. rewrite Hg. replace (4 + length s - padding rest - 4)%nat with (length s - padding rest)%nat by lia.
      unfold g. rewrite (proj2 (proj2 (b64_read a b c o cap _))) by lia. by rewrite Hdec by lia.
Qed.

Lemma strip_eq_id s : Forall b64_ok s -> forall n, strip_eq (s ++ replicate n b64_eq) = s.
Proof.
  intros Hs n. induction Hs as [|c s [Hc _] _ IH].
  - cbn [app]. induction n as [|n IH]; [done |]. cbn [replicate strip_eq]. by rewrite IH, bool_decide_eq_true_2.
  - cbn [app strip_eq]. rewrite IH. destruct s; [by rewrite bool_decide_eq_false_2 | done].
Qed.

(** Nothing that ends a string, in JSON or in C. *)
Definition plain (b : bytes) : Prop := (quote ∉ b) /\ (x00 ∉ b).

Lemma b64_ok_plain s n : Forall b64_ok s -> plain (s ++ replicate n b64_eq).
Proof.
  intros Hs. rewrite Forall_forall in Hs.
  split; rewrite elem_of_app, elem_of_replicate; intros [Hin|[Hb _]]; try discriminate Hb;
    destruct (Hs _ Hin) as (_ & ? & ?); done.
Qed.

(** Keys and blinds survive: 44 characters, none of them special, that decode
    to the 32 bytes. *)
Lemma b64_roundtrip32 src : len src = 32 ->
  exists s, b64_encode src 64 = Some s /\ b64_decode32 s = Some src /\ plain s /\ len s = 44.
Proof.
  intros Hl. destruct (b64_encode_loop_ok (length src) src 0 64) as (s & He & Hs & Hok & _ & Hd); [lia | by rewrite Hl |].
  rewrite Hl in Hs. change (4 * ((32 + 2) / 3)) with 44 in Hs.
  assert (padding src = 1%nat) as Hp by (unfold padding; unfold len in Hl; by replace (length src) with 32%nat by lia).
  rewrite Hp in Hd. exists (b64_pad 1 s). unfold b64_encode. rewrite He. cbn [mbind option_bind]. rewrite Hl.
  assert (Forall b64_ok (take (length s - 1) s)) as Hok' by (by apply Forall_take).
  assert (plain (b64_pad 1 s)) as Hpl by (by apply b64_ok_plain). split; [done |]. split; [| split; [done |]].
  - unfold b64_decode32, b64_decode. rewrite cstr_id by apply Hpl. unfold b64_pad. rewrite strip_eq_id by done.
    rewrite Hd by lia. cbn [mbind option_bind]. by rewrite Hl.
  - unfold b64_pad, len in *. rewrite length_app, length_take, length_replicate. lia.
Qed.

(** ** Lemmas: JSON *)

Lemma until_quote_app k rest : quote ∉ k -> until_quote (k ++ quote :: rest) = k.
Proof.
  induction k as [|c k IH]; intros Hk; cbn [app until_quote]; [by rewrite bool_decide_eq_true_2 |].
  apply not_elem_of_cons in Hk as [Hc Hk]. by rewrite bool_decide_eq_false_2, IH by congruence.
Qed.

Section Search.
Context (k : bytes) (cap : Z) (Hk : quote ∉ k) (Hcolon : k <> [x3a]) (Hcomma : k <> [x2c]).
Abbreviation search s := (json_search s (quote :: k ++ [quote]) cap).

Lemma key_text (rest : bytes) : k ++ quote :: rest = (k ++ [quote]) ++ rest.
Proof. by rewrite <-app_assoc. Qed.

(** Text without quotes is passed over. *)
Lemma search_skip pre rest : quote ∉ pre -> search (pre ++ rest) = search rest.
Proof.
  induction pre as [|c pre IH]; intros Hp; [done |]. apply not_elem_of_cons in Hp as [Hc Hp]. cbn [app json_search].
  assert (is_prefix (quote :: k ++ [quote]) (c :: pre ++ rest) = false) as ->; [| by apply IH].
  apply bool_decide_eq_false_2. intros He. cbn [length take] in He. by injection He as ->.
Qed.

Lemma prefix_token tok rest : quote ∉ tok -> is_prefix (quote :: k ++ [quote]) (quote :: tok ++ quote :: rest) = bool_decide (tok = k).
Proof.
  intros Ht. unfold is_prefix. apply bool_decide_ext. cbn [length take]. split.
  - intros [= He]. rewrite <-(until_quote_app tok rest Ht).
    rewrite <-(take_drop (length (k ++ [quote])) (tok ++ quote :: rest)), He, <-app_assoc. cbn [app]. by apply until_quote_app.
  - intros ->. f_equal. by rewrite (key_text rest), take_app_length.
Qed.

(** So is a quoted token that is not the key, or that no colon follows. *)
Lemma search_miss tok rest : quote ∉ tok -> tok <> k -> search (quote :: tok ++ quote :: rest) = search (quote :: rest).
Proof.
  intros Ht Hne. cbn [json_search]. rewrite prefix_token, bool_decide_eq_false_2 by done. by rewrite search_skip.
Qed.

Lemma search_value tok c rest : quote ∉ tok -> isSpace c = false -> c <> x3a ->
  search (quote :: tok ++ quote :: c :: rest) = search (quote :: c :: rest).
Proof.
  intros Ht Hs Hc. destruct (decide (tok = k)) as [->|Hne]; [| by apply search_miss].
  cbn [json_search]. rewrite prefix_token, bool_decide_eq_true_2 by done.
  assert (drop (length (quote :: k ++ [quote])) (quote :: k ++ quote :: c :: rest) = c :: rest) as ->.
  { cbn [length drop]. by rewrite (key_text (c :: rest)), drop_app_length. }
  unfold json_value. cbn [skip_ws]. rewrite Hs, bool_decide_eq_false_2 by done. cbn [negb]. by rewrite search_skip.
Qed.

Lemma search_hit v rest : quote ∉ v ->
  search (quote :: k ++ quote :: x3a :: quote :: v ++ quote :: rest) =
    if cap <=? len v then JLong (slice_to v (cap - 1)) else JValue v.
Proof.
  intros Hv. cbn [json_search]. rewrite prefix_token, bool_decide_eq_true_2 by done.
  set (r := x3a :: quote :: v ++ quote :: rest).
  assert (drop (length (quote :: k ++ [quote])) (quote :: k ++ quote :: r) = r) as ->.
  { cbn [length drop]. by rewrite (key_text r), drop_app_length. }
  unfold json_value, r. change (skip_ws (x3a :: quote :: v ++ quote :: rest)) with (x3a :: quote :: v ++ quote :: rest).
  cbn [negb]. rewrite bool_decide_eq_true_2 by done. cbn [negb].
  change (skip_ws (quote :: v ++ quote :: rest)) with (quote :: v ++ quote :: rest). cbv iota beta.
  rewrite bool_decide_eq_true_2 by done. cbn [negb]. by rewrite until_quote_app.
Qed.

Lemma json_members_cons f fs : fs <> [] -> json_members (f :: fs) = json_member f ++ [x2c] ++ json_members fs.
Proof. by destruct fs. Qed.

Lemma json_members_head fs : fs <> [] -> exists t, json_members fs = quote :: t.
Proof. destruct fs as [|f [|g fs]]; [done | |]; intros _; by eexists. Qed.

(** The first field with the key is found, past any others. *)
Lemma search_members pre v post tail :
  Forall (fun f => (quote ∉ str_bytes f.1) /\ str_bytes f.1 <> k /\ quote ∉ f.2) pre -> quote ∉ v ->
  forall key, str_bytes key = k ->
  search (json_members (pre ++ (key, v) :: post) ++ tail) = if cap <=? len v then JLong (slice_to v (cap - 1)) else JValue v.
Proof.
  intros Hpre Hv key Hkey. induction Hpre as [|[key' v'] pre (Hq & Hne & Hv') Hpre IH]; cbn [app].
  - assert (exists t, json_members ((key, v) :: post) ++ tail = quote :: k ++ quote :: x3a :: quote :: v ++ quote :: t) as [t ->].
    { destruct post as [|g post]; unfold json_members; fold json_members; unfold json_member; cbn [fst snd];
        rewrite Hkey; eexists; cbn [app]; rewrite <-?app_assoc; cbn [app]; rewrite <-?app_assoc; reflexivity. }
    by apply search_hit.
  - rewrite json_members_cons by (by destruct pre).
    destruct (json_members_head (pre ++ (key, v) :: post)) as [t Ht]; [by destruct pre |]. rewrite Ht in *.
    assert ((json_member (key', v') ++ [x2c] ++ quote :: t) ++ tail =
            quote :: str_bytes key' ++ quote :: [x3a] ++ quote :: v' ++ quote :: x2c :: quote :: t ++ tail) as ->.
    { unfold json_member. cbn [fst snd app]. rewrite <-?app_assoc. cbn [app]. by rewrite <-?app_assoc. }
    cbn [fst snd] in *. rewrite search_miss by done. rewrite search_miss; [| by apply not_elem_of_cons; split; [done | apply not_elem_of_nil] | done].
    rewrite search_value by done. change (quote :: x2c :: quote :: t ++ tail) with (quote :: [x2c] ++ quote :: t ++ tail).
    rewrite search_miss; [exact IH | | done].
    apply not_elem_of_cons. split; [done | apply not_elem_of_nil].
Qed.
End Search.

(** A field of an object, looked up by its key. *)
Lemma json_find_object key v pre post cap :
  quote ∉ str_bytes key -> str_bytes key <> [x3a] -> str_bytes key <> [x2c] ->
  Forall (fun f => (quote ∉ str_bytes f.1) /\ str_bytes f.1 <> str_bytes key /\ quote ∉ f.2) pre -> quote ∉ v -> len v < cap ->
  json_find_string_field (json_object (pre ++ (key, v) :: post)) key cap = JValue v.
Proof.
  intros Hk H1 H2 Hpre Hv Hl. unfold json_find_string_field, json_object.
  rewrite (search_skip _ _ [x7b]); [| apply not_elem_of_cons; split; [done | apply not_elem_of_nil]].
  rewrite search_members; [| done | done | done | done | done | done]. by rewrite (proj2 (Z.leb_gt _ _)).
Qed.

(** ** Lemmas: the messages *)

(** A message of the ceremony: an object of its kind. *)
Definition message (kind : string) (fs : list (string * bytes)) : bytes := json_object (("kind"%string, str_bytes kind) :: fs).

Ltac by_dec := apply (bool_decide_unpack _); vm_compute; exact I.

(** [json_find_object] for a closed key, the fields before it and the value. *)
Ltac find_field key v pre post :=
  let H := fresh "H" in
  assert (H : json_find_string_field (json_object (pre ++ (key, v) :: post)) key 64 = JValue v)
    by (apply json_find_object;
        [ by_dec | by_dec | by_dec
        | repeat (constructor; [split; [by_dec | split; [by_dec | (assumption || by_dec)]] |]); constructor
        | (assumption || by_dec) | lia ]);
  first [exact (f_equal found H) | exact (f_equal buffer H)].

Lemma terminated_short m : len m < PIGEON_MAX_MSG -> terminated m = m.
Proof. intros Hm. unfold terminated. by rewrite (proj2 (Z.ltb_lt _ _)). Qed.

Lemma kindIs_object kind post : quote ∉ str_bytes kind -> x00 ∉ str_bytes kind -> slen kind < 32 ->
  kindIs (json_object (("kind"%string, str_bytes kind) :: post)) kind = true.
Proof.
  intros Hq H0 Hl. unfold kindIs.
  assert (json_find_string_field (json_object ([] ++ ("kind"%string, str_bytes kind) :: post)) "kind" 32 = JValue (str_bytes kind)) as H
    by (apply json_find_object; [by_dec | by_dec | by_dec | constructor | done | exact Hl]).
  cbn [app] in H. rewrite H. cbn [found]. rewrite cstr_id by done. by apply bool_decide_eq_true_2.
Qed.

Lemma snprintf_fits text cap : len text < cap -> snprintf text cap = Some text.
Proof. intros H. unfold snprintf. by rewrite (proj2 (Z.leb_gt _ _)). Qed.

(** The length of an object of at most four short fields. *)
Lemma len_json_object fs : (length fs <= 4)%nat -> Forall (fun f => slen f.1 <= 12 /\ len f.2 <= 63) fs -> len (json_object fs) <= 400.
Proof.
  intros Hn Hf. unfold json_object. assert (len (json_members fs) <= 90 * Z.of_nat (length fs)) as Hm; [| lens].
  clear Hn. induction Hf as [|f fs [H1 H2] Hf IH]; [done |].
  assert (len (json_member f) <= 80).
  { unfold json_member, slen, len in *. cbn [length app]. repeat (rewrite length_app; cbn [length]). lia. }
  destruct fs as [|g fs]; [cbn [json_members length]; lia |].
  rewrite json_members_cons by done. cbn [length] in *. rewrite !len_app. change (len [x2c]) with 1. lia.
Qed.

Lemma message_ok kind fs : (length fs <= 3)%nat -> Forall (fun f => slen f.1 <= 12 /\ len f.2 <= 63) fs ->
  quote ∉ str_bytes kind -> x00 ∉ str_bytes kind -> slen kind < 32 ->
  snprintf (message kind fs) PIGEON_MAX_MSG = Some (message kind fs) /\ len (message kind fs) <= 400 /\
  terminated (message kind fs) = message kind fs /\ kindIs (message kind fs) kind = true.
Proof.
  intros Hn Hf Hq H0 Hl. assert (len (message kind fs) <= 400) as Hm.
  { apply len_json_object; [cbn [length]; lia |]. constructor; [| done]. unfold slen in *. cbn [fst snd].
    split; [vm_compute; discriminate | lia]. }
  split_and!; [apply snprintf_fits; unfold PIGEON_MAX_MSG; lia | done | apply terminated_short; unfold PIGEON_MAX_MSG; lia |].
  by apply kindIs_object.
Qed.

Section Messages.
Context (a b inst : bytes) (Ha : len a = 32) (Hb : len b = 32) (Hq : quote ∉ inst) (H0 : x00 ∉ inst) (Hi : len inst <= 63).

Lemma hello_ok : exists m f, build_hello a b inst PIGEON_MAX_MSG = Some m /\ len m <= 400 /\ terminated m = m /\
  kindIs m "hello" = true /\ found (json_find_string_field m "commit" 64) = Some f /\ b64_decode32 f = Some a /\
  buffer (json_find_string_field m "instance_id" 64) = inst.
Proof.
  destruct (b64_roundtrip32 a Ha) as (sa & Ea & Da & [Qa _] & La). destruct (b64_roundtrip32 b Hb) as (sb & Eb & _ & [Qb _] & Lb).
  set (fs := [("commit"%string, sa); ("identity_pub"%string, sb); ("instance_id"%string, inst)]).
  destruct (message_ok "hello" fs) as (Hs & Hl & Ht & Hk); [done | | by_dec | by_dec | done |].
  { unfold fs. repeat (constructor; [cbn [fst snd]; split; [vm_compute; discriminate | lia] |]). constructor. }
  exists (message "hello" fs), sa. unfold build_hello. rewrite Ea, Eb. cbn [mbind option_bind]. split_and!; try done.
  - find_field "commit"%string sa [("kind"%string, str_bytes "hello")] [("identity_pub"%string, sb); ("instance_id"%string, inst)].
  - find_field "instance_id"%string inst [("kind"%string, str_bytes "hello"); ("commit"%string, sa); ("identity_pub"%string, sb)]
      (@nil (string * bytes)).
Qed.

Lemma welcome_ok : exists m f, build_welcome a b inst PIGEON_MAX_MSG = Some m /\ len m <= 400 /\ terminated m = m /\
  kindIs m "welcome" = true /\ found (json_find_string_field m "eph_pub" 64) = Some f /\ b64_decode32 f = Some a /\
  buffer (json_find_string_field m "instance_id" 64) = inst.
Proof.
  destruct (b64_roundtrip32 a Ha) as (sa & Ea & Da & [Qa _] & La). destruct (b64_roundtrip32 b Hb) as (sb & Eb & _ & [Qb _] & Lb).
  set (fs := [("eph_pub"%string, sa); ("identity_pub"%string, sb); ("instance_id"%string, inst)]).
  destruct (message_ok "welcome" fs) as (Hs & Hl & Ht & Hk); [done | | by_dec | by_dec | done |].
  { unfold fs. repeat (constructor; [cbn [fst snd]; split; [vm_compute; discriminate | lia] |]). constructor. }
  exists (message "welcome" fs), sa. unfold build_welcome. rewrite Ea, Eb. cbn [mbind option_bind]. split_and!; try done.
  - find_field "eph_pub"%string sa [("kind"%string, str_bytes "welcome")] [("identity_pub"%string, sb); ("instance_id"%string, inst)].
  - find_field "instance_id"%string inst [("kind"%string, str_bytes "welcome"); ("eph_pub"%string, sa); ("identity_pub"%string, sb)]
      (@nil (string * bytes)).
Qed.

Lemma reveal_ok : exists m f g, build_reveal a b PIGEON_MAX_MSG = Some m /\ len m <= 400 /\ terminated m = m /\
  kindIs m "reveal" = true /\ found (json_find_string_field m "eph_pub" 64) = Some f /\ b64_decode32 f = Some a /\
  found (json_find_string_field m "blind" 64) = Some g /\ b64_decode32 g = Some b.
Proof.
  destruct (b64_roundtrip32 a Ha) as (sa & Ea & Da & [Qa _] & La). destruct (b64_roundtrip32 b Hb) as (sb & Eb & Db & [Qb _] & Lb).
  set (fs := [("eph_pub"%string, sa); ("blind"%string, sb)]).
  destruct (message_ok "reveal" fs) as (Hs & Hl & Ht & Hk); [cbn; lia | | by_dec | by_dec | done |].
  { unfold fs. repeat (constructor; [cbn [fst snd]; split; [vm_compute; discriminate | lia] |]). constructor. }
  exists (message "reveal" fs), sa, sb. unfold build_reveal. rewrite Ea, Eb. cbn [mbind option_bind]. split_and!; try done.
  - find_field "eph_pub"%string sa [("kind"%string, str_bytes "reveal")] [("blind"%string, sb)].
  - find_field "blind"%string sb [("kind"%string, str_bytes "reveal"); ("eph_pub"%string, sa)] (@nil (string * bytes)).
Qed.
End Messages.

Lemma confirm_ok : exists m, build_confirm PIGEON_MAX_MSG = Some m /\ len m <= 400 /\ terminated m = m /\ kindIs m "confirm" = true.
Proof.
  destruct (message_ok "confirm" []) as (Hs & Hl & Ht & Hk); [cbn; lia | constructor | by_dec | by_dec | done |].
  by exists (message "confirm" []).
Qed.

(** ** Lemmas: the machines *)

Lemma acceptor_machine :
  reaches (acceptorStep "pair_begin" NewAcceptorMachine) "GeneratingEphemeral" (fun m =>
  reaches (acceptorStep "ephemeral_ready" m) "RegisteringRelay" (fun m =>
  reaches (acceptorStep "relay_registered" m) "WaitingForHello" (fun m =>
  reaches (acceptorMessage "hello" m) "WaitingForReveal" (fun m =>
  reaches (acceptorMessage "reveal" m) "DerivingCode" (fun m =>
  reaches (acceptorStep "code_ready" m) "AwaitingUserConfirm" (fun m =>
  reaches (acceptorStep "user_confirm" m) "AwaitingPeerConfirm" (fun m =>
  reaches (acceptorMessage "confirm_to_acceptor" m) "Paired" (fun _ => True)))))))).
Proof. vm_compute. repeat split. Qed.

Lemma initiator_machine :
  reaches (initiatorStep "token_received" NewInitiatorMachine) "DecodingToken" (fun m =>
  reaches (initiatorStep "token_decoded" m) "GeneratingEphemeral" (fun m =>
  reaches (initiatorStep "ephemeral_ready" m) "ConnectingRelay" (fun m =>
  reaches (initiatorStep "relay_connected" m) "AwaitingWelcome" (fun m =>
  reaches (initiatorMessage "welcome" m) "Revealing" (fun m =>
  reaches (initiatorStep "reveal_sent" m) "DerivingCode" (fun m =>
  reaches (initiatorStep "code_ready" m) "AwaitingUserConfirm" (fun m =>
  reaches (initiatorStep "user_confirm" m) "AwaitingPeerConfirm" (fun m =>
  reaches (initiatorMessage "confirm_to_initiator" m) "Paired" (fun _ => True))))))))).
Proof. vm_compute. repeat split. Qed.

Section Honest.
Context {P : Primitives} {So : Sodium P}.

Lemma acceptor_uses h priv pub idpub inst : uses h 3 (acceptorRuns h priv pub idpub inst).
Proof. unfold acceptorRuns, acceptorReveals, acceptorConfirms. walk_uses. Qed.
Lemma initiator_uses h priv pub idpub inst apub ainst blind : uses h 2 (initiatorRuns h priv pub idpub inst apub ainst blind).
Proof. unfold initiatorRuns, initiatorConfirms. walk_uses. Qed.

Lemma code_symmetric a b : pigeon_derive_confirmation_code a b = pigeon_derive_confirmation_code b a.
Proof.
  unfold pigeon_derive_confirmation_code. rewrite (bytes_Compare_antisym a b). pose proof (bytes_Compare_eq a b) as He.
  destruct (Z.leb_spec (bytes_Compare a b) 0), (Z.leb_spec (- bytes_Compare a b) 0); try done; try lia.
  by rewrite He by lia.
Qed.

Lemma code_derived a b : exists code, pigeon_derive_confirmation_code a b = Some code.
Proof.
  unfold pigeon_derive_confirmation_code, hkdf_sha256. change (32 <? 32) with false.
  assert ((255 <? len (str_bytes "pairing-confirmation")) = false) as -> by (vm_compute; reflexivity). by eexists.
Qed.

(** Read a message that is not too long. *)
Lemma short_message (m : bytes) : len m <= 400 -> (PIGEON_MAX_MSG <? len m) = false.
Proof. intros Hm. apply Z.ltb_ge. unfold PIGEON_MAX_MSG. lia. Qed.

Context (Hsha : forall m, length (sha256 m) = 32%nat).
Context (privA pubA idA privB pubB idB blind instA instB ainst : bytes).
Context (HpA : len pubA = 32) (HiA : len idA = 32) (HpB : len pubB = 32) (HiB : len idB = 32) (Hbl : len blind = 32).
Context (HqA : quote ∉ instA) (H0A : x00 ∉ instA) (HlA : len instA <= 63) (HneA : instA <> []).
Context (HqB : quote ∉ instB) (H0B : x00 ∉ instB) (HlB : len instB <= 63).

Lemma len_commit : len (pigeon_sas_commit pubB blind) = 32.
Proof. unfold pigeon_sas_commit, len. by rewrite Hsha. Qed.

(** The ceremony of two honest ends, message by message. *)
Lemma honest_talk (confirmA confirmB : string -> bool) (h h' : nat) the_code :
  pigeon_derive_confirmation_code pubA pubB = Some the_code -> confirmA the_code = true -> confirmB the_code = true ->
  exists hello welcome reveal confirm,
    Forall (fun m => len m <= 400) [hello; welcome; reveal; confirm] /\
    talk confirmA (fun _ => None) h (acceptorRuns h privA pubA idA instA) [hello; reveal; confirm] =
      ([], [welcome; confirm], Some (outRecord instB privA pubA pubB, the_code)) /\
    talk confirmB (fun _ => None) h' (initiatorRuns h' privB pubB idB instB pubA ainst blind) [welcome; confirm] =
      ([], [hello; reveal; confirm], Some (outRecord instA privB pubB pubA, the_code)).
Proof.
  intros Hcode HcA HcB.
  destruct (hello_ok (pigeon_sas_commit pubB blind) idB instB len_commit HiB HqB HlB) as (hello & fc & Bh & Lh & Th & Kh & Ch & Dh & Ih).
  destruct (welcome_ok pubA idA instA HpA HiA HqA HlA) as (welcome & fe & Bw & Lw & Tw & Kw & Ew & Dw & Iw).
  destruct (reveal_ok pubB blind HpB Hbl) as (reveal & fr & fb & Br & Lr & Tr & Kr & Er & Dr & Fb & Db).
  destruct confirm_ok as (confirm & Bc & Lc & Tc & Kc).
  exists hello, welcome, reveal, confirm. split; [by repeat constructor |]. split.
  - unfold acceptorRuns. pose proof acceptor_machine as Hm. machine Hm. machine Hm. machine Hm. cbn [talk].
    rewrite short_message by done. cbn [orFail]. rewrite Th, Kh, Ch. cbn [orFail]. rewrite Dh. cbn [orFail]. machine Hm.
    rewrite Bw. cbn [orFail talk]. unfold acceptorReveals. cbn [talk].
    rewrite short_message by done. cbn [orFail]. rewrite Tr, Kr, Er. cbn [orFail]. rewrite Fb. cbn [orFail].
    rewrite Dr, Db. cbn [orFail]. unfold pigeon_sas_commit_verify. rewrite bool_decide_eq_true_2 by done.
    machine Hm. machine Hm. rewrite Hcode. cbn [orFail talk]. rewrite HcA. unfold acceptorConfirms. machine Hm. rewrite Bc. cbn [orFail talk].
    rewrite short_message by done. cbn [orFail]. rewrite Tc, Kc. machine Hm. cbn [talk]. by rewrite Ih.
  - unfold initiatorRuns. pose proof initiator_machine as Hm. machine Hm. machine Hm. machine Hm. machine Hm.
    rewrite Bh. cbn [orFail talk]. rewrite short_message by done. cbn [orFail]. rewrite Tw, Kw, Ew. cbn [orFail]. rewrite Dw. cbn [orFail].
    rewrite bool_decide_eq_true_2 by done. machine Hm. rewrite Br. cbn [orFail talk]. machine Hm. machine Hm.
    rewrite Hcode. cbn [orFail talk]. rewrite HcB. unfold initiatorConfirms. machine Hm. rewrite Bc. cbn [orFail talk].
    rewrite short_message by done. cbn [orFail]. rewrite Tc, Kc. machine Hm. cbn [talk].
    rewrite Iw, cstr_id, bool_decide_eq_false_2 by done. done.
Qed.
End Honest.

(** ** The exchange *)

(** The ceremony's transport over a stream. *)
Definition singleStream (w : duplex) : singleStreamTransport duplex := {| ssRwc := w; ssServed := false; ssClosed := false; ssCloseResult := None |}.

(** An instance id that the messages carry unchanged. *)
Definition plainID (s : string) : Prop := s <> EmptyString /\ (quote ∉ str_bytes s) /\ noNul s /\ slen s <= 63.
#[export] Instance plainID_dec s : Decision (plainID s).
Proof. unfold plainID. apply _. Defined.

Lemma GoString_record iid : plainID iid -> GoString (take 63 (cstr (str_bytes iid))) = iid.
Proof.
  intros (_ & _ & H0 & Hl). rewrite cstr_id by done. rewrite take_ge by (unfold slen, len in Hl; lia). unfold GoString.
  rewrite cstr_id by done. apply bytes_str_bytes.
Qed.

Section Pairing.
Context {P : Primitives} {So : Sodium P}.

Definition acceptorArgs (priv pub idpub : bytes) (iid : string) (confirm : string -> bool) : RunAcceptorArgs :=
  {| raaRef := RefOf true; raaLocalEphPriv := priv; raaLocalEphPub := pub; raaIdentityPub := idpub; raaInstanceID := iid;
     raaConfirmFn := Some confirm |}.
Definition initiatorArgs (priv pub idpub : bytes) (iid : string) (accpub : bytes) (acciid : string) (confirm : string -> bool)
    : RunInitiatorArgs :=
  {| riaRef := RefOf true; riaLocalEphPriv := priv; riaLocalEphPub := pub; riaIdentityPub := idpub; riaInstanceID := iid;
     riaAccEphPub := accpub; riaAccInstance := acciid; riaConfirmFn := Some confirm |}.

(** A driver that accepts or opens its stream, over the ceremony's transport. *)
Lemma single_run {A} confirm resolve (k : option nat -> driver A) n w ins rest :
  uses pairHandleStub n (k (Some pairHandleStub)) -> (n <= length ins)%nat -> inp w = frames ins ++ rest ->
  Forall (fun m => len m <= MaxMessageSize) ins ->
  let '(unread, outs, a) := talk confirm resolve pairHandleStub (k (Some pairHandleStub)) ins in
  Forall (fun m => len m <= MaxMessageSize) outs ->
  exists t', interp confirm resolve (AcceptE k) (singleStream w) = (t', a) /\
             interp confirm resolve (OpenE k) (singleStream w) = (t', a) /\
             ssRwc t' = {| out := out w ++ frames outs; inp := frames unread ++ rest |}.
Proof.
  intros Hu Hn Hi Hf. cbn [interp]. unfold cwireGoAcceptStream, cwireGoOpenStream.
  cbn [gtAcceptStream gtOpenStream single_transport ssStream Pairing.stream ssServed singleStream rbind Z.eqb].
  set (t1 := {| ssRwc := _; ssServed := true; ssClosed := _; ssCloseResult := _ |}).
  pose proof (interp_talk pairHandleStub singleAt confirm resolve (k (Some pairHandleStub)) n t1 w ins rest Hu Hn eq_refl Hi Hf) as Hx.
  destruct (talk _ _ _ _ _) as [[unread outs] a]. intros Ho. destruct (Hx Ho) as (t' & He & Ht').
  exists t'. by rewrite He.
Qed.

(** Two honest ends pair.  When an acceptor and an initiator that has the
    acceptor's key from its token run the ceremony over the two ends of a
    stream, and both users confirm the code, both finish: they showed the same
    code, and their records name each other's instance and hold each other's
    keys. *)
Lemma honest_run (privA pubA idA privB pubB idB blind : bytes) (iidA iidB acciid : string) (confirmA confirmB : string -> bool) :
  (forall m, length (sha256 m) = 32%nat) ->
  len privA = 32 -> len pubA = 32 -> len idA = 32 -> len privB = 32 -> len pubB = 32 -> len idB = 32 -> len blind = 32 ->
  plainID iidA -> plainID iidB -> acciid <> EmptyString ->
  exists code, pigeon_derive_confirmation_code pubA pubB = Some code /\
  (confirmA code = true -> confirmB code = true ->
   exists wireA wireB : bytes, forall restA restB, exists tA tB,
     RunAcceptor (Some (acceptorArgs privA pubA idA iidA confirmA)) (singleStream {| out := []; inp := wireB ++ restB |}) =
       (tA, Ok ({| cwPeerInstanceID := iidB; cwLocalPrivKey := privA; cwLocalPubKey := pubA; cwPeerPubKey := pubB |}, code)) /\
     RunInitiator (Some (initiatorArgs privB pubB idB iidB pubA acciid confirmB)) blind (singleStream {| out := []; inp := wireA ++ restA |}) =
       (tB, Ok ({| cwPeerInstanceID := iidA; cwLocalPrivKey := privB; cwLocalPubKey := pubB; cwPeerPubKey := pubA |}, code)) /\
     ssRwc tA = {| out := wireA; inp := restB |} /\ ssRwc tB = {| out := wireB; inp := restA |}).
Proof.
  intros Hsha HprA HpA HiA HprB HpB HiB Hbl HidA HidB Hacc. destruct (code_derived pubA pubB) as [code Hcode].
  exists code. split; [done |]. intros HcA HcB.
  pose proof HidA as (HneA & HqA & H0A & HlA). pose proof HidB as (HneB & HqB & H0B & HlB).
  destruct (honest_talk Hsha privA pubA idA privB pubB idB blind (str_bytes iidA) (str_bytes iidB) (CString acciid)
    HpA HiA HpB HiB Hbl HqA H0A HlA ltac:(intros He; apply HneA, str_bytes_inj; exact He) HqB HlB
    confirmA confirmB pairHandleStub pairHandleStub code Hcode HcA HcB) as (hello & welcome & reveal & confirm & Hlen & HtA & HtB).
  assert (Hmax : forall l : list bytes, Forall (fun m => m ∈ [hello; welcome; reveal; confirm]) l -> Forall (fun m => len m <= MaxMessageSize) l).
  { intros l Hl. eapply Forall_impl; [exact Hl |]. intros m Hm. rewrite Forall_forall in Hlen. specialize (Hlen m Hm). unfold MaxMessageSize. lia. }
  exists (frames [welcome; confirm]), (frames [hello; reveal; confirm]). intros restA restB.
  pose proof (single_run confirmA (fun _ => None) (fun h => let? stream := h in acceptorRuns stream privA pubA idA (str_bytes iidA)) 3
    {| out := []; inp := frames [hello; reveal; confirm] ++ restB |} [hello; reveal; confirm] restB (acceptor_uses _ _ _ _ _) ltac:(done) eq_refl
    ltac:(apply Hmax; repeat constructor; set_solver)) as HA.
  pose proof (single_run confirmB (fun _ => None) (fun h => let? stream := h in initiatorRuns stream privB pubB idB (str_bytes iidB) pubA (CString acciid) blind) 2
    {| out := []; inp := frames [welcome; confirm] ++ restA |} [welcome; confirm] restA (initiator_uses _ _ _ _ _ _ _ _) ltac:(done) eq_refl
    ltac:(apply Hmax; repeat constructor; set_solver)) as HB.
  cbn [orFail] in HA, HB. rewrite HtA in HA. rewrite HtB in HB.
  destruct (HA ltac:(apply Hmax; repeat constructor; set_solver)) as (tA & RA & _ & WA).
  destruct (HB ltac:(apply Hmax; repeat constructor; set_solver)) as (tB & _ & RB & WB).
  exists tA, tB. unfold RunAcceptor, RunInitiator, acceptorArgs, initiatorArgs.
  cbn [raaRef raaLocalEphPriv raaLocalEphPub raaIdentityPub raaInstanceID raaConfirmFn riaRef riaLocalEphPriv riaLocalEphPub
       riaIdentityPub riaInstanceID riaAccEphPub riaAccInstance riaConfirmFn refOpen negb].
  rewrite HprA, HpA, HiA, HprB, HpB, HiB. cbn [Z.eqb Pos.eqb negb orb].
  rewrite !bool_decide_eq_false_2 by done. cbn [orb]. rewrite (CString_id iidA H0A), (CString_id iidB H0B).
  unfold pigeon_pair_acceptor, pigeon_pair_initiator. rewrite RA, RB, WA, WB. unfold recordFromC, outRecord.
  cbn [peer_instance_id local_private_key local_public_key peer_public_key out]. rewrite !GoString_record by done.
  by split_and!.
Qed.
End Pairing.

(** ** Whoever is in between *)

(** Follow a run that succeeds: the branches that fail are not it. *)
Ltac not_this H := exfalso; apply behaves_ret in H as [_ H]; discriminate H.
Ltac passes H :=
  match type of H with
  | behaves (orFail ?o _) _ _ => let E := fresh "E" in destruct o eqn:E; cbn [orFail] in H; [| not_this H]
  | behaves (if ?b then _ else _) _ _ => let E := fresh "E" in destruct b eqn:E; [| not_this H]
  end.

Section Adversary.
Context {P : Primitives} {So : Sodium P}.

(** What a hello commits to, and what a reveal opens. *)
Definition helloCommit (hello : bytes) : option bytes :=
  f ← found (json_find_string_field (terminated hello) "commit" 64); b64_decode32 f.
Definition revealKey (reveal : bytes) : option bytes :=
  f ← found (json_find_string_field (terminated reveal) "eph_pub" 64); b64_decode32 f.
Definition revealBlind (reveal : bytes) : option bytes :=
  f ← found (json_find_string_field (terminated reveal) "blind" 64); b64_decode32 f.

Lemma acceptor_confirms_behaves h m out tr res : behaves (acceptorConfirms h m out) tr (Some res) ->
  res = out /\ exists sent conf, tr = [EvSend h sent true; EvRecv h (Some conf)] /\ kindIs (terminated conf) "confirm" = true.
Proof.
  unfold acceptorConfirms. intros Hb. passes Hb. passes Hb. apply behaves_send in Hb as (ok & tr1 & -> & Hb).
  destruct ok; [| not_this Hb]. apply behaves_recv in Hb as (got & tr2 & -> & _ & Hb). destruct got as [conf|]; cbn [orFail] in Hb; [| not_this Hb].
  passes Hb. passes Hb. apply behaves_ret in Hb as [-> [= <-]]. split; [done |]. by eexists _, conf.
Qed.

Lemma initiator_confirms_behaves h m out tr res : behaves (initiatorConfirms h m out) tr (Some res) ->
  res = out /\ exists sent conf, tr = [EvSend h sent true; EvRecv h (Some conf)] /\ kindIs (terminated conf) "confirm" = true.
Proof.
  unfold initiatorConfirms. intros Hb. passes Hb. passes Hb. apply behaves_send in Hb as (ok & tr1 & -> & Hb).
  destruct ok; [| not_this Hb]. apply behaves_recv in Hb as (got & tr2 & -> & _ & Hb). destruct got as [conf|]; cbn [orFail] in Hb; [| not_this Hb].
  passes Hb. passes Hb. apply behaves_ret in Hb as [-> [= <-]]. split; [done |]. by eexists _, conf.
Qed.

(** A successful acceptor read a commitment before it sent its key, then a key
    and blind that open it; it showed the code of that key. *)
Lemma acceptor_behaves priv pub idpub inst tr rec code :
  behaves (pigeon_pair_acceptor priv pub idpub inst) tr (Some (rec, code)) ->
  exists h hello welcome reveal commit eph blind rest,
    tr = EvAccept (Some h) :: EvRecv h (Some hello) :: EvSend h welcome true :: EvRecv h (Some reveal) :: EvConfirm code true :: rest /\
    helloCommit hello = Some commit /\ revealKey reveal = Some eph /\ revealBlind reveal = Some blind /\
    pigeon_sas_commit eph blind = commit /\ pigeon_derive_confirmation_code pub eph = Some code /\
    local_private_key rec = priv /\ local_public_key rec = pub /\ peer_public_key rec = eph /\
    exists sent conf, rest = [EvSend h sent true; EvRecv h (Some conf)] /\ kindIs (terminated conf) "confirm" = true.
Proof.
  unfold pigeon_pair_acceptor. intros Hb. apply behaves_accept in Hb as (o & tr1 & -> & Hb). destruct o as [h|]; cbn [orFail] in Hb; [| not_this Hb].
  unfold acceptorRuns in Hb. do 3 passes Hb. apply behaves_recv in Hb as (got & tr2 & -> & _ & Hb).
  destruct got as [hello|]; cbn [orFail] in Hb; [| not_this Hb]. passes Hb. passes Hb. passes Hb. passes Hb. passes Hb.
  apply behaves_send in Hb as (ok & tr3 & -> & Hb). destruct ok; [| not_this Hb].
  unfold acceptorReveals in Hb. apply behaves_recv in Hb as (got & tr4 & -> & _ & Hb). destruct got as [reveal|]; cbn [orFail] in Hb; [| not_this Hb].
  do 9 passes Hb. apply behaves_confirm in Hb as (yes & tr5 & -> & Hb). destruct yes; [| not_this Hb].
  apply acceptor_confirms_behaves in Hb as [[= -> ->] Hrest].
  match goal with H : pigeon_sas_commit_verify _ _ _ = true |- _ => apply bool_decide_eq_true in H end.
  eexists h, hello, _, reveal, _, _, _, _. split; [reflexivity |]. unfold helloCommit, revealKey, revealBlind.
  repeat match goal with H : found _ = Some _ |- _ => rewrite H; clear H end. cbn [mbind option_bind]. by split_and!.
Qed.

(** A successful initiator got the token's key in the welcome and showed the
    code of that key and its own. *)
Lemma initiator_behaves priv pub idpub inst accpub accinst blind tr rec code :
  behaves (pigeon_pair_initiator priv pub idpub inst accpub accinst blind) tr (Some (rec, code)) ->
  exists h hello welcome reveal rest,
    tr = EvOpen (Some h) :: EvSend h hello true :: EvRecv h (Some welcome) :: EvSend h reveal true :: EvConfirm code true :: rest /\
    revealKey welcome = Some accpub /\ pigeon_derive_confirmation_code accpub pub = Some code /\
    local_private_key rec = priv /\ local_public_key rec = pub /\ peer_public_key rec = accpub /\
    exists sent conf, rest = [EvSend h sent true; EvRecv h (Some conf)] /\ kindIs (terminated conf) "confirm" = true.
Proof.
  unfold pigeon_pair_initiator. intros Hb. apply behaves_open in Hb as (o & tr1 & -> & Hb). destruct o as [h|]; cbn [orFail] in Hb; [| not_this Hb].
  unfold initiatorRuns in Hb. do 5 passes Hb. apply behaves_send in Hb as (ok & tr2 & -> & Hb). destruct ok; [| not_this Hb].
  apply behaves_recv in Hb as (got & tr3 & -> & _ & Hb). destruct got as [welcome|]; cbn [orFail] in Hb; [| not_this Hb].
  do 6 passes Hb. apply behaves_send in Hb as (ok & tr4 & -> & Hb). destruct ok; [| not_this Hb]. do 3 passes Hb.
  apply behaves_confirm in Hb as (yes & tr5 & -> & Hb). destruct yes; [| not_this Hb].
  apply initiator_confirms_behaves in Hb as [[= -> ->] Hrest].
  match goal with H : bool_decide (_ = accpub) = true |- _ => apply bool_decide_eq_true in H; subst end.
  eexists h, _, welcome, _, _. split; [reflexivity |]. unfold revealKey.
  repeat match goal with H : found _ = Some _ |- _ => rewrite H; clear H end. cbn [mbind option_bind]. by split_and!.
Qed.

(** *** Every run, finished or not *)

Definition isSend (e : event) : bool := match e with EvSend _ _ _ => true | _ => false end.

(** A welcome with key [k] was read from [h]. *)
Definition welcomed (past : list event) (h : handle) (k : bytes) : Prop :=
  exists welcome, EvRecv h (Some welcome) ∈ past /\ revealKey welcome = Some k.

(** A hello with a commitment, and after what was sent in answer, the key that
    opens it. *)
Definition opened (past : list event) (h : handle) (k : bytes) : Prop :=
  exists hello blind reveal pre mid post, past = pre ++ EvRecv h (Some hello) :: mid ++ EvRecv h (Some reveal) :: post /\
    Exists (fun e => isSend e = true) mid /\ helloCommit hello = Some (pigeon_sas_commit k blind) /\
    revealKey reveal = Some k /\ revealBlind reveal = Some blind.

(** What an initiator may send and show: before the welcome, the hello with a
    commitment to its key; the rest after a welcome with the token's key. *)
Definition initiatorMay (pub idpub inst accpub blind : bytes) (past : list event) (e : event) : Prop :=
  match e with
  | EvSend h msg _ =>
      (Forall (fun e => isSend e = false) past /\ build_hello (pigeon_sas_commit pub blind) idpub inst PIGEON_MAX_MSG = Some msg) \/
      welcomed past h accpub
  | EvConfirm code _ => (exists h, welcomed past h accpub) /\ pigeon_derive_confirmation_code accpub pub = Some code
  | _ => True
  end.

(** What an acceptor may send and show: its key in answer to a hello with a
    commitment; the rest after a key that opens the commitment. *)
Definition acceptorMay (pub idpub inst : bytes) (past : list event) (e : event) : Prop :=
  match e with
  | EvSend h msg _ =>
      (Forall (fun e => isSend e = false) past /\ (exists hello commit, EvRecv h (Some hello) ∈ past /\ helloCommit hello = Some commit) /\
       build_welcome pub idpub inst PIGEON_MAX_MSG = Some msg) \/
      exists k, opened past h k
  | EvConfirm code _ => exists h k, opened past h k /\ pigeon_derive_confirmation_code pub k = Some code
  | _ => True
  end.

(** Walk a driver: a branch that fails has no callbacks. *)
Ltac walk_guarded :=
  repeat match goal with
  | |- guarded _ _ (orFail ?o _) => let E := fresh "E" in destruct o eqn:E; cbn [orFail]; [| exact I]
  | |- guarded _ _ (if ?b then _ else _) => let E := fresh "E" in destruct b eqn:E; [| exact I]
  | |- guarded _ _ (Ret _) => exact I
  | |- guarded _ _ _ => cbn [guarded]; intros ?; split; [try exact I |]; cbn [app]
  end.

Ltac in_past := repeat first [apply list_elem_of_here | apply list_elem_of_further].

Lemma key_read m f k : found (json_find_string_field (terminated m) "eph_pub" 64) = Some f -> b64_decode32 f = Some k -> revealKey m = Some k.
Proof. intros Hf Hk. unfold revealKey. by rewrite Hf. Qed.

Lemma initiator_guarded priv pub idpub inst accpub accinst blind :
  guarded (initiatorMay pub idpub inst accpub blind) [] (pigeon_pair_initiator priv pub idpub inst accpub accinst blind).
Proof.
  unfold pigeon_pair_initiator. walk_guarded. unfold initiatorRuns. walk_guarded.
  1: left; split; [by repeat constructor | done].
  all: match goal with H : bool_decide (_ = _) = true |- _ => apply bool_decide_eq_true in H; subst end.
  all: match goal with F : found _ = Some _, D : b64_decode32 _ = Some _ |- _ => pose proof (key_read _ _ _ F D) as Hk end.
  - right. eexists. split; [in_past | exact Hk].
  - split; [| done]. eexists _, _. split; [in_past | exact Hk].
  - unfold initiatorConfirms. walk_guarded. right. eexists. split; [in_past | exact Hk].
Qed.

(** The reveal that [acceptorReveals] accepts. *)
Lemma opened_by h hello w reveal commit f g k blind pre post :
  helloCommit hello = Some commit -> found (json_find_string_field (terminated reveal) "eph_pub" 64) = Some f ->
  found (json_find_string_field (terminated reveal) "blind" 64) = Some g -> b64_decode32 f = Some k -> b64_decode32 g = Some blind ->
  pigeon_sas_commit_verify k blind commit = true ->
  opened (pre ++ EvRecv h (Some hello) :: [EvSend h w true] ++ EvRecv h (Some reveal) :: post) h k.
Proof.
  intros Hc Hf Hg Hk Hb Hv. apply bool_decide_eq_true in Hv. exists hello, blind, reveal, pre, [EvSend h w true], post.
  split; [done |]. split; [by constructor |]. split; [by rewrite Hv |]. split; [by eapply key_read |]. unfold revealBlind. by rewrite Hg.
Qed.

Lemma acceptor_guarded priv pub idpub inst : guarded (acceptorMay pub idpub inst) [] (pigeon_pair_acceptor priv pub idpub inst).
Proof.
  unfold pigeon_pair_acceptor. walk_guarded. unfold acceptorRuns. walk_guarded.
  all: match goal with F : found _ = Some ?f, D : b64_decode32 ?f = Some ?c |- context [EvRecv _ (Some ?m)] =>
         assert (helloCommit m = Some c) as Hc by (unfold helloCommit; by rewrite F) end.
  - left. split; [by repeat constructor |]. split; [| done]. eexists _, _. split; [in_past | exact Hc].
  - eexists _, _. split; [| eassumption]. eapply (opened_by _ _ _ _ _ _ _ _ _ [_] [] Hc); eassumption.
  - unfold acceptorConfirms. walk_guarded. right. eexists. eapply (opened_by _ _ _ _ _ _ _ _ _ [_] [_] Hc); eassumption.
Qed.

(** Two keys that are shown as one code beside [pub]. *)
Definition codeCollision (pub k k' : bytes) : Prop :=
  k <> k' /\ pigeon_derive_confirmation_code pub k = pigeon_derive_confirmation_code pub k'.

(** [RunAcceptor]'s and [RunInitiator]'s successes are the drivers'. *)
Lemma RunAcceptor_ok {T} `{GoTransport T} a (t t1 : T) rec code : RunAcceptor (Some a) t = (t1, Ok (rec, code)) ->
  exists confirm out, raaConfirmFn a = Some confirm /\ rec = recordFromC out /\
    let d := pigeon_pair_acceptor (raaLocalEphPriv a) (raaLocalEphPub a) (raaIdentityPub a) (CString (raaInstanceID a)) in
    behaves d (observed confirm (fun _ => None) d t) (Some (out, code)) /\ Forall (answers confirm (fun _ => None)) (observed confirm (fun _ => None) d t).
Proof.
  unfold RunAcceptor. destruct (negb _); [done |]. destruct (_ || _); [done |]. destruct (raaConfirmFn a) as [confirm|]; [| done].
  case_bool_decide; [done |]. set (d := pigeon_pair_acceptor _ _ _ _). destruct (interp_observed confirm (fun _ => None) d t) as [Hb Ha].
  destruct (interp confirm (fun _ => None) d t) as [t2 [[out c]|]]; [| done]. intros [= _ <- <-]. by exists confirm, out.
Qed.

Lemma RunInitiator_ok {T} `{GoTransport T} b blind (t t1 : T) rec code : RunInitiator (Some b) blind t = (t1, Ok (rec, code)) ->
  exists confirm out, riaConfirmFn b = Some confirm /\ rec = recordFromC out /\
    let d := pigeon_pair_initiator (riaLocalEphPriv b) (riaLocalEphPub b) (riaIdentityPub b) (CString (riaInstanceID b)) (riaAccEphPub b)
               (CString (riaAccInstance b)) blind in
    behaves d (observed confirm (fun _ => None) d t) (Some (out, code)) /\ Forall (answers confirm (fun _ => None)) (observed confirm (fun _ => None) d t).
Proof.
  unfold RunInitiator. destruct (negb _); [done |]. destruct (_ || _); [done |]. destruct (riaConfirmFn b) as [confirm|]; [| done].
  destruct (_ || _); [done |]. set (d := pigeon_pair_initiator _ _ _ _ _ _ _). destruct (interp_observed confirm (fun _ => None) d t) as [Hb Ha].
  destruct (interp confirm (fun _ => None) d t) as [t2 [[out c]|]]; [| done]. intros [= _ <- <-]. by exists confirm, out.
Qed.

(** C3. Whoever is between the ends.  In every run over every transport, finished
    or not: before it has read a welcome with the token's key an
    initiator sends one message, a hello with a commitment to its own key, so its
    key and blind go out, and a code is shown, only after that; an acceptor sends its key
    only after it has read a commitment, and sends more, or shows a code, only
    after it has then read a key that opens that commitment.  When both finish, each user
    has accepted the code of that end's record, the key an acceptor records was
    committed to before the acceptor sent its own, and if the two saw the same
    code, the acceptor recorded the initiator's key, unless the key committed to
    in its place has the same code. *)
Theorem pairing_detects_substitution {T T'} `{GoTransport T} `{GoTransport T'} (a : RunAcceptorArgs) (b : RunInitiatorArgs) (blind : bytes) :
  (forall confirm (t : T) pre e post,
     observed confirm (fun _ => None) (pigeon_pair_acceptor (raaLocalEphPriv a) (raaLocalEphPub a) (raaIdentityPub a) (CString (raaInstanceID a))) t =
       pre ++ e :: post ->
     acceptorMay (raaLocalEphPub a) (raaIdentityPub a) (CString (raaInstanceID a)) pre e) /\
  (forall confirm (t : T') pre e post,
     observed confirm (fun _ => None)
       (pigeon_pair_initiator (riaLocalEphPriv b) (riaLocalEphPub b) (riaIdentityPub b) (CString (riaInstanceID b)) (riaAccEphPub b)
          (CString (riaAccInstance b)) blind) t = pre ++ e :: post ->
     initiatorMay (riaLocalEphPub b) (riaIdentityPub b) (CString (riaInstanceID b)) (riaAccEphPub b) blind pre e) /\
  forall (t t1 : T) (t' t1' : T') (recA recB : cwRecord) (codeA codeB : string),
  RunAcceptor (Some a) t = (t1, Ok (recA, codeA)) ->
  RunInitiator (Some b) blind t' = (t1', Ok (recB, codeB)) ->
  riaAccEphPub b = raaLocalEphPub a ->
  (exists confirm, raaConfirmFn a = Some confirm /\ confirm codeA = true /\
     exists h hello welcome reveal peerBlind rest,
       observed confirm (fun _ => None)
           (pigeon_pair_acceptor (raaLocalEphPriv a) (raaLocalEphPub a) (raaIdentityPub a) (CString (raaInstanceID a))) t =
         EvAccept (Some h) :: EvRecv h (Some hello) :: EvSend h welcome true :: EvRecv h (Some reveal) :: EvConfirm codeA true :: rest /\
       helloCommit hello = Some (pigeon_sas_commit (cwPeerPubKey recA) peerBlind)) /\
  (exists confirm, riaConfirmFn b = Some confirm /\ confirm codeB = true /\
     exists h hello welcome reveal rest,
       observed confirm (fun _ => None)
           (pigeon_pair_initiator (riaLocalEphPriv b) (riaLocalEphPub b) (riaIdentityPub b) (CString (riaInstanceID b)) (riaAccEphPub b)
              (CString (riaAccInstance b)) blind) t' =
         EvOpen (Some h) :: EvSend h hello true :: EvRecv h (Some welcome) :: EvSend h reveal true :: EvConfirm codeB true :: rest /\
       revealKey welcome = Some (raaLocalEphPub a)) /\
  cwLocalPubKey recA = raaLocalEphPub a /\ cwLocalPubKey recB = riaLocalEphPub b /\ cwPeerPubKey recB = raaLocalEphPub a /\
  pigeon_derive_confirmation_code (raaLocalEphPub a) (cwPeerPubKey recA) = Some codeA /\
  pigeon_derive_confirmation_code (raaLocalEphPub a) (riaLocalEphPub b) = Some codeB /\
  (codeA = codeB -> cwPeerPubKey recA = riaLocalEphPub b \/ codeCollision (raaLocalEphPub a) (cwPeerPubKey recA) (riaLocalEphPub b)).
Proof.
  split.
  { intros confirm u pre e post Hobs. destruct (interp_observed confirm (fun _ => None)
      (pigeon_pair_acceptor (raaLocalEphPriv a) (raaLocalEphPub a) (raaIdentityPub a) (CString (raaInstanceID a))) u) as [Hbeh _].
    exact (guarded_behaves _ _ _ _ Hbeh [] (acceptor_guarded _ _ _ _) pre e post Hobs). }
  split.
  { intros confirm u pre e post Hobs. destruct (interp_observed confirm (fun _ => None)
      (pigeon_pair_initiator (riaLocalEphPriv b) (riaLocalEphPub b) (riaIdentityPub b) (CString (riaInstanceID b)) (riaAccEphPub b)
         (CString (riaAccInstance b)) blind) u) as [Hbeh _].
    exact (guarded_behaves _ _ _ _ Hbeh [] (initiator_guarded _ _ _ _ _ _ _) pre e post Hobs). }
  intros t t1 t' t1' recA recB codeA codeB Ha Hb Htok. destruct (RunAcceptor_ok a t t1 recA codeA Ha) as (confirm & out & Hcf & -> & Hbeh & Hans).
  destruct (RunInitiator_ok b blind t' t1' recB codeB Hb) as (confirm' & out' & Hcf' & -> & Hbeh' & Hans').
  destruct (acceptor_behaves _ _ _ _ _ _ _ Hbeh) as
    (h & hello & welcome & reveal & commit & eph & pb & rest & Htr & Hcommit & _ & _ & <- & Hcode & _ & Hlpub & Hpeer & _).
  destruct (initiator_behaves _ _ _ _ _ _ _ _ _ _ Hbeh') as
    (h' & hello' & welcome' & reveal' & rest' & Htr' & Hwel & Hcode' & _ & Hlpub' & Hpeer' & _).
  rewrite Htok in *. rewrite code_symmetric in Hcode'. rewrite Htr in Hans. rewrite Htr' in Hans'.
  rewrite !Forall_cons in Hans, Hans'. cbn [answers] in Hans, Hans'.
  destruct Hans as (_ & _ & _ & _ & Hyes & _). destruct Hans' as (_ & _ & _ & _ & Hyes' & _).
  cbn [recordFromC cwLocalPubKey cwPeerPubKey]. rewrite Hlpub, Hlpub', Hpeer, Hpeer'.
  rewrite (code_symmetric (raaLocalEphPub a) (riaLocalEphPub b)) in *.
  split; [by exists confirm; eauto 15 |]. split; [by exists confirm'; eauto 15 |]. split_and!; try done.
  intros <-. destruct (decide (eph = riaLocalEphPub b)) as [|Hne]; [by left | right]. split; [done |].
  by rewrite Hcode, (code_symmetric (raaLocalEphPub a)), Hcode'.
Qed.
End Adversary.

(** ** Ceremonies over a toy cipher *)

Definition yes (_ : string) : bool := true.

(** A code that depends on both keys. *)
Definition summing : Sodium toy :=
  {| hmacsha256 k m := pad 32 (be_put 4 (toy_sum (k ++ m))); aes256gcm_is_available := true |}.

(** Someone in between pairs with the acceptor under a key of its own, and
    hands the initiator the acceptor's welcome. *)
Definition key3 : bytes := replicate 32 x03.
Definition said (m : option bytes) : bytes := default [] m.
Definition confirmed : bytes := said (build_confirm PIGEON_MAX_MSG).
Definition toAcceptor : bytes :=
  frames [said (build_hello (pigeon_sas_commit (P := toy) key1 key1) key1 (str_bytes "phone") PIGEON_MAX_MSG);
          said (build_reveal key1 key1 PIGEON_MAX_MSG); confirmed].
Definition toInitiator : bytes := frames [said (build_welcome key2 key2 (str_bytes "desk") PIGEON_MAX_MSG); confirmed].
Definition duped : RunAcceptorArgs := acceptorArgs key2 key2 key2 "desk" yes.
Definition unaware : RunInitiatorArgs := initiatorArgs key3 key3 key3 "phone" key2 "desk" yes.

Lemma pairing_detects_substitution_witness :
  exists recA codeA recB codeB,
    (RunAcceptor (P := toy) (So := summing) (Some duped) (singleStream {| out := []; inp := toAcceptor |})).2 = Ok (recA, codeA) /\
    (RunInitiator (P := toy) (So := summing) (Some unaware) key3 (singleStream {| out := []; inp := toInitiator |})).2 = Ok (recB, codeB) /\
    cwPeerPubKey recA = key1 /\ cwPeerPubKey recB = key2 /\ codeA <> codeB.
Proof.
  destruct (RunAcceptor (P := toy) (So := summing) (Some duped) (singleStream {| out := []; inp := toAcceptor |})) as [t1 rA] eqn:EA.
  destruct (RunInitiator (P := toy) (So := summing) (Some unaware) key3 (singleStream {| out := []; inp := toInitiator |})) as [t1' rB] eqn:EB.
  destruct rA as [[recA codeA]|err]; [| apply (f_equal snd) in EA; vm_compute in EA; discriminate EA].
  destruct rB as [[recB codeB]|err]; [| apply (f_equal snd) in EB; vm_compute in EB; discriminate EB].
  assert (Hk : cwPeerPubKey recA = key1)
    by (apply (f_equal snd) in EA; vm_compute in EA; injection EA as <- _; vm_compute; reflexivity).
  destruct (pairing_detects_substitution (P := toy) (So := summing) (T := singleStreamTransport duplex) (T' := singleStreamTransport duplex)
    duped unaware key3) as (_ & _ & Hboth).
  destruct (Hboth _ t1 _ t1' recA recB codeA codeB EA EB eq_refl) as (_ & _ & _ & _ & HpB & HcA & HcB & _).
  exists recA, codeA, recB, codeB. split; [reflexivity |]. split; [reflexivity |]. split; [exact Hk |]. split; [exact HpB |].
  rewrite Hk in HcA. intros He. rewrite He in HcA. vm_compute in HcA. vm_compute in HcB. rewrite <-HcB in HcA. discriminate HcA.
Defined.
