(* ===== verification/EndToEnd.v ===== *)
(** * EndToEnd: from a pairing to messages

    The parts composed: the ceremony gives two ends their records
    ([Ceremony]), [Connect] and a listener's [activate] activate a session from
    them over the connection's primary stream ([Activation] inside [Dial]),
    and the session's streams carry what either end sends ([Cwire],
    [Stream]). *)

From Stdlib Require Import ZArith Lia Strings.Byte Strings.String.
From stdpp Require Import base gmap strings list fin_maps.
From S2P Require Import Prelude Binary Wire Channel Cwire Session Stream Dial Driver Activation Ceremony.

Open Scope Z_scope.

(** ** Activation over the primary stream (api.go) *)

(** The adapter's stream after a run. *)
Definition primaryAfter (t : goTransportAdapter duplex) (h : handle) (w : duplex) : duplex := default w (adStreams t !! h).

(** [Connect]: the adapter adopts the primary, and the client activates with
    the nonce drawn for it. *)
Definition runClient (nonce : bytes) (device route : string) (w : duplex) : duplex * result bytes :=
  let '(t, h) := newGoTransportAdapter w in
  let '(t, r) := RunClientActivation (RefOf true) (Some h) device route nonce t in
  (primaryAfter t h w, r).

(** [ResolveFn]: the [Pairing] hook in the shape of cwire. *)
Definition resolver (pairing : string -> result (option PairingRecord)) : PairingResolver := fun deviceID =>
  match pairing deviceID with
  | Ok (Some r) => Some (pairingRecordToCwire r)
  | _ => None
  end.

(** The device ids a run resolved. *)
Definition resolvedIDs (tr : list event) : list string :=
  omap (fun e => match e with EvResolve id _ => Some (GoString id) | _ => None end) tr.

Definition toResult (b : BackendActivationResult) : ActivationResult :=
  {| Accepted := barAccepted b; DeviceID := barDeviceID b; Nonce := barNonce b; ARoute := barRoute b |}.

Definition runBackend (pairing : string -> result (option PairingRecord)) (w : duplex) : duplex * list string * result ActivationResult :=
  let '(t, h) := newGoTransportAdapter w in
  let '(t', r) := RunBackendActivation (activationArgs h (resolver pairing)) t in
  (primaryAfter t' h w,
   resolvedIDs (observed (fun _ => false) (resolver pairing) (pigeon_run_backend_activation h 129 (maxRoute + 1)) t),
   let! b := r in Ok (toResult b)).

(** The record a ceremony delivers to its caller (pairing/pairing.go). *)
Definition ceremonyRecord (rec : cwRecord) (relayURL : string) : PairingRecord :=
  {| PeerInstanceID := cwPeerInstanceID rec; RelayURL := relayURL; LocalPrivateKey := cwLocalPrivKey rec;
     LocalPublicKey := cwLocalPubKey rec; PeerPublicKey := cwPeerPubKey rec |}.

(** The device ids and routes that reach the other end unchanged. *)
Definition sendable (device route : string) : Prop :=
  device <> EmptyString /\ noNul device /\ noNul route /\ slen device <= 128 /\ slen route <= 128.
#[export] Instance sendable_dec device route : Decision (sendable device route).
Proof. unfold sendable. apply _. Defined.

Section EndToEnd.
Context {P : Primitives} {So : Sodium P} {PL : PrimitivesLaws P} {SL : SodiumLaws So}.

(** What [Connect] and [activate] derive: [cwire.DeriveSessionMaterial] of the
    converted record. *)
Definition deriveMaterial (rec : PairingRecord) (isBackend : bool) (nonce : bytes) : result SessionMaterial :=
  DeriveSessionMaterial (pairingRecordToCwire rec) isBackend nonce.

(** [Connect] and [Listener.activate] with the activation they run. *)
Definition connect (dial : DialEnv duplex) (nonce : bytes) (args : ConnectArgs) (r : res)
    : res * result (Session (W := duplex) (Material := SessionMaterial)) :=
  Connect deriveMaterial {| ce_dial := dial; ce_activation := runClient nonce |} (Some args) r.
Definition listenerActivate (args : RegisterArgs) (tr : transport duplex) (r : res)
    : res * result (Session (W := duplex) (Material := SessionMaterial)) :=
  activate deriveMaterial {| ae_activation := runBackend |} args tr r.

(** The records of a pairing between keys [a] and [b], at either end. *)
Definition recordOf (a b : PrivateKey) (id url : string) : PairingRecord :=
  NewPairingRecord id url {| Private := a; Public := priv_public a |} (priv_public b).

(** What one end sends on a stream of a channel the other end receives. *)
Definition delivered (s r : pigeon_channel) (msgs : list bytes) : Prop :=
  exists s' wire, sendAll (W := bytes) (Some s) [] msgs = (Some s', wire, None) /\
    forall rest, exists st, recvRun {| rChannel := Some r; rRwc := wire ++ rest; lateReaders := 0 |}
                     (repeat RecvOk (length msgs)) = Some (st, map Ok msgs).

(** Arguments of [Connect] for a device with a record. *)
Definition connects (args : ConnectArgs) (device : string) (rec : PairingRecord) : Prop :=
  ca_InstanceID args <> EmptyString /\ ca_Relay args <> EmptyString /\ validateDatagrams (ca_Datagrams args) = None /\
  ca_Record args = Some rec /\ ca_Identity args = Some device /\ sendable device (ca_Route args).

(** ** Lemmas *)

(** Channels that face each other are ready for each other's messages. *)
Lemma facing_ready a b : facing a b -> send_seq a = 0 -> send_seq b = 0 -> cmode a = ModeStrict ->
  exists g1 g2, ready g1 a b /\ ready g2 b a.
Proof.
  intros (g1 & g2 & H1 & H2 & H3 & H4 & H5 & H6 & H7) Ha Hb Hm. exists g1, g2. unfold ready.
  rewrite <-H5, <-H6, <-H7, Ha, Hb, Hm. split_and!; done || lia.
Qed.

Lemma stream_mode m name ch : StreamChannel m name = Ok ch -> cmode ch = ModeStrict.
Proof.
  unfold StreamChannel, cwNewChannel. destruct (ExpandKey (SendKey m) _) as [k1|]; cbn [rbind]; [| done].
  destruct (ExpandKey (RecvKey m) _) as [k2|]; cbn [rbind]; [| done]. case_match; [done |]. by intros [= <-].
Qed.

(** The stream channels of one activation's material are ready for each other. *)
Lemma material_ready mc mb name : mirrored mc mb -> slen name <= 238 ->
  exists cc cb g1 g2, StreamChannel mc name = Ok cc /\ StreamChannel mb name = Ok cb /\
    ready g1 cc cb /\ ready g2 cb cc /\ send_seq cc = 0 /\ send_seq cb = 0.
Proof.
  intros Hm Hname.
  destruct (mirrored_channels mc mb (aeadStreamInfoPrefix +:+ name) "stream" Hm) as (cc & cb & Hcc & Hcb & Hface & Hz1 & Hz2).
  { unfold slen in *. rewrite str_bytes_app, len_app. change (len (str_bytes aeadStreamInfoPrefix)) with 17. lia. }
  change (StreamChannel mc name = Ok cc) in Hcc. change (StreamChannel mb name = Ok cb) in Hcb.
  destruct (facing_ready cc cb Hface Hz1 Hz2 (stream_mode _ _ _ Hcc)) as (g1 & g2 & Hr1 & Hr2).
  by exists cc, cb, g1, g2.
Qed.

Lemma ready_delivers g s r msgs : ready g s r -> Forall fits msgs -> delivered s r msgs.
Proof.
  intros Hr Hf. destruct (send_recv_all msgs g s r [] Hr Hf) as (s' & w & Hs & Hrecv). exists s', w. split; [exact Hs |].
  intros rest. apply Hrecv.
Qed.

Lemma primaryAfter_at t h w w' : adapterAt h t w' -> primaryAfter t h w = w'.
Proof. unfold adapterAt, primaryAfter. by intros ->. Qed.

Lemma adopted w : adapterAt (newGoTransportAdapter w).2 (newGoTransportAdapter w).1 w.
Proof. unfold adapterAt. cbn. by rewrite lookup_insert_eq. Qed.

Lemma runClient_ok device route nonce (known : bool) w rest :
  sendable device route -> len nonce = 16 -> inp w = frame (auth_reply known) ++ rest ->
  runClient nonce device route w =
    ({| out := out w ++ frame (auth_request (str_bytes device) nonce (str_bytes route)); inp := rest |},
     if known then Ok nonce else Err (ENew "cwire: pigeon_run_client_activation failed (rejected or wire error)")).
Proof.
  intros (Hne & Hd & Hr & Hdl & Hrl) Hn Hi. unfold runClient. pose proof (adopted w) as Hat.
  destruct (newGoTransportAdapter w) as [t h]. cbn [fst snd] in Hat.
  destruct (client_side h (adapterAt h) device route nonce known t w rest Hne Hd Hr Hdl Hrl Hn Hat Hi) as (t1 & -> & Ht1).
  by rewrite (primaryAfter_at _ _ _ _ Ht1).
Qed.

(** The backend asks about one device, the one it reports. *)
Lemma runBackend_ids pairing w w' ids res : runBackend pairing w = (w', ids, Ok res) -> ids = [DeviceID res].
Proof.
  unfold runBackend. destruct (newGoTransportAdapter w) as [t h].
  destruct (RunBackendActivation (activationArgs h (resolver pairing)) t) as [t' [b|err]] eqn:Hb; [| done].
  destruct (backend_run h (resolver pairing) t t' b Hb) as (payload & id & nonce & route & record & ok & Htr & _ & _ & Hid & _).
  change (maxRoute + 1) with 129. rewrite Htr. intros [= _ <- <-]. cbn [toResult DeviceID]. rewrite Hid.
  unfold GoString. by rewrite cstr_cstr.
Qed.

Lemma runBackend_ok pairing device route nonce rec w rest :
  sendable device route -> len nonce = 16 -> pairing device = Ok (Some rec) ->
  inp w = frame (auth_request (str_bytes device) nonce (str_bytes route)) ++ rest ->
  runBackend pairing w =
    ({| out := out w ++ frame (auth_reply true); inp := rest |}, [device],
     Ok {| Accepted := true; DeviceID := device; Nonce := nonce; ARoute := route |}).
Proof.
  intros (Hne & Hd & Hr & Hdl & Hrl) Hn Hp Hi.
  destruct (runBackend pairing w) as [[w' ids] r] eqn:Hrun. pose proof Hrun as Hrun'. unfold runBackend in Hrun. pose proof (adopted w) as Hat.
  destruct (newGoTransportAdapter w) as [t h]. cbn [fst snd] in Hat.
  destruct (backend_side h (adapterAt h) device route nonce (resolver pairing) t w rest Hd Hr Hdl Hrl Hn Hat Hi) as (t1 & He & Ht1).
  assert (resolver pairing device = Some (pairingRecordToCwire rec)) as Hres by (unfold resolver; by rewrite Hp).
  rewrite Hres in He, Ht1. rewrite He in Hrun. rewrite bool_decide_eq_true_2 in Ht1 by (by eexists).
  rewrite (primaryAfter_at _ _ _ _ Ht1) in Hrun.
  set (tr := observed _ _ _ _) in Hrun. clearbody tr. injection Hrun as <- _ <-.
  by rewrite (runBackend_ids _ _ _ _ _ Hrun').
Qed.

(** [Connect] of a device with its record, over a dialled connection. *)
Lemma connect_ok dial args device rec nonce r r1 tr w m :
  connects args device rec ->
  dialInitiator dial (ca_InstanceID args) {| cToken := ca_Token args; cInstanceID := EmptyString; cWebTransport := false; cQUICPort := EmptyString |} r
    = (r1, Ok tr) ->
  runClient nonce device (ca_Route args) (primary tr) = (w, Ok nonce) -> deriveMaterial rec false nonce = Ok m ->
  exists r' s, connect dial nonce args r = (r', Ok s) /\ s_material s = Some m /\ primary (s_transport s) = w.
Proof.
  intros (H1 & H2 & Hdg & Hrec & Hid & _) Hd Hact Hm. unfold connect, Connect.
  rewrite (bool_decide_eq_false_2 (ca_InstanceID args = EmptyString)), (bool_decide_eq_false_2 (ca_Relay args = EmptyString)) by done.
  rewrite Hrec, Hid, (bool_decide_eq_false_2 (Some rec = None)), (bool_decide_eq_false_2 (Some device = None)) by done. cbn [negb andb].
  rewrite Hdg. cbn [ce_dial]. rewrite Hd. destruct (newDatagrams _) as [cfgs dgs]. cbn [newRef registerStream ce_activation default from_option id].
  rewrite Hact, Hm. by eexists _, _.
Qed.

Lemma activate_ok args pairing (tr : transport duplex) r device rec nonce route w m :
  ra_Pairing args = Some pairing -> pairing device = Ok (Some rec) ->
  runBackend pairing (primary tr) = (w, [device], Ok {| Accepted := true; DeviceID := device; Nonce := nonce; ARoute := route |}) ->
  deriveMaterial rec true nonce = Ok m ->
  exists r' s, listenerActivate args tr r = (r', Ok s) /\ s_material s = Some m /\ s_peerID s = device /\ s_route s = route /\
    primary (s_transport s) = w.
Proof.
  intros Hp Hd Hact Hm. unfold listenerActivate, activate. destruct (newDatagrams _) as [cfgs dgs]. rewrite Hp.
  cbn [newRef registerStream ae_activation]. rewrite Hact. cbn [Accepted negb]. unfold captured. cbn [fold_left]. rewrite Hd. cbn [Nonce]. rewrite Hm.
  by eexists _, _.
Qed.

(** ** Properties *)

(** C1. From a pairing to messages.  When an acceptor and an initiator run the
    ceremony over one stream and their users confirm the code, both get a
    record; a client that connects with the initiator's record and a
    backend that resolves that device to the acceptor's then both get a session
    when each reads what the other writes on the primary stream, the backend's
    of the client's device id and route; and on every stream of a name of
    up to 238 bytes what either end sends, message after message, the other
    receives in order. *)
Theorem paired_devices_interoperate (a b : PrivateKey) (shared idA idB blind nonce : bytes) (iidA iidB acciid relay : string)
    (confirmA confirmB : string -> bool) (name : string) (msgs msgs' : list bytes) :
  (forall m, length (sha256 m) = 32%nat) -> goodKey a -> goodKey b -> ECDH b (priv_public a) = Ok shared ->
  len idA = 32 -> len idB = 32 -> len blind = 32 -> len nonce = 16 ->
  plainID iidA -> plainID iidB -> acciid <> EmptyString -> (forall code, confirmA code = true /\ confirmB code = true) ->
  slen name <= 238 -> Forall fits msgs -> Forall fits msgs' ->
  exists wireA wireB recA recB code tA tB,
    RunAcceptor (Some (acceptorArgs (priv_bytes a) (pub_bytes (priv_public a)) idA iidA confirmA)) (singleStream {| out := []; inp := wireB |}) =
      (tA, Ok (recA, code)) /\ out (ssRwc tA) = wireA /\
    RunInitiator (Some (initiatorArgs (priv_bytes b) (pub_bytes (priv_public b)) idB iidB (pub_bytes (priv_public a)) acciid confirmB)) blind
      (singleStream {| out := []; inp := wireA |}) = (tB, Ok (recB, code)) /\ out (ssRwc tB) = wireB /\
    cwPeerInstanceID recA = iidB /\ cwPeerInstanceID recB = iidA /\
    forall args args' pairing, connects args iidB (ceremonyRecord recB relay) ->
      ra_Pairing args' = Some pairing -> pairing iidB = Ok (Some (ceremonyRecord recA relay)) ->
      exists request reply, forall dial r r1 tr rest tr' r2 rest',
        dialInitiator dial (ca_InstanceID args)
          {| cToken := ca_Token args; cInstanceID := EmptyString; cWebTransport := false; cQUICPort := EmptyString |} r = (r1, Ok tr) ->
        inp (primary tr) = frame reply ++ rest -> inp (primary tr') = frame request ++ rest' ->
        exists r1' s r2' s', connect dial nonce args r = (r1', Ok s) /\ listenerActivate args' tr' r2 = (r2', Ok s') /\
          primary (s_transport s) = {| out := out (primary tr) ++ frame request; inp := rest |} /\
          primary (s_transport s') = {| out := out (primary tr') ++ frame reply; inp := rest' |} /\
          s_peerID s' = iidB /\ s_route s' = ca_Route args /\
          exists cc cb, (streamChannel (s_material s) ∅ name).2 = Some cc /\ (streamChannel (s_material s') ∅ name).2 = Some cb /\
            delivered cc cb msgs /\ delivered cb cc msgs'.
Proof.
  intros Hsha Ha Hb Hdh HiA HiB Hbl Hn HidA HidB Hacc Hconf Hname Hf Hf'.
  destruct Ha as [Ha1 Ha2], Hb as [Hb1 Hb2].
  destruct (honest_run (priv_bytes a) (pub_bytes (priv_public a)) idA (priv_bytes b) (pub_bytes (priv_public b)) idB blind iidA iidB acciid
    confirmA confirmB Hsha Ha1 Ha2 HiA Hb1 Hb2 HiB Hbl HidA HidB Hacc) as (code & _ & Hrun).
  destruct (Hrun (proj1 (Hconf code)) (proj2 (Hconf code))) as (wireA & wireB & Hw). destruct (Hw [] []) as (tA & tB & HA & HB & WA & WB).
  rewrite !app_nil_r in HA, HB. eexists wireA, wireB, _, _, code, tA, tB. split; [exact HA |]. split; [by rewrite WA |].
  split; [exact HB |]. split; [by rewrite WB |]. split; [done |]. split; [done |].
  intros args args' pairing Hc Hp Hres.
  destruct (material_mirrored b a iidA relay iidB relay nonce shared (conj Hb1 Hb2) (conj Ha1 Ha2) Hdh Hn) as (mc & mb & Hmc & Hmb & Hm).
  destruct (material_ready mc mb name Hm Hname) as (cc & cb & g1 & g2 & Hcc & Hcb & Hr1 & Hr2 & _).
  pose proof Hc as (_ & _ & _ & _ & _ & Hsend).
  exists (auth_request (str_bytes iidB) nonce (str_bytes (ca_Route args))), (auth_reply true).
  intros dial r r1 tr rest tr' r2 rest' Hd Hi Hi'.
  destruct (connect_ok dial args iidB _ nonce r r1 tr _ mc Hc Hd (runClient_ok iidB (ca_Route args) nonce true _ rest Hsend Hn Hi) Hmc)
    as (r1' & s & Hs & Hms & Hws).
  destruct (activate_ok args' pairing tr' r2 iidB _ nonce (ca_Route args) _ mb Hp Hres
    (runBackend_ok pairing iidB (ca_Route args) nonce _ _ rest' Hsend Hn Hres Hi') Hmb) as (r2' & s' & Hs' & Hms' & Hid & Hroute & Hws').
  exists r1', s, r2', s'. split_and!; try done.
  exists cc, cb. rewrite Hms, Hms'. unfold streamChannel. rewrite !lookup_empty, Hcc, Hcb.
  split_and!; [done | done | by eapply ready_delivers | by eapply ready_delivers].
Qed.

(** C2. Whoever connects, a backend's session is for a device its [Pairing]
    hook knows.  When [activate] returns a session, it read one message from the
    primary stream and asked the hook about the device that message
    names; the hook returned a record, the client was sent an acceptance, and
    the session has that device's id and the material of that record and of the
    16-byte nonce in the message. *)
Theorem backend_serves_only_paired_devices (args : RegisterArgs) pairing (tr : transport duplex) r r'
    (s : Session (W := duplex) (Material := SessionMaterial)) :
  ra_Pairing args = Some pairing -> listenerActivate args tr r = (r', Ok s) ->
  exists payload id nonce route rec m,
    (let '(t, h) := newGoTransportAdapter (primary tr) in
     observed (fun _ => false) (resolver pairing) (pigeon_run_backend_activation h 129 (maxRoute + 1)) t =
       [EvRecv h (Some payload); EvResolve (cstr id) (Some (recordToC (pairingRecordToCwire rec))); EvSend h (auth_reply true) true]) /\
    pigeon_decode_auth_request payload 129 129 = Some (id, nonce, route) /\ len nonce = 16 /\
    s_peerID s = GoString id /\ pairing (s_peerID s) = Ok (Some rec) /\
    deriveMaterial rec true nonce = Ok m /\ s_material s = Some m.
Proof.
  intros Hp Hact. destruct (session_keys_from_pairing (W := duplex) deriveMaterial) as [_ Hkeys].
  specialize (Hkeys _ _ _ _ _ _ Hact). rewrite Hp in Hkeys. destruct Hkeys as (w & ids & res & Hrun & Hid & Hkeys).
  cbn [ae_activation] in Hrun. pose proof (runBackend_ids _ _ _ _ _ Hrun) as Hids.
  destruct Hkeys as (rec & m & Hrec & Hm & Hmat); [intros id; rewrite Hids; apply list_elem_of_singleton |].
  unfold runBackend in Hrun. destruct (newGoTransportAdapter (primary tr)) as [t h].
  destruct (RunBackendActivation (activationArgs h (resolver pairing)) t) as [t' [bar|err]] eqn:Hb; [| done].
  destruct (backend_run h (resolver pairing) t t' bar Hb) as (payload & id & nonce & route & record & ok & Htr & Hd & Hn & Hbid & Hmatch).
  change (maxRoute + 1) with 129 in *. rewrite Htr in Hrun. injection Hrun as _ _ <-. cbn [toResult DeviceID Nonce] in Hid, Hm.
  exists payload, id, nonce, route, rec, m.
  assert (resolver pairing (barDeviceID bar) = Some (pairingRecordToCwire rec)) as Hres by (unfold resolver; by rewrite <-Hid, Hrec).
  rewrite Hres in Hmatch. destruct Hmatch as (_ & <- & _ & ->).
  assert (record = Some (recordToC (pairingRecordToCwire rec))) as ->.
  { destruct (interp_observed (fun _ => false) (resolver pairing) (pigeon_run_backend_activation h 129 129) t) as [_ Ha].
    rewrite Htr, !Forall_cons in Ha. destruct Ha as (_ & Ha & _). cbn [answers] in Ha. unfold cwireGoResolve in Ha.
    assert (HG : GoString (cstr id) = barDeviceID bar) by (rewrite Hbid; unfold GoString; by rewrite cstr_cstr).
    by rewrite HG, Hres in Ha. }
  rewrite Htr. split_and!; try done. by rewrite Hid.
Qed.

(** C31. A replayed activation reuses the keys.  The backend remembers no nonce:
    when the bytes of one activation are played to it again on another
    connection it accepts them again and the second session has the material of
    the first, so that on every stream name the first messages it sends in the
    two sessions are sealed under one key and one nonce, and what
    the client sent on a stream of the first session is received
    again, as new, in the second. *)
Theorem replayed_activation_reuses_keys (a b : PrivateKey) (shared nonce : bytes) (device route id url : string) (args : RegisterArgs) pairing
    (name : string) (msgs : list bytes) :
  goodKey a -> goodKey b -> ECDH a (priv_public b) = Ok shared -> len nonce = 16 -> sendable device route ->
  ra_Pairing args = Some pairing -> pairing device = Ok (Some (recordOf b a id url)) -> slen name <= 238 -> Forall fits msgs ->
  exists request, forall tr1 rest1 tr2 rest2 r1 r2,
    inp (primary tr1) = frame request ++ rest1 -> inp (primary tr2) = frame request ++ rest2 ->
    exists r1' s1 r2' s2, listenerActivate args tr1 r1 = (r1', Ok s1) /\ listenerActivate args tr2 r2 = (r2', Ok s2) /\
      s_material s1 = s_material s2 /\
      exists cb g, (streamChannel (s_material s1) ∅ name).2 = Some cb /\ (streamChannel (s_material s2) ∅ name).2 = Some cb /\
        (forall m, fits m -> exists c', Send (W := bytes) (Some cb) [] m = (Some c', frame (packet g 0 m), None)) /\
        exists mc cc, deriveMaterial (recordOf a b id url) false nonce = Ok mc /\ StreamChannel mc name = Ok cc /\ delivered cc cb msgs.
Proof.
  intros Ha Hb Hdh Hn Hsend Hp Hres Hname Hf. exists (auth_request (str_bytes device) nonce (str_bytes route)).
  destruct (material_mirrored a b id url id url nonce shared Ha Hb Hdh Hn) as (mc & mb & Hmc & Hmb & Hm).
  destruct (material_ready mc mb name Hm Hname) as (cc & cb & g1 & g2 & Hcc & Hcb & Hr1 & Hr2 & _ & Hz).
  intros tr1 rest1 tr2 rest2 r1 r2 Hi1 Hi2.
  destruct (activate_ok args pairing tr1 r1 device _ nonce route _ mb Hp Hres
    (runBackend_ok pairing device route nonce _ _ rest1 Hsend Hn Hres Hi1) Hmb) as (r1' & s1 & Hs1 & Hm1 & _).
  destruct (activate_ok args pairing tr2 r2 device _ nonce route _ mb Hp Hres
    (runBackend_ok pairing device route nonce _ _ rest2 Hsend Hn Hres Hi2) Hmb) as (r2' & s2 & Hs2 & Hm2 & _).
  exists r1', s1, r2', s2. split; [done |]. split; [done |]. split; [by rewrite Hm1, Hm2 |].
  exists cb, g2. rewrite Hm1, Hm2. unfold streamChannel. rewrite lookup_empty, Hcb. split_and!; [done | done | |].
  - intros m Hfm. pose proof Hr2 as (Hg & _). eexists. rewrite (send_pipe cb g2) by done. by rewrite Hz.
  - exists mc, cc. split_and!; [done | done |]. by eapply ready_delivers.
Qed.
End EndToEnd.

(** ** A desk and a phone *)

#[local] Existing Instance toySodium.

Definition clientArgs (rec : PairingRecord) : ConnectArgs :=
  {| ca_InstanceID := "desk"; ca_Route := "svc"; ca_Record := Some rec; ca_Identity := Some "phone"%string;
     ca_Relay := "https://relay"; ca_Token := ""; ca_Datagrams := []; ca_Streams := []; ca_PreferLAN := false |}.
Definition knows (rec : PairingRecord) (id : string) : result (option PairingRecord) :=
  if bool_decide (id = "phone"%string) then Ok (Some rec) else Ok None.
Definition backendArgs (rec : PairingRecord) : RegisterArgs :=
  {| ra_Identity := Some "desk"%string; ra_Pairing := Some (knows rec); ra_Discover := false; ra_Relay := "https://relay"; ra_Token := "";
     ra_Datagrams := []; ra_Streams := []; ra_LAN := false |}.
Definition listenConn (i : bytes) : transport duplex := {| tconn := 0; primary := {| inp := i; out := [] |}; instanceID := "desk" |}.

(** A relay that answers, then passes on [rest]. *)
Definition dialTo (rest : bytes) : DialEnv duplex :=
  {| eURL := Ok ("r"%string, ""%string); eDial := None; eOpen := Ok {| out := []; inp := frame (str_bytes "ok") ++ rest |} |}.
Definition dialConfig : Config := {| cToken := ""; cInstanceID := EmptyString; cWebTransport := false; cQUICPort := EmptyString |}.

Lemma dialed rest : exists r tr, dialInitiator (dialTo rest) "desk" dialConfig noRes = (r, Ok tr) /\ inp (primary tr) = rest.
Proof.
  unfold dialInitiator. assert (exists r c, dialWith (cWebTransport dialConfig) (dialTo rest) dialConfig noRes =
    (r, Ok (c, {| out := []; inp := frame (str_bytes "ok") ++ rest |}))) as (r & c & ->) by (by eexists _, _).
  unfold greet. rewrite writeMessage_duplex by (vm_compute; discriminate). cbn [out inp app].
  rewrite readMessage_duplex by (vm_compute; discriminate). by eexists _, _.
Qed.

Lemma clientArgs_connects rec : connects (clientArgs rec) "phone" rec.
Proof. unfold connects. split_and!; try done. by_dec. Qed.

Lemma paired_devices_interoperate_witness :
  exists recA recB dial r s s' i cc cb,
    (connect (P := toy) dial (replicate 16 x07) (clientArgs (ceremonyRecord recB "r")) r).2 = Ok s /\
    (listenerActivate (P := toy) (backendArgs (ceremonyRecord recA "r")) (listenConn i) noRes).2 = Ok s' /\ s_peerID s' = "phone"%string /\
    (streamChannel (P := toy) (s_material s) ∅ "chat").2 = Some cc /\ (streamChannel (P := toy) (s_material s') ∅ "chat").2 = Some cb /\
    delivered (P := toy) cc cb [[x41]; [x42; x43]].
Proof.
  destruct toy_goodKey as [H1 H2].
  destruct (paired_devices_interoperate (P := toy) key1 key2 (toy_add key2 key1) key1 key2 key2 (replicate 16 x07) "desk" "phone" "desk" "r"
    yes yes "chat" [[x41]; [x42; x43]] []) as (wA & wB & recA & recB & code & tA & tB & _ & _ & _ & _ & _ & _ & Hgo);
    [intros m; apply length_pad | exact H1 | exact H2 | vm_compute; reflexivity | reflexivity .. | by_dec | by_dec | discriminate |
     intros c; split; reflexivity | vm_compute; discriminate | repeat (constructor; [vm_compute; discriminate |]); constructor | constructor |].
  destruct (Hgo (clientArgs (ceremonyRecord recB "r")) (backendArgs (ceremonyRecord recA "r")) (knows (ceremonyRecord recA "r"))
    (clientArgs_connects _) eq_refl eq_refl) as (request & reply & Hrun).
  destruct (dialed (frame reply ++ [])) as (r1 & tr & Hd & Hi).
  destruct (Hrun (dialTo (frame reply ++ [])) noRes r1 tr [] (listenConn (frame request ++ [])) noRes [] Hd Hi eq_refl)
    as (r1' & s & r2' & s' & Hc & Ha & _ & _ & Hid & _ & cc & cb & Hcc & Hcb & Hdel & _).
  exists recA, recB, (dialTo (frame reply ++ [])), noRes, s, s', (frame request ++ []), cc, cb.
  split; [rewrite Hc; reflexivity |]. split; [rewrite Ha; reflexivity |]. split; [exact Hid |].
  split; [exact Hcc |]. split; [exact Hcb | exact Hdel].
Defined.

Definition deskRecord : PairingRecord := recordOf (P := toy) key2 key1 "phone" "r".
Definition phoneRequest : bytes := auth_request (str_bytes "phone") (replicate 16 x07) (str_bytes "svc").

Lemma backend_serves_only_paired_devices_witness :
  exists s, (listenerActivate (P := toy) (backendArgs deskRecord) (listenConn (frame phoneRequest)) noRes).2 = Ok s /\
    knows deskRecord (s_peerID s) = Ok (Some deskRecord) /\ is_Some (s_material s).
Proof.
  destruct (listenerActivate (P := toy) (backendArgs deskRecord) (listenConn (frame phoneRequest)) noRes) as [r' o] eqn:E.
  destruct o as [s|err]; [| apply (f_equal snd) in E; vm_compute in E; discriminate E].
  destruct (backend_serves_only_paired_devices (P := toy) (backendArgs deskRecord) (knows deskRecord) (listenConn (frame phoneRequest)) noRes r' s
    eq_refl E) as (payload & id & nonce & route & rec & m & _ & _ & _ & _ & Hk & _ & Hm).
  exists s. split; [reflexivity |]. rewrite Hm. split; [| eexists; reflexivity]. unfold knows in *.
  destruct (bool_decide _); [reflexivity | discriminate Hk].
Defined.

Lemma replayed_activation_reuses_keys_witness :
  exists i s1 s2, (listenerActivate (P := toy) (backendArgs deskRecord) (listenConn i) noRes).2 = Ok s1 /\
    (listenerActivate (P := toy) (backendArgs deskRecord) (listenConn i) noRes).2 = Ok s2 /\
    exists cb g c1 c2, (streamChannel (P := toy) (s_material s1) ∅ "chat").2 = Some cb /\
      (streamChannel (P := toy) (s_material s2) ∅ "chat").2 = Some cb /\
      Send (P := toy) (W := bytes) (Some cb) [] [x41] = (Some c1, frame (packet (P := toy) g 0 [x41]), None) /\
      Send (P := toy) (W := bytes) (Some cb) [] [x42] = (Some c2, frame (packet (P := toy) g 0 [x42]), None).
Proof.
  destruct toy_goodKey as [H1 H2].
  destruct (replayed_activation_reuses_keys (P := toy) key1 key2 (toy_add key1 key2) (replicate 16 x07) "phone" "svc" "phone" "r"
    (backendArgs deskRecord) (knows deskRecord) "chat" [[x43]]) as (request & Hrun);
    [exact H1 | exact H2 | vm_compute; reflexivity | reflexivity | by_dec | reflexivity | reflexivity | vm_compute; discriminate |
     repeat (constructor; [vm_compute; discriminate |]); constructor |].
  destruct (Hrun (listenConn (frame request ++ [])) [] (listenConn (frame request ++ [])) [] noRes noRes eq_refl eq_refl)
    as (r1 & s1 & r2 & s2 & Hs1 & Hs2 & _ & cb & g & Hc1 & Hc2 & Hsend & _).
  destruct (Hsend [x41]) as [c1 Hx]; [vm_compute; discriminate |]. destruct (Hsend [x42]) as [c2 Hy]; [vm_compute; discriminate |].
  exists (frame request ++ []), s1, s2. split; [rewrite Hs1; reflexivity |]. split; [rewrite Hs2; reflexivity |].
  exists cb, g, c1, c2. split; [exact Hc1 |]. split; [exact Hc2 |]. split; [exact Hx | exact Hy].
Defined.
