(* ===== verification/CSession.v ===== *)
(** * CSession: libpigeon's sessions behind cwire (c/src/pigeon.c, cwire/)

    The C library has sessions of its own, for the SDKs built on it; cwire wraps
    them for Go.  Here are the C session (its stream and datagram channels, its
    streams, datagrams and buffered incoming streams), the client's connect
    [pigeon_connect_on_transport], the wire codecs they use (c/src/wire_gen.c)
    and the Go wrappers over a Go transport; and that they are, on the wire, the
    sessions of the Go package. *)

From Stdlib Require Import ZArith Lia Strings.Byte Strings.String.
From stdpp Require Import base gmap strings list fin_maps.
From S2P Require Import Prelude Binary Text Wire WireTargets Channel Cwire Datagram Session Stream Dial Driver Activation Ceremony EndToEnd.

Open Scope Z_scope.

(** ** Codecs (c/src/wire_gen.c, cwire/cwire.go) *)

Definition PIGEON_MAX_VARINT_LEN : Z := 10.
Definition PIGEON_MAX_STREAM_HEADER : Z := PIGEON_MAX_VARINT_LEN + 256.

Definition pigeon_wire_stream_header_encode (name : bytes) (out_len : Z) : option bytes :=
  n ← pigeon_uvarint_encode (len name) out_len;
  if out_len <? len n + len name then None else Some (n ++ name).

(** The name and the bytes read; [name_buf] must hold its NUL too. *)
Definition pigeon_wire_stream_header_decode (buf : bytes) (name_buf_len : Z) : option (bytes * Z) :=
  let '(ln, n) := pigeon_uvarint_decode buf in
  if n <=? 0 then None else
  if len buf - n <? ln then None else
  if name_buf_len <? ln + 1 then None else
  Some (slice_to (slice_from buf n) ln, n + ln).

Definition pigeon_wire_datagram_plaintext_encode (channel_id : Z) (payload : bytes) (out_len : Z) : option bytes :=
  n ← pigeon_uvarint_encode channel_id out_len;
  if out_len <? len n + len payload then None else Some (n ++ payload).

Definition pigeon_wire_datagram_plaintext_decode (buf : bytes) (payload_buf_len : Z) : option (Z * bytes) :=
  let '(v, n) := pigeon_uvarint_decode buf in
  if n <=? 0 then None else
  if payload_buf_len <? len buf - n then None else Some (v, slice_from buf n).

(** The wrappers of cwire.go, named as there with the package's prefix. *)
Definition cwEncodeUvarint (v : Z) : option bytes := pigeon_uvarint_encode v 10.
Definition cwDecodeUvarint (buf : bytes) : result (Z * Z) :=
  if len buf =? 0 then Err (ENew "cwire: empty buf") else
  let '(v, n) := pigeon_uvarint_decode buf in
  if 0 <? n then Ok (v, n) else
  if n =? 0 then Err (ENew "cwire: truncated varint") else Err (ENew "cwire: malformed varint").

(** [C.CString] copies the whole name; its length is passed along. *)
Definition cwEncodeStreamHeader (name : string) : result bytes :=
  match pigeon_wire_stream_header_encode (str_bytes name) PIGEON_MAX_STREAM_HEADER with
  | None => Err (ENew "cwire: encode_stream_header failed")
  | Some b => Ok b
  end.
Definition cwDecodeStreamHeader (buf : bytes) : result (string * Z) :=
  if len buf =? 0 then Err (ENew "cwire: empty buf") else
  match pigeon_wire_stream_header_decode buf 256 with
  | None => Err (ENew "cwire: decode_stream_header failed")
  | Some (name, n) => Ok (bytes_str name, n)
  end.

(** ** Sessions *)

Definition PIGEON_MAX_DATAGRAM_CHANNELS : Z := 16.
Definition PIGEON_MAX_NAME_LEN : Z := 64.
Definition PIGEON_SESSION_MAX_INCOMING : nat := 8.
Definition PIGEON_DG_AEAD_OVERHEAD : Z := 24.
Definition PIGEON_DG_CID_BUDGET : Z := 10.
(** The buffers of the stream and datagram functions. *)
Definition scratchCap : Z := PIGEON_MAX_MSG + 64.

Record pigeon_dgchannel_def := {
  dgName : bytes;
  dgID : Z
}.

(** A channel that is not established is [None]; the base keys are there when
    [keys_ready]; a slot of [incoming] that is not in use is [None]. *)
Record pigeon_session := {
  csKeys : option (bytes * bytes);
  csChannel : option pigeon_channel;
  csDgChannel : option pigeon_channel;
  csDatagrams : list pigeon_dgchannel_def;
  csMaxDgPayload : Z;
  csNextDgMsgID : Z;
  csPrimary : option handle;
  csIncoming : list (option (handle * bytes))
}.

Record pigeon_stream := {
  stHandle : option handle;
  stName : bytes;
  stAead : option pigeon_channel
}.

Record pigeon_datagram_part := {
  partMsgID : Z;
  partIndex : Z;
  partTotal : Z
}.

Section Session.
Context {P : Primitives} {So : Sodium P}.

Definition pigeon_session_stream_aead (keys : bytes * bytes) (name : bytes) : option pigeon_channel :=
  if PIGEON_MAX_NAME_LEN <=? len name then None else
  let info := str_bytes "pigeon/v1/stream:" ++ name in
  sk ← pigeon_diversify_key keys.1 info;
  rk ← pigeon_diversify_key keys.2 info;
  Some (pigeon_channel_init sk rk ModeStrict).

(** The stream channel of the empty name and the datagram channel. *)
Definition pigeon_session_bind_base_keys (keys : bytes * bytes) : option (pigeon_channel * pigeon_channel) :=
  ch ← pigeon_session_stream_aead keys [];
  let dinfo := str_bytes "pigeon/v1/datagram" in
  sk ← pigeon_diversify_key keys.1 dinfo;
  rk ← pigeon_diversify_key keys.2 dinfo;
  Some (ch, pigeon_channel_init sk rk ModeDatagrams).

Fixpoint dgchannels_ok (seen : list Z) (defs : list pigeon_dgchannel_def) : bool :=
  match defs with
  | [] => true
  | d :: defs =>
      let nl := len (cstr (dgName d)) in
      negb (dgID d =? 0) && negb (nl =? 0) && (nl <? PIGEON_MAX_NAME_LEN) && negb (bool_decide (dgID d ∈ seen))
      && dgchannels_ok (seen ++ [dgID d]) defs
  end.

Definition pigeon_session_init (channel : option pigeon_channel) (datagrams : list pigeon_dgchannel_def) : option pigeon_session :=
  if PIGEON_MAX_DATAGRAM_CHANNELS <? len datagrams then None else
  let session keys ch dg :=
    if dgchannels_ok [] datagrams then
      Some {| csKeys := keys; csChannel := ch; csDgChannel := dg; csDatagrams := datagrams; csMaxDgPayload := MaxDatagramPayload;
              csNextDgMsgID := 1; csPrimary := None; csIncoming := replicate PIGEON_SESSION_MAX_INCOMING None |}
    else None in
  match channel with
  | None => session None None None
  | Some c =>
      let keys := (send_key c, recv_key c) in
      '(ch, dg) ← pigeon_session_bind_base_keys keys;
      session (Some keys) (Some ch) (Some dg)
  end.

(** [Some None]: pairing mode, no AEAD. *)
Definition pigeon_stream_bind_aead (s : pigeon_session) (name : bytes) : option (option pigeon_channel) :=
  match csKeys s with
  | None => Some None
  | Some keys => ch ← pigeon_session_stream_aead keys name; Some (Some ch)
  end.

Definition pigeon_session_primary (s : pigeon_session) : option pigeon_stream :=
  h ← csPrimary s;
  aead ← pigeon_stream_bind_aead s [];
  Some {| stHandle := Some h; stName := []; stAead := aead |}.

Definition pigeon_session_get_datagram (s : pigeon_session) (name : bytes) : option Z :=
  dgID <$> head (filter (fun d => cstr (dgName d) = name) (csDatagrams s)).

(** *** Streams *)

Section Streams.
Context {T : Type} `{!GoTransport T}.

Definition pigeon_session_open_stream (s : pigeon_session) (name : bytes) (t : T) : T * option pigeon_stream :=
  if (len name =? 0) || (PIGEON_MAX_NAME_LEN <=? len name) then (t, None) else
  match cwireGoOpenStream t with
  | (t, 0, Some h) =>
      match pigeon_wire_stream_header_encode name PIGEON_MAX_STREAM_HEADER with
      | None => ((cwireGoCloseStream t h).1, None)
      | Some hdr =>
          let '(t, rv) := cwireGoSendOnStream t h hdr in
          if negb (rv =? 0) then ((cwireGoCloseStream t h).1, None) else
          match pigeon_stream_bind_aead s name with
          | None => ((cwireGoCloseStream t h).1, None)
          | Some aead => (t, Some {| stHandle := Some h; stName := name; stAead := aead |})
          end
      end
  | (t, _, _) => (t, None)
  end.

Definition with_aead (st : pigeon_stream) (ch : pigeon_channel) : pigeon_stream :=
  {| stHandle := stHandle st; stName := stName st; stAead := Some ch |}.

Definition pigeon_stream_send (st : pigeon_stream) (msg : bytes) (t : T) : pigeon_stream * T * Z :=
  match stHandle st with
  | None => (st, t, -1)
  | Some h =>
      match stAead st with
      | None => let '(t, rv) := cwireGoSendOnStream t h msg in (st, t, rv)
      | Some ch =>
          let '(ch, ctn, scratch) := pigeon_channel_encrypt ch msg scratchCap in
          let st := with_aead st ch in
          if ctn <? 0 then (st, t, -1)
          else let '(t, rv) := cwireGoSendOnStream t h (slice_to scratch ctn) in (st, t, rv)
      end
  end.

(** The count is an [int]. *)
Definition pigeon_stream_recv (st : pigeon_stream) (buf_len : Z) (t : T) : pigeon_stream * T * Z * bytes :=
  match stHandle st with
  | None => (st, t, -1, [])
  | Some h =>
      match stAead st with
      | None =>
          let '(t, rv, buf) := cwireGoRecvOnStream t h buf_len in
          if negb (rv =? 0) then (st, t, -1, []) else (st, t, i32 (len buf), buf)
      | Some ch =>
          let '(t, rv, scratch) := cwireGoRecvOnStream t h scratchCap in
          if negb (rv =? 0) then (st, t, -1, []) else
          let '(ch, rv, buf) := pigeon_channel_decrypt ch scratch buf_len in (with_aead st ch, t, rv, buf)
      end
  end.

Definition pigeon_stream_close (st : pigeon_stream) (t : T) : T * Z :=
  match stHandle st with None => (t, -1) | Some h => cwireGoCloseStream t h end.

(** cwire's table has no [reset_stream]. *)
Definition pigeon_stream_reset (st : pigeon_stream) (t : T) : T * Z := pigeon_stream_close st t.

(** *** Incoming streams (c/src/listener.c) *)

Definition with_incoming (s : pigeon_session) (l : list (option (handle * bytes))) : pigeon_session :=
  {| csKeys := csKeys s; csChannel := csChannel s; csDgChannel := csDgChannel s; csDatagrams := csDatagrams s;
     csMaxDgPayload := csMaxDgPayload s; csNextDgMsgID := csNextDgMsgID s; csPrimary := csPrimary s; csIncoming := l |}.

(** The first slot that satisfies [p]. *)
Fixpoint findSlot (p : option (handle * bytes) -> bool) (l : list (option (handle * bytes))) : option (nat * option (handle * bytes)) :=
  match l with
  | [] => None
  | x :: l => if p x then Some (0%nat, x) else (fun ix => (S ix.1, ix.2)) <$> findSlot p l
  end.
Definition slotNamed (name : bytes) (x : option (handle * bytes)) : bool :=
  match x with Some (_, n) => bool_decide (n = name) | None => false end.
Definition slotFree (x : option (handle * bytes)) : bool := match x with None => true | Some _ => false end.

Definition boundStream (s : pigeon_session) (h : handle) (name : bytes) : option pigeon_stream :=
  aead ← pigeon_stream_bind_aead s name; Some {| stHandle := Some h; stName := name; stAead := aead |}.

(** The loop that pulls streams off the transport until one has the name; [None]:
    more than [fuel] streams were pulled. *)
Fixpoint pullIncoming (fuel : nat) (s : pigeon_session) (name : bytes) (t : T) : option (pigeon_session * T * option pigeon_stream) :=
  match fuel with
  | O => None
  | S fuel =>
      match cwireGoAcceptStream t with
      | (t, 0, Some h) =>
          let '(t, rv, hdr) := cwireGoRecvOnStream t h PIGEON_MAX_STREAM_HEADER in
          if negb (rv =? 0) then pullIncoming fuel s name (cwireGoCloseStream t h).1 else
          match pigeon_wire_stream_header_decode hdr PIGEON_MAX_NAME_LEN with
          | None => pullIncoming fuel s name (cwireGoCloseStream t h).1
          | Some (sname, _) =>
              let sname := cstr sname in
              if bool_decide (sname = name) then Some (s, t, boundStream s h sname) else
              match findSlot slotFree (csIncoming s) with
              | Some (i, _) => pullIncoming fuel (with_incoming s (<[i := Some (h, sname)]> (csIncoming s))) name t
              | None => pullIncoming fuel s name (cwireGoCloseStream t h).1
              end
          end
      | (t, _, _) => Some (s, t, None)
      end
  end.

Definition pigeon_session_accept_incoming_stream (fuel : nat) (s : pigeon_session) (name : bytes) (t : T)
    : option (pigeon_session * T * option pigeon_stream) :=
  match findSlot (slotNamed name) (csIncoming s) with
  | Some (i, Some (h, _)) =>
      let s := with_incoming s (<[i := None]> (csIncoming s)) in
      Some (s, t, boundStream s h (slice_to name (PIGEON_MAX_NAME_LEN - 1)))
  | _ => pullIncoming fuel s name t
  end.

(** The buffered streams are closed. *)
Definition pigeon_session_close (s : pigeon_session) (t : T) : pigeon_session * T :=
  (with_incoming s (map (fun _ => None) (csIncoming s)),
   foldl (fun t x => match x with Some (h, _) => (cwireGoCloseStream t h).1 | None => t end) t (csIncoming s)).
End Streams.

(** *** Datagrams *)

Definition with_dg (s : pigeon_session) (ch : pigeon_channel) : pigeon_session :=
  {| csKeys := csKeys s; csChannel := csChannel s; csDgChannel := Some ch; csDatagrams := csDatagrams s;
     csMaxDgPayload := csMaxDgPayload s; csNextDgMsgID := csNextDgMsgID s; csPrimary := csPrimary s; csIncoming := csIncoming s |}.
Definition with_nextMsg (s : pigeon_session) (n : Z) : pigeon_session :=
  {| csKeys := csKeys s; csChannel := csChannel s; csDgChannel := csDgChannel s; csDatagrams := csDatagrams s;
     csMaxDgPayload := csMaxDgPayload s; csNextDgMsgID := n; csPrimary := csPrimary s; csIncoming := csIncoming s |}.

(** The sealed bytes, [None] on -1. *)
Definition pigeon_encode_datagram (ch : pigeon_channel) (channel_id : Z) (payload : bytes) (out_len : Z)
    : pigeon_channel * option bytes :=
  if PIGEON_MAX_MSG <? len payload then (ch, None) else
  match pigeon_wire_datagram_plaintext_encode channel_id payload (PIGEON_MAX_VARINT_LEN + PIGEON_MAX_MSG) with
  | None => (ch, None)
  | Some plain =>
      let '(ch, ct, out) := pigeon_channel_encrypt ch plain out_len in
      (ch, if ct <? 0 then None else Some (slice_to out ct))
  end.

Definition pigeon_decode_datagram (ch : pigeon_channel) (wire : bytes) (payload_buf_len : Z) : pigeon_channel * option (Z * bytes) :=
  let '(ch, pn, plain) := pigeon_channel_decrypt ch wire PIGEON_MAX_MSG in
  if pn <? 0 then (ch, None) else (ch, pigeon_wire_datagram_plaintext_decode (slice_to plain pn) payload_buf_len).

(** [cwire.EncodeDatagram] and [cwire.DecodeDatagram]: with a fresh channel. *)
Definition cwEncodeDatagram (sendKey recvKey : bytes) (channelID : Z) (payload : bytes) : result bytes :=
  if negb (len sendKey =? 32) || negb (len recvKey =? 32) then Err (ENew "cwire: keys must be 32 bytes") else
  match (pigeon_encode_datagram (pigeon_channel_init sendKey recvKey ModeDatagrams) channelID payload (len payload + 128)).2 with
  | None => Err (ENew "cwire: encode_datagram failed")
  | Some out => Ok out
  end.
Definition cwDecodeDatagram (sendKey recvKey : bytes) (wire : bytes) : result (Z * bytes) :=
  if negb (len sendKey =? 32) || negb (len recvKey =? 32) then Err (ENew "cwire: keys must be 32 bytes") else
  if len wire =? 0 then Err (ENew "cwire: empty wire") else
  match (pigeon_decode_datagram (pigeon_channel_init sendKey recvKey ModeDatagrams) wire (len wire)).2 with
  | None => Err (ENew "cwire: decode_datagram failed")
  | Some r => Ok r
  end.

Definition pigeon_dg_chunk_budget (max_payload outer_oh : Z) : Z :=
  if max_payload <=? outer_oh + PIGEON_DG_AEAD_OVERHEAD + PIGEON_DG_CID_BUDGET then 1
  else max_payload - outer_oh - PIGEON_DG_AEAD_OVERHEAD - PIGEON_DG_CID_BUDGET.

(** What the function returns, or reading outside the payload. *)
Inductive sent :=
  | SentRv (rv : Z)
  | SentOutOfBounds.

Section Datagrams.
Context {T : Type} `{!GoTransport T}.

Definition fragmentHeader (msg_id i total : Z) : bytes :=
  DgConnFragment :: be_put 4 msg_id ++ be_put 2 (u16 i) ++ be_put 2 (u16 total).

(** The loop over the parts; [n] counts those left. *)
Fixpoint sendParts (n : nat) (s : pigeon_session) (channel_id msg_id i total chunk_budget : Z) (payload : bytes) (t : T)
    : pigeon_session * T * sent :=
  match n, csDgChannel s with
  | O, _ => (s, t, SentRv 0)
  | S _, None => (s, t, SentRv (-1))
  | S n, Some ch =>
      let start := i * chunk_budget in
      let stop := if len payload <? start + chunk_budget then len payload else start + chunk_budget in
      match slice payload start stop with
      | None => (s, t, SentOutOfBounds)
      | Some chunk =>
          match pigeon_encode_datagram ch channel_id chunk scratchCap with
          | (ch, None) => (with_dg s ch, t, SentRv (-1))
          | (ch, Some ct) =>
              let s := with_dg s ch in
              if scratchCap <? 1 + FragHeaderSize + len ct then (s, t, SentRv (-1)) else
              let '(t, rv) := cwireGoSendDatagram t (fragmentHeader msg_id i total ++ ct) in
              if negb (rv =? 0) then (s, t, SentRv (-1))
              else sendParts n s channel_id msg_id (i + 1) total chunk_budget payload t
          end
      end
  end.

Definition pigeon_datagram_send (s : pigeon_session) (channel_id : Z) (payload : bytes) (t : T) : pigeon_session * T * sent :=
  match csDgChannel s with
  | None => (s, t, SentRv (-1))
  | Some ch =>
      let max_p := if csMaxDgPayload s =? 0 then MaxDatagramPayload else csMaxDgPayload s in
      if len payload <=? pigeon_dg_chunk_budget max_p 1 then
        match pigeon_encode_datagram ch channel_id payload scratchCap with
        | (ch, None) => (with_dg s ch, t, SentRv (-1))
        | (ch, Some ct) =>
            let s := with_dg s ch in
            if scratchCap <? len ct + 1 then (s, t, SentRv (-1)) else
            let '(t, rv) := cwireGoSendDatagram t (DgConnWhole :: ct) in (s, t, SentRv rv)
        end
      else
        let chunk_budget := pigeon_dg_chunk_budget max_p (1 + FragHeaderSize) in
        if chunk_budget <? 1 then (s, t, SentRv (-1)) else
        let total := (len payload + chunk_budget - 1) / chunk_budget in
        let total := if total <? 2 then 2 else total in
        if 65535 <? total then (s, t, SentRv (-1)) else
        let msg_id := csNextDgMsgID s in
        let next := u32 (msg_id + 1) in
        sendParts (Z.to_nat total) (with_nextMsg s (if next =? 0 then 1 else next)) channel_id msg_id 0 total chunk_budget payload t
  end.

(** The framing of a received datagram: [None] refuses it. *)
Definition partOf (data : bytes) : option (pigeon_datagram_part * bytes) :=
  match data with
  | [] => None
  | tag :: ct =>
      if bool_decide (tag = DgConnWhole) then Some ({| partMsgID := 0; partIndex := 0; partTotal := 1 |}, ct) else
      if (1 + FragHeaderSize <=? len data) && bool_decide (tag = DgConnFragment) then
        let msg_id := be_get (take 4 (drop 1 data)) in
        let index := be_get (take 2 (drop 5 data)) in
        let total := be_get (take 2 (drop 7 data)) in
        if (total <? 2) || (total <=? index) then None
        else Some ({| partMsgID := msg_id; partIndex := index; partTotal := total |}, drop 9 data)
      else Some ({| partMsgID := 0; partIndex := 0; partTotal := 1 |}, data)
  end.

(** The count, -1, or -2 for another channel's datagram; with the payload and the
    part when it is a count. *)
Definition pigeon_datagram_recv (s : pigeon_session) (channel_id buf_len : Z) (t : T)
    : pigeon_session * T * Z * option (pigeon_datagram_part * bytes) :=
  match csDgChannel s with
  | None => (s, t, -1, None)
  | Some ch =>
      let '(t, rv, data) := cwireGoRecvDatagram t scratchCap in
      if negb (rv =? 0) then (s, t, -1, None) else
      match partOf data with
      | None => (s, t, -1, None)
      | Some (part, ct) =>
          let '(ch, r) := pigeon_decode_datagram ch ct buf_len in
          let s := with_dg s ch in
          match r with
          | None => (s, t, -1, None)
          | Some (cid, buf) =>
              if negb (cid =? channel_id) then (s, t, -2, None) else (s, t, i32 (len buf), Some (part, buf))
          end
      end
  end.
End Datagrams.

(** *** Connecting *)

Definition derive_session_channel (rec : pigeon_pairing_record) (send_info recv_info : string) (nonce : bytes)
    : option (bytes * bytes) :=
  if (64 <? slen send_info + PIGEON_AUTH_NONCE_LEN) || (64 <? slen recv_info + PIGEON_AUTH_NONCE_LEN) then None else
  sk ← pigeon_derive_session_key (local_private_key rec) (peer_public_key rec) (str_bytes send_info ++ nonce);
  rk ← pigeon_derive_session_key (local_private_key rec) (peer_public_key rec) (str_bytes recv_info ++ nonce);
  Some (sk, rk).

Definition with_primary (s : pigeon_session) (h : handle) : pigeon_session :=
  {| csKeys := csKeys s; csChannel := csChannel s; csDgChannel := csDgChannel s; csDatagrams := csDatagrams s;
     csMaxDgPayload := csMaxDgPayload s; csNextDgMsgID := csNextDgMsgID s; csPrimary := Some h; csIncoming := csIncoming s |}.

Section Connect.
Context {T : Type} `{!GoTransport T}.

(** [nonce] is what the activation draws; its route is empty. *)
Definition pigeon_connect_on_transport (nonce : bytes) (primary_handle : handle) (device_id : bytes)
    (record : option pigeon_pairing_record) (datagrams : list pigeon_dgchannel_def) (t : T) : T * option pigeon_session :=
  let finish t channel := (t, (fun s => with_primary s primary_handle) <$> pigeon_session_init channel datagrams) in
  match record with
  | None =>
      let '(t, rv) := cwireGoSendOnStream t primary_handle [] in
      if negb (rv =? 0) then (t, None) else finish t None
  | Some rec =>
      if len device_id =? 0 then (t, None) else
      let '(t, r) := interp (fun _ => false) (fun _ => None) (pigeon_run_client_activation primary_handle device_id [] nonce) t in
      match r with
      | None => (t, None)
      | Some session_nonce =>
          match derive_session_channel rec "client->backend" "backend->client" session_nonce with
          | None => (t, None)
          | Some (sk, rk) => finish t (Some (pigeon_channel_init sk rk ModeStrict))
          end
      end
  end.
End Connect.

(** ** The Go wrappers (cwire/) *)

(** [for i := range name { dst[i] = C.char(name[i]) }] into a zeroed array: over a
    Go string the loop visits the first byte of each rune. *)
Fixpoint rangeCopyLoop (fuel : nat) (name : bytes) : bytes :=
  match fuel, name with
  | S fuel, b :: _ => let w := (decodeRune name).2 in b :: replicate (w - 1) x00 ++ rangeCopyLoop fuel (drop w name)
  | _, _ => []
  end.
Definition rangeCopy (name : string) : bytes := rangeCopyLoop (length (str_bytes name)) (str_bytes name).

(** The declared channels as an array of C structs of 16 entries and names of 64
    bytes; [copyName] is how the name is copied. *)
Definition tooMany (datagrams : list (string * Z)) : bool := 16 <? len datagrams.
Definition nameTooLong (datagrams : list (string * Z)) : bool := existsb (fun dc => 64 <=? slen dc.1) datagrams.
Definition dgDefs (copyName : string -> bytes) (datagrams : list (string * Z)) : list pigeon_dgchannel_def :=
  map (fun dc => {| dgName := copyName dc.1; dgID := dc.2 |}) datagrams.

Definition NewGoSession (ref : GoTransportRef) (ch : option pigeon_channel) (datagrams : list (string * Z)) : result pigeon_session :=
  if negb (refOpen ref) then Err (ENew "cwire: nil GoTransportRef") else
  match ch with
  | None => Err (ENew "cwire: nil channel")
  | Some _ =>
      if tooMany datagrams then Err (ENew "cwire: too many datagram channels") else
      if nameTooLong datagrams then Err (ENew "cwire: datagram channel name too long") else
      match pigeon_session_init ch (dgDefs str_bytes datagrams) with
      | None => Err (ENew "cwire: pigeon_session_init failed")
      | Some s => Ok s
      end
  end.

Section Wrappers.
Context {T : Type} `{!GoTransport T}.

Definition cwOpenStream (s : pigeon_session) (name : string) (t : T) : T * result pigeon_stream :=
  match pigeon_session_open_stream s (CString name) t with
  | (t, None) => (t, Err (ENew "cwire: pigeon_session_open_stream failed"))
  | (t, Some st) => (t, Ok st)
  end.

Definition AcceptStreamFromGo (s : pigeon_session) (ref : GoTransportRef) (t : T) : T * result (pigeon_stream * string) :=
  if negb (refOpen ref) then (t, Err (ENew "cwire: nil GoTransportRef")) else
  match gtAcceptStream t with
  | (t, Err err) => (t, Err err)
  | (t, Ok h) =>
      match gtRecvOnStream t h with
      | (t, Err err) => (t, Err err)
      | (t, Ok hdr) =>
          (t, let! (name, _) := cwDecodeStreamHeader hdr in
              if 64 <=? slen name then Err (ENew "cwire: accepted name too long") else
              match boundStream s h (cstr (rangeCopy name)) with
              | None => Err (ENew "cwire: pigeon_stream_bind_aead failed")
              | Some st => Ok (st, name)
              end)
      end
  end.

Definition AcceptIncomingStream (fuel : nat) (s : option pigeon_session) (name : string) (t : T)
    : option (option pigeon_session * T * result pigeon_stream) :=
  match s with
  | None => Some (None, t, Err (ENew "cwire: AcceptIncomingStream: nil session"))
  | Some s =>
      '(s, t, r) ← pigeon_session_accept_incoming_stream fuel s (CString name) t;
      Some (Some s, t, match r with
                       | None => Err (ENew "cwire: pigeon_session_accept_incoming_stream failed")
                       | Some st => Ok st
                       end)
  end.

Definition cwStreamSend (st : pigeon_stream) (msg : bytes) (t : T) : pigeon_stream * T * option error :=
  let '(st, t, rv) := pigeon_stream_send st msg t in
  (st, t, if negb (rv =? 0) then Some (ENew "cwire: stream_send failed") else None).

Definition recvBuf : Z := 2 ^ 20.

Definition cwStreamRecv (st : pigeon_stream) (t : T) : pigeon_stream * T * result bytes :=
  let '(st, t, n, out) := pigeon_stream_recv st recvBuf t in
  (st, t, if n <? 0 then Err (ENew "cwire: stream_recv failed") else Ok (slice_to out n)).

Definition cwStreamClose (st : pigeon_stream) (t : T) : pigeon_stream * T :=
  match stHandle st with
  | None => (st, t)
  | Some _ => ({| stHandle := None; stName := stName st; stAead := stAead st |}, (pigeon_stream_close st t).1)
  end.

Definition cwDatagram (s : pigeon_session) (name : string) : result Z :=
  match pigeon_session_get_datagram s (CString name) with
  | None => Err (ENew "cwire: pigeon_session_get_datagram failed")
  | Some id => Ok id
  end.

(** [None]: undefined behaviour of C. *)
Definition cwDatagramSend (s : pigeon_session) (id : Z) (payload : bytes) (t : T) : option (pigeon_session * T * option error) :=
  match pigeon_datagram_send s id payload t with
  | (s, t, SentRv rv) => Some (s, t, if negb (rv =? 0) then Some (ENew "cwire: datagram_send failed") else None)
  | (_, _, SentOutOfBounds) => None
  end.

(** The part's numbers stay in C. *)
Definition cwDatagramRecv (s : pigeon_session) (id : Z) (t : T) : pigeon_session * T * result bytes :=
  let '(s, t, n, out) := pigeon_datagram_recv s id recvBuf t in
  (s, t, if n =? -2 then Err (ENew "cwire: wrong channel") else
         if n <? 0 then Err (ENew "cwire: datagram_recv failed") else
         Ok (match out with Some (_, buf) => slice_to buf n | None => [] end)).

(** A closed session has no C struct. *)
Definition cwSessionClose (s : option pigeon_session) (t : T) : option pigeon_session * T :=
  match s with
  | None => (None, t)
  | Some s => (None, (pigeon_session_close s t).2)
  end.

(** *** Connect *)

Record cwConnectArgs := {
  ccaRef : GoTransportRef;
  ccaPrimary : option handle;
  ccaPeerInstanceID : string;
  ccaDeviceID : string;
  ccaRecord : option cwRecord;
  ccaDatagrams : list (string * Z)
}.

(** The checks of the record, which is then copied. *)
Definition connectRecord (r : cwRecord) : result pigeon_pairing_record :=
  if negb (len (cwLocalPrivKey r) =? 32) || negb (len (cwLocalPubKey r) =? 32) || negb (len (cwPeerPubKey r) =? 32)
  then Err (ENew "cwire: Connect: PairingRecord keys must be 32 bytes") else
  if 64 <=? slen (cwPeerInstanceID r) then Err (ENew "cwire: Connect: PeerInstanceID too long in PairingRecord") else
  Ok {| peer_instance_id := cstr (rangeCopy (cwPeerInstanceID r)); local_private_key := cwLocalPrivKey r;
        local_public_key := cwLocalPubKey r; peer_public_key := cwPeerPubKey r |}.

Definition cwConnect (nonce : bytes) (args : option cwConnectArgs) (t : T) : T * result pigeon_session :=
  match args with
  | None => (t, Err (ENew "cwire: Connect: args is nil"))
  | Some a =>
      if negb (refOpen (ccaRef a)) then (t, Err (ENew "cwire: Connect: nil GoTransportRef")) else
      match ccaPrimary a with
      | None => (t, Err (ENew "cwire: Connect: nil primary stream handle"))
      | Some primary =>
          if bool_decide (ccaPeerInstanceID a = EmptyString) then (t, Err (ENew "cwire: Connect: PeerInstanceID required")) else
          if bool_decide (ccaRecord a <> None) && bool_decide (ccaDeviceID a = EmptyString)
          then (t, Err (ENew "cwire: Connect: DeviceID required in activation mode")) else
          if bool_decide (ccaRecord a = None) && bool_decide (ccaDeviceID a <> EmptyString)
          then (t, Err (ENew "cwire: Connect: DeviceID must be empty in pairing mode")) else
          if tooMany (ccaDatagrams a) then (t, Err (ENew "cwire: Connect: too many datagram channels")) else
          match match ccaRecord a with None => Ok None | Some r => let! c := connectRecord r in Ok (Some c) end with
          | Err err => (t, Err err)
          | Ok crec =>
              if nameTooLong (ccaDatagrams a) then (t, Err (ENew "cwire: Connect: datagram channel name too long")) else
              match pigeon_connect_on_transport nonce primary (CString (ccaDeviceID a)) crec (dgDefs rangeCopy (ccaDatagrams a)) t with
              | (t, None) => (t, Err (ENew "cwire: pigeon_connect_on_transport failed"))
              | (t, Some s) => (t, Ok s)
              end
          end
      end
  end.

Definition ConnectOnTransport (nonce : bytes) (ref : GoTransportRef) (primaryHandle : option handle) (peerInstanceID deviceID : string)
    (record : option cwRecord) (datagrams : list (string * Z)) (t : T) : T * result pigeon_session :=
  if negb (refOpen ref) then (t, Err (ENew "cwire: ConnectOnTransport: nil ref")) else
  match primaryHandle with
  | None => (t, Err (ENew "cwire: ConnectOnTransport: nil primary handle"))
  | Some primary =>
      if bool_decide (peerInstanceID = EmptyString) then (t, Err (ENew "cwire: ConnectOnTransport: empty peerInstanceID")) else
      match record with
      | None => (t, Err (ENew "cwire: ConnectOnTransport: nil record"))
      | Some record =>
          if bool_decide (deviceID = EmptyString) then (t, Err (ENew "cwire: ConnectOnTransport: empty deviceID")) else
          if tooMany datagrams then (t, Err (ENew "cwire: ConnectOnTransport: too many datagram channels")) else
          if nameTooLong datagrams then (t, Err (ENew "cwire: ConnectOnTransport: datagram channel name too long")) else
          match pigeon_connect_on_transport nonce primary (CString deviceID) (Some (recordToC record)) (dgDefs str_bytes datagrams) t with
          | (t, None) => (t, Err (ENew "cwire: pigeon_connect_on_transport failed"))
          | (t, Some s) => (t, Ok s)
          end
      end
  end.
End Wrappers.
End Session.

(** ** Lemmas: channels *)

Section Equivalence.
Context {P : Primitives} {So : Sodium P} {PL : PrimitivesLaws P} {SL : SodiumLaws So}.

(** [pigeon_diversify_key] gives keys of 32 bytes. *)
Lemma diversified base info : len info <= 255 ->
  exists k, pigeon_diversify_key base info = Some k /\ len k = 32.
Proof.
  intros Hl. unfold pigeon_diversify_key, hkdf_sha256. change (32 <? 32) with false. rewrite (proj2 (Z.ltb_ge _ _)) by lia.
  eexists. split; [done |]. unfold len. by rewrite length_hmac.
Qed.

Lemma expanded k info : len k = 32 -> slen info <= 255 ->
  exists k', pigeon_diversify_key k (str_bytes info) = Some k' /\ ExpandKey k info = Ok k' /\ len k' = 32.
Proof.
  intros Hk Hi. destruct (diversified k (str_bytes info) Hi) as (k' & Hd & Hl). exists k'. unfold ExpandKey.
  rewrite Hk, Hd. done.
Qed.

(** The C library's stream and datagram channels are cwire's. *)
Lemma stream_aead_go m name : len (SendKey m) = 32 -> len (RecvKey m) = 32 -> slen name < 64 ->
  exists ch, StreamChannel m name = Ok ch /\ pigeon_session_stream_aead (SendKey m, RecvKey m) (str_bytes name) = Some ch.
Proof.
  intros Hs Hr Hn. unfold StreamChannel, pigeon_session_stream_aead. cbn [fst snd]. unfold PIGEON_MAX_NAME_LEN, slen in *.
  rewrite (proj2 (Z.leb_gt _ _)) by lia.
  assert (slen (aeadStreamInfoPrefix +:+ name) <= 255) as Hi
    by (unfold slen; rewrite str_bytes_app, len_app; change (len (str_bytes aeadStreamInfoPrefix)) with 17; lia).
  assert (str_bytes "pigeon/v1/stream:" ++ str_bytes name = str_bytes (aeadStreamInfoPrefix +:+ name)) as -> by (by rewrite str_bytes_app).
  destruct (expanded (SendKey m) _ Hs Hi) as (sk & -> & -> & Hsk). destruct (expanded (RecvKey m) _ Hr Hi) as (rk & -> & -> & Hrk).
  cbn [rbind mbind option_bind]. unfold cwNewChannel. rewrite Hsk, Hrk. cbn. by eexists.
Qed.

Lemma datagram_aead_go m : len (SendKey m) = 32 -> len (RecvKey m) = 32 ->
  exists ch dg, pigeon_session_bind_base_keys (SendKey m, RecvKey m) = Some (ch, dg) /\
    StreamChannel m EmptyString = Ok ch /\ DatagramChannel m = Ok dg.
Proof.
  intros Hs Hr. destruct (stream_aead_go m EmptyString Hs Hr) as (ch & Hch & Ha); [done |].
  unfold pigeon_session_bind_base_keys. cbn [fst snd]. change (str_bytes EmptyString) with (@nil byte) in Ha. rewrite Ha.
  unfold DatagramChannel. change (str_bytes "pigeon/v1/datagram") with (str_bytes aeadDatagramInfo).
  destruct (expanded (SendKey m) aeadDatagramInfo Hs) as (sk & -> & -> & Hsk); [vm_compute; discriminate |].
  destruct (expanded (RecvKey m) aeadDatagramInfo Hr) as (rk & -> & -> & Hrk); [vm_compute; discriminate |].
  cbn [rbind mbind option_bind]. unfold cwNewChannel. rewrite Hsk, Hrk. cbn. by eexists _, _.
Qed.

(** The channel functions do not depend on a buffer that is large enough. *)
Lemma encrypt_cap ch pt cap : 8 + len pt + 16 <= cap ->
  cwEncrypt ch pt = (let '(ch, n, out) := pigeon_channel_encrypt ch pt cap in
                     (ch, if n <? 0 then Err (ENew "cwire: pigeon_channel_encrypt failed") else Ok (slice_to out n))).
Proof.
  intros Hc. unfold cwEncrypt, pigeon_channel_encrypt. rewrite !(proj2 (Z.ltb_ge _ _)) by lia. done.
Qed.

Lemma decrypt_cap ch data cap : len data - 24 <= cap ->
  exists err, cwDecrypt ch data = (let '(ch, n, out) := pigeon_channel_decrypt ch data cap in
                                   (ch, if n <? 0 then Err err else Ok (slice_to out n))).
Proof.
  intros Hc. unfold cwDecrypt, pigeon_channel_decrypt. change (8 + 16) with 24.
  destruct (Z.ltb_spec (len data) 24) as [|Hd]; [by eexists |].
  assert (len (drop 8 data) = len data - 8) as Hl by (unfold len in *; rewrite length_drop; lia).
  rewrite Hl, (proj2 (Z.ltb_ge cap _)), (proj2 (Z.ltb_ge (len data) _)) by lia. by eexists.
Qed.

(** ** Lemmas: streams over the adapter *)

Lemma readMessage_bound (w w' : duplex) m : readMessage w = (w', Ok m) -> len m <= MaxMessageSize.
Proof.
  unfold readMessage. cbn [ReadFull duplex_reader]. destruct (ReadFull (R := bytes) (inp w) 4) as [i1 [h|]]; [| done].
  destruct (Z.ltb_spec MaxMessageSize (be_get h)) as [|Hb]; [done |]. pose proof (be_get_bound h).
  cbn [inp out ReadFull pipe_reader]. destruct (_ <? _)%nat; [done |]. intros [= _ <-]. unfold len. rewrite length_take.
  unfold MaxMessageSize in *. lia.
Qed.

(** What the C stream functions do to a stream of the adapter is what the
    methods of a Go stream do to it. *)
Lemma stream_send_go (a : goTransportAdapter duplex) h name c rwc msg :
  adStreams a !! h = Some rwc -> len msg <= PIGEON_MAX_MSG ->
  let '(c', rwc', err) := Stream.Send c rwc msg in
  exists e, cwStreamSend {| stHandle := Some h; stName := name; stAead := c |} msg a =
              ({| stHandle := Some h; stName := name; stAead := c' |}, with_streams a (<[h := rwc']> (adStreams a)), e) /\
            (e = None <-> err = None).
Proof.
  intros Hh Hm. unfold Stream.Send, sendEncrypt, sendWrite, cwStreamSend, pigeon_stream_send. cbn [stHandle stAead].
  assert (Hsend : forall payload, cwireGoSendOnStream a h payload =
    (let '(rwc', err) := writeMessage rwc payload in (with_streams a (<[h := rwc']> (adStreams a)), toInt err))).
  { intros payload. unfold cwireGoSendOnStream. cbn [gtSendOnStream adapter_transport]. unfold adSendOnStream. rewrite Hh.
    by destruct (writeMessage rwc payload). }
  destruct c as [ch|].
  - rewrite (encrypt_cap ch msg scratchCap) by (unfold scratchCap in *; lia).
    destruct (pigeon_channel_encrypt ch msg scratchCap) as [[ch' n] out]. destruct (n <? 0); cbn [rwrap].
    + eexists. unfold with_streams. rewrite insert_id by done. split; [by destruct a | done].
    + rewrite Hsend. destruct (writeMessage rwc _) as [rwc' [err|]]; eexists; (split; [reflexivity | done]).
  - rewrite Hsend. destruct (writeMessage rwc msg) as [rwc' [err|]]; eexists; (split; [reflexivity | done]).
Qed.

Lemma stream_recv_go (a : goTransportAdapter duplex) h name c rwc :
  adStreams a !! h = Some rwc ->
  let '(c', rwc', r) := recvReader c rwc in
  exists r', cwStreamRecv {| stHandle := Some h; stName := name; stAead := c |} a =
               ({| stHandle := Some h; stName := name; stAead := c' |}, with_streams a (<[h := rwc']> (adStreams a)), r') /\
             (forall m, r' = Ok m <-> r = Ok m).
Proof.
  intros Hh. unfold recvReader, cwStreamRecv, pigeon_stream_recv. cbn [stHandle stAead].
  assert (Hrecv : forall cap, MaxMessageSize <= cap -> cwireGoRecvOnStream a h cap =
    match readMessage rwc with
    | (rwc', Ok m) => (with_streams a (<[h := rwc']> (adStreams a)), 0, m)
    | (rwc', Err _) => (with_streams a (<[h := rwc']> (adStreams a)), -1, [])
    end).
  { intros cap Hc. unfold cwireGoRecvOnStream. cbn [gtRecvOnStream adapter_transport]. unfold adRecvOnStream. rewrite Hh.
    destruct (readMessage rwc) as [rwc' [m|err]] eqn:Hr; [| done]. pose proof (readMessage_bound _ _ _ Hr).
    by rewrite (proj2 (Z.ltb_ge _ _)) by lia. }
  assert (Hbad : forall (e e' : error) m, Err (A := bytes) e = Ok m <-> Err (A := bytes) e' = Ok m) by done.
  destruct c as [ch|]; rewrite Hrecv by (unfold scratchCap, recvBuf, PIGEON_MAX_MSG, MaxMessageSize; lia);
    destruct (readMessage rwc) as [rwc' [m|err]] eqn:Hr; cbn [Z.eqb negb Z.ltb Z.compare];
    try (eexists; split; [reflexivity | by intros ?]); pose proof (readMessage_bound _ _ _ Hr) as Hb.
  - destruct (decrypt_cap ch m recvBuf) as [err ->]; [unfold recvBuf, MaxMessageSize in *; lia |].
    destruct (pigeon_channel_decrypt ch m recvBuf) as [[ch' n] out]. destruct (n <? 0); eexists; (split; [reflexivity | by intros ?]).
  - pose proof (len_nonneg m). unfold MaxMessageSize in Hb. rewrite i32_small by lia. rewrite (proj2 (Z.ltb_ge _ _)) by lia.
    eexists. split; [reflexivity |]. intros m'. by rewrite slice_len.
Qed.

(** ** Lemmas: datagrams *)

Lemma plaintext_encode_go id payload cap : 0 <= id < 2 ^ 64 -> len payload + 10 <= cap ->
  pigeon_wire_datagram_plaintext_encode id payload cap = Some (EncodeDatagramPlaintext id payload).
Proof.
  intros Hid Hc. unfold pigeon_wire_datagram_plaintext_encode. rewrite pigeon_uvarint_encode_spec by done.
  pose proof (len_PutUvarint id) as Hu. pose proof (len_nonneg payload). unfold MaxVarintLen64 in Hu.
  rewrite (proj2 (Z.ltb_ge _ _)) by lia. cbn [mbind option_bind]. by rewrite (proj2 (Z.ltb_ge _ _)) by lia.
Qed.

Lemma plaintext_decode_go buf cap : len buf <= cap ->
  pigeon_wire_datagram_plaintext_decode buf cap = match DecodeDatagramPlaintext buf with Ok r => Some r | Err _ => None end.
Proof.
  intros Hc. unfold pigeon_wire_datagram_plaintext_decode, DecodeDatagramPlaintext. change (drop (Z.to_nat 0) ?l) with l.
  destruct (Uvarint buf) as [v n] eqn:Hu. pose proof (pigeon_uvarint_decode_spec buf v n Hu) as Hd.
  destruct (Z.leb_spec n 0) as [Hn|Hn].
  - destruct (pigeon_uvarint_decode buf) as [v' n']. cbn [snd] in Hd. by rewrite (proj2 (Z.leb_le _ _)).
  - rewrite Hd, (proj2 (Z.leb_gt _ _)) by lia. by rewrite (proj2 (Z.ltb_ge _ _)) by lia.
Qed.

Lemma encode_datagram_go ch id payload : 0 <= id < 2 ^ 64 -> len payload <= PIGEON_MAX_MSG ->
  pigeon_encode_datagram ch id payload scratchCap =
    (let '(ch', r) := cwEncrypt ch (EncodeDatagramPlaintext id payload) in (ch', match r with Ok ct => Some ct | Err _ => None end)).
Proof.
  intros Hid Hp. unfold pigeon_encode_datagram. rewrite (proj2 (Z.ltb_ge _ _)) by lia.
  rewrite plaintext_encode_go by (try done; unfold PIGEON_MAX_VARINT_LEN; lia).
  pose proof (len_plain id payload). rewrite (encrypt_cap _ _ scratchCap) by (unfold scratchCap; lia).
  destruct (pigeon_channel_encrypt _ _ _) as [[ch' n] out]. by destruct (n <? 0).
Qed.

Lemma len_sealed ch pt ch' ct : cwEncrypt ch pt = (ch', Ok ct) -> len ct <= len pt + 24.
Proof.
  unfold cwEncrypt, pigeon_channel_encrypt, crypto_aead_aes256gcm_encrypt. rewrite (proj2 (Z.ltb_ge _ _)) by lia.
  rewrite aes_available. destruct (NewGCM _) as [g|]; [| done].
  match goal with |- context [slice_to ?o _] => assert (len o = len pt + 24) as Ho; [| set (out := o) in *; clearbody out] end.
  { unfold len. rewrite length_app, length_le_put, length_Seal. lia. }
  destruct (_ <? 0); [done |]. intros [= _ <-]. unfold len in *. rewrite length_take. lia.
Qed.

(** The C chunk sizes are Go's. *)
Lemma chunk_budget_go maxP outer : pigeon_dg_chunk_budget maxP outer = maxAppChunk maxP outer 10.
Proof.
  unfold pigeon_dg_chunk_budget, maxAppChunk, PIGEON_DG_AEAD_OVERHEAD, PIGEON_DG_CID_BUDGET, aeadOverhead.
  destruct (Z.leb_spec maxP (outer + 24 + 10)), (Z.ltb_spec (maxP - outer - (8 + 16) - 10) 1); lia.
Qed.

Context {T : Type} `{!GoTransport T}.

(** The carrier of a Go session whose transport is [T]. *)
#[local] Instance gt_dg : DgTransport T := { tr_SendDatagram := gtSendDatagram }.

(** The same outcome: both succeed, or both fail. *)
Definition sameOutcome (o : Datagram.outcome) (r : sent) : Prop :=
  match o, r with
  | Done, SentRv rv => rv = 0
  | Datagram.Failed _, SentRv rv => rv = -1
  | _, _ => False
  end.

(** *** Sending, with message numbers that may differ

    A Go process draws message numbers from one counter, a C session from its
    own.  [num] relates the numbers of a message in the two, [same] the datagrams
    and [R] the carriers; [N k] relates the counters while at least [k] messages
    follow. *)
Section Numbers.
Context (R : T -> T -> Prop) (same : bytes -> bytes -> Prop) (num : Z -> Z -> Prop) (N : nat -> Z -> Z -> Prop).
Context (same_refl : forall x, same x x).
Context (same_part : forall n n' i total ct, num n n' -> 2 <= total <= 65535 ->
  same (encodePartWire n (u16 i) (u16 total) ct) (fragmentHeader n' i total ++ ct)).
Context (R_send : forall t u x y, R t u -> same x y ->
  R (gtSendDatagram t x).1 (gtSendDatagram u y).1 /\ ((gtSendDatagram t x).2 = None <-> (gtSendDatagram u y).2 = None)).
Context (N_next : forall k n n', N (S k) n n' ->
  num (u32 (n + 1)) n' /\ N k (u32 (n + 1)) (if u32 (n' + 1) =? 0 then 1 else u32 (n' + 1)) /\ N k n n').

(** A Go sender and a C session in one state. *)
Definition sameSender (d : DgSender (Ch := pigeon_channel) (T := T)) (s : pigeon_session) (t : T) : Prop :=
  dgChannel d = csDgChannel s /\ maxDgPayload d = csMaxDgPayload s /\ exists t0, Datagram.transport d = Some t0 /\ R t0 t.

(** What sending a part leaves: the counters and the limit. *)
Definition kept (d d' : DgSender (Ch := pigeon_channel) (T := T)) (s s' : pigeon_session) : Prop :=
  csDgChannel s' <> None /\ csMaxDgPayload s' = csMaxDgPayload s /\ csNextDgMsgID s' = csNextDgMsgID s /\ nextFragMsgID d' = nextFragMsgID d.

Lemma part_go (d : DgSender (Ch := pigeon_channel) (T := T)) s t0 t ch id msg i total chunk wrap header :
  sameSender d s t -> Datagram.transport d = Some t0 -> csDgChannel s = Some ch -> 0 <= id < 2 ^ 64 ->
  len chunk + 43 <= scratchCap -> len chunk <= PIGEON_MAX_MSG ->
  (forall ct, same (encodePartWire msg (u16 i) (u16 total) ct) (header ++ ct)) -> len header <= 9 ->
  exists ch' r, pigeon_encode_datagram ch id chunk scratchCap = (ch', r) /\
    let '(d', o) := send_part d ch t0 id msg i total chunk wrap in
    kept d d' s (with_dg s ch') /\
    match r with
    | None => sameSender d' (with_dg s ch') t /\ exists err, o = Datagram.Failed err
    | Some ct => len header + len ct <= scratchCap /\
        exists t' rv, cwireGoSendDatagram t (header ++ ct) = (t', rv) /\
          sameSender d' (with_dg s ch') t' /\ sameOutcome o (SentRv rv)
    end.
Proof.
  intros (Hc & Hm & t1 & Ht1 & HR) Ht Hch Hid Hcap Hmax Hhdr Hh. rewrite Ht1 in Ht. injection Ht as ->.
  rewrite encode_datagram_go by done. unfold send_part. cbn [ch_encrypt cwire_dg].
  destruct (cwEncrypt ch (EncodeDatagramPlaintext id chunk)) as [ch' [ct|err]] eqn:He; eexists ch', _; (split; [reflexivity |]).
  - pose proof (len_sealed _ _ _ _ He). pose proof (len_plain id chunk). unfold cwireGoSendDatagram. cbn [tr_SendDatagram gt_dg].
    destruct (R_send t0 t _ _ HR (Hhdr ct)) as [HR' Herr].
    destruct (gtSendDatagram t0 _) as [t0' [e|]], (gtSendDatagram t (header ++ ct)) as [t' [e'|]]; cbn [fst snd] in *;
      try (exfalso; first [by pose proof (proj1 Herr eq_refl) | by pose proof (proj2 Herr eq_refl)]);
      (split; [by split_and! |]; split; [lia |]; eexists _, _; split; [reflexivity |]; split; [| done];
       split_and!; [done | done | by eexists]).
  - split; [by split_and! |]. split; [| by eexists]. split_and!; [done | done | by eexists].
Qed.

Lemma kept_trans d d1 d2 s s1 s2 : kept d d1 s s1 -> kept d1 d2 s1 s2 -> kept d d2 s s2.
Proof. intros (A1 & A2 & A3 & A4) (B1 & B2 & B3 & B4). split_and!; (done || congruence). Qed.

Lemma parts_go n : forall (d : DgSender (Ch := pigeon_channel) (T := T)) s t id msg msg' i total cb payload,
  sameSender d s t -> csDgChannel s <> None -> num msg msg' -> 0 <= id < 2 ^ 64 -> 1 <= cb -> cb + 43 <= scratchCap -> cb <= PIGEON_MAX_MSG ->
  0 <= i -> i + Z.of_nat n = total -> 2 <= total <= 65535 -> (total - 1) * cb < len payload ->
  let '(d', o) := send_loop n d id msg i total cb payload in
  exists s' t' r, sendParts n s id msg' i total cb payload t = (s', t', r) /\ sameSender d' s' t' /\ sameOutcome o r /\ kept d d' s s'.
Proof.
  induction n as [|n IH]; intros d s t id msg msg' i total cb payload Hs Hch Hnum Hid Hcb Hcap Hmax Hi Hin Htot Hlen; cbn [send_loop sendParts].
  - eexists _, _, _. split; [reflexivity |]. by split_and!.
  - destruct (csDgChannel s) as [ch|] eqn:Ech; [| done]. rewrite slice_part by (try lia; nia).
    pose proof Hs as (Hc & _ & t0 & Ht & _). rewrite Hc, Ech, Ht. set (chunk := take _ _).
    assert (len chunk <= cb) as Hl by (unfold chunk, len; rewrite length_take; lia).
    destruct (part_go d s t0 t ch id msg i total chunk (EWrap "datagram: encrypt part %d: %w" [AInt i]) (fragmentHeader msg' i total) Hs Ht Ech Hid)
      as (ch' & r & -> & Hp); [lia | lia | intros ct; by apply same_part | vm_compute; discriminate |].
    destruct (send_part _ _ _ _ _ _ _ _ _) as [d' o]. destruct Hp as [Hk Hp]. destruct r as [ct|].
    + destruct Hp as (Hfit & t' & rv & Hsend & Hs' & Ho). change (len (fragmentHeader msg' i total)) with (1 + FragHeaderSize) in Hfit.
      rewrite (proj2 (Z.ltb_ge _ _)) by lia. rewrite Hsend.
      destruct o as [|err|]; cbn [sameOutcome] in Ho; [subst rv | subst rv | done]; cbn [Z.eqb negb].
      * specialize (IH d' (with_dg s ch') t' id msg msg' (i + 1) total cb payload). destruct (send_loop n _ _ _ _ _ _ _) as [d2 o2].
        destruct IH as (s2 & t2 & r2 & Hp2 & Hs2 & Ho2 & Hk2); try (done || lia). eexists _, _, _. split; [exact Hp2 |].
        split; [done |]. split; [done |]. by eapply kept_trans.
      * eexists _, _, _. split; [reflexivity |]. by split_and!.
    + destruct Hp as (Hs' & err & ->). eexists _, _, _. split; [reflexivity |]. by split_and!.
Qed.

Lemma datagram_send_go k (d : DgSender (Ch := pigeon_channel) (T := T)) s t id payload :
  sameSender d s t -> csDgChannel s <> None -> 0 <= id < 2 ^ 64 -> 0 <= csMaxDgPayload s <= PIGEON_MAX_MSG ->
  N (S k) (nextFragMsgID d) (csNextDgMsgID s) ->
  let '(d', o) := Datagram.Send d id payload in
  exists s' t' r, pigeon_datagram_send s id payload t = (s', t', r) /\ sameSender d' s' t' /\ sameOutcome o r /\
    csDgChannel s' <> None /\ csMaxDgPayload s' = csMaxDgPayload s /\ N k (nextFragMsgID d') (csNextDgMsgID s').
Proof.
  intros Hs Hch Hid HM HN. destruct (N_next _ _ _ HN) as (Hnum & HNk & HNs).
  pose proof Hs as (Hc & Hmax & t0 & Ht & HR). unfold Datagram.Send, pigeon_datagram_send.
  destruct (csDgChannel s) as [ch|] eqn:Ech; [| done]. rewrite Hc, Ht, Hmax, !chunk_budget_go.
  assert (Hp : (if csMaxDgPayload s <=? 0 then MaxDatagramPayload else csMaxDgPayload s) =
               (if csMaxDgPayload s =? 0 then MaxDatagramPayload else csMaxDgPayload s)).
  { destruct (Z.leb_spec (csMaxDgPayload s) 0), (Z.eqb_spec (csMaxDgPayload s) 0); done || lia. }
  rewrite Hp. set (maxP := if csMaxDgPayload s =? 0 then MaxDatagramPayload else csMaxDgPayload s).
  assert (0 < maxP <= PIGEON_MAX_MSG) as HP.
  { unfold maxP, MaxDatagramPayload, PIGEON_MAX_MSG in *. destruct (Z.eqb_spec (csMaxDgPayload s) 0); lia. }
  clearbody maxP. destruct (maxAppChunk_spec maxP 1) as [_ Hw]. destruct (maxAppChunk_spec maxP (1 + FragHeaderSize)) as [Hge Hf].
  unfold PIGEON_MAX_MSG, FragHeaderSize in *. destruct (Z.leb_spec (len payload) (maxAppChunk maxP 1 10)) as [Hl|Hl].
  - destruct (part_go d s t0 t ch id 0 0 1 payload (EWrap "datagram: encrypt: %w" []) [DgConnWhole] Hs Ht Ech Hid) as (ch' & r & -> & Hp');
      [unfold scratchCap, PIGEON_MAX_MSG; lia | unfold PIGEON_MAX_MSG; lia | intros ct; apply same_refl | vm_compute; discriminate |].
    destruct (send_part _ _ _ _ _ _ _ _ _) as [d' o]. destruct Hp' as [(K1 & K2 & K3 & K4) Hp']. destruct r as [ct|].
    + destruct Hp' as (Hfit & t' & rv & Hsend & Hs' & Ho). change (len [DgConnWhole]) with 1 in Hfit.
      rewrite (proj2 (Z.ltb_ge _ _)) by lia. change (DgConnWhole :: ct) with ([DgConnWhole] ++ ct). rewrite Hsend.
      eexists _, _, _. split; [reflexivity |]. rewrite K3, K4. by split_and!.
    + destruct Hp' as (Hs' & err & ->). eexists _, _, _. split; [reflexivity |]. rewrite K3, K4. by split_and!.
  - rewrite (proj2 (Z.ltb_ge _ 1)) by lia. pose proof (total_ge_2 maxP (len payload) Hl) as H2. unfold FragHeaderSize in H2.
    set (cb := maxAppChunk maxP (1 + 8) 10) in *. set (total := (len payload + cb - 1) / cb) in *.
    rewrite (proj2 (Z.ltb_ge total 2)) by lia. destruct (Z.ltb_spec 65535 total) as [|Htot].
    { eexists _, _, _. split; [reflexivity |]. split_and!; (done || by rewrite Ech). }
    set (s1 := with_nextMsg s _). set (d1 := with_msgID d _).
    pose proof (parts_go (Z.to_nat total) d1 s1 t id (u32 (nextFragMsgID d + 1)) (csNextDgMsgID s) 0 total cb payload) as Hloop.
    destruct (send_loop _ _ _ _ _ _ _ _) as [d' o]. destruct Hloop as (s' & t' & r & -> & Hs' & Ho & K1 & K2 & K3 & K4);
      try done; unfold scratchCap, PIGEON_MAX_MSG; try lia.
    + unfold s1. cbn. by rewrite Ech.
    + apply (ceil_bounds (len payload) cb); lia.
    + eexists _, _, _. split; [reflexivity |]. rewrite K3, K4. by split_and!.
Qed.

(** Message after message. *)
Fixpoint goSends (d : DgSender (Ch := pigeon_channel) (T := T)) (msgs : list (Z * bytes))
    : DgSender (Ch := pigeon_channel) (T := T) * list Datagram.outcome :=
  match msgs with
  | [] => (d, [])
  | (id, m) :: msgs => let '(d, o) := Datagram.Send d id m in let '(d, os) := goSends d msgs in (d, o :: os)
  end.
Fixpoint cSends (s : pigeon_session) (msgs : list (Z * bytes)) (t : T) : pigeon_session * T * list sent :=
  match msgs with
  | [] => (s, t, [])
  | (id, m) :: msgs =>
      let '(s, t, r) := pigeon_datagram_send s id m t in let '(s, t, rs) := cSends s msgs t in (s, t, r :: rs)
  end.

Lemma sends_go msgs : forall d s t,
  sameSender d s t -> csDgChannel s <> None -> Forall (fun x => 0 <= x.1 < 2 ^ 64) msgs -> 0 <= csMaxDgPayload s <= PIGEON_MAX_MSG ->
  N (length msgs) (nextFragMsgID d) (csNextDgMsgID s) ->
  let '(d', os) := goSends d msgs in
  exists s' t' rs, cSends s msgs t = (s', t', rs) /\ sameSender d' s' t' /\ Forall2 sameOutcome os rs /\ csDgChannel s' <> None.
Proof.
  induction msgs as [|[id m] msgs IH]; intros d s t Hs Hch Hids HM HN; cbn [goSends cSends].
  - eexists _, _, _. split; [reflexivity |]. by split_and!.
  - apply Forall_cons in Hids as [Hid Hids]. cbn [fst] in Hid. cbn [length] in HN.
    pose proof (datagram_send_go (length msgs) d s t id m Hs Hch Hid HM HN) as Hsend. destruct (Datagram.Send d id m) as [d1 o].
    destruct Hsend as (s1 & t1 & r & -> & Hs1 & Ho & Hk1 & Hk2 & Hk3).
    specialize (IH d1 s1 t1 Hs1 Hk1 Hids). destruct (goSends d1 msgs) as [d2 os].
    destruct IH as (s2 & t2 & rs & -> & Hs2 & Hos & Hc2); [by rewrite Hk2 | done |]. eexists _, _, _. split; [reflexivity |].
    split; [done |]. split; [by constructor | done].
Qed.
End Numbers.

(** What is opened is no longer than what was sealed. *)
Lemma decrypted_len ch data cap ch' n out : pigeon_channel_decrypt ch data cap = (ch', n, out) -> len out <= len data.
Proof.
  intros Hd. pose proof (len_nonneg data). unfold pigeon_channel_decrypt, crypto_aead_aes256gcm_decrypt in Hd.
  repeat (destruct (_ <? _) in Hd; [by injection Hd as <- <- <- |]).
  destruct (match cmode ch with ModeStrict => _ | ModeDatagrams => _ end) in Hd; [by injection Hd as <- <- <- |].
  destruct (_ <? _) in Hd; [by injection Hd as <- <- <- |]. rewrite aes_available in Hd.
  destruct (NewGCM (recv_key ch)) as [g|]; [| by injection Hd as <- <- <-].
  destruct (Open g _ _ _) as [pt|] eqn:Hop; [| by injection Hd as <- <- <-]. injection Hd as <- <- <-.
  apply Seal_Open in Hop. apply (f_equal length) in Hop. rewrite length_drop, length_Seal in Hop. unfold len. lia.
Qed.

Lemma opened_len ch data ch' pt : cwDecrypt ch data = (ch', Ok pt) -> len pt <= len data.
Proof.
  destruct (decrypt_cap ch data (len data)) as [err ->]; [lia |].
  destruct (pigeon_channel_decrypt ch data (len data)) as [[c n] out] eqn:Hd. apply decrypted_len in Hd. destruct (n <? 0); [done |].
  intros [= _ <-]. unfold len in *. rewrite length_take. lia.
Qed.

(** A received datagram, opened: what C and Go do with it alike. *)
Lemma decode_datagram_go ch ct : len ct <= PIGEON_MAX_MSG ->
  pigeon_decode_datagram ch ct recvBuf =
    (let '(ch', r) := cwDecrypt ch ct in
     (ch', match r with Ok plain => match DecodeDatagramPlaintext plain with Ok x => Some x | Err _ => None end | Err _ => None end)).
Proof.
  intros Hl. unfold pigeon_decode_datagram. destruct (decrypt_cap ch ct PIGEON_MAX_MSG) as [err ->]; [lia |].
  destruct (pigeon_channel_decrypt ch ct PIGEON_MAX_MSG) as [[ch' n] out] eqn:Hd. apply decrypted_len in Hd. destruct (n <? 0); [done |].
  rewrite plaintext_decode_go; [done |]. unfold recvBuf, PIGEON_MAX_MSG, len in *. rewrite length_take. lia.
Qed.

Lemma DecodeDatagramPlaintext_len plain id body : DecodeDatagramPlaintext plain = Ok (id, body) -> len body <= len plain.
Proof.
  unfold DecodeDatagramPlaintext. destruct (Uvarint _) as [v n]. destruct (n <=? 0); [done |]. intros [= _ <-].
  unfold len. rewrite length_drop. lia.
Qed.

Lemma decodePartWire_len data m i n ct : decodePartWire data = Some (m, i, n, ct) -> len ct <= len data.
Proof.
  unfold decodePartWire. destruct (_ <? 2); [done |]. destruct data as [|tag body]; [done |].
  case_bool_decide; [intros [= _ _ _ <-]; rewrite len_cons; lia |]. case_bool_decide; [| by intros [= _ _ _ <-]].
  destruct (_ <? _); [done |]. destruct (_ || _); [done |]. intros [= _ _ _ <-]. unfold len. rewrite length_drop. cbn [length]. lia.
Qed.

Lemma decode_datagram_short ch ct : len ct < 24 -> pigeon_decode_datagram ch ct recvBuf = (ch, None).
Proof.
  intros Hl. rewrite decode_datagram_go by (unfold PIGEON_MAX_MSG; lia). unfold cwDecrypt. by rewrite (proj2 (Z.ltb_lt _ _)) by lia.
Qed.

(** The framings agree, except on datagrams too short to open. *)
Lemma partOf_go data :
  match decodePartWire data with
  | Some (m, i, n, ct) => partOf data = Some ({| partMsgID := m; partIndex := i; partTotal := n |}, ct)
  | None => partOf data = None \/ exists p ct, partOf data = Some (p, ct) /\ len ct < 24
  end.
Proof.
  unfold decodePartWire, partOf, FragHeaderSize. destruct (Z.ltb_spec (len data) 2) as [Hs|Hs].
  - destruct data as [|tag ct]; [by left |]. rewrite len_cons in Hs. case_bool_decide; [right; eexists _, _; split; [done | lia] |].
    rewrite (proj2 (Z.leb_gt _ _)) by (rewrite len_cons; lia). right. eexists _, _. split; [done | rewrite len_cons; lia].
  - destruct data as [|tag ct]; [done |]. case_bool_decide; [done |]. case_bool_decide; [| by rewrite andb_false_r].
    rewrite andb_true_r. destruct (Z.ltb_spec (len (tag :: ct)) (1 + 8)) as [Hl|Hl].
    + rewrite (proj2 (Z.leb_gt _ _)) by lia. right. eexists _, _. split; [done | lia].
    + rewrite (proj2 (Z.leb_le (1 + 8) _)) by lia. destruct (_ || _); [by left | done].
Qed.

(** A datagram received in C is the one Go delivers: the channel is left as Go
    leaves it, and what C returns is the part Go queues. *)
Lemma datagram_recv_go (r : DgReceiver (Ch := pigeon_channel)) (s : pigeon_session) pick id (t t' : T) data :
  rxChannel r = csDgChannel s -> csDgChannel s <> None -> gtRecvDatagram t = (t', Ok data) -> len data <= PIGEON_MAX_MSG ->
  let r' := deliverIncomingDatagram pick r data in
  exists s' n out, pigeon_datagram_recv s id recvBuf t = (s', t', n, out) /\ rxChannel r' = csDgChannel s' /\
    match out with
    | None => n < 0 /\ Datagram.datagrams r' !! id = Datagram.datagrams r !! id
    | Some (part, buf) => n = len buf /\
        forall q, Datagram.datagrams r !! id = Some q -> (length q < rxCap)%nat -> Datagram.ctxDone r = false ->
          Datagram.datagrams r' !! id = Some (q ++ [{| MsgID := partMsgID part; Index := partIndex part; Total := partTotal part; Payload := buf |}])
    end.
Proof.
  intros Hr Hch Ht Hl. cbn zeta. unfold pigeon_datagram_recv, deliverIncomingDatagram, cwireGoRecvDatagram. rewrite Hr, Ht.
  destruct (csDgChannel s) as [ch|] eqn:Ech; [| done]. rewrite (proj2 (Z.ltb_ge _ _)) by (unfold scratchCap; lia). cbn [Z.eqb negb].
  pose proof (partOf_go data) as Hp. destruct (decodePartWire data) as [[[[m i] n] ct]|] eqn:Hd.
  - rewrite Hp. assert (len ct <= len data) as Hct by (eapply decodePartWire_len; exact Hd).
    destruct (Z.eqb_spec (len ct) 0) as [H0|H0].
    + rewrite decode_datagram_short by lia. by eexists _, _, _.
    + rewrite decode_datagram_go by lia. cbn [ch_decrypt cwire_dg]. destruct (cwDecrypt ch ct) as [ch' [plain|err]] eqn:Hdec; [| by eexists _, _, _].
      destruct (DecodeDatagramPlaintext plain) as [[cid body]|err] eqn:Hpl; [| by eexists _, _, _].
      cbn [with_rxChannel Datagram.datagrams Datagram.ctxDone].
      destruct (Z.eqb_spec cid id) as [->|Hne]; cbn [negb].
      * eexists _, _, _. split; [reflexivity |]. split; [by (destruct (Datagram.datagrams r !! id); [case_match |]) |]. split.
        { pose proof (opened_len _ _ _ _ Hdec). apply DecodeDatagramPlaintext_len in Hpl. pose proof (len_nonneg body).
          apply i32_small. unfold PIGEON_MAX_MSG in *. lia. }
        intros q Hq Hroom Hctx. rewrite Hq, Hctx, (proj2 (Nat.ltb_lt _ _)) by done. cbn. by rewrite lookup_insert_eq.
      * eexists _, _, _. split; [reflexivity |]. split; [by (destruct (Datagram.datagrams r !! cid); [case_match |]) |]. split; [lia |].
        destruct (Datagram.datagrams r !! cid); [| done]. case_match; [| done]. cbn. by rewrite lookup_insert_ne by done.
  - destruct Hp as [-> | (p & ct & -> & Hct)]; [eexists _, _, _; by rewrite Hr, Ech |]. rewrite decode_datagram_short by done. by eexists _, _, _.
Qed.
(** ** Lemmas: sessions of a material *)

(** A session over the keys of [m]. *)
Definition sessionOf (m : SessionMaterial) (s : pigeon_session) : Prop :=
  csKeys s = Some (SendKey m, RecvKey m) /\ exists dg, DatagramChannel m = Ok dg /\ csDgChannel s = Some dg /\
    csMaxDgPayload s = MaxDatagramPayload /\ csNextDgMsgID s = 1.

Lemma session_init_go m defs : len (SendKey m) = 32 -> len (RecvKey m) = 32 -> len defs <= 16 -> dgchannels_ok [] defs = true ->
  exists s, pigeon_session_init (Some (pigeon_channel_init (SendKey m) (RecvKey m) ModeStrict)) defs = Some s /\ sessionOf m s /\ csDatagrams s = defs.
Proof.
  intros Hs Hr Hl Hd. destruct (datagram_aead_go m Hs Hr) as (ch & dg & Hb & _ & Hdg). unfold pigeon_session_init.
  rewrite (proj2 (Z.ltb_ge _ _)) by (unfold PIGEON_MAX_DATAGRAM_CHANNELS; lia).
  cbn [send_key recv_key pigeon_channel_init]. rewrite Hb. cbn [mbind option_bind]. rewrite Hd. eexists. split; [reflexivity |].
  split; [| done]. split; [done |]. by exists dg.
Qed.

Lemma NewGoSession_of m defs s : len (SendKey m) = 32 -> len (RecvKey m) = 32 ->
  NewGoSession (RefOf true) (Some (pigeon_channel_init (SendKey m) (RecvKey m) ModeStrict)) defs = Ok s -> sessionOf m s.
Proof.
  intros Hs Hr. unfold NewGoSession. cbn [refOpen negb]. destruct (tooMany defs) eqn:Ht; [done |]. destruct (nameTooLong defs); [done |].
  unfold tooMany in Ht. apply Z.ltb_ge in Ht. assert (len (dgDefs str_bytes defs) <= 16) as Hl by (unfold len, dgDefs in *; rewrite length_map; lia).
  destruct (dgchannels_ok [] (dgDefs str_bytes defs)) eqn:Hd.
  - destruct (session_init_go m (dgDefs str_bytes defs) Hs Hr Hl Hd) as (s' & -> & Hof & _). by intros [= <-].
  - unfold pigeon_session_init. rewrite Hd. destruct (_ <? _); [done |]. destruct (pigeon_session_bind_base_keys _) as [[? ?]|]; done.
Qed.

Lemma bound_go m s name h : len (SendKey m) = 32 -> len (RecvKey m) = 32 -> csKeys s = Some (SendKey m, RecvKey m) -> slen name < 64 ->
  exists ch, StreamChannel m name = Ok ch /\ boundStream s h (str_bytes name) = Some {| stHandle := Some h; stName := str_bytes name; stAead := Some ch |}.
Proof.
  intros Hs Hr Hk Hn. destruct (stream_aead_go m name Hs Hr Hn) as (ch & Hch & Ha). exists ch. split; [done |].
  unfold boundStream, pigeon_stream_bind_aead. rewrite Hk, Ha. done.
Qed.

(** *** What a stream's user sees, call after call *)

Inductive streamCall :=
  | CallSend (msg : bytes)
  | CallRecv.
Inductive streamAnswer :=
  | AnswerSent (ok : bool)
  | AnswerMsg (msg : option bytes).
Definition toAnswer (r : result bytes) : streamAnswer := AnswerMsg (match r with Ok m => Some m | Err _ => None end).
Definition toSent (e : option error) : streamAnswer := AnswerSent (bool_decide (e = None)).

Definition callFits (c : streamCall) : Prop := match c with CallSend m => len m <= PIGEON_MAX_MSG | CallRecv => True end.

Definition goCall (c : option pigeon_channel) (rwc : duplex) (call : streamCall) : option pigeon_channel * duplex * streamAnswer :=
  match call with
  | CallSend m => let '(c, rwc, e) := Stream.Send c rwc m in (c, rwc, toSent e)
  | CallRecv => let '(c, rwc, r) := recvReader c rwc in (c, rwc, toAnswer r)
  end.
Definition cCall (st : pigeon_stream) (a : goTransportAdapter duplex) (call : streamCall)
    : pigeon_stream * goTransportAdapter duplex * streamAnswer :=
  match call with
  | CallSend m => let '(st, a, e) := cwStreamSend st m a in (st, a, toSent e)
  | CallRecv => let '(st, a, r) := cwStreamRecv st a in (st, a, toAnswer r)
  end.

(** A Go session at work on streams of the given names: its table of channels,
    which the streams of a name share, and each stream's connection. *)
Record goStreams := {
  gsChans : gmap string pigeon_channel;
  gsConns : gmap handle duplex
}.
Definition goOn (m : SessionMaterial) (names : gmap handle string) (g : goStreams) (h : handle) (call : streamCall) : goStreams * streamAnswer :=
  match names !! h, gsConns g !! h with
  | Some name, Some rwc =>
      let '(chans, ch) := streamChannel (Some m) (gsChans g) name in
      let '(ch, rwc, ans) := goCall ch rwc call in
      ({| gsChans := match ch with Some c => <[name := c]> chans | None => chans end; gsConns := <[h := rwc]> (gsConns g) |}, ans)
  | _, _ => (g, AnswerSent false)
  end.
(** A C session at work: each stream has its own channel. *)
Definition cOn (sts : gmap handle pigeon_stream) (a : goTransportAdapter duplex) (h : handle) (call : streamCall)
    : gmap handle pigeon_stream * goTransportAdapter duplex * streamAnswer :=
  match sts !! h with
  | None => (sts, a, AnswerSent false)
  | Some st => let '(st, a, ans) := cCall st a call in (<[h := st]> sts, a, ans)
  end.

Fixpoint goRun (m : SessionMaterial) (names : gmap handle string) (g : goStreams) (calls : list (handle * streamCall)) : goStreams * list streamAnswer :=
  match calls with
  | [] => (g, [])
  | (h, call) :: calls => let '(g, ans) := goOn m names g h call in let '(g, l) := goRun m names g calls in (g, ans :: l)
  end.
Fixpoint cRun (sts : gmap handle pigeon_stream) (a : goTransportAdapter duplex) (calls : list (handle * streamCall))
    : gmap handle pigeon_stream * goTransportAdapter duplex * list streamAnswer :=
  match calls with
  | [] => (sts, a, [])
  | (h, call) :: calls => let '(sts, a, ans) := cOn sts a h call in let '(sts, a, l) := cRun sts a calls in (sts, a, ans :: l)
  end.

(** One call on a stream whose channel is the Go stream's. *)
Lemma call_go (a : goTransportAdapter duplex) h name c rwc call :
  adStreams a !! h = Some rwc -> callFits call ->
  let '(c', rwc', ans) := goCall c rwc call in
  cCall {| stHandle := Some h; stName := name; stAead := c |} a call =
    ({| stHandle := Some h; stName := name; stAead := c' |}, with_streams a (<[h := rwc']> (adStreams a)), ans).
Proof.
  intros Hh Hf. destruct call as [m|]; cbn [goCall cCall].
  - pose proof (stream_send_go a h name c rwc m Hh Hf) as Hs. destruct (Stream.Send c rwc m) as [[c1 rwc1] err].
    destruct Hs as (e & -> & He). unfold toSent. do 2 f_equal. by apply bool_decide_ext.
  - pose proof (stream_recv_go a h name c rwc Hh) as Hs. destruct (recvReader c rwc) as [[c1 rwc1] r]. destruct Hs as (r' & -> & Hr).
    f_equal. unfold toAnswer. f_equal. destruct r' as [m'|e'], r as [m|e]; try done.
    + by injection (proj1 (Hr m') eq_refl) as ->.
    + by pose proof (proj1 (Hr m') eq_refl).
    + by pose proof (proj2 (Hr m) eq_refl).
Qed.

(** The channel of a name: in the table, or still to be derived. *)
Definition channelOf (m : SessionMaterial) (chans : gmap string pigeon_channel) (name : string) : option pigeon_channel :=
  (streamChannel (Some m) chans name).2.

(** One stream per name. *)
Definition oneEach (names : gmap handle string) : Prop := forall h h' name, names !! h = Some name -> names !! h' = Some name -> h = h'.

(** Every C stream has the channel that its name has in Go. *)
Definition bound (m : SessionMaterial) (names : gmap handle string) (g : goStreams) (sts : gmap handle pigeon_stream) : Prop :=
  forall h name, names !! h = Some name -> is_Some (gsConns g !! h) /\
    exists ch, channelOf m (gsChans g) name = Some ch /\
      sts !! h = Some {| stHandle := Some h; stName := str_bytes name; stAead := Some ch |}.

(** A call leaves a channel that is there. *)
Lemma goCall_some c rwc call : exists c' rwc' ans, goCall (Some c) rwc call = (Some c', rwc', ans).
Proof.
  destruct call as [m|]; cbn [goCall].
  - unfold Stream.Send, sendEncrypt. destruct (cwEncrypt c m) as [c' [ct|err]]; cbn [rwrap]; [| by eexists _, _, _].
    destruct (sendWrite rwc ct) as [rwc' e]. by eexists _, _, _.
  - unfold recvReader. destruct (readMessage rwc) as [rwc' [raw|err]]; [| by eexists _, _, _]. destruct (cwDecrypt c raw) as [c' r]. by eexists _, _, _.
Qed.

Lemma channelOf_table m chans name ch : channelOf m chans name = Some ch ->
  exists chans', streamChannel (Some m) chans name = (chans', Some ch) /\ forall c name', <[name := c]> chans' !! name' = <[name := c]> chans !! name'.
Proof.
  unfold channelOf, streamChannel. destruct (chans !! name) as [c0|]; cbn; [intros [= <-]; by eexists |].
  destruct (StreamChannel m name) as [c0|]; cbn; [| done]. intros [= <-]. eexists. split; [done |]. intros c name'. by rewrite insert_insert_eq.
Qed.

Lemma channelOf_insert m chans chans' name c name' : (forall n, <[name := c]> chans' !! n = <[name := c]> chans !! n) ->
  channelOf m (<[name := c]> chans') name' = if decide (name = name') then Some c else channelOf m chans name'.
Proof.
  intros He. unfold channelOf, streamChannel. rewrite He. destruct (decide (name = name')) as [->|Hne].
  - by rewrite lookup_insert_eq.
  - rewrite lookup_insert_ne by done. destruct (chans !! name'); [done |]. by destruct (StreamChannel m name').
Qed.

Lemma run_go m names calls : oneEach names -> forall (g : goStreams) sts (a : goTransportAdapter duplex),
  gsConns g = adStreams a -> bound m names g sts -> Forall (fun hc => is_Some (names !! hc.1) /\ callFits hc.2) calls ->
  let '(g', l) := goRun m names g calls in
  exists sts' a', cRun sts a calls = (sts', a', l) /\ gsConns g' = adStreams a' /\ bound m names g' sts'.
Proof.
  intros Hone. induction calls as [|[h call] calls IH]; intros g sts a Hc Hb Hf; cbn [goRun cRun]; [by eexists _, _ |].
  apply Forall_cons in Hf as [[[name Hname] Hfit] Hf]. cbn [fst snd] in *. unfold goOn, cOn. rewrite Hname.
  destruct (Hb h name Hname) as ([rwc Hrwc] & ch & Hch & Hst). rewrite Hrwc, Hst.
  destruct (channelOf_table _ _ _ _ Hch) as (chans' & -> & Htab). rewrite Hc in Hrwc.
  pose proof (call_go a h (str_bytes name) (Some ch) rwc call Hrwc Hfit) as Hcall.
  destruct (goCall_some ch rwc call) as (c' & rwc' & ans & Hg). rewrite Hg in *. rewrite Hcall.
  set (g1 := {| gsChans := _; gsConns := _ |}). set (st1 := {| stHandle := _; stName := _; stAead := Some c' |}).
  specialize (IH g1 (<[h := st1]> sts) (with_streams a (<[h := rwc']> (adStreams a)))).
  destruct (goRun m names g1 calls) as [g2 l]. destruct IH as (sts2 & a2 & -> & Hc2 & Hb2); [by rewrite <-Hc | | done | by eexists _, _].
  intros h' name' Hn'. destruct (Hb h' name' Hn') as (Hs' & ch' & Hch' & Hst'). unfold g1. cbn [gsConns gsChans].
  rewrite (channelOf_insert m (gsChans g) chans' name c' name' (Htab c')). destruct (decide (h' = h)) as [->|Hne].
  - rewrite Hname in Hn'. injection Hn' as <-. rewrite lookup_insert_eq. split; [done |]. exists c'. rewrite decide_True, lookup_insert_eq by done. done.
  - rewrite !lookup_insert_ne by done. split; [done |]. exists ch'. rewrite decide_False; [done |]. intros <-. exact (Hne (Hone _ _ _ Hn' Hname)).
Qed.

Lemma send_duplex ch g (w : duplex) m : NewGCM (send_key ch) = Ok g -> fits m ->
  Stream.Send (Some ch) w m = (Some (with_send_seq ch (u64 (send_seq ch + 1))), {| out := out w ++ frame (packet g (send_seq ch) m); inp := inp w |}, None).
Proof.
  intros Hg Hm. unfold fits, MaxMessageSize in Hm. unfold Stream.Send, sendEncrypt, sendWrite.
  rewrite (cwEncrypt_packet ch g) by (done || lia). cbn [rwrap]. rewrite writeMessage_duplex; [done |]. by rewrite len_packet.
Qed.

(** A derived channel is at number 0. *)
Lemma stream_fresh m name ch : len (SendKey m) = 32 -> len (RecvKey m) = 32 -> slen name < 64 -> StreamChannel m name = Ok ch ->
  exists aead, NewGCM (send_key ch) = Ok aead /\ send_seq ch = 0.
Proof.
  intros Hs Hr Hn Hch. destruct (material_ready m {| SendKey := RecvKey m; RecvKey := SendKey m |} name) as (cc & cb & g1 & g2 & Hcc & _ & Hrd & _ & Hz & _);
    [done | lia |]. rewrite Hch in Hcc. injection Hcc as <-. exists g1. split; [apply Hrd | done].
Qed.

(** Two streams of one name, one message on each. *)
Lemma second_stream m names chans (sts : gmap handle pigeon_stream) (ad : goTransportAdapter duplex) name ch h1 h2 x y w1 w2 aead :
  h1 <> h2 -> names !! h1 = Some name -> names !! h2 = Some name -> adStreams ad !! h1 = Some w1 -> adStreams ad !! h2 = Some w2 ->
  sts !! h1 = Some {| stHandle := Some h1; stName := str_bytes name; stAead := Some ch |} ->
  sts !! h2 = Some {| stHandle := Some h2; stName := str_bytes name; stAead := Some ch |} ->
  chans !! name = None -> StreamChannel m name = Ok ch -> NewGCM (send_key ch) = Ok aead -> send_seq ch = 0 -> fits x -> fits y ->
  let calls := [(h1, CallSend x); (h2, CallSend y)] in
  let '(g', _) := goRun m names {| gsChans := chans; gsConns := adStreams ad |} calls in
  let '(_, ad', _) := cRun sts ad calls in
  gsConns g' !! h1 = Some {| out := out w1 ++ frame (packet aead 0 x); inp := inp w1 |} /\
  adStreams ad' !! h1 = Some {| out := out w1 ++ frame (packet aead 0 x); inp := inp w1 |} /\
  gsConns g' !! h2 = Some {| out := out w2 ++ frame (packet aead 1 y); inp := inp w2 |} /\
  adStreams ad' !! h2 = Some {| out := out w2 ++ frame (packet aead 0 y); inp := inp w2 |}.
Proof.
  intros Hne Hn1 Hn2 Hw1 Hw2 Hs1 Hs2 Hc Esc Hg Hz Hx Hy. cbn [goRun cRun]. unfold goOn, cOn. cbn [gsConns gsChans].
  assert (Hfit : forall z, fits z -> callFits (CallSend z)) by (unfold fits, callFits, MaxMessageSize, PIGEON_MAX_MSG; intros z Hfz; lia).
  rewrite Hn1, Hw1, Hs1. unfold streamChannel at 1. rewrite Hc, Esc. cbn [goCall].
  pose proof (call_go ad h1 (str_bytes name) (Some ch) w1 (CallSend x) Hw1 (Hfit x Hx)) as H1. cbn [goCall] in H1.
  rewrite (send_duplex ch aead) in * by done. rewrite H1. cbn [gsConns gsChans].
  rewrite Hn2, (lookup_insert_ne _ h1 h2), Hw2, (lookup_insert_ne _ h1 h2), Hs2 by done.
  unfold streamChannel. rewrite lookup_insert_eq. cbn [goCall].
  set (ad1 := with_streams ad _). assert (adStreams ad1 !! h2 = Some w2) as Hw2' by (unfold ad1; cbn; by rewrite lookup_insert_ne).
  pose proof (call_go ad1 h2 (str_bytes name) (Some ch) w2 (CallSend y) Hw2' (Hfit y Hy)) as H2. cbn [goCall] in H2.
  rewrite (send_duplex ch aead) in H2 by done. rewrite (send_duplex _ aead) by done. rewrite H2. unfold ad1. cbn [gsConns adStreams with_streams send_seq with_send_seq].
  rewrite Hz, !(lookup_insert_ne _ h2 h1), !lookup_insert_eq by done. done.
Qed.

(** ** Lemmas: names *)

Definition plainName (name : string) : Prop := Forall (fun b => (b2z b <? 128) = true) (str_bytes name) /\ noNul name.
#[export] Instance plainName_dec name : Decision (plainName name).
Proof. unfold plainName. apply _. Defined.

(** The name an accepted stream is bound to. *)
Definition cutName (name : string) : string := bytes_str (cstr (rangeCopy name)).

Lemma rangeCopyLoop_ascii b : Forall (fun b => (b2z b <? 128) = true) b -> rangeCopyLoop (length b) b = b.
Proof.
  induction 1 as [|c b Hc Hb IH]; [done |]. cbn [rangeCopyLoop length].
  assert ((decodeRune (c :: b)).2 = 1%nat) as -> by (unfold decodeRune; change 0x80 with 128; by rewrite Hc).
  change (drop 1 (c :: b)) with b. by rewrite IH.
Qed.

Lemma cutName_plain name : plainName name -> cutName name = name.
Proof.
  intros [Ha Hn]. unfold cutName, rangeCopy. rewrite rangeCopyLoop_ascii, cstr_id by done. apply bytes_str_bytes.
Qed.

Lemma decodeRune_width b s : (1 <= (decodeRune (b :: s)).2 <= S (length s))%nat.
Proof. unfold decodeRune. repeat case_match; cbn [snd length]; lia. Qed.

Lemma rangeCopyLoop_len fuel : forall b, (length (rangeCopyLoop fuel b) <= length b)%nat.
Proof.
  induction fuel as [|fuel IH]; intros b; [cbn; lia |]. destruct b as [|c b]; [done |]. cbn [rangeCopyLoop].
  destruct (decodeRune_width c b) as [Hw1 Hw2]. set (w := (decodeRune (c :: b)).2) in *. clearbody w. specialize (IH (drop w (c :: b))).
  cbn [length]. rewrite length_app, length_replicate. rewrite length_drop in IH. cbn [length] in IH. lia.
Qed.

Lemma slen_cutName name : slen (cutName name) <= slen name.
Proof.
  unfold slen, cutName. rewrite str_bytes_str. pose proof (len_cstr (rangeCopy name)).
  pose proof (rangeCopyLoop_len (length (str_bytes name)) (str_bytes name)). unfold rangeCopy, len in *. lia.
Qed.

Lemma header_go name : slen name < 64 ->
  pigeon_wire_stream_header_encode (str_bytes name) PIGEON_MAX_STREAM_HEADER = Some (EncodeStreamHeader name) /\
  exists n, cwDecodeStreamHeader (EncodeStreamHeader name) = Ok (name, n).
Proof.
  intros Hn. pose proof (len_nonneg (str_bytes name)) as H0. unfold slen in Hn. pose proof (len_PutUvarint (len (str_bytes name))) as Hp.
  unfold MaxVarintLen64 in Hp. unfold EncodeStreamHeader, slen. split.
  - unfold pigeon_wire_stream_header_encode. change PIGEON_MAX_STREAM_HEADER with 266. rewrite pigeon_uvarint_encode_spec by lia.
    rewrite (proj2 (Z.ltb_ge _ _)) by lia. cbn [mbind option_bind]. by rewrite (proj2 (Z.ltb_ge _ _)) by lia.
  - unfold cwDecodeStreamHeader, pigeon_wire_stream_header_decode. rewrite len_app, (proj2 (Z.eqb_neq _ _)) by lia.
    pose proof (Uvarint_Put (len (str_bytes name)) (str_bytes name) ltac:(lia)) as Hu.
    pose proof (pigeon_uvarint_decode_spec _ _ _ Hu) as Hd. rewrite (proj2 (Z.leb_gt _ 0)) in Hd by lia. rewrite Hd.
    rewrite (proj2 (Z.leb_gt _ 0)) by lia. rewrite (proj2 (Z.ltb_ge _ (len (str_bytes name)))) by lia.
    rewrite (proj2 (Z.ltb_ge 256 _)) by lia. rewrite drop_app_len, slice_len, bytes_str_bytes by done. by eexists.
Qed.

(** ** Lemmas: connecting *)

Lemma len_pos name : name <> EmptyString -> 0 < len (str_bytes name).
Proof.
  intros Hne. pose proof (len_nonneg (str_bytes name)). destruct (Z.eq_dec (len (str_bytes name)) 0) as [H0|]; [| lia]. exfalso. apply Hne.
  apply str_bytes_inj, nil_length_inv. unfold len in H0. lia.
Qed.

Lemma derive_channel_go r c nonce m : connectRecord r = Ok c -> len nonce = 16 -> DeriveSessionMaterial r false nonce = Ok m ->
  derive_session_channel c "client->backend" "backend->client" nonce = Some (SendKey m, RecvKey m).
Proof.
  unfold connectRecord. destruct (_ || _ || _); [done |]. destruct (64 <=? _); [done |]. intros [= <-] Hn.
  unfold DeriveSessionMaterial, derive_session_channel. destruct (_ || _); [done |]. destruct (negb _); [done |]. cbn [local_private_key peer_public_key].
  change ((64 <? slen "client->backend" + PIGEON_AUTH_NONCE_LEN) || (64 <? slen "backend->client" + PIGEON_AUTH_NONCE_LEN)) with false.
  unfold clientToBackend, backendToClient.
  destruct (pigeon_derive_session_key _ _ (str_bytes "client->backend" ++ nonce)) as [k1|]; [| done].
  destruct (pigeon_derive_session_key _ _ (str_bytes "backend->client" ++ nonce)) as [k2|]; [| done]. by intros [= <-].
Qed.

Lemma c_activation h at_ `{!Framed T h at_} device nonce (known : bool) (t : T) w rest :
  noNul device -> slen device <= 128 -> len nonce = 16 -> at_ t w -> inp w = frame (auth_reply known) ++ rest ->
  exists t1, interp (fun _ => false) (fun _ => None) (pigeon_run_client_activation h (str_bytes device) [] nonce) t = (t1, if known then Some nonce else None) /\
    at_ t1 {| out := out w ++ frame (auth_request (str_bytes device) nonce []); inp := rest |}.
Proof.
  intros Hd Hl Hn Ht Hi. pose proof (auth_reply_ok known) as (_ & _ & Hal). unfold PIGEON_AUTH_MAX_PAYLOAD in Hal.
  pose proof (interp_talk h at_ (fun _ => false) (fun _ => None) _ 1 t w [auth_reply known] rest
    (client_uses h (str_bytes device) [] nonce) ltac:(done) Ht) as Hx.
  rewrite client_talks in Hx by done. destruct Hx as (t1 & He & Ht1).
  - unfold frames. cbn. by rewrite app_nil_r.
  - constructor; [unfold MaxMessageSize; lia | constructor].
  - constructor; [| constructor]. pose proof (len_auth_request (str_bytes device) nonce [] Hl Hn ltac:(done)). unfold MaxMessageSize. lia.
  - exists t1. split; [done |]. unfold frames in Ht1. cbn in Ht1. by rewrite app_nil_r in Ht1.
Qed.

(** A sender that starts again at number 0 is refused once its first message
    was received. *)
Lemma restarted g cc cb x y : ready g cc cb -> send_seq cc = 0 -> fits x -> fits y ->
  exists c1 c2 cb', Stream.Send (W := bytes) (Some cc) [] x = (Some c1, frame (packet g 0 x), None) /\
    recvReader (R := bytes) (Some cb) (frame (packet g 0 x)) = (Some cb', [], Ok x) /\
    Stream.Send (W := bytes) (Some cc) [] y = (Some c2, frame (packet g 0 y), None) /\
    exists err, recvReader (R := bytes) (Some cb') (frame (packet g 0 y)) = (Some cb', [], Err err).
Proof.
  intros (Hg & Hg' & Hq & _ & Hm) Hz Hx Hy. rewrite Hz in Hq. rewrite !(send_pipe cc g), Hz by done.
  pose proof (reader_pipe cb g 0 x [] Hg' Hm (eq_sym Hq) ltac:(lia) Hx) as H1. rewrite app_nil_r in H1.
  eexists _, _, _. split; [done |]. split; [exact H1 |]. split; [done |]. eexists.
  pose proof (reader_refuses (with_recv_seq cb (u64 (0 + 1))) g 0 y []) as H2. rewrite app_nil_r in H2. apply H2; done.
Qed.

(** Arguments of cwire's [Connect] for a device with its record. *)
Definition cConnects (args : cwConnectArgs) (h : handle) (device : string) (rec : cwRecord) : Prop :=
  ccaRef args = RefOf true /\ ccaPrimary args = Some h /\ ccaPeerInstanceID args <> EmptyString /\ ccaDeviceID args = device /\
  ccaRecord args = Some rec /\ tooMany (ccaDatagrams args) = false /\ nameTooLong (ccaDatagrams args) = false /\
  dgchannels_ok [] (dgDefs rangeCopy (ccaDatagrams args)) = true.

Lemma cwConnect_ok h at_ `{!Framed T h at_} args device rec crec nonce m (t : T) w rest :
  cConnects args h device rec -> connectRecord rec = Ok crec -> device <> EmptyString -> noNul device -> slen device <= 128 -> len nonce = 16 ->
  DeriveSessionMaterial rec false nonce = Ok m -> len (SendKey m) = 32 -> len (RecvKey m) = 32 ->
  at_ t w -> inp w = frame (auth_reply true) ++ rest ->
  exists t1 s, cwConnect nonce (Some args) t = (t1, Ok s) /\ sessionOf m s /\ csPrimary s = Some h /\
    at_ t1 {| out := out w ++ frame (auth_request (str_bytes device) nonce []); inp := rest |}.
Proof.
  intros (Hr & Hp & Hiid & Hdev & Hrec & Htm & Hnl & Hok) Hc Hne Hnul Hl Hn Hm Hsk Hrk Ht Hi. unfold cwConnect.
  rewrite Hr, Hp, Hrec, Hdev. cbn [refOpen negb]. rewrite (bool_decide_eq_false_2 (ccaPeerInstanceID args = EmptyString)) by done.
  rewrite (bool_decide_eq_false_2 (device = EmptyString)), andb_false_r by done. rewrite (bool_decide_eq_false_2 (Some rec = None)) by done.
  cbn [andb]. rewrite Htm, Hc. cbn [rbind]. rewrite Hnl, CString_id by done. unfold pigeon_connect_on_transport.
  pose proof (len_pos device Hne).
  rewrite (proj2 (Z.eqb_neq _ 0)) by lia. destruct (c_activation h at_ device nonce true t w rest Hnul Hl Hn Ht Hi) as (t1 & -> & Ht1).
  rewrite (derive_channel_go rec crec nonce m Hc Hn Hm).
  assert (len (dgDefs rangeCopy (ccaDatagrams args)) <= 16) as Hdl.
  { unfold tooMany in Htm. apply Z.ltb_ge in Htm. unfold len, dgDefs in *. rewrite length_map. lia. }
  destruct (session_init_go m (dgDefs rangeCopy (ccaDatagrams args)) Hsk Hrk Hdl Hok) as (s & -> & Hof & _).
  cbn [fmap option_fmap option_map]. eexists t1, _. split; [reflexivity |]. by split_and!.
Qed.

(** ** Lemmas: incoming streams *)

(** The handles a session has buffered. *)
Definition held (s : pigeon_session) (h : handle) : Prop := exists name, Some (h, name) ∈ csIncoming s.

Lemma findSlot_spec p l i x : findSlot p l = Some (i, x) -> l !! i = Some x /\ p x = true.
Proof.
  revert i. induction l as [|y l IH]; intros i; cbn [findSlot]; [done |]. destruct (p y) eqn:Hy; [by intros [= <- <-] |].
  destruct (findSlot p l) as [[j z]|]; [| done]. intros [= <- <-]. by apply IH.
Qed.

(** Filling a free slot keeps what the others hold. *)
Lemma held_buffer s i x h name : findSlot slotFree (csIncoming s) = Some (i, x) ->
  held (with_incoming s (<[i := Some (h, name)]> (csIncoming s))) h /\
  forall h', held s h' -> held (with_incoming s (<[i := Some (h, name)]> (csIncoming s))) h'.
Proof.
  intros Hf. destruct (findSlot_spec _ _ _ _ Hf) as [Hi Hx]. destruct x; [done |]. split.
  - exists name. cbn. apply list_elem_of_insert. by eapply lookup_lt_Some.
  - intros h' [n Hn]. exists n. cbn. apply list_elem_of_lookup in Hn as [j Hj]. apply list_elem_of_lookup. exists j.
    rewrite list_lookup_insert_ne; [done |]. intros ->. congruence.
Qed.

(** A handle in the table after a step was there before it, or is [h]. *)
Lemma table_recv a h cap a' rv b : cwireGoRecvOnStream (T := goTransportAdapter duplex) a h cap = (a', rv, b) ->
  adAccepts a' = adAccepts a /\ forall h', is_Some (adStreams a' !! h') -> is_Some (adStreams a !! h').
Proof.
  unfold cwireGoRecvOnStream. cbn [gtRecvOnStream adapter_transport]. unfold adRecvOnStream.
  destruct (adStreams a !! h) as [w|] eqn:Hh; [| intros [= <- _ _]; done]. destruct (readMessage w) as [w' r].
  intros Hx. assert (a' = with_streams a (<[h := w']> (adStreams a))) as -> by (destruct r; [destruct (_ <? _) |]; by injection Hx).
  split; [done |]. cbn. intros h' Hs. destruct (decide (h' = h)) as [->|]; [by rewrite Hh |]. by rewrite lookup_insert_ne in Hs.
Qed.

Lemma table_close a h : adAccepts (cwireGoCloseStream (T := goTransportAdapter duplex) a h).1 = adAccepts a /\
  forall h', is_Some (adStreams (cwireGoCloseStream a h).1 !! h') -> is_Some (adStreams a !! h') /\ h' <> h.
Proof.
  unfold cwireGoCloseStream. cbn [gtCloseStream adapter_transport]. unfold adCloseStream.
  destruct (adStreams a !! h) as [w|] eqn:Hh; cbn; (split; [done |]); intros h' Hs.
  - destruct (decide (h' = h)) as [->|]; [rewrite lookup_delete_eq in Hs; by destruct Hs |]. by rewrite lookup_delete_ne in Hs.
  - split; [done |]. intros ->. rewrite Hh in Hs. by destruct Hs.
Qed.

Lemma table_accept a a' rv h : cwireGoAcceptStream (T := goTransportAdapter duplex) a = (a', rv, Some h) ->
  (length (adAccepts a) = S (length (adAccepts a')))%nat /\ forall h', is_Some (adStreams a' !! h') -> is_Some (adStreams a !! h') \/ h' = h.
Proof.
  unfold cwireGoAcceptStream. cbn [gtAcceptStream adapter_transport]. unfold adAcceptStream.
  destruct (adAccepts a) as [|[w|err] l]; [done | | done]. cbn. intros [= <- _ <-]. cbn. split; [done |]. intros h' Hs.
  destruct (decide (h' = adNext a)) as [->|]; [by right |]. left. by rewrite lookup_insert_ne in Hs.
Qed.

Lemma decoded_name buf cap name n : 0 < cap -> pigeon_wire_stream_header_decode buf cap = Some (name, n) -> len name < cap.
Proof.
  intros Hcap. unfold pigeon_wire_stream_header_decode. destruct (pigeon_uvarint_decode buf) as [ln k]. destruct (_ <=? 0); [done |].
  destruct (_ <? ln); [done |]. destruct (Z.ltb_spec cap (ln + 1)); [done |]. intros [= <- _]. unfold len. rewrite length_take. lia.
Qed.

Lemma boundStream_ok s h name : len name < 64 -> exists st, boundStream s h name = Some st /\ stHandle st = Some h /\ stName st = name.
Proof.
  intros Hl. unfold boundStream, pigeon_stream_bind_aead. destruct (csKeys s) as [[k1 k2]|]; [| by eexists].
  unfold pigeon_session_stream_aead. rewrite (proj2 (Z.leb_gt _ _)) by (unfold PIGEON_MAX_NAME_LEN; lia).
  assert (len (str_bytes "pigeon/v1/stream:" ++ name) <= 255) as Hi by (rewrite len_app; change (len (str_bytes "pigeon/v1/stream:")) with 17; lia).
  cbn [fst snd]. destruct (diversified k1 _ Hi) as (x & -> & _). destruct (diversified k2 _ Hi) as (y & -> & _). cbn [mbind option_bind]. by eexists.
Qed.

(** What a call did with the streams it took: [r] is what it returned. *)
Definition accounted (s s' : pigeon_session) (a a' : goTransportAdapter duplex) (r : option pigeon_stream) : Prop :=
  (forall h, is_Some (adStreams a' !! h) -> is_Some (adStreams a !! h) \/ held s' h \/ exists st, r = Some st /\ stHandle st = Some h) /\
  (forall h, held s h -> held s' h).

Lemma pull_accounted name fuel : forall s (a : goTransportAdapter duplex), (length (adAccepts a) < fuel)%nat ->
  exists s' a' r, pullIncoming fuel s name a = Some (s', a', r) /\ accounted s s' a a' r /\ forall st, r = Some st -> stName st = name.
Proof.
  induction fuel as [|fuel IH]; intros s a Hf; [lia |]. cbn [pullIncoming].
  assert (Hstop : forall a0, adStreams a0 = adStreams a -> accounted s s a a0 None) by (intros a0 E0; split; [intros h'; rewrite E0; by left | done]).
  destruct (cwireGoAcceptStream a) as [[a1 rv] [h|]] eqn:Hacc.
  2:{ assert (adStreams a1 = adStreams a) as E1.
      { revert Hacc. unfold cwireGoAcceptStream. cbn [gtAcceptStream adapter_transport]. unfold adAcceptStream.
        destruct (adAccepts a) as [|[w|err] l]; cbn; by intros [= <- _]. }
      exists s, a1, None. split; [by destruct rv |]. split; [by apply Hstop | done]. }
  assert (rv = 0) as ->.
  { revert Hacc. unfold cwireGoAcceptStream. destruct (gtAcceptStream a) as [? [?|?]]; by intros [= _ <-]. }
  destruct (table_accept _ _ _ _ Hacc) as [Hlen Ha1]. destruct (cwireGoRecvOnStream a1 h PIGEON_MAX_STREAM_HEADER) as [[a2 rv] hdr] eqn:Hrecv.
  destruct (table_recv _ _ _ _ _ _ Hrecv) as [Hl2 Ha2]. destruct (table_close a2 h) as [Hl3 Ha3].
  assert (Hclosed : exists s' a' r, pullIncoming fuel s name (cwireGoCloseStream a2 h).1 = Some (s', a', r) /\ accounted s s' a a' r /\
    forall st, r = Some st -> stName st = name).
  { destruct (IH s (cwireGoCloseStream a2 h).1) as (s' & a' & r & Hp & [Hin Hk] & Hn); [rewrite Hl3, Hl2; lia |].
    exists s', a', r. split; [done |]. split; [| done]. split; [| done]. intros h' Hs. destruct (Hin h' Hs) as [Hs2|]; [| by right].
    destruct (Ha3 h' Hs2) as [Hs1 Hne]. destruct (Ha1 h' (Ha2 h' Hs1)) as [|]; [by left | done]. }
  destruct (negb (rv =? 0)); [exact Hclosed |].
  destruct (pigeon_wire_stream_header_decode hdr PIGEON_MAX_NAME_LEN) as [[sname n]|] eqn:Hdec; [| exact Hclosed].
  apply decoded_name in Hdec; [| done]. pose proof (len_cstr sname). case_bool_decide as Hname.
  - destruct (boundStream_ok s h (cstr sname)) as (st & Hb & Hst & Hsn); [unfold PIGEON_MAX_NAME_LEN in Hdec; lia |].
    exists s, a2, (Some st). rewrite Hb. split; [done |]. split; [| by intros ? [= <-]; rewrite Hsn]. split; [| done].
    intros h' Hs. destruct (Ha1 h' (Ha2 h' Hs)) as [? | ->]; [by left |]. right. right. by exists st.
  - destruct (findSlot slotFree (csIncoming s)) as [[i x]|] eqn:Hslot; [| exact Hclosed].
    destruct (held_buffer s i x h (cstr sname) Hslot) as [Hh Hk].
    destruct (IH (with_incoming s (<[i := Some (h, cstr sname)]> (csIncoming s))) a2) as (s' & a' & r & Hp & [Hin Hk'] & Hn); [rewrite Hl2; lia |].
    exists s', a', r. split; [done |]. split; [| done]. split; [| by intros h' Hh'; apply Hk', Hk].
    intros h' Hs. destruct (Hin h' Hs) as [Hs2|]; [| by right]. destruct (Ha1 h' (Ha2 h' Hs2)) as [? | ->]; [by left |]. right. left. by apply Hk'.
Qed.

(** Accepting a stream by name.  Given fuel for the streams the
    connection has to offer, [pigeon_session_accept_incoming_stream] returns; the stream it
    returns has the name asked for; and no stream is lost: an open stream of the
    connection was open before, is buffered or is the one returned, and one that
    was buffered still is or is the one returned. *)
Theorem incoming_streams_accounted (s : pigeon_session) (name : bytes) (a : goTransportAdapter duplex) (fuel : nat) :
  len name < 64 -> (length (adAccepts a) < fuel)%nat ->
  exists s' a' r, pigeon_session_accept_incoming_stream fuel s name a = Some (s', a', r) /\ (forall st, r = Some st -> stName st = name) /\
    (forall h, is_Some (adStreams a' !! h) -> is_Some (adStreams a !! h) \/ held s' h \/ exists st, r = Some st /\ stHandle st = Some h) /\
    (forall h, held s h -> held s' h \/ exists st, r = Some st /\ stHandle st = Some h).
Proof.
  intros Hl Hf. unfold pigeon_session_accept_incoming_stream.
  destruct (pull_accounted name fuel s a Hf) as (s0 & a0 & r0 & Hp & [Hin Hk] & Hn).
  assert (Hpull : exists s' a' r, pullIncoming fuel s name a = Some (s', a', r) /\ (forall st, r = Some st -> stName st = name) /\
    (forall h, is_Some (adStreams a' !! h) -> is_Some (adStreams a !! h) \/ held s' h \/ exists st, r = Some st /\ stHandle st = Some h) /\
    (forall h, held s h -> held s' h \/ exists st, r = Some st /\ stHandle st = Some h)).
  { exists s0, a0, r0. split_and!; [done .. |]. intros h Hh. left. by apply Hk. }
  destruct (findSlot (slotNamed name) (csIncoming s)) as [[i [[h n]|]]|] eqn:Hslot; [| exact Hpull ..].
  destruct (findSlot_spec _ _ _ _ Hslot) as [Hi _]. set (s' := with_incoming s (<[i := None]> (csIncoming s))).
  assert (slice_to name (PIGEON_MAX_NAME_LEN - 1) = name) as -> by (apply take_ge; unfold len, PIGEON_MAX_NAME_LEN in *; lia).
  destruct (boundStream_ok s' h name Hl) as (st & -> & Hst & Hsn). eexists s', a, (Some st). split; [done |].
  split; [by intros ? [= <-] |]. split; [by left |]. intros h' [n' Hin']. apply list_elem_of_lookup in Hin' as [j Hj].
  destruct (decide (j = i)) as [->|Hne].
  - right. exists st. split; [done |]. congruence.
  - left. exists n'. apply list_elem_of_lookup. exists j. unfold s'. cbn. by rewrite list_lookup_insert_ne.
Qed.

(** ** Properties *)



(** C32. Who faces whom on an accepted stream.  A stream that one C session
    opens under a name of less than 64 bytes has Go's channel of that name;
    the stream [AcceptStreamFromGo] returns for its header at the other end
    carries the name but has the channel of the name cut at its first character outside ASCII
    (one byte of which is kept).  On an ASCII name each end receives what the other sends;
    streams of any names that are cut to the same one are accepted with one
    and the same channel, so they use the same keys from the same counter. *)
Theorem accepted_stream_keyed_by_cut_name (m1 m2 : SessionMaterial) (s1 s2 : pigeon_session) (name : string) (t t1 t2 t' t1' t2' : T) (h h' : handle) :
  mirrored m1 m2 -> sessionOf m1 s1 -> sessionOf m2 s2 -> name <> EmptyString -> noNul name -> slen name < 64 ->
  gtOpenStream t = (t1, Ok h) -> gtSendOnStream t1 h (EncodeStreamHeader name) = (t2, None) ->
  gtAcceptStream t' = (t1', Ok h') -> gtRecvOnStream t1' h' = (t2', Ok (EncodeStreamHeader name)) ->
  exists st st' c1 c2, cwOpenStream s1 name t = (t2, Ok st) /\ AcceptStreamFromGo s2 (RefOf true) t' = (t2', Ok (st', name)) /\
    stAead st = Some c1 /\ stAead st' = Some c2 /\ StreamChannel m1 name = Ok c1 /\ StreamChannel m2 (cutName name) = Ok c2 /\
    (plainName name -> forall msgs, Forall fits msgs -> delivered c1 c2 msgs /\ delivered c2 c1 msgs) /\
    forall other st'' t3 t3', cutName other = cutName name -> AcceptStreamFromGo s2 (RefOf true) t3 = (t3', Ok (st'', other)) ->
      stAead st'' = Some c2.
Proof.
  intros Hm [Hk1 _] [Hk2 _] Hne Hnul Hl Hopen Hsend Hacc Hrecv. pose proof Hm as (E1 & E2 & Hl1 & Hl2).
  destruct (bound_go m1 s1 name h Hl1 Hl2 Hk1 Hl) as (c1 & Hc1 & Hb1).
  pose proof (slen_cutName name) as Hcut. rewrite E1 in Hl1. rewrite E2 in Hl2.
  destruct (bound_go m2 s2 (cutName name) h' Hl2 Hl1 Hk2) as (c2 & Hc2 & Hb2); [lia |].
  destruct (header_go name Hl) as (He & n & Hd). eexists _, _, c1, c2. split_and!.
  - unfold cwOpenStream, pigeon_session_open_stream, cwireGoOpenStream, cwireGoSendOnStream. rewrite CString_id, Hopen by done.
    rewrite (proj2 (Z.eqb_neq _ 0)) by (pose proof (len_pos name Hne); lia).
    unfold slen in Hl. rewrite (proj2 (Z.leb_gt _ _)) by (unfold PIGEON_MAX_NAME_LEN; lia). cbn [orb]. rewrite He, Hsend. cbn [toInt Z.eqb negb].
    unfold boundStream in Hb1. destruct (pigeon_stream_bind_aead s1 (str_bytes name)) as [aead|]; [| done]. injection Hb1 as ->. reflexivity.
  - unfold AcceptStreamFromGo. cbn [refOpen negb]. rewrite Hacc, Hrecv, Hd. cbn [rbind]. rewrite (proj2 (Z.leb_gt _ _)) by lia.
    unfold cutName in Hb2. rewrite str_bytes_str in Hb2. rewrite Hb2. reflexivity.
  - done.
  - done.
  - done.
  - done.
  - intros Hp msgs Hf. rewrite cutName_plain in Hc2 by done.
    destruct (material_ready m1 m2 name Hm) as (cc & cb & g1 & g2 & Hcc & Hcb & Hr1 & Hr2 & _); [lia |].
    rewrite Hc1 in Hcc. rewrite Hc2 in Hcb. injection Hcc as <-. injection Hcb as <-. split; by eapply ready_delivers.
  - intros other st'' t3 t3' Hco. unfold AcceptStreamFromGo. cbn [refOpen negb].
    destruct (gtAcceptStream t3) as [t4 [h4|]]; [| done]. destruct (gtRecvOnStream t4 h4) as [t5 [hdr|]]; [| done].
    destruct (cwDecodeStreamHeader hdr) as [[nm k]|]; cbn [rbind]; [| done]. destruct (64 <=? slen nm); [done |].
    destruct (boundStream s2 h4 (cstr (rangeCopy nm))) as [st|] eqn:Hbs; [| done]. intros [= _ <- ->].
    assert (cstr (rangeCopy other) = str_bytes (cutName name)) as Ecut by (rewrite <-Hco; unfold cutName; by rewrite str_bytes_str).
    rewrite Ecut in Hbs. unfold boundStream in *. destruct (pigeon_stream_bind_aead s2 _) as [aead|]; [| done].
    injection Hb2 as ->. by injection Hbs as <-.
Qed.
End Equivalence.

(** ** Datagrams *)

(** A datagram without its message number. *)
Definition unnumbered (data : bytes) : bytes :=
  match data with
  | tag :: rest => if bool_decide (tag = DgConnFragment) then tag :: drop 4 rest else data
  | [] => []
  end.

(** The datagram side of a Go session whose process has used [n] message
    numbers, over the carrier [t]. *)
Definition goSender {T} (dg : pigeon_channel) (n : Z) (t : T) : DgSender (Ch := pigeon_channel) (T := T) :=
  {| dgChannel := Some dg; Datagram.transport := Some t; maxDgPayload := MaxDatagramPayload; nextFragMsgID := n |}.

Section Datagrams.
Context {P : Primitives} {So : Sodium P} {PL : PrimitivesLaws P} {SL : SodiumLaws So}.

(** Carriers that were sent the same datagrams but for their numbers. *)
Definition sentAlike (t u : goTransportAdapter duplex) : Prop :=
  map unnumbered (adSent t) = map unnumbered (adSent u) /\ adSendResults t = adSendResults u.

Lemma fragment_unnumbered n n' i total ct : 2 <= total <= 65535 ->
  unnumbered (encodePartWire n (u16 i) (u16 total) ct) = unnumbered (fragmentHeader n' i total ++ ct).
Proof.
  intros Ht. unfold encodePartWire, fragmentHeader. rewrite (u16_small total) by lia. rewrite (proj2 (Z.leb_gt _ _)) by lia.
  cbn [app unnumbered]. by rewrite bool_decide_eq_true_2 by done.
Qed.

Lemma fragment_same n i total ct : 2 <= total <= 65535 -> encodePartWire n (u16 i) (u16 total) ct = fragmentHeader n i total ++ ct.
Proof.
  intros Ht. unfold encodePartWire, fragmentHeader. rewrite (u16_small total) by lia. by rewrite (proj2 (Z.leb_gt _ _)) by lia.
Qed.

(** The state of a fresh session, against a Go sender over a related carrier. *)
Lemma fresh_same {T} `{!GoTransport T} (R : T -> T -> Prop) m s dg n t : sessionOf m s -> DatagramChannel m = Ok dg -> R t t ->
  sameSender R (goSender dg n t) s t /\ csDgChannel s <> None /\ 0 <= csMaxDgPayload s <= PIGEON_MAX_MSG /\ csNextDgMsgID s = 1.
Proof.
  intros (_ & dg' & Hdg' & Hc & Hmax & Hnext) Hdg HR. rewrite Hdg in Hdg'. injection Hdg' as <-. rewrite Hmax, Hc. split; [| split; [done |]; split; [| done]].
  - split; [by rewrite Hc |]. split; [by rewrite Hmax |]. by exists t.
  - unfold MaxDatagramPayload, PIGEON_MAX_MSG. lia.
Qed.

(** C8. The datagrams of a C session are Go's.  Take a session that [NewGoSession]
    made from a session's keys, a Go session with those keys in a process that
    has drawn any number of message numbers, and any sequence of
    messages on any channels.  Over carriers that accept and refuse alike the two
    send the same datagrams, in the same parts, but for the message
    number in a part's header (Go counts per process, C per session), and each
    send succeeds or fails in both, C never reading outside the payload; when the Go process has drawn no
    number yet and there are fewer than 2^32 - 2 messages, the datagrams are the
    same to the byte, over any carrier.  Of a datagram of up to 1 MiB that arrives,
    whatever both sent before, what the C session returns on a channel is the part
    that Go queues there, and when it returns none Go queues none there. *)
Theorem c_datagrams_are_go_datagrams {T} `{!GoTransport T} (m : SessionMaterial) (defs : list (string * Z)) (s : pigeon_session) (n : Z)
    (msgs : list (Z * bytes)) :
  len (SendKey m) = 32 -> len (RecvKey m) = 32 ->
  NewGoSession (RefOf true) (Some (pigeon_channel_init (SendKey m) (RecvKey m) ModeStrict)) defs = Ok s ->
  Forall (fun x => 0 <= x.1 < 2 ^ 64) msgs ->
  exists dg, DatagramChannel m = Ok dg /\
    (forall t : goTransportAdapter duplex,
       let '(d', outcomes) := goSends (goSender dg n t) msgs in
       exists s' t' u rs, cSends s msgs t = (s', t', rs) /\ Datagram.transport d' = Some u /\
         map unnumbered (adSent u) = map unnumbered (adSent t') /\ Forall2 sameOutcome outcomes rs) /\
    (n = 0 -> len msgs < 2 ^ 32 - 2 -> forall t : T,
       let '(d', outcomes) := goSends (goSender dg n t) msgs in
       exists s' t' rs, cSends s msgs t = (s', t', rs) /\ Datagram.transport d' = Some t' /\ Forall2 sameOutcome outcomes rs) /\
    (forall s' r pick id (t t1 : T) data, csDgChannel s' <> None -> rxChannel r = csDgChannel s' ->
       gtRecvDatagram t = (t1, Ok data) -> len data <= PIGEON_MAX_MSG ->
       let r' := deliverIncomingDatagram pick r data in
       exists s'' k res, pigeon_datagram_recv s' id recvBuf t = (s'', t1, k, res) /\ rxChannel r' = csDgChannel s'' /\
         match res with
         | None => k < 0 /\ Datagram.datagrams r' !! id = Datagram.datagrams r !! id
         | Some (part, buf) => k = len buf /\
             forall q, Datagram.datagrams r !! id = Some q -> (length q < rxCap)%nat -> Datagram.ctxDone r = false ->
               Datagram.datagrams r' !! id =
                 Some (q ++ [{| MsgID := partMsgID part; Index := partIndex part; Total := partTotal part; Payload := buf |}])
         end).
Proof.
  intros Hs Hr Hnew Hids. pose proof (NewGoSession_of m defs s Hs Hr Hnew) as Hof. pose proof Hof as (_ & dg & Hdg & _). exists dg. split; [done |].
  split_and!.
  - intros t. destruct (fresh_same sentAlike m s dg n t Hof Hdg (conj eq_refl eq_refl)) as (Hd & Hch & HM & _).
    pose proof (sends_go sentAlike (fun x y => unnumbered x = unnumbered y) (fun _ _ => True) (fun _ _ _ => True)) as Hgo.
    specialize (Hgo ltac:(done) ltac:(intros; by apply fragment_unnumbered)).
    assert (Hsend : forall t u x y, sentAlike t u -> unnumbered x = unnumbered y ->
      sentAlike (gtSendDatagram t x).1 (gtSendDatagram u y).1 /\ ((gtSendDatagram t x).2 = None <-> (gtSendDatagram u y).2 = None)).
    { intros t1 u1 x y [H1 H2] Hxy. unfold sentAlike. cbn. rewrite !map_app, H1, H2. cbn [map]. by rewrite Hxy. }
    specialize (Hgo Hsend ltac:(done) msgs (goSender dg n t) s t Hd Hch Hids HM I). destruct (goSends _ msgs) as [d' os].
    destruct Hgo as (s' & t' & rs & -> & (_ & _ & u & Hu & Hal & _) & Hos & _). by exists s', t', u, rs.
  - intros -> Hl t. destruct (fresh_same eq m s dg 0 t Hof Hdg eq_refl) as (Hd & Hch & HM & Hnext).
    pose proof (sends_go eq eq eq (fun k a b => b = a + 1 /\ 0 <= a /\ a + Z.of_nat k < 2 ^ 32 - 2)) as Hgo.
    specialize (Hgo ltac:(done) ltac:(intros ? ? ? ? ? -> ?; by apply fragment_same) ltac:(by intros ? ? ? ? -> ->)).
    assert (Hnum : forall k a b, b = a + 1 /\ 0 <= a /\ a + Z.of_nat (S k) < 2 ^ 32 - 2 -> u32 (a + 1) = b /\
      ((if u32 (b + 1) =? 0 then 1 else u32 (b + 1)) = u32 (a + 1) + 1 /\ 0 <= u32 (a + 1) /\ u32 (a + 1) + Z.of_nat k < 2 ^ 32 - 2) /\
      b = a + 1 /\ 0 <= a /\ a + Z.of_nat k < 2 ^ 32 - 2).
    { intros k a b (-> & Ha & Hk). rewrite !u32_small by lia. rewrite (proj2 (Z.eqb_neq _ 0)) by lia. split_and!; lia. }
    specialize (Hgo Hnum msgs (goSender dg 0 t) s t Hd Hch Hids HM). rewrite Hnext in Hgo. destruct (goSends _ msgs) as [d' os].
    destruct Hgo as (s' & t' & rs & -> & (_ & _ & u & Hu & ->) & Hos & _); [cbn; unfold len in Hl; lia |]. by exists s', t', rs.
  - intros s' r pick id t t1 data Hch Hrx Hrecv Hd. by apply datagram_recv_go.
Qed.
End Datagrams.

(** ** A phone on the C library *)

#[local] Existing Instance toySodium.

Definition phoneMaterial : SessionMaterial := {| SendKey := replicate 32 x01; RecvKey := replicate 32 x02 |}.
Definition deskMaterial : SessionMaterial := {| SendKey := replicate 32 x02; RecvKey := replicate 32 x01 |}.
Definition phoneKeys : pigeon_channel := pigeon_channel_init (SendKey phoneMaterial) (RecvKey phoneMaterial) ModeStrict.
Definition wire : goTransportAdapter duplex := (newGoTransportAdapter {| out := []; inp := [] |}).1.
Definition wireHandle : handle := (newGoTransportAdapter {| out := []; inp := [] |}).2.

Definition streamNames : gmap handle string := {[ wireHandle := "chat"%string ]}.


Lemma c_datagrams_are_go_datagrams_witness :
  exists s dg d' os s' t' u rs, NewGoSession (P := toy) (RefOf true) (Some phoneKeys) [("pos"%string, 7)] = Ok s /\
    DatagramChannel (P := toy) phoneMaterial = Ok dg /\
    goSends (P := toy) (goSender dg 41 wire) [(7, replicate 1500 x41)] = (d', os) /\ Datagram.transport d' = Some u /\
    cSends (P := toy) s [(7, replicate 1500 x41)] wire = (s', t', rs) /\
    map unnumbered (adSent u) = map unnumbered (adSent t') /\ length (adSent t') = 2%nat.
Proof.
  destruct (NewGoSession (P := toy) (RefOf true) (Some phoneKeys) [("pos"%string, 7)]) as [s|err] eqn:E; [| vm_compute in E; discriminate E].
  destruct (c_datagrams_are_go_datagrams (P := toy) (T := goTransportAdapter duplex) phoneMaterial [("pos"%string, 7)] s 41 [(7, replicate 1500 x41)])
    as (dg & Hdg & Hrun & _); [reflexivity | reflexivity | exact E | repeat (constructor; [cbn; lia |]); constructor |].
  specialize (Hrun wire). destruct (goSends _ _) as [d' os] eqn:Eg. destruct Hrun as (s' & t' & u & rs & Hc & Ht & Hm & _).
  exists s, dg, d', os, s', t', u, rs. split; [reflexivity |]. split; [exact Hdg |]. split; [exact Eg |]. split; [exact Ht |].
  split; [exact Hc |]. split; [exact Hm |]. vm_compute in E. injection E as <-. apply (f_equal (fun x => length (adSent x.1.2))) in Hc.
  cbn [fst snd] in Hc. rewrite <-Hc. vm_compute. reflexivity.
Defined.

(** Two accented letters. *)
Definition eAcute : string := bytes_str [xc3; xa9].
Definition eGrave : string := bytes_str [xc3; xa8].
Definition deskKeys : pigeon_channel := pigeon_channel_init (SendKey deskMaterial) (RecvKey deskMaterial) ModeStrict.
Definition opening : goTransportAdapter duplex := with_opens wire [Ok {| out := []; inp := [] |}].
Definition accepting (name : string) : goTransportAdapter duplex := with_accepts wire [Ok {| out := []; inp := frame (EncodeStreamHeader name) |}].

Lemma accepted_stream_keyed_by_cut_name_witness :
  exists s2 st st' t t', NewGoSession (P := toy) (RefOf true) (Some deskKeys) [] = Ok s2 /\
    AcceptStreamFromGo (P := toy) s2 (RefOf true) (accepting eAcute) = (t, Ok (st, eAcute)) /\
    AcceptStreamFromGo (P := toy) s2 (RefOf true) (accepting eGrave) = (t', Ok (st', eGrave)) /\
    is_Some (stAead st) /\ stAead st' = stAead st.
Proof.
  destruct (NewGoSession (P := toy) (RefOf true) (Some phoneKeys) []) as [s1|err] eqn:E1; [| vm_compute in E1; discriminate E1].
  destruct (NewGoSession (P := toy) (RefOf true) (Some deskKeys) []) as [s2|err] eqn:E2; [| vm_compute in E2; discriminate E2].
  destruct (accepted_stream_keyed_by_cut_name (P := toy) phoneMaterial deskMaterial s1 s2 eAcute opening (gtOpenStream opening).1
    (gtSendOnStream (gtOpenStream opening).1 1%nat (EncodeStreamHeader eAcute)).1 (accepting eAcute) (gtAcceptStream (accepting eAcute)).1
    (gtRecvOnStream (gtAcceptStream (accepting eAcute)).1 1%nat).1 1%nat 1%nat) as (st & st' & c1 & c2 & _ & Ha & _ & Hc2 & _ & _ & _ & Hcol);
    [split; [reflexivity |]; split; [reflexivity |]; split; reflexivity
    | apply (NewGoSession_of (P := toy) phoneMaterial [] s1 eq_refl eq_refl E1) | apply (NewGoSession_of (P := toy) deskMaterial [] s2 eq_refl eq_refl E2)
    | discriminate | by_dec | reflexivity | vm_compute; reflexivity ..|].
  destruct (AcceptStreamFromGo (P := toy) s2 (RefOf true) (accepting eGrave)) as [t3 r] eqn:E3.
  assert (exists st'', r = Ok (st'', eGrave)) as [st'' ->].
  { apply (f_equal snd) in E3. cbn [snd] in E3. rewrite <-E3. vm_compute in E2. injection E2 as <-. vm_compute. eexists. reflexivity. }
  exists s2, st', st'', (gtRecvOnStream (gtAcceptStream (accepting eAcute)).1 1%nat).1, t3. split; [reflexivity |]. split; [exact Ha |]. split; [exact E3 |].
  rewrite (Hcol eGrave st'' (accepting eGrave) t3 ltac:(vm_compute; reflexivity) E3), Hc2. split; [eexists; reflexivity | reflexivity].
Defined.

(** A channel declared under an accented name is found in a session of
    [NewGoSession], not in one of [Connect]. *)
Example connect_loses_accented_datagram :
  (fun s => pigeon_session_get_datagram s (CString eAcute)) <$> pigeon_session_init (P := toy) (Some deskKeys) (dgDefs str_bytes [(eAcute, 7)]) =
    Some (Some 7) /\
  (fun s => pigeon_session_get_datagram s (CString eAcute)) <$> pigeon_session_init (P := toy) (Some deskKeys) (dgDefs rangeCopy [(eAcute, 7)]) =
    Some None.
Proof. split; vm_compute; reflexivity. Qed.

Definition phoneRecord : cwRecord := pairingRecordToCwire (recordOf (P := toy) key1 key2 "desk" "r").
Definition phoneConnects : cwConnectArgs :=
  {| ccaRef := RefOf true; ccaPrimary := Some wireHandle; ccaPeerInstanceID := "desk"; ccaDeviceID := "phone"; ccaRecord := Some phoneRecord;
     ccaDatagrams := [("pos"%string, 7)] |}.
Definition wireWith (i : bytes) : goTransportAdapter duplex := (newGoTransportAdapter {| out := []; inp := i |}).1.

